(* ===== verification/_CoqProject ===== *)
-Q . S2P
Prelude.v
Text.v
JsValue.v
Json.v
JsonText.v
Utf8.v
JsonClean.v
Sha256.v
PathPolicy.v
Envelope.v
Canonical.v
JsMap.v
WireTables.v
WireFields.v
ProviderManagement.v
WireWorkspace.v
Types.v
ModelRequest.v
Events.v
Arith.v
EventSchema.v
WireResults.v
WireResultsFacts.v
WireRequest.v
WireRequestFacts.v
WireMessages.v
WireMessagesFacts.v
Connection.v
ConnectionFacts.v
Redaction.v
EventLog.v
CommandJournal.v
CommandJournalFacts.v
CommandJournalRuns.v
WireJournal.v
SessionTree.v
Replay.v
Projector.v
ProjectorFacts.v
Subscriptions.v
SubscriptionFacts.v
SubscriptionClient.v
SessionQueue.v
SessionQueueFacts.v
SessionQueueRuns.v
ReplayLog.v
Migration.v
MigrationFacts.v
MigrationRuns.v
Tools.v
FileTools.v
FileToolsFacts.v
FileQueue.v
ModelStream.v
Compaction.v
MigrationContext.v
ProviderTypes.v
Thinking.v
Dialect.v
Preparation.v
PreparationFacts.v
StrictSchema.v
Sse.v
SseFacts.v
ProviderPort.v
ProviderPortFacts.v
Anthropic.v
AnthropicFacts.v
AnthropicStream.v
AgentSession.v
SessionFacts.v
SessionRetry.v
PortSession.v
AnthropicTurn.v
SessionGuard.v
SessionCalls.v
Overlap.v
SessionCompact.v
