(* ===== verification/Prelude.v ===== *)
(** * Axl: verification of the durable core

    Axl is a coding agent: a daemon owns sessions, a session is an append-only log of
    canonical events, and everything else - the conversation a model sees, the tree of
    branches, compaction, recovery after a crash, the answers retried commands get - is
    computed from logs. This development models that core, from the bytes of the files
    to the operations of a live session, and proves what the rest of the system relies on.

    ** How the program's parts fit together, and where each is modelled

    Paths are under src/packages/.

    - Values. [Text], [JsValue], [Json], [JsonText], [Utf8], [JsonClean], [JsMap] and
      [Arith] model what the source uses of the language: strings with their UTF-8 bytes
      and UTF-16 lengths, regular expressions (one syntax tree per literal, matched by
      derivatives, with their languages), binary64 numbers, [unknown] values,
      [JSON.stringify] and [JSON.parse] on bytes, decoding with replacement, [Map]s in
      insertion order. No file of the program is modelled there.
    - Protocol (protocol/src). [Envelope] is event-envelope.ts: identifiers, the JSON
      validation with its work list, the envelope. [Types] is the declared types of
      events.ts and model-stream.ts; [Events] the run-time parsers of all 38 event types
      and [EventSchema] the proof that parsers and types agree. [ModelRequest] is
      model-request.ts, [ModelStream] is model-stream.ts. [Canonical] and [Sha256] are
      canonical-request.ts, the encoding and the hash that identify a retried request.
    - The wire (protocol/src/wire.ts and provider-management.ts). [WireTables] is the
      tables of methods, codes and limits, [WireFields] the checks every parser is made
      of, [ProviderManagement] the provider catalogue, [WireWorkspace] the workspace
      results, [WireResults] the results of each method, [WireRequest] the parameters of
      each method and the request, [WireMessages] what the daemon sends. [WireResultsFacts],
      [WireRequestFacts] and [WireMessagesFacts] prove each parser stable.
    - Storage (kernel/src). [Redaction] is redaction.ts; [EventLog] is jsonl-event-log.ts
      with canonical-event.ts: a session's file as its bytes, every call of the file system
      answered by the environment. [SessionTree] is session-tree.ts; [Replay] and
      [ReplayLog] are replay.ts; [PathPolicy] is path-policy.ts.
    - Tools (kernel/src/tools). [FileTools] is edit.ts, write.ts and read.ts over a map of
      files, with the answers of every call of the file system and every look at the abort
      signal as an argument, [FileToolsFacts] its proofs; [FileQueue] is
      file-mutation-queue.ts as a step function over the promises mutations wait for.
    - Sessions (kernel/src). [Tools] is tools.ts and tools/validate.ts; [Compaction] is
      compaction.ts; [AgentSession] is agent-session.ts, every operation of the class as a
      function of an error-and-state monad over the session and an environment that
      scripts ids, clocks, model streams, tools, sleeps and what clients do meanwhile.
      [SessionFacts], [SessionRetry], [SessionGuard], [SessionCalls], [SessionCompact]
      prove its properties; [Overlap] models appends of one session that overlap.
    - Daemon (daemon/src). [Connection] is the life of one connection of daemon.ts:
      chunks to lines, lines to requests, admission and authorisation, answers and
      refusals, writes and back-pressure; [ConnectionFacts] proves it. [CommandJournal] is
      command-journal.ts: records, file, opening, reconciliation, and the execution of
      commands as a step function whose actions interleave calls, effects, appends,
      crashes and restarts. [CommandJournalFacts] proves the records and the file,
      [CommandJournalRuns] the runs, [WireJournal] that what a run answers is a result of
      the wire. [Subscriptions] is what daemon.ts and session-manager.ts keep for the
      subscribers of a session: frozen snapshots and their pages, cursors, buffers,
      delivery and activation, the idle timer; [SubscriptionFacts] proves it for any
      sequence of events, requests, timers and disconnections. [SessionQueue] is the part
      of session-manager.ts that decides who runs in a session: the prompt queue and its
      drain, sends, interrupt deliveries, shells, compactions, rebuilds and restarts, each
      cut where it awaits; [SessionQueueFacts] is the invariant of any order of these
      steps and [SessionQueueRuns] what follows.
      [Migration] is event-migration.ts: the new events and their blobs, and the run of a
      migration over the files as a program of looks and changes that may stop between any
      two; [MigrationFacts] is what a migrated log is, [MigrationRuns] what a stopped run
      leaves, [MigrationContext] what becomes of a compaction.
    - Model requests (ai/src). [ProviderTypes] is the part of model.ts that requests depend
      on, [Thinking] is thinking.ts and request-configuration.ts, [Dialect] is dialect.ts,
      [Preparation] is request-preparation.ts and capabilities.ts: a request is checked and
      made ready for one model. [PreparationFacts] proves what a prepared history is,
      [StrictSchema] what a strict schema is. [Sse] is sse.ts and [SseFacts] its proofs.
      [Anthropic] is the codec of anthropic-messages.ts, with prices left out;
      [AnthropicFacts] shows what its requests hold, [AnthropicStream] what its streams are
      read as, and [AnthropicTurn] composes it with the port, the kernel's attempt of
      [AgentSession] and the preparation of the next request.
      [ProviderPort] is stream.ts and provider-port.ts, the model port of a session, from the
      kernel's request to the events the kernel reads; [ProviderPortFacts] proves it and
      [PortSession] puts the session of [AgentSession] on it.
    - Clients (sdk/src). [Projector] is projector.ts, the reduction of events and activity
      to what a client shows, and [ProjectorFacts] relates it to a per-item reading of the
      log. [SubscriptionClient] is the loading and delivery part of subscription.ts, and
      puts daemon, subscription and projector together.

    ** What the theorems show

    - What is stored can be read: parsing and typed events are inverse to each other
      (EventSchema), an append and a read are a round trip and a crash at any byte costs
      at most the event being appended (EventLog), the journal reopens after any run to
      the completions that were recorded (CommandJournalRuns), a replay reproduces a log
      (ReplayLog), the canonical text of a request identifies it and its hash is SHA-256
      of FIPS 180-4, with the constants computed from the primes (Canonical, Sha256).
    - Logs stay well formed: every operation extends a lineage and the log always builds a
      tree (SessionFacts), trees accept exactly the logs of the contract and walk lineages
      that end (SessionTree), tool calls and results pair (Replay, SessionCalls), opening
      answers whatever a crash left open (SessionCalls), an operation owns its branch and
      gives it back (SessionGuard).
    - The two ends of a connection understand each other: a parsed request, result or
      message, written out again, is parsed to itself (WireRequestFacts,
      WireResultsFacts, WireMessagesFacts); how the bytes of a connection are cut into
      chunks does not matter, an accepted request reaches its operation only with the
      capability its method needs, the daemon's answers and its refusals of at most 4096
      bytes are read back as they were meant (ConnectionFacts), and every answer the
      journal gives, live or replayed, is a result of its method (WireJournal).
    - Clients show the session: the projector computes what the log says of each call,
      interaction, interrupt and queued prompt, and shows a prefix of the log however its
      events arrive (ProjectorFacts); a subscriber is pushed every event after its
      snapshot or its cursor, once and in order (SubscriptionFacts); so a client that
      loads its pages and receives its deliveries shows the log, also when it lost its
      connection and resumed (SubscriptionClient).
    - The file tools do what they say: an edit replaces the text it was given and nothing
      else, a tool that fails leaves files as they were, pages of reads add up to the file
      (FileToolsFacts); mutations of one file are serial, those of others do not wait for
      them, and none waits for ever (FileQueue).
    - A session does one thing at a time: its branch has one owner, a queued prompt is
      held until it starts, runs at most once and is paused by a restart, and a session
      at rest has an empty queue (SessionQueueRuns).
    - Models see what they should: compaction preserves the context it projects, and its
      closure is the least one (Compaction); retries are bounded in number and delay and
      never follow exposed output (SessionRetry).
    - Providers get what they take: a prepared history answers every call at once, under
      identifiers of the right form, and keeps signatures exactly for the model that made
      them (PreparationFacts); strict schemas are closed at every level (StrictSchema); tool
      names lead back (Dialect); budgets leave room for the answer (Thinking); what a provider
      attached to a turn goes back with that turn, a stream ends once (ProviderPortFacts), and
      its bytes may be cut anywhere (SseFacts).
    - A provider's message survives the trip: through the Anthropic Messages codec, the port,
      the kernel's turn, the retained conversation and the next request, what a model said
      comes back to it as it was sent, and every call with its result (AnthropicStream,
      AnthropicTurn, AnthropicFacts).
    - A session moves: a migrated log opens, and a migration that stops anywhere is finished
      by running it again (MigrationFacts, MigrationRuns).
    - Effects run when they may: an idempotency key's effect starts again only when the
      journal lost track of it, and never after a completion is recorded
      (CommandJournalRuns); paths are decided on their canonical form (PathPolicy); no
      secret value survives in a stored payload (Redaction).
    - What the code does not do: theorems that exhibit runs with a wrong outcome
      ([overlap_loses_tool_call], [reused_call_id_locks_session],
      [failed_rollback_corrupts], [continueQueued_drops_message],
      [parseModelStreamEvent_accepts_array_reason], [empty_message_locks_journal],
      [unsynced_acceptance_locks_journal],
      [long_refusal_is_not_read], [thrown_event_not_retried],
      [overtaken_prompt_fails], [prompt_sleeps_after_reload], [edit_drops_dollar],
      [edit_misses_overlap], [edit_changes_other_bytes], [edit_drops_permissions],
      [long_line_is_never_shown], [migrated_compaction_has_no_context],
      [torn_note_stops_migrations], [torn_backup_is_final], [torn_blob_is_final],
      [torn_manifest_is_final], [silent_turn_is_final], [retried_turn_shifts_signatures],
      [configured_budget_overruns],
      [interleaved_thoughts_are_merged], [unexplained_overload_is_not_retried]).

    ** Conventions

    A function that may throw returns [result]; a method of a class takes and returns its
    state. What is outside the program is an argument: the file system answers an
    operation through a record ([io], [open_answers], [write_answer]), the clock and the
    random ids through functions, [realpath] and third-party code through parameters.
    [ResultContract] is the one interface between components that is a class: the journal
    is proved against any parser of results that accepts what it returned, and the parser
    of [WireResults] is its instance [wire_results].

    Fuel: the loop that loads pages runs over the times at which its requests are handled,
    and [client_shows_the_session] proves that as many as there are events are enough. The JSON work list of [Envelope] runs with the size of the value, [JSON.parse]
    with the length of the text, lineage walks with the number of nodes, the closure of
    [Compaction] with the number of events, the write loop of [EventLog] with the length
    of the line. Each file proves that its fuel is enough, so the fuel never decides a
    result. The retry loop of [AgentSession] has the
    largest number of attempts as its fuel ([model_turn_bounded]); its turn loop need not
    end, since a model may ask for tools for ever, so it takes a bound on the turns and
    [None] is the answer of a run that is still going.

    ** What is not modelled

    Strings are well-formed Unicode; lone surrogates, getters, proxies and cycles are not
    values of the model. Directories, the modes of logs, directory syncs and locks, sockets, processes, git,
    the transports of model providers and the codecs of all but one, terminal and browser interfaces are input and output
    around the core: a provider is what its stream yields. The run-time checks of declared
    types in request preparation never fail on typed arguments and are left out, as are image
    models, catalogues, costs and credentials. Of the session manager, steering, interrupt
    signals, interactions and checkpoints are left out of [SessionQueue]: a turn appends any
    events and ends when its last one is in the log; the code of an error that comes from
    below the session manager is written internal_error. Copies and summaries of sessions,
    blob storage, the staging of artifacts and the locks of a migration are left out. Of the
    client's subscription, the cursor store, the recovery after a refused delivery and the
    deliveries that arrive while pages load are not modelled. *)
From stdpp Require Import base list strings pretty.
From Stdlib Require Import ZArith Lia.

(** ** Computations that may throw

    A function of the source that may throw is a function into [result E A]:
    [Err e] is the thrown error, [Ok a] the returned value; [x ← m; k] runs [k]
    when [m] returned. *)

Inductive result (E A : Type) : Type :=
| Ok (a : A)
| Err (e : E).
Arguments Ok {E A} a.
Arguments Err {E A} e.

Definition rbind {E A B} (m : result E A) (f : A → result E B) : result E B :=
  match m with Ok a => f a | Err e => Err e end.
Definition rmap {E A B} (f : A → B) (m : result E A) : result E B :=
  match m with Ok a => Ok (f a) | Err e => Err e end.

Declare Scope result_scope.
Delimit Scope result_scope with result.
Notation "x ← m ; k" := (rbind m (λ x, k))
  (at level 20, m at level 100, k at level 200, only parsing) : result_scope.
Notation "' x ← m ; k" := (rbind m (λ x, k))
  (at level 20, x pattern, m at level 100, k at level 200, only parsing) : result_scope.
Notation "f <$$> m" := (rmap f m) (at level 61, left associativity) : result_scope.
#[global] Open Scope result_scope.

#[export] Instance result_eq_dec {E A} `{EqDecision E, EqDecision A} :
  EqDecision (result E A).
Proof. solve_decision. Defined.

Definition is_ok {E A} (m : result E A) : bool :=
  match m with Ok _ => true | Err _ => false end.

(** [if (!b) throw e] *)
Definition require {E} (b : bool) (e : E) : result E unit :=
  if b then Ok tt else Err e.

(** [if (b) throw e] *)
Definition refuse {E} (b : bool) (e : E) : result E unit :=
  if b then Err e else Ok tt.

(** [if (b) { body }], where the body only validates. *)
Definition when {E} (b : bool) (m : result E unit) : result E unit :=
  if b then m else Ok tt.

Section ResultLists.
Context {E A B : Type}.

(** [items.map((item, index) => f(index, item))], the first throw wins. *)
Fixpoint map_from (f : nat → A → result E B) (i : nat) (l : list A) : result E (list B) :=
  match l with
  | [] => Ok []
  | x :: l' => y ← f i x; ys ← map_from f (S i) l'; Ok (y :: ys)
  end.
Definition map_indexed (f : nat → A → result E B) (l : list A) : result E (list B) :=
  map_from f 0 l.

(** [for (const [index, item] of items.entries()) f(index, item);] *)
Fixpoint each_from (f : nat → A → result E unit) (i : nat) (l : list A) : result E unit :=
  match l with
  | [] => Ok tt
  | x :: l' => _ ← f i x; each_from f (S i) l'
  end.
Definition each_indexed (f : nat → A → result E unit) (l : list A) : result E unit :=
  each_from f 0 l.
Definition each (f : A → result E unit) (l : list A) : result E unit :=
  each_from (λ _, f) 0 l.

(** [for (const x of l) s = f(s, x);] with a body that may throw. *)
Fixpoint fold_res (f : B → A → result E B) (s : B) (l : list A) : result E B :=
  match l with
  | [] => Ok s
  | x :: l' => s' ← f s x; fold_res f s' l'
  end.
End ResultLists.

(** ** Lemmas on [result] *)

Section ResultLemmas.
Context {E : Type}.

Lemma bind_Ok {A B} (m : result E A) (f : A → result E B) y :
  (x ← m; f x) = Ok y ↔ ∃ x, m = Ok x ∧ f x = Ok y.
Proof.
  destruct m; simpl; split; [eauto | | done |]; intros (x & ? & ?); by simplify_eq.
Qed.

Lemma bind_Err {A B} (m : result E A) (f : A → result E B) e :
  (x ← m; f x) = Err e ↔ m = Err e ∨ ∃ x, m = Ok x ∧ f x = Err e.
Proof.
  destruct m as [a|e']; simpl; split.
  - eauto.
  - intros [? | (x & ? & ?)]; by simplify_eq.
  - intros ?; simplify_eq; auto.
  - intros [? | (x & ? & ?)]; by simplify_eq.
Qed.

Lemma rmap_Ok {A B} (m : result E A) (f : A → B) y :
  rmap f m = Ok y ↔ ∃ x, m = Ok x ∧ y = f x.
Proof.
  destruct m; simpl; split; [intros; simplify_eq; eauto | | done |];
    intros (x & ? & ?); by simplify_eq.
Qed.

Lemma require_Ok b (e : E) u : require b e = Ok u ↔ b = true.
Proof. destruct b, u; simpl; split; done. Qed.

Lemma refuse_Ok b (e : E) u : refuse b e = Ok u ↔ b = false.
Proof. destruct b, u; simpl; split; done. Qed.

Lemma when_Ok b (m : result E unit) u : when b m = Ok u ↔ (b = true → m = Ok tt).
Proof. destruct b, u; simpl; split; auto; done. Qed.

Lemma require_true b (e : E) : b = true → require b e = Ok tt.
Proof. by intros ->. Qed.

Lemma refuse_false b (e : E) : b = false → refuse b e = Ok tt.
Proof. by intros ->. Qed.

Lemma is_ok_true {A} (m : result E A) : is_ok m = true ↔ ∃ a, m = Ok a.
Proof. destruct m; simpl; split; eauto; [done | intros [? ?]; done]. Qed.

Lemma each_from_Ok {A} (f : nat → A → result E unit) i l :
  each_from f i l = Ok tt ↔ ∀ j x, l !! j = Some x → f (i + j) x = Ok tt.
Proof.
  revert i; induction l as [|x l IH]; intros i; simpl.
  - split; [intros _ j y Hj; by rewrite lookup_nil in Hj | done].
  - rewrite bind_Ok. setoid_rewrite IH. split.
    + intros ([] & Hx & Hl) [|j] y Hy; simpl in Hy; simplify_eq.
      * by rewrite Nat.add_0_r.
      * rewrite <- Nat.add_succ_comm. by apply Hl.
    + intros H. exists tt. split.
      * rewrite <- (Nat.add_0_r i). by apply (H 0).
      * intros j y Hy. rewrite Nat.add_succ_comm. by apply (H (S j)).
Qed.

Lemma each_indexed_Ok {A} (f : nat → A → result E unit) l u :
  each_indexed f l = Ok u ↔ ∀ j x, l !! j = Some x → f j x = Ok tt.
Proof. destruct u. apply each_from_Ok. Qed.

Lemma each_Ok {A} (f : A → result E unit) l u :
  each f l = Ok u ↔ Forall (λ x, f x = Ok tt) l.
Proof. destruct u. unfold each. rewrite each_from_Ok, Forall_lookup. done. Qed.

Lemma each_require_Ok {A} (p : A → bool) (e : A → E) l u :
  each (λ x, require (p x) (e x)) l = Ok u ↔ Forall (λ x, p x = true) l.
Proof. rewrite each_Ok. apply Forall_iff. intros x. apply require_Ok. Qed.

(** Membership tests on every element of a list. *)
Lemma each_elem_Ok {A} `{EqDecision A} (allowed : list A) (e : A → E) l u :
  each (λ x, require (bool_decide (x ∈ allowed)) (e x)) l = Ok u ↔ Forall (λ x, x ∈ allowed) l.
Proof. rewrite each_require_Ok. apply Forall_iff. intros x. apply bool_decide_eq_true. Qed.

Lemma map_from_Ok {A B} (f : nat → A → result E B) i l l' :
  map_from f i l = Ok l' ↔
    length l = length l' ∧
    ∀ j x y, l !! j = Some x → l' !! j = Some y → f (i + j) x = Ok y.
Proof.
  revert i l'; induction l as [|x l IH]; intros i l'; simpl.
  - split; [by intros [= <-] | intros [? _]; by destruct l'].
  - rewrite bind_Ok. setoid_rewrite bind_Ok. setoid_rewrite IH. split.
    + intros (y & Hy & ys & [Hlen Hys] & [= <-]). split; [by simpl; f_equal|].
      intros [|j] a b Ha Hb; simpl in *; simplify_eq; [by rewrite Nat.add_0_r|].
      rewrite <- Nat.add_succ_comm. eauto.
    + intros [Hlen H]. destruct l' as [|y ys]; [done|].
      exists y. split; [rewrite <- (Nat.add_0_r i); by eapply (H 0)|].
      exists ys. split_and!; [by simplify_eq/=| |done].
      intros j a b Ha Hb. rewrite Nat.add_succ_comm. by eapply (H (S j)).
Qed.

Lemma map_indexed_Ok {A B} (f : nat → A → result E B) l l' :
  map_indexed f l = Ok l' ↔
    length l = length l' ∧ ∀ j x y, l !! j = Some x → l' !! j = Some y → f j x = Ok y.
Proof. apply map_from_Ok. Qed.

Lemma fold_res_app {A B} (f : B → A → result E B) s l1 l2 :
  fold_res f s (l1 ++ l2) = (s' ← fold_res f s l1; fold_res f s' l2).
Proof.
  revert s; induction l1 as [|x l1 IH]; intros s; simpl; [done|].
  destruct (f s x) as [s'|e]; simpl; [apply IH | done].
Qed.

Lemma fold_res_inv {A B} (P : list A → B → Prop) (f : B → A → result E B) s l s' :
  P [] s →
  (∀ done x t t', P done t → f t x = Ok t' → P (done ++ [x]) t') →
  fold_res f s l = Ok s' → P l s'.
Proof.
  intros H0 Hstep. revert s'. induction l as [|x l IH] using rev_ind; intros s'.
  - simpl. by intros [= <-].
  - rewrite fold_res_app, bind_Ok. intros (t & Ht & Hx). simpl in Hx.
    apply bind_Ok in Hx as (t' & Hf & [= <-]). eauto.
Qed.
End ResultLemmas.

(** ** Lists *)

Lemma elem_of_rev {A} (x : A) l : x ∈ rev l ↔ x ∈ l.
Proof. rewrite !list_elem_of_In. symmetry. apply in_rev. Qed.

Create HintDb axl.
Create Rewrite HintDb axl_inv.
#[export] Hint Resolve require_true refuse_false : axl.
#[export] Hint Rewrite @bind_Ok @rmap_Ok @require_Ok @refuse_Ok @when_Ok @each_Ok
  @each_indexed_Ok @map_indexed_Ok : axl_inv.

(** Opens every hypothesis that says a computation returned normally. *)
Ltac inv_step :=
  match goal with
  | H : Ok _ = Ok _ |- _ => injection H; clear H; intros; subst
  | H : Err _ = Err _ |- _ => injection H; clear H; intros; subst
  | H : Some _ = Some _ |- _ => injection H; clear H; intros; subst
  | H : None = Some _ |- _ => discriminate H
  | H : Some _ = None |- _ => discriminate H
  | H : Ok _ = Err _ |- _ => discriminate H
  | H : Err _ = Ok _ |- _ => discriminate H
  | H : rbind _ _ = Ok _ |- _ =>
      let x := fresh "x" in let H1 := fresh "H" in let H2 := fresh "H" in
      apply bind_Ok in H as (x & H1 & H2)
  | H : rmap _ _ = Ok _ |- _ =>
      let x := fresh "x" in let H1 := fresh "H" in let H2 := fresh "H" in
      apply rmap_Ok in H as (x & H1 & H2); try (injection H2 as H2); subst
  | H : require _ _ = Ok _ |- _ => apply require_Ok in H
  | H : refuse _ _ = Ok _ |- _ => apply refuse_Ok in H
  | H : when _ _ = Ok _ |- _ => apply when_Ok in H
  | H : each _ _ = Ok _ |- _ => apply each_Ok in H
  | H : _ && _ = true |- _ => apply andb_true_iff in H as [? ?]
  | H : _ || _ = false |- _ => apply orb_false_iff in H as [? ?]
  | H : negb _ = true |- _ => apply negb_true_iff in H
  | H : negb _ = false |- _ => apply negb_false_iff in H
  | H : bool_decide _ = true |- _ => apply bool_decide_eq_true in H
  | H : bool_decide _ = false |- _ => apply bool_decide_eq_false in H
  | x : unit |- _ => destruct x
  end.
Ltac inv_ok := repeat inv_step.

(** Case analysis on the scrutinee of a match in a hypothesis or the goal. *)
Ltac case_on H :=
  match type of H with
  | context [match ?x with _ => _ end] => destruct x eqn:?
  end.
Ltac case_goal :=
  match goal with
  | |- context [match ?x with _ => _ end] => destruct x eqn:?
  end.

(** Distinct identifiers, for the samples. *)
Fixpoint tally (n : nat) : string := match n with 0 => "" | S n => "x" +:+ tally n end.

Lemma tally_inj m n : tally m = tally n → m = n.
Proof. revert n. induction m as [|m IH]; intros [|n] H; simplify_eq/=; auto. Qed.
