(* ===== verification/Text.v ===== *)
(** Strings of the language, as the source uses them.

    A string is [String.string]: the UTF-8 bytes of a well-formed Unicode
    string.  [new TextEncoder().encode(s).byteLength] is [String.length s];
    [s.length] counts UTF-16 code units ([js_length]).  Regular expressions
    are a syntax tree matched by derivatives, so each literal of the source is
    written down as it stands.  Strings with lone surrogates have no UTF-8
    encoding and are outside the model. *)
From stdpp Require Import base list strings.
From Stdlib Require Import ZArith Lia Ascii.
From S2P Require Import Prelude.

#[global] Arguments String.append !s1 s2 / : simpl nomatch.

(** ** Characters *)

Definition code (c : ascii) : N := N_of_ascii c.
Definition char_of (n : N) : ascii := ascii_of_N n.
Definition chr (n : N) : string := String (char_of n) "".

(** The double quote and the backslash. *)
Definition dquote : string := chr 34.
Definition backslash : string := chr 92.

Definition in_range (lo hi : N) (n : N) : bool := (lo <=? n)%N && (n <=? hi)%N.
Definition is_char (c d : ascii) : bool := bool_decide (c = d).
Definition is_digit (c : ascii) : bool := in_range 48 57 (code c).
Definition is_lower (c : ascii) : bool := in_range 97 122 (code c).
Definition is_upper (c : ascii) : bool := in_range 65 90 (code c).
Definition is_lower_hex (c : ascii) : bool := is_digit c || in_range 97 102 (code c).

(** [[...]]: one of the listed characters. *)
Definition one_of (s : string) (c : ascii) : bool := bool_decide (c ∈ String.list_ascii_of_string s).

(** ** UTF-8 and UTF-16 *)

Definition continuation (c : ascii) : bool := in_range 128 191 (code c).

(** The code points of a UTF-8 string; a byte that starts no sequence stands
    for U+FFFD. *)
Fixpoint code_points (s : string) : list N :=
  match s with
  | "" => []
  | String a s1 =>
      let n := code a in
      if (n <? 128)%N then n :: code_points s1
      else match s1 with
      | "" => [65533%N]
      | String b s2 =>
          let m := (code b - 128)%N in
          if in_range 192 223 n then ((n - 192) * 64 + m)%N :: code_points s2
          else match s2 with
          | "" => [65533%N]
          | String c s3 =>
              let o := (code c - 128)%N in
              if in_range 224 239 n then (((n - 224) * 64 + m) * 64 + o)%N :: code_points s3
              else match s3 with
              | "" => [65533%N]
              | String d s4 =>
                  ((((n - 240) * 64 + m) * 64 + o) * 64 + (code d - 128))%N :: code_points s4
              end
          end
      end
  end.

(** The UTF-8 bytes of a code point. *)
Definition utf8_encode (p : N) : string :=
  if (p <? 128)%N then chr p
  else if (p <? 2048)%N then chr (192 + p / 64) +:+ chr (128 + p mod 64)
  else if (p <? 65536)%N then
    chr (224 + p / 4096) +:+ chr (128 + (p / 64) mod 64) +:+ chr (128 + p mod 64)
  else chr (240 + p / 262144) +:+ chr (128 + (p / 4096) mod 64) +:+ chr (128 + (p / 64) mod 64)
       +:+ chr (128 + p mod 64).
Definition of_code_points (ps : list N) : string := String.concat "" (utf8_encode <$> ps).

(** Well-formed UTF-8: what a decoder in fatal mode accepts. *)
Fixpoint utf8_valid (s : string) : bool :=
  match s with
  | "" => true
  | String a s1 =>
      let n := code a in
      if (n <? 128)%N then utf8_valid s1
      else match s1 with
      | "" => false
      | String b s2 =>
          let m := code b in
          if in_range 194 223 n then continuation b && utf8_valid s2
          else match s2 with
          | "" => false
          | String c s3 =>
              if in_range 224 239 n then
                in_range (if (n =? 224)%N then 160 else 128) (if (n =? 237)%N then 159 else 191) m
                && continuation c && utf8_valid s3
              else match s3 with
              | "" => false
              | String d s4 =>
                  in_range 240 244 n
                  && in_range (if (n =? 240)%N then 144 else 128) (if (n =? 244)%N then 143 else 191) m
                  && continuation c && continuation d && utf8_valid s4
              end
          end
      end
  end.

(** UTF-16 code units of one code point. *)
Definition utf16_units (p : N) : Z := if (65536 <=? p)%N then 2 else 1.

(** [s.length] *)
Definition js_length (s : string) : Z :=
  fold_right (λ p n, (utf16_units p + n)%Z) 0%Z (code_points s).

(** [new TextEncoder().encode(s).byteLength] *)
Definition utf8_length (s : string) : Z := Z.of_nat (String.length s).

(** White space and line terminators, what [trim] removes. *)
Definition js_space (p : N) : bool :=
  in_range 9 13 p || bool_decide (p ∈ [32; 160; 5760; 8232; 8233; 8239; 8287; 12288; 65279]%N)
  || in_range 8192 8202 p.

Fixpoint drop_spaces (ps : list N) : list N :=
  match ps with
  | [] => []
  | p :: ps' => if js_space p then drop_spaces ps' else ps
  end.

(** [s.trim()] *)
Definition js_trim (s : string) : string :=
  of_code_points (rev (drop_spaces (rev (drop_spaces (code_points s))))).

(** [s.slice(0, n)] counts UTF-16 units; half of a surrogate pair is written
    U+FFFD, which every later encoding makes of it. *)
Fixpoint slice_points (n : Z) (ps : list N) : list N :=
  match ps with
  | [] => []
  | p :: ps' =>
      if (n <=? 0)%Z then []
      else if (utf16_units p <=? n)%Z then p :: slice_points (n - utf16_units p) ps'
      else [65533%N]
  end.
Definition js_slice_start (n : Z) (s : string) : string := of_code_points (slice_points n (code_points s)).

(** The general categories Cc and Cf. *)
Definition control_or_format (p : N) : bool :=
  in_range 0 31 p || in_range 127 159 p || (p =? 173)%N || in_range 1536 1541 p
  || bool_decide (p ∈ [1564; 1757; 1807; 2274; 6158; 65279; 69821; 69837; 917505]%N)
  || in_range 2192 2193 p || in_range 8203 8207 p || in_range 8234 8238 p
  || in_range 8288 8292 p || in_range 8294 8303 p || in_range 65529 65531 p
  || in_range 78896 78911 p || in_range 113824 113827 p || in_range 119155 119162 p
  || in_range 917536 917631 p.

(** [s.trim() === s] *)
Definition is_trimmed (s : string) : bool :=
  let ps := code_points s in
  match ps with
  | [] => true
  | p :: _ => negb (js_space p) && negb (js_space (List.last ps p))
  end.

(** [/[\p{Cc}\p{Cf}]/u.test(s)] *)
Definition has_control (s : string) : bool := existsb control_or_format (code_points s).

(** ** Substrings *)

(** [s.startsWith(p)] *)
Definition starts_with (p s : string) : bool := String.prefix p s.

(** [s.includes(sub)] *)
Fixpoint includes (sub s : string) : bool :=
  String.prefix sub s || match s with "" => false | String _ s' => includes sub s' end.

(** [s.split(sep)] for a one-character separator. *)
Fixpoint split_on (sep : ascii) (s : string) : list string :=
  match s with
  | "" => [""]
  | String c s' =>
      if is_char c sep then "" :: split_on sep s'
      else match split_on sep s' with
           | [] => [String c ""]
           | w :: ws => String c w :: ws
           end
  end.

(** [l.join(sep)] *)
Definition join (sep : string) (l : list string) : string := String.concat sep l.

(** ** Regular expressions *)

Inductive regex : Type :=
| RNone
| REmpty
| RClass (p : ascii → bool)
| RSeq (r1 r2 : regex)
| RAlt (r1 r2 : regex)
| RStar (r : regex).

Declare Scope regex_scope.
Delimit Scope regex_scope with regex.
Bind Scope regex_scope with regex.
Infix "⋅" := RSeq (at level 40, left associativity) : regex_scope.
Infix "∣" := RAlt (at level 45, left associativity) : regex_scope.

Definition RChar (c : ascii) : regex := RClass (is_char c).
Definition RAny : regex := RClass (λ _, true).
Definition RPlus (r : regex) : regex := RSeq r (RStar r).
Fixpoint RTimes (n : nat) (r : regex) : regex :=
  match n with 0 => REmpty | S n' => RSeq r (RTimes n' r) end.

Fixpoint nullable (r : regex) : bool :=
  match r with
  | RNone | RClass _ => false
  | REmpty | RStar _ => true
  | RSeq r1 r2 => nullable r1 && nullable r2
  | RAlt r1 r2 => nullable r1 || nullable r2
  end.

(** Smart constructors keep the derivatives small. *)
Definition mkseq (r1 r2 : regex) : regex :=
  match r1 with RNone => RNone | REmpty => r2 | _ => RSeq r1 r2 end.
Definition mkalt (r1 r2 : regex) : regex :=
  match r1, r2 with RNone, _ => r2 | _, RNone => r1 | _, _ => RAlt r1 r2 end.

Fixpoint deriv (c : ascii) (r : regex) : regex :=
  match r with
  | RNone | REmpty => RNone
  | RClass p => if p c then REmpty else RNone
  | RSeq r1 r2 =>
      if nullable r1 then mkalt (mkseq (deriv c r1) r2) (deriv c r2)
      else mkseq (deriv c r1) r2
  | RAlt r1 r2 => mkalt (deriv c r1) (deriv c r2)
  | RStar r1 => mkseq (deriv c r1) (RStar r1)
  end.

(** [/^r$/.test(s)] *)
Fixpoint rmatch (r : regex) (s : string) : bool :=
  match s with
  | "" => nullable r
  | String c s' => rmatch (deriv c r) s'
  end.

(** The language of an expression. *)
Inductive lang : regex → string → Prop :=
| lang_empty : lang REmpty ""
| lang_class p c : p c = true → lang (RClass p) (String c "")
| lang_seq r1 r2 s1 s2 : lang r1 s1 → lang r2 s2 → lang (RSeq r1 r2) (s1 +:+ s2)
| lang_alt_l r1 r2 s : lang r1 s → lang (RAlt r1 r2) s
| lang_alt_r r1 r2 s : lang r2 s → lang (RAlt r1 r2) s
| lang_star_nil r : lang (RStar r) ""
| lang_star_cons r s1 s2 : lang r s1 → lang (RStar r) s2 → lang (RStar r) (s1 +:+ s2).

#[export] Hint Constructors lang : axl.

Section RegexFacts.
Lemma string_app_nil_r (s : string) : s +:+ "" = s.
Proof. induction s as [|c s IH]; simpl; [done|]. by rewrite IH. Qed.

Lemma string_app_assoc (a b c : string) : a +:+ (b +:+ c) = (a +:+ b) +:+ c.
Proof. induction a as [|x a IH]; simpl; [done|]. by rewrite IH. Qed.

Lemma string_length_app (a b : string) :
  String.length (a +:+ b) = String.length a + String.length b.
Proof. induction a; simpl; auto. Qed.

Lemma lang_seq_inv r1 r2 s :
  lang (RSeq r1 r2) s → ∃ s1 s2, s = s1 +:+ s2 ∧ lang r1 s1 ∧ lang r2 s2.
Proof. inversion 1; subst; eauto. Qed.

Lemma lang_alt_iff r1 r2 s : lang (RAlt r1 r2) s ↔ lang r1 s ∨ lang r2 s.
Proof. split; [inversion 1; auto | intros []; eauto with axl]. Qed.

Lemma lang_none s : ¬ lang RNone s.
Proof. inversion 1. Qed.

Lemma mkseq_lang r1 r2 s : lang (mkseq r1 r2) s ↔ lang (RSeq r1 r2) s.
Proof.
  destruct r1; simpl; try done; split; intros H.
  - by apply lang_none in H.
  - apply lang_seq_inv in H as (? & ? & -> & H & _). by apply lang_none in H.
  - by apply (lang_seq REmpty r2 "" s lang_empty).
  - apply lang_seq_inv in H as (? & ? & -> & H & H2). inversion H; subst. done.
Qed.

Lemma mkalt_lang r1 r2 s : lang (mkalt r1 r2) s ↔ lang (RAlt r1 r2) s.
Proof.
  rewrite lang_alt_iff. pose proof (lang_none s).
  destruct r1; simpl; try tauto; destruct r2; simpl; rewrite ?lang_alt_iff; tauto.
Qed.

Lemma nullable_lang r : nullable r = true ↔ lang r "".
Proof.
  induction r; simpl.
  - split; [done | inversion 1].
  - split; auto with axl.
  - split; [done | inversion 1].
  - rewrite andb_true_iff, IHr1, IHr2. split.
    + intros []. by apply (lang_seq r1 r2 "" "").
    + intros ([|c a] & b & Heq & H1 & H2)%lang_seq_inv; [|done].
      simpl in Heq. by subst b.
  - by rewrite orb_true_iff, IHr1, IHr2, lang_alt_iff.
  - split; auto with axl.
Qed.

Lemma star_cons_inv r c s :
  lang (RStar r) (String c s) →
  ∃ a b, s = a +:+ b ∧ lang r (String c a) ∧ lang (RStar r) b.
Proof.
  remember (RStar r) as q eqn:Hq. remember (String c s) as t eqn:Ht. intros H.
  revert Hq c s Ht. induction H as [| | | | | |r' s1 s2 H1 _ H2 IH]; intros; simplify_eq.
  destruct s1 as [|x s1]; simpl in *; [by apply IH|]. simplify_eq. eauto.
Qed.

Lemma deriv_lang r c s : lang (deriv c r) s ↔ lang r (String c s).
Proof.
  revert s. induction r as [| |p|r1 IH1 r2 IH2|r1 IH1 r2 IH2|r IH]; intros s; simpl.
  - split; inversion 1.
  - split; inversion 1.
  - destruct (p c) eqn:Hp; split; inversion 1; subst; auto with axl. congruence.
  - assert (Hseq : lang (mkseq (deriv c r1) r2) s ↔
                   ∃ a b, s = a +:+ b ∧ lang r1 (String c a) ∧ lang r2 b).
    { rewrite mkseq_lang. split.
      - intros (a & b & -> & Ha & Hb)%lang_seq_inv. rewrite IH1 in Ha. eauto.
      - intros (a & b & -> & Ha & Hb). constructor; [by rewrite IH1 | done]. }
    destruct (nullable r1) eqn:Hn.
    + rewrite mkalt_lang, lang_alt_iff, Hseq, IH2. split.
      * intros [(a & b & -> & Ha & Hb) | H2].
        { by apply (lang_seq r1 r2 (String c a) b). }
        { apply nullable_lang in Hn. by apply (lang_seq r1 r2 "" (String c s)). }
      * intros ([|x a] & b & Heq & Ha & Hb)%lang_seq_inv; simpl in Heq; simplify_eq; eauto 8.
    + rewrite Hseq. split.
      * intros (a & b & -> & Ha & Hb). by apply (lang_seq r1 r2 (String c a) b).
      * intros ([|x a] & b & Heq & Ha & Hb)%lang_seq_inv; simpl in Heq; simplify_eq; eauto.
        apply nullable_lang in Ha. congruence.
  - by rewrite mkalt_lang, !lang_alt_iff, IH1, IH2.
  - rewrite mkseq_lang. split.
    + intros (a & b & -> & Ha & Hb)%lang_seq_inv. rewrite IH in Ha.
      by apply (lang_star_cons r (String c a) b).
    + intros (a & b & -> & Ha & Hb)%star_cons_inv. constructor; [by rewrite IH | done].
Qed.

(** The matcher decides the language. *)
Lemma rmatch_lang r s : rmatch r s = true ↔ lang r s.
Proof.
  revert r. induction s as [|c s IH]; intros r; simpl.
  - apply nullable_lang.
  - rewrite IH. apply deriv_lang.
Qed.
End RegexFacts.

(** ** Substring facts *)

Section SubstringFacts.
Lemma prefix_app (p s : string) : String.prefix p s = true ↔ ∃ r, s = p +:+ r.
Proof.
  revert s. induction p as [|c p IH]; intros s; simpl.
  - destruct s; split; eauto.
  - destruct s as [|d s]; simpl.
    + split; [done | intros [r Hr]; done].
    + destruct (ascii_dec c d) as [->|Hne]; [rewrite IH|].
      * split; intros [r Hr]; exists r; simplify_eq/=; done.
      * split; [done | intros [r Hr]; simplify_eq/=; done].
Qed.

Lemma includes_spec sub s : includes sub s = true ↔ ∃ a b, s = a +:+ (sub +:+ b).
Proof.
  induction s as [|c s IH]; cbn [includes]; rewrite orb_true_iff, prefix_app.
  - split.
    + intros [[r Hr] | H]; [exists "", r; done | done].
    + intros (a & b & H). left. destruct a; [eauto | done].
  - rewrite IH. split.
    + intros [[r Hr] | (a & b & ->)].
      * exists "", r. done.
      * exists (String c a), b. done.
    + intros ([|x a] & b & H); simpl in H; simplify_eq; eauto.
Qed.

Lemma split_on_nonempty sep s : split_on sep s ≠ [].
Proof. destruct s as [|c s]; simpl; [done|]. destruct (is_char c sep), (split_on sep s); done. Qed.

(** Splitting and joining again is the identity. *)
Lemma split_on_join sep s : join (String sep "") (split_on sep s) = s.
Proof.
  induction s as [|c s IH]; simpl; [done|].
  pose proof (split_on_nonempty sep s) as Hne.
  unfold is_char. destruct (bool_decide_reflect (c = sep)) as [->|Hc].
  - destruct (split_on sep s) as [|w ws] eqn:E; [done|]. unfold join in *. simpl in *.
    by rewrite IH.
  - destruct (split_on sep s) as [|w ws] eqn:E; [done|]. unfold join in *. simpl in *.
    destruct ws; simpl in *; by rewrite IH.
Qed.
End SubstringFacts.
