(* ===== verification/JsValue.v ===== *)
(** Values of the language: numbers, and the [unknown] values the protocol
    package validates.

    A number is a binary64 value in a canonical form: an integral value
    ([NInt], exact), negative zero, a proper fraction [m / 2^k], an infinity or
    NaN.  An object is the list of its own enumerable string-keyed properties in
    insertion order.  [JObj] is a plain object (prototype [Object.prototype] or
    [null]), [JInst] any other object that is not an array, [JOther] a function,
    symbol or bigint.  Values are trees: what [JSON.parse] delivers. *)
From stdpp Require Import base list sets strings.
From Stdlib Require Import ZArith Lia.
From S2P Require Import Prelude Text.

(** ** Numbers *)

Inductive number : Type :=
| NInt (z : Z)
| NNegZero
| NFrac (m : Z) (k : positive)
| NInf (neg : bool)
| NNaN.

#[export] Instance number_eq_dec : EqDecision number.
Proof. solve_decision. Defined.

Definition MAX_SAFE_INTEGER : Z := 9007199254740991.

(** [Number.isSafeInteger(n)] *)
Definition is_safe_integer (n : number) : bool :=
  match n with
  | NInt z => (Z.abs z <=? MAX_SAFE_INTEGER)%Z
  | NNegZero => true
  | _ => false
  end.

(** [Number.isFinite(n)] *)
Definition is_finite (n : number) : bool :=
  match n with NInf _ | NNaN => false | _ => true end.

(** [n < 0] *)
Definition is_negative (n : number) : bool :=
  match n with
  | NInt z => (z <? 0)%Z
  | NFrac m _ => (m <? 0)%Z
  | NInf neg => neg
  | NNegZero | NNaN => false
  end.

(** The mathematical integer a safe integer denotes. *)
Definition int_of (n : number) : Z := match n with NInt z => z | _ => 0 end.

(** ** Values *)

#[warnings="-register-all"]
Inductive jsval : Type :=
| JUndef
| JNull
| JBool (b : bool)
| JNum (n : number)
| JStr (s : string)
| JArr (items : list jsval)
| JObj (fields : list (string * jsval))
| JInst (fields : list (string * jsval))
| JOther.

Abbreviation fields := (list (string * jsval)).

Definition JInt (z : Z) : jsval := JNum (NInt z).

(** Induction that reaches the elements of arrays and objects. *)
Section JsvalInd.
Context (P : jsval → Prop).
Context (Hundef : P JUndef) (Hnull : P JNull) (Hbool : ∀ b, P (JBool b))
  (Hnum : ∀ n, P (JNum n)) (Hstr : ∀ s, P (JStr s))
  (Harr : ∀ l, Forall P l → P (JArr l))
  (Hobj : ∀ fs, Forall (λ kv, P kv.2) fs → P (JObj fs))
  (Hinst : ∀ fs, Forall (λ kv, P kv.2) fs → P (JInst fs))
  (Hother : P JOther).

Fixpoint jsval_rect' (v : jsval) : P v :=
  let fix go_list (l : list jsval) : Forall P l :=
    match l with
    | [] => Forall_nil_2 _
    | x :: l' => Forall_cons_2 _ _ _ (jsval_rect' x) (go_list l')
    end in
  let fix go_fields (l : list (string * jsval)) : Forall (λ kv, P kv.2) l :=
    match l with
    | [] => Forall_nil_2 _
    | (k, x) :: l' => Forall_cons_2 (λ kv, P kv.2) (k, x) l' (jsval_rect' x) (go_fields l')
    end in
  match v with
  | JUndef => Hundef
  | JNull => Hnull
  | JBool b => Hbool b
  | JNum n => Hnum n
  | JStr s => Hstr s
  | JArr l => Harr l (go_list l)
  | JObj fs => Hobj fs (go_fields fs)
  | JInst fs => Hinst fs (go_fields fs)
  | JOther => Hother
  end.
End JsvalInd.

#[export] Instance jsval_eq_dec : EqDecision jsval.
Proof.
  refine (fix go (x y : jsval) {struct x} : Decision (x = y) :=
    let _ : EqDecision jsval := go in
    match x, y with
    | JUndef, JUndef | JNull, JNull | JOther, JOther => left eq_refl
    | JBool a, JBool b => cast_if (decide (a = b))
    | JNum a, JNum b => cast_if (decide (a = b))
    | JStr a, JStr b => cast_if (decide (a = b))
    | JArr a, JArr b => cast_if (decide (a = b))
    | JObj a, JObj b => cast_if (decide (a = b))
    | JInst a, JInst b => cast_if (decide (a = b))
    | _, _ => right _
    end); abstract congruence.
Defined.

(** ** Properties of objects *)

(** [o[k]]: [undefined] when there is no such property. *)
Fixpoint get (k : string) (o : fields) : jsval :=
  match o with
  | [] => JUndef
  | (k', v) :: o' => if bool_decide (k' = k) then v else get k o'
  end.

Definition keys (o : fields) : list string := o.*1.

(** [Object.hasOwn(o, k)], and [k in o] for the names the source asks for. *)
Definition has_own (k : string) (o : fields) : bool := bool_decide (k ∈ keys o).

(** Own property names are distinct. *)
Definition distinct_keys (o : fields) : Prop := NoDup (keys o).

Definition is_undef (v : jsval) : bool := match v with JUndef => true | _ => false end.
Definition defined (v : jsval) : bool := negb (is_undef v).

(** [v === s] for a string literal [s]. *)
Definition is_str (s : string) (v : jsval) : bool :=
  match v with JStr t => bool_decide (t = s) | _ => false end.

(** [v === z] for an integer literal [z]. *)
Definition is_int (z : Z) (v : jsval) : bool :=
  match v with
  | JNum (NInt y) => (y =? z)%Z
  | JNum NNegZero => (z =? 0)%Z
  | _ => false
  end.

(** [values.includes(v)] for an array of string literals. *)
Definition among (values : list string) (v : jsval) : bool :=
  match v with JStr t => bool_decide (t ∈ values) | _ => false end.

(** [Number.isSafeInteger(v)]; [int_val] is the value when it is one. *)
Definition safe_int (v : jsval) : bool :=
  match v with JNum n => is_safe_integer n | _ => false end.
Definition int_val (v : jsval) : Z := match v with JNum n => int_of n | _ => 0 end.

(** [...(v === undefined ? {} : { k: v })] *)
Definition spread_opt (k : string) (v : jsval) : fields :=
  if is_undef v then [] else [(k, v)].
Definition opt_field (k : string) (v : option jsval) : fields :=
  match v with None => [] | Some w => [(k, w)] end.

(** ** Facts *)

Section Facts.
Lemma get_has_own k o : has_own k o = false → get k o = JUndef.
Proof.
  unfold has_own, keys. rewrite bool_decide_eq_false. induction o as [|[k' v] o IH]; simpl; [done|].
  intros Hk. apply not_elem_of_cons in Hk as [Hne Hk]. rewrite bool_decide_false; [auto | congruence].
Qed.

Lemma has_own_nil k : has_own k [] = false.
Proof. unfold has_own. apply bool_decide_eq_false, not_elem_of_nil. Qed.

Lemma has_own_cons k k' v o : has_own k ((k', v) :: o) = bool_decide (k = k') || has_own k o.
Proof.
  unfold has_own, keys. rewrite fmap_cons. apply eq_bool_prop_intro.
  rewrite orb_True, !bool_decide_spec. apply elem_of_cons.
Qed.

Lemma get_elem k v o : distinct_keys o → (k, v) ∈ o → get k o = v.
Proof.
  unfold distinct_keys, keys. induction o as [|[k' v'] o IH]; simpl; [by intros ? ?%elem_of_nil|].
  intros [Hk Hnd]%NoDup_cons [Heq | Hin]%elem_of_cons; simplify_eq.
  - by rewrite bool_decide_true.
  - rewrite bool_decide_false; [auto|]. intros ->. apply Hk. by apply (list_elem_of_fmap_2 fst) in Hin.
Qed.

Lemma elem_get k o : has_own k o = true → (k, get k o) ∈ o.
Proof.
  unfold has_own, keys. rewrite bool_decide_eq_true. induction o as [|[k' v'] o IH]; simpl; [by intros ?%elem_of_nil|].
  intros Hk. case_bool_decide as E; [subst; left|]. right. apply IH. by apply elem_of_cons in Hk as [?|?].
Qed.

Lemma get_app_l k o1 o2 : has_own k o1 = true → get k (o1 ++ o2) = get k o1.
Proof.
  induction o1 as [|[k' v'] o1 IH]; [by rewrite has_own_nil|]. rewrite has_own_cons.
  intros H. simpl. destruct (bool_decide_reflect (k' = k)) as [E|E]; [done|]. apply IH.
  apply orb_true_iff in H as [H|H]; [apply bool_decide_eq_true in H; congruence | done].
Qed.

Lemma get_app_r k o1 o2 : has_own k o1 = false → get k (o1 ++ o2) = get k o2.
Proof.
  induction o1 as [|[k' v'] o1 IH]; [done|]. rewrite has_own_cons, orb_false_iff. simpl.
  intros [H1 H2]. rewrite bool_decide_eq_false in H1. rewrite bool_decide_false by congruence. auto.
Qed.

Lemma safe_int_spec v : safe_int v = true → (Z.abs (int_val v) <= MAX_SAFE_INTEGER)%Z.
Proof.
  destruct v as [| | |n| | | | |]; simpl; try done. destruct n; simpl; try done; intros; unfold MAX_SAFE_INTEGER in *; lia.
Qed.

Lemma nonnegative_safe n :
  is_safe_integer n = true → is_negative n = false → (0 <= int_of n <= MAX_SAFE_INTEGER)%Z.
Proof.
  destruct n; cbn [is_safe_integer is_negative int_of]; try discriminate;
    unfold MAX_SAFE_INTEGER; lia.
Qed.

Lemma is_str_spec s v : is_str s v = true ↔ v = JStr s.
Proof. destruct v; simpl; try (split; congruence). rewrite bool_decide_eq_true. split; congruence. Qed.

Lemma among_spec l v : among l v = true ↔ ∃ s, v = JStr s ∧ s ∈ l.
Proof.
  destruct v; simpl; try (split; [done | by intros (? & ? & _)]).
  rewrite bool_decide_eq_true. split; [eauto | by intros (? & [= ->] & ?)].
Qed.
End Facts.
#[export] Hint Resolve safe_int_spec : axl.
