(* ===== verification/Json.v ===== *)
(** Numbers and values as text: [Number.prototype.toString] and
    [JSON.stringify].

    The decimal form of a number is the shortest that reads back as the number
    (ECMAScript's Number::toString), found by trying one to seventeen digits
    and reading each candidate back with the correctly rounded
    [decimal_to_number]. *)
From stdpp Require Import base list strings pretty.
From Stdlib Require Import ZArith Lia Ascii.
From S2P Require Import Prelude Text JsValue.

(** ** Reading a decimal: round to nearest, ties to even *)

Definition round_half_even (a b : Z) : Z :=
  let q := (a / b)%Z in
  let r := (2 * (a mod b))%Z in
  if (r <? b)%Z then q
  else if (b <? r)%Z then (q + 1)%Z
  else if Z.even q then q else (q + 1)%Z.

(** [m / 2^k] in canonical form, for positive [m]. *)
Fixpoint norm_dyadic (m : Z) (k : nat) : number :=
  match k with
  | 0 => NInt m
  | S k' => if Z.even m then norm_dyadic (m / 2) k' else NFrac m (Pos.of_succ_nat k')
  end.

(** The positive rational [a / b] as a binary64 number. *)
Definition round_binary64 (a b : Z) : number :=
  let e0 := (Z.log2 a - Z.log2 b - 52)%Z in
  let scaled e := if (0 <=? e)%Z then round_half_even a (b * 2 ^ e) else round_half_even (a * 2 ^ (- e)) b in
  (* [e0] may be one too large for 53 bits *)
  let e1 := if (scaled e0 <? 2 ^ 52)%Z then (e0 - 1)%Z else e0 in
  let e := Z.max (-1074) e1 in
  let m := scaled e in
  if (2 ^ 1024 <=? m * 2 ^ Z.max 0 e)%Z then NInf false
  else if (0 <=? e)%Z then NInt (m * 2 ^ e)
  else if (m =? 0)%Z then NInt 0
  else norm_dyadic m (Z.to_nat (- e)).

(** [digits * 10^exponent] *)
Definition decimal_to_number (neg : bool) (digits exponent : Z) : number :=
  if (digits =? 0)%Z then (if neg then NNegZero else NInt 0)
  else
    let n :=
      if (0 <=? exponent)%Z then
        (if (digits * 10 ^ exponent <=? MAX_SAFE_INTEGER)%Z then NInt (digits * 10 ^ exponent)
         else round_binary64 (digits * 10 ^ exponent) 1)
      else round_binary64 digits (10 ^ (- exponent)) in
    if neg then
      match n with
      | NInt 0 => NNegZero
      | NInt z => NInt (- z)
      | NFrac m k => NFrac (- m) k
      | NInf _ => NInf true
      | other => other
      end
    else n.

(** ** Writing a decimal *)

Definition zeros (n : nat) : string := String.concat "" (replicate n "0").
Definition substring_from (n : nat) (s : string) : string := String.substring n (String.length s - n) s.

(** Layout of the digit string [ds] (k digits) with value [0.ds * 10^n]. *)
Definition layout_decimal (ds : string) (n : Z) : string :=
  let k := Z.of_nat (String.length ds) in
  if ((k <=? n) && (n <=? 21))%Z then ds +:+ zeros (Z.to_nat (n - k))
  else if ((0 <? n) && (n <=? 21))%Z then
    String.substring 0 (Z.to_nat n) ds +:+ "." +:+ substring_from (Z.to_nat n) ds
  else if ((-6 <? n) && (n <=? 0))%Z then "0." +:+ zeros (Z.to_nat (- n)) +:+ ds
  else
    let e := (n - 1)%Z in
    let mantissa :=
      if (k =? 1)%Z then ds else String.substring 0 1 ds +:+ "." +:+ substring_from 1 ds in
    mantissa +:+ (if (0 <=? e)%Z then "e+" else "e-") +:+ pretty (Z.abs e).

(** [n] with [10^(n-1) <= a/b < 10^n]. *)
Fixpoint leading_zeros (fuel : nat) (a b : Z) : nat :=
  match fuel with
  | 0 => 0
  | S f => if (b <=? a * 10)%Z then 0 else S (leading_zeros f (a * 10) b)
  end.
Definition magnitude (a b : Z) : Z :=
  if (b <=? a)%Z then Z.of_nat (String.length (pretty (a / b)%Z))
  else (- Z.of_nat (leading_zeros 400 a b))%Z.

(** The least [k] whose best [k]-digit decimal reads back as [target]. *)
Fixpoint shortest (tries : nat) (k : Z) (a b n : Z) (target : number) : option Z :=
  match tries with
  | 0 => None
  | S t =>
      let s := if (k <=? n)%Z then round_half_even a (b * 10 ^ (n - k))
               else round_half_even (a * 10 ^ (k - n)) b in
      if ((10 ^ (k - 1) <=? s) && (s <? 10 ^ k))%Z &&
         bool_decide (decimal_to_number false s (n - k) = target)
      then Some s
      else shortest t (k + 1) a b n target
  end.

(** A positive number [a / b] that is not a safe integer. *)
Definition positive_to_string (a b : Z) (target : number) : string :=
  let n := magnitude a b in
  match shortest 17 1 a b n target with
  | Some s => layout_decimal (pretty s) n
  | None => pretty (a / b)%Z
  end.

(** [String(n)] *)
Definition number_to_string (n : number) : string :=
  match n with
  | NNaN => "NaN"
  | NInf false => "Infinity"
  | NInf true => "-Infinity"
  | NNegZero => "0"
  | NInt z =>
      if (Z.abs z <=? MAX_SAFE_INTEGER)%Z then pretty z
      else if (z <? 0)%Z then "-" +:+ positive_to_string (- z) 1 (NInt (- z))
      else positive_to_string z 1 (NInt z)
  | NFrac m k =>
      if (m <? 0)%Z then "-" +:+ positive_to_string (- m) (2 ^ Z.pos k) (NFrac (- m) k)
      else positive_to_string m (2 ^ Z.pos k) (NFrac m k)
  end.

Example to_string_tenth : number_to_string (NFrac 3602879701896397 55) = "0.1".
Proof. vm_compute. reflexivity. Qed.
Example to_string_large : number_to_string (NInt (10 ^ 21)) = "1e+21".
Proof. vm_compute. reflexivity. Qed.
Example to_string_min : number_to_string (NFrac 1 1074) = "5e-324".
Proof. vm_compute. reflexivity. Qed.
Example to_string_max : number_to_string (NInt ((2 ^ 53 - 1) * 2 ^ 971)) = "1.7976931348623157e+308".
Proof. vm_compute. reflexivity. Qed.
Example to_string_frac : number_to_string (NFrac (-5) 2) = "-1.25".
Proof. vm_compute. reflexivity. Qed.
Example to_string_two53 : number_to_string (NInt (2 ^ 53)) = "9007199254740992".
Proof. vm_compute. reflexivity. Qed.

(** ** JSON.stringify *)

Definition hex_digit (n : N) : string :=
  chr (if (n <? 10)%N then 48 + n else 87 + n).

(** One character inside a JSON string literal. *)
Definition escape_char (c : ascii) : string :=
  let n := code c in
  if (n =? 34)%N then backslash +:+ dquote
  else if (n =? 92)%N then backslash +:+ backslash
  else if (n =? 8)%N then backslash +:+ "b"
  else if (n =? 12)%N then backslash +:+ "f"
  else if (n =? 10)%N then backslash +:+ "n"
  else if (n =? 13)%N then backslash +:+ "r"
  else if (n =? 9)%N then backslash +:+ "t"
  else if (n <? 32)%N then backslash +:+ "u00" +:+ hex_digit (n / 16) +:+ hex_digit (n mod 16)
  else String c "".

Fixpoint escape (s : string) : string :=
  match s with
  | "" => ""
  | String c s' => escape_char c +:+ escape s'
  end.

Definition quote (s : string) : string := dquote +:+ escape s +:+ dquote.

(** [JSON.stringify(v)]; [None] is [undefined]. *)
Fixpoint stringify (v : jsval) : option string :=
  match v with
  | JUndef | JOther => None
  | JNull => Some "null"
  | JBool b => Some (if b then "true" else "false")
  | JNum n => Some (if is_finite n then number_to_string n else "null")
  | JStr s => Some (quote s)
  | JArr l =>
      Some ("[" +:+ join "," ((λ x, default "null" (stringify x)) <$> l) +:+ "]")
  | JObj fs | JInst fs =>
      Some ("{" +:+ join ","
              (omap (λ kv, (λ t, quote kv.1 +:+ ":" +:+ t) <$> stringify kv.2) fs) +:+ "}")
  end.

(** The text of a value that has one. *)
Definition json_text (v : jsval) : string := default "" (stringify v).
