(* ===== verification/JsonText.v ===== *)
(** [JSON.parse], and what it makes of the text [JSON.stringify] wrote. *)
From stdpp Require Import base list strings pretty.
From Stdlib Require Import ZArith Lia Ascii.
From S2P Require Import Prelude Text JsValue Json.

(** ** Reading *)

(** Space, tab, line feed, carriage return. *)
Definition json_space (c : ascii) : bool := bool_decide (code c ∈ [32; 9; 10; 13]%N).
Fixpoint skip_spaces (s : string) : string :=
  match s with
  | "" => ""
  | String c s' => if json_space c then skip_spaces s' else s
  end.

Definition hex_value (c : ascii) : option N :=
  let n := code c in
  if in_range 48 57 n then Some (n - 48)%N
  else if in_range 97 102 n then Some (n - 87)%N
  else if in_range 65 70 n then Some (n - 55)%N
  else None.
Definition hex4 (a b c d : ascii) : option N :=
  match hex_value a, hex_value b, hex_value c, hex_value d with
  | Some a, Some b, Some c, Some d => Some (((a * 16 + b) * 16 + c) * 16 + d)%N
  | _, _, _, _ => None
  end.

(** The character of a one-letter escape. *)
Definition unescape (c : ascii) : option N :=
  let n := code c in
  if bool_decide (n ∈ [34; 92; 47]%N) then Some n
  else if (n =? 98)%N then Some 8%N
  else if (n =? 102)%N then Some 12%N
  else if (n =? 110)%N then Some 10%N
  else if (n =? 114)%N then Some 13%N
  else if (n =? 116)%N then Some 9%N
  else None.

Definition prepend {A} (p : string) (r : option (string * A)) : option (string * A) :=
  match r with Some (s, rest) => Some (p +:+ s, rest) | None => None end.

(** What follows the opening quote, up to the closing one.  A surrogate pair of
    escapes is one code point; a lone one has no UTF-8 form and becomes U+FFFD. *)
Fixpoint read_string (s : string) : option (string * string) :=
  match s with
  | "" => None
  | String c s1 =>
      if (code c =? 34)%N then Some ("", s1)
      else if (code c =? 92)%N then
        match s1 with
        | "" => None
        | String e s2 =>
            if (code e =? 117)%N then
              match s2 with
              | String a (String b (String c' (String d s3))) =>
                  match hex4 a b c' d with
                  | None => None
                  | Some u =>
                      if in_range 55296 56319 u then
                        match s3 with
                        | String x (String y (String a2 (String b2 (String c2 (String d2 s4))))) =>
                            match (code x =? 92)%N && (code y =? 117)%N, hex4 a2 b2 c2 d2 with
                            | true, Some l =>
                                if in_range 56320 57343 l then
                                  prepend (utf8_encode (65536 + (u - 55296) * 1024 + (l - 56320))) (read_string s4)
                                else prepend (utf8_encode 65533) (read_string s3)
                            | _, _ => prepend (utf8_encode 65533) (read_string s3)
                            end
                        | _ => prepend (utf8_encode 65533) (read_string s3)
                        end
                      else if in_range 56320 57343 u then prepend (utf8_encode 65533) (read_string s3)
                      else prepend (utf8_encode u) (read_string s3)
                  end
              | _ => None
              end
            else
              match unescape e with
              | Some n => prepend (chr n) (read_string s2)
              | None => None
              end
        end
      else if (code c <? 32)%N then None
      else prepend (String c "") (read_string s1)
  end.

(** *** Numbers *)

(** The digits at the front. *)
Fixpoint take_digits (s : string) : string * string :=
  match s with
  | "" => ("", "")
  | String c s' => if is_digit c then let (d, r) := take_digits s' in (String c d, r) else ("", s)
  end.

Fixpoint digits_value (acc : Z) (s : string) : Z :=
  match s with
  | "" => acc
  | String c s' => digits_value (acc * 10 + Z.of_N (code c - 48)) s'
  end.

Definition read_int (s : string) : option (string * string) :=
  match take_digits s with
  | ("", _) => None
  | (String c d, r) =>
      if (code c =? 48)%N && negb (bool_decide (d = "")) then None else Some (String c d, r)
  end.

Definition read_fraction (s : string) : option (string * string) :=
  match s with
  | String c s' =>
      if (code c =? 46)%N then
        match take_digits s' with ("", _) => None | (d, r) => Some (d, r) end
      else Some ("", s)
  | "" => Some ("", s)
  end.

Definition read_exponent_digits (sign : Z) (s : string) : option (Z * string) :=
  match take_digits s with ("", _) => None | (d, r) => Some ((sign * digits_value 0 d)%Z, r) end.

Definition read_exponent (s : string) : option (Z * string) :=
  match s with
  | String c s' =>
      if (code c =? 101)%N || (code c =? 69)%N then
        match s' with
        | String c' s'' =>
            if (code c' =? 43)%N then read_exponent_digits 1 s''
            else if (code c' =? 45)%N then read_exponent_digits (-1) s''
            else read_exponent_digits 1 s'
        | "" => None
        end
      else Some (0%Z, s)
  | "" => Some (0%Z, s)
  end.

Definition read_unsigned (neg : bool) (s : string) : option (number * string) :=
  match read_int s with
  | None => None
  | Some (i, s1) =>
      match read_fraction s1 with
      | None => None
      | Some (f, s2) =>
          match read_exponent s2 with
          | None => None
          | Some (e, s3) =>
              Some (decimal_to_number neg (digits_value 0 (i +:+ f)) (e - Z.of_nat (String.length f)), s3)
          end
      end
  end.

Definition read_number (s : string) : option (number * string) :=
  match s with
  | String c s' => if (code c =? 45)%N then read_unsigned true s' else read_unsigned false s
  | "" => None
  end.

(** *** Values *)

(** An array index, as the enumeration order of own keys sees it. *)
Definition array_index (k : string) : option Z :=
  match take_digits k with
  | (d, "") =>
      let z := digits_value 0 d in
      if negb (bool_decide (d = "")) && bool_decide (pretty z = k) && (z <? 4294967295)%Z then Some z else None
  | _ => None
  end.

Fixpoint insert_index (z : Z) (kv : string * jsval) (l : fields) : fields :=
  match l with
  | [] => [kv]
  | kv' :: l' =>
      match array_index kv'.1 with
      | Some z' => if (z <? z')%Z then kv :: l else kv' :: insert_index z kv l'
      | None => kv :: l
      end
  end.

(** [o[k] = v] *)
Definition set_field (o : fields) (kv : string * jsval) : fields :=
  if has_own kv.1 o then (λ kv', if bool_decide (kv'.1 = kv.1) then kv else kv') <$> o
  else match array_index kv.1 with
       | Some z => insert_index z kv o
       | None => o ++ [kv]
       end.

(** The object of the members read, in reading order. *)
Definition make_object (members : fields) : jsval := JObj (fold_left set_field members []).

Section Sequences.
Context (value : string → option (jsval * string)).

Fixpoint read_elements (n : nat) (s : string) : option (list jsval * string) :=
  match n with
  | 0 => None
  | S n' =>
      match value s with
      | None => None
      | Some (v, r) =>
          match skip_spaces r with
          | "" => None
          | String c r' =>
              if (code c =? 44)%N then
                match read_elements n' r' with Some (vs, r'') => Some (v :: vs, r'') | None => None end
              else if (code c =? 93)%N then Some ([v], r')
              else None
          end
      end
  end.

Definition read_member (s : string) : option ((string * jsval) * string) :=
  match skip_spaces s with
  | "" => None
  | String c s1 =>
      if (code c =? 34)%N then
        match read_string s1 with
        | None => None
        | Some (k, s2) =>
            match skip_spaces s2 with
            | "" => None
            | String c' s3 =>
                if (code c' =? 58)%N then
                  match value s3 with Some (v, r) => Some ((k, v), r) | None => None end
                else None
            end
        end
      else None
  end.

Fixpoint read_members (n : nat) (s : string) : option (fields * string) :=
  match n with
  | 0 => None
  | S n' =>
      match read_member s with
      | None => None
      | Some (kv, r) =>
          match skip_spaces r with
          | "" => None
          | String c r' =>
              if (code c =? 44)%N then
                match read_members n' r' with Some (kvs, r'') => Some (kv :: kvs, r'') | None => None end
              else if (code c =? 125)%N then Some ([kv], r')
              else None
          end
      end
  end.
End Sequences.

Definition expect (word : string) (v : jsval) (s : string) : option (jsval * string) :=
  if String.prefix word s then Some (v, substring_from (String.length word) s) else None.

(** Every value takes a character, so the length of the text is fuel enough. *)
Fixpoint read_value (fuel : nat) (s : string) : option (jsval * string) :=
  match fuel with
  | 0 => None
  | S fuel' =>
      match skip_spaces s with
      | "" => None
      | String c s1 as t =>
          let n := code c in
          if (n =? 34)%N then
            match read_string s1 with Some (v, r) => Some (JStr v, r) | None => None end
          else if (n =? 91)%N then
            match skip_spaces s1 with
            | String c' r => if (code c' =? 93)%N then Some (JArr [], r)
                             else match read_elements (read_value fuel') fuel' s1 with
                                  | Some (vs, r) => Some (JArr vs, r) | None => None end
            | "" => None
            end
          else if (n =? 123)%N then
            match skip_spaces s1 with
            | String c' r => if (code c' =? 125)%N then Some (JObj [], r)
                             else match read_members (read_value fuel') fuel' s1 with
                                  | Some (kvs, r) => Some (make_object kvs, r) | None => None end
            | "" => None
            end
          else if (n =? 116)%N then expect "true" (JBool true) t
          else if (n =? 102)%N then expect "false" (JBool false) t
          else if (n =? 110)%N then expect "null" JNull t
          else match read_number t with Some (x, r) => Some (JNum x, r) | None => None end
      end
  end.

(** [JSON.parse(s)]; [None] is a [SyntaxError]. *)
Definition json_parse (s : string) : option jsval :=
  match read_value (S (String.length s)) s with
  | Some (v, r) => if bool_decide (skip_spaces r = "") then Some v else None
  | None => None
  end.

Example parse_example :
  json_parse (" {" +:+ quote "b" +:+ ": [1, -2.5e1, " +:+ quote ("x" +:+ chr 10) +:+ ", null], " +:+ quote "10" +:+ ":true,"
    +:+ quote "b" +:+ ":0.1, " +:+ quote "9" +:+ ":{}}")
  = Some (JObj [("9", JObj []); ("10", JBool true); ("b", JNum (NFrac 3602879701896397 55))]).
Proof. vm_compute. reflexivity. Qed.

(** ** Reading back what was written *)

(** Values with a text that can be read back: no [undefined], finite numbers whose
    text is read as themselves, well-formed strings. *)
Fixpoint json_plain (v : jsval) : bool :=
  match v with
  | JNull | JBool _ => true
  | JNum n => is_finite n && bool_decide (read_number (number_to_string n) = Some (n, ""))
  | JStr s => utf8_valid s
  | JArr l => forallb json_plain l
  | JObj fs => forallb (λ kv, utf8_valid kv.1 && json_plain kv.2) fs
  | _ => false
  end.

(** A value with the own keys of its objects set one after the other. *)
Fixpoint enumerated (v : jsval) : jsval :=
  match v with
  | JArr l => JArr (enumerated <$> l)
  | JObj fs => make_object ((λ kv, (kv.1, enumerated kv.2)) <$> fs)
  | v => v
  end.

(** Values that a text can stand for: own keys in enumeration order as well. *)
Definition json_clean (v : jsval) : bool := json_plain v && bool_decide (enumerated v = v).

(** What may follow a value. *)
Definition stops (rest : string) : bool :=
  match rest with "" => true | String c _ => bool_decide (code c ∈ [44; 58; 93; 125; 10]%N) end.

Section ReadStrings.
Lemma read_escape_char c t : read_string (escape_char c +:+ t) = prepend (String c "") (read_string t).
Proof. destruct c as [[] [] [] [] [] [] [] []]; reflexivity. Qed.

Lemma read_escape s rest : read_string (escape s +:+ (dquote +:+ rest)) = Some (s, rest).
Proof.
  induction s as [|c s IH]; [reflexivity|]. cbn [escape]. rewrite <- string_app_assoc, read_escape_char, IH. done.
Qed.

Lemma quote_app s rest : quote s +:+ rest = String (char_of 34) (escape s +:+ (dquote +:+ rest)).
Proof. unfold quote. rewrite <- !string_app_assoc. done. Qed.
End ReadStrings.

Section ReadNumbers.
Lemma stops_not_digit c rest : stops (String c rest) = true → is_digit c = false.
Proof. destruct c as [[] [] [] [] [] [] [] []]; vm_compute; congruence. Qed.

Lemma take_digits_app s rest d r :
  take_digits s = (d, r) → r ≠ "" ∨ stops rest = true → take_digits (s +:+ rest) = (d, r +:+ rest).
Proof.
  revert d r; induction s as [|c s IH]; intros d r; simpl.
  - intros [= <- <-] [?|Hs]; [done|]. destruct rest as [|c rest]; [done|]. simpl. by rewrite (stops_not_digit c rest).
  - destruct (is_digit c) eqn:Ed; [|by intros [= <- <-]].
    destruct (take_digits s) as [d' r'] eqn:Es. intros [= <- <-] Hr. by rewrite (IH d' r').
Qed.

Lemma read_int_app s rest i r :
  read_int s = Some (i, r) → r ≠ "" ∨ stops rest = true → read_int (s +:+ rest) = Some (i, r +:+ rest).
Proof.
  unfold read_int. destruct (take_digits s) as [d r'] eqn:Es. intros Hi Hr.
  assert (r' = r) as -> by (destruct d; [done|]; case_match; by simplify_eq).
  rewrite (take_digits_app s rest d r) by done. destruct d; [done|]. case_match; by simplify_eq.
Qed.

Lemma read_fraction_app s rest f r :
  read_fraction s = Some (f, r) → r ≠ "" ∨ stops rest = true → read_fraction (s +:+ rest) = Some (f, r +:+ rest).
Proof.
  unfold read_fraction. destruct s as [|c s]; simpl.
  - intros [= <- <-] [?|Hs]; [done|]. destruct rest as [|c rest]; [done|]. simpl.
    destruct (N.eqb_spec (code c) 46) as [E|E]; [|done]. simpl in Hs. rewrite E in Hs. by vm_compute in Hs.
  - destruct (code c =? 46)%N; [|by intros [= <- <-]]. destruct (take_digits s) as [d r'] eqn:Es. intros Hf Hr.
    assert (r' = r) as -> by (destruct d; by simplify_eq).
    rewrite (take_digits_app s rest d r) by done. by destruct d; simplify_eq.
Qed.

Lemma read_exponent_digits_app sign s rest e r :
  read_exponent_digits sign s = Some (e, r) → r ≠ "" ∨ stops rest = true →
  read_exponent_digits sign (s +:+ rest) = Some (e, r +:+ rest).
Proof.
  unfold read_exponent_digits. destruct (take_digits s) as [d r'] eqn:Es. intros Hf Hr.
  assert (r' = r) as -> by (destruct d; by simplify_eq).
  rewrite (take_digits_app s rest d r) by done. by destruct d; simplify_eq.
Qed.

Lemma read_exponent_app s rest e r :
  read_exponent s = Some (e, r) → r ≠ "" ∨ stops rest = true → read_exponent (s +:+ rest) = Some (e, r +:+ rest).
Proof.
  unfold read_exponent. destruct s as [|c s]; simpl.
  - intros [= <- <-] [?|Hs]; [done|]. destruct rest as [|c rest]; [done|]. simpl.
    destruct ((code c =? 101) || (code c =? 69))%N eqn:E; [|done]. exfalso. simpl in Hs.
    apply orb_true_iff in E as [E%N.eqb_eq|E%N.eqb_eq]; rewrite E in Hs; by vm_compute in Hs.
  - destruct ((code c =? 101) || (code c =? 69))%N; [|by intros [= <- <-]]. destruct s as [|c' s]; [done|]. simpl.
    destruct (code c' =? 43)%N; [apply read_exponent_digits_app|].
    destruct (code c' =? 45)%N; [apply read_exponent_digits_app|].
    apply (read_exponent_digits_app 1 (String c' s)).
Qed.

(** A number is read alike in front of what may follow it. *)
Lemma read_unsigned_app neg s rest n :
  read_unsigned neg s = Some (n, "") → stops rest = true → read_unsigned neg (s +:+ rest) = Some (n, rest).
Proof.
  unfold read_unsigned. destruct (read_int s) as [[i s1]|] eqn:E1; [|done].
  destruct (read_fraction s1) as [[f s2]|] eqn:E2; [|done].
  destruct (read_exponent s2) as [[e s3]|] eqn:E3; [|done]. intros [= <- ->] Hs.
  rewrite (read_int_app _ _ _ _ E1) by (by right). rewrite (read_fraction_app _ _ _ _ E2) by (by right).
  by rewrite (read_exponent_app _ _ _ _ E3) by (by right).
Qed.

Lemma read_number_app s rest n :
  read_number s = Some (n, "") → stops rest = true → read_number (s +:+ rest) = Some (n, rest).
Proof.
  unfold read_number. destruct s as [|c s]; [done|]. simpl. destruct (code c =? 45)%N; [apply read_unsigned_app|].
  apply (read_unsigned_app false (String c s)).
Qed.

(** The first character of a number. *)
Lemma read_number_head s x :
  read_number s = Some x → ∃ c s', s = String c s' ∧ (code c = 45%N ∨ is_digit c = true).
Proof.
  unfold read_number. destruct s as [|c s]; [done|]. intros Hr. exists c, s. split; [done|].
  destruct (N.eqb_spec (code c) 45); [by left|]. right. unfold read_unsigned, read_int in Hr.
  cbn [take_digits] in Hr. by destruct (is_digit c).
Qed.
End ReadNumbers.

Section ReadValues.
Lemma join_cons {A} sep (f : A → string) x l rest :
  l ≠ [] → join sep (f <$> x :: l) +:+ rest = f x +:+ (sep +:+ (join sep (f <$> l) +:+ rest)).
Proof. destruct l as [|y l]; [done|]. intros _. unfold join. simpl. by rewrite <- !string_app_assoc. Qed.
Lemma join_one {A} sep (f : A → string) x : join sep (f <$> [x]) = f x.
Proof. done. Qed.

Lemma substring_all s : String.substring 0 (String.length s) s = s.
Proof. induction s as [|c s IH]; [done|]. simpl. by rewrite IH. Qed.

Lemma expect_word w v rest : expect w v (w +:+ rest) = Some (v, rest).
Proof.
  unfold expect. rewrite (proj2 (prefix_app w (w +:+ rest))) by eauto. do 2 f_equal.
  unfold substring_from. rewrite string_length_app. replace (String.length w + String.length rest - String.length w)
    with (String.length rest) by lia.
  induction w as [|c w IH]; [apply substring_all | exact IH].
Qed.

(** The texts of elements and members. *)
Definition member_text (kv : string * jsval) : string := quote kv.1 +:+ ":" +:+ json_text kv.2.

Lemma clean_stringify v : json_plain v = true → stringify v = Some (json_text v).
Proof. by destruct v. Qed.

Lemma array_text l :
  Forall (λ v, json_plain v = true) l → json_text (JArr l) = "[" +:+ join "," (json_text <$> l) +:+ "]".
Proof.
  intros Hl. unfold json_text at 1. simpl. f_equal. f_equal. f_equal. apply list_fmap_ext.
  intros i v Hi. rewrite Forall_lookup in Hl. by rewrite (clean_stringify v (Hl i v Hi)).
Qed.

Lemma object_text fs :
  Forall (λ kv, json_plain kv.2 = true) fs → json_text (JObj fs) = "{" +:+ join "," (member_text <$> fs) +:+ "}".
Proof.
  intros Hl. unfold json_text at 1. simpl. f_equal. f_equal. f_equal.
  induction Hl as [|[k v] fs Hv _ IH]; [done|]. simpl in *. rewrite clean_stringify by done. simpl. by f_equal.
Qed.

Lemma number_text n :
  json_plain (JNum n) = true → ∃ t, json_text (JNum n) = t ∧ read_number t = Some (n, "").
Proof.
  simpl. intros [Hf Hr%bool_decide_eq_true]%andb_true_iff. exists (number_to_string n).
  unfold json_text. simpl. by rewrite Hf.
Qed.

Lemma number_char c :
  code c = 45%N ∨ is_digit c = true →
  json_space c = false ∧ (code c =? 34)%N = false ∧ (code c =? 91)%N = false ∧ (code c =? 123)%N = false ∧
  (code c =? 116)%N = false ∧ (code c =? 102)%N = false ∧ (code c =? 110)%N = false ∧ (code c =? 93)%N = false.
Proof. destruct c as [[] [] [] [] [] [] [] []]; vm_compute; intros [|]; try discriminate; tauto. Qed.

(** A text starts with a character that is neither a space nor a closing bracket. *)
Lemma text_first v :
  json_plain v = true → ∃ c s, json_text v = String c s ∧ json_space c = false ∧ (code c =? 93)%N = false.
Proof.
  destruct v as [| |b|n|s|l|fs|fs|]; try done; intros Hc.
  - by eexists _, _.
  - destruct b; by eexists _, _.
  - destruct (number_text n Hc) as (t & Ht & Hr). rewrite Ht.
    apply read_number_head in Hr as (c & s & -> & Hd). eexists _, _. split; [done|].
    by destruct (number_char c Hd) as (? & _ & _ & _ & _ & _ & _ & ?).
  - by eexists _, _.
  - by eexists _, _.
  - by eexists _, _.
Qed.

Lemma text_head v : json_plain v = true → ∃ c s, json_text v = String c s ∧ json_space c = false.
Proof. intros (c & s & ? & ? & _)%text_first. eauto. Qed.

Lemma skip_head c s : json_space c = false → skip_spaces (String c s) = String c s.
Proof. simpl. by intros ->. Qed.

Lemma read_elements_texts value l n rest :
  l ≠ [] → Forall (λ v, ∀ rest, stops rest = true → value (json_text v +:+ rest) = Some (enumerated v, rest)) l →
  length l ≤ n →
  read_elements value n (join "," (json_text <$> l) +:+ String "]" rest) = Some (enumerated <$> l, rest).
Proof.
  revert n; induction l as [|v l IH]; intros n Hne Hl Hn; [done|]. apply Forall_cons in Hl as [Hv Hl].
  destruct n as [|n]; simpl in Hn; [lia|]. cbn [read_elements].
  destruct (decide (l = [])) as [->|Hl0].
  - rewrite join_one. by rewrite (Hv (String "]" rest)).
  - rewrite join_cons by done. rewrite Hv by done. simpl. by rewrite IH by (done || lia).
Qed.

Lemma read_members_texts value fs n rest :
  fs ≠ [] → Forall (λ kv, ∀ rest, stops rest = true → value (json_text kv.2 +:+ rest) = Some (enumerated kv.2, rest)) fs →
  length fs ≤ n →
  read_members value n (join "," (member_text <$> fs) +:+ String "}" rest) =
    Some ((λ kv, (kv.1, enumerated kv.2)) <$> fs, rest).
Proof.
  assert (Hmember : ∀ kv rest, (∀ rest, stops rest = true → value (json_text kv.2 +:+ rest) = Some (enumerated kv.2, rest)) →
    stops rest = true → read_member value (member_text kv +:+ rest) = Some ((kv.1, enumerated kv.2), rest)).
  { intros [k v] rest' Hv Hs. unfold read_member, member_text. simpl fst. simpl snd.
    rewrite <- string_app_assoc, quote_app. set (body := escape k +:+ _). simpl. unfold body.
    rewrite read_escape. simpl. by rewrite Hv. }
  revert n; induction fs as [|kv fs IH]; intros n Hne Hl Hn; [done|]. apply Forall_cons in Hl as [Hv Hl].
  destruct n as [|n]; simpl in Hn; [lia|]. cbn [read_members].
  destruct (decide (fs = [])) as [->|Hl0].
  - rewrite join_one. by rewrite (Hmember kv (String "}" rest)).
  - rewrite join_cons by done. rewrite Hmember by done. simpl. by rewrite IH by (done || lia).
Qed.

Lemma join_length {A} (f : A → string) l :
  (∀ x, x ∈ l → String.length (f x) ≤ String.length (join "," (f <$> l))) ∧
  ((∀ x, x ∈ l → 0 < String.length (f x)) → length l ≤ String.length (join "," (f <$> l))).
Proof.
  induction l as [|x l [IH1 IH2]]; [split; [by intros ? ?%elem_of_nil | done]|].
  destruct (decide (l = [])) as [->|Hne].
  - simpl. split; [by intros y ->%list_elem_of_singleton|]. intros Hp. apply Hp. by left.
  - assert (String.length (join "," (f <$> x :: l))
      = String.length (f x) + S (String.length (join "," (f <$> l)))) as Hlen.
    { pose proof (f_equal String.length (join_cons "," f x l "" Hne)) as E.
      rewrite !string_length_app in E. change (String.length "") with 0 in E.
      change (String.length ",") with 1 in E. lia. }
    rewrite Hlen. split.
    + intros y [->|Hy]%elem_of_cons; [lia|]. specialize (IH1 y Hy). lia.
    + intros Hp. simpl. assert (0 < String.length (f x)) by (apply Hp; by left).
      assert (length l ≤ String.length (join "," (f <$> l))) by (apply IH2; intros y Hy; apply Hp; by right). lia.
Qed.

Lemma text_nonempty v : json_plain v = true → 0 < String.length (json_text v).
Proof. intros (c & s & -> & _)%text_head. simpl. lia. Qed.

Lemma read_value_text v :
  ∀ fuel rest, json_plain v = true → String.length (json_text v) < fuel → stops rest = true →
  read_value fuel (json_text v +:+ rest) = Some (enumerated v, rest).
Proof.
  induction v as [| |b|n|s|l IH|fs IH|fs IH|] using jsval_rect'; intros fuel rest Hc Hf Hs; try done;
    (destruct fuel as [|fuel]; [lia|]).
  - exact (expect_word "null" JNull rest).
  - destruct b; [exact (expect_word "true" (JBool true) rest) | exact (expect_word "false" (JBool false) rest)].
  - destruct (number_text n Hc) as (t & Ht & Hr). rewrite Ht in Hf |- *.
    pose proof (read_number_app t rest n Hr Hs) as Hn.
    apply read_number_head in Hr as (c & s' & -> & Hd). cbn [read_value]. change (String c s' +:+ rest) with (String c (s' +:+ rest)) in *.
    destruct (number_char c Hd) as (Hsp & K1 & K2 & K3 & K4 & K5 & K6 & _).
    rewrite skip_head by done. by rewrite K1, K2, K3, K4, K5, K6, Hn.
  - change (json_text (JStr s)) with (quote s) in *. rewrite quote_app. set (body := escape s +:+ _). simpl.
    unfold body. by rewrite read_escape.
  - assert (Hcl : Forall (λ v, json_plain v = true) l).
    { apply Forall_forall. intros x Hx. by apply (proj1 (forallb_forall json_plain l) Hc x), list_elem_of_In. }
    rewrite array_text in Hf |- * by done. rewrite !string_length_app in Hf. simpl in Hf.
    rewrite <- !string_app_assoc. cbn [read_value]. simpl. destruct (decide (l = [])) as [->|Hne]; [done|].
    assert (∃ c t, join "," (json_text <$> l) +:+ String "]" rest = String c t ∧ json_space c = false ∧ (code c =? 93)%N = false)
      as (c & t & Et & Hsp & Hb).
    { destruct l as [|v l]; [done|]. apply Forall_cons in Hcl as [Hv _].
      destruct (text_first v Hv) as (c & t & Et & Hsp & Hb). 
      destruct (decide (l = [])) as [->|Hl0].
      - rewrite join_one, Et. eexists _, _. by split_and!.
      - rewrite join_cons, Et by done. eexists _, _. by split_and!. }
    rewrite Et, skip_head by done. rewrite Hb, <- Et. destruct (join_length json_text l) as [J1 J2].
    rewrite read_elements_texts; [done|done| |].
    + rewrite Forall_forall in IH, Hcl |- *. intros v Hv rest' Hs'. apply IH; auto.
      specialize (J1 v Hv). lia.
    + rewrite Forall_forall in Hcl. assert (length l ≤ String.length (join "," (json_text <$> l))); [|lia].
      apply J2. intros v Hv. by apply text_nonempty, Hcl.
  - simpl in Hc.
    assert (Hcl : Forall (λ kv, json_plain kv.2 = true) fs).
    { apply Forall_forall. intros x Hx. rewrite forallb_forall in Hc. apply list_elem_of_In in Hx.
      specialize (Hc x Hx). by apply andb_true_iff in Hc as [_ ?]. }
    rewrite object_text in Hf |- * by done. rewrite !string_length_app in Hf. simpl in Hf.
    rewrite <- !string_app_assoc. cbn [read_value]. simpl. destruct (decide (fs = [])) as [->|Hne]; [done|].
    assert (∃ t, join "," (member_text <$> fs) +:+ String "}" rest = String (char_of 34) t) as (t & Et).
    { destruct fs as [|kv fs]; [done|]. destruct (decide (fs = [])) as [->|Hl0].
      - rewrite join_one. unfold member_text. rewrite <- string_app_assoc, quote_app. by eexists.
      - rewrite join_cons by done. unfold member_text at 1. rewrite <- string_app_assoc, quote_app. by eexists. }
    rewrite Et. simpl skip_spaces. cbn iota. rewrite <- Et. destruct (join_length member_text fs) as [J1 J2].
    rewrite read_members_texts; [done|done| |].
    + rewrite Forall_forall in IH, Hcl |- *. intros kv Hv rest' Hs'. apply IH; auto.
      specialize (J1 kv Hv). unfold member_text in J1 at 1. rewrite !string_length_app in J1. simpl in J1. lia.
    + assert (length fs ≤ String.length (join "," (member_text <$> fs))); [|lia].
      apply J2. intros kv _. unfold member_text, quote. rewrite !string_length_app. simpl. lia.
Qed.
End ReadValues.

Lemma json_parse_plain v : json_plain v = true → json_parse (json_text v) = Some (enumerated v).
Proof.
  intros Hc. unfold json_parse. pose proof (read_value_text v (S (String.length (json_text v))) "" Hc) as H.
  rewrite string_app_nil_r in H. rewrite H by (done || lia). done.
Qed.

(** The text of a clean value reads back as the value. *)
Lemma json_parse_text v : json_clean v = true → json_parse (json_text v) = Some v.
Proof. intros [Hp Hv%bool_decide_eq_true]%andb_true_iff. by rewrite json_parse_plain, Hv. Qed.

(** ** The bytes of a text *)

Fixpoint all_chars (p : ascii → bool) (s : string) : bool :=
  match s with "" => true | String c s' => p c && all_chars p s' end.
Definition is_newline (c : ascii) : bool := (code c =? 10)%N.
Definition one_line (s : string) : bool := all_chars (λ c, negb (is_newline c)) s.

(** Well-formed UTF-8 without a line feed. *)
Definition line_ok (s : string) : Prop := utf8_valid s = true ∧ one_line s = true.

Section Bytes.
Lemma all_chars_app p a b : all_chars p (a +:+ b) = all_chars p a && all_chars p b.
Proof. induction a as [|c a IH]; simpl; [done|]. by rewrite IH, andb_assoc. Qed.

Lemma string_length_ind (P : string → Prop) :
  (∀ s, (∀ t, String.length t < String.length s → P t) → P s) → ∀ s, P s.
Proof.
  intros Hstep s. remember (String.length s) as n eqn:Hn. revert s Hn.
  induction n as [n IH] using lt_wf_ind. intros s ->. apply Hstep. intros t Ht. by eapply IH.
Qed.

Lemma utf8_valid_app a b : utf8_valid a = true → utf8_valid (a +:+ b) = utf8_valid b.
Proof.
  induction a as [a IH] using string_length_ind. destruct a as [|c1 a]; [done|]. simpl.
  destruct (code c1 <? 128)%N; [intros; apply IH; simpl; [lia | done]|].
  destruct a as [|c2 a]; [done|]. simpl.
  destruct (in_range 194 223 (code c1)).
  { intros [-> Ha]%andb_true_iff. simpl. apply IH; [simpl; lia | done]. }
  destruct a as [|c3 a]; [done|]. simpl. destruct (in_range 224 239 (code c1)).
  { intros [[-> ->]%andb_true_iff Ha]%andb_true_iff. simpl. apply IH; [simpl; lia | done]. }
  destruct a as [|c4 a]; [done|]. simpl.
  intros [[[[-> ->]%andb_true_iff ->]%andb_true_iff ->]%andb_true_iff Ha]%andb_true_iff. simpl.
  apply IH; [simpl; lia | done].
Qed.

Lemma utf8_valid_ascii s : all_chars (λ c, (code c <? 128)%N) s = true → utf8_valid s = true.
Proof. induction s as [|c s IH]; simpl; [done|]. intros [-> Hs]%andb_true_iff. auto. Qed.

Lemma line_ok_app a b : line_ok a → line_ok b → line_ok (a +:+ b).
Proof.
  intros [Ha1 Ha2] [Hb1 Hb2]. split; [by rewrite utf8_valid_app|]. unfold one_line in *.
  by rewrite all_chars_app, Ha2, Hb2.
Qed.

Lemma line_ok_ascii s : all_chars (λ c, (code c <? 128)%N && negb (is_newline c)) s = true → line_ok s.
Proof.
  intros Hs. split; [apply utf8_valid_ascii|]; revert Hs; unfold one_line;
    (induction s as [|c s IH]; simpl; [done|]); intros [[H1 H2]%andb_true_iff Hs]%andb_true_iff;
    by rewrite ?H1, ?H2, IH.
Qed.

Lemma escape_one_line s : one_line (escape s) = true.
Proof.
  unfold one_line. induction s as [|c s IH]; [done|]. cbn [escape]. rewrite all_chars_app, IH, andb_true_r.
  by destruct c as [[] [] [] [] [] [] [] []].
Qed.

Lemma escape_high c : (code c <? 128)%N = false → escape_char c = String c "".
Proof. by destruct c as [[] [] [] [] [] [] [] []]. Qed.
Lemma escape_low c : (code c <? 128)%N = true → utf8_valid (escape_char c) = true.
Proof. by destruct c as [[] [] [] [] [] [] [] []]. Qed.
Lemma continuation_high c : continuation c = true → (code c <? 128)%N = false.
Proof. by destruct c as [[] [] [] [] [] [] [] []]. Qed.
Lemma range_high c lo hi : in_range lo hi (code c) = true → (128 <= lo)%N → (code c <? 128)%N = false.
Proof. unfold in_range. rewrite andb_true_iff, !N.leb_le, N.ltb_ge. lia. Qed.

Lemma escape_valid s : utf8_valid s = true → utf8_valid (escape s) = true.
Proof.
  induction s as [s IH] using string_length_ind. destruct s as [|c1 s]; [done|]. cbn [escape utf8_valid].
  destruct (code c1 <? 128)%N eqn:E1.
  { intros Hs. rewrite utf8_valid_app by (by apply escape_low). apply IH; [simpl; lia | done]. }
  rewrite (escape_high c1 E1). destruct s as [|c2 s]; [done|]. cbn [escape].
  destruct (in_range 194 223 (code c1)) eqn:R1.
  { intros [H2 Hs]%andb_true_iff. rewrite (escape_high c2) by (by apply continuation_high). simpl.
    rewrite E1, R1, H2. simpl. apply IH; [simpl; lia | done]. }
  destruct s as [|c3 s]; [done|]. cbn [escape]. destruct (in_range 224 239 (code c1)) eqn:R2.
  { intros [[H2 H3]%andb_true_iff Hs]%andb_true_iff.
    rewrite (escape_high c2) by (eapply range_high; [exact H2 | case_match; lia]).
    rewrite (escape_high c3) by (by apply continuation_high). simpl. rewrite E1, R1, R2, H2, H3. simpl.
    apply IH; [simpl; lia | done]. }
  destruct s as [|c4 s]; [done|]. cbn [escape].
  intros [[[[H1 H2]%andb_true_iff H3]%andb_true_iff H4]%andb_true_iff Hs]%andb_true_iff.
  rewrite (escape_high c2) by (eapply range_high; [exact H2 | case_match; lia]).
  rewrite (escape_high c3), (escape_high c4) by (by apply continuation_high). simpl.
  rewrite E1, R1, R2, H1, H2, H3, H4. simpl. apply IH; [simpl; lia | done].
Qed.

Lemma quote_line s : utf8_valid s = true → line_ok (quote s).
Proof.
  intros Hs. apply line_ok_app; [done|]. apply line_ok_app; [|done].
  split; [by apply escape_valid | apply escape_one_line].
Qed.

(** The characters of a number. *)
Definition number_chars (c : ascii) : bool := (code c <? 128)%N && negb (is_newline c).

Lemma take_digits_chars s d r : take_digits s = (d, r) → s = d +:+ r ∧ all_chars number_chars d = true.
Proof.
  revert d r; induction s as [|c s IH]; intros d r; simpl; [by intros [= <- <-]|].
  destruct (is_digit c) eqn:Ed; [|by intros [= <- <-]].
  destruct (take_digits s) as [d' r'] eqn:Es. intros [= <- <-]. destruct (IH d' r' eq_refl) as [-> Hd].
  split; [done|]. simpl. rewrite Hd, andb_true_r. clear -Ed. by destruct c as [[] [] [] [] [] [] [] []].
Qed.

Ltac digits_of E := apply take_digits_chars in E as [-> ?].

Lemma read_int_chars s i r : read_int s = Some (i, r) → all_chars number_chars r = true → all_chars number_chars s = true.
Proof.
  unfold read_int. destruct (take_digits s) as [d r'] eqn:Es. digits_of Es. intros Hi Hr.
  assert (r' = r) as -> by (destruct d; [done|]; case_match; by simplify_eq). by rewrite all_chars_app, Hr, andb_true_r.
Qed.

Lemma read_fraction_chars s f r :
  read_fraction s = Some (f, r) → all_chars number_chars r = true → all_chars number_chars s = true.
Proof.
  unfold read_fraction. destruct s as [|c s]; [done|]. destruct (N.eqb_spec (code c) 46) as [Ec|Ec]; [|by intros [= _ <-]].
  destruct (take_digits s) as [d r'] eqn:Es. digits_of Es. intros Hi Hr.
  assert (r' = r) as -> by (destruct d; by simplify_eq). simpl. rewrite all_chars_app, Hr, andb_true_r.
  unfold number_chars at 1, is_newline. by rewrite Ec.
Qed.

Lemma read_exponent_digits_chars sign s e r :
  read_exponent_digits sign s = Some (e, r) → all_chars number_chars r = true → all_chars number_chars s = true.
Proof.
  unfold read_exponent_digits. destruct (take_digits s) as [d r'] eqn:Es. digits_of Es. intros Hi Hr.
  assert (r' = r) as -> by (destruct d; by simplify_eq). by rewrite all_chars_app, Hr, andb_true_r.
Qed.

Lemma read_exponent_chars s e r :
  read_exponent s = Some (e, r) → all_chars number_chars r = true → all_chars number_chars s = true.
Proof.
  unfold read_exponent. destruct s as [|c s]; [done|]. simpl.
  destruct ((code c =? 101) || (code c =? 69))%N eqn:Ec; [|by intros [= _ <-]].
  assert (number_chars c = true) as ->.
  { apply orb_true_iff in Ec as [Ec%N.eqb_eq|Ec%N.eqb_eq]; unfold number_chars, is_newline; by rewrite Ec. }
  destruct s as [|c' s]; [done|]. simpl.
  destruct (N.eqb_spec (code c') 43) as [E1|E1].
  { intros Hs Hr. rewrite (read_exponent_digits_chars _ _ _ _ Hs Hr). unfold number_chars, is_newline. by rewrite E1. }
  destruct (N.eqb_spec (code c') 45) as [E2|E2].
  { intros Hs Hr. rewrite (read_exponent_digits_chars _ _ _ _ Hs Hr). unfold number_chars, is_newline. by rewrite E2. }
  intros Hs Hr. exact (read_exponent_digits_chars _ (String c' s) _ _ Hs Hr).
Qed.

Lemma read_number_chars s n : read_number s = Some (n, "") → all_chars number_chars s = true.
Proof.
  assert (Hu : ∀ neg s, read_unsigned neg s = Some (n, "") → all_chars number_chars s = true).
  { intros neg t. unfold read_unsigned. destruct (read_int t) as [[i s1]|] eqn:E1; [|done].
    destruct (read_fraction s1) as [[f s2]|] eqn:E2; [|done].
    destruct (read_exponent s2) as [[e s3]|] eqn:E3; [|done]. intros [= _ ->].
    eapply read_int_chars; [exact E1|]. eapply read_fraction_chars; [exact E2|].
    by eapply read_exponent_chars; [exact E3|]. }
  unfold read_number. destruct s as [|c s]; [done|]. destruct (N.eqb_spec (code c) 45) as [Ec|Ec]; [|apply Hu].
  intros Hs%Hu. simpl. rewrite Hs, andb_true_r. unfold number_chars, is_newline. by rewrite Ec.
Qed.

Lemma join_line {A} (f : A → string) l : Forall (λ x, line_ok (f x)) l → line_ok (join "," (f <$> l)).
Proof.
  induction 1 as [|x l Hx Hl IH]; [done|]. destruct (decide (l = [])) as [->|Hne]; [done|].
  rewrite <- (string_app_nil_r (join "," (f <$> x :: l))), join_cons by done.
  apply line_ok_app; [done|]. apply line_ok_app; [done|]. by rewrite string_app_nil_r.
Qed.

Lemma plain_line v : json_plain v = true → line_ok (json_text v).
Proof.
  induction v as [| |b|n|s|l IH|fs IH|fs IH|] using jsval_rect'; intros Hc; try done.
  - by destruct b.
  - destruct (number_text n Hc) as (t & -> & Ht). by apply line_ok_ascii, (read_number_chars t n).
  - by apply quote_line.
  - assert (Hcl : Forall (λ v, json_plain v = true) l).
    { apply Forall_forall. intros x Hx. by apply (proj1 (forallb_forall json_plain l) Hc x), list_elem_of_In. }
    rewrite array_text by done. apply line_ok_app; [done|]. apply line_ok_app; [|done].
    apply join_line. rewrite Forall_forall in IH, Hcl |- *. auto.
  - assert (Hcl : Forall (λ kv, utf8_valid kv.1 = true ∧ json_plain kv.2 = true) fs).
    { apply Forall_forall. intros x Hx.
      apply andb_true_iff. by apply (proj1 (forallb_forall _ fs) Hc x), list_elem_of_In. }
    rewrite object_text by (eapply Forall_impl; [exact Hcl|]; by intros kv [_ ?]).
    apply line_ok_app; [done|]. apply line_ok_app; [|done]. apply join_line.
    rewrite Forall_forall in IH, Hcl |- *. intros kv Hkv. destruct (Hcl kv Hkv) as [Hk Hv].
    apply line_ok_app; [by apply quote_line|]. apply line_ok_app; [done|]. auto.
Qed.

Lemma text_line v : json_clean v = true → line_ok (json_text v).
Proof. intros [Hp _]%andb_true_iff. by apply plain_line. Qed.
End Bytes.
