(* ===== verification/Utf8.v ===== *)
(** The code points of a well-formed string, and slicing by UTF-16 units. *)
From stdpp Require Import base list strings.
From Stdlib Require Import ZArith Lia Ascii.
From S2P Require Import Prelude Text JsValue Json JsonText.

#[local] Ltac Zify.zify_post_hook ::= Z.to_euclidean_division_equations.

(** [s.slice(n)]: what is left of a surrogate pair that is cut is U+FFFD. *)
Fixpoint drop_units (n : Z) (ps : list N) : list N :=
  match ps with
  | [] => []
  | p :: ps' =>
      if (n <=? 0)%Z then ps
      else if (utf16_units p <=? n)%Z then drop_units (n - utf16_units p) ps'
      else 65533%N :: ps'
  end.
Definition js_slice_from (n : Z) (s : string) : string := of_code_points (drop_units n (code_points s)).

Section CodePoints.
Lemma char_code c : char_of (code c) = c.
Proof. apply ascii_N_embedding. Qed.
Lemma chr_code c : chr (code c) = String c "".
Proof. unfold chr. by rewrite char_code. Qed.
Lemma chr_of n c : n = code c → chr n = String c "".
Proof. intros ->. apply chr_code. Qed.

Lemma of_code_points_cons p ps : of_code_points (p :: ps) = utf8_encode p +:+ of_code_points ps.
Proof. unfold of_code_points. destruct ps; [by rewrite string_app_nil_r | done]. Qed.

Lemma in_range_spec lo hi n : in_range lo hi n = true ↔ (lo <= n <= hi)%N.
Proof. unfold in_range. rewrite andb_true_iff, !N.leb_le. done. Qed.
Lemma in_range_false lo hi n : in_range lo hi n = false ↔ (n < lo ∨ hi < n)%N.
Proof. unfold in_range. rewrite andb_false_iff, !N.leb_gt. done. Qed.

Lemma continuation_range c : continuation c = true ↔ (128 <= code c <= 191)%N.
Proof. apply in_range_spec. Qed.

Ltac bytes :=
  repeat match goal with
  | |- context [(?a <? ?b)%N] => destruct (N.ltb_spec a b); [|]; try lia
  end.

(** Decoding and encoding again is the identity. *)
Lemma utf8_roundtrip s : utf8_valid s = true → of_code_points (code_points s) = s.
Proof.
  induction s as [s IH] using string_length_ind. destruct s as [|c1 s]; [done|]. cbn [utf8_valid code_points].
  destruct (N.ltb_spec (code c1) 128) as [L1|L1].
  { intros Hs. rewrite of_code_points_cons, IH by (done || simpl; lia). unfold utf8_encode.
    rewrite (proj2 (N.ltb_lt _ _) L1), chr_code. done. }
  destruct s as [|c2 s]; [done|].
  destruct (in_range 194 223 (code c1)) eqn:R1.
  { apply in_range_spec in R1. intros [H2%continuation_range Hs]%andb_true_iff.
    rewrite (proj2 (in_range_spec 192 223 (code c1))) by lia.
    rewrite of_code_points_cons, IH by (done || simpl; lia). unfold utf8_encode. bytes.
    rewrite (chr_of _ c1), (chr_of _ c2) by lia. done. }
  apply in_range_false in R1. destruct s as [|c3 s]; [done|].
  destruct (in_range 224 239 (code c1)) eqn:R2.
  { apply in_range_spec in R2. intros [[H2%in_range_spec H3%continuation_range]%andb_true_iff Hs]%andb_true_iff.
    rewrite (proj2 (in_range_false 192 223 (code c1))) by lia.
    assert (128 <= code c2 <= 191 ∧ (code c1 = 224 → 160 <= code c2))%N as [B2 B2'].
    { destruct (N.eqb_spec (code c1) 224), (N.eqb_spec (code c1) 237); lia. }
    rewrite of_code_points_cons, IH by (done || simpl; lia). unfold utf8_encode. bytes.
    rewrite (chr_of _ c1), (chr_of _ c2), (chr_of _ c3) by lia. done. }
  apply in_range_false in R2. destruct s as [|c4 s]; [done|].
  intros [[[[H1%in_range_spec H2%in_range_spec]%andb_true_iff H3%continuation_range]%andb_true_iff
    H4%continuation_range]%andb_true_iff Hs]%andb_true_iff.
  rewrite (proj2 (in_range_false 192 223 (code c1))) by lia.
  rewrite of_code_points_cons, IH by (done || simpl; lia).
  assert (128 <= code c2 <= 191 ∧ (code c1 = 240 → 144 <= code c2))%N as [B2 B2'].
  { destruct (N.eqb_spec (code c1) 240), (N.eqb_spec (code c1) 244); lia. }
  unfold utf8_encode. bytes.
  rewrite (chr_of _ c1), (chr_of _ c2), (chr_of _ c3), (chr_of _ c4) by lia. done.
Qed.

Lemma code_points_app a b : utf8_valid a = true → code_points (a +:+ b) = code_points a ++ code_points b.
Proof.
  induction a as [a IH] using string_length_ind. destruct a as [|c1 a]; [done|].
  change (String c1 a +:+ b) with (String c1 (a +:+ b)). cbn [utf8_valid code_points].
  destruct (code c1 <? 128)%N; [intros; simpl; f_equal; apply IH; [simpl; lia | done]|].
  destruct a as [|c2 a]; [done|]. change (String c2 a +:+ b) with (String c2 (a +:+ b)).
  destruct (in_range 194 223 (code c1)) eqn:R1.
  { apply in_range_spec in R1. rewrite (proj2 (in_range_spec 192 223 (code c1))) by lia.
    intros [_ Ha]%andb_true_iff. simpl. f_equal. apply IH; [simpl; lia | done]. }
  apply in_range_false in R1. destruct a as [|c3 a]; [done|]. change (String c3 a +:+ b) with (String c3 (a +:+ b)).
  destruct (in_range 224 239 (code c1)) eqn:R2.
  { apply in_range_spec in R2. rewrite (proj2 (in_range_false 192 223 (code c1))) by lia.
    intros [_ Ha]%andb_true_iff. simpl. f_equal. apply IH; [simpl; lia | done]. }
  destruct a as [|c4 a]; [done|]. change (String c4 a +:+ b) with (String c4 (a +:+ b)).
  intros [[[[H1%in_range_spec _]%andb_true_iff _]%andb_true_iff _]%andb_true_iff Ha]%andb_true_iff.
  rewrite (proj2 (in_range_false 192 223 (code c1))) by lia. simpl. f_equal. apply IH; [simpl; lia | done].
Qed.

Lemma utf8_valid_app_inv a b : utf8_valid a = true → utf8_valid (a +:+ b) = true → utf8_valid b = true.
Proof. intros Ha. by rewrite utf8_valid_app. Qed.

Lemma drop_units_app ps qs :
  drop_units (fold_right (λ p n, (utf16_units p + n)%Z) 0%Z ps) (ps ++ qs) = qs.
Proof.
  assert (Hz : ∀ n qs, (n <= 0)%Z → drop_units n qs = qs).
  { intros n [|q qs'] Hn; [done|]. simpl. by rewrite (proj2 (Z.leb_le _ _) Hn). }
  induction ps as [|p ps IH]; simpl; [apply Hz; done|].
  assert (Hu : ∀ q, (0 < utf16_units q)%Z) by (intros q; unfold utf16_units; case_match; lia).
  assert (0 <= fold_right (λ p n, (utf16_units p + n)%Z) 0%Z ps)%Z.
  { clear -Hu. induction ps as [|q ps IH]; simpl; [lia|]. specialize (Hu q). lia. }
  specialize (Hu p).
  rewrite (proj2 (Z.leb_gt _ _)) by lia. rewrite (proj2 (Z.leb_le _ _)) by lia.
  replace (utf16_units p + fold_right (λ p n, (utf16_units p + n)%Z) 0%Z ps - utf16_units p)%Z
    with (fold_right (λ p n, (utf16_units p + n)%Z) 0%Z ps) by lia. exact IH.
Qed.

(** Slicing off a prefix. *)
Lemma js_slice_prefix a b : utf8_valid a = true → utf8_valid b = true → js_slice_from (js_length a) (a +:+ b) = b.
Proof.
  intros Ha Hb. unfold js_slice_from, js_length. rewrite code_points_app by done. rewrite drop_units_app.
  by apply utf8_roundtrip.
Qed.

Lemma js_length_app a b : utf8_valid a = true → js_length (a +:+ b) = (js_length a + js_length b)%Z.
Proof.
  intros Ha. unfold js_length. rewrite code_points_app by done. generalize (code_points a), (code_points b).
  induction l as [|p l IH]; intros l'; simpl; [done|]. rewrite IH. lia.
Qed.
End CodePoints.

(** ** Decoding with replacement

    [buffer.toString("utf8")]: every maximal ill-formed part of the bytes becomes
    one U+FFFD. *)
Definition replacement : string := utf8_encode 65533.

Fixpoint utf8_text (s : string) : string :=
  match s with
  | "" => ""
  | String a s1 =>
      let n := code a in
      if (n <? 128)%N then String a (utf8_text s1)
      else if in_range 194 223 n then
        match s1 with
        | String b s2 =>
            if continuation b then String a (String b (utf8_text s2)) else replacement +:+ utf8_text s1
        | "" => replacement
        end
      else if in_range 224 239 n then
        match s1 with
        | String b s2 =>
            if in_range (if (n =? 224)%N then 160 else 128) (if (n =? 237)%N then 159 else 191) (code b) then
              match s2 with
              | String c s3 =>
                  if continuation c then String a (String b (String c (utf8_text s3))) else replacement +:+ utf8_text s2
              | "" => replacement
              end
            else replacement +:+ utf8_text s1
        | "" => replacement
        end
      else if in_range 240 244 n then
        match s1 with
        | String b s2 =>
            if in_range (if (n =? 240)%N then 144 else 128) (if (n =? 244)%N then 143 else 191) (code b) then
              match s2 with
              | String c s3 =>
                  if continuation c then
                    match s3 with
                    | String d s4 =>
                        if continuation d then String a (String b (String c (String d (utf8_text s4))))
                        else replacement +:+ utf8_text s3
                    | "" => replacement
                    end
                  else replacement +:+ utf8_text s2
              | "" => replacement
              end
            else replacement +:+ utf8_text s1
        | "" => replacement
        end
      else replacement +:+ utf8_text s1
  end.

(** Well-formed bytes are decoded as they are. *)
Lemma utf8_text_valid s : utf8_valid s = true → utf8_text s = s.
Proof.
  induction s as [s IH] using string_length_ind. destruct s as [|a s]; [done|]. cbn [utf8_valid utf8_text].
  destruct (code a <? 128)%N; [intros; by rewrite IH by (done || simpl; lia)|].
  destruct s as [|b s]; [done|]. destruct (in_range 194 223 (code a)) eqn:R1.
  { intros [-> Hs]%andb_true_iff. by rewrite IH by (done || simpl; lia). }
  destruct s as [|c s]; [done|]. destruct (in_range 224 239 (code a)) eqn:R2.
  { intros [[-> ->]%andb_true_iff Hs]%andb_true_iff. by rewrite IH by (done || simpl; lia). }
  destruct s as [|d s]; [done|].
  intros [[[[-> ->]%andb_true_iff ->]%andb_true_iff ->]%andb_true_iff Hs]%andb_true_iff.
  by rewrite IH by (done || simpl; lia).
Qed.
