(* ===== verification/JsonClean.v ===== *)
(** The values the code writes to a file are read back as they were: strings,
    integers, and objects written as literals. *)
From stdpp Require Import base list strings pretty.
From Stdlib Require Import ZArith Lia Ascii.
From S2P Require Import Prelude Text JsValue Json JsonText Utf8.

#[local] Ltac Zify.zify_post_hook ::= Z.to_euclidean_division_equations.

Section Integers.
Open Scope N_scope.

Lemma digit_chars (d : N) : d < 10 →
  is_digit (pretty_N_char d) = true ∧ code (pretty_N_char d) = 48 + d.
Proof.
  intros Hd. assert (d = 0 ∨ d = 1 ∨ d = 2 ∨ d = 3 ∨ d = 4 ∨ d = 5 ∨ d = 6 ∨ d = 7 ∨ d = 8 ∨ d = 9) as H by lia.
  by destruct_or! H; subst.
Qed.

(** What [pretty] puts before [s]: digits that stand for the number, the first not
    a zero. *)
Lemma pretty_go x s : x ≠ 0 →
  ∃ c d, pretty_N_go x s = String c d +:+ s ∧ all_chars is_digit (String c d) = true ∧ code c ≠ 48 ∧
    ∀ t, digits_value 0 (String c d +:+ t) = digits_value (Z.of_N x) t.
Proof.
  revert s. induction (N.lt_wf_0 x) as [x _ IH]. intros s Hx.
  rewrite pretty_N_go_step by lia.
  destruct (digit_chars (x mod 10)) as [Hd Hc]; [lia|].
  destruct (decide (x / 10 = 0)) as [Hz|Hz].
  - rewrite Hz, pretty_N_go_0. assert (x mod 10 = x) as Hm by lia. rewrite Hm in *.
    exists (pretty_N_char x), "". split_and!; [done| |lia|].
    + simpl. by rewrite Hd.
    + intros t. simpl. f_equal. lia.
  - destruct (IH (x / 10) ltac:(lia) (String (pretty_N_char (x mod 10)) s) Hz) as (c & d & -> & Hall & Hc0 & Hv).
    exists c, (d +:+ String (pretty_N_char (x mod 10)) ""). split_and!; [|  |done|].
    + simpl. by rewrite <- string_app_assoc.
    + change (String c (d +:+ String (pretty_N_char (x mod 10)) "")) with (String c d +:+ String (pretty_N_char (x mod 10)) "").
      rewrite all_chars_app, Hall. simpl. by rewrite Hd.
    + intros t. change (String c (d +:+ String (pretty_N_char (x mod 10)) "") +:+ t)
        with ((String c d +:+ String (pretty_N_char (x mod 10)) "") +:+ t).
      rewrite <- string_app_assoc, Hv. simpl. f_equal. lia.
Qed.
End Integers.

Lemma take_all_digits d : all_chars is_digit d = true → take_digits d = (d, "").
Proof. induction d as [|c d IH]; [done|]. simpl. intros [-> Hd]%andb_true_iff. by rewrite IH. Qed.

(** A non-negative safe integer is read back from its text. *)
Lemma read_integer z : (0 <= z <= MAX_SAFE_INTEGER)%Z → read_number (pretty z) = Some (NInt z, "").
Proof.
  intros Hz. destruct (decide (z = 0%Z)) as [->|Hz0]; [done|].
  destruct (pretty_go (Z.to_N z) "") as (c & d & Hp & Hall & Hc & Hv); [lia|].
  assert (pretty z = String c d) as ->.
  { destruct z as [|p|p]; [done| |lia]. unfold pretty, pretty_Z, pretty, pretty_positive, pretty, pretty_N.
    destruct (decide (N.pos p = 0%N)) as [|_]; [done|].
    by rewrite string_app_nil_r in Hp. }
  specialize (Hv ""). rewrite string_app_nil_r in Hv. rewrite Z2N.id in Hv by lia.
  assert (is_digit c = true) as Hdc%in_range_spec by (simpl in Hall; by destruct (is_digit c)).
  unfold read_number, read_unsigned, read_int. rewrite (proj2 (N.eqb_neq (code c) 45)) by lia.
  rewrite take_all_digits by done. rewrite (proj2 (N.eqb_neq _ _) Hc). cbn [andb read_fraction read_exponent].
  rewrite string_app_nil_r, Hv. cbn [digits_value String.length]. unfold decimal_to_number.
  rewrite (proj2 (Z.eqb_neq _ _) Hz0). change (10 ^ (0 - Z.of_nat 0))%Z with 1%Z. rewrite Z.mul_1_r.
  change (0 <=? 0 - Z.of_nat 0)%Z with true. cbn [fst]. by rewrite (proj2 (Z.leb_le z MAX_SAFE_INTEGER)) by lia.
Qed.

(** ** Clean values *)

Lemma clean_int z : (0 <= z <= MAX_SAFE_INTEGER)%Z → json_clean (JInt z) = true.
Proof.
  intros Hz. unfold json_clean. cbn [JInt enumerated json_plain is_finite number_to_string].
  rewrite (proj2 (Z.leb_le _ _)) by lia. by rewrite read_integer, !bool_decide_true by done.
Qed.

Lemma clean_str s : utf8_valid s = true → json_clean (JStr s) = true.
Proof. intros H. unfold json_clean. cbn [enumerated json_plain]. by rewrite H, bool_decide_true. Qed.

Lemma clean_bool b : json_clean (JBool b) = true.
Proof. by destruct b. Qed.

(** A key that is enumerated where it was set. *)
Definition name_key (k : string) : Prop := array_index k = None ∧ utf8_valid k = true.

Lemma set_fields_names fs o :
  NoDup (keys (o ++ fs)) → Forall (λ kv, array_index kv.1 = None) fs → fold_left set_field fs o = o ++ fs.
Proof.
  revert o. induction fs as [|[k v] fs IH]; intros o Hnd Hfs; [by rewrite app_nil_r|].
  apply Forall_cons in Hfs as [Hk Hfs]. cbn [fold_left]. unfold set_field at 2. cbn [fst] in *.
  replace (has_own k o) with false; [rewrite Hk|].
  - replace (o ++ (k, v) :: fs) with ((o ++ [(k, v)]) ++ fs) in * by by rewrite <- app_assoc. by apply IH.
  - symmetry. unfold has_own. apply bool_decide_false. intros Hin. unfold keys in *. rewrite fmap_app in Hnd.
    apply NoDup_app in Hnd as (_ & Hd & _). apply (Hd k Hin). by left.
Qed.

Definition clean_field (kv : string * jsval) : Prop := name_key kv.1 ∧ json_clean kv.2 = true.

Lemma clean_object fs : NoDup (keys fs) → Forall clean_field fs → json_clean (JObj fs) = true.
Proof.
  intros Hnd Hfs. unfold json_clean. cbn [json_plain enumerated]. apply andb_true_iff. split.
  - apply forallb_forall. intros kv Hin%list_elem_of_In. rewrite Forall_forall in Hfs.
    destruct (Hfs kv Hin) as [[_ ->] [-> _]%andb_true_iff]. done.
  - apply bool_decide_true. unfold make_object. f_equal.
    etrans; [|apply (set_fields_names fs []); [done|]; eapply Forall_impl; [exact Hfs|]; by intros kv [[? _] _]].
    f_equal. clear Hnd. induction Hfs as [|[k v] fs [_ [_ Hv%bool_decide_eq_true]%andb_true_iff] _ IH]; [done|].
    cbn [fmap list_fmap fst snd] in *. f_equal; [by rewrite Hv | exact IH].
Qed.

Lemma clean_object_inv fs : json_clean (JObj fs) = true → Forall (λ kv, json_plain kv.2 = true) fs.
Proof.
  intros [Hp _]%andb_true_iff. cbn [json_plain] in Hp. apply Forall_forall. intros kv Hkv.
  apply (proj1 (forallb_forall _ _)) with (x := kv) in Hp; [|by apply list_elem_of_In]. by apply andb_true_iff in Hp as [_ ?].
Qed.

(** The characters of a string that a regular expression matches. *)
Fixpoint regex_chars (p : ascii → bool) (r : regex) : Prop :=
  match r with
  | RNone | REmpty => True
  | RClass f => ∀ c, f c = true → p c = true
  | RSeq r1 r2 | RAlt r1 r2 => regex_chars p r1 ∧ regex_chars p r2
  | RStar r => regex_chars p r
  end.

Lemma lang_chars p r s : lang r s → regex_chars p r → all_chars p s = true.
Proof.
  induction 1; simpl; intros Hr; rewrite ?all_chars_app, ?andb_true_iff; try done; try naive_solver.
Qed.

Lemma match_utf8 r s : rmatch r s = true → regex_chars (λ c, (code c <? 128)%N) r → utf8_valid s = true.
Proof. intros H%rmatch_lang Hr. by apply utf8_valid_ascii, (lang_chars _ r). Qed.
