(* ===== verification/Sha256.v ===== *)
(** protocol/src/canonical-request.ts: the SHA-256 of canonical requests, over the
    32-bit integer operators of JavaScript, and its equality with the hash of
    FIPS 180-4 over unsigned words. *)
From stdpp Require Import base list strings.
From Stdlib Require Import ZArith Lia Ascii.
From S2P Require Import Prelude Text JsValue Json.

#[local] Open Scope Z_scope.

(** ** The operators *)

Definition to_uint32 (z : Z) : Z := z mod 2 ^ 32.
Definition to_int32 (z : Z) : Z := let u := to_uint32 z in if u <? 2 ^ 31 then u else u - 2 ^ 32.
Definition js_ushr (v n : Z) : Z := Z.shiftr (to_uint32 v) n.
Definition js_shl (v n : Z) : Z := to_int32 (Z.shiftl (to_int32 v) n).
Definition js_or (a b : Z) : Z := Z.lor (to_int32 a) (to_int32 b).
Definition js_xor (a b : Z) : Z := Z.lxor (to_int32 a) (to_int32 b).
Definition js_and (a b : Z) : Z := Z.land (to_int32 a) (to_int32 b).
Definition js_not (a : Z) : Z := Z.lnot (to_int32 a).

(** [array[i] ?? 0] *)
Definition at_or_zero (l : list Z) (i : nat) : Z := default 0 (l !! i).

(** [DataView]: four bytes, most significant first. *)
Definition uint32_bytes (z : Z) : list Z :=
  [to_uint32 z / 2 ^ 24; to_uint32 z / 2 ^ 16 mod 256; to_uint32 z / 2 ^ 8 mod 256; to_uint32 z mod 256].
Definition get_uint32 (buffer : list Z) (offset : nat) : Z :=
  at_or_zero buffer offset * 2 ^ 24 + at_or_zero buffer (offset + 1) * 2 ^ 16 +
  at_or_zero buffer (offset + 2) * 2 ^ 8 + at_or_zero buffer (offset + 3).
(** [buffer.set(bytes, offset)] inside the buffer. *)
Definition set_bytes (offset : nat) (bytes buffer : list Z) : list Z :=
  take offset buffer ++ bytes ++ drop (offset + length bytes) buffer.

(** ** The hash *)

(** Four to a row. *)
Definition SHA256_CONSTANTS : list Z :=
  mjoin [
    [0x428a2f98; 0x71374491; 0xb5c0fbcf; 0xe9b5dba5];
    [0x3956c25b; 0x59f111f1; 0x923f82a4; 0xab1c5ed5];
    [0xd807aa98; 0x12835b01; 0x243185be; 0x550c7dc3];
    [0x72be5d74; 0x80deb1fe; 0x9bdc06a7; 0xc19bf174];
    [0xe49b69c1; 0xefbe4786; 0x0fc19dc6; 0x240ca1cc];
    [0x2de92c6f; 0x4a7484aa; 0x5cb0a9dc; 0x76f988da];
    [0x983e5152; 0xa831c66d; 0xb00327c8; 0xbf597fc7];
    [0xc6e00bf3; 0xd5a79147; 0x06ca6351; 0x14292967];
    [0x27b70a85; 0x2e1b2138; 0x4d2c6dfc; 0x53380d13];
    [0x650a7354; 0x766a0abb; 0x81c2c92e; 0x92722c85];
    [0xa2bfe8a1; 0xa81a664b; 0xc24b8b70; 0xc76c51a3];
    [0xd192e819; 0xd6990624; 0xf40e3585; 0x106aa070];
    [0x19a4c116; 0x1e376c08; 0x2748774c; 0x34b0bcb5];
    [0x391c0cb3; 0x4ed8aa4a; 0x5b9cca4f; 0x682e6ff3];
    [0x748f82ee; 0x78a5636f; 0x84c87814; 0x8cc70208];
    [0x90befffa; 0xa4506ceb; 0xbef9a3f7; 0xc67178f2]].

Definition rotateRight (value bits : Z) : Z := js_or (js_ushr value bits) (js_shl value (32 - bits)).

Definition padded_length (bytes : list Z) : nat := Z.to_nat ((Z.of_nat (length bytes) + 9 + 63) / 64 * 64).

Definition padded_bytes (bytes : list Z) : list Z :=
  let bitLength := Z.of_nat (length bytes) * 8 in
  let n := padded_length bytes in
  set_bytes (n - 4) (uint32_bytes (js_ushr bitLength 0))
    (set_bytes (n - 8) (uint32_bytes (bitLength / 2 ^ 32))
       (set_bytes (length bytes) [128] (set_bytes 0 bytes (replicate n 0)))).

Definition initial_state : list Z :=
  [0x6a09e667; 0xbb67ae85; 0x3c6ef372; 0xa54ff53a; 0x510e527f; 0x9b05688c; 0x1f83d9ab; 0x5be0cd19].

(** The two loops that fill [words]; the array is the same for every block. *)
Definition load_words (padded : list Z) (offset : nat) (words : list Z) : list Z :=
  fold_left (λ words index, <[index := get_uint32 padded (offset + index * 4)]> words) (seq 0 16) words.

Definition next_word (words : list Z) (index : nat) : Z :=
  let before15 := at_or_zero words (index - 15) in
  let before2 := at_or_zero words (index - 2) in
  let sigma0 := js_xor (js_xor (rotateRight before15 7) (rotateRight before15 18)) (js_ushr before15 3) in
  let sigma1 := js_xor (js_xor (rotateRight before2 17) (rotateRight before2 19)) (js_ushr before2 10) in
  js_ushr (at_or_zero words (index - 16) + sigma0 + at_or_zero words (index - 7) + sigma1) 0.

Definition extend_words (words : list Z) : list Z :=
  fold_left (λ words index, <[index := next_word words index]> words) (seq 16 48) words.

Record working := { wa : Z; wb : Z; wc : Z; wd : Z; we : Z; wf : Z; wg : Z; wh : Z }.

Definition round_step (words : list Z) (s : working) (index : nat) : working :=
  let sum1 := js_xor (js_xor (rotateRight (we s) 6) (rotateRight (we s) 11)) (rotateRight (we s) 25) in
  let choice := js_xor (js_and (we s) (wf s)) (js_and (js_not (we s)) (wg s)) in
  let temporary1 := js_ushr (wh s + sum1 + choice + at_or_zero SHA256_CONSTANTS index + at_or_zero words index) 0 in
  let sum0 := js_xor (js_xor (rotateRight (wa s) 2) (rotateRight (wa s) 13)) (rotateRight (wa s) 22) in
  let majority := js_xor (js_xor (js_and (wa s) (wb s)) (js_and (wa s) (wc s))) (js_and (wb s) (wc s)) in
  let temporary2 := js_ushr (sum0 + majority) 0 in
  {| wh := wg s; wg := wf s; wf := we s; we := js_ushr (wd s + temporary1) 0;
     wd := wc s; wc := wb s; wb := wa s; wa := js_ushr (temporary1 + temporary2) 0 |}.

Definition working_of (state : list Z) : working :=
  {| wa := at_or_zero state 0; wb := at_or_zero state 1; wc := at_or_zero state 2; wd := at_or_zero state 3;
     we := at_or_zero state 4; wf := at_or_zero state 5; wg := at_or_zero state 6; wh := at_or_zero state 7 |}.
Definition values_of (s : working) : list Z := [wa s; wb s; wc s; wd s; we s; wf s; wg s; wh s].

Definition block_step (padded : list Z) (acc : list Z * list Z) (offset : nat) : list Z * list Z :=
  let (state, words) := acc in
  let words := extend_words (load_words padded offset words) in
  let values := values_of (fold_left (round_step words) (seq 0 64) (working_of state)) in
  (zip_with (λ s v, js_ushr (s + v) 0) state values, words).

(** [for (let offset = 0; offset < paddedLength; offset += 64)] *)
Definition offsets (n : nat) : list nat := (λ i, (i * 64)%nat) <$> seq 0 (n / 64).

Inductive hash_error := hash_range_error (message : string).

Definition sha256 (bytes : list Z) : result hash_error (list Z) :=
  _ ← refuse (MAX_SAFE_INTEGER <? Z.of_nat (length bytes) * 8) (hash_range_error "Canonical request is too large");
  let padded := padded_bytes bytes in
  let state := (fold_left (block_step padded) (offsets (padded_length bytes)) (initial_state, replicate 64 0)).1 in
  Ok (concat (uint32_bytes <$> state)).

(** The bytes of a text, and the text of a digest. *)
Definition bytes_of (s : string) : list Z := (λ c, Z.of_N (code c)) <$> String.list_ascii_of_string s.
Definition hex_bytes (bytes : list Z) : string :=
  String.concat "" ((λ b, hex_digit (Z.to_N (b / 16)) +:+ hex_digit (Z.to_N (b mod 16))) <$> bytes).

Example sha256_abc :
  hex_bytes <$$> sha256 (bytes_of "abc") = Ok "ba7816bf8f01cfea414140de5dae2223b00361a396177a9cb410ff61f20015ad".
Proof. vm_compute. reflexivity. Qed.
Example sha256_two_blocks :
  hex_bytes <$$> sha256 (bytes_of "abcdbcdecdefdefgefghfghighijhijkijkljklmklmnlmnomnopnopq") =
  Ok "248d6a61d20638b8e5c026930c3e6039a33ce45964ff2167f6ecedd419db06c1".
Proof. vm_compute. reflexivity. Qed.

(** ** FIPS 180-4

    The standard's definition, over words in [0, 2^32), with its constants computed
    as the standard describes them: the fractions of roots of the first primes. *)

Module Fips.
Definition word (x : Z) : Prop := 0 <= x < 2 ^ 32.
Definition byte (x : Z) : Prop := 0 <= x < 256.
Definition add (x y : Z) : Z := (x + y) mod 2 ^ 32.
Definition complement (x : Z) : Z := 2 ^ 32 - 1 - x.
Definition shr (n x : Z) : Z := Z.shiftr x n.
Definition rotr (n x : Z) : Z := Z.lor (Z.shiftr x n) (Z.shiftl x (32 - n) mod 2 ^ 32).

Definition Ch (x y z : Z) : Z := Z.lxor (Z.land x y) (Z.land (complement x) z).
Definition Maj (x y z : Z) : Z := Z.lxor (Z.lxor (Z.land x y) (Z.land x z)) (Z.land y z).
Definition Sigma0 (x : Z) : Z := Z.lxor (Z.lxor (rotr 2 x) (rotr 13 x)) (rotr 22 x).
Definition Sigma1 (x : Z) : Z := Z.lxor (Z.lxor (rotr 6 x) (rotr 11 x)) (rotr 25 x).
Definition sigma0 (x : Z) : Z := Z.lxor (Z.lxor (rotr 7 x) (rotr 18 x)) (shr 3 x).
Definition sigma1 (x : Z) : Z := Z.lxor (Z.lxor (rotr 17 x) (rotr 19 x)) (shr 10 x).

Definition primes : list Z :=
  [2; 3; 5; 7; 11; 13; 17; 19; 23; 29; 31; 37; 41; 43; 47; 53; 59; 61; 67; 71; 73; 79; 83; 89; 97; 101; 103; 107;
   109; 113; 127; 131; 137; 139; 149; 151; 157; 163; 167; 173; 179; 181; 191; 193; 197; 199; 211; 223; 227; 229;
   233; 239; 241; 251; 257; 263; 269; 271; 277; 281; 283; 293; 307; 311].
(** The largest [r] below [2^bits] with [r^3 <= n], bit by bit. *)
Fixpoint cube_root (bits : nat) (n r : Z) : Z :=
  match bits with
  | O => r
  | S k => let r' := r + 2 ^ Z.of_nat k in cube_root k n (if r' ^ 3 <=? n then r' else r)
  end.
Definition K : list Z := (λ p, cube_root 40 (p * 2 ^ 96) 0 mod 2 ^ 32) <$> primes.
Definition H0 : list Z := (λ p, Z.sqrt (p * 2 ^ 64) mod 2 ^ 32) <$> take 8 primes.

(** The message, a one bit, zeros, and the bit length in eight bytes. *)
Definition big_endian (n : nat) (z : Z) : list Z :=
  (λ i, z / 2 ^ (8 * (Z.of_nat n - 1 - Z.of_nat i)) mod 256) <$> seq 0 n.
Definition pad (message : list Z) : list Z :=
  message ++ [128] ++ replicate (Z.to_nat ((55 - Z.of_nat (length message)) mod 64)) 0 ++
  big_endian 8 (Z.of_nat (length message) * 8).
Definition blocks (l : list Z) : list (list Z) :=
  (λ i, take 64 (drop (i * 64) l)) <$> seq 0 (length l / 64).

Definition from_big_endian (bytes : list Z) : Z := fold_left (λ acc b, acc * 256 + b) bytes 0.
Definition block_words (block : list Z) : list Z :=
  (λ i, from_big_endian (take 4 (drop (i * 4) block))) <$> seq 0 16.
Definition schedule (block : list Z) : list Z :=
  fold_left (λ W t, W ++ [add (add (add (sigma1 (at_or_zero W (t - 2))) (at_or_zero W (t - 7)))
                             (sigma0 (at_or_zero W (t - 15)))) (at_or_zero W (t - 16))])
    (seq 16 48) (block_words block).

Definition round (W : list Z) (s : working) (t : nat) : working :=
  let T1 := add (add (add (add (wh s) (Sigma1 (we s))) (Ch (we s) (wf s) (wg s))) (at_or_zero K t)) (at_or_zero W t) in
  let T2 := add (Sigma0 (wa s)) (Maj (wa s) (wb s) (wc s)) in
  {| wa := add T1 T2; wb := wa s; wc := wb s; wd := wc s; we := add (wd s) T1; wf := we s; wg := wf s; wh := wg s |}.
Definition compress (H block : list Z) : list Z :=
  zip_with add H (values_of (fold_left (round (schedule block)) (seq 0 64) (working_of H))).
Definition hash (message : list Z) : list Z :=
  concat (big_endian 4 <$> fold_left compress (blocks (pad message)) H0).
End Fips.

(** ** The operators are those of unsigned words *)

Section Operators.
Lemma u_word z : Fips.word (to_uint32 z).
Proof. unfold Fips.word, to_uint32. apply Z.mod_pos_bound. lia. Qed.
Lemma u_small z : Fips.word z → to_uint32 z = z.
Proof. intros H. apply Z.mod_small, H. Qed.
Lemma u_land z : to_uint32 z = Z.land z (Z.ones 32).
Proof. unfold to_uint32. by rewrite Z.land_ones by lia. Qed.
Lemma u_mod z z' : z mod 2 ^ 32 = z' mod 2 ^ 32 → to_uint32 z = to_uint32 z'.
Proof. done. Qed.
Lemma u_u z : to_uint32 (to_uint32 z) = to_uint32 z.
Proof. apply u_small, u_word. Qed.

Lemma u_int z : to_uint32 (to_int32 z) = to_uint32 z.
Proof.
  unfold to_int32. cbv zeta. destruct (to_uint32 z <? 2 ^ 31); [apply u_u|].
  unfold to_uint32 at 1. rewrite <- (Z.mod_add _ 1) by lia. replace (to_uint32 z - 2 ^ 32 + 1 * 2 ^ 32) with (to_uint32 z) by lia.
  apply u_u.
Qed.

Lemma u_xor a b : to_uint32 (js_xor a b) = Z.lxor (to_uint32 a) (to_uint32 b).
Proof.
  rewrite <- (u_int a), <- (u_int b), !u_land. unfold js_xor. apply Z.bits_inj'. intros n _.
  rewrite !Z.lxor_spec, !Z.land_spec, Z.lxor_spec. by destruct (Z.testbit (to_int32 a) n), (Z.testbit (to_int32 b) n), (Z.testbit (Z.ones 32) n).
Qed.
Lemma u_and a b : to_uint32 (js_and a b) = Z.land (to_uint32 a) (to_uint32 b).
Proof.
  rewrite <- (u_int a), <- (u_int b), !u_land. unfold js_and. apply Z.bits_inj'. intros n _.
  rewrite !Z.land_spec. by destruct (Z.testbit (to_int32 a) n), (Z.testbit (to_int32 b) n), (Z.testbit (Z.ones 32) n).
Qed.
Lemma u_or a b : to_uint32 (js_or a b) = Z.lor (to_uint32 a) (to_uint32 b).
Proof.
  rewrite <- (u_int a), <- (u_int b), !u_land. unfold js_or. apply Z.bits_inj'. intros n _.
  rewrite !Z.lor_spec, !Z.land_spec, Z.lor_spec. by destruct (Z.testbit (to_int32 a) n), (Z.testbit (to_int32 b) n), (Z.testbit (Z.ones 32) n).
Qed.
Lemma u_not a : to_uint32 (js_not a) = Fips.complement (to_uint32 a).
Proof.
  rewrite <- (u_int a). unfold js_not, Fips.complement, to_uint32. set (i := to_int32 a).
  unfold Z.lnot. symmetry. apply (Z.mod_unique_pos _ _ (- (i / 2 ^ 32) - 1)).
  - pose proof (Z.mod_pos_bound i (2 ^ 32)). lia.
  - pose proof (Z.div_mod i (2 ^ 32)). lia.
Qed.
Lemma u_ushr v n : 0 <= n → to_uint32 (js_ushr v n) = Z.shiftr (to_uint32 v) n.
Proof.
  intros Hn. apply u_small. unfold js_ushr. pose proof (u_word v) as [H1 H2]. split; [by apply Z.shiftr_nonneg|].
  rewrite Z.shiftr_div_pow2 by done. apply Z.le_lt_trans with (to_uint32 v); [|done].
  apply Z.div_le_upper_bound; [lia|]. assert (0 < 2 ^ n) by lia. nia.
Qed.
Lemma u_ushr0 v : js_ushr v 0 = to_uint32 v.
Proof. apply Z.shiftr_0_r. Qed.
Lemma u_shl v n : 0 <= n → to_uint32 (js_shl v n) = Z.shiftl (to_uint32 v) n mod 2 ^ 32.
Proof.
  intros Hn. unfold js_shl. rewrite u_int, <- (u_int v). unfold to_uint32. rewrite !Z.shiftl_mul_pow2 by done.
  by rewrite Z.mul_mod_idemp_l by lia.
Qed.
Lemma u_rotate v n : 0 <= n <= 32 → to_uint32 (rotateRight v n) = Fips.rotr n (to_uint32 v).
Proof. intros Hn. unfold rotateRight. by rewrite u_or, u_ushr, u_shl by lia. Qed.

Lemma u_add a b : to_uint32 (a + b) = Fips.add (to_uint32 a) (to_uint32 b).
Proof. unfold to_uint32, Fips.add. by rewrite Zplus_mod. Qed.
End Operators.

Create Rewrite HintDb uint32.
#[local] Hint Rewrite u_ushr0 u_add u_xor u_and u_not u_u : uint32.

Lemma constants_computed : SHA256_CONSTANTS = Fips.K ∧ initial_state = Fips.H0.
Proof. split; vm_compute; reflexivity. Qed.

(** ** The loops *)

Section Loops.
Lemma at_app_l l r i : (i < length l)%nat → at_or_zero (l ++ r) i = at_or_zero l i.
Proof. intros Hi. unfold at_or_zero. by rewrite lookup_app_l. Qed.
Lemma at_word l i : Forall Fips.word l → Fips.word (at_or_zero l i).
Proof.
  intros H. unfold at_or_zero. destruct (l !! i) as [x|] eqn:E; [|done]. by apply (proj1 (Forall_lookup _ _) H i).
Qed.

Lemma word_shiftr x n : 0 <= n → Fips.word x → Fips.word (Z.shiftr x n).
Proof. intros Hn Hx. rewrite <- (u_small x Hx), <- u_ushr by done. apply u_word. Qed.
Lemma word_add x y : Fips.word (Fips.add x y).
Proof. apply u_word. Qed.

Lemma next_word_spec W i :
  Forall Fips.word W →
  next_word W i = Fips.add (Fips.add (Fips.add (Fips.sigma1 (at_or_zero W (i - 2))) (at_or_zero W (i - 7)))
                              (Fips.sigma0 (at_or_zero W (i - 15)))) (at_or_zero W (i - 16)).
Proof.
  intros HW. unfold next_word. cbv zeta. autorewrite with uint32. rewrite !u_rotate, !u_ushr by lia.
  rewrite !(u_small (at_or_zero W _)) by (by apply at_word).
  unfold Fips.sigma0, Fips.sigma1, Fips.shr, Fips.add. set (a := Z.lxor _ _). set (b := Z.lxor (Z.lxor _ _) _).
  do 3 (rewrite ?Zplus_mod_idemp_l, <- ?Z.add_assoc). match goal with |- ?x mod _ = ?y mod _ => replace x with y by lia end. done.
Qed.

Lemma load_spec padded offset n words :
  (n ≤ length words)%nat →
  fold_left (λ words index, <[index := get_uint32 padded (offset + index * 4)]> words) (seq 0 n) words =
    ((λ i, get_uint32 padded (offset + i * 4)) <$> seq 0 n) ++ drop n words.
Proof.
  induction n as [|n IH]; intros Hn; [done|]. rewrite seq_S, fold_left_app, fmap_app, IH by lia. simpl.
  assert (n < length words)%nat as [x Hx]%lookup_lt_is_Some by lia.
  rewrite (drop_S words x n Hx). rewrite insert_app_r_alt by (rewrite length_fmap, length_seq; lia).
  rewrite length_fmap, length_seq, Nat.sub_diag. simpl. by rewrite <- app_assoc.
Qed.

Lemma extend_spec m k W rest :
  (16 ≤ k)%nat → length W = k → length rest = m → Forall Fips.word W →
  fold_left (λ words index, <[index := next_word words index]> words) (seq k m) (W ++ rest) =
    fold_left (λ W t, W ++ [Fips.add (Fips.add (Fips.add (Fips.sigma1 (at_or_zero W (t - 2))) (at_or_zero W (t - 7)))
                              (Fips.sigma0 (at_or_zero W (t - 15)))) (at_or_zero W (t - 16))]) (seq k m) W.
Proof.
  revert k W rest; induction m as [|m IH]; intros k W rest Hk HW Hr Hword; simpl.
  { apply length_zero_iff_nil in Hr as ->. by rewrite app_nil_r. }
  destruct rest as [|x rest]; [done|]. rewrite <- next_word_spec by done.
  assert (next_word (W ++ x :: rest) k = next_word W k) as ->.
  { unfold next_word. by rewrite !at_app_l by lia. }
  assert (Fips.word (next_word W k)) as Hnew by (unfold next_word; cbv zeta; rewrite u_ushr0; apply u_word).
  rewrite insert_app_r_alt, HW, Nat.sub_diag by lia. change (<[0%nat:=next_word W k]> (x :: rest)) with (next_word W k :: rest).
  rewrite (cons_middle (next_word W k) W rest), app_assoc. apply IH; [lia| |simpl in Hr; lia|].
  - rewrite length_app. simpl. lia.
  - apply Forall_app. split; [done|]. by apply Forall_singleton.
Qed.

Lemma get_uint32_spec l o : (o + 4 ≤ length l)%nat → get_uint32 l o = Fips.from_big_endian (take 4 (drop o l)).
Proof.
  intros Hl. unfold get_uint32, at_or_zero. rewrite <- (Nat.add_0_r o) at 1. rewrite <- !lookup_drop.
  assert (4 ≤ length (drop o l))%nat as H by (rewrite length_drop; lia).
  destruct (drop o l) as [|a [|b [|c [|d r]]]]; simpl in H; try lia.
  unfold Fips.from_big_endian. simpl. lia.
Qed.

Lemma from_big_endian_word b : Forall Fips.byte b → length b = 4%nat → Fips.word (Fips.from_big_endian b).
Proof.
  intros Hb Hl. destruct b as [|b0 [|b1 [|b2 [|b3 [|]]]]]; try done.
  repeat match goal with H : Forall _ (_ :: _) |- _ => apply Forall_cons in H as [? H] end.
  unfold Fips.from_big_endian, Fips.word, Fips.byte in *. simpl. lia.
Qed.

(** A working state of words. *)
Definition words_ok (s : working) : Prop := Forall Fips.word (values_of s).

Lemma round_step_spec W s i :
  words_ok s → Forall Fips.word W → round_step W s i = Fips.round W s i.
Proof.
  intros Hs HW. assert (Forall Fips.word SHA256_CONSTANTS) as HK.
  { apply Forall_forall. intros x Hx. apply list_elem_of_In in Hx. unfold Fips.word.
    assert (forallb (λ x, (0 <=? x) && (x <? 2 ^ 32)) SHA256_CONSTANTS = true) as HF by (vm_compute; reflexivity).
    rewrite forallb_forall in HF. specialize (HF x Hx). lia. }
  unfold words_ok, values_of in Hs. destruct s as [a b c d e f g h]. cbn [wa wb wc wd we wf wg wh] in *.
  repeat match goal with H : Forall _ (_ :: _) |- _ => apply Forall_cons in H as [? H] end.
  unfold round_step, Fips.round. cbn [wa wb wc wd we wf wg wh]. cbv zeta.
  autorewrite with uint32. rewrite !u_rotate by lia. rewrite !(u_small (at_or_zero _ _)) by (by apply at_word).
  rewrite !(u_small a), !(u_small b), !(u_small c), !(u_small d), !(u_small e), !(u_small f), !(u_small g), !(u_small h) by done.
  rewrite <- (proj1 constants_computed).
  rewrite !(u_small (Fips.add _ _)) by apply word_add. reflexivity.
Qed.
End Loops.

(** ** Blocks *)

Section Blocks.
Lemma round_words_ok W s i : words_ok s → words_ok (Fips.round W s i).
Proof.
  unfold words_ok, values_of. destruct s as [a b c d e f g h]. cbn [wa wb wc wd we wf wg wh]. intros Hs.
  repeat match goal with H : Forall _ (_ :: _) |- _ => apply Forall_cons in H as [? H] end.
  repeat (constructor; try done; try apply word_add).
Qed.

Lemma rounds_spec W l s :
  words_ok s → Forall Fips.word W →
  fold_left (round_step W) l s = fold_left (Fips.round W) l s ∧ words_ok (fold_left (Fips.round W) l s).
Proof.
  intros Hs HW. revert s Hs. induction l as [|i l IH]; intros s Hs; [done|]. simpl.
  rewrite round_step_spec by done. apply IH. by apply round_words_ok.
Qed.

(** The state between blocks: eight words. *)
Definition state_ok (H : list Z) : Prop := length H = 8%nat ∧ Forall Fips.word H.

Lemma values_working H : length H = 8%nat → values_of (working_of H) = H.
Proof. intros HH. by destruct H as [|? [|? [|? [|? [|? [|? [|? [|? [|]]]]]]]]]. Qed.

Lemma final_sum H values :
  Forall Fips.word H → Forall Fips.word values → zip_with (λ s v, js_ushr (s + v) 0) H values = zip_with Fips.add H values.
Proof.
  intros HH. revert values; induction HH as [|x H Hx _ IH]; intros values Hv; [done|]. destruct Hv as [|v values Hv Hvs]; [done|].
  simpl. rewrite IH by done. by rewrite u_ushr0, u_add, !u_small.
Qed.

Lemma schedule_word l W :
  Forall Fips.word W →
  Forall Fips.word (fold_left (λ W t, W ++ [Fips.add (Fips.add (Fips.add (Fips.sigma1 (at_or_zero W (t - 2))) (at_or_zero W (t - 7)))
                              (Fips.sigma0 (at_or_zero W (t - 15)))) (at_or_zero W (t - 16))]) l W).
Proof.
  revert W; induction l as [|t l IH]; intros W HW; [done|]. simpl. apply IH. apply Forall_app. split; [done|].
  apply Forall_singleton, word_add.
Qed.

Lemma block_words_word b : length b = 64%nat → Forall Fips.byte b → Forall Fips.word (Fips.block_words b).
Proof.
  intros Hl Hb. apply Forall_fmap, Forall_forall. intros i Hi%elem_of_seq. apply from_big_endian_word.
  - by apply Forall_take, Forall_drop.
  - rewrite length_take, length_drop. lia.
Qed.

Lemma words_of_block padded words i :
  length words = 64%nat → (i * 64 + 64 ≤ length padded)%nat → Forall Fips.byte padded →
  extend_words (load_words padded (i * 64) words) = Fips.schedule (take 64 (drop (i * 64) padded)).
Proof.
  intros Hw Hl Hp. unfold extend_words, load_words. rewrite load_spec by lia.
  rewrite (extend_spec 48 16); [..|rewrite length_drop; lia|].
  - unfold Fips.schedule. f_equal. unfold Fips.block_words. apply list_fmap_ext. intros j k Hj.
    apply lookup_seq in Hj as [-> Hj]. rewrite get_uint32_spec by lia. f_equal. simpl.
    rewrite <- drop_drop. rewrite skipn_firstn_comm. rewrite firstn_firstn. f_equal. lia.
  - done.
  - by rewrite length_fmap, length_seq.
  - apply Forall_fmap, Forall_forall. intros j Hj%elem_of_seq. simpl. rewrite get_uint32_spec by lia. apply from_big_endian_word.
    + by apply Forall_take, Forall_drop.
    + rewrite length_take, length_drop. lia.
Qed.
End Blocks.

(** ** Padding *)

Section Padding.
#[local] Ltac Zify.zify_post_hook ::= Z.to_euclidean_division_equations.

Lemma uint32_big_endian z : Fips.word z → uint32_bytes z = Fips.big_endian 4 z.
Proof.
  intros Hz. unfold uint32_bytes. rewrite u_small by done. unfold Fips.word in Hz. unfold Fips.big_endian. simpl.
  change (2 ^ (8 * (4 - 1 - 0))) with (2 ^ 24). change (2 ^ (8 * (4 - 1 - 1))) with (2 ^ 16).
  change (2 ^ (8 * (4 - 1 - 2))) with (2 ^ 8). change (2 ^ (8 * (4 - 1 - 3))) with 1.
  rewrite (Z.mod_small (z / 2 ^ 24)) by lia. by rewrite Z.div_1_r.
Qed.

Lemma mod_div z a b c : 0 < a → 0 < b → 0 < c → z mod (a * (b * c)) / a mod b = z / a mod b.
Proof.
  intros Ha Hb Hc. rewrite (Z.rem_mul_r z a) by lia. rewrite (Z.mul_comm a), Z.div_add by lia.
  rewrite (Z.div_small (z mod a)) by (apply Z.mod_pos_bound; done). rewrite Z.add_0_l.
  rewrite (Z.rem_mul_r (z / a) b) by lia. rewrite (Z.mul_comm b), Z.mod_add by lia. by rewrite Z.mod_mod by lia.
Qed.

Lemma big_endian_halves z :
  0 <= z < 2 ^ 64 → uint32_bytes (z / 2 ^ 32) ++ uint32_bytes (js_ushr z 0) = Fips.big_endian 8 z.
Proof.
  intros Hz. rewrite u_ushr0. assert (Fips.word (z / 2 ^ 32)) as Hw by (unfold Fips.word; lia).
  rewrite !uint32_big_endian by (done || apply u_word). unfold Fips.big_endian, to_uint32. simpl.
  pose proof (mod_div z (2 ^ 24) 256 1) as H3. pose proof (mod_div z (2 ^ 16) 256 256) as H2.
  pose proof (mod_div z (2 ^ 8) 256 (2 ^ 16)) as H1. pose proof (mod_div z 1 256 (2 ^ 24)) as H0.
  repeat match goal with
  | |- context [2 ^ ?e] => let v := eval vm_compute in (2 ^ e) in change (2 ^ e) with v
  end.
  change (2 ^ 24 * (256 * 1)) with 4294967296 in H3. change (2 ^ 16 * (256 * 256)) with 4294967296 in H2.
  change (2 ^ 8 * (256 * 2 ^ 16)) with 4294967296 in H1. change (1 * (256 * 2 ^ 24)) with 4294967296 in H0.
  change (2 ^ 24) with 16777216 in *. change (2 ^ 16) with 65536 in *. change (2 ^ 8) with 256 in *.
  rewrite H3, H2, H1, H0, !Z.div_div by lia. reflexivity.
Qed.

Lemma padded_spec bytes :
  Z.of_nat (length bytes) * 8 <= MAX_SAFE_INTEGER → padded_bytes bytes = Fips.pad bytes.
Proof.
  intros Hsafe. unfold MAX_SAFE_INTEGER in Hsafe. unfold padded_bytes. cbv zeta. set (L := length bytes) in *.
  set (k := Z.to_nat ((55 - Z.of_nat L) mod 64)).
  assert (padded_length bytes = L + (1 + (k + 8)))%nat as -> by (unfold padded_length, k; fold L; lia).
  rewrite replicate_add. replace (set_bytes 0 bytes _) with (bytes ++ replicate (1 + (k + 8)) 0).
  2:{ unfold set_bytes. simpl. fold L. rewrite drop_app_length'; [done|]. by rewrite length_replicate. }
  change (replicate (1 + (k + 8)) 0) with (0 :: replicate (k + 8) 0). rewrite replicate_add.
  replace (set_bytes L [128] _) with ((bytes ++ 128 :: replicate k 0) ++ replicate 8 0).
  2:{ unfold set_bytes. rewrite take_app_length' by done. rewrite drop_app_ge by (unfold L; simpl; lia).
      fold L. simpl. replace (L + 1 - L)%nat with 1%nat by lia. simpl. by rewrite <- app_assoc. }
  assert (length (bytes ++ 128 :: replicate k 0) = (L + (1 + k))%nat) as Hlen.
  { rewrite length_app. simpl. by rewrite length_replicate. }
  set (front := bytes ++ 128 :: replicate k 0) in *.
  assert (∀ w, length w = 4%nat → set_bytes (L + (1 + (k + 8)) - 8) w (front ++ replicate 8 0) = front ++ w ++ replicate 4 0) as E1.
  { intros w Hw. unfold set_bytes. rewrite take_app_length' by lia. rewrite drop_app_ge by lia. rewrite Hw, Hlen.
    do 2 f_equal. replace (L + (1 + (k + 8)) - 8 + 4 - (L + (1 + k)))%nat with 4%nat by lia. done. }
  rewrite E1 by done. rewrite app_assoc.
  assert (∀ f w, length f = (L + (1 + k) + 4)%nat → length w = 4%nat → set_bytes (L + (1 + (k + 8)) - 4) w (f ++ replicate 4 0) = f ++ w) as E2.
  { intros f w Hf Hw. unfold set_bytes. rewrite take_app_length' by lia. rewrite drop_app_ge by lia.
    rewrite Hw, Hf. replace (L + (1 + (k + 8)) - 4 + 4 - (L + (1 + k) + 4))%nat with 4%nat by lia. by rewrite app_nil_r. }
  rewrite E2; [|by rewrite length_app, Hlen|done]. rewrite <- app_assoc, big_endian_halves by lia.
  unfold Fips.pad, front. fold L. fold k. by rewrite <- app_assoc.
Qed.

Lemma pad_length bytes : length (Fips.pad bytes) = padded_length bytes ∧ (length (Fips.pad bytes) mod 64 = 0)%nat.
Proof.
  assert (length (Fips.pad bytes) = padded_length bytes) as ->.
  { unfold Fips.pad, padded_length. rewrite !length_app, length_replicate. simpl. lia. }
  split; [done|]. unfold padded_length. rewrite Z2Nat.inj_mul by lia. apply Nat.Div0.mod_mul.
Qed.

Lemma pad_bytes bytes : Forall Fips.byte bytes → Forall Fips.byte (Fips.pad bytes).
Proof.
  intros Hb. unfold Fips.pad. repeat (apply Forall_app; split); [done|by apply Forall_singleton| |].
  - by apply Forall_replicate.
  - apply Forall_fmap, Forall_forall. intros i _. simpl. unfold Fips.byte. lia.
Qed.
End Padding.

Section Hash.
Lemma block_step_spec padded H words i :
  state_ok H → length words = 64%nat → (i * 64 + 64 ≤ length padded)%nat → Forall Fips.byte padded →
  ∃ words', block_step padded (H, words) (i * 64) = (Fips.compress H (take 64 (drop (i * 64) padded)), words') ∧
    length words' = 64%nat ∧ state_ok (Fips.compress H (take 64 (drop (i * 64) padded))).
Proof.
  intros [HH HHw] Hw Hl Hp. unfold block_step. rewrite words_of_block by done. set (b := take 64 (drop (i * 64) padded)).
  assert (length b = 64%nat) as Hb by (unfold b; rewrite length_take, length_drop; lia).
  assert (Forall Fips.byte b) as Hbb by (by apply Forall_take, Forall_drop).
  assert (words_ok (working_of H)) as Hwork by (unfold words_ok; by rewrite values_working).
  destruct (rounds_spec (Fips.schedule b) (seq 0 64) (working_of H)) as [E Hok]; [done|by apply schedule_word, block_words_word|].
  rewrite E. rewrite final_sum by done. eexists. split; [reflexivity|]. split; [|split].
  - unfold Fips.schedule. assert (Hlen : ∀ (f : list Z → nat → Z) l W,
      length (fold_left (λ W t, W ++ [f W t]) l W) = (length W + length l)%nat).
    { intros f l. induction l as [|t l IH]; intros W; simpl; [lia|]. rewrite IH, length_app. simpl. lia. }
    rewrite Hlen. unfold Fips.block_words. by rewrite length_fmap, !length_seq.
  - unfold Fips.compress. rewrite length_zip_with, HH. done.
  - unfold Fips.compress.
    generalize (values_of (fold_left (Fips.round (Fips.schedule b)) (seq 0 64) (working_of H))). clear.
    induction H as [|x H IH]; intros [|v l]; simpl; constructor; [apply word_add|apply IH].
Qed.

(** A fold over a pair whose second part only serves the steps. *)
Lemma fold_pairs {A B C D} (P : A → Prop) (Q : B → Prop) (step : A * B → C → A * B) (comp : A → D → A) (g : nat → C)
    (blk : nat → D) l H w :
  (∀ H w i, P H → Q w → i ∈ l → ∃ w', step (H, w) (g i) = (comp H (blk i), w') ∧ Q w' ∧ P (comp H (blk i))) →
  P H → Q w →
  (fold_left step (g <$> l) (H, w)).1 = fold_left comp (blk <$> l) H ∧ P (fold_left comp (blk <$> l) H).
Proof.
  revert H w; induction l as [|i l IH]; intros H w Hstep HP HQ; [done|]. cbn [fmap list_fmap fold_left].
  destruct (Hstep H w i) as (w' & -> & HQ' & HP'); [done..|by left|].
  apply IH; [intros; apply Hstep; [done..|by right] | done | done].
Qed.

Lemma blocks_spec padded l H words :
  state_ok H → length words = 64%nat → (∀ i, i ∈ l → (i * 64 + 64 ≤ length padded)%nat) → Forall Fips.byte padded →
  (fold_left (block_step padded) ((λ i, i * 64)%nat <$> l) (H, words)).1 =
    fold_left Fips.compress ((λ i, take 64 (drop (i * 64) padded)) <$> l) H ∧
  state_ok (fold_left Fips.compress ((λ i, take 64 (drop (i * 64) padded)) <$> l) H).
Proof.
  intros HH Hw Hl Hp.
  apply (fold_pairs state_ok (λ w, length w = 64%nat) (block_step padded) Fips.compress (λ i, i * 64)%nat
    (λ i, take 64 (drop (i * 64) padded))); [|exact HH|exact Hw].
  intros H' w i HP HQ Hi. exact (block_step_spec padded H' w i HP HQ (Hl i Hi) Hp).
Qed.
End Hash.

(** C36: the hash is SHA-256: for every message of bytes short enough for its bit
    length to be exact, the signed 32-bit operators, the reused word array and the
    padding in place compute exactly the digest that FIPS 180-4 defines over
    unsigned words, with the standard's constants; a longer message throws. *)
Theorem sha256_is_fips bytes :
  Forall Fips.byte bytes →
  sha256 bytes = if Z.of_nat (length bytes) * 8 <=? MAX_SAFE_INTEGER then Ok (Fips.hash bytes)
                 else Err (hash_range_error "Canonical request is too large").
Proof.
  intros Hb. unfold sha256. rewrite Z.ltb_antisym. destruct (Z.leb_spec (Z.of_nat (length bytes) * 8) MAX_SAFE_INTEGER) as [Hs|]; [|done].
  cbn [negb refuse rbind]. cbv zeta. rewrite padded_spec by done. destruct (pad_length bytes) as [Hl Hm]. rewrite <- Hl.
  assert (state_ok initial_state) as Hi.
  { split; [done|]. rewrite (proj2 constants_computed). apply Forall_fmap, Forall_forall. intros p _. apply u_word. }
  destruct (blocks_spec (Fips.pad bytes) (seq 0 (length (Fips.pad bytes) / 64)) initial_state (replicate 64 0)) as [E [_ Hw]];
    [done|done| |by apply pad_bytes|].
  { intros i Hi'%elem_of_seq. apply Nat.Div0.div_exact in Hm. lia. }
  unfold offsets. rewrite E. unfold Fips.hash, Fips.blocks. rewrite <- (proj2 constants_computed). f_equal. f_equal.
  apply list_fmap_ext. intros i x Hx. apply uint32_big_endian. by apply (proj1 (Forall_lookup _ _) Hw i).
Qed.

Lemma sha256_is_fips_witness :
  sha256 (bytes_of "abc") = if Z.of_nat (length (bytes_of "abc")) * 8 <=? MAX_SAFE_INTEGER then Ok (Fips.hash (bytes_of "abc"))
                 else Err (hash_range_error "Canonical request is too large").
Proof. apply (sha256_is_fips (bytes_of "abc")). repeat constructor; done. Defined.
