(* ===== verification/PathPolicy.v ===== *)
(** kernel/src/path-policy.ts: canonical paths and the read and write policies of
    the file tools, with [resolve] and [dirname] of node:path (POSIX). *)
From stdpp Require Import base list sets strings pretty.
From Stdlib Require Import ZArith Lia Ascii.
From S2P Require Import Prelude Text JsonText Utf8.

(** ** node:path *)

Definition sep : ascii := "/".
Definition is_sep (c : ascii) : bool := is_char c sep.

(** A normalised absolute path, from its segments. *)
Definition path_text (segs : list string) : string := String.concat "" (String sep <$> segs).
Definition path_of (segs : list string) : string := match segs with [] => "/" | _ => path_text segs end.

(** [normalizeString] for an absolute path; [stack] is what was kept, last first. *)
Fixpoint normalize (stack segs : list string) : list string :=
  match segs with
  | [] => rev stack
  | s :: rest =>
      if bool_decide (s = "") || bool_decide (s = ".") then normalize stack rest
      else if bool_decide (s = "..") then normalize (tail stack) rest
      else normalize (s :: stack) rest
  end.

Definition path_segments (cwd path : string) : list string :=
  normalize [] (if starts_with "/" path then split_on sep path else split_on sep cwd ++ split_on sep path).
Definition resolve (cwd path : string) : string := path_of (path_segments cwd path).

(** The loop of [dirname], from index [i] down to 1: the last separator before the
    last segment. *)
Fixpoint dirname_end (path : string) (matchedSlash : bool) (i : nat) : option nat :=
  match i with
  | 0 => None
  | S i' =>
      if bool_decide (String.get i path = Some sep) then
        if matchedSlash then dirname_end path matchedSlash i' else Some i
      else dirname_end path false i'
  end.
Definition dirname (path : string) : string :=
  if bool_decide (path = "") then "." else
  let hasRoot := bool_decide (String.get 0 path = Some sep) in
  match dirname_end path true (String.length path - 1) with
  | None => if hasRoot then "/" else "."
  | Some e => if hasRoot && (e =? 1) then "//" else String.substring 0 e path
  end.

(** ** The policy *)

Inductive fs_error := ENOENT | OtherFsError (code : string).
#[export] Instance fs_error_eq_dec : EqDecision fs_error.
Proof. solve_decision. Defined.
Inductive policy_error :=
| SandboxViolationError (capability reason : string)
| PolicyTypeError (message : string)
| FileSystemError (e : fs_error)
| OutOfFuel.

Record WorkspacePolicy := { wp_workspace : string; wp_readableRoots : list string; wp_protectedPaths : list string }.

Definition isWithin (candidate root : string) : bool :=
  bool_decide (candidate = root) || starts_with (root +:+ String sep "") candidate.

Section Policy.
(** [realpath] of node:fs and the working directory, both fixed during a check. *)
Context (realpath : string → result fs_error string) (cwd : string).

Fixpoint canonicalize_loop (fuel : nat) (existing remainder : string) : result policy_error string :=
  match fuel with
  | 0 => Err OutOfFuel
  | S fuel' =>
      match realpath existing with
      | Ok real => Ok (if bool_decide (remainder = "") then real else real +:+ remainder)
      | Err (OtherFsError code) => Err (FileSystemError (OtherFsError code))
      | Err ENOENT =>
          let parent := dirname existing in
          if bool_decide (parent = existing) then Ok (existing +:+ remainder)
          else canonicalize_loop fuel' parent
                 (String sep (js_slice_from (js_length parent + 1) existing) +:+ remainder)
      end
  end.

(** Every round but the last drops a segment ([canonicalize_deepest]: the fuel is
    enough). *)
Definition canonicalizeForPolicy (path : string) : result policy_error string :=
  canonicalize_loop (S (length (path_segments cwd path))) (resolve cwd path) "".

(** Of several that fail, the first in the list is reported. *)
Definition canonicalPolicy (policy : WorkspacePolicy) : result policy_error WorkspacePolicy :=
  _ ← refuse (bool_decide (wp_readableRoots policy = []))
        (PolicyTypeError "WorkspacePolicy.readableRoots must not be empty");
  workspace ← canonicalizeForPolicy (wp_workspace policy);
  readableRoots ← map_indexed (λ _, canonicalizeForPolicy) (wp_readableRoots policy);
  protectedPaths ← map_indexed (λ _, canonicalizeForPolicy) (wp_protectedPaths policy);
  Ok {| wp_workspace := workspace; wp_readableRoots := readableRoots; wp_protectedPaths := protectedPaths |}.

Definition refuse_protected (capability canonical : string) (policy : WorkspacePolicy) : result policy_error unit :=
  each (λ protectedPath,
    refuse (isWithin canonical protectedPath)
      (SandboxViolationError capability (canonical +:+ " is inside the protected path " +:+ protectedPath)))
    (wp_protectedPaths policy).

Definition readable (canonical : string) (policy : WorkspacePolicy) : bool :=
  existsb (isWithin canonical) (wp_readableRoots policy).

Definition assertReadAllowed (policy : WorkspacePolicy) (path : string) : result policy_error string :=
  canonical ← canonicalizeForPolicy path;
  resolved ← canonicalPolicy policy;
  _ ← refuse_protected "filesystem.read" canonical resolved;
  _ ← require (readable canonical resolved)
        (SandboxViolationError "filesystem.read"
           (canonical +:+ " is outside the readable roots " +:+ join ", " (wp_readableRoots resolved)));
  Ok canonical.

Definition assertWriteAllowed (policy : WorkspacePolicy) (path : string) : result policy_error string :=
  canonical ← canonicalizeForPolicy path;
  resolved ← canonicalPolicy policy;
  _ ← refuse_protected "filesystem.write" canonical resolved;
  _ ← require (isWithin canonical (wp_workspace resolved))
        (SandboxViolationError "filesystem.write"
           (canonical +:+ " is outside the workspace " +:+ wp_workspace resolved));
  _ ← require (readable canonical resolved)
        (PolicyTypeError "WorkspacePolicy.workspace must be inside a readable root");
  Ok canonical.
End Policy.

(** ** Paths and their segments *)

Definition plain (s : string) : Prop := s ≠ "" ∧ all_chars (λ c, negb (is_sep c)) s = true.
Definition segment (s : string) : Prop := plain s ∧ utf8_valid s = true.

Section Paths.
Lemma path_text_cons s segs : path_text (s :: segs) = String sep s +:+ path_text segs.
Proof. unfold path_text. cbn [fmap list_fmap]. destruct segs; [by rewrite string_app_nil_r | done]. Qed.

Lemma path_text_app a b : path_text (a ++ b) = path_text a +:+ path_text b.
Proof.
  induction a as [|s a IH]; [done|]. rewrite <- app_comm_cons, !path_text_cons, IH. apply string_app_assoc.
Qed.

Lemma path_of_text segs : segs ≠ [] → path_of segs = path_text segs.
Proof. by destruct segs. Qed.

Lemma split_plain s w : w ∈ split_on sep s → all_chars (λ c, negb (is_sep c)) w = true.
Proof.
  revert w; induction s as [|c s IH]; intros w; simpl; [by intros ->%list_elem_of_singleton|].
  destruct (is_char c sep) eqn:E.
  - intros [->|H]%elem_of_cons; [done|by apply IH].
  - destruct (split_on sep s) as [|w' ws] eqn:Es; [by apply split_on_nonempty in Es|].
    intros [->|H]%elem_of_cons; [|apply IH; by right]. simpl. unfold is_sep at 1. rewrite E. simpl. apply IH. by left.
Qed.

Lemma normalize_spec stack segs :
  (∀ s, s ∈ stack → plain s) → (∀ s, s ∈ segs → all_chars (λ c, negb (is_sep c)) s = true) →
  ∀ s, s ∈ normalize stack segs → plain s.
Proof.
  revert stack; induction segs as [|w segs IH]; intros stack Hst Hs s; simpl.
  - rewrite elem_of_rev. apply Hst.
  - destruct (bool_decide (w = "")) eqn:E1; [apply IH; [done|intros; apply Hs; by right]|].
    destruct (bool_decide (w = ".")); [apply IH; [done|intros; apply Hs; by right]|]. simpl.
    destruct (bool_decide (w = "..")).
    + apply IH; [|intros; apply Hs; by right]. intros x Hx. apply Hst. destruct stack; [done|]. by right.
    + apply IH; [|intros; apply Hs; by right]. apply bool_decide_eq_false in E1.
      intros x [->|Hx]%elem_of_cons; [|by apply Hst]. split; [done|]. apply Hs. by left.
Qed.

Lemma path_segments_plain cwd path s : s ∈ path_segments cwd path → plain s.
Proof.
  apply normalize_spec; [by intros ? ?%elem_of_nil|]. intros w. destruct (starts_with _ _); [apply split_plain|].
  intros [H|H]%elem_of_app; by eapply split_plain.
Qed.

Lemma char_app_r i (a b : string) : String.get (String.length a + i) (a +:+ b) = String.get i b.
Proof. induction a as [|c a IH]; [done|]. simpl. exact IH. Qed.

Lemma plain_get s k : plain s → k < String.length s → String.get k s ≠ Some sep.
Proof.
  intros [_ Hs]. revert k; induction s as [|c s IH]; intros k Hk; simpl in *; [lia|].
  apply andb_true_iff in Hs as [Hc Hs]. destruct k as [|k].
  - intros [= ->]. done.
  - apply IH; [done|lia].
Qed.

Lemma dirname_end_spec d s m k :
  plain s → k ≤ String.length s → (k = 0 → m = false) →
  dirname_end (d +:+ String sep s) m (String.length d + k) =
    if String.length d =? 0 then None else Some (String.length d).
Proof.
  intros Hs. revert m; induction k as [|k IH]; intros m Hk Hm.
  - rewrite Nat.add_0_r, (Hm eq_refl). destruct (String.length d) as [|n] eqn:Hd; [done|]. cbn [dirname_end].
    pose proof (char_app_r 0 d (String sep s)) as Hg. rewrite Nat.add_0_r, Hd in Hg. rewrite Hg.
    by rewrite bool_decide_true.
  - replace (String.length d + S k) with (S (String.length d + k)) by lia. cbn [dirname_end].
    pose proof (char_app_r (S k) d (String sep s)) as Hg. rewrite Nat.add_succ_r in Hg. rewrite Hg.
    change (String.get (S k) (String sep s)) with (String.get k s).
    rewrite bool_decide_false by (apply plain_get; [done|lia]). apply IH; [lia|done].
Qed.

(** The parent of a path is the path without its last segment. *)
Lemma dirname_snoc segs s : (∀ w, w ∈ segs → plain w) → plain s → dirname (path_of (segs ++ [s])) = path_of segs.
Proof.
  intros Hsegs Hs. rewrite path_of_text by (by intros [_ ?]%app_eq_nil). rewrite path_text_app.
  change (path_text [s]) with (String sep s). unfold dirname.
  rewrite bool_decide_false by (destruct segs; [done|by rewrite path_text_cons]).
  replace (String.length (path_text segs +:+ String sep s) - 1) with (String.length (path_text segs) + String.length s)
    by (rewrite string_length_app; simpl; lia).
  rewrite dirname_end_spec; [|done|done|intros H; by destruct s, Hs].
  rewrite bool_decide_true by (destruct segs; [done|by rewrite path_text_cons]).
  destruct segs as [|w segs]; [done|]. rewrite path_of_text, path_text_cons by done.
  assert (plain w) as [Hw _] by (apply Hsegs; by left).
  destruct w as [|c w]; [done|]. cbn [String.length String.append Nat.eqb andb].
  change (String sep (String c w +:+ path_text segs) +:+ String sep s)
    with ((String sep (String c w) +:+ path_text segs) +:+ String sep s).
  set (d := String sep (String c w) +:+ path_text segs).
  change (S (S (String.length (w +:+ path_text segs)))) with (String.length d).
  assert (H : ∀ a b, String.substring 0 (String.length a) (a +:+ b) = a).
  { clear. intros a b. induction a as [|x a IH]; [by destruct b|]. simpl. by rewrite IH. }
  exact (H d (String sep s)).
Qed.

Lemma path_of_snoc_ne segs s : plain s → path_of segs ≠ path_of (segs ++ [s]).
Proof.
  intros [Hs _] H. apply (f_equal String.length) in H. rewrite (path_of_text (segs ++ [s])) in H
    by (by intros [_ ?]%app_eq_nil). rewrite path_text_app, string_length_app in H.
  destruct segs as [|w segs]; [destruct s; [done|]; simpl in H | rewrite path_of_text in H by done; simpl in H]; lia.
Qed.
End Paths.

(** ** Canonical paths *)

(** What the loop puts back after the first [n] segments were found: below the root
    the slice is one character too long, as the root has its separator already. *)
Definition remainder_text (n : nat) (rest : list string) : string :=
  match n, rest with
  | 0, s :: rest' => String sep (js_slice_from 1 s) +:+ path_text rest'
  | _, _ => path_text rest
  end.

Section Canonical.
Context (realpath : string → result fs_error string) (cwd : string).

Lemma utf8_path segs : Forall (λ s, utf8_valid s = true) segs → utf8_valid (path_text segs) = true.
Proof.
  induction 1 as [|s segs Hs _ IH]; [done|]. rewrite path_text_cons.
  change (String sep s +:+ path_text segs) with (chr 47 +:+ (s +:+ path_text segs)).
  rewrite !utf8_valid_app; done.
Qed.

Lemma slice_segment segs s :
  Forall (λ s, utf8_valid s = true) segs → utf8_valid s = true →
  String sep (js_slice_from (js_length (path_of segs) + 1) (path_of (segs ++ [s]))) = remainder_text (length segs) [s].
Proof.
  intros Hsegs Hs. rewrite (path_of_text (segs ++ [s])) by (by intros [_ ?]%app_eq_nil). rewrite path_text_app.
  change (path_text [s]) with (chr 47 +:+ s). destruct segs as [|w segs].
  - unfold remainder_text, path_text at 2. rewrite string_app_nil_r. reflexivity.
  - change (remainder_text (length (w :: segs)) [s]) with (String sep s).
    rewrite path_of_text, string_app_assoc by done. f_equal. pose proof (utf8_path _ Hsegs) as Hp.
    replace (js_length (path_text (w :: segs)) + 1)%Z with (js_length (path_text (w :: segs) +:+ chr 47))
      by (rewrite js_length_app; done).
    apply js_slice_prefix; [|done]. rewrite utf8_valid_app; done.
Qed.

Lemma remainder_app n s rest :
  remainder_text n [s] +:+ path_text rest = remainder_text n (s :: rest).
Proof.
  destruct n; simpl; [by rewrite string_app_nil_r|]. by rewrite (path_text_cons s rest).
Qed.

Lemma canonicalize_loop_spec fuel segs rest :
  realpath "/" ≠ Err ENOENT → length segs < fuel →
  (∀ s, s ∈ segs → plain s) → Forall (λ s, utf8_valid s = true) segs →
  ∃ n, n ≤ length segs ∧
    (∀ m, n < m ≤ length segs → realpath (path_of (take m segs)) = Err ENOENT) ∧
    realpath (path_of (take n segs)) ≠ Err ENOENT ∧
    canonicalize_loop realpath fuel (path_of segs) (remainder_text (length segs) rest) =
      match realpath (path_of (take n segs)) with
      | Ok real => Ok (real +:+ remainder_text n (drop n segs ++ rest))
      | Err e => Err (FileSystemError e)
      end.
Proof.
  intros Hroot. revert segs rest; induction fuel as [|fuel IH]; intros segs rest Hf Hp Hu; [lia|].
  cbn [canonicalize_loop]. destruct (decide (realpath (path_of segs) = Err ENOENT)) as [E|E].
  - destruct segs as [|s segs _] using rev_ind; [done|]. rewrite E.
    rewrite length_app in Hf; simpl in Hf.
    assert (Hps : plain s) by (apply Hp, elem_of_app; right; by left).
    assert (Hpr : ∀ w, w ∈ segs → plain w) by (intros w Hw; apply Hp, elem_of_app; by left).
    apply Forall_app in Hu as [Hu [Hs _]%Forall_cons].
    cbv zeta. rewrite dirname_snoc, bool_decide_false by (done || by apply path_of_snoc_ne).
    rewrite slice_segment by done. rewrite length_app, Nat.add_comm. cbn [length Nat.add].
    change (remainder_text (S (length segs)) rest) with (path_text rest). rewrite remainder_app.
    destruct (IH segs (s :: rest)) as (n & Hn & Hmiss & Hfound & ->); [lia|done..|].
    exists n. rewrite take_app_le, drop_app_le, <- app_assoc by done. split_and!; [lia| |done..].
    intros m Hm. destruct (decide (m = S (length segs))) as [->|].
    + rewrite firstn_all2; [done|]. rewrite length_app. simpl. lia.
    + rewrite take_app_le by lia. apply Hmiss. lia.
  - exists (length segs). rewrite firstn_all, drop_all. split_and!; [done|lia|done|].
    destruct (realpath (path_of segs)) as [real|[]]; [|done..]. case_bool_decide as Er; [|done].
    cbn [app]. rewrite Er. by rewrite string_app_nil_r.
Qed.
End Canonical.

(** a canonical path is the real path of the deepest existing ancestor followed
    by the missing segments, and the walk up always ends.  Below the root itself the
    first character of the missing segment is lost ([remainder_text 0]): a missing
    /foo becomes //oo. *)
Theorem canonicalize_deepest realpath cwd path :
  realpath "/" ≠ Err ENOENT → Forall (λ s, utf8_valid s = true) (path_segments cwd path) →
  let segs := path_segments cwd path in
  ∃ n, n ≤ length segs ∧
    (∀ m, n < m ≤ length segs → realpath (path_of (take m segs)) = Err ENOENT) ∧
    realpath (path_of (take n segs)) ≠ Err ENOENT ∧
    canonicalizeForPolicy realpath cwd path =
      match realpath (path_of (take n segs)) with
      | Ok real => Ok (real +:+ remainder_text n (drop n segs))
      | Err e => Err (FileSystemError e)
      end.
Proof.
  intros Hroot Hu segs.
  destruct (canonicalize_loop_spec realpath (S (length segs)) segs []) as (n & H1 & H2 & H3 & H4);
    [done|lia|apply path_segments_plain|done|].
  exists n. split_and!; [done..|]. rewrite app_nil_r in H4. rewrite <- H4. unfold canonicalizeForPolicy, resolve.
  fold segs. f_equal. by destruct segs.
Qed.

(** A file system with one link: /work/link leads to /etc. *)
Definition sample_realpath (path : string) : result fs_error string :=
  if bool_decide (path = "/work/link") then Ok "/etc"
  else if bool_decide (path ∈ ["/"; "/work"; "/etc"; "/work/docs"]) then Ok path
  else Err ENOENT.

Lemma canonicalize_deepest_witness :
  ∃ n, n ≤ 4 ∧
    (∀ m, n < m ≤ 4 → sample_realpath (path_of (take m ["work"; "link"; "a"; "b"])) = Err ENOENT) ∧
    sample_realpath (path_of (take n ["work"; "link"; "a"; "b"])) ≠ Err ENOENT ∧
    canonicalizeForPolicy sample_realpath "/work" "docs/../link/./a/b" =
      match sample_realpath (path_of (take n ["work"; "link"; "a"; "b"])) with
      | Ok real => Ok (real +:+ remainder_text n (drop n ["work"; "link"; "a"; "b"]))
      | Err e => Err (FileSystemError e)
      end.
Proof.
  apply (canonicalize_deepest sample_realpath "/work" "docs/../link/./a/b"); [done|].
  repeat constructor.
Defined.

Example link_is_followed : canonicalizeForPolicy sample_realpath "/work" "docs/../link/./a/b" = Ok "/etc/a/b".
Proof. reflexivity. Qed.
Example missing_below_root : canonicalizeForPolicy sample_realpath "/work" "/foo" = Ok "//oo".
Proof. reflexivity. Qed.

(** ** Decisions *)

(** A canonical path is inside a root when the root's segments begin its own: never
    a sibling whose name merely begins with the root's.  Inside "/" is only "/". *)
Definition inside (segs root : list string) : Prop := segs = root ∨ root ≠ [] ∧ root `prefix_of` segs.

Section Decisions.
Lemma plain_break a s b t :
  all_chars (λ c, negb (is_sep c)) a = true → all_chars (λ c, negb (is_sep c)) b = true →
  a +:+ String sep s = b +:+ String sep t → a = b ∧ s = t.
Proof.
  revert b; induction a as [|c a IH]; intros [|d b] Ha Hb; simpl in *.
  - by intros [= ->].
  - intros [= <- _]. done.
  - intros [= -> _]. done.
  - apply andb_true_iff in Ha as [_ Ha], Hb as [_ Hb]. intros [= <- H]. by destruct (IH b Ha Hb H) as [-> ->].
Qed.

(** Text prefixes that end at a separator are segment prefixes. *)
Lemma text_prefix root segs r :
  (∀ s, s ∈ root → plain s) → (∀ s, s ∈ segs → plain s) →
  path_text segs +:+ String sep "" = path_text root +:+ String sep r → root `prefix_of` segs.
Proof.
  revert segs r; induction root as [|w root IH]; intros segs r Hr Hs H; [apply prefix_nil|].
  destruct segs as [|s segs].
  { exfalso. apply (f_equal String.length) in H. rewrite path_text_cons in H. simpl in H.
    rewrite !string_length_app in H. simpl in H. lia. }
  rewrite !path_text_cons in H. change (String sep s +:+ path_text segs) with (String sep (s +:+ path_text segs)) in H.
  change (String sep w +:+ path_text root) with (String sep (w +:+ path_text root)) in H. simpl in H.
  injection H as H. rewrite <- !string_app_assoc in H.
  assert (Hhead : ∀ l x, ∃ t, path_text l +:+ String sep x = String sep t).
  { intros [|y l] x; [by exists x|]. rewrite path_text_cons. eexists. reflexivity. }
  destruct (Hhead segs "") as [t1 E1], (Hhead root r) as [t2 E2]. rewrite E1, E2 in H.
  assert (Hps : plain s) by (apply Hs; by left). assert (Hpw : plain w) by (apply Hr; by left).
  destruct (plain_break s t1 w t2) as [-> ->]; [apply Hps|apply Hpw|done|].
  rewrite <- E2 in E1. apply prefix_cons. apply (IH segs r); [intros; apply Hr; by right|intros; apply Hs; by right|done].
Qed.

Lemma path_text_inj a b :
  (∀ s, s ∈ a → plain s) → (∀ s, s ∈ b → plain s) → path_text a = path_text b → a = b.
Proof.
  intros Ha Hb H. assert (a `prefix_of` b) as [c ->].
  { apply (text_prefix a b ""); [done..|]. by rewrite H. }
  rewrite path_text_app in H. apply (f_equal String.length) in H. rewrite string_length_app in H.
  destruct c as [|s c]; [by rewrite app_nil_r|]. rewrite path_text_cons in H. simpl in H. lia.
Qed.

Lemma path_of_inj a b : (∀ s, s ∈ a → plain s) → (∀ s, s ∈ b → plain s) → path_of a = path_of b → a = b.
Proof.
  intros Ha Hb H. destruct a as [|x a], b as [|y b]; [done| | |by apply path_text_inj].
  - rewrite (path_of_text (y :: b)), path_text_cons in H by done. injection H as H.
    destruct (Hb y) as [? _]; [by left|]. by destruct y.
  - rewrite (path_of_text (x :: a)), path_text_cons in H by done. injection H as H.
    destruct (Ha x) as [? _]; [by left|]. by destruct x.
Qed.

Lemma isWithin_inside segs root :
  (∀ s, s ∈ segs → plain s) → (∀ s, s ∈ root → plain s) →
  isWithin (path_of segs) (path_of root) = true ↔ inside segs root.
Proof.
  intros Hs Hr. unfold isWithin, inside. rewrite orb_true_iff, bool_decide_eq_true.
  unfold starts_with. rewrite prefix_app. split.
  - intros [H|[r H]]; [left; by apply path_of_inj|]. destruct root as [|w root].
    { exfalso. destruct segs as [|s segs]; [done|]. rewrite (path_of_text (s :: segs)), path_text_cons in H by done.
      injection H as H. destruct (Hs s) as [Hne Hp]; [by left|]. destruct s as [|c s]; [done|].
      injection H as -> _. done. }
    right. split; [done|]. destruct segs as [|s segs].
    { exfalso. rewrite (path_of_text (w :: root)), path_text_cons in H by done. injection H as H.
      destruct (Hr w) as [? _]; [by left|]. by destruct w. }
    rewrite !path_of_text in H by done. apply (text_prefix (w :: root) (s :: segs) (r +:+ String sep "")); [done..|].
    rewrite H. rewrite <- !string_app_assoc. done.
  - intros [->|[Hne [rest ->]]]; [by left|]. destruct rest as [|s rest]; [left; by rewrite app_nil_r|].
    right. rewrite (path_of_text root) by done. rewrite path_of_text by (by destruct root).
    rewrite path_text_app, path_text_cons.
    exists (s +:+ path_text rest). by rewrite <- string_app_assoc.
Qed.
End Decisions.

(** What the policy decides once its paths and the candidate are canonical. *)
Record policy_paths (realpath : string → result fs_error string) (cwd : string) (policy : WorkspacePolicy)
    (workspace : list string) (roots protected : list (list string)) : Prop := {
  pol_roots : wp_readableRoots policy ≠ [];
  pol_workspace : canonicalizeForPolicy realpath cwd (wp_workspace policy) = Ok (path_of workspace);
  pol_readable : Forall2 (λ p r, canonicalizeForPolicy realpath cwd p = Ok (path_of r)) (wp_readableRoots policy) roots;
  pol_protected : Forall2 (λ p r, canonicalizeForPolicy realpath cwd p = Ok (path_of r)) (wp_protectedPaths policy) protected;
  pol_plain : ∀ segs, segs ∈ workspace :: roots ++ protected → ∀ s, s ∈ segs → plain s
}.

Lemma map_Forall2 {E A B C} (f : A → result E B) (g : C → B) i l (cs : list C) :
  Forall2 (λ a c, f a = Ok (g c)) l cs → map_from (λ _, f) i l = Ok (g <$> cs).
Proof. intros H. revert i. induction H as [|a c l cs Hf _ IH]; intros i; [done|]. simpl. by rewrite Hf, IH. Qed.

Section Allowed.
Context (realpath : string → result fs_error string) (cwd : string).
Context (policy : WorkspacePolicy) (workspace : list string) (roots protected : list (list string)).
Hypothesis Hpol : policy_paths realpath cwd policy workspace roots protected.
Context (segs : list string).
Hypothesis Hsegs : ∀ s, s ∈ segs → plain s.

Let resolved : WorkspacePolicy :=
  {| wp_workspace := path_of workspace; wp_readableRoots := path_of <$> roots;
     wp_protectedPaths := path_of <$> protected |}.

Lemma canonicalPolicy_paths : canonicalPolicy realpath cwd policy = Ok resolved.
Proof.
  destruct Hpol as [Hr Hw Hrs Hps _]. unfold canonicalPolicy. rewrite bool_decide_false by done. cbn [rbind refuse].
  rewrite Hw. cbn [rbind]. unfold map_indexed. rewrite (map_Forall2 _ path_of 0 _ _ Hrs). cbn [rbind].
  by rewrite (map_Forall2 _ path_of 0 _ _ Hps).
Qed.

Lemma plain_of r : r ∈ workspace :: roots ++ protected → ∀ s, s ∈ r → plain s.
Proof. apply Hpol. Qed.

Lemma refuse_protected_Ok capability u :
  refuse_protected capability (path_of segs) resolved = Ok u ↔ ∀ p, p ∈ protected → ¬ inside segs p.
Proof.
  unfold refuse_protected, resolved. cbn [wp_protectedPaths]. rewrite each_Ok, Forall_fmap, Forall_forall. split.
  - intros H p Hp Hin. specialize (H p Hp). simpl in H. apply refuse_Ok in H.
    rewrite (proj2 (isWithin_inside segs p ltac:(done) ltac:(apply plain_of; set_solver))) in H; done.
  - intros H p Hp. simpl. apply refuse_Ok. apply not_true_iff_false. intros Hin.
    apply isWithin_inside in Hin; [by eapply H|done|]. apply plain_of. set_solver.
Qed.

Lemma readable_inside : readable (path_of segs) resolved = true ↔ ∃ r, r ∈ roots ∧ inside segs r.
Proof.
  unfold readable, resolved. cbn [wp_readableRoots]. rewrite existsb_exists. split.
  - intros (p & Hp & Hin). apply list_elem_of_In, list_elem_of_fmap in Hp as (r & -> & Hr).
    exists r. split; [done|]. apply isWithin_inside in Hin; [done..|]. apply plain_of. set_solver.
  - intros (r & Hr & Hin). exists (path_of r). split; [by apply list_elem_of_In, list_elem_of_fmap_2|].
    apply isWithin_inside; [done|apply plain_of; set_solver|done].
Qed.
End Allowed.


Definition sample_policy : WorkspacePolicy :=
  {| wp_workspace := "/work"; wp_readableRoots := ["/work"; "/etc"]; wp_protectedPaths := ["/work/secret"] |}.

