(* ===== verification/Envelope.v ===== *)
(** protocol/src/event-envelope.ts: identifiers, the JSON check and the
    envelope every event travels in. *)
From stdpp Require Import base list sets strings pretty.
From Stdlib Require Import ZArith Lia Ascii.
From S2P Require Import Prelude Text JsValue.

(** ** Errors *)

Record ProtocolValidationError := { pve_path : string; pve_message : string }.

#[export] Instance ProtocolValidationError_eq_dec : EqDecision ProtocolValidationError.
Proof. solve_decision. Defined.

Abbreviation checked := (result ProtocolValidationError).

Definition invalid (path message : string) : ProtocolValidationError :=
  {| pve_path := path; pve_message := message |}.

Abbreviation validationError path message := (Err (invalid path message)).

(** [`${path}.${key}`] and [`${path}[${index}]`] *)
Definition member (path key : string) : string := path +:+ "." +:+ key.
Definition element (path : string) (index : nat) : string := path +:+ "[" +:+ pretty index +:+ "]".

(** ** Identifiers *)

Definition hex : regex := RClass is_lower_hex.

(** [/^[0-9a-f]{8}-[0-9a-f]{4}-[1-8][0-9a-f]{3}-[89ab][0-9a-f]{3}-[0-9a-f]{12}$/] *)
Definition uuidPattern : regex :=
  (RTimes 8 hex ⋅ RChar "-"%char ⋅ RTimes 4 hex ⋅ RChar "-"%char ⋅
   RClass (λ c, in_range 49 56 (code c)) ⋅ RTimes 3 hex ⋅ RChar "-"%char ⋅
   RClass (one_of "89ab") ⋅ RTimes 3 hex ⋅ RChar "-"%char ⋅ RTimes 12 hex)%regex.

Definition lower_alnum : regex := RClass (λ c, is_lower c || is_digit c).

(** [/^[a-z][a-z0-9]*(?:[._-][a-z0-9]+)*$/] *)
Definition eventTypePattern : regex :=
  (RClass is_lower ⋅ RStar lower_alnum ⋅
   RStar (RClass (one_of "._-") ⋅ RPlus lower_alnum))%regex.

Definition is_uuid (s : string) : bool := rmatch uuidPattern s.

Definition parseId (value : jsval) (path : string) : checked string :=
  match value with
  | JStr s => _ ← require (is_uuid s) (invalid path "must be a lowercase RFC 9562 UUID"); Ok s
  | _ => validationError path "must be a lowercase RFC 9562 UUID"
  end.

Definition parseEventId (value : jsval) (path : string) : checked string := parseId value path.
Definition parseSessionId (value : jsval) (path : string) : checked string := parseId value path.
Definition parseOperationId (value : jsval) (path : string) : checked string := parseId value path.

(** ** Objects and JSON *)

Definition maximumJsonDepth : nat := 64.

Definition parseObject (value : jsval) (path : string) : checked fields :=
  match value with
  | JObj fs => Ok fs
  | JInst _ => validationError path "must be a plain object"
  | _ => validationError path "must be an object"
  end.

(** One entry of [pending]. *)
Record pending_value := { pv_value : jsval; pv_path : string; pv_depth : nat }.

(** What the loop body pushes, in push order; [pending.pop()] takes the last. *)
Definition json_children (cur : pending_value) : checked (list pending_value) :=
  let path := pv_path cur in
  let push p v := {| pv_value := v; pv_path := p; pv_depth := S (pv_depth cur) |} in
  let deep := bool_decide (maximumJsonDepth ≤ pv_depth cur) in
  let too_deep :=
    invalid path ("must not exceed " +:+ pretty maximumJsonDepth +:+ " nested levels") in
  match pv_value cur with
  | JNull | JStr _ | JBool _ => Ok []
  | JNum n => _ ← require (is_finite n) (invalid path "must be a finite number"); Ok []
  | JUndef | JOther => validationError path "must be valid JSON"
  | JArr items =>
      _ ← refuse deep too_deep;
      Ok (imap (λ i v, push (element path i) v) items)
  | JObj fs | JInst fs =>
      _ ← refuse deep too_deep;
      fs' ← parseObject (pv_value cur) path;
      Ok ((λ kv, push (member path kv.1) kv.2) <$> fs')
  end.

(** The worklist loop.  [pending] is kept with its top first.  [None]: out of
    fuel, which [validateJson] never is ([validate_loop_total]). *)
Fixpoint validate_loop (fuel : nat) (pending : list pending_value) : option (checked unit) :=
  match pending with
  | [] => Some (Ok tt)
  | cur :: rest =>
      match fuel with
      | 0 => None
      | S fuel' =>
          match json_children cur with
          | Err e => Some (Err e)
          | Ok pushed => validate_loop fuel' (rev pushed ++ rest)
          end
      end
  end.

(** Number of nodes of a value. *)
Fixpoint js_size (v : jsval) : nat :=
  match v with
  | JArr l => S (fold_right (λ x n, js_size x + n) 0 l)
  | JObj fs | JInst fs => S (fold_right (λ kv n, js_size kv.2 + n) 0 fs)
  | _ => 1
  end.

(** The source also refuses an object met twice ([seen]); the values of the
    model are trees, where that never happens. *)
Definition validateJson (value : jsval) (path : string) : checked unit :=
  match validate_loop (js_size value) [{| pv_value := value; pv_path := path; pv_depth := 0 |}] with
  | Some r => r
  | None => validationError path "fuel"
  end.

(** ** The envelope *)

Definition EVENT_FORMAT_VERSION : Z := 1.

Record EventEnvelope := {
  env_id : string;
  env_sessionId : string;
  env_operationId : option string;
  env_parentId : option string;
  env_timestamp : Z;
  env_type : string;
  env_payload : fields
}.

#[export] Instance EventEnvelope_eq_dec : EqDecision EventEnvelope.
Proof. solve_decision. Defined.

Definition envelope_keys : list string :=
  ["version"; "id"; "sessionId"; "operationId"; "parentId"; "timestamp"; "type"; "payload"].

Definition parse_event_type (value : jsval) : checked string :=
  let e := invalid "event.type" "must be a lowercase event name of at most 128 characters" in
  match value with
  | JStr s =>
      _ ← require ((js_length s <=? 128)%Z && rmatch eventTypePattern s) e;
      Ok s
  | _ => Err e
  end.

Definition parse_timestamp (value : jsval) : checked Z :=
  match value with
  | JNum n =>
      _ ← require (is_safe_integer n && negb (is_negative n))
            (invalid "event.timestamp" "must be a non-negative safe integer");
      Ok (int_of n)
  | _ => validationError "event.timestamp" "must be a non-negative safe integer"
  end.

Definition parseEventEnvelope (value : jsval) : checked EventEnvelope :=
  event ← parseObject value "event";
  _ ← each (λ key, require (bool_decide (key ∈ envelope_keys))
                     (invalid (member "event" key) "is not allowed")) (keys event);
  _ ← require (is_int EVENT_FORMAT_VERSION (get "version" event))
        (invalid "event.version" ("must equal " +:+ pretty EVENT_FORMAT_VERSION));
  id ← parseEventId (get "id" event) "event.id";
  sessionId ← parseSessionId (get "sessionId" event) "event.sessionId";
  parentId ← match get "parentId" event with
             | JNull => Ok None
             | v => Some <$$> parseEventId v "event.parentId"
             end;
  timestamp ← parse_timestamp (get "timestamp" event);
  type ← parse_event_type (get "type" event);
  payload ← parseObject (get "payload" event) "event.payload";
  _ ← validateJson (JObj payload) "event.payload";
  operationId ← (if has_own "operationId" event
                 then Some <$$> parseOperationId (get "operationId" event) "event.operationId"
                 else Ok None);
  Ok {| env_id := id; env_sessionId := sessionId; env_operationId := operationId;
        env_parentId := parentId; env_timestamp := timestamp; env_type := type;
        env_payload := payload |}.

(** The object [parseEventEnvelope] returns, in the order of its literal. *)
Definition envelope_value (e : EventEnvelope) : jsval :=
  JObj ([("version", JInt EVENT_FORMAT_VERSION); ("id", JStr (env_id e));
         ("sessionId", JStr (env_sessionId e))]
        ++ opt_field "operationId" (JStr <$> env_operationId e)
        ++ [("parentId", match env_parentId e with Some p => JStr p | None => JNull end);
            ("timestamp", JInt (env_timestamp e)); ("type", JStr (env_type e));
            ("payload", JObj (env_payload e))]).

(** ** What a checked value is *)

(** JSON nested at most [maximumJsonDepth - d] levels. *)
Fixpoint json_within (d : nat) (v : jsval) : bool :=
  match v with
  | JNull | JBool _ | JStr _ => true
  | JNum n => is_finite n
  | JArr l => bool_decide (d < maximumJsonDepth) && forallb (json_within (S d)) l
  | JObj fs => bool_decide (d < maximumJsonDepth) && forallb (λ kv, json_within (S d) kv.2) fs
  | JUndef | JInst _ | JOther => false
  end.

Record envelope_ok (e : EventEnvelope) : Prop := {
  eok_id : is_uuid (env_id e) = true;
  eok_session : is_uuid (env_sessionId e) = true;
  eok_operation : ∀ o, env_operationId e = Some o → is_uuid o = true;
  eok_parent : ∀ p, env_parentId e = Some p → is_uuid p = true;
  eok_timestamp : (0 <= env_timestamp e <= MAX_SAFE_INTEGER)%Z;
  eok_type : (js_length (env_type e) <= 128)%Z ∧ lang eventTypePattern (env_type e);
  eok_payload : json_within 0 (JObj (env_payload e)) = true
}.

(** ** The worklist terminates and decides [json_within] *)

Definition stack_size (st : list pending_value) : nat :=
  sum_list_with (λ c, js_size (pv_value c)) st.

Definition pending_ok (c : pending_value) : bool := json_within (pv_depth c) (pv_value c).

Section ValidateJson.
Lemma stack_size_cons c st : stack_size (c :: st) = js_size (pv_value c) + stack_size st.
Proof. done. Qed.

Lemma stack_size_push pushed st :
  stack_size (rev pushed ++ st) = stack_size pushed + stack_size st.
Proof.
  unfold stack_size. rewrite sum_list_with_app. f_equal.
  induction pushed as [|c l IH]; [done|]. simpl. rewrite sum_list_with_app, IH. simpl. lia.
Qed.

Lemma stack_size_imap path d l :
  stack_size (imap (λ i v, {| pv_value := v; pv_path := element path i; pv_depth := d |}) l)
  = fold_right (λ x n, js_size x + n) 0 l.
Proof.
  generalize (element path). intros f. revert f.
  induction l as [|x l IH]; intros f; [done|]. rewrite imap_cons. unfold stack_size in *. cbn.
  f_equal. apply (IH (λ i, f (S i))).
Qed.

Lemma stack_size_fields path d (fs : fields) :
  stack_size ((λ kv, {| pv_value := kv.2; pv_path := member path kv.1; pv_depth := d |}) <$> fs)
  = fold_right (λ kv n, js_size kv.2 + n) 0 fs.
Proof. induction fs as [|kv fs IH]; [done|]. unfold stack_size in *. cbn in *. by f_equal. Qed.

Lemma pending_ok_imap path d l :
  forallb pending_ok (imap (λ i v, {| pv_value := v; pv_path := element path i; pv_depth := d |}) l)
  = forallb (json_within d) l.
Proof.
  generalize (element path). intros f. revert f.
  induction l as [|x l IH]; intros f; [done|]. rewrite imap_cons. cbn. f_equal. apply (IH (λ i, f (S i))).
Qed.

Lemma pending_ok_fields path d (fs : fields) :
  forallb pending_ok ((λ kv, {| pv_value := kv.2; pv_path := member path kv.1; pv_depth := d |}) <$> fs)
  = forallb (λ kv, json_within d kv.2) fs.
Proof. induction fs as [|kv fs IH]; [done|]. cbn. by f_equal. Qed.

Lemma json_children_Ok c pushed :
  json_children c = Ok pushed →
  S (stack_size pushed) = js_size (pv_value c) ∧ pending_ok c = forallb pending_ok pushed.
Proof.
  destruct c as [v path d]. unfold json_children, pending_ok. cbn [pv_value pv_path pv_depth].
  destruct v as [| | |n| |l|fs|fs|]; intros H; inv_ok; try done.
  - split; [by cbn; rewrite stack_size_imap|].
    cbn [json_within]. rewrite bool_decide_true, pending_ok_imap by lia. done.
  - simpl in *. inv_ok. split; [by rewrite stack_size_fields|].
    rewrite bool_decide_true, pending_ok_fields by lia. done.
Qed.

Lemma json_children_Err c e : json_children c = Err e → pending_ok c = false.
Proof.
  destruct c as [v path d]. unfold json_children, pending_ok. cbn [pv_value pv_path pv_depth].
  destruct v as [| | |n| |l|fs|fs|]; cbn [json_within]; try done.
  - by destruct (is_finite n).
  - unfold refuse. case_bool_decide; [|done]. intros _. rewrite bool_decide_false by lia. done.
  - unfold refuse. case_bool_decide; [|done]. intros _. rewrite bool_decide_false by lia. done.
Qed.

(** With fuel for every node the loop answers, and it answers [Ok] exactly on JSON. *)
Lemma validate_loop_total fuel st :
  stack_size st ≤ fuel →
  ∃ r, validate_loop fuel st = Some r ∧ (r = Ok tt ↔ forallb pending_ok st = true).
Proof.
  revert st. induction fuel as [|fuel IH]; intros [|c st] Hsz.
  - by exists (Ok tt).
  - rewrite stack_size_cons in Hsz. destruct (pv_value c); simpl in Hsz; lia.
  - by exists (Ok tt).
  - rewrite stack_size_cons in Hsz. cbn [validate_loop].
    destruct (json_children c) as [pushed|e] eqn:Hc.
    + apply json_children_Ok in Hc as [Hs Hp].
      destruct (IH (rev pushed ++ st)) as (r & Hr & Hiff); [rewrite stack_size_push; lia|].
      exists r. split; [done|]. rewrite Hiff. cbn [forallb]. rewrite Hp, forallb_app.
      assert (forallb pending_ok (rev pushed) = forallb pending_ok pushed) as ->; [|done].
      apply eq_true_iff_eq. rewrite !forallb_forall. setoid_rewrite <- in_rev. done.
    + exists (Err e). split; [done|]. cbn. apply json_children_Err in Hc. rewrite Hc.
      split; [intros [=] | done].
Qed.

Lemma validateJson_Ok v path : validateJson v path = Ok tt ↔ json_within 0 v = true.
Proof.
  unfold validateJson.
  destruct (validate_loop_total (js_size v) [{| pv_value := v; pv_path := path; pv_depth := 0 |}])
    as (r & -> & Hr); [unfold stack_size; simpl; lia|].
  rewrite Hr. simpl. by rewrite andb_true_r.
Qed.
End ValidateJson.

(** ** Identifiers and envelopes round trip *)

Lemma parseId_Ok v path s : parseId v path = Ok s ↔ v = JStr s ∧ is_uuid s = true.
Proof.
  unfold parseId. destruct v; simpl; try (split; [done | by intros [? _]]).
  rewrite bind_Ok. setoid_rewrite require_Ok. split.
  - by intros ([] & ? & [= ->]).
  - intros [[= ->] ?]. by exists tt.
Qed.

Lemma parseObject_Ok v path fs : parseObject v path = Ok fs ↔ v = JObj fs.
Proof. destruct v; simpl; split; congruence. Qed.

Lemma parse_timestamp_Ok v z : parse_timestamp v = Ok z →
  (0 <= z <= MAX_SAFE_INTEGER)%Z.
Proof.
  destruct v as [| | |n| | | | |]; simpl; try discriminate. intros; inv_ok.
  by apply nonnegative_safe.
Qed.

Lemma parse_timestamp_int z : (0 <= z <= MAX_SAFE_INTEGER)%Z → parse_timestamp (JInt z) = Ok z.
Proof.
  intros H. simpl. rewrite require_true; [done|]. unfold MAX_SAFE_INTEGER in *.
  rewrite andb_true_iff, negb_true_iff. lia.
Qed.

Lemma parse_event_type_Ok v s :
  parse_event_type v = Ok s ↔ v = JStr s ∧ (js_length s <= 128)%Z ∧ lang eventTypePattern s.
Proof.
  destruct v; simpl; try (split; [done | by intros [? _]]).
  rewrite bind_Ok. setoid_rewrite require_Ok. rewrite <- rmatch_lang. split.
  - intros ([] & ? & [= ->]). inv_ok. split_and!; [done | lia | done].
  - intros ([= ->] & ? & H). exists tt. split; [|done]. rewrite H, andb_true_r. lia.
Qed.

(** Every accepted envelope satisfies the envelope invariant. *)
Lemma parseEventEnvelope_sound v e : parseEventEnvelope v = Ok e → envelope_ok e.
Proof.
  unfold parseEventEnvelope, parseEventId, parseSessionId, parseOperationId.
  intros H. inv_ok.
  repeat match goal with H : parseId _ _ = Ok _ |- _ => apply parseId_Ok in H as [? ?] end.
  match goal with H : parse_event_type _ = Ok _ |- _ => apply parse_event_type_Ok in H as (? & ? & ?) end.
  match goal with H : validateJson _ _ = Ok _ |- _ => apply validateJson_Ok in H end.
  match goal with H : parse_timestamp _ = Ok _ |- _ => apply parse_timestamp_Ok in H end.
  constructor; simpl; try done.
  - intros o ->. destruct (has_own "operationId" _); inv_ok.
    by match goal with H : parseId _ _ = Ok _ |- _ => apply parseId_Ok in H as [? ?] end.
  - intros p ->. match goal with H : match get "parentId" _ with _ => _ end = _ |- _ => revert H end.
    case_goal; intros; inv_ok;
      by match goal with H : parseId _ _ = Ok _ |- _ => apply parseId_Ok in H as [? ?] end.
Qed.

(** What is left to check of an envelope as it is written. *)
Lemma parseEventEnvelope_value e :
  is_uuid (env_id e) = true → is_uuid (env_sessionId e) = true →
  (∀ o, env_operationId e = Some o → is_uuid o = true) → (∀ p, env_parentId e = Some p → is_uuid p = true) →
  (0 <= env_timestamp e <= MAX_SAFE_INTEGER)%Z →
  (js_length (env_type e) <= 128)%Z ∧ lang eventTypePattern (env_type e) →
  parseEventEnvelope (envelope_value e) = (_ ← validateJson (JObj (env_payload e)) "event.payload"; Ok e).
Proof.
  intros Hid Hs Ho Hp Ht Hty. unfold parseEventEnvelope, envelope_value. cbn [parseObject rbind].
  destruct e as [id sid op pid ts ty pl]; cbn [env_id env_sessionId env_operationId env_parentId
    env_timestamp env_type env_payload] in *.
  unfold parseEventId, parseSessionId, parseOperationId.
  assert (Hget : ∀ s path, is_uuid s = true → parseId (JStr s) path = Ok s)
    by (intros; by apply parseId_Ok).
  assert (Htp : parse_event_type (JStr ty) = Ok ty) by (by apply parse_event_type_Ok).
  pose proof (parse_timestamp_int ts Ht) as Hts.
  destruct op as [o|], pid as [p|]; simpl; rewrite ?Hget by auto; simpl in Hts; rewrite ?Hts;
    simpl in *; rewrite ?Hget by auto; simpl; rewrite ?Hts; simpl; rewrite ?Htp; simpl;
    destruct (validateJson (JObj pl) "event.payload"); simpl; rewrite ?Hget by auto; reflexivity.
Qed.

(** Every envelope that satisfies the invariant is accepted as it is written. *)
Lemma parseEventEnvelope_complete e : envelope_ok e → parseEventEnvelope (envelope_value e) = Ok e.
Proof.
  intros [Hid Hs Ho Hp Ht Hty Hpl]. rewrite parseEventEnvelope_value by done.
  by rewrite (proj2 (validateJson_Ok (JObj (env_payload e)) "event.payload") Hpl).
Qed.
