(* ===== verification/Canonical.v ===== *)
(** protocol/src/canonical-request.ts: the canonical text of a request, which sorts
    the keys of every object by their UTF-16 code units, and its hash. *)
From stdpp Require Import base list strings pretty.
From Stdlib Require Import ZArith Lia Ascii.
From S2P Require Import Prelude Text JsValue Json JsonText Utf8 Envelope Sha256.

(** ** Keys *)

(** The UTF-16 code units of a string. *)
Definition code_units (p : N) : list N :=
  if (p <? 65536)%N then [p] else [55296 + (p - 65536) / 1024; 56320 + (p - 65536) mod 1024]%N.
Definition utf16 (s : string) : list N := mjoin (code_units <$> code_points s).

(** [a <= b] as the default comparison of [sort] has it. *)
Fixpoint units_le (a b : list N) : bool :=
  match a, b with
  | [], _ => true
  | _ :: _, [] => false
  | x :: a', y :: b' => (x <? y)%N || ((x =? y)%N && units_le a' b')
  end.
(** [Object.keys(record).sort()], with what belongs to each key. *)
Fixpoint insert_key {A} (kv : string * A) (l : list (string * A)) : list (string * A) :=
  match l with
  | [] => [kv]
  | kv' :: l' => if units_le (utf16 kv.1) (utf16 kv'.1) then kv :: l else kv' :: insert_key kv l'
  end.
Definition sort_keys {A} (l : list (string * A)) : list (string * A) := fold_right insert_key [] l.

(** ** The text *)

Inductive canonical_error := canonical_type_error (message : string).
Definition MAXIMUM_JSON_DEPTH : nat := 64.

(** Values here are trees, so the check for cycles never fires.  The members are
    rendered lazily, in the order of the sorted keys. *)
Fixpoint canonicalJson (value : jsval) (path : string) (depth : nat) : result canonical_error string :=
  if MAXIMUM_JSON_DEPTH <? depth then Err (canonical_type_error (path +:+ " exceeds maximum JSON depth"))
  else
    match value with
    | JNull => Ok "null"
    | JBool b => Ok (if b then "true" else "false")
    | JStr s => Ok (quote s)
    | JNum n =>
        if is_finite n then Ok (if bool_decide (n = NNegZero) then "0" else number_to_string n)
        else Err (canonical_type_error (path +:+ " must contain only finite numbers"))
    | JUndef | JOther => Err (canonical_type_error (path +:+ " must be JSON-compatible"))
    | JArr l =>
        items ← map_indexed (λ index item, canonicalJson item (element path index) (S depth)) l;
        Ok ("[" +:+ join "," items +:+ "]")
    | JInst _ => Err (canonical_type_error (path +:+ " must contain only plain objects"))
    | JObj record =>
        members ← map_indexed (λ _ kt, text ← kt.2; Ok (quote kt.1 +:+ ":" +:+ text))
          (sort_keys ((λ kv, (kv.1, canonicalJson kv.2 (member path kv.1) (S depth))) <$> record));
        Ok ("{" +:+ join "," members +:+ "}")
    end.

Definition request_value (method : string) (params : jsval) : jsval :=
  JObj [("method", JStr method); ("params", params)].

(** The bytes of a string of this model are its UTF-8 encoding. *)
Definition encodeCanonicalRequest (method : string) (params : jsval) : result canonical_error string :=
  canonicalJson (request_value method params) "request" 0.

Inductive hash_failure := HashType (e : canonical_error) | HashRange (e : hash_error).

Definition hashCanonicalRequest (method : string) (params : jsval) : result hash_failure string :=
  match encodeCanonicalRequest method params with
  | Err e => Err (HashType e)
  | Ok text =>
      match sha256 (bytes_of text) with
      | Err e => Err (HashRange e)
      | Ok digest => Ok (hex_bytes digest)
      end
  end.

(** The second case of test/fixtures/canonical-requests.json. *)
Example canonical_fixture :
  hashCanonicalRequest "session.interaction.respond"
    (JObj [("content", JObj [("details", JObj [("z", JArr [JInt 3; JNull; JStr ("line" +:+ chr 10 +:+ "feed")]);
                                                ("a", JBool true)]);
                             ("answer", JStr "yes")]);
           ("sessionId", JStr "123e4567-e89b-42d3-a456-426614174000");
           ("interactionId", JStr "interaction-1"); ("action", JStr "accept")])
  = Ok "fd85e35594a7cfde884490d4ef815bf5176aab6d11547a7b4bab3577f0983e19".
Proof. vm_compute. reflexivity. Qed.

(** ** Code units *)

Section Units.
Lemma units_le_total a b : units_le a b = true ∨ units_le b a = true.
Proof.
  revert b; induction a as [|x a IH]; intros [|y b]; simpl; [by left|by left|by right|].
  destruct (N.ltb_spec x y), (N.ltb_spec y x), (N.eqb_spec x y), (N.eqb_spec y x); simpl; try lia; auto.
Qed.

Lemma units_le_antisym a b : units_le a b = true → units_le b a = true → a = b.
Proof.
  revert b; induction a as [|x a IH]; intros [|y b]; simpl; try done.
  destruct (N.ltb_spec x y), (N.ltb_spec y x), (N.eqb_spec x y), (N.eqb_spec y x); simpl; try lia; try done.
  intros. subst. f_equal. by apply IH.
Qed.

Lemma units_le_trans a b c : units_le a b = true → units_le b c = true → units_le a c = true.
Proof.
  revert b c; induction a as [|x a IH]; intros [|y b] [|z c]; simpl; try done.
  destruct (N.ltb_spec x y), (N.ltb_spec y z), (N.ltb_spec x z), (N.eqb_spec x y), (N.eqb_spec y z), (N.eqb_spec x z);
    simpl; try lia; try done. apply IH.
Qed.

(** Code points of a well-formed string are scalar values. *)
Definition scalar (p : N) : Prop := (p < 55296 ∨ 57344 <= p < 1114112)%N.

Lemma code_points_scalar s : utf8_valid s = true → Forall scalar (code_points s).
Proof.
  induction s as [s IH] using string_length_ind. destruct s as [|c1 s]; [constructor|]. cbn [utf8_valid code_points].
  destruct (N.ltb_spec (code c1) 128); [intros; constructor; [unfold scalar; lia|apply IH; [simpl; lia|done]]|].
  destruct s as [|c2 s]; [done|]. destruct (in_range 194 223 (code c1)) eqn:R1.
  { apply in_range_spec in R1. rewrite (proj2 (in_range_spec 192 223 (code c1))) by lia.
    intros [H2%continuation_range Hs]%andb_true_iff. constructor; [unfold scalar; lia|apply IH; [simpl; lia|done]]. }
  apply in_range_false in R1. destruct s as [|c3 s]; [done|]. destruct (in_range 224 239 (code c1)) eqn:R2.
  { apply in_range_spec in R2. rewrite (proj2 (in_range_false 192 223 (code c1))) by lia.
    intros [[H2%in_range_spec H3%continuation_range]%andb_true_iff Hs]%andb_true_iff.
    constructor; [|apply IH; [simpl; lia|done]]. unfold scalar.
    destruct (N.eqb_spec (code c1) 224), (N.eqb_spec (code c1) 237); lia. }
  apply in_range_false in R2. destruct s as [|c4 s]; [done|].
  intros [[[[H1%in_range_spec H2%in_range_spec]%andb_true_iff H3%continuation_range]%andb_true_iff
    H4%continuation_range]%andb_true_iff Hs]%andb_true_iff.
  rewrite (proj2 (in_range_false 192 223 (code c1))) by lia. constructor; [|apply IH; [simpl; lia|done]]. unfold scalar.
  destruct (N.eqb_spec (code c1) 240), (N.eqb_spec (code c1) 244); lia.
Qed.

Lemma code_units_inj ps qs :
  Forall scalar ps → Forall scalar qs → mjoin (code_units <$> ps) = mjoin (code_units <$> qs) → ps = qs.
Proof.
  intros Hp. revert qs; induction Hp as [|p ps Hp Hps IH]; intros qs Hq; destruct Hq as [|q qs Hq Hqs]; simpl; try done.
  - unfold code_units. by case_match.
  - unfold code_units. by case_match.
  - unfold code_units, scalar in *.
    destruct (N.ltb_spec p 65536) as [Lp|Lp], (N.ltb_spec q 65536) as [Lq|Lq]; simpl; intros E.
    + injection E as -> E. f_equal. by apply IH.
    + injection E as E1 E. exfalso. assert ((q - 65536) / 1024 < 1024)%N as Hlt by (apply N.Div0.div_lt_upper_bound; lia).
      revert Hlt E1. generalize ((q - 65536) / 1024)%N. clear -Hp. intros; lia.
    + injection E as E1 E. exfalso. assert ((p - 65536) / 1024 < 1024)%N as Hlt by (apply N.Div0.div_lt_upper_bound; lia).
      revert Hlt E1. generalize ((p - 65536) / 1024)%N. clear -Hq. intros; lia.
    + injection E as E1 E2 E. pose proof (N.div_mod' (p - 65536) 1024). pose proof (N.div_mod' (q - 65536) 1024).
      assert (p = q) as -> by lia. f_equal. by apply IH.
Qed.

Lemma utf16_inj a b : utf8_valid a = true → utf8_valid b = true → utf16 a = utf16 b → a = b.
Proof.
  intros Ha Hb H. apply code_units_inj in H; [|by apply code_points_scalar..].
  rewrite <- (utf8_roundtrip a), <- (utf8_roundtrip b) by done. by rewrite H.
Qed.
End Units.

(** ** Sorting *)

Section Sorting.
Context {A : Type}.
Implicit Types (l : list (string * A)) (kv : string * A).

Lemma insert_key_perm kv l : insert_key kv l ≡ₚ kv :: l.
Proof.
  induction l as [|kv' l IH]; simpl; [done|]. destruct (units_le _ _); [done|]. rewrite IH. by constructor.
Qed.

Lemma sort_keys_perm l : sort_keys l ≡ₚ l.
Proof. induction l as [|kv l IH]; simpl; [done|]. rewrite insert_key_perm. by constructor. Qed.

(** Two different keys may be inserted in either order. *)
Lemma insert_key_swap kv kv' l :
  utf16 kv.1 ≠ utf16 kv'.1 → insert_key kv (insert_key kv' l) = insert_key kv' (insert_key kv l).
Proof.
  intros Hne. induction l as [|x l IH]; simpl.
  - destruct (units_le (utf16 kv.1) (utf16 kv'.1)) eqn:E1, (units_le (utf16 kv'.1) (utf16 kv.1)) eqn:E2; try done.
    + by destruct Hne; apply units_le_antisym.
    + destruct (units_le_total (utf16 kv.1) (utf16 kv'.1)); congruence.
  - destruct (units_le (utf16 kv.1) (utf16 x.1)) eqn:E1, (units_le (utf16 kv'.1) (utf16 x.1)) eqn:E2; simpl;
      rewrite ?E1, ?E2; try (by f_equal; apply IH).
    + destruct (units_le (utf16 kv.1) (utf16 kv'.1)) eqn:E3, (units_le (utf16 kv'.1) (utf16 kv.1)) eqn:E4; try done.
      * by destruct Hne; apply units_le_antisym.
      * destruct (units_le_total (utf16 kv.1) (utf16 kv'.1)); congruence.
    + destruct (units_le (utf16 kv'.1) (utf16 kv.1)) eqn:E3; [|done].
      by rewrite (units_le_trans _ _ _ E3 E1) in E2.
    + destruct (units_le (utf16 kv.1) (utf16 kv'.1)) eqn:E3; [|done].
      by rewrite (units_le_trans _ _ _ E3 E2) in E1.
Qed.

Lemma sort_keys_unique l l' :
  NoDup l.*1 → (∀ k, k ∈ l.*1 → utf8_valid k = true) → l ≡ₚ l' → sort_keys l = sort_keys l'.
Proof.
  intros Hn Hv Hp. induction Hp as [|kv l l' Hp IH|kv kv' l|l1 l2 l3 H1 IH1 H2 IH2]; simpl in *.
  - done.
  - apply NoDup_cons in Hn as [_ Hn]. rewrite IH; [done|done|]. intros k Hk. apply Hv. by right.
  - apply NoDup_cons in Hn as [Hk _]. apply insert_key_swap. intros E. apply Hk.
    apply utf16_inj in E; [rewrite E; by left|apply Hv; by left|apply Hv; right; by left].
  - rewrite IH1 by done. apply IH2; [by rewrite <- H1|]. intros k Hk. apply Hv. by rewrite H1.
Qed.
End Sorting.

Lemma sort_keys_fmap {A B} (g : string * A → B) (l : list (string * A)) :
  sort_keys ((λ kv, (kv.1, g kv)) <$> l) = (λ kv, (kv.1, g kv)) <$> sort_keys l.
Proof.
  induction l as [|kv l IH]; [done|]. cbn [fmap list_fmap sort_keys fold_right]. fold (sort_keys l).
  change (fold_right insert_key [] ((λ kv, (kv.1, g kv)) <$> l)) with (sort_keys ((λ kv, (kv.1, g kv)) <$> l)). rewrite IH.
  generalize (sort_keys l). clear. intros l. induction l as [|x l IH]; [done|]. simpl. destruct (units_le _ _); [done|].
  simpl. f_equal. exact IH.
Qed.

(** ** The value a canonical text stands for *)

(** A value up to the order of the keys of its objects and the sign of zero. *)
Fixpoint normal (v : jsval) : jsval :=
  match v with
  | JNum NNegZero => JInt 0
  | JArr l => JArr (normal <$> l)
  | JObj fs => JObj (sort_keys ((λ kv, (kv.1, normal kv.2)) <$> fs))
  | v => v
  end.

(** The own keys of an object are distinct, at every depth. *)
Fixpoint well_keyed (v : jsval) : bool :=
  match v with
  | JArr l => forallb well_keyed l
  | JObj fs => bool_decide (NoDup fs.*1) && forallb (λ kv, well_keyed kv.2) fs
  | _ => true
  end.

Section Normal.
Lemma forallb_Forall {A} (f : A → bool) l : forallb f l = true ↔ Forall (λ x, f x = true) l.
Proof. rewrite forallb_forall, Forall_forall. by setoid_rewrite list_elem_of_In. Qed.

Lemma set_field_perm o kv : kv.1 ∉ o.*1 → set_field o kv ≡ₚ kv :: o.
Proof.
  intros Hk. unfold set_field, has_own, keys. rewrite bool_decide_false by done.
  assert (Hins : ∀ z, insert_index z kv o ≡ₚ kv :: o).
  { intros z. clear Hk. induction o as [|x o IH]; [done|]. simpl. destruct (array_index x.1); [|done].
    destruct (z <? z0)%Z; [done|]. rewrite IH. by constructor. }
  destruct (array_index kv.1); [apply Hins|]. symmetry. apply Permutation_cons_append.
Qed.

Lemma set_fields_perm l o : NoDup (l.*1 ++ o.*1) → fold_left set_field l o ≡ₚ l ++ o.
Proof.
  revert o; induction l as [|kv l IH]; intros o Hn; [done|]. simpl in *. apply NoDup_cons in Hn as [Hk Hn].
  assert (kv.1 ∉ o.*1) as Ho by (intros ?; apply Hk, elem_of_app; by right).
  rewrite IH.
  - rewrite set_field_perm by done. symmetry. apply Permutation_middle.
  - rewrite (fmap_Permutation fst _ _ (set_field_perm o kv Ho)). simpl. rewrite <- Permutation_middle.
    apply NoDup_cons. split; [|done]. done.
Qed.

Lemma normal_keys (fs : fields) : ((λ kv, (kv.1, normal kv.2)) <$> fs).*1 = fs.*1.
Proof. rewrite <- list_fmap_compose. by apply list_fmap_ext. Qed.

(** Reading the canonical text back and normalising gives the normal value. *)
Lemma renormal v : json_plain (normal v) = true → well_keyed v = true → normal (enumerated (normal v)) = normal v.
Proof.
  induction v as [| |b|n|s|l IH|fs IH|fs IH|] using jsval_rect'; try done.
  - by destruct n.
  - simpl. rewrite !forallb_Forall, Forall_fmap. intros Hp Hw. f_equal. rewrite <- !list_fmap_compose.
    apply list_fmap_ext. intros i x Hx. rewrite Forall_lookup in IH, Hp, Hw. simpl. apply (IH i x Hx); [by apply (Hp i)|by apply (Hw i)].
  - cbn [normal enumerated well_keyed json_plain].
    set (m := (λ kv, (kv.1, normal kv.2)) <$> fs). rewrite andb_true_iff, bool_decide_eq_true, !forallb_Forall. intros Hp [Hn Hw].
    rewrite sort_keys_perm in Hp. unfold m in Hp. rewrite Forall_fmap in Hp.
    assert (Hvalid : ∀ k, k ∈ fs.*1 → utf8_valid k = true).
    { intros k (kv & -> & Hkv)%list_elem_of_fmap. rewrite Forall_forall in Hp. specialize (Hp kv Hkv). simpl in Hp.
      by apply andb_true_iff in Hp as [? _]. }
    unfold make_object. cbn [normal]. f_equal.
    set (gs := fold_left set_field _ []).
    assert (gs ≡ₚ (λ kv, (kv.1, enumerated kv.2)) <$> m) as Hgs.
    { unfold gs. rewrite set_fields_perm; [rewrite app_nil_r; by rewrite sort_keys_perm|].
      simpl. rewrite app_nil_r. rewrite <- list_fmap_compose.
      rewrite (fmap_Permutation _ _ _ (sort_keys_perm m)). change (fst ∘ (λ kv : string * jsval, (kv.1, enumerated kv.2))) with (λ kv : string * jsval, kv.1).
      unfold m. by rewrite normal_keys. }
    apply (fmap_Permutation (λ kv, (kv.1, normal kv.2))) in Hgs. symmetry in Hgs.
    assert (Hkeys : ((λ kv, (kv.1, normal kv.2)) <$> ((λ kv, (kv.1, enumerated kv.2)) <$> m)).*1 = fs.*1)
      by (unfold m; by rewrite <- !list_fmap_compose).
    rewrite <- (sort_keys_unique _ _ ltac:(by rewrite Hkeys) ltac:(by rewrite Hkeys) Hgs). f_equal.
    unfold m. rewrite <- !list_fmap_compose. apply list_fmap_ext. intros i kv Hkv. simpl. f_equal.
    rewrite Forall_lookup in IH, Hp, Hw. apply (IH i kv Hkv); [|by apply (Hw i)].
    specialize (Hp i kv Hkv). simpl in Hp. by apply andb_true_iff in Hp as [_ ?].
Qed.

Lemma map_indexed_fmap {A B E} (f : nat → A → result E B) (h : A → B) l l' :
  map_indexed f l = Ok l' → (∀ j x y, l !! j = Some x → f j x = Ok y → y = h x) → l' = h <$> l.
Proof.
  intros [Hlen H]%map_indexed_Ok Hh. apply list_eq_same_length with (n := length l); [by rewrite length_fmap|done|].
  intros j y y' Hj Hy Hy'. rewrite list_lookup_fmap in Hy'. destruct (l !! j) as [x|] eqn:Hx; [|done]. injection Hy' as <-.
  apply (Hh j x); [done|]. by apply H.
Qed.

(** What [canonicalJson] returns is the text of the normal value. *)
Lemma canonical_text v path depth t :
  json_plain (normal v) = true → canonicalJson v path depth = Ok t → t = json_text (normal v).
Proof.
  revert path depth t. induction v as [| |b|n|s|l IH|fs IH|fs IH|] using jsval_rect'; intros path depth t Hp;
    cbn [canonicalJson]; destruct (MAXIMUM_JSON_DEPTH <? depth); try done.
  - by intros [= <-].
  - by intros [= <-].
  - destruct n as [z| | | |]; simpl in Hp |- *; try done; intros [= <-]; done.
  - by intros [= <-].
  - intros (items & Hi & [= <-])%bind_Ok. simpl in Hp. rewrite forallb_Forall, Forall_fmap in Hp.
    cbn [normal]. rewrite array_text by (by apply Forall_fmap). do 3 f_equal.
    rewrite <- list_fmap_compose. apply (map_indexed_fmap _ _ _ _ Hi). intros j x y Hx Hy.
    rewrite Forall_lookup in IH, Hp. by eapply IH; [|eapply Hp|].
  - intros (members & Hm & [= <-])%bind_Ok. cbn [normal json_plain] in *.
    rewrite (sort_keys_fmap (λ kv, canonicalJson kv.2 (member path kv.1) (S depth))) in Hm.
    rewrite (sort_keys_fmap (λ kv, normal kv.2)) in Hp |- *. rewrite forallb_Forall, Forall_fmap in Hp.
    rewrite object_text.
    2:{ apply Forall_fmap. eapply Forall_impl; [exact Hp|]. intros kv [_ ?]%andb_true_iff. done. }
    do 3 f_equal. rewrite <- list_fmap_compose. rewrite (map_indexed_fmap _ (λ kr : string * result canonical_error string, quote kr.1 +:+ ":" +:+ match kr.2 with Ok t => t | Err _ => "" end) _ _ Hm).
    2:{ intros j [k r] y _. simpl. intros (t & -> & [= <-])%bind_Ok. done. }
    rewrite <- list_fmap_compose. apply list_fmap_ext. intros j kv Hkv. simpl. unfold member_text. simpl. do 2 f_equal.
    assert (kv ∈ fs) as Hin by (rewrite <- (sort_keys_perm fs); by eapply list_elem_of_lookup_2).
    apply map_indexed_Ok in Hm as [Hlen Hm]. rewrite length_fmap in Hlen.
    assert (j < length members) as [y Hy]%lookup_lt_is_Some by (rewrite <- Hlen; by eapply lookup_lt_Some).
    specialize (Hm j (kv.1, canonicalJson kv.2 (member path kv.1) (S depth)) y). rewrite list_lookup_fmap, Hkv in Hm.
    specialize (Hm eq_refl Hy). simpl in Hm. apply bind_Ok in Hm as (t & Ht & _). rewrite Ht.
    rewrite Forall_forall in IH. rewrite Forall_lookup in Hp. specialize (Hp j kv Hkv). simpl in Hp.
    apply andb_true_iff in Hp as [_ Hp]. by rewrite (IH kv Hin _ _ _ Hp Ht).
Qed.
End Normal.

(** Parameters whose canonical text stands for them: JSON in well-formed strings,
    with distinct keys and numbers whose text is read as themselves. *)
Definition request_ok (method : string) (params : jsval) : Prop :=
  utf8_valid method = true ∧ json_plain (normal params) = true ∧ well_keyed params = true.

Lemma request_text method params t :
  request_ok method params → encodeCanonicalRequest method params = Ok t →
  t = json_text (request_value method (normal params)) ∧
  json_parse t = Some (request_value method (enumerated (normal params))).
Proof.
  intros (Hm & Hp & _) H. apply canonical_text in H; [|simpl; by rewrite Hm, Hp]. subst t.
  change (normal (request_value method params)) with (request_value method (normal params)). split; [done|].
  rewrite json_parse_plain; [done|]. simpl. by rewrite Hm, Hp.
Qed.


(** The order in which the fields were set does not matter. *)
Lemma normal_reordered (fs gs : fields) :
  NoDup fs.*1 → Forall (λ k, utf8_valid k = true) fs.*1 → fs ≡ₚ gs → normal (JObj fs) = normal (JObj gs).
Proof.
  intros Hn Hv Hp. cbn [normal]. f_equal. apply sort_keys_unique; rewrite ?normal_keys; [done|by apply Forall_forall|].
  by apply fmap_Permutation.
Qed.

