(* ===== verification/JsMap.v ===== *)
(** [Map] of the language: keys in insertion order, each once. *)
From stdpp Require Import base list.
From Stdlib Require Import Lia.
From S2P Require Import Prelude.

Section JsMap.
Context {K V : Type} `{EqDecision K}.
Implicit Types m : list (K * V).

(** [m.get(k)] *)
Fixpoint map_get (k : K) m : option V :=
  match m with
  | [] => None
  | (k', v) :: m' => if bool_decide (k' = k) then Some v else map_get k m'
  end.

(** [m.has(k)] *)
Definition map_has (k : K) m : bool := match map_get k m with Some _ => true | None => false end.

(** [m.set(k, v)] *)
Fixpoint map_set (k : K) (v : V) m : list (K * V) :=
  match m with
  | [] => [(k, v)]
  | (k', v') :: m' => if bool_decide (k' = k) then (k', v) :: m' else (k', v') :: map_set k v m'
  end.

(** [m.delete(k)] *)
Definition map_delete (k : K) m : list (K * V) := filter (λ kv, kv.1 ≠ k) m.

(** [[...m.values()]] *)
Definition map_values m : list V := m.*2.

Definition map_ok m : Prop := NoDup m.*1.

Lemma map_get_None k m : map_get k m = None ↔ k ∉ m.*1.
Proof.
  induction m as [|[k' v] m IH]; simpl; [split; [intros _; apply not_elem_of_nil | done]|].
  rewrite not_elem_of_cons. case_bool_decide; [naive_solver|]. rewrite IH. naive_solver.
Qed.

Lemma map_get_Some_elem k v m : map_get k m = Some v → (k, v) ∈ m.
Proof.
  induction m as [|[k' v'] m IH]; simpl; [done|]. case_bool_decide; [|by right; auto].
  intros [= ->]. subst. by left.
Qed.

Lemma map_elem_get k v m : map_ok m → (k, v) ∈ m → map_get k m = Some v.
Proof.
  unfold map_ok. induction m as [|[k' v'] m IH]; simpl; [by intros _ ?%elem_of_nil|].
  intros [Hk Hnd]%NoDup_cons [[= -> ->] | Hin]%elem_of_cons; [by rewrite bool_decide_true|].
  rewrite bool_decide_false; [auto|]. intros ->. apply Hk. by apply (list_elem_of_fmap_2 fst) in Hin.
Qed.

Lemma map_has_spec k m : map_has k m = true ↔ k ∈ m.*1.
Proof.
  unfold map_has. destruct (map_get k m) as [v|] eqn:E.
  - split; [|done]. intros _. apply map_get_Some_elem in E. by apply (list_elem_of_fmap_2 fst) in E.
  - split; [done|]. by apply map_get_None in E.
Qed.

Lemma map_has_false k m : map_has k m = false ↔ k ∉ m.*1.
Proof. rewrite <- not_true_iff_false, map_has_spec. done. Qed.

Lemma map_get_set k k' v m : map_get k' (map_set k v m) = if bool_decide (k = k') then Some v else map_get k' m.
Proof.
  induction m as [|[a b] m IH]; simpl; [done|].
  destruct (bool_decide_reflect (a = k)) as [->|Hak]; simpl; [by case_bool_decide|].
  destruct (bool_decide_reflect (a = k')) as [->|Hak']; [by rewrite bool_decide_false|done].
Qed.

Lemma map_set_new k v m : k ∉ m.*1 → map_set k v m = m ++ [(k, v)].
Proof.
  induction m as [|[a b] m IH]; simpl; [done|]. intros [? ?]%not_elem_of_cons.
  rewrite bool_decide_false by congruence. f_equal. auto.
Qed.

Lemma map_set_keys k v m : k ∈ m.*1 → (map_set k v m).*1 = m.*1.
Proof.
  induction m as [|[a b] m IH]; simpl; [by intros ?%elem_of_nil|].
  case_bool_decide; [done|]. simpl. intros [->|?]%elem_of_cons; [done|]. f_equal. auto.
Qed.

Lemma map_set_ok k v m : map_ok m → map_ok (map_set k v m).
Proof.
  unfold map_ok. destruct (decide (k ∈ m.*1)).
  - by rewrite map_set_keys.
  - intros H. rewrite map_set_new by done. rewrite fmap_app. apply NoDup_app. split_and!; [done| |].
    + intros x Hx Hx'. simpl in Hx'. apply list_elem_of_singleton in Hx' as ->. done.
    + apply NoDup_singleton.
Qed.

Lemma map_set_same k v m : map_get k m = Some v → map_set k v m = m.
Proof.
  induction m as [|[k' v'] m IH]; [done|]. simpl. case_bool_decide; [by intros [= ->]|]. intros ?. f_equal. auto.
Qed.

Lemma map_get_delete k k' m : map_get k' (map_delete k m) = if bool_decide (k = k') then None else map_get k' m.
Proof.
  unfold map_delete. induction m as [|[a b] m IH]; simpl; [by case_bool_decide|].
  rewrite filter_cons. simpl. destruct (decide (a ≠ k)) as [Hak|Hak]; simpl; rewrite IH.
  - destruct (bool_decide_reflect (a = k')) as [->|]; [by rewrite bool_decide_false|done].
  - assert (a = k) as -> by (by destruct (decide (a = k))). by case_bool_decide.
Qed.

Lemma map_delete_ok k m : map_ok m → map_ok (map_delete k m).
Proof.
  unfold map_ok, map_delete. intros H. eapply sublist_NoDup; [exact H|].
  apply fmap_sublist, sublist_filter.
Qed.
End JsMap.

(** Setting a key of a map that tabulates [g] by the key [f]. *)
Lemma map_set_tabulated {A K V} `{EqDecision K} (f : A → K) (g : A → V) l k v :
  NoDup (f <$> l) → k ∈ f <$> l →
  map_set k v ((λ y, (f y, g y)) <$> l) = (λ y, (f y, if decide (f y = k) then v else g y)) <$> l.
Proof.
  induction l as [|y l IH]; simpl; [by intros _ ?%elem_of_nil|].
  intros [Hy Hnd]%NoDup_cons Hk. destruct (bool_decide_reflect (f y = k)) as [E|E].
  - f_equal; [by rewrite decide_True|]. apply list_fmap_ext. intros i z Hz.
    rewrite decide_False; [done|]. intros Hzk. apply Hy. rewrite E, <- Hzk.
    apply list_elem_of_fmap. exists z. split; [done|]. by eapply list_elem_of_lookup_2.
  - rewrite decide_False by done. f_equal. apply IH; [done|]. apply elem_of_cons in Hk as [->|]; done.
Qed.
#[export] Hint Resolve map_set_ok map_delete_ok : axl.
