(* ===== verification/WireTables.v ===== *)
(** protocol/src/wire.ts: the tables of the protocol: its methods, the mutations that
    carry an idempotency key, the capabilities methods need and the error codes they
    may answer with. *)
From stdpp Require Import base list sets strings.
From S2P Require Import Prelude Text JsMap.

(** ** Methods *)

Definition RPC_METHODS : list string :=
  ["daemon.info"; "connection.initialize"; "connection.ping"; "request.cancel"; "command.list"; "provider.list";
   "provider.catalog.refresh"; "provider.auth.status"; "provider.auth.login"; "provider.auth.logout";
   "session.create"; "session.resume"; "session.list"; "session.history"; "session.ack"; "session.unsubscribe";
   "session.fork"; "session.clone"; "session.export"; "session.import"; "session.send"; "session.steer";
   "session.followUp"; "session.interruptAndDeliver"; "session.compact"; "session.queue.enqueue";
   "session.queue.requeue"; "session.shell"; "session.interrupt"; "session.reload"; "session.configure";
   "session.interaction.respond"; "session.subscribe"; "session.workspace.list"; "session.workspace.read";
   "session.workspace.status"; "session.workspace.diff"; "session.workspace.checkpoint"; "session.blob.start";
   "session.blob.chunk"; "session.blob.commit"; "session.blob.abort"; "session.blob.read"; "session.dispose";
   "session.rename"; "session.delete"].

Definition RETRYABLE_MUTATION_METHODS : list string :=
  ["session.create"; "session.fork"; "session.clone"; "session.rename"; "session.delete"; "session.import";
   "session.send"; "session.interruptAndDeliver"; "session.queue.enqueue"; "session.queue.requeue";
   "session.interrupt"; "session.reload"; "session.configure"; "session.interaction.respond"; "session.dispose"].
Definition isRetryableMutationMethod (m : string) : bool := bool_decide (m ∈ RETRYABLE_MUTATION_METHODS).

(** The capability a connection must have been granted to call a method. *)
Definition requiredCapability (method : string) : option string :=
  if bool_decide (method ∈ ["daemon.info"; "connection.initialize"; "connection.ping"; "request.cancel"; "session.history";
                            "session.ack"; "session.unsubscribe"]) then None
  else if String.eqb method "session.send" then Some "session.send.prompt"
  else if String.eqb method "session.followUp" then Some "session.follow_up"
  else if String.eqb method "session.interruptAndDeliver" then Some "session.interrupt_deliver"
  else Some method.

(** ** Error codes *)

Definition RPC_ERROR_CODES : list string :=
  ["daemon_stopping"; "bad_request"; "unsupported_version"; "unsupported_capability"; "not_initialized";
   "connection_already_initialized"; "unauthorized"; "forbidden"; "rate_limited"; "frame_too_large"; "cancelled";
   "internal_error"; "invalid_cwd"; "invalid_idempotency_key"; "artifact_exists"; "invalid_artifact";
   "idempotency_conflict"; "unknown_session"; "corrupt_session"; "event_migration_required"; "operation_active";
   "operation_inactive"; "unknown_queue_item"; "queue_not_paused"; "invalid_fork_point"; "empty_session";
   "unknown_interaction"; "interaction_already_resolved"; "unknown_subscription"; "unknown_cursor";
   "snapshot_required"; "workspace_unavailable"; "workspace_changed"; "invalid_path"; "path_denied"; "symlink_escape";
   "not_found"; "not_a_file"; "unsupported_file_type"; "unsupported_filename_encoding"; "binary_file";
   "invalid_encoding"; "content_too_large"; "not_git_repository"; "git_unavailable"; "git_timeout";
   "git_output_too_large"; "unsupported_git_state"; "repository_changed"; "checkpoint_unavailable";
   "checkpoint_too_large"; "checkpoint_corrupt"; "invalid_media_type"; "invalid_blob_name"; "invalid_blob_chunk";
   "blob_too_large"; "too_many_uploads"; "unknown_blob_upload"; "blob_offset_mismatch"; "blob_size_mismatch";
   "blob_write_failed"; "invalid_image"; "blob_not_owned"; "blob_missing"; "blob_corrupt"; "invalid_blob_range";
   "blob_read_failed"; "provider_not_found"; "provider_disabled"; "model_not_found"; "model_unavailable";
   "authentication_required"; "authentication_failed"; "authentication_unavailable"; "catalog_refresh_unsupported";
   "catalog_refresh_failed"; "entitlement_required"; "entitlement_exhausted"; "region_required"; "region_unsupported";
   "provider_configuration_required"].
Definition PRE_RPC_ERROR_CODES : list string :=
  ["daemon_stopping"; "bad_request"; "frame_too_large"].
Definition UNIVERSAL_RPC_ERROR_CODES : list string :=
  ["daemon_stopping"; "bad_request"; "not_initialized"; "unsupported_capability"; "rate_limited"; "internal_error";
   "cancelled"].

Definition SESSION_BASE_ERRORS : list string :=
  ["unknown_session"; "event_migration_required"].
Definition MUTATION_ERRORS : list string :=
  ["invalid_idempotency_key"; "idempotency_conflict"].
Definition WORKSPACE_BASE_ERRORS : list string :=
  SESSION_BASE_ERRORS ++ ["workspace_unavailable"; "workspace_changed"].
Definition GIT_ERRORS : list string :=
  ["not_git_repository"; "git_unavailable"; "git_timeout"; "git_output_too_large"; "unsupported_git_state";
   "unsupported_filename_encoding"].
Definition CHECKPOINT_ERRORS : list string :=
  ["checkpoint_unavailable"; "checkpoint_too_large"; "checkpoint_corrupt"].

Definition RPC_METHOD_ERROR_CODES : list (string * list string) :=
  [("daemon.info", []);
  ("connection.initialize", ["unsupported_version"; "connection_already_initialized"; "unauthorized"; "forbidden"]);
  ("connection.ping", []);
  ("request.cancel", []);
  ("command.list", []);
  ("provider.list", ["provider_not_found"; "provider_disabled"; "catalog_refresh_failed"]);
  ("provider.catalog.refresh", ["provider_not_found"; "provider_disabled"; "catalog_refresh_unsupported";
     "catalog_refresh_failed"; "authentication_required"; "authentication_failed"; "entitlement_required";
     "entitlement_exhausted"; "region_required"; "region_unsupported"; "provider_configuration_required"]);
  ("provider.auth.status", ["provider_not_found"; "provider_disabled"; "authentication_failed"]);
  ("provider.auth.login", ["provider_not_found"; "provider_disabled"; "authentication_required";
     "authentication_unavailable"; "authentication_failed"; "region_required"; "region_unsupported";
     "provider_configuration_required"]);
  ("provider.auth.logout", ["provider_not_found"; "provider_disabled"; "authentication_unavailable";
     "authentication_failed"]);
  ("session.create", ["invalid_cwd"] ++ MUTATION_ERRORS ++ ["corrupt_session"; "content_too_large";
     "provider_not_found"; "provider_disabled"; "model_not_found"; "model_unavailable"; "authentication_required";
     "authentication_failed"; "entitlement_required"; "entitlement_exhausted"; "region_required";
     "region_unsupported"; "provider_configuration_required"]);
  ("session.resume", ["unknown_session"; "corrupt_session"; "event_migration_required"; "provider_not_found";
     "provider_disabled"; "model_not_found"; "model_unavailable"; "authentication_required"; "authentication_failed";
     "entitlement_required"; "entitlement_exhausted"; "region_required"; "region_unsupported";
     "provider_configuration_required"]);
  ("session.list", ["invalid_cwd"; "unknown_cursor"]);
  ("session.history", ["unknown_cursor"; "snapshot_required"; "event_migration_required"]);
  ("session.ack", ["unknown_subscription"; "unknown_cursor"; "snapshot_required"]);
  ("session.unsubscribe", ["unknown_subscription"]);
  ("session.fork", SESSION_BASE_ERRORS ++ ["corrupt_session"; "operation_active"; "invalid_fork_point"] ++
     MUTATION_ERRORS ++ ["content_too_large"]);
  ("session.clone", SESSION_BASE_ERRORS ++ ["corrupt_session"; "operation_active"; "empty_session"] ++ MUTATION_ERRORS
     ++ ["content_too_large"]);
  ("session.rename", SESSION_BASE_ERRORS ++ ["operation_active"] ++ MUTATION_ERRORS ++ ["content_too_large"]);
  ("session.delete", SESSION_BASE_ERRORS ++ ["operation_active"] ++ MUTATION_ERRORS);
  ("session.export", SESSION_BASE_ERRORS ++ ["operation_active"; "invalid_path"; "artifact_exists"; "blob_missing";
     "blob_corrupt"]);
  ("session.import", ["invalid_cwd"; "invalid_path"; "not_found"; "invalid_artifact"; "corrupt_session";
     "blob_missing"; "blob_corrupt"; "content_too_large"] ++ MUTATION_ERRORS);
  ("session.send", SESSION_BASE_ERRORS ++ ["operation_active"] ++ MUTATION_ERRORS ++ ["blob_not_owned";
     "blob_missing"; "blob_corrupt"; "content_too_large"]);
  ("session.steer", SESSION_BASE_ERRORS ++ ["operation_inactive"; "blob_not_owned"; "blob_missing"; "blob_corrupt"]);
  ("session.followUp", SESSION_BASE_ERRORS ++ ["operation_inactive"; "blob_not_owned"; "blob_missing";
     "blob_corrupt"]);
  ("session.interruptAndDeliver", SESSION_BASE_ERRORS ++ ["operation_active"] ++ MUTATION_ERRORS ++ ["blob_not_owned";
     "blob_missing"; "blob_corrupt"; "content_too_large"]);
  ("session.compact", SESSION_BASE_ERRORS ++ ["operation_active"; "content_too_large"]);
  ("session.queue.enqueue", SESSION_BASE_ERRORS ++ MUTATION_ERRORS ++ ["blob_not_owned"; "blob_missing";
     "blob_corrupt"; "content_too_large"]);
  ("session.queue.requeue", SESSION_BASE_ERRORS ++ ["unknown_queue_item"; "queue_not_paused"] ++ MUTATION_ERRORS ++
     ["content_too_large"]);
  ("session.shell", SESSION_BASE_ERRORS ++ ["operation_active"; "idempotency_conflict"; "content_too_large"]);
  ("session.interrupt", SESSION_BASE_ERRORS ++ MUTATION_ERRORS);
  ("session.reload", SESSION_BASE_ERRORS ++ ["corrupt_session"; "operation_active"] ++ MUTATION_ERRORS ++
     ["content_too_large"; "provider_not_found"; "provider_disabled"; "model_not_found"; "model_unavailable";
     "authentication_required"; "authentication_failed"; "entitlement_required"; "entitlement_exhausted";
     "region_required"; "region_unsupported"; "provider_configuration_required"]);
  ("session.configure", SESSION_BASE_ERRORS ++ ["corrupt_session"; "operation_active"] ++ MUTATION_ERRORS ++
     ["content_too_large"; "provider_not_found"; "provider_disabled"; "model_not_found"; "model_unavailable";
     "authentication_required"; "authentication_failed"; "entitlement_required"; "entitlement_exhausted";
     "region_required"; "region_unsupported"; "provider_configuration_required"]);
  ("session.interaction.respond", SESSION_BASE_ERRORS ++ ["unknown_interaction"; "interaction_already_resolved"] ++
     MUTATION_ERRORS ++ ["content_too_large"]);
  ("session.subscribe", SESSION_BASE_ERRORS ++ ["snapshot_required"]);
  ("session.workspace.list", WORKSPACE_BASE_ERRORS ++ ["invalid_path"; "path_denied"; "symlink_escape"; "not_found";
     "unsupported_file_type"; "unsupported_filename_encoding"]);
  ("session.workspace.read", WORKSPACE_BASE_ERRORS ++ ["invalid_path"; "path_denied"; "symlink_escape"; "not_found";
     "not_a_file"; "unsupported_file_type"; "binary_file"; "invalid_encoding"; "content_too_large"]);
  ("session.workspace.status", WORKSPACE_BASE_ERRORS ++ GIT_ERRORS ++ CHECKPOINT_ERRORS ++ ["path_denied"]);
  ("session.workspace.diff", WORKSPACE_BASE_ERRORS ++ GIT_ERRORS ++ CHECKPOINT_ERRORS ++ ["path_denied";
     "repository_changed"]);
  ("session.workspace.checkpoint", SESSION_BASE_ERRORS ++ ["operation_active"] ++ GIT_ERRORS ++ CHECKPOINT_ERRORS);
  ("session.blob.start", SESSION_BASE_ERRORS ++ ["invalid_media_type"; "invalid_blob_name"; "blob_too_large";
     "too_many_uploads"]);
  ("session.blob.chunk", SESSION_BASE_ERRORS ++ ["unknown_blob_upload"; "invalid_blob_chunk"; "blob_offset_mismatch";
     "blob_size_mismatch"; "blob_write_failed"]);
  ("session.blob.commit", SESSION_BASE_ERRORS ++ ["unknown_blob_upload"; "blob_size_mismatch"; "invalid_image";
     "blob_corrupt"]);
  ("session.blob.abort", SESSION_BASE_ERRORS ++ ["unknown_blob_upload"]);
  ("session.blob.read", SESSION_BASE_ERRORS ++ ["blob_not_owned"; "blob_missing"; "blob_corrupt";
     "invalid_blob_range"; "blob_read_failed"]);
  ("session.dispose", SESSION_BASE_ERRORS ++ MUTATION_ERRORS)].

Definition method_errors (m : string) : list string := default [] (map_get m RPC_METHOD_ERROR_CODES).

Definition RETRYABLE_RPC_ERROR_CODES : list string :=
  ["rate_limited"; "git_timeout"; "too_many_uploads"; "blob_write_failed"; "blob_read_failed"].

Definition isKnownRpcErrorCode (c : string) : bool := bool_decide (c ∈ RPC_ERROR_CODES).
Definition isRpcErrorAllowed (m c : string) : bool :=
  bool_decide (c ∈ UNIVERSAL_RPC_ERROR_CODES) || bool_decide (c ∈ method_errors m).
Definition isRpcErrorRetryable (c : string) : bool := bool_decide (c ∈ RETRYABLE_RPC_ERROR_CODES).

(** ** The tables fit together *)

Section Tables.
Lemma methods_have_errors m : m ∈ RPC_METHODS ↔ m ∈ RPC_METHOD_ERROR_CODES.*1.
Proof.
  split; intros Hm; repeat (apply elem_of_cons in Hm as [->|Hm]; [apply (bool_decide_unpack _); vm_compute; reflexivity|]);
    by apply elem_of_nil in Hm.
Qed.
End Tables.
