(* ===== verification/WireFields.v ===== *)
(** protocol/src/wire.ts: the checks of single fields that the parsers of requests,
    results and messages share, and what makes their proofs short: a field parser
    returns what it was given, so an object built from parsed fields is parsed
    again as it is. *)
From stdpp Require Import base list sets strings pretty.
From Stdlib Require Import ZArith Lia Ascii.
From S2P Require Import Prelude Text JsValue Envelope.

(** ** Fields *)

Definition object (value : jsval) (path : string) : checked fields :=
  match value with
  | JObj fs | JInst fs => Ok fs
  | _ => validationError path "must be an object"
  end.

Definition exact (value : fields) (path : string) (allowed : list string) : checked unit :=
  each (λ key, require (bool_decide (key ∈ allowed)) (invalid (member path key) "is not allowed")) (keys value).

Definition string_ (value : jsval) (path : string) : checked string :=
  match value with
  | JStr s => _ ← refuse (bool_decide (s = "")) (invalid path "must be a non-empty string"); Ok s
  | _ => validationError path "must be a non-empty string"
  end.

Definition nonNegativeInteger (value : jsval) (path : string) : checked number :=
  match value with
  | JNum n =>
      _ ← require (is_safe_integer n && negb (is_negative n)) (invalid path "must be a non-negative safe integer");
      Ok n
  | _ => validationError path "must be a non-negative safe integer"
  end.

Definition positiveInteger (value : jsval) (path : string) : checked number :=
  result ← nonNegativeInteger value path;
  _ ← refuse (int_of result =? 0)%Z (invalid path "must be a positive integer");
  Ok result.

Definition too_long (maximum : Z) : string := "must not exceed " +:+ pretty maximum +:+ " UTF-8 bytes".

Definition boundedString (value : jsval) (path : string) (maximum : Z) : checked string :=
  result ← string_ value path;
  _ ← refuse (maximum <? utf8_length result)%Z (invalid path (too_long maximum));
  Ok result.

Definition sessionTitle (value : jsval) (path : string) : checked string :=
  title ← boundedString value path 256;
  _ ← refuse (bool_decide (title = "") || negb (is_trimmed title) || has_control title)
        (invalid path "must be non-empty trimmed text without control characters");
  Ok title.

Definition boundedText (value : jsval) (path : string) (maximum : Z) : checked string :=
  match value with
  | JStr s => _ ← refuse (maximum <? utf8_length s)%Z (invalid path (too_long maximum)); Ok s
  | _ => validationError path "must be a string"
  end.

Definition stringArray (value : jsval) (path : string) (maximum : nat) : checked (list string) :=
  let e := invalid path ("must contain at most " +:+ pretty maximum +:+ " strings") in
  match value with
  | JArr l =>
      _ ← refuse (maximum <? length l) e;
      result ← map_indexed (λ i item, boundedString item (element path i) 128) l;
      _ ← require (bool_decide (NoDup result)) (invalid path "must not contain duplicates");
      Ok result
  | _ => Err e
  end.

(** [/^[a-z][a-z0-9]*(?:[._-][a-z0-9]+)*$/] *)
Definition protocol_id : regex := eventTypePattern.

Definition capabilityArray (value : jsval) (path : string) : checked (list string) :=
  capabilities ← stringArray value path 128;
  _ ← each_indexed (λ i capability, require (rmatch protocol_id capability)
                                      (invalid (element path i) "must be a protocol identifier")) capabilities;
  Ok capabilities.

(** [/^[0-9a-f]{64}$/] *)
Definition digest : regex := RTimes 64 hex.

Definition sha256_ (value : jsval) (path : string) : checked string :=
  result ← string_ value path;
  _ ← require (rmatch digest result) (invalid path "must be a lowercase SHA-256 digest");
  Ok result.

(** [/^[a-z][a-z0-9]*(?:-[a-z0-9]+)*$/] *)
Definition command_name : regex :=
  (RClass is_lower ⋅ RStar lower_alnum ⋅ RStar (RChar "-"%char ⋅ RPlus lower_alnum))%regex.

Definition commandName (value : jsval) (path : string) : checked string :=
  name ← boundedString value path 64;
  _ ← require (rmatch command_name name) (invalid path "must be a lowercase command name");
  Ok name.

(** [typeof value !== "boolean"] *)
Definition is_bool (v : jsval) : bool := match v with JBool _ => true | _ => false end.

(** [value === undefined ? undefined : parse(value)] *)
Definition optionally {A} (parse : jsval → checked A) (value : jsval) : checked (option A) :=
  if is_undef value then Ok None else a ← parse value; Ok (Some a).

(** [Array.isArray(value) && value.length <= maximum] *)
Definition array_within (value : jsval) (maximum : nat) (e : ProtocolValidationError) : checked (list jsval) :=
  match value with
  | JArr l => _ ← refuse (maximum <? length l) e; Ok l
  | _ => Err e
  end.

(** ** Results as objects

    [{ a, ...(b === undefined ? {} : { b }) }]: the members in order, those that are
    left out as [None]. *)
Abbreviation members := (list (string * option jsval)).
Definition present (ms : members) : fields := omap (λ m, (λ v, (m.1, v)) <$> m.2) ms.
Definition build (ms : members) : jsval := JObj (present ms).

(** [record.k] of a value that is an object. *)
Definition field (k : string) (v : jsval) : jsval := match v with JObj fs | JInst fs => get k fs | _ => JUndef end.

(** A value that may be [undefined]. *)
Definition of_opt (o : option jsval) : jsval := default JUndef o.
Definition to_opt (v : jsval) : option jsval := if is_undef v then None else Some v.

Fixpoint member_of (k : string) (ms : members) : option jsval :=
  match ms with
  | [] => None
  | (k', o) :: ms' => if String.eqb k' k then o else member_of k ms'
  end.

Section Build.
Lemma present_keys ms k : k ∈ keys (present ms) → k ∈ ms.*1.
Proof.
  unfold keys. induction ms as [|[k' [v|]] ms IH]; simpl; [done|..]; intros Hk.
  - apply elem_of_cons in Hk as [->|Hk]; [by left|right; auto].
  - right. auto.
Qed.

Lemma get_present k ms : NoDup ms.*1 → get k (present ms) = of_opt (member_of k ms).
Proof.
  induction ms as [|[k' o] ms IH]; [done|]. intros [Hk Hnd]%NoDup_cons. simpl in *.
  destruct o as [v|]; simpl; destruct (String.eqb_spec k' k) as [->|E].
  - by rewrite bool_decide_true.
  - rewrite bool_decide_false by done. auto.
  - rewrite get_has_own; [done|]. apply bool_decide_false. intros Hin%present_keys. done.
  - auto.
Qed.

Lemma exact_present ms path allowed :
  forallb (λ k, bool_decide (k ∈ allowed)) ms.*1 = true → exact (present ms) path allowed = Ok tt.
Proof.
  intros H. apply each_elem_Ok, Forall_forall. intros k Hk%present_keys.
  rewrite forallb_forall in H. by eapply bool_decide_eq_true, H, list_elem_of_In.
Qed.

Lemma of_opt_to_opt v : of_opt (to_opt v) = v.
Proof. by destruct v. Qed.

Lemma of_opt_Some v : of_opt (Some v) = v.
Proof. done. Qed.
End Build.

(** ** A field parser returns what it was given *)

Section Returns.
Lemma wire_object_Ok v path fs : object v path = Ok fs ↔ v = JObj fs ∨ v = JInst fs.
Proof. destruct v; simpl; naive_solver. Qed.

Lemma string_Ok v path s : string_ v path = Ok s → v = JStr s.
Proof. destruct v; try done. simpl. intros H. by inv_ok. Qed.

Lemma nonNegativeInteger_Ok v path n : nonNegativeInteger v path = Ok n → v = JNum n.
Proof. destruct v; try done. simpl. intros H. by inv_ok. Qed.

Lemma positiveInteger_Ok v path n : positiveInteger v path = Ok n → v = JNum n.
Proof. unfold positiveInteger. intros H. inv_ok. by eapply nonNegativeInteger_Ok. Qed.

Lemma boundedString_Ok v path m s : boundedString v path m = Ok s → v = JStr s.
Proof. unfold boundedString. intros H. inv_ok. by eapply string_Ok. Qed.

Lemma sessionTitle_Ok v path s : sessionTitle v path = Ok s → v = JStr s.
Proof. unfold sessionTitle. intros H. apply bind_Ok in H as (t & Ht & H). apply bind_Ok in H as (u & _ & [= <-]). by eapply boundedString_Ok. Qed.

Lemma boundedText_Ok v path m s : boundedText v path m = Ok s → v = JStr s.
Proof. destruct v; try done. simpl. intros H. by inv_ok. Qed.

Lemma sha256_Ok v path s : sha256_ v path = Ok s → v = JStr s.
Proof. unfold sha256_. intros H. inv_ok. by eapply string_Ok. Qed.

Lemma commandName_Ok v path s : commandName v path = Ok s → v = JStr s.
Proof. unfold commandName. intros H. inv_ok. by eapply boundedString_Ok. Qed.

Lemma id_Ok v path s : parseId v path = Ok s → v = JStr s.
Proof. by intros [? _]%parseId_Ok. Qed.

(** Mapping a parser that returns what it was given. *)
Lemma map_returned {A} (f : nat → jsval → checked A) (enc : A → jsval) l l' :
  (∀ i v a, f i v = Ok a → v = enc a) → map_indexed f l = Ok l' → l = enc <$> l'.
Proof.
  intros Hf [Hlen H]%map_indexed_Ok. apply list_eq. intros i. rewrite list_lookup_fmap.
  destruct (l !! i) as [v|] eqn:Ev.
  - destruct (lookup_lt_is_Some_2 l' i) as [a Ha]; [rewrite <- Hlen; by eapply lookup_lt_Some|].
    rewrite Ha. simpl. f_equal. eapply Hf, H; done.
  - apply lookup_ge_None in Ev. by rewrite (proj2 (lookup_ge_None l' i)) by lia.
Qed.

(** Mapping a parser that accepts its results. *)
Lemma map_again {A} (f : nat → jsval → checked A) (enc : A → jsval) l l' :
  (∀ i v a, f i v = Ok a → f i (enc a) = Ok a) → map_indexed f l = Ok l' → map_indexed f (enc <$> l') = Ok l'.
Proof.
  intros Hf [Hlen H]%map_indexed_Ok. apply map_indexed_Ok. split; [by rewrite length_fmap|].
  intros j x y. rewrite list_lookup_fmap. intros (a & Ha & ->)%fmap_Some Hy. rewrite Hy in *. simplify_eq.
  destruct (lookup_lt_is_Some_2 l j) as [v Hv]; [rewrite Hlen; by eapply lookup_lt_Some|]. eauto.
Qed.

Lemma stringArray_Ok v path m l : stringArray v path m = Ok l → v = JArr (JStr <$> l).
Proof.
  destruct v; try done. unfold stringArray. intros H. apply bind_Ok in H as (u & _ & H).
  apply bind_Ok in H as (r & Hr & H). apply bind_Ok in H as (u' & _ & [= <-]). f_equal.
  eapply map_returned, Hr. intros i v a. by apply boundedString_Ok.
Qed.

Lemma capabilityArray_Ok v path l : capabilityArray v path = Ok l → v = JArr (JStr <$> l).
Proof.
  unfold capabilityArray. intros H. apply bind_Ok in H as (r & Hr & H). apply bind_Ok in H as (u & _ & [= <-]).
  by eapply stringArray_Ok.
Qed.

Lemma array_within_Ok v m e l : array_within v m e = Ok l ↔ v = JArr l ∧ length l ≤ m.
Proof.
  destruct v as [| | | | |l'| | |]; simpl; try naive_solver. rewrite bind_Ok. setoid_rewrite refuse_Ok. split.
  - intros (u & Hl & [= <-]). apply Nat.ltb_ge in Hl. done.
  - intros [[= <-] Hl]. exists tt. by rewrite (proj2 (Nat.ltb_ge _ _)).
Qed.

Lemma array_within_again {A} (enc : A → jsval) (l : list jsval) (l' : list A) m e :
  length l = length l' → length l ≤ m → array_within (JArr (enc <$> l')) m e = Ok (enc <$> l').
Proof. intros Hl Hm. apply array_within_Ok. split; [done|]. rewrite length_fmap. lia. Qed.

(** An optional field. *)
Lemma optionally_Ok {A} (p : jsval → checked A) (enc : A → jsval) v o :
  (∀ w a, p w = Ok a → w = enc a) → optionally p v = Ok o → v = of_opt (enc <$> o).
Proof.
  intros Hp. unfold optionally. destruct (is_undef v) eqn:Eu; [intros [= <-]; by destruct v|].
  intros (a & Ha & [= <-])%bind_Ok. by apply Hp.
Qed.

Lemma optionally_again {A} (p : jsval → checked A) (enc : A → jsval) v o :
  (∀ a, p v = Ok a → p (enc a) = Ok a ∧ is_undef (enc a) = false) →
  optionally p v = Ok o → optionally p (of_opt (enc <$> o)) = Ok o.
Proof.
  intros Hp. unfold optionally. destruct (is_undef v) eqn:Eu; [by intros [= <-]|].
  intros (a & Ha & [= <-])%bind_Ok. destruct (Hp a Ha) as [Ha' Hu]. cbn. by rewrite Hu, Ha'.
Qed.
End Returns.

(** ** Parsers that accept what they return *)

(** A parser of objects: its result is an object, and it accepts it under the same path. *)
Class Stable (p : jsval → string → checked jsval) : Prop :=
  stable_again v path w : p v path = Ok w → p w path = Ok w ∧ is_undef w = false.

Lemma stable_again_1 p `{Stable p} v path w : p v path = Ok w → p w path = Ok w.
Proof. by intros [? _]%stable_again. Qed.

Lemma optionally_stable p `{Stable p} path v o :
  optionally (λ v, p v path) v = Ok o → optionally (λ v, p v path) (of_opt o) = Ok o.
Proof.
  intros Ho. pose proof (optionally_again (λ v, p v path) id v o) as Ha. rewrite option_fmap_id in Ha.
  apply Ha; [|done]. intros a. apply stable_again.
Qed.

Lemma array_again v m e l (l' : list jsval) :
  array_within v m e = Ok l → length l = length l' → array_within (JArr l') m e = Ok l'.
Proof. intros [_ Hm]%array_within_Ok Hl. apply array_within_Ok. split; [done|lia]. Qed.

Lemma map_stable (f : nat → jsval → checked jsval) l l' :
  (∀ i v w, f i v = Ok w → f i w = Ok w) → map_indexed f l = Ok l' → map_indexed f l' = Ok l'.
Proof. intros Hf H. rewrite <- (list_fmap_id l') at 1. by eapply (map_again f id). Qed.

Lemma map_length {A} (f : nat → jsval → checked A) l l' : map_indexed f l = Ok l' → length l = length l'.
Proof. by intros [? _]%map_indexed_Ok. Qed.

(** Opens a run of a parser that returned. *)
Ltac open_binds H :=
  repeat match type of H with
  | rbind _ _ = Ok _ =>
      let x := fresh "x" in let Hx := fresh "H" in apply bind_Ok in H as (x & Hx & H)
  end.
Ltac open_parser H := open_binds H; try (injection H as <-).

(** The value of a field that was parsed, where it is known. *)
Ltac returned_by H L :=
  let E := fresh "E" in pose proof H as E; apply L in E; rewrite E in *.
Ltac returned_opt H enc L :=
  let E := fresh "E" in pose proof H as E;
  eapply (optionally_Ok _ enc) in E; [rewrite E in * | intros ? ?; apply L].
Ltac returned :=
  repeat match goal with
  | H : parseSessionId (get _ _) _ = Ok _ |- _ => returned_by H id_Ok
  | H : parseOperationId (get _ _) _ = Ok _ |- _ => returned_by H id_Ok
  | H : parseEventId (get _ _) _ = Ok _ |- _ => returned_by H id_Ok
  | H : string_ (get _ _) _ = Ok _ |- _ => returned_by H string_Ok
  | H : boundedString (get _ _) _ _ = Ok _ |- _ => returned_by H boundedString_Ok
  | H : boundedText (get _ _) _ _ = Ok _ |- _ => returned_by H boundedText_Ok
  | H : sessionTitle (get _ _) _ = Ok _ |- _ => returned_by H sessionTitle_Ok
  | H : sha256_ (get _ _) _ = Ok _ |- _ => returned_by H sha256_Ok
  | H : commandName (get _ _) _ = Ok _ |- _ => returned_by H commandName_Ok
  | H : nonNegativeInteger (get _ _) _ = Ok _ |- _ => returned_by H nonNegativeInteger_Ok
  | H : positiveInteger (get _ _) _ = Ok _ |- _ => returned_by H positiveInteger_Ok
  | H : stringArray (get _ _) _ _ = Ok _ |- _ => returned_by H stringArray_Ok
  | H : capabilityArray (get _ _) _ = Ok _ |- _ => returned_by H capabilityArray_Ok
  | H : optionally (λ v, parseSessionId v _) (get _ _) = Ok _ |- _ => returned_opt H JStr id_Ok
  | H : optionally (λ v, parseOperationId v _) (get _ _) = Ok _ |- _ => returned_opt H JStr id_Ok
  | H : optionally (λ v, parseEventId v _) (get _ _) = Ok _ |- _ => returned_opt H JStr id_Ok
  | H : optionally (λ v, string_ v _) (get _ _) = Ok _ |- _ => returned_opt H JStr string_Ok
  | H : optionally (λ v, boundedString v _ _) (get _ _) = Ok _ |- _ => returned_opt H JStr boundedString_Ok
  | H : optionally (λ v, boundedText v _ _) (get _ _) = Ok _ |- _ => returned_opt H JStr boundedText_Ok
  | H : optionally (λ v, sessionTitle v _) (get _ _) = Ok _ |- _ => returned_opt H JStr sessionTitle_Ok
  | H : optionally (λ v, nonNegativeInteger v _) (get _ _) = Ok _ |- _ => returned_opt H JNum nonNegativeInteger_Ok
  | H : optionally (λ v, positiveInteger v _) (get _ _) = Ok _ |- _ => returned_opt H JNum positiveInteger_Ok
  end.

(** The fields of an object that was built, and the checks on them that are known. *)
Ltac built :=
  unfold build, each; cbn [object rbind each_from];
  rewrite ?exact_present by (vm_compute; reflexivity); cbn [rbind];
  rewrite ?get_present by (apply (bool_decide_unpack _); vm_compute; reflexivity);
  cbn [member_of String.eqb Ascii.eqb Bool.eqb]; rewrite ?of_opt_to_opt, ?of_opt_Some.
Ltac known :=
  repeat first
    [ match goal with
      | H : ?m = Ok ?x |- context [rbind ?m _] => rewrite H; cbn [rbind]
      end ].

(** Nested objects and lists of objects. *)
Ltac nested :=
  repeat match goal with
  | H : optionally (λ v, ?p v ?path) (get _ _) = Ok _ |- _ => apply (optionally_stable p path) in H
  | H1 : array_within (get _ _) ?m ?e = Ok ?l, H2 : map_indexed ?f ?l = Ok ?l' |- _ =>
      let L := fresh in
      pose proof (map_length _ _ _ H2) as L; eapply (array_again _ _ _ _ l') in H1; [|exact L]; clear L;
      apply map_stable in H2; [|intros ? ? ?; cbv beta; apply stable_again_1; apply _]
  | H : ?p (get _ _) ?path = Ok ?w |- _ =>
      apply (stable_again_1 p) in H
  end.
Ltac stable_parser p :=
  let v := fresh "v" in let path := fresh "path" in let w := fresh "w" in let H := fresh "H" in
  intros v path w H; unfold p, each in H; cbn [each_from] in H; open_parser H; returned; nested;
  (split; [unfold p; built; known; reflexivity | reflexivity]).
