(* ===== verification/ProviderManagement.v ===== *)
(** protocol/src/provider-management.ts: the parsers of provider inventories,
    catalogue refreshes and authentication states. *)
From stdpp Require Import base list sets strings pretty.
From Stdlib Require Import ZArith Lia Ascii.
From S2P Require Import Prelude Text JsValue Envelope WireFields.

(** ** Tables *)

Definition PROVIDER_ID : regex :=
  (RPlus lower_alnum ⋅ RStar (RChar "-"%char ⋅ RPlus lower_alnum))%regex.
Definition PROTOCOL_ID : regex := eventTypePattern.
Definition AUTH_METHODS : list string := ["environment"; "file"; "oauth"; "ambient"; "keyless"].
Definition LOGIN_METHODS : list string := ["api_key"; "oauth"].
Definition AUTH_PHASES : list string :=
  ["idle"; "authorizing"; "authenticated"; "reauthentication_required"; "logged_out"].
Definition THINKING_LEVELS : list string := ["off"; "minimal"; "low"; "medium"; "high"; "xhigh"; "max"].

Definition PROVIDER_RPC_ERROR_CODES : list string :=
  ["provider_not_found"; "provider_disabled"; "model_not_found"; "model_unavailable"; "authentication_required";
   "authentication_failed"; "authentication_unavailable"; "catalog_refresh_unsupported"; "catalog_refresh_failed";
   "entitlement_required"; "entitlement_exhausted"; "region_required"; "region_unsupported";
   "provider_configuration_required"].
Definition isProviderRpcErrorCode (code : string) : bool := bool_decide (code ∈ PROVIDER_RPC_ERROR_CODES).

(** ** Fields *)

Definition text (value : jsval) (path : string) (maximum : Z) : checked string := boundedString value path maximum.

Definition providerId (value : jsval) (path : string) : checked string :=
  result ← text value path 128;
  _ ← require (rmatch PROVIDER_ID result) (invalid path "must be a provider ID");
  Ok result.

Definition finiteNonNegative (value : jsval) (path : string) : checked number :=
  match value with
  | JNum n =>
      _ ← require (is_finite n && negb (is_negative n)) (invalid path "must be a finite non-negative number");
      Ok n
  | _ => validationError path "must be a finite non-negative number"
  end.

Definition enum_item (path : string) (allowed : list string) (i : nat) (item : jsval) : checked string :=
  match item with
  | JStr s => _ ← require (bool_decide (s ∈ allowed)) (invalid (element path i) "is not supported"); Ok s
  | _ => validationError (element path i) "is not supported"
  end.

Definition uniqueEnumArray (value : jsval) (path : string) (allowed : list string) : checked (list string) :=
  items ← array_within value (length allowed)
            (invalid path ("must contain at most " +:+ pretty (length allowed) +:+ " values"));
  result ← map_indexed (enum_item path allowed) items;
  _ ← require (bool_decide (NoDup result)) (invalid path "must not contain duplicates");
  Ok result.

(** ** Authentication *)

Definition parseProviderAuthenticationStatus (value : jsval) (path : string) : checked jsval :=
  status ← object value path;
  _ ← exact status path ["providerId"; "phase"; "method"; "source"];
  _ ← require (among AUTH_PHASES (get "phase" status)) (invalid (member path "phase") "is not a valid authentication phase");
  _ ← require (is_undef (get "method" status) || among LOGIN_METHODS (get "method" status))
        (invalid (member path "method") "is not a valid login method");
  id ← providerId (get "providerId" status) (member path "providerId");
  source ← optionally (λ v, text v (member path "source") 256) (get "source" status);
  Ok (build [("providerId", Some (JStr id)); ("phase", Some (get "phase" status)); ("method", to_opt (get "method" status));
             ("source", JStr <$> source)]).

(** ** Catalogues *)

Definition parse_catalog_source (value : jsval) (path : string) : checked jsval :=
  candidate ← object value path;
  _ ← exact candidate path ["id"; "kind"; "revision"];
  _ ← require (among ["provider_api"; "entitlement"; "gateway"] (get "kind" candidate))
        (invalid (member path "kind") "is not a valid source kind");
  id ← text (get "id" candidate) (member path "id") 512;
  _ ← require (rmatch PROTOCOL_ID id) (invalid (member path "id") "must be a protocol identifier");
  revision ← optionally (λ v, text v (member path "revision") 512) (get "revision" candidate);
  Ok (build [("id", Some (JStr id)); ("kind", Some (get "kind" candidate)); ("revision", JStr <$> revision)]).

Definition parseCatalogStatus (value : jsval) (path : string) : checked jsval :=
  catalog ← object value path;
  _ ← exact catalog path ["refreshable"; "generation"; "checkedAt"; "updatedAt"; "source"];
  _ ← require (is_bool (get "refreshable" catalog)) (invalid (member path "refreshable") "must be a boolean");
  source ← optionally (λ v, parse_catalog_source v (member path "source")) (get "source" catalog);
  generation ← optionally (λ v, nonNegativeInteger v (member path "generation")) (get "generation" catalog);
  checkedAt ← optionally (λ v, nonNegativeInteger v (member path "checkedAt")) (get "checkedAt" catalog);
  updatedAt ← optionally (λ v, nonNegativeInteger v (member path "updatedAt")) (get "updatedAt" catalog);
  Ok (build [("refreshable", Some (get "refreshable" catalog)); ("generation", JNum <$> generation);
             ("checkedAt", JNum <$> checkedAt); ("updatedAt", JNum <$> updatedAt); ("source", source)]).

Definition parseCost (value : jsval) (path : string) : checked jsval :=
  cost ← object value path;
  _ ← exact cost path ["inputUsdPerMTok"; "outputUsdPerMTok"; "cacheReadUsdPerMTok"; "cacheWriteUsdPerMTok"];
  i ← finiteNonNegative (get "inputUsdPerMTok" cost) (member path "inputUsdPerMTok");
  o ← finiteNonNegative (get "outputUsdPerMTok" cost) (member path "outputUsdPerMTok");
  r ← optionally (λ v, finiteNonNegative v (member path "cacheReadUsdPerMTok")) (get "cacheReadUsdPerMTok" cost);
  w ← optionally (λ v, finiteNonNegative v (member path "cacheWriteUsdPerMTok")) (get "cacheWriteUsdPerMTok" cost);
  Ok (build [("inputUsdPerMTok", Some (JNum i)); ("outputUsdPerMTok", Some (JNum o)); ("cacheReadUsdPerMTok", JNum <$> r);
             ("cacheWriteUsdPerMTok", JNum <$> w)]).

(** ** Models *)

Definition parse_capabilities (value : jsval) (path : string) : checked jsval :=
  capabilities ← object value path;
  _ ← exact capabilities path ["toolUse"; "structuredOutput"; "imageInput"];
  _ ← each (λ field, require (is_bool (get field capabilities)) (invalid (member path field) "must be a boolean"))
        ["toolUse"; "structuredOutput"; "imageInput"];
  Ok (build [("toolUse", Some (get "toolUse" capabilities)); ("structuredOutput", Some (get "structuredOutput" capabilities));
             ("imageInput", Some (get "imageInput" capabilities))]).

Definition check_availability (value : jsval) (path : string) : checked fields :=
  availability ← object value path;
  _ ← exact availability path ["status"; "reason"];
  _ ← require (among ["available"; "preview"; "deprecated"; "unavailable"] (get "status" availability))
        (invalid (member path "status") "is not valid");
  Ok availability.

Definition parse_reason (availability : fields) (path : string) : checked jsval :=
  reason ← optionally (λ v, text v (member path "reason") 2000) (get "reason" availability);
  Ok (build [("status", Some (get "status" availability)); ("reason", JStr <$> reason)]).

Definition parseTextModel (value : jsval) (path : string) : checked jsval :=
  model ← object value path;
  _ ← exact model path ["providerId"; "modelId"; "displayName"; "apiDialect"; "capabilities"; "reasoning";
                        "supportedThinkingLevels"; "contextWindow"; "maxOutputTokens"; "cost"; "availability"];
  capabilities ← parse_capabilities (get "capabilities" model) (member path "capabilities");
  _ ← require (is_bool (get "reasoning" model)) (invalid (member path "reasoning") "must be a boolean");
  status ← check_availability (get "availability" model) (member path "availability");
  id ← providerId (get "providerId" model) (member path "providerId");
  modelId ← text (get "modelId" model) (member path "modelId") 512;
  displayName ← text (get "displayName" model) (member path "displayName") 512;
  apiDialect ← text (get "apiDialect" model) (member path "apiDialect") 128;
  levels ← uniqueEnumArray (get "supportedThinkingLevels" model) (member path "supportedThinkingLevels") THINKING_LEVELS;
  contextWindow ← nonNegativeInteger (get "contextWindow" model) (member path "contextWindow");
  maxOutputTokens ← nonNegativeInteger (get "maxOutputTokens" model) (member path "maxOutputTokens");
  cost ← optionally (λ v, parseCost v (member path "cost")) (get "cost" model);
  availability ← parse_reason status (member path "availability");
  Ok (build [("providerId", Some (JStr id)); ("modelId", Some (JStr modelId)); ("displayName", Some (JStr displayName));
             ("apiDialect", Some (JStr apiDialect)); ("capabilities", Some capabilities);
             ("reasoning", Some (get "reasoning" model)); ("supportedThinkingLevels", Some (JArr (JStr <$> levels)));
             ("contextWindow", Some (JNum contextWindow)); ("maxOutputTokens", Some (JNum maxOutputTokens)); ("cost", cost);
             ("availability", Some availability)]).

(** ** The inventory *)

Definition parse_catalog_error (value : jsval) (path : string) : checked jsval :=
  error ← object value path;
  _ ← exact error path ["code"; "message"; "action"];
  _ ← require (is_str "catalog_failure" (get "code" error)) (invalid (member path "code") "must be catalog_failure");
  _ ← require (among ["refresh_catalog"; "configure_provider"] (get "action" error))
        (invalid (member path "action") "is not valid");
  message ← text (get "message" error) (member path "message") 2000;
  Ok (build [("code", Some (get "code" error)); ("message", Some (JStr message)); ("action", Some (get "action" error))]).

Definition parseInventoryGroup (value : jsval) (path : string) : checked jsval :=
  group ← object value path;
  _ ← exact group path ["providerId"; "displayName"; "enabled"; "regionFamily"; "region"; "authMethods"; "loginMethods";
                        "authentication"; "catalog"; "models"; "catalogError"];
  _ ← require (is_bool (get "enabled" group)) (invalid (member path "enabled") "must be a boolean");
  items ← array_within (get "models" group) 5000 (invalid (member path "models") "must contain at most 5000 models");
  id ← providerId (get "providerId" group) (member path "providerId");
  models ← map_indexed (λ i model, parseTextModel model (element (member path "models") i)) items;
  _ ← refuse (existsb (λ model, negb (bool_decide (field "providerId" model = JStr id))) models)
        (invalid (member path "models") "must belong to the provider group");
  catalogError ← optionally (λ v, parse_catalog_error v (member path "catalogError")) (get "catalogError" group);
  displayName ← text (get "displayName" group) (member path "displayName") 256;
  regionFamily ← optionally (λ v, text v (member path "regionFamily") 128) (get "regionFamily" group);
  region ← optionally (λ v, text v (member path "region") 128) (get "region" group);
  authMethods ← uniqueEnumArray (get "authMethods" group) (member path "authMethods") AUTH_METHODS;
  loginMethods ← uniqueEnumArray (get "loginMethods" group) (member path "loginMethods") LOGIN_METHODS;
  authentication ← parseProviderAuthenticationStatus (get "authentication" group) (member path "authentication");
  catalog ← parseCatalogStatus (get "catalog" group) (member path "catalog");
  Ok (build [("providerId", Some (JStr id)); ("displayName", Some (JStr displayName)); ("enabled", Some (get "enabled" group));
             ("regionFamily", JStr <$> regionFamily); ("region", JStr <$> region);
             ("authMethods", Some (JArr (JStr <$> authMethods))); ("loginMethods", Some (JArr (JStr <$> loginMethods)));
             ("authentication", Some authentication); ("catalog", Some catalog); ("models", Some (JArr models));
             ("catalogError", catalogError)]).

Definition parseProviderListResult (value : jsval) : checked jsval :=
  result ← object value "providerList";
  _ ← exact result "providerList" ["providers"];
  items ← array_within (get "providers" result) 256 (invalid "providerList.providers" "must contain at most 256 providers");
  providers ← map_indexed (λ i provider, parseInventoryGroup provider (element "providerList.providers" i)) items;
  _ ← require (bool_decide (NoDup (field "providerId" <$> providers)))
        (invalid "providerList.providers" "must not contain duplicate providers");
  Ok (build [("providers", Some (JArr providers))]).

(** ** Refreshes *)

Definition parse_refresh_error (value : jsval) (path : string) : checked jsval :=
  candidate ← object value path;
  _ ← exact candidate path ["code"; "message"; "action"];
  _ ← require (among ["catalog_refresh_failed"; "authentication_required"; "entitlement_required"; "entitlement_exhausted"]
                 (get "code" candidate)) (invalid (member path "code") "is not valid");
  _ ← require (among ["retry"; "login"; "configure_provider"] (get "action" candidate))
        (invalid (member path "action") "is not valid");
  message ← text (get "message" candidate) (member path "message") 2000;
  Ok (build [("code", Some (get "code" candidate)); ("message", Some (JStr message)); ("action", Some (get "action" candidate))]).

Definition parse_refreshed (value : jsval) (path : string) : checked jsval :=
  provider ← object value path;
  _ ← exact provider path ["providerId"; "status"; "modelCount"; "error"];
  _ ← require (among ["refreshed"; "not_modified"; "superseded"; "unsupported"; "failed"] (get "status" provider))
        (invalid (member path "status") "is not valid");
  error ← optionally (λ v, parse_refresh_error v (member path "error")) (get "error" provider);
  _ ← require (Bool.eqb (is_str "failed" (get "status" provider)) (match error with Some _ => true | None => false end))
        (invalid (member path "error") "must be present only for failed refreshes");
  id ← providerId (get "providerId" provider) (member path "providerId");
  modelCount ← nonNegativeInteger (get "modelCount" provider) (member path "modelCount");
  Ok (build [("providerId", Some (JStr id)); ("status", Some (get "status" provider)); ("modelCount", Some (JNum modelCount));
             ("error", error)]).

Definition parseProviderCatalogRefreshResult (value : jsval) : checked jsval :=
  result ← object value "providerCatalogRefresh";
  _ ← exact result "providerCatalogRefresh" ["providers"];
  items ← array_within (get "providers" result) 256
            (invalid "providerCatalogRefresh.providers" "must contain at most 256 providers");
  providers ← map_indexed (λ i v, parse_refreshed v (element "providerCatalogRefresh.providers" i)) items;
  Ok (build [("providers", Some (JArr providers))]).

Definition parseProviderAuthenticationStatusResult (value : jsval) : checked jsval :=
  let path := "providerAuthenticationStatusResult" in
  result ← object value path;
  _ ← exact result path ["providers"];
  items ← array_within (get "providers" result) 256 (invalid (member path "providers") "must contain at most 256 providers");
  providers ← map_indexed (λ i v, parseProviderAuthenticationStatus v (element (member path "providers") i)) items;
  Ok (build [("providers", Some (JArr providers))]).

Definition parseProviderIdParam (value : jsval) (path : string) : checked string := providerId value path.

Definition parseProviderLoginMethod (value : jsval) (path : string) : checked jsval :=
  _ ← require (among LOGIN_METHODS value) (invalid path "must be api_key or oauth"); Ok value.

Definition parseProviderRpcErrorDetails (value : jsval) (path : string) : checked jsval :=
  details ← object value path;
  _ ← exact details path ["category"; "action"; "providerId"; "modelId"];
  _ ← require (among ["provider"; "model"; "authentication"; "catalog"; "entitlement"; "region"; "configuration"]
                 (get "category" details)) (invalid (member path "category") "is not valid");
  _ ← require (among ["login"; "logout_then_login"; "refresh_catalog"; "configure_provider"; "select_model";
                      "select_region"; "retry"] (get "action" details)) (invalid (member path "action") "is not valid");
  id ← optionally (λ v, providerId v (member path "providerId")) (get "providerId" details);
  modelId ← optionally (λ v, text v (member path "modelId") 512) (get "modelId" details);
  Ok (build [("category", Some (get "category" details)); ("action", Some (get "action" details));
             ("providerId", JStr <$> id); ("modelId", JStr <$> modelId)]).

(** ** What they return they accept *)

Section Stability.
Lemma providerId_Ok v path s : providerId v path = Ok s → v = JStr s.
Proof. unfold providerId, text. intros H. inv_ok. by eapply boundedString_Ok. Qed.

Lemma finiteNonNegative_Ok v path n : finiteNonNegative v path = Ok n → v = JNum n.
Proof. destruct v; try done. simpl. intros H. by inv_ok. Qed.

Lemma uniqueEnumArray_Ok v path allowed l : uniqueEnumArray v path allowed = Ok l → v = JArr (JStr <$> l).
Proof.
  unfold uniqueEnumArray. intros H. open_parser H. apply array_within_Ok in H0 as [-> _]. f_equal.
  eapply map_returned, H1. intros i v a. unfold enum_item. destruct v; try done. intros Ha. by inv_ok.
Qed.
End Stability.

Ltac returned_provider :=
  repeat match goal with
  | H : text (get _ _) _ _ = Ok _ |- _ => returned_by H boundedString_Ok
  | H : providerId (get _ _) _ = Ok _ |- _ => returned_by H providerId_Ok
  | H : finiteNonNegative (get _ _) _ = Ok _ |- _ => returned_by H finiteNonNegative_Ok
  | H : uniqueEnumArray (get _ _) _ _ = Ok _ |- _ => returned_by H uniqueEnumArray_Ok
  | H : optionally (λ v, text v _ _) (get _ _) = Ok _ |- _ => returned_opt H JStr boundedString_Ok
  | H : optionally (λ v, providerId v _) (get _ _) = Ok _ |- _ => returned_opt H JStr providerId_Ok
  | H : optionally (λ v, finiteNonNegative v _) (get _ _) = Ok _ |- _ => returned_opt H JNum finiteNonNegative_Ok
  end.
Ltac stable_provider p :=
  let v := fresh "v" in let path := fresh "path" in let w := fresh "w" in let H := fresh "H" in
  intros v path w H; unfold p, each in H; cbn [each_from] in H; open_parser H; returned_provider; returned; nested;
  (split; [unfold p; built; known; reflexivity | reflexivity]).

#[export] Instance authentication_status_stable : Stable parseProviderAuthenticationStatus.
Proof. stable_provider parseProviderAuthenticationStatus. Qed.
#[export] Instance catalog_source_stable : Stable parse_catalog_source.
Proof. stable_provider parse_catalog_source. Qed.
#[export] Instance catalog_status_stable : Stable parseCatalogStatus.
Proof. stable_provider parseCatalogStatus. Qed.
#[export] Instance cost_stable : Stable parseCost.
Proof. stable_provider parseCost. Qed.
#[export] Instance capabilities_stable : Stable parse_capabilities.
Proof. stable_provider parse_capabilities. Qed.
#[export] Instance catalog_error_stable : Stable parse_catalog_error.
Proof. stable_provider parse_catalog_error. Qed.
#[export] Instance refresh_error_stable : Stable parse_refresh_error.
Proof. stable_provider parse_refresh_error. Qed.
#[export] Instance refreshed_stable : Stable parse_refreshed.
Proof. stable_provider parse_refreshed. Qed.
#[export] Instance error_details_stable : Stable parseProviderRpcErrorDetails.
Proof. stable_provider parseProviderRpcErrorDetails. Qed.

Lemma availability_again v path a path' w :
  check_availability v path = Ok a → parse_reason a path' = Ok w →
  ∃ a', w = JObj a' ∧ check_availability w path = Ok a' ∧ parse_reason a' path' = Ok w.
Proof.
  unfold check_availability, parse_reason. intros H H'. open_parser H. open_parser H'. returned_provider.
  eexists. split; [reflexivity|]. split.
  - built. known. reflexivity.
  - unfold build. rewrite ?get_present by (apply (bool_decide_unpack _); vm_compute; reflexivity).
    cbn [member_of String.eqb Ascii.eqb Bool.eqb]. rewrite ?of_opt_Some. known. reflexivity.
Qed.

#[export] Instance text_model_stable : Stable parseTextModel.
Proof.
  intros v path w H. unfold parseTextModel in H. open_parser H. returned_provider. returned. 
  match goal with
  | H1 : check_availability _ _ = Ok _, H2 : parse_reason _ _ = Ok _ |- _ =>
      destruct (availability_again _ _ _ _ _ H1 H2) as (a' & Ew & Ha & Hr); clear H1 H2
  end.
  nested. split; [|reflexivity]. unfold parseTextModel. built. known. reflexivity.
Qed.

#[export] Instance inventory_group_stable : Stable parseInventoryGroup.
Proof. stable_provider parseInventoryGroup. Qed.

Ltac stable_result p :=
  intros H; unfold p in H; open_parser H; returned; nested; unfold p; built; known; reflexivity.

Lemma provider_list_stable v w : parseProviderListResult v = Ok w → parseProviderListResult w = Ok w.
Proof. stable_result parseProviderListResult. Qed.
Lemma catalog_refresh_stable v w : parseProviderCatalogRefreshResult v = Ok w → parseProviderCatalogRefreshResult w = Ok w.
Proof. stable_result parseProviderCatalogRefreshResult. Qed.
Lemma authentication_result_stable v w :
  parseProviderAuthenticationStatusResult v = Ok w → parseProviderAuthenticationStatusResult w = Ok w.
Proof. stable_result parseProviderAuthenticationStatusResult. Qed.
