(* ===== verification/WireWorkspace.v ===== *)
(** protocol/src/wire.ts: workspace paths and the results of the workspace methods:
    listings, files, git status and diffs. *)
From stdpp Require Import base list sets strings pretty.
From Stdlib Require Import ZArith Lia Ascii.
From S2P Require Import Prelude Text JsValue Json Envelope WireFields.

(** ** Paths *)

Definition generation (value : jsval) (path : string) : checked string := boundedString value path 256.

(** [/^[a-zA-Z]:/u.test(value)] *)
Definition drive_prefix (s : string) : bool :=
  match s with String a (String b _) => (is_lower a || is_upper a) && is_char b ":"%char | _ => false end.

Definition bad_part (part : string) : bool := bool_decide (part = "") || bool_decide (part = ".") || bool_decide (part = "..").

Definition relativeWorkspacePath (value : jsval) (path : string) (allowRoot : bool) : checked string :=
  match value with
  | JStr s =>
      _ ← refuse (4096 <? utf8_length s)%Z (invalid path "must not exceed 4096 UTF-8 bytes");
      if bool_decide (s = "") && allowRoot then Ok s
      else
        _ ← refuse (bool_decide (s = "") || starts_with "/" s || starts_with "//" s || drive_prefix s
                    || includes backslash s || includes (chr 0) s || existsb bad_part (split_on "/"%char s))
              (invalid path "must be a normalized workspace-relative path");
        Ok s
  | _ => validationError path "must be a string"
  end.

(** ** Listings *)

Definition last_segment (s : string) : string := List.last (split_on "/"%char s) "".

Definition parseWorkspaceEntry (value : jsval) (path : string) : checked jsval :=
  entry ← object value path;
  _ ← exact entry path ["path"; "name"; "type"; "sizeBytes"; "mtimeMs"; "linkTargetType"];
  _ ← require (among ["file"; "directory"; "symlink"; "other"] (get "type" entry))
        (invalid (member path "type") "is not a supported workspace entry type");
  _ ← require (is_undef (get "linkTargetType" entry)
               || among ["inside_workspace"; "outside_workspace"; "missing"] (get "linkTargetType" entry))
        (invalid (member path "linkTargetType") "is not a valid link target type");
  _ ← refuse (negb (is_str "symlink" (get "type" entry)) && defined (get "linkTargetType" entry))
        (invalid (member path "linkTargetType") "is allowed only for symlinks");
  entryPath ← relativeWorkspacePath (get "path" entry) (member path "path") false;
  name ← boundedString (get "name" entry) (member path "name") 4096;
  _ ← refuse (includes "/" name || negb (bool_decide (last_segment entryPath = name)))
        (invalid (member path "name") "must be the final path segment");
  sizeBytes ← optionally (λ v, nonNegativeInteger v (member path "sizeBytes")) (get "sizeBytes" entry);
  mtimeMs ← optionally (λ v, nonNegativeInteger v (member path "mtimeMs")) (get "mtimeMs" entry);
  Ok (build [("path", Some (JStr entryPath)); ("name", Some (JStr name)); ("type", Some (get "type" entry));
             ("sizeBytes", JNum <$> sizeBytes); ("mtimeMs", JNum <$> mtimeMs);
             ("linkTargetType", to_opt (get "linkTargetType" entry))]).

Definition parseWorkspaceListResult (value : jsval) : checked jsval :=
  result ← object value "workspaceList";
  _ ← exact result "workspaceList" ["workspaceGeneration"; "entries"; "nextPageCursor"];
  items ← array_within (get "entries" result) 200 (invalid "workspaceList.entries" "must contain at most 200 entries");
  workspaceGeneration ← generation (get "workspaceGeneration" result) "workspaceList.workspaceGeneration";
  entries ← map_indexed (λ i entry, parseWorkspaceEntry entry (element "workspaceList.entries" i)) items;
  nextPageCursor ← optionally (λ v, boundedString v "workspaceList.nextPageCursor" 512) (get "nextPageCursor" result);
  Ok (build [("workspaceGeneration", Some (JStr workspaceGeneration)); ("entries", Some (JArr entries));
             ("nextPageCursor", JStr <$> nextPageCursor)]).

(** ** Files *)

Definition parseWorkspaceReadResult (value : jsval) : checked jsval :=
  result ← object value "workspaceRead";
  _ ← exact result "workspaceRead" ["workspaceGeneration"; "fileRevision"; "path"; "encoding"; "text"; "startLine";
                                    "endLine"; "totalLines"; "truncated"; "truncationReason"];
  _ ← require (is_str "utf-8" (get "encoding" result)) (invalid "workspaceRead.encoding" ("must be " +:+ quote "utf-8"));
  _ ← require (is_bool (get "truncated" result)) (invalid "workspaceRead.truncated" "must be a boolean");
  _ ← require (is_undef (get "truncationReason" result) || among ["line_limit"; "byte_limit"] (get "truncationReason" result))
        (invalid "workspaceRead.truncationReason" "is not valid");
  _ ← require (bool_decide (get "truncated" result = JBool (defined (get "truncationReason" result))))
        (invalid "workspaceRead.truncationReason" "must match truncated");
  startLine ← positiveInteger (get "startLine" result) "workspaceRead.startLine";
  endLine ← nonNegativeInteger (get "endLine" result) "workspaceRead.endLine";
  _ ← refuse (int_of endLine + 1 <? int_of startLine)%Z (invalid "workspaceRead.endLine" "must follow startLine");
  workspaceGeneration ← generation (get "workspaceGeneration" result) "workspaceRead.workspaceGeneration";
  fileRevision ← generation (get "fileRevision" result) "workspaceRead.fileRevision";
  file ← relativeWorkspacePath (get "path" result) "workspaceRead.path" false;
  content ← boundedText (get "text" result) "workspaceRead.text" (1024 * 1024);
  totalLines ← optionally (λ v, nonNegativeInteger v "workspaceRead.totalLines") (get "totalLines" result);
  Ok (build [("workspaceGeneration", Some (JStr workspaceGeneration)); ("fileRevision", Some (JStr fileRevision));
             ("path", Some (JStr file)); ("encoding", Some (get "encoding" result)); ("text", Some (JStr content));
             ("startLine", Some (JNum startLine)); ("endLine", Some (JNum endLine)); ("totalLines", JNum <$> totalLines);
             ("truncated", Some (get "truncated" result)); ("truncationReason", to_opt (get "truncationReason" result))]).

(** ** Git *)

Definition status_areas : list string := ["staged"; "unstaged"; "untracked"; "conflict"; "last-turn"].
Definition change_kinds : list string :=
  ["added"; "modified"; "deleted"; "renamed"; "conflicted"; "untracked"; "binary"; "submodule"].

Definition parseGitStatusEntry (value : jsval) (path : string) : checked jsval :=
  entry ← object value path;
  _ ← exact entry path ["entryId"; "path"; "previousPath"; "area"; "kind"; "binary"; "submodule"];
  _ ← require (among status_areas (get "area" entry)) (invalid (member path "area") "is not a valid status area");
  _ ← require (among change_kinds (get "kind" entry)) (invalid (member path "kind") "is not a valid change kind");
  _ ← require (is_bool (get "binary" entry) && is_bool (get "submodule" entry))
        (invalid path "binary and submodule must be booleans");
  _ ← require (Bool.eqb (is_str "renamed" (get "kind" entry)) (defined (get "previousPath" entry)))
        (invalid (member path "previousPath") "must be present only for renames");
  entryId ← boundedString (get "entryId" entry) (member path "entryId") 256;
  file ← relativeWorkspacePath (get "path" entry) (member path "path") false;
  previousPath ← optionally (λ v, relativeWorkspacePath v (member path "previousPath") false) (get "previousPath" entry);
  Ok (build [("entryId", Some (JStr entryId)); ("path", Some (JStr file)); ("previousPath", JStr <$> previousPath);
             ("area", Some (get "area" entry)); ("kind", Some (get "kind" entry)); ("binary", Some (get "binary" entry));
             ("submodule", Some (get "submodule" entry))]).

Definition check_branch (value : jsval) (path : string) : checked fields :=
  branch ← object value path;
  _ ← exact branch path ["state"; "name"; "head"];
  _ ← require (among ["branch"; "detached"; "unborn"] (get "state" branch)) (invalid (member path "state") "is not valid");
  _ ← refuse (is_str "branch" (get "state" branch) && is_undef (get "name" branch))
        (invalid (member path "name") "is required for a branch");
  _ ← refuse (negb (is_str "unborn" (get "state" branch)) && is_undef (get "head" branch))
        (invalid (member path "head") "is required for an existing HEAD");
  _ ← refuse (is_str "unborn" (get "state" branch) && defined (get "head" branch))
        (invalid (member path "head") "is not valid for unborn HEAD");
  Ok branch.

Definition parse_branch (branch : fields) (path : string) : checked jsval :=
  name ← optionally (λ v, boundedString v (member path "name") 1024) (get "name" branch);
  head ← optionally (λ v, boundedString v (member path "head") 128) (get "head" branch);
  Ok (build [("state", Some (get "state" branch)); ("name", JStr <$> name); ("head", JStr <$> head)]).

Definition parseWorkspaceStatusResult (value : jsval) : checked jsval :=
  result ← object value "workspaceStatus";
  _ ← exact result "workspaceStatus" ["workspaceGeneration"; "repositoryGeneration"; "repositoryRoot"; "checkpointId";
                                      "branch"; "sparseCheckout"; "entries"];
  state ← check_branch (get "branch" result) "workspaceStatus.branch";
  _ ← require (is_bool (get "sparseCheckout" result)) (invalid "workspaceStatus.sparseCheckout" "must be a boolean");
  items ← array_within (get "entries" result) (Z.to_nat 5000)
            (invalid "workspaceStatus.entries" "must contain at most 5000 entries");
  workspaceGeneration ← generation (get "workspaceGeneration" result) "workspaceStatus.workspaceGeneration";
  repositoryGeneration ← generation (get "repositoryGeneration" result) "workspaceStatus.repositoryGeneration";
  repositoryRoot ← relativeWorkspacePath (get "repositoryRoot" result) "workspaceStatus.repositoryRoot" true;
  checkpointId ← optionally (λ v, boundedString v "workspaceStatus.checkpointId" 128) (get "checkpointId" result);
  branch ← parse_branch state "workspaceStatus.branch";
  entries ← map_indexed (λ i entry, parseGitStatusEntry entry (element "workspaceStatus.entries" i)) items;
  Ok (build [("workspaceGeneration", Some (JStr workspaceGeneration)); ("repositoryGeneration", Some (JStr repositoryGeneration));
             ("repositoryRoot", Some (JStr repositoryRoot)); ("checkpointId", JStr <$> checkpointId); ("branch", Some branch);
             ("sparseCheckout", Some (get "sparseCheckout" result)); ("entries", Some (JArr entries))]).

(** ** Diffs *)

Definition parseDiffLine (value : jsval) (path : string) : checked jsval :=
  line ← object value path;
  _ ← exact line path ["kind"; "oldLine"; "newLine"; "text"];
  _ ← require (among ["context"; "addition"; "deletion"; "marker"] (get "kind" line))
        (invalid (member path "kind") "is not a valid diff line kind");
  oldLine ← optionally (λ v, positiveInteger v (member path "oldLine")) (get "oldLine" line);
  newLine ← optionally (λ v, positiveInteger v (member path "newLine")) (get "newLine" line);
  content ← boundedText (get "text" line) (member path "text") (1024 * 1024);
  Ok (build [("kind", Some (get "kind" line)); ("oldLine", JNum <$> oldLine); ("newLine", JNum <$> newLine);
             ("text", Some (JStr content))]).

Definition parse_hunk (value : jsval) (path : string) : checked jsval :=
  hunk ← object value path;
  _ ← exact hunk path ["header"; "lines"];
  items ← array_within (get "lines" hunk) (Z.to_nat 100000) (invalid (member path "lines") "contains too many lines");
  header ← boundedString (get "header" hunk) (member path "header") 4096;
  lines ← map_indexed (λ i line, parseDiffLine line (element (member path "lines") i)) items;
  Ok (build [("header", Some (JStr header)); ("lines", Some (JArr lines))]).

Definition parseWorkspaceDiffResult (value : jsval) : checked jsval :=
  result ← object value "workspaceDiff";
  _ ← exact result "workspaceDiff" ["workspaceGeneration"; "repositoryGeneration"; "entry"; "oldRevision"; "newRevision";
                                    "hunks"; "binary"];
  _ ← require (is_bool (get "binary" result)) (invalid "workspaceDiff.binary" "must be a boolean");
  items ← array_within (get "hunks" result) (Z.to_nat 10000) (invalid "workspaceDiff.hunks" "contains too many hunks");
  entry ← parseGitStatusEntry (get "entry" result) "workspaceDiff.entry";
  _ ← require (bool_decide (get "binary" result = field "binary" entry))
        (invalid "workspaceDiff.binary" "must match entry.binary");
  hunks ← map_indexed (λ i v, parse_hunk v (element "workspaceDiff.hunks" i)) items;
  _ ← refuse (4 * 1024 * 1024 <? utf8_length (json_text (JArr hunks)))%Z
        (invalid "workspaceDiff.hunks" "exceeds the structured diff limit");
  workspaceGeneration ← generation (get "workspaceGeneration" result) "workspaceDiff.workspaceGeneration";
  repositoryGeneration ← generation (get "repositoryGeneration" result) "workspaceDiff.repositoryGeneration";
  oldRevision ← optionally (λ v, generation v "workspaceDiff.oldRevision") (get "oldRevision" result);
  newRevision ← optionally (λ v, generation v "workspaceDiff.newRevision") (get "newRevision" result);
  Ok (build [("workspaceGeneration", Some (JStr workspaceGeneration)); ("repositoryGeneration", Some (JStr repositoryGeneration));
             ("entry", Some entry); ("oldRevision", JStr <$> oldRevision); ("newRevision", JStr <$> newRevision);
             ("hunks", Some (JArr hunks)); ("binary", Some (get "binary" result))]).

(** ** What they return they accept *)

Section Stability.
Lemma relativeWorkspacePath_Ok v path root s : relativeWorkspacePath v path root = Ok s → v = JStr s.
Proof.
  destruct v; try done. simpl. intros H. apply bind_Ok in H as (u & _ & H).
  destruct (_ && _); [by injection H as <-|]. by inv_ok.
Qed.

Lemma generation_Ok v path s : generation v path = Ok s → v = JStr s.
Proof. apply boundedString_Ok. Qed.

End Stability.

Ltac returned_workspace :=
  repeat match goal with
  | H : generation (get _ _) _ = Ok _ |- _ => returned_by H generation_Ok
  | H : relativeWorkspacePath (get _ _) _ _ = Ok _ |- _ => returned_by H relativeWorkspacePath_Ok
  | H : optionally (λ v, generation v _) (get _ _) = Ok _ |- _ => returned_opt H JStr generation_Ok
  | H : optionally (λ v, relativeWorkspacePath v _ _) (get _ _) = Ok _ |- _ => returned_opt H JStr relativeWorkspacePath_Ok
  end; returned.
Ltac stable_workspace p :=
  let v := fresh "v" in let path := fresh "path" in let w := fresh "w" in let H := fresh "H" in
  intros v path w H; unfold p in H; open_parser H; returned_workspace; nested;
  (split; [unfold p; built; known; reflexivity | reflexivity]).
Ltac stable_workspace_result p :=
  intros H; unfold p in H; open_parser H; returned_workspace; nested; unfold p; built; known; reflexivity.

#[export] Instance workspace_entry_stable : Stable parseWorkspaceEntry.
Proof. stable_workspace parseWorkspaceEntry. Qed.
#[export] Instance git_status_entry_stable : Stable parseGitStatusEntry.
Proof. stable_workspace parseGitStatusEntry. Qed.
#[export] Instance diff_line_stable : Stable parseDiffLine.
Proof. stable_workspace parseDiffLine. Qed.
#[export] Instance hunk_stable : Stable parse_hunk.
Proof. stable_workspace parse_hunk. Qed.

Lemma branch_again v path a path' w :
  check_branch v path = Ok a → parse_branch a path' = Ok w →
  ∃ a', w = JObj a' ∧ check_branch w path = Ok a' ∧ parse_branch a' path' = Ok w.
Proof.
  unfold check_branch, parse_branch. intros H H'. open_parser H. open_parser H'. returned.
  eexists. split; [reflexivity|]. split; unfold build.
  - built. known. reflexivity.
  - rewrite ?get_present by (apply (bool_decide_unpack _); vm_compute; reflexivity).
    cbn [member_of String.eqb Ascii.eqb Bool.eqb]. rewrite ?of_opt_Some. known. reflexivity.
Qed.

Lemma workspace_list_stable v w : parseWorkspaceListResult v = Ok w → parseWorkspaceListResult w = Ok w.
Proof. stable_workspace_result parseWorkspaceListResult. Qed.
Lemma workspace_read_stable v w : parseWorkspaceReadResult v = Ok w → parseWorkspaceReadResult w = Ok w.
Proof. stable_workspace_result parseWorkspaceReadResult. Qed.
Lemma workspace_status_stable v w : parseWorkspaceStatusResult v = Ok w → parseWorkspaceStatusResult w = Ok w.
Proof.
  intros H. unfold parseWorkspaceStatusResult in H. open_parser H. returned_workspace.
  match goal with
  | H1 : check_branch _ _ = Ok _, H2 : parse_branch _ _ = Ok _ |- _ =>
      destruct (branch_again _ _ _ _ _ H1 H2) as (a' & Ew & Ha & Hr); clear H1 H2
  end.
  nested. unfold parseWorkspaceStatusResult. built. known. reflexivity.
Qed.
Lemma workspace_diff_stable v w : parseWorkspaceDiffResult v = Ok w → parseWorkspaceDiffResult w = Ok w.
Proof. stable_workspace_result parseWorkspaceDiffResult. Qed.
