(* ===== verification/Types.v ===== *)
(** The data types of the protocol package: event payloads
    (protocol/src/events.ts) and model messages (protocol/src/model-stream.ts),
    with the JSON objects they stand for.

    TypeScript's types are erased at run time; here they are inductive types,
    and [encode_*]/[decode_*] say which JSON values inhabit them. *)
From stdpp Require Import base list sets strings.
From Stdlib Require Import ZArith Lia.
From S2P Require Import Prelude Text JsValue Envelope.

(** ** Enumerations: unions of string literals *)

Class Enum (A : Type) `{EqDecision A} := {
  enum_all : list A;
  enum_name : A → string;
  enum_complete : ∀ a, a ∈ enum_all;
  enum_inj : ∀ a b, enum_name a = enum_name b → a = b
}.
Arguments enum_all A {_ _}.

Definition enum_names (A : Type) `{Enum A} : list string := enum_name <$> enum_all A.

Definition enum_of (A : Type) `{Enum A} (s : string) : option A :=
  List.find (λ a, bool_decide (enum_name a = s)) (enum_all A).

Section EnumFacts.
Context `{Enum A}.

Lemma enum_of_name a : enum_of A (enum_name a) = Some a.
Proof.
  unfold enum_of. pose proof (enum_complete a) as Ha. induction (enum_all A) as [|b l IH].
  - by apply elem_of_nil in Ha.
  - simpl. case_bool_decide as Hb; [by apply enum_inj in Hb; subst|].
    apply IH. apply elem_of_cons in Ha as [->|]; done.
Qed.

Lemma enum_of_Some s a : enum_of A s = Some a ↔ s = enum_name a.
Proof.
  split; [|by intros ->; apply enum_of_name].
  unfold enum_of. intros [_ Hs]%List.find_some. by apply bool_decide_eq_true in Hs.
Qed.

Lemma enum_names_elem s : s ∈ enum_names A ↔ ∃ a, enum_of A s = Some a.
Proof.
  unfold enum_names. rewrite list_elem_of_fmap. setoid_rewrite enum_of_Some. split.
  - intros (a & -> & _). eauto.
  - intros [a ->]. exists a. split; [done | apply enum_complete].
Qed.

Lemma among_names v : among (enum_names A) v = true ↔ ∃ a : A, v = JStr (enum_name a).
Proof.
  rewrite among_spec. setoid_rewrite enum_names_elem. setoid_rewrite enum_of_Some. split.
  - intros (s & -> & a & ->). eauto.
  - intros [a ->]. eauto.
Qed.
End EnumFacts.

Ltac solve_enum := intros [] []; simpl; intros; congruence.
Ltac solve_complete := intros []; repeat first [apply list_elem_of_here | apply list_elem_of_further].

Inductive ThinkingLevel := TOff | TMinimal | TLow | TMedium | THigh | TXhigh | TMax.
#[export] Instance ThinkingLevel_eq_dec : EqDecision ThinkingLevel.
Proof. solve_decision. Defined.
#[export, refine] Instance ThinkingLevel_enum : Enum ThinkingLevel := {|
  enum_all := [TOff; TMinimal; TLow; TMedium; THigh; TXhigh; TMax];
  enum_name l := match l with
    | TOff => "off" | TMinimal => "minimal" | TLow => "low" | TMedium => "medium"
    | THigh => "high" | TXhigh => "xhigh" | TMax => "max" end |}.
Proof. - solve_complete. - solve_enum. Defined.

Inductive SessionProfile := PMinimal | PStandard | PChat | PExec.
#[export] Instance SessionProfile_eq_dec : EqDecision SessionProfile.
Proof. solve_decision. Defined.
#[export, refine] Instance SessionProfile_enum : Enum SessionProfile := {|
  enum_all := [PMinimal; PStandard; PChat; PExec];
  enum_name p := match p with
    | PMinimal => "minimal" | PStandard => "standard" | PChat => "chat" | PExec => "exec" end |}.
Proof. - solve_complete. - solve_enum. Defined.

Inductive PermissionDecision := AllowOnce | AllowSession | Deny.
#[export] Instance PermissionDecision_eq_dec : EqDecision PermissionDecision.
Proof. solve_decision. Defined.
#[export, refine] Instance PermissionDecision_enum : Enum PermissionDecision := {|
  enum_all := [AllowOnce; AllowSession; Deny];
  enum_name d := match d with
    | AllowOnce => "allow_once" | AllowSession => "allow_session" | Deny => "deny" end |}.
Proof. - solve_complete. - solve_enum. Defined.

Inductive InteractionAction := Accept | Decline | Cancel.
#[export] Instance InteractionAction_eq_dec : EqDecision InteractionAction.
Proof. solve_decision. Defined.
#[export, refine] Instance InteractionAction_enum : Enum InteractionAction := {|
  enum_all := [Accept; Decline; Cancel];
  enum_name a := match a with
    | Accept => "accept" | Decline => "decline" | Cancel => "cancel" end |}.
Proof. - solve_complete. - solve_enum. Defined.

Inductive InteractionKind := McpTool | McpSamplingRequest | McpSamplingResponse
  | McpElicitationForm | McpElicitationUrl.
#[export] Instance InteractionKind_eq_dec : EqDecision InteractionKind.
Proof. solve_decision. Defined.
#[export, refine] Instance InteractionKind_enum : Enum InteractionKind := {|
  enum_all := [McpTool; McpSamplingRequest; McpSamplingResponse; McpElicitationForm; McpElicitationUrl];
  enum_name k := match k with
    | McpTool => "mcp_tool" | McpSamplingRequest => "mcp_sampling_request"
    | McpSamplingResponse => "mcp_sampling_response"
    | McpElicitationForm => "mcp_elicitation_form"
    | McpElicitationUrl => "mcp_elicitation_url" end |}.
Proof. - solve_complete. - solve_enum. Defined.

Inductive SessionCloseReason := CloseCompleted | CloseDisposed | CloseFailed.
#[export] Instance SessionCloseReason_eq_dec : EqDecision SessionCloseReason.
Proof. solve_decision. Defined.
#[export, refine] Instance SessionCloseReason_enum : Enum SessionCloseReason := {|
  enum_all := [CloseCompleted; CloseDisposed; CloseFailed];
  enum_name r := match r with
    | CloseCompleted => "completed" | CloseDisposed => "disposed" | CloseFailed => "failed" end |}.
Proof. - solve_complete. - solve_enum. Defined.

Inductive AssistantStopReason := SStop | SLength | SToolUse | SError | SAborted.
#[export] Instance AssistantStopReason_eq_dec : EqDecision AssistantStopReason.
Proof. solve_decision. Defined.
#[export, refine] Instance AssistantStopReason_enum : Enum AssistantStopReason := {|
  enum_all := [SStop; SLength; SToolUse; SError; SAborted];
  enum_name r := match r with
    | SStop => "stop" | SLength => "length" | SToolUse => "tool_use" | SError => "error"
    | SAborted => "aborted" end |}.
Proof. - solve_complete. - solve_enum. Defined.

Inductive ChildStatus := ChildCompleted | ChildFailed | ChildAborted.
#[export] Instance ChildStatus_eq_dec : EqDecision ChildStatus.
Proof. solve_decision. Defined.
#[export, refine] Instance ChildStatus_enum : Enum ChildStatus := {|
  enum_all := [ChildCompleted; ChildFailed; ChildAborted];
  enum_name s := match s with
    | ChildCompleted => "completed" | ChildFailed => "failed" | ChildAborted => "aborted" end |}.
Proof. - solve_complete. - solve_enum. Defined.

Inductive DialectBoundaryReason := SessionStart | ModelSwitch | ToolChange | Reload.
#[export] Instance DialectBoundaryReason_eq_dec : EqDecision DialectBoundaryReason.
Proof. solve_decision. Defined.
#[export, refine] Instance DialectBoundaryReason_enum : Enum DialectBoundaryReason := {|
  enum_all := [SessionStart; ModelSwitch; ToolChange; Reload];
  enum_name r := match r with
    | SessionStart => "session_start" | ModelSwitch => "model_switch"
    | ToolChange => "tool_change" | Reload => "reload" end |}.
Proof. - solve_complete. - solve_enum. Defined.

(** [priority] of a queued message. *)
Inductive Priority := Front | Back.
#[export] Instance Priority_eq_dec : EqDecision Priority.
Proof. solve_decision. Defined.
#[export, refine] Instance Priority_enum : Enum Priority := {|
  enum_all := [Front; Back];
  enum_name p := match p with Front => "front" | Back => "back" end |}.
Proof. - solve_complete. - solve_enum. Defined.

(** [state] of an [interrupt.updated] event. *)
Inductive InterruptState := Interrupting | Delivered | InterruptFailed.
#[export] Instance InterruptState_eq_dec : EqDecision InterruptState.
Proof. solve_decision. Defined.
#[export, refine] Instance InterruptState_enum : Enum InterruptState := {|
  enum_all := [Interrupting; Delivered; InterruptFailed];
  enum_name s := match s with
    | Interrupting => "interrupting" | Delivered => "delivered" | InterruptFailed => "failed" end |}.
Proof. - solve_complete. - solve_enum. Defined.

(** ** Records shared by several payloads *)

Record BlobReference := {
  blob_sha256 : string;
  blob_mediaType : string;
  blob_sizeBytes : Z;
  blob_name : option string
}.
#[export] Instance BlobReference_eq_dec : EqDecision BlobReference.
Proof. solve_decision. Defined.

(** [UserContent] has no [CThinking] item ([user_content]). *)
Inductive content : Type :=
| CText (text : string)
| CThinking (text : string)
| CBlob (blob : BlobReference).
#[export] Instance content_eq_dec : EqDecision content.
Proof. solve_decision. Defined.

Definition user_item (c : content) : bool := match c with CThinking _ => false | _ => true end.

Record Usage := {
  usage_inputTokens : Z;
  usage_outputTokens : Z;
  usage_cacheReadTokens : Z;
  usage_cacheWriteTokens : Z;
  usage_reasoningTokens : option Z;
  usage_costUsd : option number
}.
#[export] Instance Usage_eq_dec : EqDecision Usage.
Proof. solve_decision. Defined.

Record ModelRequestSettings := {
  mrs_maxOutputTokens : option Z;
  mrs_httpIdleTimeoutMs : Z
}.
#[export] Instance ModelRequestSettings_eq_dec : EqDecision ModelRequestSettings.
Proof. solve_decision. Defined.

Record ModelRequestConfiguration := {
  mrc_maxOutputTokens : Z;
  mrc_httpIdleTimeoutMs : Z;
  mrc_estimatedInputTokens : Z;
  mrc_contextWindow : Z;
  mrc_contextReserveTokens : Z;
  mrc_modelMaxOutputTokens : Z
}.
#[export] Instance ModelRequestConfiguration_eq_dec : EqDecision ModelRequestConfiguration.
Proof. solve_decision. Defined.

(** ** Event payloads *)

(** [EventPayloadMap]: one constructor per event type. *)
Inductive payload : Type :=
| SessionCreated (cwd : string) (profile : option SessionProfile)
    (parentSessionId sourceEventId : option string)
| SessionResumed
| SessionRenamed (title : string)
| SessionClosed (reason : SessionCloseReason)
| UserMessage (items : list content)
| QueueEnqueued (items : list content) (priority : Priority)
| QueueRequeued (queueItemId : string) (priority : Priority)
| QueueStarted (queueItemId : string)
| QueuePaused (queueItemId : string)
| InterruptRequested (items : list content) (targetOperationId : option string)
| InterruptUpdated (state : InterruptState) (targetOperationId reason : option string)
| UserShell (command : string) (items : list content) (isError excluded : bool)
| AssistantMessage (items : list content) (stopReason : AssistantStopReason)
    (usage : option Usage) (errorMessage : option string)
| RetryScheduled (attempt maxAttempts delayMs : Z) (errorCode : string)
| ToolCall (callId name : string) (input : fields)
| ToolResult (callId name : string) (items : list content) (isError : bool)
    (details : option jsval)
| ConfigRequest (settings : ModelRequestSettings)
| RequestConfigured (configuration : ModelRequestConfiguration)
| ConfigModel (modelId : string)
| ConfigProvider (providerId : string)
| ConfigEntitlement (entitlementId : string)
| ConfigProfile (profile : SessionProfile)
| ConfigThinking (requested effective : ThinkingLevel) (clamped : bool)
| ConfigTools (webFetch webSearch : bool)
| ConfigDialect (dialectId rosterFingerprint : string) (reason : DialectBoundaryReason)
| PromptSection (name source body : string)
| ToolSchema (name description : string) (inputSchema : fields)
| ContextInjected (source body : string)
| ContextExtension (extensionId source body : string)
| PermissionRequested (capability description : string)
| PermissionResolved (requestId : string) (decision : PermissionDecision) (reason : option string)
| InteractionRequested (interactionId : string) (kind : InteractionKind)
    (source message : string) (data : option fields)
| InteractionResolved (interactionId : string) (action : InteractionAction)
    (answer : option fields)
| SandboxConfigured (provider : string) (enforced : bool) (controls : list string)
    (details : option fields)
| SandboxViolation (capability reason : string)
| ContextCompacted (summary : string) (replacedEventIds : list string) (usage : option Usage)
| SessionErrorP (errorCode message : string) (retryable : bool) (details : option jsval)
| ChildResult (childSessionId : string) (status : ChildStatus) (outcome : option jsval).
#[export] Instance payload_eq_dec : EqDecision payload.
Proof. solve_decision. Defined.

(** [CanonicalEvent] *)
Record event := {
  ev_id : string;
  ev_sessionId : string;
  ev_operationId : option string;
  ev_parentId : option string;
  ev_timestamp : Z;
  ev_payload : payload
}.
#[export] Instance event_eq_dec : EqDecision event.
Proof. solve_decision. Defined.

(** ** Model messages *)

Record ToolCallRequest := {
  tcr_callId : string;
  tcr_name : string;
  tcr_input : fields
}.
#[export] Instance ToolCallRequest_eq_dec : EqDecision ToolCallRequest.
Proof. solve_decision. Defined.

(** An assistant message without [toolCalls] is one with none: every reader
    of the field says [toolCalls ?? []]. *)
Inductive ModelMessage : Type :=
| MUser (items : list content)
| MAssistant (items : list content) (toolCalls : list ToolCallRequest)
| MTool (callId name : string) (items : list content) (isError : bool).
#[export] Instance ModelMessage_eq_dec : EqDecision ModelMessage.
Proof. solve_decision. Defined.

Record ToolDeclaration := {
  td_name : string;
  td_description : string;
  td_inputSchema : fields
}.
#[export] Instance ToolDeclaration_eq_dec : EqDecision ToolDeclaration.
Proof. solve_decision. Defined.

(** ** The JSON of a payload *)

Definition JEnum {A} `{Enum A} (a : A) : jsval := JStr (enum_name a).
Definition opt_str (k : string) (v : option string) : fields := opt_field k (JStr <$> v).

Definition encode_blob (b : BlobReference) : jsval :=
  JObj ([("sha256", JStr (blob_sha256 b)); ("mediaType", JStr (blob_mediaType b));
         ("sizeBytes", JInt (blob_sizeBytes b))] ++ opt_str "name" (blob_name b)).

Definition encode_content (c : content) : jsval :=
  match c with
  | CText t => JObj [("type", JStr "text"); ("text", JStr t)]
  | CThinking t => JObj [("type", JStr "thinking"); ("text", JStr t)]
  | CBlob b => JObj [("type", JStr "blob"); ("blob", encode_blob b)]
  end.
Definition encode_contents (l : list content) : jsval := JArr (encode_content <$> l).

Definition encode_usage (u : Usage) : jsval :=
  JObj ([("inputTokens", JInt (usage_inputTokens u)); ("outputTokens", JInt (usage_outputTokens u));
         ("cacheReadTokens", JInt (usage_cacheReadTokens u));
         ("cacheWriteTokens", JInt (usage_cacheWriteTokens u))]
        ++ opt_field "reasoningTokens" (JInt <$> usage_reasoningTokens u)
        ++ opt_field "costUsd" (JNum <$> usage_costUsd u)).

Definition encode_settings (s : ModelRequestSettings) : fields :=
  [("maxOutputTokens", match mrs_maxOutputTokens s with Some n => JInt n | None => JNull end);
   ("httpIdleTimeoutMs", JInt (mrs_httpIdleTimeoutMs s))].

Definition encode_configuration (c : ModelRequestConfiguration) : fields :=
  [("maxOutputTokens", JInt (mrc_maxOutputTokens c));
   ("httpIdleTimeoutMs", JInt (mrc_httpIdleTimeoutMs c));
   ("estimatedInputTokens", JInt (mrc_estimatedInputTokens c));
   ("contextWindow", JInt (mrc_contextWindow c));
   ("contextReserveTokens", JInt (mrc_contextReserveTokens c));
   ("modelMaxOutputTokens", JInt (mrc_modelMaxOutputTokens c))].

(** The [type] discriminant of an event. *)
Definition payload_type (p : payload) : string :=
  match p with
  | SessionCreated _ _ _ _ => "session.created"
  | SessionResumed => "session.resumed"
  | SessionRenamed _ => "session.renamed"
  | SessionClosed _ => "session.closed"
  | UserMessage _ => "user.message"
  | QueueEnqueued _ _ => "queue.enqueued"
  | QueueRequeued _ _ => "queue.requeued"
  | QueueStarted _ => "queue.started"
  | QueuePaused _ => "queue.paused"
  | InterruptRequested _ _ => "interrupt.requested"
  | InterruptUpdated _ _ _ => "interrupt.updated"
  | UserShell _ _ _ _ => "user.shell"
  | AssistantMessage _ _ _ _ => "assistant.message"
  | RetryScheduled _ _ _ _ => "model.retry_scheduled"
  | ToolCall _ _ _ => "tool.call"
  | ToolResult _ _ _ _ _ => "tool.result"
  | ConfigRequest _ => "config.request"
  | RequestConfigured _ => "model.request_configured"
  | ConfigModel _ => "config.model"
  | ConfigProvider _ => "config.provider"
  | ConfigEntitlement _ => "config.entitlement"
  | ConfigProfile _ => "config.profile"
  | ConfigThinking _ _ _ => "config.thinking"
  | ConfigTools _ _ => "config.tools"
  | ConfigDialect _ _ _ => "config.dialect"
  | PromptSection _ _ _ => "prompt.section"
  | ToolSchema _ _ _ => "tool.schema"
  | ContextInjected _ _ => "context.injected"
  | ContextExtension _ _ _ => "context.extension"
  | PermissionRequested _ _ => "permission.requested"
  | PermissionResolved _ _ _ => "permission.resolved"
  | InteractionRequested _ _ _ _ _ => "interaction.requested"
  | InteractionResolved _ _ _ => "interaction.resolved"
  | SandboxConfigured _ _ _ _ => "sandbox.configured"
  | SandboxViolation _ _ => "sandbox.violation"
  | ContextCompacted _ _ _ => "context.compacted"
  | SessionErrorP _ _ _ _ => "session.error"
  | ChildResult _ _ _ => "child.result"
  end.

(** Its payload object. *)
Definition encode_payload (p : payload) : fields :=
  match p with
  | SessionCreated cwd profile parent source =>
      [("cwd", JStr cwd)] ++ opt_field "profile" (JEnum <$> profile)
      ++ opt_str "parentSessionId" parent ++ opt_str "sourceEventId" source
  | SessionResumed => []
  | SessionRenamed title => [("title", JStr title)]
  | SessionClosed reason => [("reason", JEnum reason)]
  | UserMessage items => [("content", encode_contents items)]
  | QueueEnqueued items prio => [("content", encode_contents items); ("priority", JEnum prio)]
  | QueueRequeued id prio => [("queueItemId", JStr id); ("priority", JEnum prio)]
  | QueueStarted id => [("queueItemId", JStr id)]
  | QueuePaused id => [("queueItemId", JStr id); ("reason", JStr "daemon_restart")]
  | InterruptRequested items target =>
      [("state", JStr "queued"); ("content", encode_contents items)]
      ++ opt_str "targetOperationId" target
  | InterruptUpdated state target reason =>
      [("state", JEnum state)] ++ opt_str "targetOperationId" target ++ opt_str "reason" reason
  | UserShell command items isError excluded =>
      [("command", JStr command); ("content", encode_contents items);
       ("isError", JBool isError); ("excluded", JBool excluded)]
  | AssistantMessage items stop usage err =>
      [("content", encode_contents items); ("stopReason", JEnum stop)]
      ++ opt_field "usage" (encode_usage <$> usage) ++ opt_str "errorMessage" err
  | RetryScheduled attempt maxAttempts delayMs errorCode =>
      [("attempt", JInt attempt); ("maxAttempts", JInt maxAttempts); ("delayMs", JInt delayMs);
       ("code", JStr errorCode)]
  | ToolCall callId name input =>
      [("callId", JStr callId); ("name", JStr name); ("input", JObj input)]
  | ToolResult callId name items isError details =>
      [("callId", JStr callId); ("name", JStr name); ("content", encode_contents items);
       ("isError", JBool isError)] ++ opt_field "details" details
  | ConfigRequest s => encode_settings s
  | RequestConfigured c => encode_configuration c
  | ConfigModel id => [("modelId", JStr id)]
  | ConfigProvider id => [("providerId", JStr id)]
  | ConfigEntitlement id => [("entitlementId", JStr id)]
  | ConfigProfile p => [("profile", JEnum p)]
  | ConfigThinking requested effective clamped =>
      [("requested", JEnum requested); ("effective", JEnum effective); ("clamped", JBool clamped)]
  | ConfigTools f s => [("webFetch", JBool f); ("webSearch", JBool s)]
  | ConfigDialect id fp reason =>
      [("dialectId", JStr id); ("rosterFingerprint", JStr fp); ("reason", JEnum reason)]
  | PromptSection name source body =>
      [("name", JStr name); ("source", JStr source); ("content", JStr body)]
  | ToolSchema name description schema =>
      [("name", JStr name); ("description", JStr description); ("inputSchema", JObj schema)]
  | ContextInjected source body => [("source", JStr source); ("content", JStr body)]
  | ContextExtension id source body =>
      [("extensionId", JStr id); ("source", JStr source); ("content", JStr body)]
  | PermissionRequested capability description =>
      [("capability", JStr capability); ("description", JStr description)]
  | PermissionResolved id decision reason =>
      [("requestId", JStr id); ("decision", JEnum decision)] ++ opt_str "reason" reason
  | InteractionRequested id kind source message data =>
      [("interactionId", JStr id); ("kind", JEnum kind); ("source", JStr source);
       ("message", JStr message)] ++ opt_field "data" (JObj <$> data)
  | InteractionResolved id action answer =>
      [("interactionId", JStr id); ("action", JEnum action)]
      ++ opt_field "content" (JObj <$> answer)
  | SandboxConfigured provider enforced controls details =>
      [("provider", JStr provider); ("enforced", JBool enforced);
       ("controls", JArr (JStr <$> controls))] ++ opt_field "details" (JObj <$> details)
  | SandboxViolation capability reason =>
      [("capability", JStr capability); ("reason", JStr reason)]
  | ContextCompacted summary ids usage =>
      [("summary", JStr summary); ("replacedEventIds", JArr (JStr <$> ids))]
      ++ opt_field "usage" (encode_usage <$> usage)
  | SessionErrorP errorCode message retryable details =>
      [("code", JStr errorCode); ("message", JStr message); ("retryable", JBool retryable)]
      ++ opt_field "details" details
  | ChildResult id status outcome =>
      [("childSessionId", JStr id); ("status", JEnum status)] ++ opt_field "result" outcome
  end.

Definition event_envelope (e : event) : EventEnvelope :=
  {| env_id := ev_id e; env_sessionId := ev_sessionId e; env_operationId := ev_operationId e;
     env_parentId := ev_parentId e; env_timestamp := ev_timestamp e;
     env_type := payload_type (ev_payload e); env_payload := encode_payload (ev_payload e) |}.

(** The JSON value of an event. *)
Definition event_value (e : event) : jsval := envelope_value (event_envelope e).
