(* ===== verification/ModelRequest.v ===== *)
(** protocol/src/model-request.ts: request settings and the token estimate
    shared by request fitting and compaction. *)
From stdpp Require Import base list sets strings pretty.
From Stdlib Require Import ZArith Lia.
From S2P Require Import Prelude Text JsValue Json Envelope Types.

(** ** Parsers *)

Definition integer (value : jsval) (minimum : Z) (path : string) : checked Z :=
  _ ← require (safe_int value && (minimum <=? int_val value)%Z)
        (invalid path ("must be a safe integer of at least " +:+ pretty minimum));
  Ok (int_val value).

Definition object (value : jsval) (allowed : list string) (path : string) : checked fields :=
  match value with
  | JObj fs | JInst fs =>
      _ ← each (λ key, require (bool_decide (key ∈ allowed)) (invalid (member path key) "unknown field"))
            (keys fs);
      Ok fs
  | _ => validationError path "must be an object"
  end.

Definition parseModelRequestSettings (value : jsval) (path : string) : checked ModelRequestSettings :=
  input ← object value ["maxOutputTokens"; "httpIdleTimeoutMs"] path;
  maxOutputTokens ← match get "maxOutputTokens" input with
                    | JNull => Ok None
                    | v => Some <$$> integer v 1 (member path "maxOutputTokens")
                    end;
  httpIdleTimeoutMs ← integer (get "httpIdleTimeoutMs" input) 0 (member path "httpIdleTimeoutMs");
  Ok {| mrs_maxOutputTokens := maxOutputTokens; mrs_httpIdleTimeoutMs := httpIdleTimeoutMs |}.

Definition parseModelRequestConfiguration (value : jsval) (path : string) :
    checked ModelRequestConfiguration :=
  input ← object value ["maxOutputTokens"; "httpIdleTimeoutMs"; "estimatedInputTokens";
                        "contextWindow"; "contextReserveTokens"; "modelMaxOutputTokens"] path;
  maxOutputTokens ← integer (get "maxOutputTokens" input) 1 (member path "maxOutputTokens");
  httpIdleTimeoutMs ← integer (get "httpIdleTimeoutMs" input) 0 (member path "httpIdleTimeoutMs");
  estimatedInputTokens ←
    integer (get "estimatedInputTokens" input) 0 (member path "estimatedInputTokens");
  contextWindow ← integer (get "contextWindow" input) 1 (member path "contextWindow");
  contextReserveTokens ←
    integer (get "contextReserveTokens" input) 0 (member path "contextReserveTokens");
  modelMaxOutputTokens ←
    integer (get "modelMaxOutputTokens" input) 1 (member path "modelMaxOutputTokens");
  _ ← refuse (modelMaxOutputTokens <? maxOutputTokens)%Z
        (invalid path "output exceeds the model maximum");
  Ok {| mrc_maxOutputTokens := maxOutputTokens; mrc_httpIdleTimeoutMs := httpIdleTimeoutMs;
        mrc_estimatedInputTokens := estimatedInputTokens; mrc_contextWindow := contextWindow;
        mrc_contextReserveTokens := contextReserveTokens;
        mrc_modelMaxOutputTokens := modelMaxOutputTokens |}.

(** What the two parsers establish. *)
Definition settings_ok (s : ModelRequestSettings) : Prop :=
  (∀ n, mrs_maxOutputTokens s = Some n → 1 <= n <= MAX_SAFE_INTEGER)%Z ∧
  (0 <= mrs_httpIdleTimeoutMs s <= MAX_SAFE_INTEGER)%Z.

Definition configuration_ok (c : ModelRequestConfiguration) : Prop :=
  (1 <= mrc_maxOutputTokens c <= mrc_modelMaxOutputTokens c)%Z ∧
  (mrc_modelMaxOutputTokens c <= MAX_SAFE_INTEGER)%Z ∧
  (0 <= mrc_httpIdleTimeoutMs c <= MAX_SAFE_INTEGER)%Z ∧
  (0 <= mrc_estimatedInputTokens c <= MAX_SAFE_INTEGER)%Z ∧
  (1 <= mrc_contextWindow c <= MAX_SAFE_INTEGER)%Z ∧
  (0 <= mrc_contextReserveTokens c <= MAX_SAFE_INTEGER)%Z.

(** ** Token estimates *)

(** [Math.ceil(n / 4)] for [n >= 0] *)
Definition quarter (n : Z) : Z := ((n + 3) / 4)%Z.

Definition sumZ {A} (f : A → Z) (l : list A) : Z := fold_right (λ x n, (f x + n)%Z) 0%Z l.

Definition item_characters (item : content) : Z :=
  match item with
  | CBlob _ => 4800
  | CText t | CThinking t => js_length t
  end.

Definition estimateModelMessageTokens (message : ModelMessage) : Z :=
  match message with
  | MUser items => quarter (sumZ item_characters items)
  | MAssistant items toolCalls =>
      quarter (sumZ item_characters items
               + sumZ (λ call, (js_length (tcr_name call)
                                + js_length (json_text (JObj (tcr_input call))))%Z) toolCalls)
  | MTool _ name items _ => quarter (sumZ item_characters items + js_length name)
  end.

Definition declaration_value (t : ToolDeclaration) : jsval :=
  JObj [("name", JStr (td_name t)); ("description", JStr (td_description t));
        ("inputSchema", JObj (td_inputSchema t))].

Definition estimateModelInputTokens (system : option string) (messages : list ModelMessage)
    (tools : list ToolDeclaration) : Z :=
  (quarter (match system with Some s => js_length s | None => 0 end)
   + sumZ estimateModelMessageTokens messages
   + match tools with
     | [] => 0
     | _ => quarter (js_length (json_text (JArr (declaration_value <$> tools))))
     end)%Z.

(** ** Facts *)

Section Facts.
Lemma integer_Ok v minimum path z :
  integer v minimum path = Ok z ↔
  safe_int v = true ∧ int_val v = z ∧ (minimum <= z)%Z.
Proof.
  unfold integer. split.
  - intros H. inv_ok. split_and!; [done | done | lia].
  - intros (Hs & <- & ?). rewrite Hs. by rewrite require_true by lia.
Qed.

Lemma integer_JInt z minimum path :
  (minimum <= z <= MAX_SAFE_INTEGER)%Z → (0 <= z)%Z → integer (JInt z) minimum path = Ok z.
Proof. intros. apply integer_Ok. split_and!; [|done|lia]. unfold JInt, safe_int, is_safe_integer. lia. Qed.

Lemma integer_range v minimum path z :
  integer v minimum path = Ok z → (minimum <= z <= MAX_SAFE_INTEGER)%Z.
Proof. intros (Hs & <- & ?)%integer_Ok. apply safe_int_spec in Hs. lia. Qed.

Lemma object_Ok v allowed path fs :
  object v allowed path = Ok fs ↔
  (v = JObj fs ∨ v = JInst fs) ∧ Forall (λ k, k ∈ allowed) (keys fs).
Proof.
  destruct v; simpl; try (split; [discriminate | intros [[|] _]; discriminate]);
    rewrite bind_Ok; setoid_rewrite each_elem_Ok; split.
  all: try (intros ([] & ? & [= <-]); eauto).
  all: intros [[[= ->]|[= ->]] ?]; by exists tt.
Qed.

Lemma settings_sound v path s : parseModelRequestSettings v path = Ok s → settings_ok s.
Proof.
  unfold parseModelRequestSettings. intros H. inv_ok.
  match goal with H : integer _ 0 _ = _ |- _ => apply integer_range in H end.
  split; [|done]. cbn [mrs_maxOutputTokens]. intros n ->.
  match goal with H : match get _ _ with _ => _ end = Ok (Some n) |- _ => revert H end.
  case_goal; intros; inv_ok; try discriminate;
    match goal with H : integer _ 1 _ = _ |- _ => by apply integer_range in H end.
Qed.

Lemma settings_complete s path :
  settings_ok s → parseModelRequestSettings (JObj (encode_settings s)) path = Ok s.
Proof.
  destruct s as [m t]. intros [Hm Ht]. unfold parseModelRequestSettings. cbn in Hm, Ht.
  rewrite (proj2 (object_Ok _ _ _ (encode_settings _))) by
    (split; [by left | repeat constructor; apply bool_decide_unpack; reflexivity]).
  unfold encode_settings. simpl get. cbn [rbind mrs_maxOutputTokens mrs_httpIdleTimeoutMs].
  rewrite (integer_JInt t) by lia. destruct m as [m|]; [|done].
  specialize (Hm m eq_refl). simpl (match JInt m with _ => _ end).
  fold (JInt m). by rewrite integer_JInt by lia.
Qed.

Lemma configuration_sound v path c :
  parseModelRequestConfiguration v path = Ok c → configuration_ok c.
Proof.
  unfold parseModelRequestConfiguration. intros H. inv_ok.
  repeat match goal with H : integer _ _ _ = _ |- _ => apply integer_range in H end.
  unfold configuration_ok; simpl; lia.
Qed.

Lemma configuration_complete c path :
  configuration_ok c → parseModelRequestConfiguration (JObj (encode_configuration c)) path = Ok c.
Proof.
  unfold configuration_ok. intros H. unfold parseModelRequestConfiguration.
  rewrite (proj2 (object_Ok _ _ _ (encode_configuration _))) by
    (split; [by left | repeat constructor; apply bool_decide_unpack; reflexivity]).
  cbn [rbind]. unfold encode_configuration. simpl get.
  repeat (rewrite integer_JInt by lia; cbn [rbind]).
  rewrite refuse_false by lia. by destruct c.
Qed.

Lemma js_length_nonneg s : (0 <= js_length s)%Z.
Proof.
  unfold js_length. induction (code_points s) as [|p l IH]; simpl; [lia|].
  assert (0 <= utf16_units p)%Z by (unfold utf16_units; destruct (65536 <=? p)%N; lia). lia.
Qed.

Lemma sumZ_nonneg {A} (f : A → Z) l : (∀ x, (0 <= f x)%Z) → (0 <= sumZ f l)%Z.
Proof. intros Hf. induction l as [|x l IH]; simpl; [lia|]. specialize (Hf x). lia. Qed.

Lemma sumZ_app {A} (f : A → Z) l1 l2 : sumZ f (l1 ++ l2) = (sumZ f l1 + sumZ f l2)%Z.
Proof. induction l1 as [|x l1 IH]; simpl; [done|]. lia. Qed.

Lemma item_characters_nonneg c : (0 <= item_characters c)%Z.
Proof. destruct c; simpl; try apply js_length_nonneg. lia. Qed.

Lemma estimate_nonneg m : (0 <= estimateModelMessageTokens m)%Z.
Proof.
  assert (Hq : ∀ z, (0 <= z)%Z → (0 <= quarter z)%Z) by (intros; unfold quarter; apply Z.div_pos; lia).
  pose proof (λ l, sumZ_nonneg item_characters l item_characters_nonneg) as Hc.
  destruct m as [l|l tc|id n l b]; simpl; apply Hq.
  - apply Hc.
  - pose proof (sumZ_nonneg (λ call, (js_length (tcr_name call) + js_length (json_text (JObj (tcr_input call))))%Z) tc) as Ht.
    specialize (Hc l). assert (∀ x, 0 <= js_length (tcr_name x) + js_length (json_text (JObj (tcr_input x))))%Z.
    { intros x. pose proof (js_length_nonneg (tcr_name x)).
      pose proof (js_length_nonneg (json_text (JObj (tcr_input x)))). lia. }
    specialize (Ht H). lia.
  - specialize (Hc l). pose proof (js_length_nonneg n). lia.
Qed.
End Facts.
