(* ===== verification/Events.v ===== *)
(** protocol/src/events.ts: the runtime checks of every event payload. *)
From stdpp Require Import base list sets strings pretty.
From Stdlib Require Import ZArith Lia.
From S2P Require Import Prelude Text JsValue Envelope Types ModelRequest.

(** ** Field checks *)

Definition exact (value : fields) (path : string) (required optional : list string) : checked unit :=
  _ ← each (λ key, require (bool_decide (key ∈ required ++ optional))
                     (invalid (member path key) "is not allowed")) (keys value);
  each (λ key, require (has_own key value) (invalid (member path key) "is required")) required.

Definition string_ (value : jsval) (path : string) (allowEmpty : bool) : checked string :=
  let e := invalid path (if allowEmpty then "must be a string" else "must be a non-empty string") in
  match value with
  | JStr s => _ ← require (allowEmpty || negb (bool_decide (s = ""))) e; Ok s
  | _ => Err e
  end.

Definition boolean (value : jsval) (path : string) : checked bool :=
  match value with
  | JBool b => Ok b
  | _ => validationError path "must be a boolean"
  end.

Definition nonNegativeInteger (value : jsval) (path : string) : checked Z :=
  match value with
  | JNum n =>
      _ ← require (is_safe_integer n && negb (is_negative n))
            (invalid path "must be a non-negative safe integer");
      Ok (int_of n)
  | _ => validationError path "must be a non-negative safe integer"
  end.

Definition nonNegativeNumber (value : jsval) (path : string) : checked number :=
  match value with
  | JNum n =>
      _ ← require (is_finite n && negb (is_negative n))
            (invalid path "must be a non-negative finite number");
      Ok n
  | _ => validationError path "must be a non-negative finite number"
  end.

Definition choice (value : jsval) (path : string) (values : list string) : checked string :=
  let e := invalid path ("must be one of: " +:+ join ", " values) in
  match value with
  | JStr s => _ ← require (bool_decide (s ∈ values)) e; Ok s
  | _ => Err e
  end.

Definition object (value : jsval) (path : string) : checked fields :=
  match value with
  | JObj fs | JInst fs => Ok fs
  | _ => validationError path "must be an object"
  end.

Definition array (value : jsval) (path : string) : checked (list jsval) :=
  match value with
  | JArr l => Ok l
  | _ => validationError path "must be an array"
  end.

(** [if (value !== undefined) check(value);] *)
Definition if_defined {A} (value : jsval) (check : jsval → checked A) : checked unit :=
  if is_undef value then Ok tt else _ ← check value; Ok tt.

Definition optionalString (value : jsval) (path : string) : checked unit :=
  if_defined value (λ v, string_ v path false).

Definition sha256_pattern : regex := RTimes 64 hex.

Definition validateBlob (value : jsval) (path : string) : checked unit :=
  blob ← object value path;
  _ ← exact blob path ["sha256"; "mediaType"; "sizeBytes"] ["name"];
  digest ← string_ (get "sha256" blob) (member path "sha256") false;
  _ ← require (rmatch sha256_pattern digest)
        (invalid (member path "sha256") "must be a lowercase SHA-256 digest");
  _ ← string_ (get "mediaType" blob) (member path "mediaType") false;
  _ ← nonNegativeInteger (get "sizeBytes" blob) (member path "sizeBytes");
  optionalString (get "name" blob) (member path "name").

Definition validate_item (path : string) (assistant : bool) (index : nat) (item : jsval) : checked unit :=
  let itemPath := element path index in
  c ← object item itemPath;
  type ← string_ (get "type" c) (member itemPath "type") false;
  if bool_decide (type = "text") || (assistant && bool_decide (type = "thinking")) then
    _ ← exact c itemPath ["type"; "text"] [];
    _ ← string_ (get "text" c) (member itemPath "text") true;
    Ok tt
  else if bool_decide (type = "blob") then
    _ ← exact c itemPath ["type"; "blob"] [];
    validateBlob (get "blob" c) (member itemPath "blob")
  else validationError (member itemPath "type") "is not allowed for this message".

Definition validateContent (value : jsval) (path : string) (assistant : bool) : checked unit :=
  items ← array value path;
  each_indexed (validate_item path assistant) items.

Definition usage_counts : list string :=
  ["inputTokens"; "outputTokens"; "cacheReadTokens"; "cacheWriteTokens"].

Definition validateUsage (value : jsval) (path : string) : checked unit :=
  usage ← object value path;
  _ ← exact usage path usage_counts ["reasoningTokens"; "costUsd"];
  _ ← each (λ key, _ ← nonNegativeInteger (get key usage) (member path key); Ok tt) usage_counts;
  _ ← if_defined (get "reasoningTokens" usage)
        (λ v, nonNegativeInteger v (member path "reasoningTokens"));
  if_defined (get "costUsd" usage) (λ v, nonNegativeNumber v (member path "costUsd")).

Definition validateStringArray (value : jsval) (path : string) : checked unit :=
  items ← array value path;
  each_indexed (λ i v, _ ← string_ v (element path i) false; Ok tt) items.

Definition validateEventIds (value : jsval) (path : string) : checked unit :=
  items ← array value path;
  each_indexed (λ i v, _ ← parseEventId v (element path i); Ok tt) items.

(** ** One parser per event type *)

(** A [PayloadParser] of the source returns its argument, except the two
    that rebuild the payload. *)
Abbreviation PayloadParser := (fields → string → checked fields).

Definition parse_session_created : PayloadParser := λ payload path,
  _ ← exact payload path ["cwd"] ["profile"; "parentSessionId"; "sourceEventId"];
  _ ← string_ (get "cwd" payload) (member path "cwd") false;
  _ ← if_defined (get "profile" payload)
        (λ v, choice v (member path "profile") ["minimal"; "standard"; "chat"; "exec"]);
  _ ← if_defined (get "parentSessionId" payload)
        (λ v, parseSessionId v (member path "parentSessionId"));
  _ ← if_defined (get "sourceEventId" payload)
        (λ v, parseEventId v (member path "sourceEventId"));
  Ok payload.

Definition parse_session_resumed : PayloadParser := λ payload path,
  _ ← exact payload path [] [];
  Ok payload.

Definition parse_session_renamed : PayloadParser := λ payload path,
  _ ← exact payload path ["title"] [];
  title ← string_ (get "title" payload) (member path "title") false;
  _ ← refuse (256 <? utf8_length title)%Z
        (invalid (member path "title") "must not exceed 256 UTF-8 bytes");
  _ ← refuse (bool_decide (title = "") || negb (is_trimmed title) || has_control title)
        (invalid (member path "title") "must be non-empty trimmed text without control characters");
  Ok payload.

Definition parse_session_closed : PayloadParser := λ payload path,
  _ ← exact payload path ["reason"] [];
  _ ← choice (get "reason" payload) (member path "reason") ["completed"; "disposed"; "failed"];
  Ok payload.

Definition parse_user_message : PayloadParser := λ payload path,
  _ ← exact payload path ["content"] [];
  _ ← validateContent (get "content" payload) (member path "content") false;
  Ok payload.

Definition parse_queue_enqueued : PayloadParser := λ payload path,
  _ ← exact payload path ["content"; "priority"] [];
  _ ← validateContent (get "content" payload) (member path "content") false;
  _ ← choice (get "priority" payload) (member path "priority") ["front"; "back"];
  Ok payload.

Definition parse_queue_requeued : PayloadParser := λ payload path,
  _ ← exact payload path ["queueItemId"; "priority"] [];
  _ ← parseEventId (get "queueItemId" payload) (member path "queueItemId");
  _ ← choice (get "priority" payload) (member path "priority") ["front"; "back"];
  Ok payload.

Definition parse_queue_started : PayloadParser := λ payload path,
  _ ← exact payload path ["queueItemId"] [];
  _ ← parseEventId (get "queueItemId" payload) (member path "queueItemId");
  Ok payload.

Definition parse_queue_paused : PayloadParser := λ payload path,
  _ ← exact payload path ["queueItemId"; "reason"] [];
  _ ← parseEventId (get "queueItemId" payload) (member path "queueItemId");
  _ ← choice (get "reason" payload) (member path "reason") ["daemon_restart"];
  Ok payload.

Definition parse_interrupt_requested : PayloadParser := λ payload path,
  _ ← exact payload path ["state"; "content"] ["targetOperationId"];
  _ ← choice (get "state" payload) (member path "state") ["queued"];
  _ ← validateContent (get "content" payload) (member path "content") false;
  _ ← if_defined (get "targetOperationId" payload)
        (λ v, parseOperationId v (member path "targetOperationId"));
  Ok payload.

Definition parse_interrupt_updated : PayloadParser := λ payload path,
  _ ← exact payload path ["state"] ["targetOperationId"; "reason"];
  state ← choice (get "state" payload) (member path "state") ["interrupting"; "delivered"; "failed"];
  _ ← if_defined (get "targetOperationId" payload)
        (λ v, parseOperationId v (member path "targetOperationId"));
  _ ← optionalString (get "reason" payload) (member path "reason");
  _ ← refuse (bool_decide (state = "interrupting") && is_undef (get "targetOperationId" payload))
        (invalid (member path "targetOperationId") "is required while interrupting");
  _ ← refuse (bool_decide (state = "failed") && is_undef (get "reason" payload))
        (invalid (member path "reason") "is required when failed");
  Ok payload.

Definition parse_user_shell : PayloadParser := λ payload path,
  _ ← exact payload path ["command"; "content"; "isError"; "excluded"] [];
  _ ← string_ (get "command" payload) (member path "command") false;
  _ ← validateContent (get "content" payload) (member path "content") false;
  _ ← boolean (get "isError" payload) (member path "isError");
  _ ← boolean (get "excluded" payload) (member path "excluded");
  Ok payload.

Definition parse_assistant_message : PayloadParser := λ payload path,
  _ ← exact payload path ["content"; "stopReason"] ["usage"; "errorMessage"];
  _ ← validateContent (get "content" payload) (member path "content") true;
  stopReason ← choice (get "stopReason" payload) (member path "stopReason")
                 ["stop"; "length"; "tool_use"; "error"; "aborted"];
  _ ← if_defined (get "usage" payload) (λ v, validateUsage v (member path "usage"));
  _ ← optionalString (get "errorMessage" payload) (member path "errorMessage");
  _ ← refuse (bool_decide (stopReason = "error") && is_undef (get "errorMessage" payload))
        (invalid (member path "errorMessage") "is required when stopReason is error");
  Ok payload.

Definition parse_retry_scheduled : PayloadParser := λ payload path,
  _ ← exact payload path ["attempt"; "maxAttempts"; "delayMs"; "code"] [];
  attempt ← nonNegativeInteger (get "attempt" payload) (member path "attempt");
  maxAttempts ← nonNegativeInteger (get "maxAttempts" payload) (member path "maxAttempts");
  _ ← nonNegativeInteger (get "delayMs" payload) (member path "delayMs");
  _ ← string_ (get "code" payload) (member path "code") false;
  _ ← refuse ((attempt <? 2) || (maxAttempts <? attempt))%Z
        (invalid (member path "attempt") "must be between 2 and maxAttempts");
  Ok payload.

Definition parse_tool_call : PayloadParser := λ payload path,
  _ ← exact payload path ["callId"; "name"; "input"] [];
  _ ← string_ (get "callId" payload) (member path "callId") false;
  _ ← string_ (get "name" payload) (member path "name") false;
  _ ← object (get "input" payload) (member path "input");
  Ok payload.

Definition parse_tool_result : PayloadParser := λ payload path,
  _ ← exact payload path ["callId"; "name"; "content"; "isError"] ["details"];
  _ ← string_ (get "callId" payload) (member path "callId") false;
  _ ← string_ (get "name" payload) (member path "name") false;
  _ ← validateContent (get "content" payload) (member path "content") false;
  _ ← boolean (get "isError" payload) (member path "isError");
  Ok payload.

Definition parse_config_request : PayloadParser := λ payload path,
  encode_settings <$$> parseModelRequestSettings (JObj payload) path.

Definition parse_request_configured : PayloadParser := λ payload path,
  encode_configuration <$$> parseModelRequestConfiguration (JObj payload) path.

(** [config.model], [config.provider] and [config.entitlement] differ in the key. *)
Definition parse_config_id (key : string) : PayloadParser := λ payload path,
  _ ← exact payload path [key] [];
  _ ← string_ (get key payload) (member path key) false;
  Ok payload.

Definition parse_config_profile : PayloadParser := λ payload path,
  _ ← exact payload path ["profile"] [];
  _ ← choice (get "profile" payload) (member path "profile") ["minimal"; "standard"; "chat"; "exec"];
  Ok payload.

Definition parse_config_thinking : PayloadParser := λ payload path,
  _ ← exact payload path ["requested"; "effective"; "clamped"] [];
  let levels := ["off"; "minimal"; "low"; "medium"; "high"; "xhigh"; "max"] in
  _ ← choice (get "requested" payload) (member path "requested") levels;
  _ ← choice (get "effective" payload) (member path "effective") levels;
  _ ← boolean (get "clamped" payload) (member path "clamped");
  Ok payload.

Definition parse_config_tools : PayloadParser := λ payload path,
  _ ← exact payload path ["webFetch"; "webSearch"] [];
  _ ← boolean (get "webFetch" payload) (member path "webFetch");
  _ ← boolean (get "webSearch" payload) (member path "webSearch");
  Ok payload.

Definition parse_config_dialect : PayloadParser := λ payload path,
  _ ← exact payload path ["dialectId"; "rosterFingerprint"; "reason"] [];
  _ ← string_ (get "dialectId" payload) (member path "dialectId") false;
  _ ← string_ (get "rosterFingerprint" payload) (member path "rosterFingerprint") false;
  _ ← choice (get "reason" payload) (member path "reason")
        ["session_start"; "model_switch"; "tool_change"; "reload"];
  Ok payload.

Definition parse_prompt_section : PayloadParser := λ payload path,
  _ ← exact payload path ["name"; "source"; "content"] [];
  _ ← string_ (get "name" payload) (member path "name") false;
  _ ← string_ (get "source" payload) (member path "source") false;
  _ ← string_ (get "content" payload) (member path "content") true;
  Ok payload.

Definition parse_tool_schema : PayloadParser := λ payload path,
  _ ← exact payload path ["name"; "description"; "inputSchema"] [];
  _ ← string_ (get "name" payload) (member path "name") false;
  _ ← string_ (get "description" payload) (member path "description") true;
  _ ← object (get "inputSchema" payload) (member path "inputSchema");
  Ok payload.

Definition parse_context_injected : PayloadParser := λ payload path,
  _ ← exact payload path ["source"; "content"] [];
  _ ← string_ (get "source" payload) (member path "source") false;
  _ ← string_ (get "content" payload) (member path "content") true;
  Ok payload.

Definition parse_context_extension : PayloadParser := λ payload path,
  _ ← exact payload path ["extensionId"; "source"; "content"] [];
  _ ← string_ (get "extensionId" payload) (member path "extensionId") false;
  _ ← string_ (get "source" payload) (member path "source") false;
  _ ← string_ (get "content" payload) (member path "content") true;
  Ok payload.

Definition parse_permission_requested : PayloadParser := λ payload path,
  _ ← exact payload path ["capability"; "description"] [];
  _ ← string_ (get "capability" payload) (member path "capability") false;
  _ ← string_ (get "description" payload) (member path "description") false;
  Ok payload.

Definition parse_permission_resolved : PayloadParser := λ payload path,
  _ ← exact payload path ["requestId"; "decision"] ["reason"];
  _ ← parseEventId (get "requestId" payload) (member path "requestId");
  _ ← choice (get "decision" payload) (member path "decision") ["allow_once"; "allow_session"; "deny"];
  _ ← optionalString (get "reason" payload) (member path "reason");
  Ok payload.

Definition parse_interaction_requested : PayloadParser := λ payload path,
  _ ← exact payload path ["interactionId"; "kind"; "source"; "message"] ["data"];
  _ ← string_ (get "interactionId" payload) (member path "interactionId") false;
  _ ← choice (get "kind" payload) (member path "kind")
        ["mcp_tool"; "mcp_sampling_request"; "mcp_sampling_response"; "mcp_elicitation_form";
         "mcp_elicitation_url"];
  _ ← string_ (get "source" payload) (member path "source") false;
  _ ← string_ (get "message" payload) (member path "message") false;
  _ ← if_defined (get "data" payload) (λ v, object v (member path "data"));
  Ok payload.

Definition parse_interaction_resolved : PayloadParser := λ payload path,
  _ ← exact payload path ["interactionId"; "action"] ["content"];
  _ ← string_ (get "interactionId" payload) (member path "interactionId") false;
  _ ← choice (get "action" payload) (member path "action") ["accept"; "decline"; "cancel"];
  _ ← if_defined (get "content" payload) (λ v, object v (member path "content"));
  Ok payload.

Definition parse_sandbox_configured : PayloadParser := λ payload path,
  _ ← exact payload path ["provider"; "enforced"; "controls"] ["details"];
  _ ← string_ (get "provider" payload) (member path "provider") false;
  _ ← boolean (get "enforced" payload) (member path "enforced");
  _ ← validateStringArray (get "controls" payload) (member path "controls");
  _ ← if_defined (get "details" payload) (λ v, object v (member path "details"));
  Ok payload.

Definition parse_sandbox_violation : PayloadParser := λ payload path,
  _ ← exact payload path ["capability"; "reason"] [];
  _ ← string_ (get "capability" payload) (member path "capability") false;
  _ ← string_ (get "reason" payload) (member path "reason") false;
  Ok payload.

Definition parse_context_compacted : PayloadParser := λ payload path,
  _ ← exact payload path ["summary"; "replacedEventIds"] ["usage"];
  _ ← string_ (get "summary" payload) (member path "summary") false;
  _ ← validateEventIds (get "replacedEventIds" payload) (member path "replacedEventIds");
  _ ← refuse (bool_decide (get "replacedEventIds" payload = JArr []))
        (invalid (member path "replacedEventIds") "must not be empty");
  _ ← if_defined (get "usage" payload) (λ v, validateUsage v (member path "usage"));
  Ok payload.

Definition parse_session_error : PayloadParser := λ payload path,
  _ ← exact payload path ["code"; "message"; "retryable"] ["details"];
  _ ← string_ (get "code" payload) (member path "code") false;
  _ ← string_ (get "message" payload) (member path "message") false;
  _ ← boolean (get "retryable" payload) (member path "retryable");
  Ok payload.

Definition parse_child_result : PayloadParser := λ payload path,
  _ ← exact payload path ["childSessionId"; "status"] ["result"];
  _ ← parseSessionId (get "childSessionId" payload) (member path "childSessionId");
  _ ← choice (get "status" payload) (member path "status") ["completed"; "failed"; "aborted"];
  Ok payload.

(** The table, in the order of its literal. *)
Definition payloadParsers : list (string * PayloadParser) :=
  [("session.created", parse_session_created);
   ("session.resumed", parse_session_resumed);
   ("session.renamed", parse_session_renamed);
   ("session.closed", parse_session_closed);
   ("user.message", parse_user_message);
   ("queue.enqueued", parse_queue_enqueued);
   ("queue.requeued", parse_queue_requeued);
   ("queue.started", parse_queue_started);
   ("queue.paused", parse_queue_paused);
   ("interrupt.requested", parse_interrupt_requested);
   ("interrupt.updated", parse_interrupt_updated);
   ("user.shell", parse_user_shell);
   ("assistant.message", parse_assistant_message);
   ("model.retry_scheduled", parse_retry_scheduled);
   ("tool.call", parse_tool_call);
   ("tool.result", parse_tool_result);
   ("config.request", parse_config_request);
   ("model.request_configured", parse_request_configured);
   ("config.model", parse_config_id "modelId");
   ("config.provider", parse_config_id "providerId");
   ("config.entitlement", parse_config_id "entitlementId");
   ("config.profile", parse_config_profile);
   ("config.thinking", parse_config_thinking);
   ("config.tools", parse_config_tools);
   ("config.dialect", parse_config_dialect);
   ("prompt.section", parse_prompt_section);
   ("tool.schema", parse_tool_schema);
   ("context.injected", parse_context_injected);
   ("context.extension", parse_context_extension);
   ("permission.requested", parse_permission_requested);
   ("permission.resolved", parse_permission_resolved);
   ("interaction.requested", parse_interaction_requested);
   ("interaction.resolved", parse_interaction_resolved);
   ("sandbox.configured", parse_sandbox_configured);
   ("sandbox.violation", parse_sandbox_violation);
   ("context.compacted", parse_context_compacted);
   ("session.error", parse_session_error);
   ("child.result", parse_child_result)].

Definition EVENT_TYPES : list string := payloadParsers.*1.

Fixpoint parser_of (type : string) (table : list (string * PayloadParser)) : option PayloadParser :=
  match table with
  | [] => None
  | (t, p) :: rest => if bool_decide (t = type) then Some p else parser_of type rest
  end.

Definition parseEvent (value : jsval) : checked EventEnvelope :=
  event ← parseEventEnvelope value;
  match parser_of (env_type event) payloadParsers with
  | None => validationError "event.type" "is not a recognized event type"
  | Some parse =>
      payload ← parse (env_payload event) "event.payload";
      Ok {| env_id := env_id event; env_sessionId := env_sessionId event;
            env_operationId := env_operationId event; env_parentId := env_parentId event;
            env_timestamp := env_timestamp event; env_type := env_type event;
            env_payload := payload |}
  end.
