(* ===== verification/Arith.v ===== *)
(** Arithmetic on binary64 numbers: the operators and [Math] functions the
    kernel uses.  A finite number is an exact dyadic [m / 2^k]; an operation is
    computed exactly and rounded to nearest, ties to even. *)
From stdpp Require Import base list strings.
From Stdlib Require Import ZArith Lia.
From S2P Require Import Prelude Text JsValue Json.

(** [m / 2^k] of a finite number. *)
Definition to_dyadic (n : number) : Z * nat :=
  match n with
  | NInt z => (z, 0)
  | NFrac m k => (m, Pos.to_nat k)
  | _ => (0%Z, 0)
  end.

Definition negated (n : number) : number :=
  match n with
  | NInt 0 => NNegZero
  | NInt z => NInt (- z)
  | NNegZero => NInt 0
  | NFrac m k => NFrac (- m) k
  | NInf b => NInf (negb b)
  | NNaN => NNaN
  end.

(** The exact value [m / 2^k], rounded; [zero] is the zero to return. *)
Definition rounded (m : Z) (k : nat) (zero : number) : number :=
  if (m =? 0)%Z then zero
  else if (m <? 0)%Z then negated (round_binary64 (- m) (2 ^ Z.of_nat k))
  else round_binary64 m (2 ^ Z.of_nat k).

Definition sign_bit (n : number) : bool :=
  match n with NNegZero => true | n => is_negative n end.
Definition is_zero (n : number) : bool := match n with NInt 0 | NNegZero => true | _ => false end.

(** [a * b] *)
Definition num_mul (a b : number) : number :=
  let neg := xorb (sign_bit a) (sign_bit b) in
  match a, b with
  | NNaN, _ | _, NNaN => NNaN
  | NInf _, x | x, NInf _ => if is_zero x then NNaN else NInf neg
  | _, _ =>
      let (m1, k1) := to_dyadic a in
      let (m2, k2) := to_dyadic b in
      rounded (m1 * m2) (k1 + k2) (if neg then NNegZero else NInt 0)
  end.

(** [a + b] *)
Definition num_add (a b : number) : number :=
  match a, b with
  | NNaN, _ | _, NNaN => NNaN
  | NInf s, NInf t => if Bool.eqb s t then NInf s else NNaN
  | NInf s, _ | _, NInf s => NInf s
  | NNegZero, NNegZero => NNegZero
  | _, _ =>
      let (m1, k1) := to_dyadic a in
      let (m2, k2) := to_dyadic b in
      rounded (m1 * 2 ^ Z.of_nat k2 + m2 * 2 ^ Z.of_nat k1) (k1 + k2) (NInt 0)
  end.
Definition num_sub (a b : number) : number := num_add a (negated b).

(** [a ** n] for a finite [a >= 1] and a natural [n], correctly rounded (the
    standard leaves the last bit to the implementation). *)
Definition num_pow (a : number) (n : nat) : number :=
  let (m, k) := to_dyadic a in rounded (m ^ Z.of_nat n) (k * n) (NInt 0).

(** [a < b]; false when one is NaN. *)
Definition num_lt (a b : number) : bool :=
  match a, b with
  | NNaN, _ | _, NNaN => false
  | NInf s, NInf t => s && negb t
  | NInf s, _ => s
  | _, NInf t => negb t
  | _, _ =>
      let (m1, k1) := to_dyadic a in
      let (m2, k2) := to_dyadic b in
      (m1 * 2 ^ Z.of_nat k2 <? m2 * 2 ^ Z.of_nat k1)%Z
  end.

(** [Math.min(a, b)] and [Math.max(a, b)] *)
Definition num_min (a b : number) : number :=
  match a, b with
  | NNaN, _ | _, NNaN => NNaN
  | NNegZero, NInt 0 | NInt 0, NNegZero => NNegZero
  | _, _ => if num_lt b a then b else a
  end.
Definition num_max (a b : number) : number :=
  match a, b with
  | NNaN, _ | _, NNaN => NNaN
  | NNegZero, NInt 0 | NInt 0, NNegZero => NInt 0
  | _, _ => if num_lt a b then b else a
  end.

(** [Math.round(a)] *)
Definition num_round (a : number) : number :=
  match a with
  | NFrac m k =>
      let z := ((2 * m + 2 ^ Z.pos k) / 2 ^ (Z.pos k + 1))%Z in
      if (z =? 0)%Z && (m <? 0)%Z then NNegZero else NInt z
  | n => n
  end.

Example pow_two : num_pow (NInt 2) 10 = NInt 1024.
Proof. reflexivity. Qed.
Example tenth_plus_fifth :
  number_to_string (num_add (NFrac 3602879701896397 55) (NFrac 3602879701896397 54)) = "0.30000000000000004".
Proof. vm_compute. reflexivity. Qed.
Example round_half : (num_round (NFrac 5 1), num_round (NFrac (-5) 1), num_round (NFrac (-1) 2)) = (NInt 3, NInt (-2), NNegZero).
Proof. reflexivity. Qed.

(** A rounded number clamped into [[0, maximum]] is an integer in that range. *)
Lemma clamp_round maximum x :
  (0 < maximum)%Z → x ≠ NNaN →
  ∃ z, num_min (NInt maximum) (num_max (NInt 0) (num_round x)) = NInt z ∧ (0 <= z <= maximum)%Z.
Proof.
  intros Hm Hx.
  assert (Hint : ∀ z, ∃ y, num_min (NInt maximum) (num_max (NInt 0) (NInt z)) = NInt y ∧ (0 <= y <= maximum)%Z).
  { intros z. unfold num_max, num_lt, to_dyadic. rewrite !Z.mul_1_r.
    destruct (Z.ltb_spec 0 z) as [Hz|Hz].
    - unfold num_min, num_lt, to_dyadic. rewrite !Z.mul_1_r.
      destruct maximum as [|p|p]; [lia| |lia]. destruct (Z.ltb_spec z (Z.pos p)) as [Hzm|Hzm]; destruct z; eexists; (split; [reflexivity|]); lia.
    - unfold num_min, num_lt, to_dyadic. rewrite !Z.mul_1_r. destruct maximum as [|p|p]; [lia| |lia].
      destruct z; simpl; eexists; (split; [reflexivity|]); lia. }
  assert (Hnz : num_min (NInt maximum) (num_max (NInt 0) NNegZero) = NInt 0) by (by destruct maximum; try lia).
  destruct x as [z| |m k|[]|]; try done.
  - apply Hint.
  - exists 0%Z. split; [exact Hnz|lia].
  - unfold num_round. destruct (_ && _); [exists 0%Z; split; [exact Hnz|lia] | apply Hint].
  - simpl. destruct maximum; try lia. eexists. split; [reflexivity|lia].
  - simpl. destruct maximum; try lia. eexists. split; [reflexivity|lia].
Qed.

Lemma min_round maximum x :
  (0 < maximum)%Z → is_finite x = true → is_negative x = false →
  ∃ z, (num_min (NInt maximum) (num_round x) = NInt z ∧ (0 <= z <= maximum)%Z)
       ∨ num_min (NInt maximum) (num_round x) = NNegZero.
Proof.
  intros Hm Hf Hn.
  assert (Hint : ∀ z, (0 <= z)%Z → ∃ y, num_min (NInt maximum) (NInt z) = NInt y ∧ (0 <= y <= maximum)%Z).
  { intros z Hz. unfold num_min, num_lt, to_dyadic. rewrite !Z.mul_1_r.
    destruct maximum as [|p|p]; [lia| |lia]. destruct (Z.ltb_spec z (Z.pos p)) as [Hzm|Hzm]; destruct z; eexists; (split; [reflexivity|]); lia. }
  destruct x as [z| |m k|[]|]; try done.
  - simpl in *. destruct (Hint z) as (y & Hy); [lia|]. eauto.
  - exists 0%Z. right. simpl. by destruct maximum; try lia.
  - simpl in Hn. unfold num_round. rewrite Hn, andb_false_r.
    destruct (Hint ((2 * m + 2 ^ Z.pos k) / 2 ^ (Z.pos k + 1))%Z) as (y & Hy); [|eauto].
    apply Z.div_pos; [|apply Z.pow_pos_nonneg; lia].
    assert (0 < 2 ^ Z.pos k)%Z by (apply Z.pow_pos_nonneg; lia). lia.
Qed.

(** ** Bounds of rounding *)

(** A number of at least 1, infinity included. *)
Definition at_least_one (n : number) : Prop :=
  match n with
  | NInt z => (1 <= z)%Z
  | NFrac m k => (2 ^ Z.pos k <= m)%Z
  | NInf neg => neg = false
  | _ => False
  end.

Section Rounding.
#[local] Open Scope Z_scope.

Lemma round_half_even_lower a b c : 0 < b → b * c <= a → c <= round_half_even a b.
Proof.
  intros Hb Ha. assert (c <= a / b) by (apply Z.div_le_lower_bound; lia).
  unfold round_half_even. repeat case_match; lia.
Qed.

Lemma round_half_even_upper a b c : 0 < b → a <= b * c → round_half_even a b <= c + 1.
Proof.
  intros Hb Ha. assert (a / b <= c) by (apply Z.div_le_upper_bound; lia).
  unfold round_half_even. repeat case_match; lia.
Qed.

Lemma norm_dyadic_one m k : 2 ^ Z.of_nat k <= m → at_least_one (norm_dyadic m k).
Proof.
  revert m; induction k as [|k IH]; intros m Hm; cbn [norm_dyadic]; [exact Hm|].
  rewrite Nat2Z.inj_succ, Z.pow_succ_r in Hm by lia. destruct (Z.even m).
  - apply IH. apply Z.div_le_lower_bound; lia.
  - unfold at_least_one. by rewrite Zpos_P_of_succ_nat, Z.pow_succ_r by lia.
Qed.

Lemma norm_dyadic_finite m k : is_finite (norm_dyadic m k) = true.
Proof. revert m; induction k as [|k IH]; intros m; simpl; [done|]. by destruct (Z.even m). Qed.

(** [b * 2^e <= a] for every exponent the rounding may use. *)
Lemma exponent_lower a b e : 0 < b → b <= a → 0 <= e → e <= Z.log2 a - Z.log2 b - 52 → b * 2 ^ e <= a.
Proof.
  intros Hb Hab He Hle.
  destruct (Z.log2_spec a ltac:(lia)) as [Ha _]. destruct (Z.log2_spec b ltac:(lia)) as [_ Hb2].
  assert (b * 2 ^ e <= 2 ^ Z.succ (Z.log2 b) * 2 ^ e) by (apply Z.mul_le_mono_nonneg_r; lia).
  rewrite <- Z.pow_add_r in H by (pose proof (Z.log2_nonneg b); lia).
  assert (2 ^ (Z.succ (Z.log2 b) + e) <= 2 ^ Z.log2 a) by (apply Z.pow_le_mono_r; lia). lia.
Qed.

Lemma round_one a b : 0 < b → b <= a → at_least_one (round_binary64 a b).
Proof.
  intros Hb Hab. unfold round_binary64.
  set (e0 := Z.log2 a - Z.log2 b - 52).
  set (scaled := λ e, if 0 <=? e then round_half_even a (b * 2 ^ e) else round_half_even (a * 2 ^ (- e)) b).
  set (e := Z.max (-1074) (if scaled e0 <? 2 ^ 52 then e0 - 1 else e0)).
  assert (He : e <= e0).
  { pose proof (Z.log2_le_mono b a Hab). unfold e. case_match; lia. }
  change (if (0 <=? e0)%Z then _ else _) with (scaled e0).
  change (at_least_one (if 2 ^ 1024 <=? scaled e * 2 ^ Z.max 0 e then NInf false
    else if 0 <=? e then NInt (scaled e * 2 ^ e) else if scaled e =? 0 then NInt 0
    else norm_dyadic (scaled e) (Z.to_nat (- e)))).
  destruct (2 ^ 1024 <=? _); [done|]. unfold scaled at 1. destruct (Z.leb_spec 0 e) as [Hpos|Hneg].
  - assert (1 <= scaled e).
    { unfold scaled. rewrite (proj2 (Z.leb_le 0 e)) by lia. apply round_half_even_lower.
      - apply Z.mul_pos_pos; [lia|]. by apply Z.pow_pos_nonneg.
      - rewrite Z.mul_1_r. by apply exponent_lower. }
    simpl. unfold scaled in H. rewrite (proj2 (Z.leb_le 0 e)) in H by lia.
    assert (0 < 2 ^ e) by (by apply Z.pow_pos_nonneg). nia.
  - assert (Hm : 2 ^ (- e) <= scaled e).
    { unfold scaled. rewrite (proj2 (Z.leb_gt 0 e)) by lia. apply round_half_even_lower; [lia|].
      apply Z.mul_le_mono_nonneg_r; [apply Z.pow_nonneg; lia | lia]. }
    assert (0 < 2 ^ (- e)) by (apply Z.pow_pos_nonneg; lia).
    destruct (Z.eqb_spec (scaled e) 0); [lia|]. apply norm_dyadic_one. by rewrite Z2Nat.id by lia.
Qed.

(** The scaled significand of a rounding has at most 55 bits. *)
Lemma significand_upper a b e :
  0 < a → 0 < b → Z.log2 a - Z.log2 b - 53 <= e →
  (if 0 <=? e then round_half_even a (b * 2 ^ e) else round_half_even (a * 2 ^ (- e)) b) <= 2 ^ 54 + 1.
Proof.
  intros Ha Hb He. pose proof (Z.log2_nonneg a). pose proof (Z.log2_nonneg b).
  destruct (Z.log2_spec a Ha) as [_ Ua]. destruct (Z.log2_spec b Hb) as [Lb _].
  destruct (Z.leb_spec 0 e) as [Hpos|Hneg].
  - assert (0 < 2 ^ e) by (by apply Z.pow_pos_nonneg).
    apply round_half_even_upper; [by apply Z.mul_pos_pos|].
    assert (2 ^ Z.succ (Z.log2 a) <= 2 ^ (Z.log2 b + e + 54)) as Hexp by (apply Z.pow_le_mono_r; lia).
    rewrite (Z.pow_add_r 2 (Z.log2 b + e) 54), (Z.pow_add_r 2 (Z.log2 b) e) in Hexp by lia.
    assert (2 ^ Z.log2 b * 2 ^ e <= b * 2 ^ e) by (apply Z.mul_le_mono_nonneg_r; lia).
    assert (2 ^ Z.log2 b * 2 ^ e * 2 ^ 54 <= b * 2 ^ e * 2 ^ 54) by (apply Z.mul_le_mono_nonneg_r; lia). lia.
  - apply round_half_even_upper; [done|].
    assert (Hscale : a * 2 ^ (- e) <= 2 ^ Z.succ (Z.log2 a) * 2 ^ (- e))
      by (apply Z.mul_le_mono_nonneg_r; [apply Z.pow_nonneg; lia | lia]).
    rewrite <- Z.pow_add_r in Hscale by lia.
    assert (Hexp : 2 ^ (Z.succ (Z.log2 a) + - e) <= 2 ^ (Z.log2 b + 54)) by (apply Z.pow_le_mono_r; lia).
    rewrite (Z.pow_add_r 2 (Z.log2 b) 54) in Hexp by lia.
    assert (2 ^ Z.log2 b * 2 ^ 54 <= b * 2 ^ 54) by (apply Z.mul_le_mono_nonneg_r; lia). lia.
Qed.

(** [|n| <= c], and [n] is finite. *)
Definition bounded (c : Z) (n : number) : Prop :=
  is_finite n = true ∧ Z.abs (to_dyadic n).1 <= c * 2 ^ Z.of_nat (to_dyadic n).2.

Lemma norm_dyadic_bounded c m k : 0 <= m <= c * 2 ^ Z.of_nat k → bounded c (norm_dyadic m k).
Proof.
  revert m; induction k as [|k IH]; intros m Hm; cbn [norm_dyadic].
  - split; simpl; [done|]. simpl in Hm. lia.
  - destruct (Z.even m).
    + apply IH. rewrite Nat2Z.inj_succ, Z.pow_succ_r in Hm by lia. split; [apply Z.div_pos; lia|].
      apply Z.div_le_upper_bound; lia.
    + split; [done|]. unfold to_dyadic. cbn [fst snd]. rewrite SuccNat2Pos.id_succ. lia.
Qed.

(** A quotient of at most [2^c] does not overflow. *)
Lemma round_bounded a b c :
  0 < a → 0 < b → 52 <= c <= 900 → a <= b * 2 ^ c → bounded (2 ^ (c + 4)) (round_binary64 a b).
Proof.
  intros Ha Hb Hc Hab. unfold round_binary64.
  set (e0 := Z.log2 a - Z.log2 b - 52).
  set (scaled := λ e, if 0 <=? e then round_half_even a (b * 2 ^ e) else round_half_even (a * 2 ^ (- e)) b).
  change (if (0 <=? e0)%Z then _ else _) with (scaled e0).
  set (e := Z.max (-1074) (if scaled e0 <? 2 ^ 52 then e0 - 1 else e0)).
  change (bounded (2 ^ (c + 4)) (if 2 ^ 1024 <=? scaled e * 2 ^ Z.max 0 e then NInf false
    else if 0 <=? e then NInt (scaled e * 2 ^ e) else if scaled e =? 0 then NInt 0
    else norm_dyadic (scaled e) (Z.to_nat (- e)))).
  assert (He : e0 - 1 <= e) by (unfold e; case_match; lia).
  assert (Hlog : Z.log2 a <= Z.log2 b + c + 1).
  { destruct (Z.log2_spec a Ha) as [La _]. destruct (Z.log2_spec b Hb) as [_ Ub].
    pose proof (Z.log2_nonneg b).
    apply Z.lt_succ_r, (Z.pow_lt_mono_r_iff 2); [lia|lia|].
    eapply Z.le_lt_trans; [exact La|]. eapply Z.le_lt_trans; [exact Hab|].
    replace (Z.succ (Z.log2 b + c + 1)) with (Z.succ (Z.log2 b) + (c + 1)) by lia.
    rewrite Z.pow_add_r by lia.
    apply Z.mul_lt_mono_nonneg; [lia|lia|apply Z.pow_nonneg; lia|apply Z.pow_lt_mono_r; lia]. }
  assert (Hup : scaled e <= 2 ^ 54 + 1) by (apply significand_upper; lia).
  assert (Hlow : 0 <= scaled e).
  { unfold scaled. case_match; apply round_half_even_lower; lia. }
  assert (Hmax : Z.max 0 e <= c - 51) by (unfold e; case_match; lia).
  assert (Hpow : 2 ^ Z.max 0 e <= 2 ^ (c - 51)) by (apply Z.pow_le_mono_r; lia).
  assert (0 < 2 ^ Z.max 0 e) by (apply Z.pow_pos_nonneg; lia).
  assert (Hval : scaled e * 2 ^ Z.max 0 e <= 2 ^ (c + 4)).
  { replace (c + 4) with (55 + (c - 51)) by lia. rewrite Z.pow_add_r by lia.
    apply Z.mul_le_mono_nonneg; lia. }
  destruct (Z.leb_spec (2 ^ 1024) (scaled e * 2 ^ Z.max 0 e)) as [Hbig|_].
  { assert (2 ^ (c + 4) < 2 ^ 1024) by (apply Z.pow_lt_mono_r; lia). lia. }
  destruct (Z.leb_spec 0 e) as [Hpos|Hneg].
  - split; [done|]. cbn [to_dyadic fst snd]. rewrite Z.max_r in Hval by done.
    assert (0 <= 2 ^ e) by (by apply Z.pow_nonneg). rewrite Z.abs_eq by (by apply Z.mul_nonneg_nonneg). lia.
  - destruct (scaled e =? 0); [split; [done|]; cbn; pose proof (Z.pow_nonneg 2 (c + 4)); lia|].
    apply norm_dyadic_bounded. split; [done|]. rewrite Z.max_l in Hval by lia.
    assert (1 <= 2 ^ Z.of_nat (Z.to_nat (- e))) by (change 1 with (2 ^ 0); apply Z.pow_le_mono_r; lia).
    assert (0 <= 2 ^ (c + 4)) by (apply Z.pow_nonneg; lia). nia.
Qed.

Lemma negated_bounded c n : bounded c n → bounded c (negated n).
Proof.
  intros [Hf Hb]. destruct n as [[|p|p]| |m k| |]; try done; split; try done;
    cbn [negated to_dyadic fst snd] in *; lia.
Qed.

Lemma rounded_bounded m k c z :
  52 <= c <= 900 → bounded (2 ^ (c + 4)) z → Z.abs m <= 2 ^ Z.of_nat k * 2 ^ c →
  bounded (2 ^ (c + 4)) (rounded m k z).
Proof.
  intros Hc Hz Hm. assert (0 < 2 ^ Z.of_nat k) by (apply Z.pow_pos_nonneg; lia). unfold rounded.
  destruct (Z.eqb_spec m 0); [done|]. destruct (Z.ltb_spec m 0).
  - apply negated_bounded, round_bounded; lia.
  - apply round_bounded; lia.
Qed.

Lemma negated_nan n : negated n = NNaN → n = NNaN.
Proof. by destruct n as [[]| | | |]. Qed.

Lemma round_not_nan a b : round_binary64 a b ≠ NNaN.
Proof.
  unfold round_binary64. repeat case_match; try done; intros Hn;
    (match type of Hn with norm_dyadic ?m ?k = _ => pose proof (norm_dyadic_finite m k) as Hf end);
    by rewrite Hn in Hf.
Qed.

Lemma rounded_not_nan m k z : z ≠ NNaN → rounded m k z ≠ NNaN.
Proof.
  intros Hz. unfold rounded. repeat case_match; [done| |apply round_not_nan].
  intros Hn%negated_nan. by apply round_not_nan in Hn.
Qed.
End Rounding.

Section Bounds.
#[local] Open Scope Z_scope.

Lemma at_least_one_dyadic n :
  at_least_one n → is_finite n = true → 2 ^ Z.of_nat (to_dyadic n).2 <= (to_dyadic n).1.
Proof. destruct n; simpl; try done. by rewrite positive_nat_Z. Qed.

Lemma rounded_one m k z : 2 ^ Z.of_nat k <= m → at_least_one (rounded m k z).
Proof.
  intros Hm. assert (0 < 2 ^ Z.of_nat k) by (apply Z.pow_pos_nonneg; lia). unfold rounded.
  destruct (Z.eqb_spec m 0); [lia|]. destruct (Z.ltb_spec m 0); [lia|]. by apply round_one.
Qed.

Lemma num_pow_one a n : at_least_one a → is_finite a = true → at_least_one (num_pow a n).
Proof.
  intros Ha Hf. pose proof (at_least_one_dyadic a Ha Hf) as Hd. unfold num_pow.
  destruct (to_dyadic a) as [m k]. simpl in Hd. apply rounded_one.
  rewrite Nat2Z.inj_mul, Z.pow_mul_r by lia. apply Z.pow_le_mono_l. split; [by apply Z.pow_nonneg | done].
Qed.

(** The product of finite numbers. *)
Lemma num_mul_finite a b :
  is_finite a = true → is_finite b = true →
  num_mul a b = rounded ((to_dyadic a).1 * (to_dyadic b).1) ((to_dyadic a).2 + (to_dyadic b).2)
                  (if xorb (sign_bit a) (sign_bit b) then NNegZero else NInt 0).
Proof. by destruct a, b. Qed.

Lemma num_mul_one a b : at_least_one a → at_least_one b → at_least_one (num_mul a b).
Proof.
  intros Ha Hb.
  assert (Hs : sign_bit a = false ∧ is_zero a = false).
  { destruct a as [[]| |m k| |]; simpl in *; try done. split; [|done].
    assert (0 < 2 ^ Z.pos k) by (by apply Z.pow_pos_nonneg). apply Z.ltb_ge. lia. }
  assert (Ht : sign_bit b = false ∧ is_zero b = false).
  { destruct b as [[]| |m k| |]; simpl in *; try done. split; [|done].
    assert (0 < 2 ^ Z.pos k) by (by apply Z.pow_pos_nonneg). apply Z.ltb_ge. lia. }
  destruct Hs as [Hs Hz], Ht as [Ht Hy].
  destruct (is_finite a) eqn:Fa.
  - destruct (is_finite b) eqn:Fb.
    + pose proof (at_least_one_dyadic a Ha Fa). pose proof (at_least_one_dyadic b Hb Fb).
      rewrite num_mul_finite by done. apply rounded_one. rewrite Nat2Z.inj_add, Z.pow_add_r by lia.
      apply Z.mul_le_mono_nonneg; [by apply Z.pow_nonneg|done|by apply Z.pow_nonneg|done].
    + destruct b; try done. unfold num_mul. rewrite Hs, Ht, Hz. by destruct a.
  - destruct a; try done. unfold num_mul. rewrite Hs, Ht, Hy. by destruct b.
Qed.

Lemma num_min_one maximum x :
  1 <= maximum → at_least_one x → is_finite (num_min (NInt maximum) x) = true ∧ at_least_one (num_min (NInt maximum) x).
Proof.
  intros Hm Hx. destruct maximum as [|p|p]; [lia| |lia].
  destruct x as [z| |m k|neg|]; try done; unfold num_min.
  - destruct (num_lt _ _), z; simpl in *; split; done || lia.
  - destruct (num_lt _ _); done.
  - simpl in Hx. by subst.
Qed.

Lemma num_mul_finite_not_nan a b : is_finite a = true → is_finite b = true → num_mul a b ≠ NNaN.
Proof. intros Fa Fb. rewrite num_mul_finite by done. apply rounded_not_nan. by case_match. Qed.

Lemma num_mul_not_nan a b : is_finite a = true → is_zero a = false → b ≠ NNaN → num_mul a b ≠ NNaN.
Proof.
  intros Fa Za Hb. destruct (is_finite b) eqn:Fb; [by apply num_mul_finite_not_nan|].
  destruct b; try done. unfold num_mul. rewrite Za. by destruct a.
Qed.

(** A finite sample clamped to [[0, 1]]. *)
Lemma clamp_unit r :
  is_finite r = true → bounded 1 (num_min (NInt 1) (num_max (NInt 0) r)).
Proof.
  intros Hf.
  assert (0 < 2 ^ Z.of_nat 0) by done.
  destruct r as [z| |m k| |]; try done; unfold num_max, num_lt, to_dyadic.
  - destruct z as [|p|p]; [done| |done]. rewrite !Z.mul_1_r. cbn -[Z.mul Z.pow].
    unfold num_min, num_lt, to_dyadic. rewrite !Z.mul_1_r. destruct (Z.ltb_spec (Z.pos p) 1); [lia|done].
  - destruct (Z.ltb_spec (0 * 2 ^ Z.of_nat (Pos.to_nat k)) (m * 2 ^ Z.of_nat 0)) as [Hp|Hp]; [|done].
    unfold num_min, num_lt, to_dyadic. destruct (Z.ltb_spec (m * 2 ^ Z.of_nat 0) (1 * 2 ^ Z.of_nat (Pos.to_nat k))); [|done].
    split; [done|]. cbn [to_dyadic fst snd]. rewrite Z.pow_0_r in *. lia.
Qed.

Lemma num_mul_bounded a b c d :
  bounded c a → bounded d b → 0 <= c → 0 <= d → c * d <= 2 ^ 52 → bounded (2 ^ 56) (num_mul a b).
Proof.
  intros [Fa Ba] [Fb Bb] Hc Hd Hcd. rewrite num_mul_finite by done.
  apply (rounded_bounded _ _ 52); [lia | by case_match|].
  rewrite Nat2Z.inj_add, Z.pow_add_r, Z.abs_mul by lia.
  set (x := 2 ^ Z.of_nat (to_dyadic a).2) in *. set (y := 2 ^ Z.of_nat (to_dyadic b).2) in *.
  assert (0 < x) by (apply Z.pow_pos_nonneg; lia). assert (0 < y) by (apply Z.pow_pos_nonneg; lia).
  transitivity (c * x * (d * y)).
  - apply Z.mul_le_mono_nonneg; lia.
  - replace (c * x * (d * y)) with (x * y * (c * d)) by lia. apply Z.mul_le_mono_nonneg_l; [|done]. lia.
Qed.

(** A product minus one stays finite. *)
Lemma num_sub_one_finite a : bounded (2 ^ 56) a → is_finite (num_sub a (NInt 1)) = true.
Proof.
  intros [Fa Ba].
  assert (num_sub a (NInt 1) = rounded ((to_dyadic a).1 * 1 + -1 * 2 ^ Z.of_nat (to_dyadic a).2)
    ((to_dyadic a).2 + 0) (NInt 0)) as -> by (by destruct a).
  apply (rounded_bounded _ _ 60); [lia | done|]. rewrite Nat.add_0_r.
  set (x := 2 ^ Z.of_nat (to_dyadic a).2) in *. assert (0 < x) by (apply Z.pow_pos_nonneg; lia). lia.
Qed.

Lemma num_add_not_nan a b : is_finite a = true → b ≠ NNaN → num_add a b ≠ NNaN.
Proof.
  intros Fa Hb. destruct a, b; try done; unfold num_add;
    (match goal with |- context [to_dyadic ?x] => destruct (to_dyadic x) end);
    (match goal with |- context [to_dyadic ?x] => destruct (to_dyadic x) end); by apply rounded_not_nan.
Qed.
End Bounds.
