(* ===== verification/EventSchema.v ===== *)
(** The runtime checks of events.ts implement its static types.

    [decode_event] reads a validated envelope as a value of the type
    [CanonicalEvent]; [event_ok] is the invariant every stored event satisfies.
    The theorems: [parseEvent] accepts exactly the JSON of typed events that
    satisfy the invariant, and what it accepts it accepts again unchanged. *)
From stdpp Require Import base list sets strings pretty.
From Stdlib Require Import ZArith Lia.
From S2P Require Import Prelude Text JsValue Envelope Types ModelRequest Events.

(** ** Reading typed values *)

Definition as_str (v : jsval) : option string := match v with JStr s => Some s | _ => None end.
Definition as_bool (v : jsval) : option bool := match v with JBool b => Some b | _ => None end.
Definition as_int (v : jsval) : option Z := if safe_int v then Some (int_val v) else None.
Definition as_num (v : jsval) : option number := match v with JNum n => Some n | _ => None end.
Definition as_fields (v : jsval) : option fields := match v with JObj fs => Some fs | _ => None end.
Definition as_list (v : jsval) : option (list jsval) := match v with JArr l => Some l | _ => None end.
Definition as_enum (A : Type) `{Enum A} (v : jsval) : option A :=
  as_str v ≫= enum_of A.
Definition as_json (v : jsval) : option jsval := Some v.

(** A property that may be absent. *)
Definition optional {A} (f : jsval → option A) (v : jsval) : option (option A) :=
  if is_undef v then Some None else Some <$> f v.

#[local] Open Scope stdpp_scope.

Definition decode_blob (v : jsval) : option BlobReference :=
  fs ← as_fields v;
  sha256 ← as_str (get "sha256" fs);
  mediaType ← as_str (get "mediaType" fs);
  sizeBytes ← as_int (get "sizeBytes" fs);
  name ← optional as_str (get "name" fs);
  Some {| blob_sha256 := sha256; blob_mediaType := mediaType; blob_sizeBytes := sizeBytes;
          blob_name := name |}.

Definition decode_content (v : jsval) : option content :=
  fs ← as_fields v;
  type ← as_str (get "type" fs);
  if bool_decide (type = "text") then CText <$> as_str (get "text" fs)
  else if bool_decide (type = "thinking") then CThinking <$> as_str (get "text" fs)
  else CBlob <$> decode_blob (get "blob" fs).
Definition decode_contents (v : jsval) : option (list content) := l ← as_list v; mapM decode_content l.

Definition decode_usage (v : jsval) : option Usage :=
  fs ← as_fields v;
  i ← as_int (get "inputTokens" fs);
  o ← as_int (get "outputTokens" fs);
  cr ← as_int (get "cacheReadTokens" fs);
  cw ← as_int (get "cacheWriteTokens" fs);
  r ← optional as_int (get "reasoningTokens" fs);
  c ← optional as_num (get "costUsd" fs);
  Some {| usage_inputTokens := i; usage_outputTokens := o; usage_cacheReadTokens := cr;
          usage_cacheWriteTokens := cw; usage_reasoningTokens := r; usage_costUsd := c |}.

Definition decode_settings (fs : fields) : option ModelRequestSettings :=
  m ← match get "maxOutputTokens" fs with JNull => Some None | v => Some <$> as_int v end;
  t ← as_int (get "httpIdleTimeoutMs" fs);
  Some {| mrs_maxOutputTokens := m; mrs_httpIdleTimeoutMs := t |}.

Definition decode_configuration (fs : fields) : option ModelRequestConfiguration :=
  m ← as_int (get "maxOutputTokens" fs);
  t ← as_int (get "httpIdleTimeoutMs" fs);
  e ← as_int (get "estimatedInputTokens" fs);
  w ← as_int (get "contextWindow" fs);
  r ← as_int (get "contextReserveTokens" fs);
  x ← as_int (get "modelMaxOutputTokens" fs);
  Some {| mrc_maxOutputTokens := m; mrc_httpIdleTimeoutMs := t; mrc_estimatedInputTokens := e;
          mrc_contextWindow := w; mrc_contextReserveTokens := r; mrc_modelMaxOutputTokens := x |}.

Definition as_strings (v : jsval) : option (list string) := l ← as_list v; mapM as_str l.

(** One decoder per entry of [payloadParsers], in the same order. *)
Definition payloadDecoders : list (string * (fields → option payload)) :=
  [("session.created", λ fs,
      c ← as_str (get "cwd" fs); p ← optional (as_enum SessionProfile) (get "profile" fs);
      s ← optional as_str (get "parentSessionId" fs); e ← optional as_str (get "sourceEventId" fs);
      Some (SessionCreated c p s e));
   ("session.resumed", λ fs, Some SessionResumed);
   ("session.renamed", λ fs, SessionRenamed <$> as_str (get "title" fs));
   ("session.closed", λ fs, SessionClosed <$> as_enum SessionCloseReason (get "reason" fs));
   ("user.message", λ fs, UserMessage <$> decode_contents (get "content" fs));
   ("queue.enqueued", λ fs,
      c ← decode_contents (get "content" fs); p ← as_enum Priority (get "priority" fs);
      Some (QueueEnqueued c p));
   ("queue.requeued", λ fs,
      i ← as_str (get "queueItemId" fs); p ← as_enum Priority (get "priority" fs);
      Some (QueueRequeued i p));
   ("queue.started", λ fs, QueueStarted <$> as_str (get "queueItemId" fs));
   ("queue.paused", λ fs, QueuePaused <$> as_str (get "queueItemId" fs));
   ("interrupt.requested", λ fs,
      c ← decode_contents (get "content" fs); t ← optional as_str (get "targetOperationId" fs);
      Some (InterruptRequested c t));
   ("interrupt.updated", λ fs,
      s ← as_enum InterruptState (get "state" fs); t ← optional as_str (get "targetOperationId" fs);
      r ← optional as_str (get "reason" fs); Some (InterruptUpdated s t r));
   ("user.shell", λ fs,
      m ← as_str (get "command" fs); c ← decode_contents (get "content" fs);
      e ← as_bool (get "isError" fs); x ← as_bool (get "excluded" fs); Some (UserShell m c e x));
   ("assistant.message", λ fs,
      c ← decode_contents (get "content" fs); r ← as_enum AssistantStopReason (get "stopReason" fs);
      u ← optional decode_usage (get "usage" fs); e ← optional as_str (get "errorMessage" fs);
      Some (AssistantMessage c r u e));
   ("model.retry_scheduled", λ fs,
      a ← as_int (get "attempt" fs); m ← as_int (get "maxAttempts" fs);
      d ← as_int (get "delayMs" fs); c ← as_str (get "code" fs); Some (RetryScheduled a m d c));
   ("tool.call", λ fs,
      c ← as_str (get "callId" fs); n ← as_str (get "name" fs); i ← as_fields (get "input" fs);
      Some (ToolCall c n i));
   ("tool.result", λ fs,
      i ← as_str (get "callId" fs); n ← as_str (get "name" fs); c ← decode_contents (get "content" fs);
      e ← as_bool (get "isError" fs); d ← optional as_json (get "details" fs);
      Some (ToolResult i n c e d));
   ("config.request", λ fs, ConfigRequest <$> decode_settings fs);
   ("model.request_configured", λ fs, RequestConfigured <$> decode_configuration fs);
   ("config.model", λ fs, ConfigModel <$> as_str (get "modelId" fs));
   ("config.provider", λ fs, ConfigProvider <$> as_str (get "providerId" fs));
   ("config.entitlement", λ fs, ConfigEntitlement <$> as_str (get "entitlementId" fs));
   ("config.profile", λ fs, ConfigProfile <$> as_enum SessionProfile (get "profile" fs));
   ("config.thinking", λ fs,
      r ← as_enum ThinkingLevel (get "requested" fs); e ← as_enum ThinkingLevel (get "effective" fs);
      c ← as_bool (get "clamped" fs); Some (ConfigThinking r e c));
   ("config.tools", λ fs,
      f ← as_bool (get "webFetch" fs); s ← as_bool (get "webSearch" fs); Some (ConfigTools f s));
   ("config.dialect", λ fs,
      d ← as_str (get "dialectId" fs); f ← as_str (get "rosterFingerprint" fs);
      r ← as_enum DialectBoundaryReason (get "reason" fs); Some (ConfigDialect d f r));
   ("prompt.section", λ fs,
      n ← as_str (get "name" fs); s ← as_str (get "source" fs); c ← as_str (get "content" fs);
      Some (PromptSection n s c));
   ("tool.schema", λ fs,
      n ← as_str (get "name" fs); d ← as_str (get "description" fs);
      i ← as_fields (get "inputSchema" fs); Some (ToolSchema n d i));
   ("context.injected", λ fs,
      s ← as_str (get "source" fs); c ← as_str (get "content" fs); Some (ContextInjected s c));
   ("context.extension", λ fs,
      e ← as_str (get "extensionId" fs); s ← as_str (get "source" fs); c ← as_str (get "content" fs);
      Some (ContextExtension e s c));
   ("permission.requested", λ fs,
      c ← as_str (get "capability" fs); d ← as_str (get "description" fs);
      Some (PermissionRequested c d));
   ("permission.resolved", λ fs,
      i ← as_str (get "requestId" fs); d ← as_enum PermissionDecision (get "decision" fs);
      r ← optional as_str (get "reason" fs); Some (PermissionResolved i d r));
   ("interaction.requested", λ fs,
      i ← as_str (get "interactionId" fs); k ← as_enum InteractionKind (get "kind" fs);
      s ← as_str (get "source" fs); m ← as_str (get "message" fs);
      d ← optional as_fields (get "data" fs); Some (InteractionRequested i k s m d));
   ("interaction.resolved", λ fs,
      i ← as_str (get "interactionId" fs); a ← as_enum InteractionAction (get "action" fs);
      c ← optional as_fields (get "content" fs); Some (InteractionResolved i a c));
   ("sandbox.configured", λ fs,
      p ← as_str (get "provider" fs); e ← as_bool (get "enforced" fs);
      c ← as_strings (get "controls" fs); d ← optional as_fields (get "details" fs);
      Some (SandboxConfigured p e c d));
   ("sandbox.violation", λ fs,
      c ← as_str (get "capability" fs); r ← as_str (get "reason" fs); Some (SandboxViolation c r));
   ("context.compacted", λ fs,
      s ← as_str (get "summary" fs); i ← as_strings (get "replacedEventIds" fs);
      u ← optional decode_usage (get "usage" fs); Some (ContextCompacted s i u));
   ("session.error", λ fs,
      c ← as_str (get "code" fs); m ← as_str (get "message" fs); r ← as_bool (get "retryable" fs);
      d ← optional as_json (get "details" fs); Some (SessionErrorP c m r d));
   ("child.result", λ fs,
      i ← as_str (get "childSessionId" fs); s ← as_enum ChildStatus (get "status" fs);
      r ← optional as_json (get "result" fs); Some (ChildResult i s r))].

Fixpoint decoder_of (type : string) (table : list (string * (fields → option payload))) :
    option (fields → option payload) :=
  match table with
  | [] => None
  | (t, d) :: rest => if bool_decide (t = type) then Some d else decoder_of type rest
  end.

Definition decode_payload (type : string) (fs : fields) : option payload :=
  d ← decoder_of type payloadDecoders; d fs.

Definition decode_event (env : EventEnvelope) : option event :=
  p ← decode_payload (env_type env) (env_payload env);
  Some {| ev_id := env_id env; ev_sessionId := env_sessionId env;
          ev_operationId := env_operationId env; ev_parentId := env_parentId env;
          ev_timestamp := env_timestamp env; ev_payload := p |}.

#[local] Open Scope result_scope.

(** ** The invariant of a typed event *)

Definition nonempty (s : string) : Prop := s ≠ "".
Definition opt_all {A} (P : A → Prop) (o : option A) : Prop := match o with Some a => P a | None => True end.
Definition uuid (s : string) : Prop := is_uuid s = true.
Definition count (z : Z) : Prop := (0 <= z <= MAX_SAFE_INTEGER)%Z.

Definition blob_ok (b : BlobReference) : Prop :=
  rmatch sha256_pattern (blob_sha256 b) = true ∧ nonempty (blob_mediaType b) ∧
  count (blob_sizeBytes b) ∧ opt_all nonempty (blob_name b).
Definition item_ok (assistant : bool) (c : content) : Prop :=
  match c with CText _ => True | CThinking _ => assistant = true | CBlob b => blob_ok b end.
Definition items_ok (assistant : bool) (l : list content) : Prop := Forall (item_ok assistant) l.

Definition usage_ok (u : Usage) : Prop :=
  count (usage_inputTokens u) ∧ count (usage_outputTokens u) ∧ count (usage_cacheReadTokens u) ∧
  count (usage_cacheWriteTokens u) ∧ opt_all count (usage_reasoningTokens u) ∧
  opt_all (λ n, is_finite n = true ∧ is_negative n = false) (usage_costUsd u).

Definition title_ok (t : string) : Prop :=
  nonempty t ∧ (utf8_length t <= 256)%Z ∧ is_trimmed t = true ∧ has_control t = false.

(** JSON at the top level of a payload object. *)
Definition nested (v : jsval) : Prop := v ≠ JUndef ∧ json_within 1 v = true.
Definition nested_object (o : fields) : Prop := json_within 1 (JObj o) = true.

Definition payload_ok (p : payload) : Prop :=
  match p with
  | SessionCreated cwd _ s e => nonempty cwd ∧ opt_all uuid s ∧ opt_all uuid e
  | SessionRenamed t => title_ok t
  | UserMessage l | QueueEnqueued l _ => items_ok false l
  | QueueRequeued i _ | QueueStarted i | QueuePaused i => uuid i
  | InterruptRequested l t => items_ok false l ∧ opt_all uuid t
  | InterruptUpdated s t r =>
      opt_all uuid t ∧ opt_all nonempty r ∧
      (s = Interrupting → t ≠ None) ∧ (s = InterruptFailed → r ≠ None)
  | UserShell m l _ _ => nonempty m ∧ items_ok false l
  | AssistantMessage l r u e =>
      items_ok true l ∧ opt_all usage_ok u ∧ opt_all nonempty e ∧ (r = SError → e ≠ None)
  | RetryScheduled a m d c => (2 <= a <= m)%Z ∧ count m ∧ count d ∧ nonempty c
  | ToolCall i n o => nonempty i ∧ nonempty n ∧ nested_object o
  | ToolResult i n l _ d => nonempty i ∧ nonempty n ∧ items_ok false l ∧ opt_all nested d
  | ConfigRequest s => settings_ok s
  | RequestConfigured c => configuration_ok c
  | ConfigModel i | ConfigProvider i | ConfigEntitlement i => nonempty i
  | ConfigDialect d f _ => nonempty d ∧ nonempty f
  | PromptSection n s _ => nonempty n ∧ nonempty s
  | ToolSchema n _ o => nonempty n ∧ nested_object o
  | ContextInjected s _ => nonempty s
  | ContextExtension e s _ => nonempty e ∧ nonempty s
  | PermissionRequested c d => nonempty c ∧ nonempty d
  | PermissionResolved i _ r => uuid i ∧ opt_all nonempty r
  | InteractionRequested i _ s m d =>
      nonempty i ∧ nonempty s ∧ nonempty m ∧ opt_all nested_object d
  | InteractionResolved i _ c => nonempty i ∧ opt_all nested_object c
  | SandboxConfigured p _ c d => nonempty p ∧ Forall nonempty c ∧ opt_all nested_object d
  | SandboxViolation c r => nonempty c ∧ nonempty r
  | ContextCompacted s i u => nonempty s ∧ Forall uuid i ∧ i ≠ [] ∧ opt_all usage_ok u
  | SessionErrorP c m _ d => nonempty c ∧ nonempty m ∧ opt_all nested d
  | ChildResult i _ r => uuid i ∧ opt_all nested r
  | SessionResumed | SessionClosed _ | ConfigProfile _ | ConfigThinking _ _ _
  | ConfigTools _ _ => True
  end.

Record event_ok (e : event) : Prop := {
  evk_id : uuid (ev_id e);
  evk_session : uuid (ev_sessionId e);
  evk_operation : opt_all uuid (ev_operationId e);
  evk_parent : opt_all uuid (ev_parentId e);
  evk_timestamp : count (ev_timestamp e);
  evk_payload : payload_ok (ev_payload e)
}.

(** ** Soundness: what passes a check reads as a typed value *)

(** [v] reads as a typed value that satisfies [Q]. *)
Definition reads {A} (dec : jsval → option A) (Q : A → Prop) (v : jsval) : Prop :=
  ∃ a, dec v = Some a ∧ Q a.

Section Checks.
Lemma reads_weaken {A} (dec : jsval → option A) (P Q : A → Prop) v :
  (∀ a, P a → Q a) → reads dec P v → reads dec Q v.
Proof. intros HPQ (a & ? & ?). exists a. auto. Qed.

Lemma json_get d k fs :
  json_within d (JObj fs) = true → get k fs = JUndef ∨ json_within (S d) (get k fs) = true.
Proof.
  simpl. intros [_ H]%andb_true_iff. destruct (has_own k fs) eqn:Hk.
  - right. apply elem_get in Hk. rewrite forallb_forall in H. apply (H (k, get k fs)).
    by apply list_elem_of_In.
  - left. by apply get_has_own.
Qed.

Lemma string_reads v p b s :
  string_ v p b = Ok s → reads as_str (λ t, t = s ∧ (b = false → nonempty t)) v.
Proof.
  unfold string_. destruct v; try discriminate. intros H. apply bind_Ok in H as (? & H & [= <-]).
  apply require_Ok in H. exists s0. split_and!; try done. intros ->. simpl in *. by inv_ok.
Qed.
Lemma nonempty_reads v p s : string_ v p false = Ok s → reads as_str (λ t, t = s ∧ nonempty t) v.
Proof. intros H%string_reads. eapply reads_weaken; [|done]. naive_solver. Qed.
Lemma text_reads v p s : string_ v p true = Ok s → reads as_str (λ _, True) v.
Proof. intros H%string_reads. by eapply reads_weaken. Qed.

Lemma boolean_reads v p b : boolean v p = Ok b → reads as_bool (λ c, c = b) v.
Proof. destruct v; simpl; intros; inv_ok; try congruence. by eexists. Qed.

Lemma nonNegativeInteger_reads v p z :
  nonNegativeInteger v p = Ok z → reads as_int (λ y, y = z ∧ count y) v.
Proof.
  destruct v as [| | |n| | | | |]; simpl; try discriminate. intros H. inv_ok.
  exists (int_of n). unfold as_int. simpl.
  match goal with H : is_safe_integer n = true |- _ => rewrite H end.
  split_and!; [done..|]. by apply nonnegative_safe.
Qed.

Lemma nonNegativeNumber_reads v p n :
  nonNegativeNumber v p = Ok n →
  reads as_num (λ n, is_finite n = true ∧ is_negative n = false) v.
Proof. destruct v; simpl; try discriminate. intros H. inv_ok. by eexists. Qed.

Lemma choice_reads v p l s : choice v p l = Ok s → v = JStr s ∧ s ∈ l.
Proof. destruct v; simpl; try discriminate. intros H. inv_ok. done. Qed.

Lemma enum_reads (A : Type) `{Enum A} v p l s : enum_names A = l →
  choice v p l = Ok s → reads (as_enum A) (λ a, s = enum_name a) v.
Proof.
  intros <- [-> [a Ha]%enum_names_elem]%choice_reads. exists a. split; [done|]. by apply enum_of_Some.
Qed.

Lemma array_Ok v p l : array v p = Ok l → v = JArr l.
Proof. destruct v; simpl; intros; inv_ok; congruence. Qed.

Lemma id_reads v p s : parseId v p = Ok s → reads as_str uuid v.
Proof. intros [-> ?]%parseId_Ok. by eexists. Qed.

Lemma json_object d v p fs : json_within d v = true → object v p = Ok fs → v = JObj fs.
Proof. destruct v; simpl; intros; inv_ok; congruence. Qed.

Lemma object_reads d fs k p o :
  json_within d (JObj fs) = true → object (get k fs) p = Ok o →
  reads as_fields (λ f, json_within (S d) (JObj f) = true) (get k fs).
Proof.
  intros Hj Ho. destruct (json_get d k fs Hj) as [Hu | Hk]; [by rewrite Hu in Ho|].
  pose proof (json_object _ _ _ _ Hk Ho) as Heq. rewrite Heq in *. by eexists.
Qed.

Lemma json_reads fs k : json_within 0 (JObj fs) = true →
  reads (optional as_json) (opt_all nested) (get k fs).
Proof.
  intros Hj. unfold reads, optional, as_json, is_undef. destruct (json_get 0 k fs Hj) as [-> | Hk].
  - by eexists.
  - exists (Some (get k fs)). split; [by destruct (get k fs)|]. split; [|done]. intros Hu. by rewrite Hu in Hk.
Qed.

Lemma optional_reads {A B} (dec : jsval → option A) Q v (c : jsval → checked B) u :
  (∀ b, c v = Ok b → reads dec Q v) →
  if_defined v c = Ok u → reads (optional dec) (opt_all Q) v.
Proof.
  unfold if_defined, reads, optional. intros Hc H. destruct (is_undef v); [by exists None|]. inv_ok.
  destruct (Hc x) as (a & -> & Ha); [done|]. by exists (Some a).
Qed.

Lemma optional_None {A} (dec : jsval → option A) v : optional dec v = Some None → is_undef v = true.
Proof. unfold optional. destruct (is_undef v); [done|]. by destruct (dec v). Qed.

Lemma as_strings_nil v : as_strings v = Some [] → v = JArr [].
Proof.
  unfold as_strings. destruct v as [| | | | |l| | |]; try done. cbn. destruct l as [|v l]; [done|]. cbn.
  destruct (as_str v); cbn; [|done]. by destruct (mapM as_str l).
Qed.

(** A list of checked items reads as a typed list. *)
Lemma mapM_each {A} (dec : jsval → option A) (Q : A → Prop) (f : nat → jsval → checked unit) l :
  (∀ i v, v ∈ l → f i v = Ok tt → reads dec Q v) →
  each_indexed f l = Ok tt → ∃ l', mapM dec l = Some l' ∧ Forall Q l'.
Proof.
  unfold each_indexed. generalize 0. induction l as [|v l IH]; intros n Hf H; [by exists []|].
  simpl in H. apply bind_Ok in H as ([] & Hv & Hl).
  destruct (Hf n v) as (a & Ha & HQ); [by left | done|].
  destruct (IH (S n)) as (l' & Hl' & HQ'); [intros; eapply Hf; eauto; by right | done|].
  exists (a :: l'). cbn. rewrite Ha. cbn. rewrite Hl'. auto.
Qed.
End Checks.

(** Turns the checks of the context into what the goal's decoder reads. *)
Ltac read_step :=
  match goal with
  | H : reads _ _ _ |- _ =>
      let a := fresh "a" in let Ha := fresh "Hread" in let HQ := fresh "HQ" in
      destruct H as (a & Ha & HQ); 
      lazymatch type of HQ with
      | a = _ ∧ _ => destruct HQ as [-> HQ] | a = _ => subst a | _ => idtac end
  | H : string_ _ _ false = Ok _ |- _ => apply nonempty_reads in H
  | H : string_ _ _ true = Ok _ |- _ => apply text_reads in H
  | H : boolean _ _ = Ok _ |- _ => apply boolean_reads in H
  | H : nonNegativeInteger _ _ = Ok _ |- _ => apply nonNegativeInteger_reads in H
  | H : nonNegativeNumber _ _ = Ok _ |- _ => apply nonNegativeNumber_reads in H
  | H : parseEventId _ _ = Ok _ |- _ => apply id_reads in H
  | H : parseSessionId _ _ = Ok _ |- _ => apply id_reads in H
  | H : parseOperationId _ _ = Ok _ |- _ => apply id_reads in H
  | H : choice ?v _ ?l = Ok _ |- context [as_enum ?A ?v] => apply (enum_reads A v _ l) in H; [|reflexivity]
  | H : optionalString ?v _ = Ok _ |- _ => eapply (optional_reads as_str nonempty) in H;
      [| intros ? ?%nonempty_reads; eapply reads_weaken; [|eassumption]; naive_solver]
  | H : if_defined ?v (λ w, choice w _ ?l) = Ok _ |- context [optional (as_enum ?A) ?v] =>
      eapply (optional_reads (as_enum A) (λ _, True)) in H;
      [| intros ? Hc; apply (enum_reads A _ _ l) in Hc; [|reflexivity];
         eapply reads_weaken; [|exact Hc]; naive_solver]
  | H : if_defined ?v _ = Ok _ |- context [optional as_str ?v] =>
      eapply (optional_reads as_str uuid) in H; [| intros ?; apply id_reads]
  | H : if_defined ?v _ = Ok _ |- context [optional as_int ?v] =>
      eapply (optional_reads as_int count) in H;
      [| intros ? ?%nonNegativeInteger_reads; eapply reads_weaken; [|eassumption]; naive_solver]
  | H : if_defined ?v _ = Ok _ |- context [optional as_num ?v] =>
      eapply (optional_reads as_num (λ n, is_finite n = true ∧ is_negative n = false)) in H;
      [| intros ?; apply nonNegativeNumber_reads]
  | Hj : json_within _ (JObj ?fs) = true, H : if_defined (get _ ?fs) _ = Ok _
      |- context [optional as_fields (get _ ?fs)] =>
      eapply (optional_reads as_fields) in H; [| intros ?; apply (object_reads _ _ _ _ _ Hj)]
  | Hj : json_within _ (JObj ?fs) = true, H : object (get _ ?fs) _ = Ok _
      |- context [as_fields (get _ ?fs)] => apply (object_reads _ _ _ _ _ Hj) in H
  end.
Ltac read_fields :=
  cbn [mbind option_bind as_fields]; repeat (read_step || inv_step); cbn [mbind option_bind as_fields];
  repeat match goal with H : ?dec (get _ _) = Some _ |- _ => rewrite H end;
  cbn [mbind option_bind].

Section Composite.
Lemma validateBlob_reads d v p u :
  json_within d v = true → validateBlob v p = Ok u → reads decode_blob blob_ok v.
Proof.
  unfold validateBlob, reads, decode_blob. intros Hj H. inv_ok.
  match goal with H : object v _ = _ |- _ => pose proof (json_object _ _ _ _ Hj H) as -> end.
  read_fields. eexists. split; [reflexivity|]. by split_and!.
Qed.

Lemma validate_item_reads d p asst i v u :
  json_within d v = true → validate_item p asst i v = Ok u → reads decode_content (item_ok asst) v.
Proof.
  unfold validate_item, reads, decode_content. intros Hj H. inv_ok.
  match goal with H : object v _ = _ |- _ => pose proof (json_object _ _ _ _ Hj H) as -> end.
  read_fields.
  match goal with |- context [bool_decide (?t = "text")] => rename t into ty end.
  destruct (bool_decide_reflect (ty = "text")) as [Ht|Ht]; cbn [orb andb] in *.
  { read_fields. by eexists. }
  destruct (bool_decide_reflect (ty = "thinking")) as [Hk|Hk].
  { destruct asst; cbn [orb andb] in *; [read_fields; by eexists|]. subst ty. done. }
  rewrite andb_false_r in *. cbn [orb andb] in *. destruct (bool_decide (ty = "blob")); [|done].
  inv_ok. match goal with H : validateBlob (get "blob" _) _ = _ |- _ => rename H into Hv end.
  destruct (json_get d "blob" x Hj) as [Hu | Hb]; [by rewrite Hu in Hv|].
  destruct (validateBlob_reads _ _ _ _ Hb Hv) as (b & -> & Hok). by eexists.
Qed.

Lemma validateContent_reads d fs k p asst u :
  json_within d (JObj fs) = true → validateContent (get k fs) p asst = Ok u →
  reads decode_contents (items_ok asst) (get k fs).
Proof.
  unfold validateContent, reads. intros Hj H. destruct u. apply bind_Ok in H as (l & Hl & H).
  apply array_Ok in Hl. rewrite Hl. destruct (json_get d k fs Hj) as [Hu|Hk]; [by rewrite Hu in Hl|].
  rewrite Hl in Hk. cbn in Hk. apply andb_true_iff in Hk as [_ Hk]. rewrite forallb_forall in Hk.
  unfold decode_contents, items_ok. cbn. eapply mapM_each; [|exact H].
  intros i v Hv Hi. eapply validate_item_reads; [|done]. apply Hk. by apply list_elem_of_In.
Qed.

Lemma validateUsage_reads fs k p u :
  json_within 0 (JObj fs) = true → if_defined (get k fs) (λ v, validateUsage v p) = Ok u →
  reads (optional decode_usage) (opt_all usage_ok) (get k fs).
Proof.
  intros Hj. apply optional_reads. unfold validateUsage, reads. intros [] H. inv_ok.
  destruct (json_get 0 k fs Hj) as [Hu|Hk].
  { match goal with H : object _ _ = _ |- _ => by rewrite Hu in H end. }
  match goal with H : object _ _ = _ |- _ => pose proof (json_object _ _ _ _ Hk H) as Heq end.
  rewrite Heq in *. clear Heq.
  match goal with H : Forall _ usage_counts |- _ => unfold usage_counts in H; rewrite !Forall_cons in H;
    destruct H as (Hi & Ho & Hr & Hw & _) end.
  unfold decode_usage. read_fields. eexists. split; [reflexivity|]. by split_and!.
Qed.

Lemma validateStringArray_reads fs k p u :
  validateStringArray (get k fs) p = Ok u →
  reads as_strings (Forall nonempty) (get k fs).
Proof.
  unfold validateStringArray, reads, as_strings. destruct u. intros (l & Hl & H)%bind_Ok. apply array_Ok in Hl.
  rewrite Hl. cbn. eapply mapM_each; [|exact H]. intros i v _ Hv. simpl in Hv. inv_ok.
  match goal with H : string_ _ _ _ = _ |- _ => apply nonempty_reads in H; eapply reads_weaken; [|exact H] end.
  naive_solver.
Qed.

Lemma validateEventIds_reads fs k p u :
  validateEventIds (get k fs) p = Ok u →
  reads as_strings (Forall uuid) (get k fs).
Proof.
  unfold validateEventIds, reads, as_strings. destruct u. intros (l & Hl & H)%bind_Ok. apply array_Ok in Hl.
  rewrite Hl. cbn. eapply mapM_each; [|exact H]. intros i v _ Hv. simpl in Hv. inv_ok.
  by eapply id_reads.
Qed.
End Composite.

(** *** Every parser of the table *)

(** What a parser of the table returns reads as a payload of its event type. *)
Definition parser_sound (entry : string * PayloadParser)
    (reader : string * (fields → option payload)) : Prop :=
  entry.1 = reader.1 ∧
  ∀ fs path fs', json_within 0 (JObj fs) = true → entry.2 fs path = Ok fs' →
    ∃ p, reader.2 fs' = Some p ∧ payload_type p = entry.1 ∧ payload_ok p.

Ltac read_composite :=
  repeat match goal with
  | Hj : json_within _ (JObj ?fs) = true, H : validateContent (get _ ?fs) _ _ = Ok _ |- _ =>
      apply (validateContent_reads _ _ _ _ _ _ Hj) in H
  | Hj : json_within 0 (JObj ?fs) = true, H : if_defined (get _ ?fs) (λ v, validateUsage v _) = Ok _ |- _ =>
      apply (validateUsage_reads _ _ _ _ Hj) in H
  | H : validateStringArray _ _ = Ok _ |- _ => apply validateStringArray_reads in H
  | H : validateEventIds _ _ = Ok _ |- _ => apply validateEventIds_reads in H
  | Hj : json_within 0 (JObj ?fs) = true |- context [optional as_json (get ?k ?fs)] =>
      lazymatch goal with
      | _ : reads (optional as_json) _ (get k fs) |- _ => fail
      | _ => pose proof (json_reads fs k Hj)
      end
  end.

Create HintDb payload_parsers.
#[local] Hint Unfold parse_session_created parse_session_resumed parse_session_renamed
  parse_session_closed parse_user_message parse_queue_enqueued parse_queue_requeued
  parse_queue_started parse_queue_paused parse_interrupt_requested parse_interrupt_updated
  parse_user_shell parse_assistant_message parse_retry_scheduled parse_tool_call
  parse_tool_result parse_config_request parse_request_configured parse_config_id
  parse_config_profile parse_config_thinking parse_config_tools parse_config_dialect
  parse_prompt_section parse_tool_schema parse_context_injected parse_context_extension
  parse_permission_requested parse_permission_resolved parse_interaction_requested
  parse_interaction_resolved parse_sandbox_configured parse_sandbox_violation
  parse_context_compacted parse_session_error parse_child_result : payload_parsers.

Ltac parser_case :=
  split; [reflexivity|]; cbn [fst snd]; intros fs path fs' Hj H;
  autounfold with payload_parsers in H; cbv beta zeta in H;
  inv_ok; read_composite; read_fields; cbn [mbind option_bind fmap option_fmap option_map];
  (eexists; split; [reflexivity|]; split; [reflexivity|]; cbn; split_and?; try done).

(** A property that one literal makes required. *)
Ltac required_case :=
  subst; intros -> ->;
  match goal with
  | H : optional _ ?v = Some None, H' : _ && is_undef ?v = false |- _ =>
      rewrite (optional_None _ _ H) in H'; discriminate H'
  end.

Lemma as_int_JInt z : count z → as_int (JInt z) = Some z.
Proof.
  intros [??]. unfold as_int, JInt, safe_int. cbn [is_safe_integer int_val int_of].
  by rewrite (proj2 (Z.leb_le _ _)) by lia.
Qed.

Lemma decode_encode_settings s : settings_ok s → decode_settings (encode_settings s) = Some s.
Proof.
  destruct s as [m t]. intros [Hm Ht]. cbn in Hm, Ht. unfold decode_settings, encode_settings. simpl get.
  rewrite as_int_JInt by done. destruct m as [m|]; [|done]. specialize (Hm m eq_refl).
  simpl (match _ with JNull => _ | _ => _ end). fold (JInt m).
  by rewrite (as_int_JInt m) by (unfold count; lia).
Qed.

Lemma decode_encode_configuration c :
  configuration_ok c → decode_configuration (encode_configuration c) = Some c.
Proof.
  unfold configuration_ok. intros H. unfold decode_configuration, encode_configuration. simpl get.
  rewrite !as_int_JInt by (unfold count; lia). by destruct c.
Qed.

Lemma config_request_sound :
  parser_sound ("config.request", parse_config_request)
    ("config.request", λ fs, (ConfigRequest <$> decode_settings fs)%stdpp).
Proof.
  split; [done|]. cbn [fst snd]. intros fs path fs' _ H. unfold parse_config_request in H. inv_ok.
  match goal with H : parseModelRequestSettings _ _ = Ok _ |- _ => apply settings_sound in H end.
  rewrite decode_encode_settings by done. by eexists.
Qed.

Lemma request_configured_sound :
  parser_sound ("model.request_configured", parse_request_configured)
    ("model.request_configured", λ fs, (RequestConfigured <$> decode_configuration fs)%stdpp).
Proof.
  split; [done|]. cbn [fst snd]. intros fs path fs' _ H. unfold parse_request_configured in H. inv_ok.
  match goal with H : parseModelRequestConfiguration _ _ = Ok _ |- _ => apply configuration_sound in H end.
  rewrite decode_encode_configuration by done. by eexists.
Qed.

Lemma payloadParsers_sound : Forall2 parser_sound payloadParsers payloadDecoders.
Proof.
  unfold payloadParsers, payloadDecoders.
  repeat (apply Forall2_cons_2;
    [first [apply config_request_sound | apply request_configured_sound | parser_case]|]);
  try apply Forall2_nil_2.
  - unfold title_ok. split_and!; [done | lia | done..].
  - required_case.
  - required_case.
  - required_case.
  - lia.
  - lia.
  - intros ->. match goal with H : as_strings _ = Some [] |- _ => by apply as_strings_nil in H end.
Qed.

Lemma parser_decoder t ps ds parse :
  Forall2 parser_sound ps ds → parser_of t ps = Some parse →
  ∃ dec, decoder_of t ds = Some dec ∧ parser_sound (t, parse) (t, dec).
Proof.
  induction 1 as [|[t1 p1] [t2 d1] ps ds H Hs IH]; simpl; [done|].
  destruct H as [Ht H]. simpl in *. subst t2. case_bool_decide as E; [|done]. subst t1. intros [= ->].
  exists d1. by split.
Qed.

Lemma parseEvent_decodes v env :
  parseEvent v = Ok env → ∃ e, decode_event env = Some e ∧ event_ok e ∧ env_type env = payload_type (ev_payload e).
Proof.
  unfold parseEvent. intros (en & Hen & H)%bind_Ok. apply parseEventEnvelope_sound in Hen.
  destruct (parser_of (env_type en) payloadParsers) as [parse|] eqn:Hp; [|done]. inv_ok.
  destruct (parser_decoder _ _ _ _ payloadParsers_sound Hp) as (dec & Hdec & _ & Hs).
  destruct (Hs _ _ _ (eok_payload _ Hen) H0) as (p & Hread & Hty & Hok). cbn [fst snd] in *.
  unfold decode_event, decode_payload. cbn [env_type env_payload]. rewrite Hdec. cbn [mbind option_bind].
  rewrite Hread. cbn [mbind option_bind]. eexists. split; [reflexivity|]. split; [|done].
  destruct Hen as [? ? Ho Hpar ? ? ?]. constructor; cbn; try done.
  - destruct (env_operationId en); [by apply Ho | done].
  - destruct (env_parentId en); [by apply Hpar | done].
Qed.

(** ** Completeness: the JSON of a typed value passes the checks *)

#[local] Arguments string_ : simpl never.
#[local] Arguments nonNegativeInteger : simpl never.
#[local] Arguments nonNegativeNumber : simpl never.
#[local] Arguments choice : simpl never.
#[local] Arguments JInt : simpl never.
#[local] Arguments JEnum : simpl never.
#[local] Arguments as_int : simpl never.
#[local] Arguments as_enum : simpl never.
#[local] Arguments parseEventId : simpl never.
#[local] Arguments parseSessionId : simpl never.
#[local] Arguments parseOperationId : simpl never.
#[local] Arguments member : simpl never.

Section Encoded.
Lemma string_JStr s p : nonempty s → string_ (JStr s) p false = Ok s.
Proof. unfold nonempty. intros H. unfold string_. simpl. by rewrite bool_decide_false. Qed.

Lemma nonNegativeInteger_JInt z p : count z → nonNegativeInteger (JInt z) p = Ok z.
Proof.
  unfold count, nonNegativeInteger, JInt. intros H. simpl. rewrite require_true; [done|].
  unfold MAX_SAFE_INTEGER in *. rewrite andb_true_iff, negb_true_iff. lia.
Qed.

Lemma choice_JEnum {A} `{Enum A} (a : A) p l :
  enum_names A = l → choice (JEnum a) p l = Ok (enum_name a).
Proof.
  intros <-. unfold JEnum, choice. rewrite bool_decide_true; [done|]. apply enum_names_elem.
  exists a. apply enum_of_name.
Qed.

Lemma if_defined_JEnum {A} `{Enum A} (a : A) p l :
  enum_names A = l → if_defined (JEnum a) (λ v, choice v p l) = Ok tt.
Proof. intros Hl. unfold if_defined. simpl is_undef. cbv iota. by rewrite choice_JEnum. Qed.

Lemma as_enum_JEnum {A} `{Enum A} (a : A) : as_enum A (JEnum a) = Some a.
Proof. unfold as_enum, JEnum. cbn. apply enum_of_name. Qed.

Lemma parseId_uuid s p : uuid s → parseId (JStr s) p = Ok s.
Proof. intros. by apply parseId_Ok. Qed.

Lemma if_defined_JStr {A} s (c : jsval → checked A) a : c (JStr s) = Ok a → if_defined (JStr s) c = Ok tt.
Proof. unfold if_defined. simpl. by intros ->. Qed.

Lemma validateBlob_encode b p : blob_ok b → validateBlob (encode_blob b) p = Ok tt.
Proof.
  destruct b as [sha mt sz nm]. intros (Hsha & Hmt & Hsz & Hnm). simpl in *.
  assert (nonempty sha) as Hne by (intros ->; discriminate Hsha).
  unfold validateBlob, encode_blob, optionalString.
  destruct nm as [nm|]; simpl in Hnm; simpl; rewrite string_JStr by done; simpl; rewrite Hsha; simpl;
    rewrite string_JStr by done; simpl; rewrite nonNegativeInteger_JInt by done; simpl; [|done].
  eapply if_defined_JStr. by apply string_JStr.
Qed.

Lemma decode_encode_blob b : blob_ok b → decode_blob (encode_blob b) = Some b.
Proof.
  destruct b as [sha mt sz nm]. intros (_ & _ & Hsz & _). simpl in *.
  unfold decode_blob, encode_blob. destruct nm; simpl; rewrite as_int_JInt by done; done.
Qed.

Lemma validate_item_encode p asst i c :
  item_ok asst c → validate_item p asst i (encode_content c) = Ok tt.
Proof.
  unfold validate_item. destruct c as [t|t|b]; simpl; intros Hok.
  - done.
  - subst asst. done.
  - rewrite andb_false_r. simpl. by apply validateBlob_encode.
Qed.

Lemma decode_encode_content asst c : item_ok asst c → decode_content (encode_content c) = Some c.
Proof.
  destruct c as [t|t|b]; simpl; [done..|]. intros Hok. unfold decode_content. simpl.
  by rewrite decode_encode_blob.
Qed.

Lemma validateContent_encode l p asst : items_ok asst l → validateContent (encode_contents l) p asst = Ok tt.
Proof.
  intros Hl. unfold validateContent, encode_contents. simpl. apply each_indexed_Ok.
  intros j x Hx. rewrite list_lookup_fmap in Hx. destruct (l !! j) as [c|] eqn:Hc; [|done].
  simpl in Hx. injection Hx as <-. apply validate_item_encode. by eapply Forall_lookup_1.
Qed.

Lemma decode_encode_contents l asst : items_ok asst l → decode_contents (encode_contents l) = Some l.
Proof.
  intros Hl. unfold decode_contents, encode_contents. simpl. apply mapM_fmap_Forall_Some.
  eapply Forall_impl; [exact Hl|]. intros c. apply decode_encode_content.
Qed.

Lemma validateUsage_encode u p : usage_ok u → validateUsage (encode_usage u) p = Ok tt.
Proof.
  destruct u as [i o cr cw r c]. intros (Hi & Ho & Hcr & Hcw & Hr & Hc). simpl in *.
  unfold validateUsage, encode_usage, each.
  destruct r as [r|], c as [c|]; simpl in Hr, Hc; simpl; rewrite !nonNegativeInteger_JInt by done; simpl;
    try (unfold if_defined; simpl; rewrite nonNegativeInteger_JInt by done); simpl; try done;
    unfold if_defined, nonNegativeNumber; simpl; destruct Hc as [-> ->]; done.
Qed.

Lemma if_defined_usage u p : usage_ok u →
  if_defined (encode_usage u) (λ v, validateUsage v p) = Ok tt.
Proof. intros H. unfold if_defined. simpl is_undef. cbv iota. by rewrite validateUsage_encode. Qed.

Lemma decode_encode_usage u : usage_ok u → decode_usage (encode_usage u) = Some u.
Proof.
  destruct u as [i o cr cw r c]. intros (Hi & Ho & Hcr & Hcw & Hr & Hc). simpl in *.
  unfold decode_usage, encode_usage.
  destruct r as [r|], c as [c|]; simpl in Hr, Hc; simpl; rewrite !as_int_JInt by done; simpl;
    unfold optional; simpl; try rewrite as_int_JInt by done; done.
Qed.

Lemma as_strings_JStr l : as_strings (JArr (JStr <$> l)) = Some l.
Proof. unfold as_strings. simpl. apply mapM_fmap_Forall_Some. by apply Forall_true. Qed.

Lemma validateStringArray_encode l p :
  Forall nonempty l → validateStringArray (JArr (JStr <$> l)) p = Ok tt.
Proof.
  intros Hl. unfold validateStringArray. simpl. apply each_indexed_Ok. intros j x Hx.
  rewrite list_lookup_fmap in Hx. destruct (l !! j) as [s|] eqn:Hs; [|done]. injection Hx as <-.
  simpl. rewrite string_JStr; [done|]. by eapply Forall_lookup_1.
Qed.

Lemma validateEventIds_encode l p :
  Forall uuid l → validateEventIds (JArr (JStr <$> l)) p = Ok tt.
Proof.
  intros Hl. unfold validateEventIds. simpl. apply each_indexed_Ok. intros j x Hx.
  rewrite list_lookup_fmap in Hx. destruct (l !! j) as [s|] eqn:Hs; [|done]. injection Hx as <-.
  simpl. unfold parseEventId. rewrite parseId_uuid; [done|]. by eapply Forall_lookup_1.
Qed.
End Encoded.

(** Runs the checks of a payload parser on encoded fields. *)
Ltac accept_step :=
  first
  [ rewrite string_JStr by done
  | rewrite nonNegativeInteger_JInt by (unfold count in *; lia)
  | rewrite validateContent_encode by done
  | rewrite validateStringArray_encode by done
  | rewrite validateEventIds_encode by done
  | rewrite if_defined_usage by done
  | rewrite settings_complete by done
  | rewrite configuration_complete by done
  | rewrite choice_JEnum by reflexivity
  | rewrite if_defined_JEnum by reflexivity
  | rewrite andb_false_r
  | rewrite andb_true_r
  | rewrite parseId_uuid by done
  | match goal with |- context [if_defined (JStr ?s) ?c] =>
      erewrite (if_defined_JStr s c) by (first [by apply string_JStr | by apply parseId_uuid]) end
  | progress unfold parseEventId, parseSessionId, parseOperationId, optionalString ].
Ltac accept := repeat (simpl; accept_step); simpl; try done.

Ltac required_present :=
  match goal with
  | |- rbind (refuse (bool_decide (match ?e with _ => _ end = _)) _) _ = _ =>
      destruct e; first [reflexivity | exfalso; naive_solver]
  end.

Lemma payload_accepted p path :
  payload_ok p →
  ∃ parse, parser_of (payload_type p) payloadParsers = Some parse ∧
           parse (encode_payload p) path = Ok (encode_payload p).
Proof.
  destruct p; cbn [payload_ok]; intros Hok; destruct_and?; (eexists; split; [reflexivity|]);
    autounfold with payload_parsers;
    repeat match goal with o : option _ |- _ => destruct o end; simpl opt_all in *; accept;
    try required_present.
  - destruct Hok as (Hne & Hlen & Htrim & Hctl). rewrite string_JStr by done. simpl.
    rewrite refuse_false by lia. simpl. rewrite refuse_false; [done|].
    rewrite Htrim, Hctl, bool_decide_false; done.
  - by rewrite refuse_false by lia.
  - rewrite bool_decide_false; [done|]. by destruct replacedEventIds.
  - rewrite bool_decide_false; [done|]. by destruct replacedEventIds.
Qed.

Ltac decode_step :=
  first
  [ rewrite as_int_JInt by (unfold count in *; lia)
  | erewrite decode_encode_contents by eassumption
  | rewrite decode_encode_usage by done
  | rewrite decode_encode_settings by done
  | rewrite decode_encode_configuration by done
  | rewrite as_strings_JStr
  | rewrite as_enum_JEnum
  | progress unfold optional ].

Lemma payload_decoded p : payload_ok p → decode_payload (payload_type p) (encode_payload p) = Some p.
Proof.
  destruct p; cbn [payload_ok]; intros Hok; destruct_and?; unfold decode_payload; simpl;
    repeat match goal with o : option _ |- _ => destruct o end; simpl opt_all in *; simpl;
    repeat (decode_step; simpl); try done.
  all: match goal with H : nested ?j |- _ => destruct H; by destruct j end.
Qed.

Lemma json_encode_contents l asst : items_ok asst l → json_within 1 (encode_contents l) = true.
Proof.
  intros Hl. unfold encode_contents. cbn -[bool_decide]. rewrite bool_decide_true by (unfold maximumJsonDepth; lia).
  simpl. apply forallb_forall. intros v (c & -> & Hc)%list_elem_of_In%list_elem_of_fmap.
  unfold items_ok in Hl. rewrite Forall_forall in Hl. specialize (Hl c Hc).
  destruct c as [t|t|[sha mt sz [nm|]]]; reflexivity.
Qed.

Lemma json_encode_usage u : usage_ok u → json_within 1 (encode_usage u) = true.
Proof.
  destruct u as [i o cr cw r c]. intros (_ & _ & _ & _ & _ & Hc). unfold encode_usage.
  destruct r, c; simpl in *; try done; destruct Hc as [-> _]; done.
Qed.

Lemma json_strings l : json_within 1 (JArr (JStr <$> l)) = true.
Proof.
  cbn -[bool_decide]. rewrite bool_decide_true by (unfold maximumJsonDepth; lia). simpl.
  apply forallb_forall. by intros v (c & -> & Hc)%list_elem_of_In%list_elem_of_fmap.
Qed.

Lemma payload_json p : payload_ok p → json_within 0 (JObj (encode_payload p)) = true.
Proof.
  assert (Hc : ∀ fs, forallb (λ kv, json_within 1 kv.2) fs = true → json_within 0 (JObj fs) = true).
  { intros fs H. cbn -[bool_decide]. rewrite bool_decide_true by (unfold maximumJsonDepth; lia). exact H. }
  intros Hok. apply Hc. clear Hc.
  destruct p; cbn [payload_ok] in Hok; destruct_and?;
    repeat match goal with o : option _ |- _ => destruct o end; simpl opt_all in *;
    cbn -[json_within encode_contents encode_usage fmap];
    cbn [fmap option_fmap option_map opt_field opt_str app forallb snd];
    repeat first [ erewrite json_encode_contents by eassumption | rewrite json_encode_usage by done
      | rewrite json_strings
      | match goal with H : nested_object _ |- _ => unfold nested_object in H; rewrite H; clear H end
      | match goal with H : nested _ |- _ => destruct H as [_ H]; rewrite H; clear H end ];
    try reflexivity.
  all: match goal with s : ModelRequestSettings |- _ => by destruct s as [[]] end.
Qed.

(** ** The parser of events *)

Lemma payload_type_ok p :
  (js_length (payload_type p) <= 128)%Z ∧ lang eventTypePattern (payload_type p).
Proof. rewrite <- rmatch_lang. destruct p; split; vm_compute; done. Qed.

Lemma event_envelope_ok e : event_ok e → envelope_ok (event_envelope e).
Proof.
  intros [Hid Hs Ho Hp Ht Hpl]. constructor; simpl; try done.
  - intros o Heq. by rewrite Heq in Ho.
  - intros q Heq. by rewrite Heq in Hp.
  - apply payload_type_ok.
  - by apply payload_json.
Qed.

Lemma parse_event_value e : event_ok e → parseEvent (event_value e) = Ok (event_envelope e).
Proof.
  intros Hok. unfold parseEvent, event_value.
  rewrite parseEventEnvelope_complete by (by apply event_envelope_ok). cbn [rbind].
  destruct (payload_accepted (ev_payload e) "event.payload" (evk_payload _ Hok)) as (parse & Hp & Hrun).
  change (env_type (event_envelope e)) with (payload_type (ev_payload e)). rewrite Hp.
  change (env_payload (event_envelope e)) with (encode_payload (ev_payload e)). by rewrite Hrun.
Qed.

Lemma decode_event_envelope e : event_ok e → decode_event (event_envelope e) = Some e.
Proof.
  intros Hok. unfold decode_event, event_envelope. cbn [env_type env_payload].
  rewrite payload_decoded by (by destruct Hok). by destruct e.
Qed.

(** Every parser but two returns its argument; those two return encoded fields. *)
Lemma parser_returns entry fs path fs' :
  entry ∈ payloadParsers → entry.2 fs path = Ok fs' →
  fs' = fs ∨ (∃ s, settings_ok s ∧ entry.1 = "config.request" ∧ fs' = encode_settings s) ∨
  (∃ c, configuration_ok c ∧ entry.1 = "model.request_configured" ∧ fs' = encode_configuration c).
Proof.
  unfold payloadParsers. intros He.
  repeat (apply elem_of_cons in He as [-> | He];
    [cbn [fst snd]; autounfold with payload_parsers; cbv beta zeta; intros H; inv_ok;
     try (by left); right |]); [..| by apply elem_of_nil in He].
  - left. exists x. split_and!; [by eapply settings_sound | done..].
  - right. exists x. split_and!; [by eapply configuration_sound | done..].
Qed.

Lemma parser_of_elem t table parse : parser_of t table = Some parse → (t, parse) ∈ table.
Proof.
  induction table as [|[t' p] table IH]; simpl; [done|]. case_bool_decide as E.
  - intros [= ->]. subst. by left.
  - intros H. right. auto.
Qed.

Lemma parser_stable t parse fs path fs' :
  parser_of t payloadParsers = Some parse → json_within 0 (JObj fs) = true →
  parse fs path = Ok fs' → parse fs' path = Ok fs' ∧ json_within 0 (JObj fs') = true.
Proof.
  intros Ht Hj H. pose proof (parser_returns _ _ _ _ (parser_of_elem _ _ _ Ht) H) as Hr. cbn [fst] in Hr.
  destruct Hr as [-> | [(s & Hs & -> & ->) | (c & Hc & -> & ->)]]; [done|..];
    simpl in Ht; injection Ht as <-; split.
  - unfold parse_config_request. by rewrite settings_complete.
  - by apply (payload_json (ConfigRequest s)).
  - unfold parse_request_configured. by rewrite configuration_complete.
  - by apply (payload_json (RequestConfigured c)).
Qed.

Lemma parseEvent_stable v env : parseEvent v = Ok env → parseEvent (envelope_value env) = Ok env.
Proof.
  unfold parseEvent at 1. intros (en & Hen & H)%bind_Ok. apply parseEventEnvelope_sound in Hen.
  destruct (parser_of (env_type en) payloadParsers) as [parse|] eqn:Hp; [|done]. inv_ok.
  destruct (parser_stable _ _ _ _ _ Hp (eok_payload _ Hen) H0) as [Hrun Hj].
  unfold parseEvent. rewrite parseEventEnvelope_complete.
  - cbn [rbind env_type env_payload]. rewrite Hp. cbn [env_payload]. by rewrite Hrun.
  - destruct Hen. by constructor.
Qed.

(** A user message as it is stored. *)
Definition sample_id : string := "01234567-89ab-4def-8123-456789abcdef".
Definition sample_event : event :=
  {| ev_id := sample_id; ev_sessionId := sample_id; ev_operationId := None;
     ev_parentId := None; ev_timestamp := 7; ev_payload := UserMessage [CText "hi"] |}.

Lemma sample_event_ok : event_ok sample_event.
Proof.
  constructor; [vm_compute; reflexivity | vm_compute; reflexivity | exact I | exact I | |].
  - unfold count, MAX_SAFE_INTEGER. simpl. lia.
  - by repeat constructor.
Defined.

(** C9: whatever [parseEvent] returns is the JSON of a typed event: it decodes
    to a [CanonicalEvent] whose identifiers are UUIDs, whose counts are safe and
    whose payload satisfies every side condition of its event type. *)
Theorem parseEvent_sound v env :
  parseEvent v = Ok env →
  ∃ e, decode_event env = Some e ∧ event_ok e ∧ env_type env = payload_type (ev_payload e).
Proof. apply parseEvent_decodes. Qed.

Lemma parseEvent_sound_witness :
  ∃ e, decode_event (event_envelope sample_event) = Some e ∧ event_ok e ∧
       env_type (event_envelope sample_event) = payload_type (ev_payload e).
Proof. apply (parseEvent_sound (event_value sample_event)). vm_compute. reflexivity. Defined.

(** C10: every typed event that satisfies the invariant is accepted as it is
    written, and reads back as itself: writing an event and parsing it is a
    round trip for all 38 event types. *)
Theorem parseEvent_complete e :
  event_ok e →
  parseEvent (event_value e) = Ok (event_envelope e) ∧ decode_event (event_envelope e) = Some e.
Proof. split; [by apply parse_event_value | by apply decode_event_envelope]. Qed.

Lemma parseEvent_complete_witness :
  parseEvent (event_value sample_event) = Ok (event_envelope sample_event) ∧
  decode_event (event_envelope sample_event) = Some sample_event.
Proof. apply (parseEvent_complete sample_event). exact sample_event_ok. Defined.

(** parsing is stable: what [parseEvent] returns, written out again, is
    accepted again and comes back unchanged. *)
Theorem parseEvent_idempotent v env :
  parseEvent v = Ok env → parseEvent (envelope_value env) = Ok env.
Proof. apply parseEvent_stable. Qed.

Lemma parseEvent_idempotent_witness :
  parseEvent (envelope_value (event_envelope sample_event)) = Ok (event_envelope sample_event).
Proof. apply (parseEvent_idempotent (event_value sample_event)). vm_compute. reflexivity. Defined.
