(* ===== verification/WireResults.v ===== *)
(** protocol/src/wire.ts: the parser of RPC results, method by method. *)
From stdpp Require Import base list sets strings pretty.
From Stdlib Require Import ZArith Lia Ascii.
From S2P Require Import Prelude Text JsValue Json Envelope Types ModelRequest Events EventSchema.
From S2P Require Import WireFields ProviderManagement WireWorkspace.

(** ** Shared parts *)

Definition MAX_HISTORY_PAGE_EVENTS : nat := 48.

Definition parseBlobReference (value : jsval) (path : string) : checked jsval :=
  _ ← validateBlob value path; Ok value.

Definition runtime_states : list string := ["inactive"; "idle"; "running"; "waiting_interaction"; "disposing"].
Definition session_profiles : list string := ["minimal"; "standard"; "chat"; "exec"].
Definition stop_reasons : list string := ["stop"; "length"; "tool_use"; "error"; "aborted"].

Definition check_runtime (value : jsval) (path : string) : checked fields :=
  runtime ← object value path;
  _ ← exact runtime path ["state"; "activeOperationId"];
  _ ← require (among runtime_states (get "state" runtime)) (invalid (member path "state") "is not a valid runtime state");
  Ok runtime.

Definition parse_runtime (runtime : fields) (path : string) : checked jsval :=
  activeOperationId ← optionally (λ v, parseOperationId v (member path "activeOperationId")) (get "activeOperationId" runtime);
  Ok (build [("state", Some (get "state" runtime)); ("activeOperationId", JStr <$> activeOperationId)]).

Definition parseSessionRuntime (value : jsval) (path : string) : checked jsval :=
  runtime ← check_runtime value path; parse_runtime runtime path.

(** The members of the result; the selected text of a fork is parsed after them. *)
Definition session_open_members (value : jsval) (path : string) (allowSelectedText : bool) : checked members :=
  result ← object value path;
  _ ← exact result path (["sessionId"; "cwd"; "title"; "runtime"; "profile"] ++ if allowSelectedText then ["selectedText"] else []);
  state ← check_runtime (get "runtime" result) (member path "runtime");
  _ ← require (among session_profiles (get "profile" result)) (invalid (member path "profile") "is not a valid session profile");
  sessionId ← parseSessionId (get "sessionId" result) (member path "sessionId");
  cwd ← string_ (get "cwd" result) (member path "cwd");
  title ← optionally (λ v, sessionTitle v (member path "title")) (get "title" result);
  runtime ← parse_runtime state (member path "runtime");
  Ok [("sessionId", Some (JStr sessionId)); ("cwd", Some (JStr cwd)); ("title", JStr <$> title); ("runtime", Some runtime);
      ("profile", Some (get "profile" result))].

Definition parseSessionOpenResult (value : jsval) (path : string) : checked jsval :=
  build <$$> session_open_members value path false.

Definition parse_fork_result (value : jsval) (path : string) : checked jsval :=
  result ← object value path;
  opened ← session_open_members value path true;
  selectedText ← optionally (λ v, boundedText v (member path "selectedText") 262144) (get "selectedText" result);
  Ok (build (opened ++ [("selectedText", JStr <$> selectedText)])).

Definition parseSessionSummary (value : jsval) (path : string) : checked jsval :=
  summary ← object value path;
  _ ← exact summary path ["sessionId"; "cwd"; "title"; "createdAt"; "updatedAt"; "userMessageCount"; "firstUserMessage";
                          "lastUserMessage"; "parentSessionId"; "securityMode"; "sandboxProvider"; "sandboxImage"; "runtime";
                          "attachmentCount"];
  _ ← require (is_undef (get "securityMode" summary) || among ["sandboxed"; "unsafe"] (get "securityMode" summary))
        (invalid (member path "securityMode") "must be sandboxed or unsafe");
  sessionId ← parseSessionId (get "sessionId" summary) (member path "sessionId");
  cwd ← string_ (get "cwd" summary) (member path "cwd");
  title ← optionally (λ v, sessionTitle v (member path "title")) (get "title" summary);
  createdAt ← nonNegativeInteger (get "createdAt" summary) (member path "createdAt");
  updatedAt ← nonNegativeInteger (get "updatedAt" summary) (member path "updatedAt");
  userMessageCount ← nonNegativeInteger (get "userMessageCount" summary) (member path "userMessageCount");
  first ← optionally (λ v, boundedText v (member path "firstUserMessage") 4096) (get "firstUserMessage" summary);
  last ← optionally (λ v, boundedText v (member path "lastUserMessage") 4096) (get "lastUserMessage" summary);
  parent ← optionally (λ v, parseSessionId v (member path "parentSessionId")) (get "parentSessionId" summary);
  provider ← optionally (λ v, boundedString v (member path "sandboxProvider") 128) (get "sandboxProvider" summary);
  image ← optionally (λ v, boundedString v (member path "sandboxImage") 1024) (get "sandboxImage" summary);
  runtime ← parseSessionRuntime (get "runtime" summary) (member path "runtime");
  attachmentCount ← nonNegativeInteger (get "attachmentCount" summary) (member path "attachmentCount");
  Ok (build [("sessionId", Some (JStr sessionId)); ("cwd", Some (JStr cwd)); ("title", JStr <$> title);
             ("createdAt", Some (JNum createdAt)); ("updatedAt", Some (JNum updatedAt));
             ("userMessageCount", Some (JNum userMessageCount)); ("firstUserMessage", JStr <$> first);
             ("lastUserMessage", JStr <$> last); ("parentSessionId", JStr <$> parent);
             ("securityMode", to_opt (get "securityMode" summary)); ("sandboxProvider", JStr <$> provider);
             ("sandboxImage", JStr <$> image); ("runtime", Some runtime); ("attachmentCount", Some (JNum attachmentCount))]).

Definition parseBooleanResult (value : jsval) (path name : string) : checked jsval :=
  result ← object value path;
  _ ← exact result path [name];
  _ ← require (is_bool (get name result)) (invalid (member path name) "must be a boolean");
  Ok (build [(name, Some (get name result))]).

(** ** Pages of history *)

Definition check_session (sessionId : option string) (i : nat) (event : EventEnvelope) : checked unit :=
  match sessionId with
  | Some s => require (bool_decide (env_sessionId event = s))
                (invalid (member (element "snapshotPage.events" i) "sessionId") ("must match session " +:+ s))
  | None => Ok tt
  end.

Definition parse_page_event (sessionId : option string) (i : nat) (value : jsval) : checked EventEnvelope :=
  event ← parseEvent value; _ ← check_session sessionId i event; Ok event.

Definition parseSnapshotPage (value expectedSessionId : jsval) : checked jsval :=
  page ← object value "snapshotPage";
  _ ← exact page "snapshotPage" ["events"; "nextPageCursor"; "complete"];
  items ← array_within (get "events" page) MAX_HISTORY_PAGE_EVENTS
            (invalid "snapshotPage.events" ("must contain at most " +:+ pretty MAX_HISTORY_PAGE_EVENTS +:+ " events"));
  _ ← require (is_bool (get "complete" page)) (invalid "snapshotPage.complete" "must be a boolean");
  sessionId ← optionally (λ v, parseSessionId v "snapshotPage.sessionId") expectedSessionId;
  events ← map_indexed (parse_page_event sessionId) items;
  nextPageCursor ← optionally (λ v, boundedString v "snapshotPage.nextPageCursor" 512) (get "nextPageCursor" page);
  _ ← refuse (bool_decide (get "complete" page = JBool (match nextPageCursor with Some _ => true | None => false end)))
        (invalid "snapshotPage" "complete pages cannot have a next cursor and incomplete pages require one");
  _ ← refuse (bool_decide (get "complete" page = JBool false) && bool_decide (length events = 0))
        (invalid "snapshotPage.events" "must make progress when more history remains");
  Ok (build [("events", Some (JArr (envelope_value <$> events))); ("nextPageCursor", JStr <$> nextPageCursor);
             ("complete", Some (get "complete" page))]).

(** ** Commands *)

Definition check_argument (value : jsval) (path : string) : checked fields :=
  argument ← object value path;
  _ ← exact argument path ["required"; "hint"];
  _ ← require (is_bool (get "required" argument)) (invalid (member path "required") "must be a boolean");
  Ok argument.

Definition parse_argument (argument : fields) (path : string) : checked jsval :=
  hint ← optionally (λ v, boundedString v (member path "hint") 128) (get "hint" argument);
  Ok (build [("required", Some (get "required" argument)); ("hint", JStr <$> hint)]).

Definition check_command_availability (value : jsval) (path : string) : checked fields :=
  availability ← object value path;
  _ ← exact availability path ["state"; "reason"];
  _ ← require (among ["available"; "unavailable"] (get "state" availability))
        (invalid (member path "state") "must be available or unavailable");
  _ ← refuse (is_str "available" (get "state" availability) && defined (get "reason" availability))
        (invalid (member path "reason") "is not allowed when available");
  _ ← refuse (is_str "unavailable" (get "state" availability) && is_undef (get "reason" availability))
        (invalid (member path "reason") "is required when unavailable");
  Ok availability.

Definition parse_command_availability (availability : fields) (path : string) : checked jsval :=
  if is_str "available" (get "state" availability) then Ok (build [("state", Some (JStr "available")); ("reason", None)])
  else
    reason ← boundedString (get "reason" availability) (member path "reason") 512;
    Ok (build [("state", Some (JStr "unavailable")); ("reason", Some (JStr reason))]).

(** The ids and the names in use, and the commands so far. *)
Record commands_seen := { cs_ids : list string; cs_reserved : list string; cs_commands : list jsval }.

Definition reserve (itemPath : string) (reserved : list string) (candidate : string) : checked (list string) :=
  _ ← refuse (bool_decide (candidate ∈ reserved))
        (invalid (member itemPath "name") ("duplicates command name or alias " +:+ candidate));
  Ok (reserved ++ [candidate]).

Definition parse_command (path : string) (seen : commands_seen) (iv : nat * jsval) : checked commands_seen :=
  let itemPath := element (member path "commands") iv.1 in
  command ← object iv.2 itemPath;
  _ ← exact command itemPath ["id"; "name"; "aliases"; "description"; "context"; "argument"; "requiredCapabilities";
                              "availability"; "extensionId"];
  id ← boundedString (get "id" command) (member itemPath "id") 128;
  _ ← refuse (bool_decide (id ∈ cs_ids seen)) (invalid (member itemPath "id") "must be unique");
  name ← commandName (get "name" command) (member itemPath "name");
  strings ← stringArray (get "aliases" command) (member itemPath "aliases") 8;
  aliases ← map_indexed (λ i alias, commandName (JStr alias) (element (member itemPath "aliases") i)) strings;
  reserved ← fold_res (reserve itemPath) (cs_reserved seen) (name :: aliases);
  _ ← require (among ["global"; "session"; "either"] (get "context" command))
        (invalid (member itemPath "context") "must be global, session, or either");
  argument ← check_argument (get "argument" command) (member itemPath "argument");
  availability ← check_command_availability (get "availability" command) (member itemPath "availability");
  description ← boundedString (get "description" command) (member itemPath "description") 512;
  argument' ← parse_argument argument (member itemPath "argument");
  capabilities ← capabilityArray (get "requiredCapabilities" command) (member itemPath "requiredCapabilities");
  availability' ← parse_command_availability availability (member itemPath "availability");
  extensionId ← optionally (λ v, boundedString v (member itemPath "extensionId") 128) (get "extensionId" command);
  Ok {| cs_ids := cs_ids seen ++ [id]; cs_reserved := reserved;
        cs_commands := cs_commands seen ++
          [build [("id", Some (JStr id)); ("name", Some (JStr name)); ("aliases", Some (JArr (JStr <$> aliases)));
                  ("description", Some (JStr description)); ("context", Some (get "context" command));
                  ("argument", Some argument'); ("requiredCapabilities", Some (JArr (JStr <$> capabilities)));
                  ("availability", Some availability'); ("extensionId", JStr <$> extensionId)]] |}.

Definition parseCommandListResult (value : jsval) (path : string) : checked jsval :=
  result ← object value path;
  _ ← exact result path ["generation"; "commands"];
  items ← array_within (get "commands" result) 128 (invalid (member path "commands") "must contain at most 128 commands");
  seen ← fold_res (parse_command path) {| cs_ids := []; cs_reserved := []; cs_commands := [] |} (imap pair items);
  generation ← boundedString (get "generation" result) (member path "generation") 128;
  Ok (build [("generation", Some (JStr generation)); ("commands", Some (JArr (cs_commands seen)))]).

(** ** Method by method *)

Definition parse_daemon_info (value : jsval) (path : string) : checked jsval :=
  result ← object value path;
  _ ← exact result path ["securityMode"; "sandboxProvider"; "sandboxImage"];
  _ ← require (among ["sandboxed"; "unsafe"] (get "securityMode" result))
        (invalid (member path "securityMode") "must be sandboxed or unsafe");
  provider ← boundedString (get "sandboxProvider" result) (member path "sandboxProvider") 128;
  image ← optionally (λ v, boundedString v (member path "sandboxImage") 1024) (get "sandboxImage" result);
  Ok (build [("securityMode", Some (get "securityMode" result)); ("sandboxProvider", Some (JStr provider));
             ("sandboxImage", JStr <$> image)]).

Definition parse_initialize_result (value : jsval) (path : string) : checked jsval :=
  result ← object value path;
  _ ← exact result path ["attachmentId"; "daemonInstanceId"; "wireVersion"; "grantedCapabilities"; "scope";
                         "heartbeatIntervalMs"; "presenceTimeoutMs"];
  _ ← require (is_str "local_control" (get "scope" result)) (invalid (member path "scope") ("must be " +:+ quote "local_control"));
  heartbeat ← positiveInteger (get "heartbeatIntervalMs" result) (member path "heartbeatIntervalMs");
  timeout ← positiveInteger (get "presenceTimeoutMs" result) (member path "presenceTimeoutMs");
  _ ← require (int_of heartbeat <? int_of timeout)%Z
        (invalid (member path "heartbeatIntervalMs") "must be less than presenceTimeoutMs");
  attachmentId ← boundedString (get "attachmentId" result) (member path "attachmentId") 128;
  daemonInstanceId ← boundedString (get "daemonInstanceId" result) (member path "daemonInstanceId") 128;
  wireVersion ← positiveInteger (get "wireVersion" result) (member path "wireVersion");
  capabilities ← capabilityArray (get "grantedCapabilities" result) (member path "grantedCapabilities");
  Ok (build [("attachmentId", Some (JStr attachmentId)); ("daemonInstanceId", Some (JStr daemonInstanceId));
             ("wireVersion", Some (JNum wireVersion)); ("grantedCapabilities", Some (JArr (JStr <$> capabilities)));
             ("scope", Some (get "scope" result)); ("heartbeatIntervalMs", Some (JNum heartbeat));
             ("presenceTimeoutMs", Some (JNum timeout))]).

Definition parse_ping_result (value : jsval) (path : string) : checked jsval :=
  result ← object value path; _ ← exact result path []; Ok (build []).

Definition parse_session_list (value : jsval) (path : string) : checked jsval :=
  result ← object value path;
  _ ← exact result path ["sessions"; "nextPageCursor"];
  items ← array_within (get "sessions" result) 100 (invalid (member path "sessions") "must contain at most 100 sessions");
  sessions ← map_indexed (λ i summary, parseSessionSummary summary (element (member path "sessions") i)) items;
  nextPageCursor ← optionally (λ v, boundedString v (member path "nextPageCursor") 512) (get "nextPageCursor" result);
  Ok (build [("sessions", Some (JArr sessions)); ("nextPageCursor", JStr <$> nextPageCursor)]).

Definition parse_history_result (value : jsval) (path : string) : checked jsval :=
  result ← object value path;
  _ ← exact result path ["snapshotId"; "page"];
  snapshotId ← boundedString (get "snapshotId" result) (member path "snapshotId") 128;
  page ← parseSnapshotPage (get "page" result) JUndef;
  Ok (build [("snapshotId", Some (JStr snapshotId)); ("page", Some page)]).

(** [{ [name]: boundedString(result[name], ..., maximum) }] *)
Definition parse_string_result (name : string) (maximum : Z) (value : jsval) (path : string) : checked jsval :=
  result ← object value path;
  _ ← exact result path [name];
  s ← boundedString (get name result) (member path name) maximum;
  Ok (build [(name, Some (JStr s))]).

Definition parse_rename_result (value : jsval) (path : string) : checked jsval :=
  result ← object value path;
  _ ← exact result path ["title"; "eventId"];
  title ← sessionTitle (get "title" result) (member path "title");
  eventId ← parseEventId (get "eventId" result) (member path "eventId");
  Ok (build [("title", Some (JStr title)); ("eventId", Some (JStr eventId))]).

Definition parse_delete_result (value : jsval) (path : string) : checked jsval :=
  result ← object value path;
  _ ← exact result path ["deleted"; "historyPreserved"];
  _ ← require (bool_decide (get "deleted" result = JBool true) && bool_decide (get "historyPreserved" result = JBool false))
        (invalid path "must confirm permanent deletion");
  Ok (build [("deleted", Some (JBool true)); ("historyPreserved", Some (JBool false))]).

Definition parse_export_result (value : jsval) (path : string) : checked jsval :=
  result ← object value path;
  _ ← exact result path ["outputDirectory"; "sourceSha256"; "eventCount"; "blobCount"];
  outputDirectory ← boundedString (get "outputDirectory" result) (member path "outputDirectory") 4096;
  sourceSha256 ← sha256_ (get "sourceSha256" result) (member path "sourceSha256");
  eventCount ← nonNegativeInteger (get "eventCount" result) (member path "eventCount");
  blobCount ← nonNegativeInteger (get "blobCount" result) (member path "blobCount");
  Ok (build [("outputDirectory", Some (JStr outputDirectory)); ("sourceSha256", Some (JStr sourceSha256));
             ("eventCount", Some (JNum eventCount)); ("blobCount", Some (JNum blobCount))]).

Definition parse_send_result (value : jsval) (path : string) : checked jsval :=
  result ← object value path;
  _ ← exact result path ["operationId"; "stopReason"];
  _ ← require (among stop_reasons (get "stopReason" result)) (invalid (member path "stopReason") "is not a valid stop reason");
  operationId ← parseOperationId (get "operationId" result) (member path "operationId");
  Ok (build [("operationId", Some (JStr operationId)); ("stopReason", Some (get "stopReason" result))]).

Definition parse_queued_result (value : jsval) (path : string) : checked jsval :=
  result ← object value path;
  _ ← exact result path ["queued"];
  _ ← require (bool_decide (get "queued" result = JBool true)) (invalid (member path "queued") "must be true");
  Ok (build [("queued", Some (JBool true))]).

Definition parse_deliver_result (value : jsval) (path : string) : checked jsval :=
  result ← object value path;
  _ ← exact result path ["operationId"; "stopReason"; "targetOperationId"];
  _ ← require (among stop_reasons (get "stopReason" result)) (invalid (member path "stopReason") "is not a valid stop reason");
  operationId ← parseOperationId (get "operationId" result) (member path "operationId");
  target ← optionally (λ v, parseOperationId v (member path "targetOperationId")) (get "targetOperationId" result);
  Ok (build [("operationId", Some (JStr operationId)); ("stopReason", Some (get "stopReason" result));
             ("targetOperationId", JStr <$> target)]).

Definition parse_compact_result (value : jsval) (path : string) : checked jsval :=
  result ← object value path;
  _ ← exact result path ["eventId"];
  eventId ← parseEventId (get "eventId" result) (member path "eventId");
  Ok (build [("eventId", Some (JStr eventId))]).

Definition parse_queue_result (enqueue : bool) (value : jsval) (path : string) : checked jsval :=
  result ← object value path;
  _ ← exact result path ["queueItemId"; "state"];
  _ ← require (is_str "queued" (get "state" result) || (enqueue && is_str "paused" (get "state" result)))
        (invalid (member path "state") "is not valid for this queue method");
  queueItemId ← parseEventId (get "queueItemId" result) (member path "queueItemId");
  Ok (build [("queueItemId", Some (JStr queueItemId)); ("state", Some (get "state" result))]).

Definition parse_shell_result (value : jsval) (path : string) : checked jsval :=
  result ← object value path;
  _ ← exact result path ["operationId"; "isError"; "resultEventId"];
  _ ← require (is_bool (get "isError" result)) (invalid (member path "isError") "must be a boolean");
  operationId ← parseOperationId (get "operationId" result) (member path "operationId");
  resultEventId ← parseEventId (get "resultEventId" result) (member path "resultEventId");
  Ok (build [("operationId", Some (JStr operationId)); ("isError", Some (get "isError" result));
             ("resultEventId", Some (JStr resultEventId))]).

Definition parse_interrupt_result (value : jsval) (path : string) : checked jsval :=
  result ← object value path;
  _ ← exact result path ["interrupted"; "operationId"];
  _ ← require (is_bool (get "interrupted" result)) (invalid (member path "interrupted") "must be a boolean");
  operationId ← optionally (λ v, parseOperationId v (member path "operationId")) (get "operationId" result);
  Ok (build [("interrupted", Some (get "interrupted" result)); ("operationId", JStr <$> operationId)]).

Definition boundary_ids (items : list jsval) (path : string) : checked (list string) :=
  map_indexed (λ i v, parseEventId v (element (member path "boundaryEventIds") i)) items.

Definition parse_reload_result (value : jsval) (path : string) : checked jsval :=
  result ← object value path;
  _ ← exact result path ["boundaryEventIds"];
  items ← array_within (get "boundaryEventIds" result) 256 (invalid (member path "boundaryEventIds") "must contain at most 256 IDs");
  ids ← boundary_ids items path;
  Ok (build [("boundaryEventIds", Some (JArr (JStr <$> ids)))]).

Definition sessionProfile (value : jsval) (path : string) : checked jsval :=
  _ ← require (is_undef value || among session_profiles value) (invalid path "must be minimal, standard, chat, or exec");
  Ok value.

Definition parse_configure_result (value : jsval) (path : string) : checked jsval :=
  result ← object value path;
  _ ← exact result path ["providerId"; "modelId"; "requestedThinkingLevel"; "effectiveThinkingLevel"; "requestSettings";
                         "profile"; "webFetch"; "webSearch"; "boundaryEventIds"];
  _ ← require (among THINKING_LEVELS (get "requestedThinkingLevel" result))
        (invalid (member path "requestedThinkingLevel") "must be a thinking level");
  _ ← require (among THINKING_LEVELS (get "effectiveThinkingLevel" result))
        (invalid (member path "effectiveThinkingLevel") "must be a thinking level");
  _ ← each (λ name, require (is_bool (get name result)) (invalid (member path name) "must be a boolean")) ["webFetch"; "webSearch"];
  items ← array_within (get "boundaryEventIds" result) 256 (invalid (member path "boundaryEventIds") "must contain at most 256 IDs");
  profile ← sessionProfile (get "profile" result) (member path "profile");
  _ ← refuse (is_undef profile) (invalid (member path "profile") "is required");
  id ← boundedString (get "providerId" result) (member path "providerId") 128;
  modelId ← boundedString (get "modelId" result) (member path "modelId") 512;
  settings ← parseModelRequestSettings (get "requestSettings" result) (member path "requestSettings");
  ids ← boundary_ids items path;
  Ok (build [("providerId", Some (JStr id)); ("modelId", Some (JStr modelId));
             ("requestedThinkingLevel", Some (get "requestedThinkingLevel" result));
             ("effectiveThinkingLevel", Some (get "effectiveThinkingLevel" result));
             ("requestSettings", Some (JObj (encode_settings settings))); ("profile", Some profile);
             ("webFetch", Some (get "webFetch" result)); ("webSearch", Some (get "webSearch" result));
             ("boundaryEventIds", Some (JArr (JStr <$> ids)))]).

Definition parse_respond_result (value : jsval) (path : string) : checked jsval :=
  result ← object value path;
  _ ← exact result path ["interactionId"; "resolutionEventId"];
  interactionId ← boundedString (get "interactionId" result) (member path "interactionId") 128;
  resolutionEventId ← parseEventId (get "resolutionEventId" result) (member path "resolutionEventId");
  Ok (build [("interactionId", Some (JStr interactionId)); ("resolutionEventId", Some (JStr resolutionEventId))]).

(** ** Subscriptions *)

Definition page_size (page : jsval) : Z := match field "events" page with JArr l => Z.of_nat (length l) | _ => 0 end.

Definition parse_snapshot (sessionId : string) (fromNodeId : option string) (value : jsval) (path : string) : checked jsval :=
  descriptor ← object value path;
  _ ← exact descriptor path ["snapshotId"; "sessionId"; "fromNodeId"; "boundaryCursor"; "eventCount"; "page"];
  session ← parseSessionId (get "sessionId" descriptor) (member path "sessionId");
  _ ← require (bool_decide (session = sessionId)) (invalid (member path "sessionId") "must match sessionId");
  node ← optionally (λ v, parseEventId v (member path "fromNodeId")) (get "fromNodeId" descriptor);
  _ ← require (bool_decide (node = fromNodeId)) (invalid (member path "fromNodeId") "must match fromNodeId");
  page ← parseSnapshotPage (get "page" descriptor) (JStr sessionId);
  eventCount ← nonNegativeInteger (get "eventCount" descriptor) (member path "eventCount");
  _ ← refuse ((int_of eventCount <? page_size page)%Z
              || (bool_decide (field "complete" page = JBool true) && negb (page_size page =? int_of eventCount)%Z))
        (invalid (member path "eventCount") "must match the frozen snapshot pages");
  snapshotId ← boundedString (get "snapshotId" descriptor) (member path "snapshotId") 128;
  boundaryCursor ← boundedString (get "boundaryCursor" descriptor) (member path "boundaryCursor") 512;
  Ok (build [("snapshotId", Some (JStr snapshotId)); ("sessionId", Some (JStr session)); ("fromNodeId", JStr <$> node);
             ("boundaryCursor", Some (JStr boundaryCursor)); ("eventCount", Some (JNum eventCount)); ("page", Some page)]).

Definition given {A} (o : option A) : bool := match o with Some _ => true | None => false end.

Definition parse_subscribe_result (value : jsval) (path : string) : checked jsval :=
  result ← object value path;
  _ ← exact result path ["subscriptionId"; "sessionId"; "fromNodeId"; "snapshot"; "resumedFrom"];
  sessionId ← parseSessionId (get "sessionId" result) (member path "sessionId");
  fromNodeId ← optionally (λ v, parseEventId v (member path "fromNodeId")) (get "fromNodeId" result);
  snapshot ← optionally (λ v, parse_snapshot sessionId fromNodeId v (member path "snapshot")) (get "snapshot" result);
  resumedFrom ← optionally (λ v, boundedString v (member path "resumedFrom") 512) (get "resumedFrom" result);
  _ ← refuse (Bool.eqb (given snapshot) (given resumedFrom)) (invalid path "must contain exactly one of snapshot or resumedFrom");
  subscriptionId ← boundedString (get "subscriptionId" result) (member path "subscriptionId") 128;
  Ok (build [("subscriptionId", Some (JStr subscriptionId)); ("sessionId", Some (JStr sessionId)); ("fromNodeId", JStr <$> fromNodeId);
             ("snapshot", snapshot); ("resumedFrom", JStr <$> resumedFrom)]).

(** ** Checkpoints and blobs *)

Definition parse_checkpoint_result (value : jsval) (path : string) : checked jsval :=
  result ← object value path;
  _ ← exact result path ["enabled"; "checkpointId"];
  _ ← require (is_bool (get "enabled" result)) (invalid (member path "enabled") "must be a boolean");
  checkpointId ← optionally (λ v, boundedString v (member path "checkpointId") 128) (get "checkpointId" result);
  Ok (build [("enabled", Some (get "enabled" result)); ("checkpointId", JStr <$> checkpointId)]).

Definition parse_blob_start (value : jsval) (path : string) : checked jsval :=
  result ← object value path;
  _ ← exact result path ["uploadId"; "chunkBytes"];
  uploadId ← boundedString (get "uploadId" result) (member path "uploadId") 128;
  chunkBytes ← nonNegativeInteger (get "chunkBytes" result) (member path "chunkBytes");
  Ok (build [("uploadId", Some (JStr uploadId)); ("chunkBytes", Some (JNum chunkBytes))]).

Definition parse_blob_chunk (value : jsval) (path : string) : checked jsval :=
  result ← object value path;
  _ ← exact result path ["nextOffset"];
  nextOffset ← nonNegativeInteger (get "nextOffset" result) (member path "nextOffset");
  Ok (build [("nextOffset", Some (JNum nextOffset))]).

Definition parseBlobReadResult (value : jsval) : checked jsval :=
  result ← object value "blobRead";
  _ ← exact result "blobRead" ["data"; "offset"; "nextOffset"; "eof"];
  _ ← require (is_bool (get "eof" result)) (invalid "blobRead.eof" "must be a boolean");
  data ← boundedText (get "data" result) "blobRead.data" 700000;
  offset ← nonNegativeInteger (get "offset" result) "blobRead.offset";
  nextOffset ← nonNegativeInteger (get "nextOffset" result) "blobRead.nextOffset";
  Ok (build [("data", Some (JStr data)); ("offset", Some (JNum offset)); ("nextOffset", Some (JNum nextOffset));
             ("eof", Some (get "eof" result))]).

Definition parse_dispose_result (value : jsval) (path : string) : checked jsval :=
  result ← object value path;
  _ ← exact result path ["disposed"; "historyPreserved"];
  _ ← require (is_bool (get "disposed" result)) (invalid (member path "disposed") "must be a boolean");
  _ ← require (bool_decide (get "historyPreserved" result = JBool true)) (invalid (member path "historyPreserved") "must be true");
  Ok (build [("disposed", Some (get "disposed" result)); ("historyPreserved", Some (JBool true))]).

(** ** The parser *)

Definition method_is (s m : string) : bool := String.eqb m s.

Definition parseRpcResult (m : string) (value : jsval) : checked jsval :=
  let path := "success.result" in
  if method_is "daemon.info" m then parse_daemon_info value path
  else if method_is "connection.initialize" m then parse_initialize_result value path
  else if method_is "connection.ping" m then parse_ping_result value path
  else if method_is "request.cancel" m then parseBooleanResult value path "cancellationRequested"
  else if method_is "command.list" m then parseCommandListResult value path
  else if method_is "provider.list" m then parseProviderListResult value
  else if method_is "provider.catalog.refresh" m then parseProviderCatalogRefreshResult value
  else if method_is "provider.auth.status" m then parseProviderAuthenticationStatusResult value
  else if method_is "provider.auth.login" m || method_is "provider.auth.logout" m then parseProviderAuthenticationStatus value path
  else if method_is "session.create" m || method_is "session.resume" m then parseSessionOpenResult value path
  else if method_is "session.list" m then parse_session_list value path
  else if method_is "session.history" m then parse_history_result value path
  else if method_is "session.ack" m then parse_string_result "cursor" 512 value path
  else if method_is "session.unsubscribe" m then parseBooleanResult value path "unsubscribed"
  else if method_is "session.fork" m || method_is "session.clone" m then parse_fork_result value path
  else if method_is "session.rename" m then parse_rename_result value path
  else if method_is "session.delete" m then parse_delete_result value path
  else if method_is "session.export" m then parse_export_result value path
  else if method_is "session.import" m then parseSessionOpenResult value path
  else if method_is "session.send" m then parse_send_result value path
  else if method_is "session.steer" m || method_is "session.followUp" m then parse_queued_result value path
  else if method_is "session.interruptAndDeliver" m then parse_deliver_result value path
  else if method_is "session.compact" m then parse_compact_result value path
  else if method_is "session.queue.enqueue" m || method_is "session.queue.requeue" m then
    parse_queue_result (method_is "session.queue.enqueue" m) value path
  else if method_is "session.shell" m then parse_shell_result value path
  else if method_is "session.interrupt" m then parse_interrupt_result value path
  else if method_is "session.reload" m then parse_reload_result value path
  else if method_is "session.configure" m then parse_configure_result value path
  else if method_is "session.interaction.respond" m then parse_respond_result value path
  else if method_is "session.subscribe" m then parse_subscribe_result value path
  else if method_is "session.workspace.list" m then parseWorkspaceListResult value
  else if method_is "session.workspace.read" m then parseWorkspaceReadResult value
  else if method_is "session.workspace.status" m then parseWorkspaceStatusResult value
  else if method_is "session.workspace.diff" m then parseWorkspaceDiffResult value
  else if method_is "session.workspace.checkpoint" m then parse_checkpoint_result value path
  else if method_is "session.blob.start" m then parse_blob_start value path
  else if method_is "session.blob.chunk" m then parse_blob_chunk value path
  else if method_is "session.blob.commit" m then parseBlobReference value path
  else if method_is "session.blob.abort" m then parseBooleanResult value path "aborted"
  else if method_is "session.blob.read" m then parseBlobReadResult value
  else if method_is "session.dispose" m then parse_dispose_result value path
  else validationError "success.method" ("unknown method " +:+ m).
