(* ===== verification/WireResultsFacts.v ===== *)
(** The parser of RPC results accepts what it returned, for every method: a result
    that was recorded, sent or read back is the result it was. *)
From stdpp Require Import base list sets strings pretty.
From Stdlib Require Import ZArith Lia Ascii.
From S2P Require Import Prelude Text JsValue Json Envelope Types ModelRequest Events EventSchema.
From S2P Require Import JsMap WireTables WireFields ProviderManagement WireWorkspace WireResults.

(** Splits the check of an object from the parse of its fields. *)
Ltac fields_again :=
  unfold build;
  rewrite ?get_present by (apply (bool_decide_unpack _); vm_compute; reflexivity);
  cbn [member_of String.eqb Ascii.eqb Bool.eqb]; rewrite ?of_opt_to_opt, ?of_opt_Some; known; reflexivity.
Ltac checked_again H H' := open_parser H; open_parser H'; returned; eexists; split; [reflexivity|]; split;
  [built; known; reflexivity | fields_again].

Section Stability.
Lemma settings_returned v path s :
  parseModelRequestSettings v path = Ok s → parseModelRequestSettings (JObj (encode_settings s)) path = Ok s.
Proof. intros H. apply settings_complete. by eapply settings_sound. Qed.

Lemma runtime_again v path a path' w :
  check_runtime v path = Ok a → parse_runtime a path' = Ok w →
  ∃ a', w = JObj a' ∧ check_runtime w path = Ok a' ∧ parse_runtime a' path' = Ok w.
Proof. unfold check_runtime, parse_runtime. intros H H'. checked_again H H'. Qed.

Lemma argument_again v path a path' w :
  check_argument v path = Ok a → parse_argument a path' = Ok w →
  ∃ a', w = JObj a' ∧ check_argument w path = Ok a' ∧ parse_argument a' path' = Ok w.
Proof. unfold check_argument, parse_argument. intros H H'. checked_again H H'. Qed.
End Stability.

#[export] Instance runtime_stable : Stable parseSessionRuntime.
Proof.
  intros v path w. unfold parseSessionRuntime. intros (a & Ha & Hw)%bind_Ok.
  destruct (runtime_again _ _ _ _ _ Ha Hw) as (a' & -> & Ha' & Hw'). split; [|done]. by rewrite Ha'.
Qed.
#[export] Instance summary_stable : Stable parseSessionSummary.
Proof. stable_parser parseSessionSummary. Qed.
#[export] Instance daemon_info_stable : Stable parse_daemon_info.
Proof. stable_parser parse_daemon_info. Qed.
#[export] Instance initialize_stable : Stable parse_initialize_result.
Proof. stable_parser parse_initialize_result. Qed.
#[export] Instance ping_stable : Stable parse_ping_result.
Proof. stable_parser parse_ping_result. Qed.
#[export] Instance session_list_stable : Stable parse_session_list.
Proof. stable_parser parse_session_list. Qed.
#[export] Instance rename_stable : Stable parse_rename_result.
Proof. stable_parser parse_rename_result. Qed.
#[export] Instance export_stable : Stable parse_export_result.
Proof. stable_parser parse_export_result. Qed.
#[export] Instance send_stable : Stable parse_send_result.
Proof. stable_parser parse_send_result. Qed.
#[export] Instance deliver_stable : Stable parse_deliver_result.
Proof. stable_parser parse_deliver_result. Qed.
#[export] Instance compact_stable : Stable parse_compact_result.
Proof. stable_parser parse_compact_result. Qed.
#[export] Instance queue_stable enqueue : Stable (parse_queue_result enqueue).
Proof. stable_parser parse_queue_result. Qed.
#[export] Instance shell_stable : Stable parse_shell_result.
Proof. stable_parser parse_shell_result. Qed.
#[export] Instance interrupt_stable : Stable parse_interrupt_result.
Proof. stable_parser parse_interrupt_result. Qed.
#[export] Instance respond_stable : Stable parse_respond_result.
Proof. stable_parser parse_respond_result. Qed.
#[export] Instance checkpoint_stable : Stable parse_checkpoint_result.
Proof. stable_parser parse_checkpoint_result. Qed.
#[export] Instance blob_start_stable : Stable parse_blob_start.
Proof. stable_parser parse_blob_start. Qed.
#[export] Instance blob_chunk_stable : Stable parse_blob_chunk.
Proof. stable_parser parse_blob_chunk. Qed.
#[export] Instance dispose_stable : Stable parse_dispose_result.
Proof. stable_parser parse_dispose_result. Qed.
#[export] Instance delete_stable : Stable parse_delete_result.
Proof. stable_parser parse_delete_result. Qed.
#[export] Instance queued_stable : Stable parse_queued_result.
Proof. stable_parser parse_queued_result. Qed.

(** ** Results with one field *)

Lemma one_member name v : get name (present [(name, Some v)]) = v.
Proof. simpl. by rewrite bool_decide_true. Qed.

Lemma exact_one name v path : exact (present [(name, Some v)]) path [name] = Ok tt.
Proof. apply exact_present. cbn [fmap list_fmap fst forallb]. rewrite bool_decide_true; [done|by left]. Qed.

Lemma boolean_result_again name v path w :
  parseBooleanResult v path name = Ok w → parseBooleanResult w path name = Ok w.
Proof.
  unfold parseBooleanResult. intros H. open_parser H. unfold build. cbn [object rbind].
  rewrite exact_one, one_member. cbn [rbind]. known. reflexivity.
Qed.

Lemma string_result_again name maximum v path w :
  parse_string_result name maximum v path = Ok w → parse_string_result name maximum w path = Ok w.
Proof.
  unfold parse_string_result. intros H. open_parser H. returned. unfold build. cbn [object rbind].
  rewrite exact_one, one_member. cbn [rbind]. known. reflexivity.
Qed.

Lemma blob_reference_again v path w : parseBlobReference v path = Ok w → parseBlobReference w path = Ok w.
Proof.
  unfold parseBlobReference. intros (u & Hu & [= <-])%bind_Ok. rewrite Hu. done.
Qed.

Lemma blob_read_again v w : parseBlobReadResult v = Ok w → parseBlobReadResult w = Ok w.
Proof. intros H. unfold parseBlobReadResult in H. open_parser H. returned. unfold parseBlobReadResult. built. known. reflexivity. Qed.

(** ** Lists of identifiers *)

Lemma boundary_ids_again items path ids m e v :
  array_within v m e = Ok items → boundary_ids items path = Ok ids →
  array_within (JArr (JStr <$> ids)) m e = Ok (JStr <$> ids) ∧ boundary_ids (JStr <$> ids) path = Ok ids.
Proof.
  intros Ha Hi. split.
  - apply array_within_Ok in Ha as [_ Hm]. apply (array_within_again JStr items); [|done]. by eapply map_length.
  - eapply (map_again _ JStr); [|exact Hi]. intros i x a Hx. by rewrite (id_Ok _ _ _ Hx) in Hx.
Qed.

Ltac boundaries :=
  match goal with
  | H1 : array_within (get "boundaryEventIds" _) _ _ = Ok ?items, H2 : boundary_ids ?items _ = Ok _ |- _ =>
      let A := fresh "A" in let B := fresh "B" in
      destruct (boundary_ids_again _ _ _ _ _ _ H1 H2) as [A B]; clear H1 H2
  end.

#[export] Instance reload_stable : Stable parse_reload_result.
Proof.
  intros v path w H. unfold parse_reload_result in H. open_parser H. boundaries.
  split; [unfold parse_reload_result; built; known; reflexivity|reflexivity].
Qed.

Lemma sessionProfile_Ok v path w : sessionProfile v path = Ok w → v = w.
Proof. unfold sessionProfile. by intros (u & _ & [= <-])%bind_Ok. Qed.

#[export] Instance configure_stable : Stable parse_configure_result.
Proof.
  intros v path w H. unfold parse_configure_result, each in H. cbn [each_from] in H. open_parser H. returned. boundaries.
  match goal with H : sessionProfile (get _ _) _ = Ok _ |- _ => pose proof (sessionProfile_Ok _ _ _ H) as Ep; rewrite Ep in H end.
  match goal with H : parseModelRequestSettings _ _ = Ok _ |- _ => apply settings_returned in H end.
  split; [unfold parse_configure_result; built; known; reflexivity|reflexivity].
Qed.

(** ** Sessions *)

(** The keys a session result is made of. *)
Definition session_keys : list string := ["sessionId"; "cwd"; "title"; "runtime"; "profile"].

Lemma session_members_keys v path b ms : session_open_members v path b = Ok ms → ms.*1 = session_keys.
Proof. unfold session_open_members. intros H. by open_parser H. Qed.

Lemma session_members_again v path b o ms :
  session_open_members v path b = Ok ms →
  session_open_members (build (ms ++ if b then [("selectedText", o)] else [])) path b = Ok ms.
Proof.
  intros H. unfold session_open_members in H. open_parser H. returned.
  match goal with
  | H1 : check_runtime _ _ = Ok _, H2 : parse_runtime _ _ = Ok _ |- _ =>
      destruct (runtime_again _ _ _ _ _ H1 H2) as (a' & Ew & Ha & Hr); clear H1 H2
  end.
  unfold session_open_members. destruct b; cbn [app]; built; known; reflexivity.
Qed.

#[export] Instance session_open_stable : Stable parseSessionOpenResult.
Proof.
  intros v path w. unfold parseSessionOpenResult. intros (ms & Hm & ->)%rmap_Ok. split; [|done].
  pose proof (session_members_again v path false None ms Hm) as Ha. rewrite app_nil_r in Ha. by rewrite Ha.
Qed.

#[export] Instance fork_stable : Stable parse_fork_result.
Proof.
  intros v path w. unfold parse_fork_result. intros H. open_parser H. returned. split; [|done].
  match goal with H : session_open_members _ _ _ = Ok _ |- _ =>
    pose proof (session_members_again _ _ _ (JStr <$> x1) _ H) as Ha;
    pose proof (session_members_keys _ _ _ _ H) as Hk
  end.
  unfold build at 1. cbn [object rbind]. rewrite Ha. cbn [rbind]. rewrite get_present.
  - assert (member_of "selectedText" (x0 ++ [("selectedText", JStr <$> x1)]) = JStr <$> x1) as ->; [|known; reflexivity].
    clear -Hk. destruct x0 as [|[] [|[] [|[] [|[] [|[] []]]]]]; try done. injection Hk as -> -> -> -> ->. done.
  - rewrite fmap_app, Hk. apply (bool_decide_unpack _). vm_compute. reflexivity.
Qed.

(** ** Pages of history *)

Lemma page_events_again s items events m e v :
  array_within v m e = Ok items → map_indexed (parse_page_event s) items = Ok events →
  array_within (JArr (envelope_value <$> events)) m e = Ok (envelope_value <$> events) ∧
  map_indexed (parse_page_event s) (envelope_value <$> events) = Ok events.
Proof.
  intros Ha Hi. split.
  - apply array_within_Ok in Ha as [_ Hm]. apply (array_within_again envelope_value items); [|done]. by eapply map_length.
  - eapply (map_again _ envelope_value); [|exact Hi]. intros i x a. unfold parse_page_event.
    intros (a' & Hx & H)%bind_Ok. apply bind_Ok in H as (u & Hu & [= <-]).
    rewrite (parseEvent_stable _ _ Hx). cbn [rbind]. by rewrite Hu.
Qed.

Lemma snapshot_page_again v expected w :
  parseSnapshotPage v expected = Ok w → parseSnapshotPage w expected = Ok w ∧ is_undef w = false.
Proof.
  intros H. unfold parseSnapshotPage in H. open_parser H. returned.
  match goal with
  | H1 : array_within (get _ _) _ _ = Ok ?items, H2 : map_indexed (parse_page_event _) ?items = Ok _ |- _ =>
      destruct (page_events_again _ _ _ _ _ _ H1 H2) as [A B]; clear H1 H2
  end.
  split; [unfold parseSnapshotPage; built; known; reflexivity|reflexivity].
Qed.

Ltac page_again :=
  match goal with
  | H : parseSnapshotPage (get _ _) _ = Ok _ |- _ => apply snapshot_page_again in H as [H _]
  end.

#[export] Instance history_stable : Stable parse_history_result.
Proof.
  intros v path w H. unfold parse_history_result in H. open_parser H. returned. page_again.
  split; [unfold parse_history_result; built; known; reflexivity|reflexivity].
Qed.

#[export] Instance snapshot_stable s n : Stable (parse_snapshot s n).
Proof.
  intros v path w H. unfold parse_snapshot in H. open_parser H. returned. page_again.
  split; [unfold parse_snapshot; built; known; reflexivity|reflexivity].
Qed.

#[export] Instance subscribe_stable : Stable parse_subscribe_result.
Proof.
  intros v path w H. unfold parse_subscribe_result in H. open_parser H. returned.
  match goal with H : optionally (λ v, parse_snapshot ?s ?n v ?p) _ = Ok _ |- _ =>
    apply (optionally_stable (parse_snapshot s n) p) in H
  end.
  split; [unfold parse_subscribe_result; built; known; reflexivity|reflexivity].
Qed.

(** ** Commands *)

Lemma aliases_Ok path l l' : map_indexed (λ i alias, commandName (JStr alias) (path i)) l = Ok l' → l = l'.
Proof.
  intros [Hlen H]%map_indexed_Ok. apply list_eq_same_length with (n := length l); [done|done|].
  intros i x y _ Hx Hy. pose proof (H i x y Hx Hy) as E. apply commandName_Ok in E. by injection E.
Qed.

Lemma command_availability_again v path a path' w :
  check_command_availability v path = Ok a → parse_command_availability a path' = Ok w →
  ∃ a', check_command_availability w path = Ok a' ∧ parse_command_availability a' path' = Ok w.
Proof.
  unfold check_command_availability, parse_command_availability. intros H H'. open_parser H.
  destruct (is_str "available" (get "state" x)).
  - injection H' as <-. eexists. split; [built; reflexivity|reflexivity].
  - open_parser H'. returned. eexists. split; [built; reflexivity|fields_again].
Qed.

(** Parsing a command appends one command, which parses back to the same. *)
Lemma command_again path seen i v seen' :
  parse_command path seen (i, v) = Ok seen' →
  ∃ w, cs_commands seen' = cs_commands seen ++ [w] ∧ parse_command path seen (i, w) = Ok seen'.
Proof.
  unfold parse_command. cbn [fst snd]. intros H. open_parser H. returned. cbn [cs_commands]. eexists. split; [reflexivity|].
  match goal with H : map_indexed _ _ = Ok _ |- _ => pose proof (aliases_Ok _ _ _ H) as Ea; rewrite Ea in * end.
  match goal with
  | H1 : check_argument _ _ = Ok _, H2 : parse_argument _ _ = Ok _ |- _ =>
      destruct (argument_again _ _ _ _ _ H1 H2) as (a1 & _ & A1 & A2); clear H1 H2
  end.
  match goal with
  | H1 : check_command_availability _ _ = Ok _, H2 : parse_command_availability _ _ = Ok _ |- _ =>
      destruct (command_availability_again _ _ _ _ _ H1 H2) as (a2 & B1 & B2); clear H1 H2
  end.
  built. known. reflexivity.
Qed.

(** So a list of commands that was accepted is returned as a list that is accepted with
    the same identifiers and names in use after each command. *)
Lemma commands_again path items i seen seen' :
  fold_res (parse_command path) seen (imap (λ j v, (i + j, v)) items) = Ok seen' →
  ∃ ws, cs_commands seen' = cs_commands seen ++ ws ∧ length ws = length items ∧
    fold_res (parse_command path) seen (imap (λ j v, (i + j, v)) ws) = Ok seen'.
Proof.
  revert i seen. induction items as [|v items IH]; intros i seen.
  - intros [= <-]. exists []. by rewrite app_nil_r.
  - cbn [imap fold_res]. intros (seen1 & H1 & H)%bind_Ok. apply command_again in H1 as (w & Ew & Hw).
    rewrite (imap_ext _ (λ j v, (S i + j, v))) in H by (intros; simpl; f_equal; lia).
    apply IH in H as (ws & Ews & Hl & Hws). exists (w :: ws). split_and!.
    + rewrite Ews, Ew, <- app_assoc. done.
    + simpl. by rewrite Hl.
    + cbn [imap fold_res]. rewrite Hw. cbn [rbind].
      rewrite (imap_ext _ (λ j v, (S i + j, v))) by (intros; simpl; f_equal; lia). exact Hws.
Qed.

#[export] Instance command_list_stable : Stable parseCommandListResult.
Proof.
  intros v path w H. unfold parseCommandListResult in H. open_parser H. returned.
  match goal with
  | H1 : array_within _ _ _ = Ok ?items, H2 : fold_res _ _ _ = Ok ?seen |- _ =>
      destruct (commands_again path items 0 _ _ H2) as (ws & Ews & Hl & Hws); cbn [cs_commands app] in Ews;
      rewrite <- Ews in *; change (imap _ (cs_commands seen)) with (imap pair (cs_commands seen)) in Hws; eapply (array_again _ _ _ _ (cs_commands seen)) in H1; [|done]
  end.
  split; [unfold parseCommandListResult; built; known; reflexivity|reflexivity].
Qed.

(** ** The parser of results *)

Lemma rpc_result_again m v w : parseRpcResult m v = Ok w → parseRpcResult m w = Ok w.
Proof.
  unfold parseRpcResult. cbv zeta.
  repeat (destruct (_ : bool); [solve [eauto using boolean_result_again, string_result_again, blob_reference_again,
    blob_read_again, provider_list_stable, catalog_refresh_stable, authentication_result_stable, workspace_list_stable,
    workspace_read_stable, workspace_status_stable, workspace_diff_stable, stable_again_1 with typeclass_instances]|]).
  done.
Qed.

(** The methods that have results are the methods of the protocol. *)
Lemma rpc_result_known m v w : parseRpcResult m v = Ok w → m ∈ RPC_METHODS.
Proof.
  unfold parseRpcResult, method_is. cbv zeta. repeat (case_match; [intros _|]); try done;
    repeat match goal with
    | H : (_ || _) = true |- _ => apply orb_true_iff in H as [H|H]
    | H : String.eqb m _ = true |- _ => apply String.eqb_eq in H as ->
    end; apply (bool_decide_unpack _); vm_compute; reflexivity.
Qed.

(** The parser of RPC results has a rule for the methods of the protocol and for no
    other, and a result it returned it accepts again, unchanged: parsing what the
    daemon stored, replayed or sent gives the value that was parsed before. *)
Theorem rpc_result_stable m v w :
  parseRpcResult m v = Ok w → m ∈ RPC_METHODS ∧ parseRpcResult m w = Ok w.
Proof. intros H. split; [by eapply rpc_result_known|by eapply rpc_result_again]. Qed.

Definition sample_summary : jsval :=
  JObj [("sessionId", JStr "7f000000-0000-4000-8000-000000000001"); ("cwd", JStr "/work"); ("createdAt", JInt 10);
        ("updatedAt", JInt 20); ("userMessageCount", JInt 1); ("runtime", JObj [("state", JStr "idle")]);
        ("attachmentCount", JInt 0)].
Definition sample_sessions : jsval := JObj [("nextPageCursor", JStr "c1"); ("sessions", JArr [sample_summary])].

Lemma rpc_result_stable_witness :
  ∃ w, parseRpcResult "session.list" sample_sessions = Ok w ∧ w ≠ sample_sessions ∧
    "session.list" ∈ RPC_METHODS ∧ parseRpcResult "session.list" w = Ok w.
Proof.
  eexists. split; [vm_compute; reflexivity|]. split; [by vm_compute|].
  eapply (rpc_result_stable "session.list" sample_sessions). vm_compute. reflexivity.
Defined.
