(* ===== verification/WireRequest.v ===== *)
(** protocol/src/wire.ts: the parser of requests: the frame, the idempotency key, and
    the parameters of every method. *)
From stdpp Require Import base list sets strings pretty.
From Stdlib Require Import ZArith Lia Ascii.
From S2P Require Import Prelude Text JsValue Json Envelope Types ModelRequest Events EventSchema.
From S2P Require Import JsMap WireTables WireFields ProviderManagement WireWorkspace WireResults.

(** ** Shared parts *)

Definition thinkingLevels : list string := ["off"; "minimal"; "low"; "medium"; "high"; "xhigh"; "max"].

(** [`request.params.${key}`] *)
Definition param (key : string) : string := member "request.params" key.

Definition parseUserContent (value : jsval) (path : string) : checked jsval :=
  _ ← validateContent value path false; Ok value.

(** The members of a selection, to be spread into the parameters. *)
Definition selection (params : fields) (path : string) : checked members :=
  id ← optionally (λ v, string_ v (member path "providerId")) (get "providerId" params);
  modelId ← optionally (λ v, string_ v (member path "modelId")) (get "modelId" params);
  _ ← require (is_undef (get "thinkingLevel" params) || among thinkingLevels (get "thinkingLevel" params))
        (invalid (member path "thinkingLevel") ("must be one of: " +:+ join ", " thinkingLevels));
  _ ← each (λ name, require (is_undef (get name params) || is_bool (get name params)) (invalid (member path name) "must be a boolean"))
        ["webFetch"; "webSearch"];
  settings ← optionally (λ v, parseModelRequestSettings v (member path "requestSettings")) (get "requestSettings" params);
  Ok [("providerId", JStr <$> id); ("requestSettings", (λ s, JObj (encode_settings s)) <$> settings); ("modelId", JStr <$> modelId);
      ("thinkingLevel", to_opt (get "thinkingLevel" params)); ("webFetch", to_opt (get "webFetch" params));
      ("webSearch", to_opt (get "webSearch" params))].

(** ** The connection *)

(** [/^[a-z][a-z0-9_-]*$/] *)
Definition client_kind : regex :=
  (RClass is_lower ⋅ RStar (RClass (λ c, is_lower c || is_digit c || is_char c "_"%char || is_char c "-"%char)))%regex.

Definition check_client (value : jsval) (path : string) : checked fields :=
  client ← object value path;
  _ ← exact client path ["kind"; "version"; "instanceId"];
  kind ← boundedString (get "kind" client) (member path "kind") 64;
  _ ← require (rmatch client_kind kind) (invalid (member path "kind") "must be a lowercase protocol identifier");
  Ok client.

Definition parse_client (client : fields) (path : string) : checked jsval :=
  version ← boundedString (get "version" client) (member path "version") 128;
  instanceId ← boundedString (get "instanceId" client) (member path "instanceId") 128;
  Ok (build [("kind", Some (get "kind" client)); ("version", Some (JStr version)); ("instanceId", Some (JStr instanceId))]).

Definition initialize_params (params : fields) : checked jsval :=
  _ ← exact params "request.params" ["client"; "requestedCapabilities"];
  client ← check_client (get "client" params) (param "client");
  capabilities ← capabilityArray (get "requestedCapabilities" params) (param "requestedCapabilities");
  client' ← parse_client client (param "client");
  Ok (build [("client", Some client'); ("requestedCapabilities", Some (JArr (JStr <$> capabilities)))]).

Definition no_params (params : fields) : checked jsval := _ ← exact params "request.params" []; Ok (build []).

Definition cancel_params (params : fields) : checked jsval :=
  _ ← exact params "request.params" ["requestId"];
  requestId ← nonNegativeInteger (get "requestId" params) (param "requestId");
  Ok (build [("requestId", Some (JNum requestId))]).

Definition command_list_params (params : fields) : checked jsval :=
  _ ← exact params "request.params" ["sessionId"];
  sessionId ← optionally (λ v, parseSessionId v (param "sessionId")) (get "sessionId" params);
  Ok (build [("sessionId", JStr <$> sessionId)]).

(** ** Providers *)

Definition optional_provider_params (params : fields) : checked jsval :=
  _ ← exact params "request.params" ["providerId"];
  id ← optionally (λ v, parseProviderIdParam v (param "providerId")) (get "providerId" params);
  Ok (build [("providerId", JStr <$> id)]).

Definition login_params (params : fields) : checked jsval :=
  _ ← exact params "request.params" ["providerId"; "method"];
  id ← parseProviderIdParam (get "providerId" params) (param "providerId");
  login ← parseProviderLoginMethod (get "method" params) (param "method");
  Ok (build [("providerId", Some (JStr id)); ("method", Some login)]).

Definition logout_params (params : fields) : checked jsval :=
  _ ← exact params "request.params" ["providerId"];
  id ← parseProviderIdParam (get "providerId" params) (param "providerId");
  Ok (build [("providerId", Some (JStr id))]).

(** ** Sessions *)

Definition create_params (params : fields) : checked jsval :=
  _ ← exact params "request.params" ["cwd"; "providerId"; "modelId"; "thinkingLevel"; "requestSettings"; "webFetch"; "webSearch";
                                     "profile"];
  profile ← sessionProfile (get "profile" params) (param "profile");
  cwd ← string_ (get "cwd" params) (param "cwd");
  selected ← selection params "request.params";
  Ok (build ([("cwd", Some (JStr cwd))] ++ selected ++
             [("profile", Some (if is_undef profile then JStr "standard" else profile))])).

(** [{ sessionId }]: resume, and below clone, interrupt, reload, dispose and delete. *)
Definition session_params (params : fields) : checked jsval :=
  _ ← exact params "request.params" ["sessionId"];
  sessionId ← parseSessionId (get "sessionId" params) (param "sessionId");
  Ok (build [("sessionId", Some (JStr sessionId))]).

Definition list_params (params : fields) : checked jsval :=
  _ ← exact params "request.params" ["scope"; "cwd"; "query"; "order"; "pageSize"; "pageCursor"];
  _ ← require (among ["current_workspace"; "all_local"] (get "scope" params))
        (invalid (param "scope") "must be current_workspace or all_local");
  _ ← require (among ["recent"; "threaded"] (get "order" params)) (invalid (param "order") "must be recent or threaded");
  cwd ← optionally (λ v, boundedString v (param "cwd") 4096) (get "cwd" params);
  _ ← refuse (is_str "current_workspace" (get "scope" params) && bool_decide (cwd = None))
        (invalid (param "cwd") "is required for current_workspace scope");
  query ← optionally (λ v, boundedText v (param "query") 1024) (get "query" params);
  pageSize ← positiveInteger (get "pageSize" params) (param "pageSize");
  _ ← refuse (100 <? int_of pageSize)%Z (invalid (param "pageSize") "must not exceed 100");
  pageCursor ← optionally (λ v, boundedString v (param "pageCursor") 512) (get "pageCursor" params);
  Ok (build [("scope", Some (get "scope" params)); ("cwd", JStr <$> cwd); ("query", JStr <$> query);
             ("order", Some (get "order" params)); ("pageSize", Some (JNum pageSize)); ("pageCursor", JStr <$> pageCursor)]).

Definition history_params (params : fields) : checked jsval :=
  _ ← exact params "request.params" ["snapshotId"; "pageCursor"];
  snapshotId ← boundedString (get "snapshotId" params) (param "snapshotId") 128;
  pageCursor ← boundedString (get "pageCursor" params) (param "pageCursor") 512;
  Ok (build [("snapshotId", Some (JStr snapshotId)); ("pageCursor", Some (JStr pageCursor))]).

Definition ack_params (params : fields) : checked jsval :=
  _ ← exact params "request.params" ["subscriptionId"; "cursor"];
  subscriptionId ← boundedString (get "subscriptionId" params) (param "subscriptionId") 128;
  cursor ← boundedString (get "cursor" params) (param "cursor") 512;
  Ok (build [("subscriptionId", Some (JStr subscriptionId)); ("cursor", Some (JStr cursor))]).

Definition unsubscribe_params (params : fields) : checked jsval :=
  _ ← exact params "request.params" ["subscriptionId"];
  subscriptionId ← boundedString (get "subscriptionId" params) (param "subscriptionId") 128;
  Ok (build [("subscriptionId", Some (JStr subscriptionId))]).

Definition fork_params (params : fields) : checked jsval :=
  _ ← exact params "request.params" ["sessionId"; "fromEventId"];
  sessionId ← parseSessionId (get "sessionId" params) (param "sessionId");
  fromEventId ← parseEventId (get "fromEventId" params) (param "fromEventId");
  Ok (build [("sessionId", Some (JStr sessionId)); ("fromEventId", Some (JStr fromEventId))]).

Definition rename_params (params : fields) : checked jsval :=
  _ ← exact params "request.params" ["sessionId"; "title"];
  title ← sessionTitle (get "title" params) (param "title");
  sessionId ← parseSessionId (get "sessionId" params) (param "sessionId");
  Ok (build [("sessionId", Some (JStr sessionId)); ("title", Some (JStr title))]).

Definition export_params (params : fields) : checked jsval :=
  _ ← exact params "request.params" ["sessionId"; "outputDirectory"];
  sessionId ← parseSessionId (get "sessionId" params) (param "sessionId");
  outputDirectory ← boundedString (get "outputDirectory" params) (param "outputDirectory") 4096;
  Ok (build [("sessionId", Some (JStr sessionId)); ("outputDirectory", Some (JStr outputDirectory))]).

Definition import_params (params : fields) : checked jsval :=
  _ ← exact params "request.params" ["inputDirectory"; "cwd"];
  inputDirectory ← boundedString (get "inputDirectory" params) (param "inputDirectory") 4096;
  cwd ← boundedString (get "cwd" params) (param "cwd") 4096;
  Ok (build [("inputDirectory", Some (JStr inputDirectory)); ("cwd", Some (JStr cwd))]).

(** ** Messages to a session *)

Definition send_params (params : fields) : checked jsval :=
  _ ← exact params "request.params" ["sessionId"; "content"; "delivery"];
  _ ← require (among ["prompt"; "steer"; "follow_up"] (get "delivery" params))
        (invalid (param "delivery") "must be prompt, steer, or follow_up");
  sessionId ← parseSessionId (get "sessionId" params) (param "sessionId");
  content ← parseUserContent (get "content" params) (param "content");
  Ok (build [("sessionId", Some (JStr sessionId)); ("content", Some content); ("delivery", Some (get "delivery" params))]).

Definition deliver_params (params : fields) : checked jsval :=
  _ ← exact params "request.params" ["sessionId"; "content"];
  sessionId ← parseSessionId (get "sessionId" params) (param "sessionId");
  content ← parseUserContent (get "content" params) (param "content");
  Ok (build [("sessionId", Some (JStr sessionId)); ("content", Some content)]).

Definition compact_params (params : fields) : checked jsval :=
  _ ← exact params "request.params" ["sessionId"; "instructions"];
  sessionId ← parseSessionId (get "sessionId" params) (param "sessionId");
  instructions ← optionally (λ v, boundedString v (param "instructions") 16384) (get "instructions" params);
  Ok (build [("sessionId", Some (JStr sessionId)); ("instructions", JStr <$> instructions)]).

Definition enqueue_params (params : fields) : checked jsval :=
  _ ← exact params "request.params" ["sessionId"; "content"; "priority"];
  _ ← require (among ["front"; "back"] (get "priority" params)) (invalid (param "priority") "must be front or back");
  sessionId ← parseSessionId (get "sessionId" params) (param "sessionId");
  content ← parseUserContent (get "content" params) (param "content");
  Ok (build [("sessionId", Some (JStr sessionId)); ("content", Some content); ("priority", Some (get "priority" params))]).

Definition requeue_params (params : fields) : checked jsval :=
  _ ← exact params "request.params" ["sessionId"; "queueItemId"; "priority"];
  _ ← require (among ["front"; "back"] (get "priority" params)) (invalid (param "priority") "must be front or back");
  sessionId ← parseSessionId (get "sessionId" params) (param "sessionId");
  queueItemId ← parseEventId (get "queueItemId" params) (param "queueItemId");
  Ok (build [("sessionId", Some (JStr sessionId)); ("queueItemId", Some (JStr queueItemId));
             ("priority", Some (get "priority" params))]).

Definition shell_params (params : fields) : checked jsval :=
  _ ← exact params "request.params" ["sessionId"; "operationId"; "command"; "excluded"];
  _ ← require (is_bool (get "excluded" params)) (invalid (param "excluded") "must be a boolean");
  sessionId ← parseSessionId (get "sessionId" params) (param "sessionId");
  operationId ← parseOperationId (get "operationId" params) (param "operationId");
  command ← string_ (get "command" params) (param "command");
  Ok (build [("sessionId", Some (JStr sessionId)); ("operationId", Some (JStr operationId)); ("command", Some (JStr command));
             ("excluded", Some (get "excluded" params))]).

Definition selection_keys : list string :=
  ["providerId"; "requestSettings"; "modelId"; "thinkingLevel"; "webFetch"; "webSearch"].

Definition configure_params (params : fields) : checked jsval :=
  _ ← exact params "request.params" ["sessionId"; "providerId"; "modelId"; "thinkingLevel"; "requestSettings"; "webFetch";
                                     "webSearch"; "profile"];
  configured ← selection params "request.params";
  profile ← sessionProfile (get "profile" params) (param "profile");
  _ ← refuse (forallb (λ k, bool_decide (member_of k configured = None)) selection_keys && is_undef profile)
        (invalid "request.params"
           "must include providerId, modelId, thinkingLevel, requestSettings, webFetch, webSearch, or profile");
  sessionId ← parseSessionId (get "sessionId" params) (param "sessionId");
  Ok (build ([("sessionId", Some (JStr sessionId))] ++ configured ++ [("profile", to_opt profile)])).

Definition respond_params (params : fields) : checked jsval :=
  _ ← exact params "request.params" ["sessionId"; "interactionId"; "action"; "content"];
  _ ← require (among ["accept"; "decline"; "cancel"] (get "action" params))
        (invalid (param "action") "must be one of: accept, decline, cancel");
  _ ← require (match get "content" params with JUndef | JObj _ | JInst _ => true | _ => false end)
        (invalid (param "content") "must be an object");
  sessionId ← parseSessionId (get "sessionId" params) (param "sessionId");
  interactionId ← string_ (get "interactionId" params) (param "interactionId");
  Ok (build [("sessionId", Some (JStr sessionId)); ("interactionId", Some (JStr interactionId));
             ("action", Some (get "action" params)); ("content", to_opt (get "content" params))]).

Definition subscribe_params (params : fields) : checked jsval :=
  _ ← exact params "request.params" ["sessionId"; "fromNodeId"; "after"];
  sessionId ← parseSessionId (get "sessionId" params) (param "sessionId");
  fromNodeId ← optionally (λ v, parseEventId v (param "fromNodeId")) (get "fromNodeId" params);
  after ← optionally (λ v, boundedString v (param "after") 512) (get "after" params);
  Ok (build [("sessionId", Some (JStr sessionId)); ("fromNodeId", JStr <$> fromNodeId); ("after", JStr <$> after)]).

(** ** Workspaces *)

Definition checkpoint_params (params : fields) : checked jsval :=
  _ ← exact params "request.params" ["sessionId"; "enabled"];
  _ ← require (is_bool (get "enabled" params)) (invalid (param "enabled") "must be a boolean");
  sessionId ← parseSessionId (get "sessionId" params) (param "sessionId");
  Ok (build [("sessionId", Some (JStr sessionId)); ("enabled", Some (get "enabled" params))]).

Definition workspace_list_params (params : fields) : checked jsval :=
  _ ← exact params "request.params" ["sessionId"; "path"; "pageSize"; "pageCursor"; "ifWorkspaceGeneration"];
  pageSize ← positiveInteger (get "pageSize" params) (param "pageSize");
  _ ← refuse (200 <? int_of pageSize)%Z (invalid (param "pageSize") "must not exceed 200");
  sessionId ← parseSessionId (get "sessionId" params) (param "sessionId");
  path ← relativeWorkspacePath (get "path" params) (param "path") true;
  pageCursor ← optionally (λ v, boundedString v (param "pageCursor") 512) (get "pageCursor" params);
  ifGeneration ← optionally (λ v, generation v (param "ifWorkspaceGeneration")) (get "ifWorkspaceGeneration" params);
  Ok (build [("sessionId", Some (JStr sessionId)); ("path", Some (JStr path)); ("pageSize", Some (JNum pageSize));
             ("pageCursor", JStr <$> pageCursor); ("ifWorkspaceGeneration", JStr <$> ifGeneration)]).

Definition workspace_read_params (params : fields) : checked jsval :=
  _ ← exact params "request.params" ["sessionId"; "path"; "startLine"; "maxLines"; "maxBytes"; "ifWorkspaceGeneration";
                                     "ifFileRevision"];
  maxLines ← positiveInteger (get "maxLines" params) (param "maxLines");
  maxBytes ← positiveInteger (get "maxBytes" params) (param "maxBytes");
  _ ← refuse (2000 <? int_of maxLines)%Z (invalid (param "maxLines") "must not exceed 2000");
  _ ← refuse (1024 * 1024 <? int_of maxBytes)%Z (invalid (param "maxBytes") "must not exceed 1048576");
  sessionId ← parseSessionId (get "sessionId" params) (param "sessionId");
  path ← relativeWorkspacePath (get "path" params) (param "path") false;
  startLine ← optionally (λ v, positiveInteger v (param "startLine")) (get "startLine" params);
  ifGeneration ← optionally (λ v, generation v (param "ifWorkspaceGeneration")) (get "ifWorkspaceGeneration" params);
  ifRevision ← optionally (λ v, generation v (param "ifFileRevision")) (get "ifFileRevision" params);
  Ok (build [("sessionId", Some (JStr sessionId)); ("path", Some (JStr path)); ("startLine", JNum <$> startLine);
             ("maxLines", Some (JNum maxLines)); ("maxBytes", Some (JNum maxBytes));
             ("ifWorkspaceGeneration", JStr <$> ifGeneration); ("ifFileRevision", JStr <$> ifRevision)]).

Definition workspace_status_params (params : fields) : checked jsval :=
  _ ← exact params "request.params" ["sessionId"; "scope"; "ifWorkspaceGeneration"];
  _ ← require (among ["working"; "last-turn"] (get "scope" params)) (invalid (param "scope") "must be working or last-turn");
  sessionId ← parseSessionId (get "sessionId" params) (param "sessionId");
  ifGeneration ← optionally (λ v, generation v (param "ifWorkspaceGeneration")) (get "ifWorkspaceGeneration" params);
  Ok (build [("sessionId", Some (JStr sessionId)); ("scope", Some (get "scope" params));
             ("ifWorkspaceGeneration", JStr <$> ifGeneration)]).

Definition workspace_diff_params (params : fields) : checked jsval :=
  _ ← exact params "request.params" ["sessionId"; "entryId"; "contextLines"; "repositoryGeneration"; "maxBytes"];
  contextLines ← nonNegativeInteger (get "contextLines" params) (param "contextLines");
  maxBytes ← positiveInteger (get "maxBytes" params) (param "maxBytes");
  _ ← refuse (100 <? int_of contextLines)%Z (invalid (param "contextLines") "must not exceed 100");
  _ ← refuse (4 * 1024 * 1024 <? int_of maxBytes)%Z (invalid (param "maxBytes") "must not exceed 4194304");
  sessionId ← parseSessionId (get "sessionId" params) (param "sessionId");
  entryId ← boundedString (get "entryId" params) (param "entryId") 256;
  repository ← generation (get "repositoryGeneration" params) (param "repositoryGeneration");
  Ok (build [("sessionId", Some (JStr sessionId)); ("entryId", Some (JStr entryId)); ("contextLines", Some (JNum contextLines));
             ("repositoryGeneration", Some (JStr repository)); ("maxBytes", Some (JNum maxBytes))]).

(** ** Blobs *)

Definition blob_start_params (params : fields) : checked jsval :=
  _ ← exact params "request.params" ["sessionId"; "mediaType"; "sizeBytes"; "name"];
  mediaType ← boundedString (get "mediaType" params) (param "mediaType") 127;
  name ← optionally (λ v, boundedString v (param "name") 255) (get "name" params);
  sessionId ← parseSessionId (get "sessionId" params) (param "sessionId");
  sizeBytes ← nonNegativeInteger (get "sizeBytes" params) (param "sizeBytes");
  Ok (build [("sessionId", Some (JStr sessionId)); ("mediaType", Some (JStr mediaType)); ("sizeBytes", Some (JNum sizeBytes));
             ("name", JStr <$> name)]).

Definition blob_chunk_params (params : fields) : checked jsval :=
  _ ← exact params "request.params" ["sessionId"; "uploadId"; "offset"; "data"];
  sessionId ← parseSessionId (get "sessionId" params) (param "sessionId");
  uploadId ← boundedString (get "uploadId" params) (param "uploadId") 128;
  offset ← nonNegativeInteger (get "offset" params) (param "offset");
  data ← boundedString (get "data" params) (param "data") 700000;
  Ok (build [("sessionId", Some (JStr sessionId)); ("uploadId", Some (JStr uploadId)); ("offset", Some (JNum offset));
             ("data", Some (JStr data))]).

Definition blob_upload_params (params : fields) : checked jsval :=
  _ ← exact params "request.params" ["sessionId"; "uploadId"];
  sessionId ← parseSessionId (get "sessionId" params) (param "sessionId");
  uploadId ← boundedString (get "uploadId" params) (param "uploadId") 128;
  Ok (build [("sessionId", Some (JStr sessionId)); ("uploadId", Some (JStr uploadId))]).

Definition blob_read_params (params : fields) : checked jsval :=
  _ ← exact params "request.params" ["sessionId"; "sha256"; "offset"; "length"];
  sessionId ← parseSessionId (get "sessionId" params) (param "sessionId");
  digest ← sha256_ (get "sha256" params) (param "sha256");
  offset ← nonNegativeInteger (get "offset" params) (param "offset");
  length ← nonNegativeInteger (get "length" params) (param "length");
  Ok (build [("sessionId", Some (JStr sessionId)); ("sha256", Some (JStr digest)); ("offset", Some (JNum offset));
             ("length", Some (JNum length))]).

(** ** Requests *)

Record WireRequest := {
  rq_id : number;
  rq_idempotencyKey : option string;
  rq_method : string;
  rq_params : jsval
}.

Definition request_fields (r : WireRequest) : members :=
  [("kind", Some (JStr "request")); ("id", Some (JNum (rq_id r))); ("idempotencyKey", JStr <$> rq_idempotencyKey r);
   ("method", Some (JStr (rq_method r))); ("params", Some (rq_params r))].
Definition request_message (r : WireRequest) : jsval := build (request_fields r).

Definition parse_params (method : string) (params : fields) : checked jsval :=
  if method_is "connection.initialize" method then initialize_params params
  else if method_is "daemon.info" method || method_is "connection.ping" method then no_params params
  else if method_is "request.cancel" method then cancel_params params
  else if method_is "command.list" method then command_list_params params
  else if method_is "provider.list" method || method_is "provider.catalog.refresh" method || method_is "provider.auth.status" method
    then optional_provider_params params
  else if method_is "provider.auth.login" method then login_params params
  else if method_is "provider.auth.logout" method then logout_params params
  else if method_is "session.create" method then create_params params
  else if method_is "session.resume" method then session_params params
  else if method_is "session.list" method then list_params params
  else if method_is "session.history" method then history_params params
  else if method_is "session.ack" method then ack_params params
  else if method_is "session.unsubscribe" method then unsubscribe_params params
  else if method_is "session.fork" method then fork_params params
  else if method_is "session.clone" method then session_params params
  else if method_is "session.rename" method then rename_params params
  else if method_is "session.export" method then export_params params
  else if method_is "session.import" method then import_params params
  else if method_is "session.send" method then send_params params
  else if method_is "session.steer" method || method_is "session.followUp" method || method_is "session.interruptAndDeliver" method
    then deliver_params params
  else if method_is "session.compact" method then compact_params params
  else if method_is "session.queue.enqueue" method then enqueue_params params
  else if method_is "session.queue.requeue" method then requeue_params params
  else if method_is "session.shell" method then shell_params params
  else if method_is "session.configure" method then configure_params params
  else if method_is "session.interaction.respond" method then respond_params params
  else if method_is "session.subscribe" method then subscribe_params params
  else if method_is "session.workspace.checkpoint" method then checkpoint_params params
  else if method_is "session.workspace.list" method then workspace_list_params params
  else if method_is "session.workspace.read" method then workspace_read_params params
  else if method_is "session.workspace.status" method then workspace_status_params params
  else if method_is "session.workspace.diff" method then workspace_diff_params params
  else if method_is "session.blob.start" method then blob_start_params params
  else if method_is "session.blob.chunk" method then blob_chunk_params params
  else if method_is "session.blob.commit" method || method_is "session.blob.abort" method then blob_upload_params params
  else if method_is "session.blob.read" method then blob_read_params params
  else if method_is "session.interrupt" method || method_is "session.reload" method || method_is "session.dispose" method
          || method_is "session.delete" method then session_params params
  else validationError "request.method" ("unknown method " +:+ quote method).

Definition parseRpcMethod (value : jsval) (path : string) : checked string :=
  method ← string_ value path;
  _ ← require (bool_decide (method ∈ RPC_METHODS)) (invalid path ("unknown method " +:+ quote method));
  Ok method.

(** The key of a retryable mutation; no other request may carry one. *)
Definition parse_idempotencyKey (method : string) (value : jsval) : checked (option string) :=
  if isRetryableMutationMethod method then Some <$$> parseOperationId value "request.idempotencyKey"
  else
    _ ← require (is_undef value) (invalid "request.idempotencyKey" ("is not allowed for " +:+ method));
    Ok None.

Definition parseWireRequest (value : jsval) : checked WireRequest :=
  request ← object value "request";
  _ ← exact request "request" ["kind"; "id"; "method"; "params"; "idempotencyKey"];
  _ ← require (is_str "request" (get "kind" request)) (invalid "request.kind" ("must be " +:+ quote "request"));
  id ← nonNegativeInteger (get "id" request) "request.id";
  method ← parseRpcMethod (get "method" request) "request.method";
  params ← object (get "params" request) "request.params";
  idempotencyKey ← parse_idempotencyKey method (get "idempotencyKey" request);
  params' ← parse_params method params;
  Ok {| rq_id := id; rq_idempotencyKey := idempotencyKey; rq_method := method; rq_params := params' |}.
