(* ===== verification/WireRequestFacts.v ===== *)
(** The parser of requests accepts what it returned, and what a request that was
    accepted carries: the idempotency key, and paths that stay in the workspace. *)
From stdpp Require Import base list sets strings pretty.
From Stdlib Require Import ZArith Lia Ascii.
From S2P Require Import Prelude Text JsValue Json Envelope Types ModelRequest Events EventSchema.
From S2P Require Import JsMap WireTables WireFields ProviderManagement WireWorkspace WireResults WireResultsFacts WireRequest.

(** A parser of parameters: it accepts the parameters it returns. *)
Class StableParams (p : fields → checked jsval) : Prop :=
  params_again fs w : p fs = Ok w → ∃ fs', w = JObj fs' ∧ p fs' = Ok w.

Lemma user_content_Ok v path w : parseUserContent v path = Ok w → v = w.
Proof. unfold parseUserContent. by intros (u & _ & [= <-])%bind_Ok. Qed.
Lemma login_method_Ok v path w : parseProviderLoginMethod v path = Ok w → v = w.
Proof. unfold parseProviderLoginMethod. by intros (u & _ & [= <-])%bind_Ok. Qed.

Ltac returned_params :=
  repeat match goal with
  | H : parseUserContent (get _ _) _ = Ok _ |- _ => returned_by H user_content_Ok
  | H : parseProviderLoginMethod (get _ _) _ = Ok _ |- _ => returned_by H login_method_Ok
  | H : sessionProfile (get _ _) _ = Ok _ |- _ => returned_by H sessionProfile_Ok
  | H : parseProviderIdParam (get _ _) _ = Ok _ |- _ => returned_by H providerId_Ok
  | H : optionally (λ v, parseProviderIdParam v _) (get _ _) = Ok _ |- _ => returned_opt H JStr providerId_Ok
  | H : generation (get _ _) _ = Ok _ |- _ => returned_by H generation_Ok
  | H : optionally (λ v, generation v _) (get _ _) = Ok _ |- _ => returned_opt H JStr generation_Ok
  | H : relativeWorkspacePath (get _ _) _ _ = Ok _ |- _ => returned_by H relativeWorkspacePath_Ok
  end; returned.
Ltac params_parser p :=
  let fs := fresh "fs" in let w := fresh "w" in let H := fresh "H" in
  intros fs w H; unfold p, each in H; cbn [each_from] in H; open_parser H; returned_params;
  eexists; split; [reflexivity|]; unfold p; built; known; reflexivity.

Section Params.
#[export] Instance no_params_stable : StableParams no_params.
Proof. params_parser no_params. Qed.
#[export] Instance cancel_params_stable : StableParams cancel_params.
Proof. params_parser cancel_params. Qed.
#[export] Instance command_list_params_stable : StableParams command_list_params.
Proof. params_parser command_list_params. Qed.
#[export] Instance optional_provider_params_stable : StableParams optional_provider_params.
Proof. params_parser optional_provider_params. Qed.
#[export] Instance logout_params_stable : StableParams logout_params.
Proof. params_parser logout_params. Qed.
#[export] Instance session_params_stable : StableParams session_params.
Proof. params_parser session_params. Qed.
#[export] Instance list_params_stable : StableParams list_params.
Proof. params_parser list_params. Qed.
#[export] Instance history_params_stable : StableParams history_params.
Proof. params_parser history_params. Qed.
#[export] Instance ack_params_stable : StableParams ack_params.
Proof. params_parser ack_params. Qed.
#[export] Instance unsubscribe_params_stable : StableParams unsubscribe_params.
Proof. params_parser unsubscribe_params. Qed.
#[export] Instance fork_params_stable : StableParams fork_params.
Proof. params_parser fork_params. Qed.
#[export] Instance rename_params_stable : StableParams rename_params.
Proof. params_parser rename_params. Qed.
#[export] Instance export_params_stable : StableParams export_params.
Proof. params_parser export_params. Qed.
#[export] Instance import_params_stable : StableParams import_params.
Proof. params_parser import_params. Qed.
#[export] Instance compact_params_stable : StableParams compact_params.
Proof. params_parser compact_params. Qed.
#[export] Instance requeue_params_stable : StableParams requeue_params.
Proof. params_parser requeue_params. Qed.
#[export] Instance shell_params_stable : StableParams shell_params.
Proof. params_parser shell_params. Qed.
#[export] Instance respond_params_stable : StableParams respond_params.
Proof. params_parser respond_params. Qed.
#[export] Instance subscribe_params_stable : StableParams subscribe_params.
Proof. params_parser subscribe_params. Qed.
#[export] Instance checkpoint_params_stable : StableParams checkpoint_params.
Proof. params_parser checkpoint_params. Qed.
#[export] Instance workspace_list_params_stable : StableParams workspace_list_params.
Proof. params_parser workspace_list_params. Qed.
#[export] Instance workspace_read_params_stable : StableParams workspace_read_params.
Proof. params_parser workspace_read_params. Qed.
#[export] Instance workspace_status_params_stable : StableParams workspace_status_params.
Proof. params_parser workspace_status_params. Qed.
#[export] Instance workspace_diff_params_stable : StableParams workspace_diff_params.
Proof. params_parser workspace_diff_params. Qed.
#[export] Instance blob_start_params_stable : StableParams blob_start_params.
Proof. params_parser blob_start_params. Qed.
#[export] Instance blob_chunk_params_stable : StableParams blob_chunk_params.
Proof. params_parser blob_chunk_params. Qed.
#[export] Instance blob_upload_params_stable : StableParams blob_upload_params.
Proof. params_parser blob_upload_params. Qed.
#[export] Instance blob_read_params_stable : StableParams blob_read_params.
Proof. params_parser blob_read_params. Qed.
End Params.

(** ** Parameters with parts *)

Lemma client_again v path a path' w :
  check_client v path = Ok a → parse_client a path' = Ok w →
  ∃ a', w = JObj a' ∧ check_client w path = Ok a' ∧ parse_client a' path' = Ok w.
Proof. unfold check_client, parse_client. intros H H'. checked_again H H'. Qed.

#[export] Instance initialize_params_stable : StableParams initialize_params.
Proof.
  intros fs w H. unfold initialize_params in H. open_parser H. returned_params.
  match goal with
  | H1 : check_client _ _ = Ok _, H2 : parse_client _ _ = Ok _ |- _ =>
      destruct (client_again _ _ _ _ _ H1 H2) as (a' & -> & Ha & Hr); clear H1 H2
  end.
  eexists. split; [reflexivity|]. unfold initialize_params. built. known. reflexivity.
Qed.
#[export] Instance login_params_stable : StableParams login_params.
Proof. params_parser login_params. Qed.
#[export] Instance send_params_stable : StableParams send_params.
Proof. params_parser send_params. Qed.
#[export] Instance deliver_params_stable : StableParams deliver_params.
Proof. params_parser deliver_params. Qed.
#[export] Instance enqueue_params_stable : StableParams enqueue_params.
Proof. params_parser enqueue_params. Qed.

Lemma settings_optionally v path o :
  optionally (λ v, parseModelRequestSettings v path) v = Ok o →
  optionally (λ v, parseModelRequestSettings v path) (of_opt ((λ s, JObj (encode_settings s)) <$> o)) = Ok o.
Proof.
  intros H. eapply (optionally_again _ (λ s, JObj (encode_settings s))); [|exact H].
  intros s Hs. split; [by eapply settings_returned|done].
Qed.

Lemma selection_again fs path ms k0 o0 o1 :
  selection fs path = Ok ms → k0 ∈ ["cwd"; "sessionId"] →
  ms.*1 = selection_keys ∧ selection (present ((k0, o0) :: ms ++ [("profile", o1)])) path = Ok ms.
Proof.
  intros H Hk. unfold selection, each in H. cbn [each_from] in H. open_parser H. returned.
  match goal with H : optionally (λ v, parseModelRequestSettings v _) _ = Ok _ |- _ => apply settings_optionally in H end.
  match goal with H : rbind (require _ _) _ = Ok _ |- _ => open_parser H end.
  split; [reflexivity|]. unfold selection, each. cbn [each_from].
  repeat (apply elem_of_cons in Hk as [->|Hk]; [cbn [app]; built; known; reflexivity|]). by apply elem_of_nil in Hk.
Qed.

(** The other members of parameters that hold a selection. *)
Lemma selection_frame ms k0 o0 o1 :
  ms.*1 = selection_keys → k0 ∈ ["cwd"; "sessionId"] →
  let fs := present ((k0, o0) :: ms ++ [("profile", o1)]) in
  get k0 fs = of_opt o0 ∧ get "profile" fs = of_opt o1 ∧
  ∀ allowed, forallb (λ k, bool_decide (k ∈ allowed)) (k0 :: selection_keys ++ ["profile"]) = true →
    exact fs "request.params" allowed = Ok tt.
Proof.
  intros Hms Hk fs.
  assert (Hkeys : ((k0, o0) :: ms ++ [("profile", o1)]).*1 = k0 :: selection_keys ++ ["profile"]) by by rewrite fmap_cons, fmap_app, Hms.
  assert (Hnd : NoDup (k0 :: selection_keys ++ ["profile"])).
  { repeat (apply elem_of_cons in Hk as [->|Hk]; [apply (bool_decide_unpack _); vm_compute; reflexivity|]). by apply elem_of_nil in Hk. }
  split_and!.
  - unfold fs. rewrite get_present by (by rewrite Hkeys). simpl. by rewrite String.eqb_refl.
  - unfold fs. rewrite get_present by (by rewrite Hkeys). f_equal. clear -Hms Hk.
    do 7 (destruct ms as [|[? ?] ms]; try done). injection Hms as -> -> -> -> -> ->.
    repeat (apply elem_of_cons in Hk as [->|Hk]; [reflexivity|]). by apply elem_of_nil in Hk.
  - intros allowed Ha. apply exact_present. by rewrite Hkeys.
Qed.

#[export] Instance create_params_stable : StableParams create_params.
Proof.
  intros fs w H. unfold create_params in H. open_parser H. returned_params.
  set (profile := if is_undef x0 then JStr "standard" else x0) in *.
  assert (Hp : sessionProfile profile (param "profile") = Ok profile ∧ is_undef profile = false) by (by destruct x0).
  destruct (selection_again _ _ _ "cwd" (Some (JStr x1)) (Some profile) ltac:(eassumption) ltac:(by left)) as [Hk Hs].
  destruct (selection_frame _ "cwd" (Some (JStr x1)) (Some profile) Hk ltac:(by left)) as (E1 & E2 & E3).
  eexists. split; [reflexivity|]. destruct Hp as [Hp Hu]. unfold create_params.
  rewrite E3 by (vm_compute; reflexivity). cbn [rbind]. rewrite E2. rewrite of_opt_Some. rewrite Hp. cbn [rbind].
  rewrite E1. rewrite of_opt_Some. known. rewrite Hu. reflexivity.
Qed.

#[export] Instance configure_params_stable : StableParams configure_params.
Proof.
  intros fs w H. unfold configure_params in H. open_parser H. returned_params.
  destruct (selection_again _ _ _ "sessionId" (Some (JStr x3)) (to_opt x1) ltac:(eassumption) ltac:(by right; left)) as [Hk Hs].
  destruct (selection_frame _ "sessionId" (Some (JStr x3)) (to_opt x1) Hk ltac:(by right; left)) as (E1 & E2 & E3).
  eexists. split; [reflexivity|]. unfold configure_params.
  rewrite E3 by (vm_compute; reflexivity). cbn [rbind]. rewrite Hs. cbn [rbind]. rewrite E2, of_opt_to_opt.
  known. rewrite E1. rewrite of_opt_Some. known. reflexivity.
Qed.

(** ** The parser *)

Lemma params_again_any method fs w :
  parse_params method fs = Ok w → ∃ fs', w = JObj fs' ∧ parse_params method fs' = Ok w.
Proof.
  unfold parse_params. repeat (destruct (_ : bool); [apply params_again|]). done.
Qed.

Lemma key_again method v o : parse_idempotencyKey method v = Ok o → v = of_opt (JStr <$> o) ∧ parse_idempotencyKey method (of_opt (JStr <$> o)) = Ok o.
Proof.
  unfold parse_idempotencyKey. destruct (isRetryableMutationMethod method).
  - intros (s & Hs & ->)%rmap_Ok. pose proof (id_Ok _ _ _ Hs) as ->. split; [done|].
    change (of_opt (JStr <$> Some s)) with (JStr s). by rewrite Hs.
  - intros (u & Hu & [= <-])%bind_Ok. by destruct v.
Qed.

Lemma request_again v r : parseWireRequest v = Ok r → parseWireRequest (request_message r) = Ok r.
Proof.
  intros H. unfold parseWireRequest in H. open_parser H. returned.
  match goal with H : parse_idempotencyKey _ _ = Ok _ |- _ => apply key_again in H as [_ Hkey] end.
  match goal with H : parse_params _ _ = Ok _ |- _ => apply params_again_any in H as (fs' & -> & Hp) end.
  match goal with H : parseRpcMethod _ _ = Ok _ |- _ => pose proof H as Hm; unfold parseRpcMethod in Hm end.
  open_parser Hm. returned.
  unfold parseWireRequest, request_message, request_fields.
  cbn [rq_id rq_idempotencyKey rq_method rq_params]. built.
  change (is_str "request" (JStr "request")) with true. cbn [require rbind object]. known. cbn [rbind]. reflexivity.
Qed.

(** A request that was accepted is accepted again when it is sent on, with the same
    method, parameters and key: so a retry, a forwarded or a stored request is the
    request it was. It has a method of the protocol, and a key exactly when its method
    is a retryable mutation. *)
Theorem request_stable v r :
  parseWireRequest v = Ok r →
  parseWireRequest (request_message r) = Ok r ∧ rq_method r ∈ RPC_METHODS ∧
  (rq_idempotencyKey r = None ↔ rq_method r ∉ RETRYABLE_MUTATION_METHODS) ∧
  ∀ k, rq_idempotencyKey r = Some k → is_uuid k = true.
Proof.
  intros H. split; [by apply request_again in H|]. unfold parseWireRequest in H. open_parser H.
  cbn [rq_id rq_idempotencyKey rq_method]. match goal with H : parseRpcMethod _ _ = Ok _ |- _ => rename H into Hm end.
  match goal with H : parse_idempotencyKey _ _ = Ok _ |- _ => rename H into Hk end.
  unfold parseRpcMethod in Hm. open_parser Hm.
  match goal with H : require (bool_decide (_ ∈ RPC_METHODS)) _ = Ok _ |- _ => apply require_Ok, bool_decide_eq_true in H end.
  split; [done|].
  unfold parse_idempotencyKey, isRetryableMutationMethod in Hk. case_bool_decide as Hr.
  - apply rmap_Ok in Hk as (s & [_ Hs]%parseId_Ok & ->). split; [naive_solver|]. by intros k [= <-].
  - open_parser Hk. split; [naive_solver|done].
Qed.

Definition sample_request : jsval :=
  JObj [("params", JObj [("cwd", JStr "/work"); ("webFetch", JBool true)]); ("method", JStr "session.create"); ("id", JInt 7);
        ("idempotencyKey", JStr "7f000000-0000-4000-8000-000000000001"); ("kind", JStr "request")].

Lemma request_stable_witness :
  ∃ r, parseWireRequest sample_request = Ok r ∧
    rq_params r = JObj [("cwd", JStr "/work"); ("webFetch", JBool true); ("profile", JStr "standard")] ∧
    parseWireRequest (request_message r) = Ok r ∧ rq_method r ∈ RPC_METHODS ∧
    (rq_idempotencyKey r = None ↔ rq_method r ∉ RETRYABLE_MUTATION_METHODS) ∧
    ∀ k, rq_idempotencyKey r = Some k → is_uuid k = true.
Proof.
  eexists. split; [vm_compute; reflexivity|]. split; [reflexivity|].
  apply (request_stable sample_request). vm_compute. reflexivity.
Defined.
