(* ===== verification/WireMessages.v ===== *)
(** protocol/src/wire.ts: the messages of the daemon: the greeting, answers and errors,
    presence, events and activity, and the parser clients read them with. *)
From stdpp Require Import base list sets strings pretty.
From Stdlib Require Import ZArith Lia Ascii.
From S2P Require Import Prelude Text JsValue Json Envelope Types ModelRequest Events EventSchema.
From S2P Require Import JsMap WireTables WireFields ProviderManagement WireWorkspace WireResults WireRequest.

(** ** Activity *)

Record TransientToolCall := { tc_callId : string; tc_name : string }.

Inductive frame_body :=
| TextDelta (thinking : bool) (text : string)
| ToolCall (call : TransientToolCall)
| ActivitySnapshot (text thinking : string) (toolCalls : list TransientToolCall)
| ActivityClear.

Record SessionActivityFrame := { af_operationId : string; af_sequence : number; af_body : frame_body }.

Definition call_value (c : TransientToolCall) : jsval :=
  build [("callId", Some (JStr (tc_callId c))); ("name", Some (JStr (tc_name c)))].

Definition body_members (b : frame_body) : members :=
  match b with
  | TextDelta thinking text =>
      [("type", Some (JStr (if thinking then "thinking_delta" else "text_delta"))); ("text", Some (JStr text))]
  | ToolCall c => [("type", Some (JStr "tool_call")); ("call", Some (call_value c))]
  | ActivitySnapshot text thinking calls =>
      [("type", Some (JStr "snapshot")); ("text", Some (JStr text)); ("thinking", Some (JStr thinking));
       ("toolCalls", Some (JArr (call_value <$> calls)))]
  | ActivityClear => [("type", Some (JStr "clear"))]
  end.

Definition frame_value (f : SessionActivityFrame) : jsval :=
  build ([("operationId", Some (JStr (af_operationId f))); ("sequence", Some (JNum (af_sequence f)))] ++ body_members (af_body f)).

Definition parseTransientToolCall (value : jsval) (path : string) : checked TransientToolCall :=
  call ← object value path;
  _ ← exact call path ["callId"; "name"];
  callId ← boundedString (get "callId" call) (member path "callId") 256;
  name ← boundedString (get "name" call) (member path "name") 256;
  Ok {| tc_callId := callId; tc_name := name |}.

Definition parseSessionActivityFrame (value : jsval) : checked SessionActivityFrame :=
  let path := "activity.frame" in
  frame ← object value path;
  operationId ← parseOperationId (get "operationId" frame) "activity.frame.operationId";
  sequence ← nonNegativeInteger (get "sequence" frame) "activity.frame.sequence";
  let made body := {| af_operationId := operationId; af_sequence := sequence; af_body := body |} in
  if is_str "text_delta" (get "type" frame) || is_str "thinking_delta" (get "type" frame) then
    _ ← exact frame path ["operationId"; "sequence"; "type"; "text"];
    text ← boundedText (get "text" frame) "activity.frame.text" 262144;
    Ok (made (TextDelta (is_str "thinking_delta" (get "type" frame)) text))
  else if is_str "tool_call" (get "type" frame) then
    _ ← exact frame path ["operationId"; "sequence"; "type"; "call"];
    call ← parseTransientToolCall (get "call" frame) "activity.frame.call";
    Ok (made (ToolCall call))
  else if is_str "snapshot" (get "type" frame) then
    _ ← exact frame path ["operationId"; "sequence"; "type"; "text"; "thinking"; "toolCalls"];
    items ← array_within (get "toolCalls" frame) 64 (invalid "activity.frame.toolCalls" "must contain at most 64 calls");
    text ← boundedText (get "text" frame) "activity.frame.text" 262144;
    thinking ← boundedText (get "thinking" frame) "activity.frame.thinking" 262144;
    calls ← map_indexed (λ i call, parseTransientToolCall call (element "activity.frame.toolCalls" i)) items;
    Ok (made (ActivitySnapshot text thinking calls))
  else if is_str "clear" (get "type" frame) then
    _ ← exact frame path ["operationId"; "sequence"; "type"];
    Ok (made ActivityClear)
  else validationError "activity.frame.type" "must be text_delta, thinking_delta, tool_call, snapshot, or clear".

(** ** Messages *)

Record RpcErrorBody := {
  eb_code : string;
  eb_message : string;
  eb_retryable : bool;
  eb_details : option jsval
}.

Record AttachmentPresence := {
  ap_attachmentId : string;
  ap_clientKind : string;
  ap_connectedAt : number;
  ap_lastSeenAt : number;
  ap_subscribedSessionIds : list string
}.

Inductive ServerMessage :=
| Hello (wireVersion : number) (daemonInstanceId : string) (capabilities : list string)
    (maxMessageBytes maxPendingRequests : number)
| RpcSuccess (id : number) (method : string) (result : jsval)
| RpcError (id : number) (method : option string) (error : RpcErrorBody)
| SessionsChanged (generation : number)
| Presence (attachments : list AttachmentPresence)
| WireEvent (subscriptionId sessionId : string) (sequence : number) (cursor : string) (event : EventEnvelope)
| WireActivity (subscriptionId sessionId : string) (frame : SessionActivityFrame).

Definition error_value (e : RpcErrorBody) : jsval :=
  build [("code", Some (JStr (eb_code e))); ("message", Some (JStr (eb_message e))); ("retryable", Some (JBool (eb_retryable e)));
         ("details", eb_details e)].

Definition presence_value (a : AttachmentPresence) : jsval :=
  build [("attachmentId", Some (JStr (ap_attachmentId a))); ("clientKind", Some (JStr (ap_clientKind a)));
         ("connectedAt", Some (JNum (ap_connectedAt a))); ("lastSeenAt", Some (JNum (ap_lastSeenAt a)));
         ("subscribedSessionIds", Some (JArr (JStr <$> ap_subscribedSessionIds a))); ("scope", Some (JStr "local_control"))].

Definition message_value (m : ServerMessage) : jsval :=
  build match m with
  | Hello version daemon capabilities bytes pending =>
      [("kind", Some (JStr "hello")); ("wireVersion", Some (JNum version)); ("daemonInstanceId", Some (JStr daemon));
       ("capabilities", Some (JArr (JStr <$> capabilities)));
       ("limits", Some (build [("maxMessageBytes", Some (JNum bytes)); ("maxPendingRequests", Some (JNum pending))]))]
  | RpcSuccess id method result =>
      [("kind", Some (JStr "success")); ("id", Some (JNum id)); ("method", Some (JStr method)); ("result", Some result)]
  | RpcError id method error =>
      [("kind", Some (JStr "error")); ("id", Some (JNum id)); ("method", JStr <$> method); ("error", Some (error_value error))]
  | SessionsChanged generation => [("kind", Some (JStr "sessions_changed")); ("generation", Some (JNum generation))]
  | Presence attachments =>
      [("kind", Some (JStr "presence")); ("attachments", Some (JArr (presence_value <$> attachments)))]
  | WireEvent subscription session sequence cursor event =>
      [("kind", Some (JStr "event")); ("subscriptionId", Some (JStr subscription)); ("sessionId", Some (JStr session));
       ("sequence", Some (JNum sequence)); ("cursor", Some (JStr cursor)); ("event", Some (envelope_value event))]
  | WireActivity subscription session frame =>
      [("kind", Some (JStr "activity")); ("subscriptionId", Some (JStr subscription)); ("sessionId", Some (JStr session));
       ("frame", Some (frame_value frame))]
  end.

(** ** The parser *)

Definition parseJsonObject (value : jsval) (path : string) : checked jsval :=
  _ ← object value path;
  _ ← refuse (65536 <? utf8_length (json_text value))%Z (invalid path "must be a bounded JSON object");
  Ok value.

Definition check_limits (value : jsval) : checked fields :=
  limits ← object value "message.limits";
  _ ← exact limits "message.limits" ["maxMessageBytes"; "maxPendingRequests"];
  Ok limits.

Definition parse_limits (limits : fields) : checked (number * number) :=
  bytes ← positiveInteger (get "maxMessageBytes" limits) "message.limits.maxMessageBytes";
  pending ← positiveInteger (get "maxPendingRequests" limits) "message.limits.maxPendingRequests";
  Ok (bytes, pending).

Definition parse_version (value : jsval) : checked number :=
  match value with
  | JNum n => if is_safe_integer n && (1 <=? int_of n)%Z then Ok n else validationError "message.wireVersion" "must be a positive safe integer"
  | _ => validationError "message.wireVersion" "must be a positive safe integer"
  end.

Definition parse_hello (message : fields) : checked ServerMessage :=
  _ ← exact message "message" ["kind"; "wireVersion"; "daemonInstanceId"; "capabilities"; "limits"];
  version ← parse_version (get "wireVersion" message);
  checked ← check_limits (get "limits" message);
  daemon ← boundedString (get "daemonInstanceId" message) "message.daemonInstanceId" 128;
  capabilities ← capabilityArray (get "capabilities" message) "message.capabilities";
  limits ← parse_limits checked;
  Ok (Hello version daemon capabilities limits.1 limits.2).

Definition parse_success (message : fields) : checked ServerMessage :=
  _ ← exact message "message" ["kind"; "id"; "method"; "result"];
  id ← nonNegativeInteger (get "id" message) "message.id";
  method ← parseRpcMethod (get "method" message) "message.method";
  result ← parseRpcResult method (get "result" message);
  Ok (RpcSuccess id method result).

Definition error_id (value : jsval) : checked number :=
  match value with
  | JNum n => if is_safe_integer n && (-1 <=? int_of n)%Z then Ok n else validationError "message.id" "must be a safe integer at least -1"
  | _ => validationError "message.id" "must be a safe integer at least -1"
  end.

Definition parse_details (code : string) (value : jsval) : checked (option jsval) :=
  if isProviderRpcErrorCode code then Some <$$> parseProviderRpcErrorDetails value "message.error.details"
  else optionally (λ v, parseJsonObject v "message.error.details") value.

Definition to_bool (v : jsval) : bool := match v with JBool b => b | _ => false end.

Definition parse_error (message : fields) : checked ServerMessage :=
  _ ← exact message "message" ["kind"; "id"; "method"; "error"];
  id ← error_id (get "id" message);
  method ← optionally (λ v, parseRpcMethod v "message.method") (get "method" message);
  error ← object (get "error" message) "message.error";
  _ ← exact error "message.error" ["code"; "message"; "retryable"; "details"];
  code ← boundedString (get "code" error) "message.error.code" 128;
  _ ← require (is_bool (get "retryable" error)) (invalid "message.error.retryable" "must be a boolean");
  let pre := (int_of id =? -1)%Z in
  _ ← refuse (pre && given method) (invalid "message.method" "is not allowed on a pre-RPC error");
  _ ← refuse (negb pre && negb (given method)) (invalid "message.method" "is required on a correlated error");
  _ ← refuse (isKnownRpcErrorCode code &&
              ((pre && negb (bool_decide (code ∈ PRE_RPC_ERROR_CODES)))
               || match method with Some m => negb (isRpcErrorAllowed m code) | None => false end))
        (invalid "message.error.code" "is not allowed for this error correlation");
  let retryable := to_bool (get "retryable" error) in
  _ ← refuse (isKnownRpcErrorCode code && negb (Bool.eqb retryable (isRpcErrorRetryable code)))
        (invalid "message.error.retryable" "does not match the code-defined retryability");
  text ← boundedText (get "message" error) "message.error.message" 4096;
  details ← parse_details code (get "details" error);
  Ok (RpcError id method {| eb_code := code; eb_message := text; eb_retryable := retryable; eb_details := details |}).

Definition parse_session_ids (value : jsval) (path : string) : checked (list string) :=
  items ← array_within value 256 (invalid path "must contain at most 256 session IDs");
  ids ← map_indexed (λ i v, parseSessionId v (element path i)) items;
  _ ← require (bool_decide (NoDup ids)) (invalid path "must not contain duplicates");
  Ok ids.

Definition parse_presence (i : nat) (value : jsval) : checked AttachmentPresence :=
  let path := element "message.attachments" i in
  attachment ← object value path;
  _ ← exact attachment path ["attachmentId"; "clientKind"; "connectedAt"; "lastSeenAt"; "subscribedSessionIds"; "scope"];
  _ ← require (is_str "local_control" (get "scope" attachment)) (invalid (member path "scope") ("must be " +:+ quote "local_control"));
  clientKind ← boundedString (get "clientKind" attachment) (member path "clientKind") 64;
  _ ← require (rmatch client_kind clientKind) (invalid (member path "clientKind") "must be a protocol identifier");
  ids ← parse_session_ids (get "subscribedSessionIds" attachment) (member path "subscribedSessionIds");
  connectedAt ← nonNegativeInteger (get "connectedAt" attachment) (member path "connectedAt");
  lastSeenAt ← nonNegativeInteger (get "lastSeenAt" attachment) (member path "lastSeenAt");
  _ ← refuse (int_of lastSeenAt <? int_of connectedAt)%Z (invalid (member path "lastSeenAt") "must not precede connectedAt");
  attachmentId ← boundedString (get "attachmentId" attachment) (member path "attachmentId") 128;
  Ok {| ap_attachmentId := attachmentId; ap_clientKind := clientKind; ap_connectedAt := connectedAt;
        ap_lastSeenAt := lastSeenAt; ap_subscribedSessionIds := ids |}.

Definition parse_presences (message : fields) : checked ServerMessage :=
  _ ← exact message "message" ["kind"; "attachments"];
  items ← array_within (get "attachments" message) 256 (invalid "message.attachments" "must contain at most 256 attachments");
  attachments ← map_indexed parse_presence items;
  _ ← require (bool_decide (NoDup (ap_attachmentId <$> attachments))) (invalid "message.attachments" "must not contain duplicate IDs");
  Ok (Presence attachments).

Definition parse_event_message (message : fields) : checked ServerMessage :=
  _ ← exact message "message" ["kind"; "subscriptionId"; "sessionId"; "sequence"; "cursor"; "event"];
  sessionId ← parseSessionId (get "sessionId" message) "message.sessionId";
  event ← parseEvent (get "event" message);
  _ ← require (bool_decide (env_sessionId event = sessionId)) (invalid "message.event.sessionId" "must match message.sessionId");
  sequence ← nonNegativeInteger (get "sequence" message) "message.sequence";
  _ ← refuse (int_of sequence <? 1)%Z (invalid "message.sequence" "must be at least 1");
  subscription ← boundedString (get "subscriptionId" message) "message.subscriptionId" 128;
  cursor ← boundedString (get "cursor" message) "message.cursor" 512;
  Ok (WireEvent subscription sessionId sequence cursor event).

Definition parse_activity (message : fields) : checked ServerMessage :=
  _ ← exact message "message" ["kind"; "subscriptionId"; "sessionId"; "frame"];
  subscription ← boundedString (get "subscriptionId" message) "message.subscriptionId" 128;
  sessionId ← parseSessionId (get "sessionId" message) "message.sessionId";
  frame ← parseSessionActivityFrame (get "frame" message);
  Ok (WireActivity subscription sessionId frame).

Definition parseServerMessage (value : jsval) : checked ServerMessage :=
  message ← object value "message";
  kind ← string_ (get "kind" message) "message.kind";
  if String.eqb kind "hello" then parse_hello message
  else if String.eqb kind "success" then parse_success message
  else if String.eqb kind "error" then parse_error message
  else if String.eqb kind "sessions_changed" then
    _ ← exact message "message" ["kind"; "generation"];
    generation ← nonNegativeInteger (get "generation" message) "message.generation";
    Ok (SessionsChanged generation)
  else if String.eqb kind "presence" then parse_presences message
  else if String.eqb kind "event" then parse_event_message message
  else if String.eqb kind "activity" then parse_activity message
  else validationError "message.kind" ("unknown message kind " +:+ quote kind).

(** One line of the connection. *)
Definition encodeWireMessage (message : jsval) : string := json_text message +:+ chr 10.
