(* ===== verification/WireMessagesFacts.v ===== *)
(** The parser of server messages reads back what was encoded, and exactly which errors
    it accepts. *)
From stdpp Require Import base list sets strings pretty.
From Stdlib Require Import ZArith Lia Ascii.
From S2P Require Import Prelude Text JsValue Json Envelope Types ModelRequest Events EventSchema.
From S2P Require Import JsMap WireTables WireFields ProviderManagement WireWorkspace WireResults WireResultsFacts WireRequest WireRequestFacts.
From S2P Require Import WireMessages.

(** ** Activity *)

Lemma tool_call_again v path c :
  parseTransientToolCall v path = Ok c → parseTransientToolCall (call_value c) path = Ok c.
Proof.
  unfold parseTransientToolCall. intros H. open_parser H. returned.
  unfold call_value. cbn [tc_callId tc_name]. built. known. reflexivity.
Qed.

Lemma tool_calls_again items calls m e v path :
  array_within v m e = Ok items → map_indexed (λ i call, parseTransientToolCall call (path i)) items = Ok calls →
  array_within (JArr (call_value <$> calls)) m e = Ok (call_value <$> calls) ∧
  map_indexed (λ i call, parseTransientToolCall call (path i)) (call_value <$> calls) = Ok calls.
Proof.
  intros [_ Hm]%array_within_Ok Hi. split.
  - apply (array_within_again call_value items); [by eapply map_length|done].
  - eapply (map_again _ call_value); [|exact Hi]. intros i x c. apply tool_call_again.
Qed.

Lemma frame_again v f : parseSessionActivityFrame v = Ok f → parseSessionActivityFrame (frame_value f) = Ok f.
Proof.
  unfold parseSessionActivityFrame at 1. cbv zeta. intros H. open_parser H.
  repeat match type of H with (if ?b then _ else _) = _ => destruct b eqn:?; [open_parser H|] end; try done; returned;
    try match goal with
    | H1 : array_within _ _ _ = Ok ?items, H2 : map_indexed _ ?items = Ok _ |- _ =>
        destruct (tool_calls_again _ _ _ _ _ (element "activity.frame.toolCalls") H1 H2) as [A B]; clear H1 H2
    end;
    unfold frame_value, parseSessionActivityFrame; cbn [af_operationId af_sequence af_body body_members app].
  - built. known. destruct (is_str "thinking_delta" (get "type" x)); built; known; reflexivity.
  - match goal with H : parseTransientToolCall _ _ = Ok _ |- _ => apply tool_call_again in H end. built. known. reflexivity.
  - built. known. reflexivity.
  - built. known. reflexivity.
Qed.

(** ** Presence *)

Lemma session_ids_again v path ids :
  parse_session_ids v path = Ok ids → parse_session_ids (JArr (JStr <$> ids)) path = Ok ids.
Proof.
  unfold parse_session_ids. intros (items & [_ Hm]%array_within_Ok & H)%bind_Ok. apply bind_Ok in H as (ids' & Hi & H).
  apply bind_Ok in H as (u & Hn & [= ->]). rewrite (array_within_again JStr items) by (by eapply map_length + done).
  cbn [rbind]. rewrite (map_again _ JStr items ids); [by cbn [rbind]; rewrite Hn| |done].
  intros i x a Hx. by rewrite (id_Ok _ _ _ Hx) in Hx.
Qed.

Lemma presence_again i v a : parse_presence i v = Ok a → parse_presence i (presence_value a) = Ok a.
Proof.
  unfold parse_presence. cbv zeta. intros H. open_parser H. returned.
  match goal with H : parse_session_ids _ _ = Ok _ |- _ => apply session_ids_again in H end.
  unfold presence_value. cbn [ap_attachmentId ap_clientKind ap_connectedAt ap_lastSeenAt ap_subscribedSessionIds]. built.
  change (is_str "local_control" (JStr "local_control")) with true. cbn [require rbind]. known. reflexivity.
Qed.

(** ** Messages *)

(** The parts of a message parser that reads the members of [m]. *)
Definition reads_back (p : fields → checked ServerMessage) : Prop :=
  ∀ fs m, p fs = Ok m → ∃ ms, message_value m = JObj ms ∧ p ms = Ok m.

Ltac message_parts := eexists; split; [reflexivity|].

Lemma limits_again v fs bytes pending :
  check_limits v = Ok fs → parse_limits fs = Ok (bytes, pending) →
  let w := present [("maxMessageBytes", Some (JNum bytes)); ("maxPendingRequests", Some (JNum pending))] in
  check_limits (JObj w) = Ok w ∧ parse_limits w = Ok (bytes, pending).
Proof.
  intros Hc Hp. unfold check_limits in Hc. unfold parse_limits in Hp. open_parser Hc.
  apply bind_Ok in Hp as (b & Hb & Hp). apply bind_Ok in Hp as (p & Hpp & [= <- <-]). returned.
  split; [unfold check_limits; built; reflexivity|unfold parse_limits; built; known; reflexivity].
Qed.

Lemma version_Ok v n : parse_version v = Ok n → v = JNum n.
Proof. destruct v; try done. cbn. case_match; [by intros [= <-]|done]. Qed.
Lemma error_id_Ok v n : error_id v = Ok n → v = JNum n.
Proof. destruct v; try done. cbn. case_match; [by intros [= <-]|done]. Qed.
Lemma method_Ok v path m : parseRpcMethod v path = Ok m → v = JStr m.
Proof. unfold parseRpcMethod. intros H. open_parser H. by eapply string_Ok. Qed.

Ltac returned_message :=
  repeat match goal with
  | H : parse_version (get _ _) = Ok _ |- _ => returned_by H version_Ok
  | H : error_id (get _ _) = Ok _ |- _ => returned_by H error_id_Ok
  | H : parseRpcMethod (get _ _) _ = Ok _ |- _ => returned_by H method_Ok
  | H : optionally (λ v, parseRpcMethod v _) (get _ _) = Ok _ |- _ => returned_opt H JStr method_Ok
  end; returned.

Lemma hello_again : reads_back parse_hello.
Proof.
  intros fs m H. unfold parse_hello in H. open_parser H. returned_message.
  match goal with
  | H1 : check_limits _ = Ok _, H2 : parse_limits _ = Ok ?l |- _ =>
      destruct l as [bytes pending]; destruct (limits_again _ _ _ _ H1 H2) as [A B]; clear H1 H2
  end.
  message_parts. unfold parse_hello. built. cbn [fst snd]. known. reflexivity.
Qed.

Lemma success_again : reads_back parse_success.
Proof.
  intros fs m H. unfold parse_success in H. open_parser H. returned_message.
  match goal with H : parseRpcResult _ _ = Ok _ |- _ => apply rpc_result_again in H end.
  message_parts. unfold parse_success. built. known. reflexivity.
Qed.

Lemma details_again code v d : parse_details code v = Ok d → parse_details code (of_opt d) = Ok d.
Proof.
  unfold parse_details. destruct (isProviderRpcErrorCode code).
  - intros (w & Hw & ->)%rmap_Ok. apply (stable_again_1 parseProviderRpcErrorDetails) in Hw.
    change (of_opt (Some w)) with w. by rewrite Hw.
  - intros H. pose proof (optionally_again (λ v, parseJsonObject v "message.error.details") id v d) as Ha.
    rewrite option_fmap_id in Ha. apply Ha; [|done]. intros a. unfold parseJsonObject. intros (fs & Ho & H')%bind_Ok.
    apply bind_Ok in H' as (u & Hu & [= <-]). unfold id. rewrite Ho. cbn [rbind]. rewrite Hu. split; [done|].
    by apply wire_object_Ok in Ho as [-> | ->].
Qed.

Lemma bool_Ok v u (e : ProtocolValidationError) : require (is_bool v) e = Ok u → v = JBool (to_bool v).
Proof. by destruct v. Qed.

Lemma error_again : reads_back parse_error.
Proof.
  intros fs m H. unfold parse_error in H. cbv zeta in H. open_parser H. returned_message.
  match goal with H : parse_details _ _ = Ok _ |- _ => apply details_again in H end.
  match goal with H : require (is_bool ?v) _ = Ok _ |- _ => pose proof (bool_Ok _ _ _ H) as Eb end.
  message_parts. unfold parse_error, error_value. cbv zeta. cbn [eb_code eb_message eb_retryable eb_details]. built. known. built.
  rewrite <- Eb. known. reflexivity.
Qed.

Lemma presences_again : reads_back parse_presences.
Proof.
  intros fs m H. unfold parse_presences in H. open_parser H.
  match goal with
  | H1 : array_within _ _ _ = Ok ?items, H2 : map_indexed _ ?items = Ok ?l |- _ =>
      pose proof (map_length _ _ _ H2) as L; apply array_within_Ok in H1 as [_ Hm];
      apply (map_again _ presence_value) in H2; [|exact presence_again]
  end.
  message_parts. unfold parse_presences. built.
  rewrite (array_within_again presence_value x0 x1) by done. cbn [rbind]. known. reflexivity.
Qed.

Lemma event_message_again : reads_back parse_event_message.
Proof.
  intros fs m H. unfold parse_event_message in H. open_parser H. returned_message.
  match goal with H : parseEvent _ = Ok _ |- _ => apply parseEvent_stable in H end.
  message_parts. unfold parse_event_message. built. known. reflexivity.
Qed.

Lemma activity_again : reads_back parse_activity.
Proof.
  intros fs m H. unfold parse_activity in H. open_parser H. returned_message.
  match goal with H : parseSessionActivityFrame _ = Ok _ |- _ => apply frame_again in H end.
  message_parts. unfold parse_activity. built. known. reflexivity.
Qed.

Lemma sessions_changed_again : reads_back (λ message,
  _ ← exact message "message" ["kind"; "generation"];
  generation ← nonNegativeInteger (get "generation" message) "message.generation";
  Ok (SessionsChanged generation)).
Proof. intros fs m H. open_parser H. returned_message. message_parts. built. known. reflexivity. Qed.

Definition message_kind (m : ServerMessage) : string :=
  match m with
  | Hello _ _ _ _ _ => "hello"
  | RpcSuccess _ _ _ => "success"
  | RpcError _ _ _ => "error"
  | SessionsChanged _ => "sessions_changed"
  | Presence _ => "presence"
  | WireEvent _ _ _ _ _ => "event"
  | WireActivity _ _ _ => "activity"
  end.

Lemma kind_member m ms : message_value m = JObj ms → get "kind" ms = JStr (message_kind m).
Proof. destruct m; unfold message_value, build; intros [= <-]; reflexivity. Qed.

(** The parser of the members, by kind. *)
Definition parse_message (kind : string) (message : fields) : checked ServerMessage :=
  if String.eqb kind "hello" then parse_hello message
  else if String.eqb kind "success" then parse_success message
  else if String.eqb kind "error" then parse_error message
  else if String.eqb kind "sessions_changed" then
    _ ← exact message "message" ["kind"; "generation"];
    generation ← nonNegativeInteger (get "generation" message) "message.generation";
    Ok (SessionsChanged generation)
  else if String.eqb kind "presence" then parse_presences message
  else if String.eqb kind "event" then parse_event_message message
  else if String.eqb kind "activity" then parse_activity message
  else validationError "message.kind" ("unknown message kind " +:+ quote kind).

Lemma parse_message_kind kind fs m : parse_message kind fs = Ok m → message_kind m = kind.
Proof.
  unfold parse_message. intros H.
  repeat match type of H with (if String.eqb ?k ?s then _ else _) = _ => destruct (String.eqb_spec k s) as [->|_] end;
    try done; [unfold parse_hello in H|unfold parse_success in H|unfold parse_error in H| |unfold parse_presences in H
               |unfold parse_event_message in H|unfold parse_activity in H]; cbv zeta in H; open_parser H; done.
Qed.

Lemma parse_message_again kind : reads_back (parse_message kind).
Proof.
  intros fs m H. unfold parse_message in *.
  repeat match goal with |- context [if ?b then _ else _] => destruct b end; try done;
    [by eapply hello_again|by eapply success_again|by eapply error_again|by eapply sessions_changed_again
    |by eapply presences_again|by eapply event_message_again|by eapply activity_again].
Qed.

Lemma message_parts_again ms m :
  message_value m = JObj ms → parse_message (message_kind m) ms = Ok m → parseServerMessage (message_value m) = Ok m.
Proof.
  intros Hms Hp. unfold parseServerMessage. rewrite Hms. cbn [object rbind]. rewrite (kind_member m ms Hms).
  assert (string_ (JStr (message_kind m)) "message.kind" = Ok (message_kind m)) as -> by by destruct m. exact Hp.
Qed.

(** A message a client accepted, encoded again, is accepted as the same message:
    events, answers, errors and presence reach a client behind a relay unchanged. *)
Theorem server_message_stable v m :
  parseServerMessage v = Ok m → parseServerMessage (message_value m) = Ok m.
Proof.
  intros H. unfold parseServerMessage in H. apply bind_Ok in H as (fs & _ & H). apply bind_Ok in H as (kind & _ & H).
  change (parse_message kind fs = Ok m) in H. pose proof (parse_message_kind _ _ _ H) as <-.
  apply parse_message_again in H as (ms & Hms & Hp). by eapply message_parts_again.
Qed.

Definition sample_message : jsval :=
  JObj [("error", JObj [("retryable", JBool true); ("message", JStr "Too many pending requests"); ("code", JStr "rate_limited")]);
        ("method", JStr "session.list"); ("kind", JStr "error"); ("id", JInt 3)].

Lemma server_message_stable_witness :
  ∃ m, parseServerMessage sample_message = Ok m ∧ message_value m ≠ sample_message ∧ parseServerMessage (message_value m) = Ok m.
Proof.
  eexists. split; [vm_compute; reflexivity|]. split; [by vm_compute|].
  apply (server_message_stable sample_message). vm_compute. reflexivity.
Defined.

(** ** Which errors are accepted *)

(** What the table of error codes asks of an error. *)
Definition code_fits (id : Z) (method : option string) (e : RpcErrorBody) : Prop :=
  eb_code e ∈ RPC_ERROR_CODES →
  eb_retryable e = isRpcErrorRetryable (eb_code e) ∧
  match method with Some m => isRpcErrorAllowed m (eb_code e) = true | None => eb_code e ∈ PRE_RPC_ERROR_CODES end.

Record error_ok (id : number) (method : option string) (e : RpcErrorBody) : Prop := {
  er_id : is_safe_integer id = true ∧ (-1 <= int_of id)%Z;
  er_method : ∀ m, method = Some m → m ∈ RPC_METHODS;
  er_correlated : int_of id = (-1)%Z ↔ method = None;
  er_code : eb_code e ≠ "" ∧ (utf8_length (eb_code e) <= 128)%Z;
  er_fits : code_fits (int_of id) method e;
  er_message : (utf8_length (eb_message e) <= 4096)%Z;
  er_details : parse_details (eb_code e) (of_opt (eb_details e)) = Ok (eb_details e)
}.

Lemma method_accepted m path : parseRpcMethod (JStr m) path = Ok m ↔ m ∈ RPC_METHODS.
Proof.
  unfold parseRpcMethod. split.
  - intros H. open_parser H. match goal with H : require _ _ = Ok _ |- _ => by apply require_Ok, bool_decide_eq_true in H end.
  - intros Hm. assert (m ≠ "") as Hne by (intros ->; revert Hm; apply (bool_decide_unpack _); vm_compute; reflexivity).
    cbn [string_]. rewrite bool_decide_false by done. cbn [refuse rbind]. by rewrite bool_decide_true.
Qed.

Lemma bounded_accepted s path n : boundedString (JStr s) path n = Ok s ↔ s ≠ "" ∧ (utf8_length s <= n)%Z.
Proof.
  unfold boundedString. cbn [string_]. case_bool_decide; cbn [refuse rbind].
  - split; [done|by intros [? _]].
  - destruct (Z.ltb_spec n (utf8_length s)); cbn [refuse rbind]; (split; [intros H'; first [discriminate H'|by split]|intros [_ ?]; first [done|lia]]).
Qed.

Lemma text_accepted s path n : boundedText (JStr s) path n = Ok s ↔ (utf8_length s <= n)%Z.
Proof.
  cbn [boundedText]. destruct (Z.ltb_spec n (utf8_length s)); cbn [refuse rbind]; (split; [intros H'; first [discriminate H'|done]|intros ?; first [done|lia]]).
Qed.

Lemma error_id_accepted n : error_id (JNum n) = Ok n ↔ is_safe_integer n = true ∧ (-1 <= int_of n)%Z.
Proof.
  cbn. destruct (is_safe_integer n); cbn; [|split; [done|by intros [? _]]].
  destruct (Z.leb_spec (-1) (int_of n)); (split; [intros Hx; first [discriminate Hx|by split]|intros [_ ?]; first [done|lia]]).
Qed.

Lemma optional_method_accepted o path :
  optionally (λ v, parseRpcMethod v path) (of_opt (JStr <$> o)) = Ok o ↔ ∀ m, o = Some m → m ∈ RPC_METHODS.
Proof.
  destruct o as [m|]; [|split; done]. change (of_opt (JStr <$> Some m)) with (JStr m). unfold optionally. cbn [is_undef].
  rewrite bind_Ok. split.
  - intros (a & Ha & [= ->]) m' [= <-]. by apply method_accepted in Ha.
  - intros H. exists m. split; [|done]. by apply method_accepted, H.
Qed.

(** The checks of the table, as the parser makes them. *)
Lemma fits_checked id method e :
  (int_of id = (-1)%Z ↔ method = None) →
  code_fits (int_of id) method e ↔
  isKnownRpcErrorCode (eb_code e) &&
    (((int_of id =? -1)%Z && negb (bool_decide (eb_code e ∈ PRE_RPC_ERROR_CODES)))
     || match method with Some m => negb (isRpcErrorAllowed m (eb_code e)) | None => false end) = false ∧
  isKnownRpcErrorCode (eb_code e) && negb (Bool.eqb (eb_retryable e) (isRpcErrorRetryable (eb_code e))) = false.
Proof.
  intros Hid. unfold code_fits, isKnownRpcErrorCode. case_bool_decide as Hk; cbn [andb]; [|naive_solver].
  rewrite negb_false_iff, eqb_true_iff. destruct method as [m|].
  - assert ((int_of id =? -1)%Z = false) as -> by (apply Z.eqb_neq; naive_solver). cbn [andb orb]. rewrite negb_false_iff. naive_solver.
  - assert ((int_of id =? -1)%Z = true) as -> by (apply Z.eqb_eq; naive_solver). cbn [andb orb]. rewrite orb_false_r.
    rewrite negb_false_iff, bool_decide_eq_true. naive_solver.
Qed.

Lemma correlated_checked id (method : option string) :
  (int_of id = (-1)%Z ↔ method = None) ↔
  (int_of id =? -1)%Z && given method = false ∧ negb (int_of id =? -1)%Z && negb (given method) = false.
Proof. destruct method as [m|], (Z.eqb_spec (int_of id) (-1)); cbn; naive_solver. Qed.

(** The parser of errors, once the frame is read. *)
Definition check_error (id : number) (method : option string) (e : RpcErrorBody) : checked ServerMessage :=
  id ← error_id (JNum id);
  method ← optionally (λ v, parseRpcMethod v "message.method") (of_opt (JStr <$> method));
  code ← boundedString (JStr (eb_code e)) "message.error.code" 128;
  let pre := (int_of id =? -1)%Z in
  _ ← refuse (pre && given method) (invalid "message.method" "is not allowed on a pre-RPC error");
  _ ← refuse (negb pre && negb (given method)) (invalid "message.method" "is required on a correlated error");
  _ ← refuse (isKnownRpcErrorCode code &&
              ((pre && negb (bool_decide (code ∈ PRE_RPC_ERROR_CODES)))
               || match method with Some m => negb (isRpcErrorAllowed m code) | None => false end))
        (invalid "message.error.code" "is not allowed for this error correlation");
  _ ← refuse (isKnownRpcErrorCode code && negb (Bool.eqb (eb_retryable e) (isRpcErrorRetryable code)))
        (invalid "message.error.retryable" "does not match the code-defined retryability");
  text ← boundedText (JStr (eb_message e)) "message.error.message" 4096;
  details ← parse_details code (of_opt (eb_details e));
  Ok (RpcError id method {| eb_code := code; eb_message := text; eb_retryable := eb_retryable e; eb_details := details |}).

Lemma check_error_eq id method e : parseServerMessage (message_value (RpcError id method e)) = check_error id method e.
Proof.
  unfold message_value, error_value, parseServerMessage. built.
  change (string_ (JStr "error") "message.kind") with (@Ok ProtocolValidationError string "error"). cbn [rbind String.eqb Ascii.eqb Bool.eqb].
  unfold parse_error, check_error. built. destruct (error_id (JNum id)) as [id'|]; [|done]. cbn [rbind].
  destruct (optionally _ _) as [m'|]; [|done]. built. reflexivity.
Qed.

(** An error is read back as it is exactly when it is in order. *)
Lemma error_accepted id method e :
  parseServerMessage (message_value (RpcError id method e)) = Ok (RpcError id method e) ↔ error_ok id method e.
Proof.
  rewrite check_error_eq. unfold check_error. cbv zeta. split.
  - intros H. apply bind_Ok in H as (id' & Hid & H). pose proof (error_id_Ok _ _ Hid) as [= <-].
    apply bind_Ok in H as (o & Hm & H). apply bind_Ok in H as (c & Hc & H).
    pose proof (boundedString_Ok _ _ _ _ Hc) as [= <-]. open_binds H.
    repeat match goal with H : refuse _ _ = Ok _ |- _ => apply refuse_Ok in H end.
    match goal with H : boundedText _ _ _ = Ok _ |- _ => pose proof (boundedText_Ok _ _ _ _ H) as [= <-]; apply text_accepted in H end.
    assert (o = method ∧ x4 = eb_details e) as [-> ->] by (destruct e; by injection H). apply error_id_accepted in Hid. apply bounded_accepted in Hc.
    match goal with H : parse_details _ _ = Ok _ |- _ => rename H into Hd end.
    assert (Hcor : int_of id = (-1)%Z ↔ method = None) by by apply correlated_checked.
    split; try done; [by apply (optional_method_accepted method "message.method")|by apply fits_checked].
  - intros [Hid Hm Hcor Hcode Hfit Hmsg Hd]. apply (fits_checked _ _ _ Hcor) in Hfit as [Hf1 Hf2].
    apply correlated_checked in Hcor as [Hc1 Hc2]. rewrite (proj2 (error_id_accepted _) Hid). cbn [rbind].
    rewrite (proj2 (optional_method_accepted _ _) Hm). cbn [rbind]. rewrite (proj2 (bounded_accepted _ _ _) Hcode). cbn [rbind].
    rewrite Hc1, Hc2, Hf1, Hf2. cbn [refuse rbind]. rewrite (proj2 (text_accepted _ _ _) Hmsg). cbn [rbind].
    rewrite Hd. cbn [rbind]. by destruct e.
Qed.
