(* ===== verification/Connection.v ===== *)
(** daemon/src/daemon.ts: a connection to the daemon: the lines its bytes are cut into,
    what a line is answered with, the requests a connection may make, and the
    errors they end in. The operations behind the requests are an outcome here. *)
From stdpp Require Import base list sets strings pretty.
From Stdlib Require Import ZArith Lia Ascii.
From S2P Require Import Prelude Text JsValue Json JsonText Envelope.
From S2P Require Import JsMap WireTables WireFields ProviderManagement WireWorkspace WireResults WireRequest WireMessages.

Definition MAX_WIRE_MESSAGE_BYTES : Z := 1024 * 1024.
Definition MAX_PENDING_REQUESTS : nat := 64.
Definition MAX_ATTACHMENTS : nat := 256.

(** ** Lines *)

Definition text_bytes (s : string) : Z := utf8_length s.

(** The first line of a buffer, and what follows it. *)
Fixpoint cut_line (buffer : string) : option (string * string) :=
  match buffer with
  | "" => None
  | String c rest =>
      if is_newline c then Some ("", rest)
      else match cut_line rest with Some (line, rest') => Some (String c line, rest') | None => None end
  end.

(** The loop over the lines of a buffer: those that are read, what is left, and whether
    a line is too long. *)
Fixpoint read_buffer (fuel : nat) (buffer : string) : list string * string * bool :=
  match fuel with
  | 0 => ([], buffer, false)
  | S fuel' =>
      match cut_line buffer with
      | None => ([], buffer, false)
      | Some (line, rest) =>
          if (MAX_WIRE_MESSAGE_BYTES <? text_bytes line)%Z then ([], rest, true)
          else let '(lines, tail, long) := read_buffer fuel' rest in (line :: lines, tail, long)
      end
  end.

(** The handler of one chunk: [None] once the connection is closed. *)
Definition on_data (buffer chunk : string) : list string * option string :=
  let buffer := buffer +:+ chunk in
  if (MAX_WIRE_MESSAGE_BYTES <? text_bytes buffer)%Z && bool_decide (cut_line buffer = None) then ([], None)
  else
    let '(lines, tail, long) := read_buffer (S (String.length buffer)) buffer in
    (lines, if long then None else Some tail).

Fixpoint on_chunks (buffer : string) (chunks : list string) : list string * option string :=
  match chunks with
  | [] => ([], Some buffer)
  | chunk :: rest =>
      match on_data buffer chunk with
      | (lines, Some buffer') => let (lines', state) := on_chunks buffer' rest in (lines ++ lines', state)
      | (lines, None) => (lines, None)
      end
  end.

(** ** Errors *)

(** What a request may be rejected with: the errors the daemon tells apart, and others. *)
Inductive request_failure :=
| CodedError (code message : string) (details : option jsval)
| CanonicalEventSizeError (message : string) (encodedBytes maximumBytes : Z)
| AbortError (message : string)
| OtherError (message : string)
| NotAnError.

Definition normalizeDaemonRpcErrorCode (method code : string) : string :=
  if isKnownRpcErrorCode code && isRpcErrorAllowed method code then code else "internal_error".

Definition reported_code (f : request_failure) : string :=
  match f with
  | CodedError code _ _ => code
  | CanonicalEventSizeError _ _ _ => "content_too_large"
  | AbortError _ => "cancelled"
  | OtherError _ | NotAnError => "internal_error"
  end.

Definition failure_message (f : request_failure) : string :=
  match f with
  | CodedError _ m _ | CanonicalEventSizeError m _ _ | AbortError m | OtherError m => m
  | NotAnError => "Request failed"
  end.

Definition failure_details (f : request_failure) : option jsval :=
  match f with
  | CodedError _ _ details => details
  | CanonicalEventSizeError _ encoded maximum =>
      Some (JObj [("field", JStr "canonicalEvent"); ("encodedBytes", JInt encoded); ("maximumBytes", JInt maximum)])
  | _ => None
  end.

(** The [catch] of [handleLine]. *)
Definition error_answer (r : WireRequest) (f : request_failure) : ServerMessage :=
  let code := normalizeDaemonRpcErrorCode (rq_method r) (reported_code f) in
  RpcError (rq_id r) (Some (rq_method r))
    {| eb_code := code;
       eb_message := if bool_decide (code = "internal_error") then "Request failed" else failure_message f;
       eb_retryable := isRpcErrorRetryable code;
       eb_details := failure_details f |}.

(** An error that no request can be named for. *)
Definition uncorrelated (code message : string) : ServerMessage :=
  RpcError (NInt (-1)) None {| eb_code := code; eb_message := message; eb_retryable := false; eb_details := None |}.

Definition frame_too_large : ServerMessage := uncorrelated "frame_too_large" "Request exceeded the size limit".

(** [error.message] of a [ProtocolValidationError]. *)
Definition error_text (e : ProtocolValidationError) : string := pve_path e +:+ ": " +:+ pve_message e.

(** [typeof decoded === "object" && decoded !== null]: its properties; an array has
    none of the names asked for. *)
Definition candidate_of (decoded : jsval) : option fields :=
  match decoded with JObj fs | JInst fs => Some fs | JArr _ => Some [] | _ => None end.

Definition candidate_id (candidate : option fields) : option number :=
  match candidate with
  | Some fs =>
      match get "id" fs with
      | JNum n => if is_safe_integer n && (0 <=? int_of n)%Z then Some n else None
      | _ => None
      end
  | None => None
  end.

Definition candidate_method (candidate : option fields) : option string :=
  match candidate with
  | Some fs => match get "method" fs with JStr m => if bool_decide (m ∈ RPC_METHODS) then Some m else None | _ => None end
  | None => None
  end.

Definition rejectMalformedRequest (candidate : option fields) (error : ProtocolValidationError) : ServerMessage :=
  let reportedCode := if String.eqb (pve_path error) "request.idempotencyKey" then "invalid_idempotency_key" else "bad_request" in
  match candidate_id candidate, candidate_method candidate with
  | Some id, Some m =>
      let code := normalizeDaemonRpcErrorCode m reportedCode in
      RpcError id (Some m)
        {| eb_code := code; eb_message := error_text error; eb_retryable := isRpcErrorRetryable code; eb_details := None |}
  | _, _ =>
      RpcError (NInt (-1)) None
        {| eb_code := "bad_request"; eb_message := error_text error; eb_retryable := isRpcErrorRetryable "bad_request";
           eb_details := None |}
  end.

(** ** Requests *)

Record connection := {
  cn_initialized : bool;
  cn_control : bool;
  cn_client : jsval;
  cn_connectedAt : option Z;
  cn_lastSeenAt : option Z;
  cn_granted : list string;
  cn_pending : nat
}.

Definition fresh_connection : connection :=
  {| cn_initialized := false; cn_control := false; cn_client := JUndef; cn_connectedAt := None; cn_lastSeenAt := None;
     cn_granted := []; cn_pending := 0 |}.

(** The daemon around the connection, when a line arrives. *)
Record surroundings := {
  su_running : bool;
  su_capabilities : list string;
  su_attachments : nat;
  su_now : Z
}.

Definition seen_now (now : Z) (st : connection) : connection :=
  {| cn_initialized := cn_initialized st; cn_control := cn_control st; cn_client := cn_client st;
     cn_connectedAt := cn_connectedAt st; cn_lastSeenAt := Some now; cn_granted := cn_granted st; cn_pending := cn_pending st |}.
Definition with_pending (n : nat) (st : connection) : connection :=
  {| cn_initialized := cn_initialized st; cn_control := cn_control st; cn_client := cn_client st;
     cn_connectedAt := cn_connectedAt st; cn_lastSeenAt := cn_lastSeenAt st; cn_granted := cn_granted st; cn_pending := n |}.
Definition set_control (st : connection) : connection :=
  {| cn_initialized := cn_initialized st; cn_control := true; cn_client := cn_client st;
     cn_connectedAt := cn_connectedAt st; cn_lastSeenAt := cn_lastSeenAt st; cn_granted := cn_granted st;
     cn_pending := cn_pending st |}.

Definition strings_of (v : jsval) : list string :=
  match v with JArr l => omap (λ x, match x with JStr s => Some s | _ => None end) l | _ => [] end.

Definition initialize (su : surroundings) (st : connection) (params : jsval) : connection :=
  {| cn_initialized := true; cn_control := cn_control st; cn_client := field "client" params;
     cn_connectedAt := Some (su_now su); cn_lastSeenAt := Some (su_now su);
     cn_granted := filter (λ c, c ∈ su_capabilities su) (strings_of (field "requestedCapabilities" params));
     cn_pending := cn_pending st |}.

Definition before_initialize (method : string) : bool :=
  bool_decide (method ∈ ["daemon.info"; "connection.initialize"; "connection.ping"]).

(** What is checked of a request before it is executed, and what it does to the connection. *)
Definition admitRequest (su : surroundings) (st : connection) (r : WireRequest) : result request_failure connection :=
  let m := rq_method r in
  _ ← require (su_running su) (CodedError "daemon_stopping" "Daemon is shutting down" None);
  _ ← refuse (negb (cn_initialized st) && negb (before_initialize m))
        (CodedError "not_initialized" "Initialize the connection before accessing sessions" None);
  if String.eqb m "connection.initialize" then
    _ ← refuse (cn_initialized st) (CodedError "connection_already_initialized" "Connection is already initialized" None);
    _ ← refuse (MAX_ATTACHMENTS <=? su_attachments su)
          (CodedError "rate_limited" "The daemon attachment limit has been reached" None);
    Ok (initialize su st (rq_params r))
  else
    _ ← match requiredCapability m with
        | Some c => require (bool_decide (c ∈ cn_granted st))
                      (CodedError "unsupported_capability" ("Connection was not granted capability " +:+ c) None)
        | None => Ok tt
        end;
    Ok (if String.eqb m "connection.ping" && cn_initialized st then seen_now (su_now su) st else st).

Inductive received :=
| Answer (m : ServerMessage)
| Execute (r : WireRequest)
| HostControl (v : jsval)
| Hangup.

Section Receive.
(** The message of the [SyntaxError] that [JSON.parse] throws. *)
Context (syntax_message : string → string).

Definition rejectOverloadedLine (line : string) : ServerMessage :=
  match json_parse line with
  | None => uncorrelated "bad_request" (syntax_message line)
  | Some decoded =>
      match parseWireRequest decoded with
      | Ok r =>
          RpcError (rq_id r) (Some (rq_method r))
            {| eb_code := "rate_limited"; eb_message := "Too many pending requests"; eb_retryable := true; eb_details := None |}
      | Err e => rejectMalformedRequest (candidate_of decoded) e
      end
  end.

(** [handleLine], up to the execution of the request. *)
Definition handleLine (su : surroundings) (st : connection) (line : string) : connection * received :=
  match json_parse line with
  | None => (st, Answer (uncorrelated "bad_request" (syntax_message line)))
  | Some decoded =>
      if match candidate_of decoded with Some fs => is_str "host.request" (get "kind" fs) | None => false end then
        (if cn_initialized st || cn_control st then st else set_control st, HostControl decoded)
      else if cn_control st then (st, Hangup)
      else
        match parseWireRequest decoded with
        | Err e => (st, Answer (rejectMalformedRequest (candidate_of decoded) e))
        | Ok r =>
            match admitRequest su st r with
            | Err f => (st, Answer (error_answer r f))
            | Ok st' => (st', Execute r)
            end
        end
  end.

(** A line of the connection; [None]: it is blank. *)
Definition on_line (su : surroundings) (st : connection) (line : string) : connection * option received :=
  if bool_decide (js_trim line = "") then (st, None)
  else if MAX_PENDING_REQUESTS <=? cn_pending st then (st, Some (Answer (rejectOverloadedLine line)))
  else let (st', x) := handleLine su (with_pending (S (cn_pending st)) st) line in (st', Some x).
End Receive.

(** The end of [handleLine]: what the execution came to is checked and sent. *)
Definition respond (r : WireRequest) (dispatched : result request_failure jsval) : ServerMessage :=
  match dispatched with
  | Ok v =>
      match parseRpcResult (rq_method r) v with
      | Ok result => RpcSuccess (rq_id r) (rq_method r) result
      | Err e => error_answer r (OtherError (error_text e))
      end
  | Err f => error_answer r f
  end.

(** [send]: the line, unless it is too long, which closes the connection. *)
Definition send (m : ServerMessage) : option string :=
  let encoded := encodeWireMessage (message_value m) in
  if (MAX_WIRE_MESSAGE_BYTES <? text_bytes encoded)%Z then None else Some encoded.
