(* ===== verification/ConnectionFacts.v ===== *)
(** A connection to the daemon: its lines do not depend on how the bytes arrive, what it
    executes was authorised, and its answers are messages the client accepts. *)
From stdpp Require Import base list sets strings pretty.
From Stdlib Require Import ZArith Lia Ascii.
From S2P Require Import Prelude Text JsValue Json JsonText JsonClean Envelope.
From S2P Require Import JsMap WireTables WireFields ProviderManagement WireWorkspace WireResults WireResultsFacts.
From S2P Require Import WireRequest WireRequestFacts WireMessages WireMessagesFacts Connection.

(** ** Lines *)

Definition nl : ascii := ascii_of_nat 10.
Definition unbroken (s : string) : Prop := one_line s = true.

(** Lines that are read, as they were sent. *)
Definition sent_lines (lines : list string) : string := String.concat "" ((λ l, l +:+ String nl "") <$> lines).
Definition short_line (l : string) : Prop := unbroken l ∧ (text_bytes l <= MAX_WIRE_MESSAGE_BYTES)%Z.

(** What the text so far comes to: the lines, and what is left of it while the
    connection is open; or the lines before one that is too long. *)
Definition framed (text : string) (lines : list string) (state : option string) : Prop :=
  Forall short_line lines ∧
  match state with
  | Some tail => text = sent_lines lines +:+ tail ∧ unbroken tail
  | None => ∃ a b, text = sent_lines lines +:+ (a +:+ b) ∧ unbroken a ∧ (MAX_WIRE_MESSAGE_BYTES < text_bytes a)%Z
  end.

Section Lines.
#[local] Opaque MAX_WIRE_MESSAGE_BYTES.

Lemma concat_cons (s : string) l : String.concat "" (s :: l) = s +:+ String.concat "" l.
Proof. destruct l; [cbn; by rewrite string_app_nil_r|done]. Qed.

Lemma sent_cons l lines : sent_lines (l :: lines) = l +:+ String nl (sent_lines lines).
Proof. unfold sent_lines. rewrite fmap_cons, concat_cons, <- string_app_assoc. done. Qed.

Lemma sent_app a b : sent_lines (a ++ b) = sent_lines a +:+ sent_lines b.
Proof. induction a as [|l a IH]; [done|]. cbn [app]. rewrite !sent_cons, IH, <- string_app_assoc. done. Qed.

Lemma cut_line_spec s :
  match cut_line s with Some (l, r) => s = l +:+ String nl r ∧ unbroken l | None => unbroken s end.
Proof.
  unfold unbroken, one_line. induction s as [|c s IH]; [done|]. cbn [cut_line]. destruct (is_newline c) eqn:Ec.
  - split; [|done]. by destruct c as [[] [] [] [] [] [] [] []].
  - destruct (cut_line s) as [[l r]|]; simpl; rewrite Ec; simpl; [|done]. destruct IH as [-> ?]. done.
Qed.

Lemma unbroken_break a b r t : unbroken a → unbroken b → a +:+ String nl r = b +:+ String nl t → a = b ∧ r = t.
Proof.
  unfold unbroken, one_line. revert b. induction a as [|c a IH]; intros [|d b] Ha Hb; simpl in *.
  - by intros [= ->].
  - intros [= <- _]. done.
  - intros [= -> _]. done.
  - apply andb_true_iff in Ha as [_ Ha], Hb as [_ Hb]. intros [= <- H]. by destruct (IH b Ha Hb H) as [-> ->].
Qed.

Lemma read_buffer_spec fuel buffer lines tail long :
  String.length buffer < fuel → read_buffer fuel buffer = (lines, tail, long) →
  Forall short_line lines ∧
  if long then ∃ a, buffer = sent_lines lines +:+ (a +:+ String nl tail) ∧ unbroken a ∧ (MAX_WIRE_MESSAGE_BYTES < text_bytes a)%Z
  else buffer = sent_lines lines +:+ tail ∧ unbroken tail.
Proof.
  revert buffer lines tail long. induction fuel as [|fuel IH]; intros buffer lines tail long Hf; [lia|]. cbn [read_buffer].
  pose proof (cut_line_spec buffer) as Hc. destruct (cut_line buffer) as [[l r]|]; [|by intros [= <- <- <-]].
  destruct Hc as [-> Hl]. destruct (Z.ltb_spec MAX_WIRE_MESSAGE_BYTES (text_bytes l)) as [Hlong|Hshort].
  - intros [= <- <- <-]. split; [constructor|]. by exists l.
  - destruct (read_buffer fuel r) as [[ls t] g] eqn:Er. intros [= <- <- <-].
    rewrite string_length_app in Hf. simpl in Hf. apply IH in Er as [Hls Hr]; [|lia]. split; [constructor; [by split|done]|].
    rewrite sent_cons. destruct g.
    + destruct Hr as (a & -> & Ha). exists a. split; [|done]. by rewrite <- string_app_assoc.
    + destruct Hr as [-> Ht]. split; [|done]. by rewrite <- string_app_assoc.
Qed.

Lemma on_data_framed buffer chunk lines state : on_data buffer chunk = (lines, state) → framed (buffer +:+ chunk) lines state.
Proof.
  unfold on_data. destruct (_ && _) eqn:Eb.
  - intros [= <- <-]. apply andb_true_iff in Eb as [Hlen%Z.ltb_lt Hc%bool_decide_eq_true]. split; [constructor|].
    exists (buffer +:+ chunk), "". rewrite string_app_nil_r. pose proof (cut_line_spec (buffer +:+ chunk)) as Hs.
    rewrite Hc in Hs. done.
  - destruct (read_buffer _ _) as [[ls t] g] eqn:Er. intros [= <- <-].
    apply read_buffer_spec in Er as [Hls Hr]; [|lia]. split; [done|]. destruct g; [|done].
    destruct Hr as (a & -> & Ha). by exists a, (String nl t).
Qed.

Lemma framed_next text lines tail more lines' state :
  framed text lines (Some tail) → framed (tail +:+ more) lines' state → framed (text +:+ more) (lines ++ lines') state.
Proof.
  intros [Hl [-> Ht]] [Hl' Hs]. split; [by apply Forall_app|]. rewrite sent_app. destruct state as [tail'|].
  - destruct Hs as [E Hu]. split; [|done]. rewrite <- !string_app_assoc. by rewrite <- E.
  - destruct Hs as (a & b & E & Ha). exists a, b. split; [|done]. rewrite <- !string_app_assoc. by rewrite <- E.
Qed.

Lemma framed_closed text lines more : framed text lines None → framed (text +:+ more) lines None.
Proof. intros [Hl (a & b & -> & Ha)]. split; [done|]. exists a, (b +:+ more). by rewrite <- !string_app_assoc. Qed.

Lemma on_chunks_framed chunks : ∀ buffer lines state,
  unbroken buffer → on_chunks buffer chunks = (lines, state) → framed (buffer +:+ String.concat "" chunks) lines state.
Proof.
  induction chunks as [|chunk chunks IH]; intros buffer lines state Hb.
  - intros [= <- <-]. split; [constructor|]. cbn. by rewrite string_app_nil_r.
  - cbn [on_chunks]. rewrite concat_cons, string_app_assoc. destruct (on_data buffer chunk) as [ls [buffer'|]] eqn:Ed;
      apply on_data_framed in Ed.
    + destruct (on_chunks buffer' chunks) as [ls' st'] eqn:Ec. intros [= <- <-].
      apply IH in Ec; [|by apply Ed]. by eapply framed_next.
    + intros [= <- <-]. by apply framed_closed.
Qed.

Lemma unbroken_app a b : unbroken (a +:+ b) → unbroken a ∧ unbroken b.
Proof. unfold unbroken, one_line. rewrite all_chars_app, andb_true_iff. done. Qed.

Lemma unbroken_nl r : ¬ unbroken (String nl r).
Proof. done. Qed.

(** A line that is short enough is not the start of one that is too long. *)
Lemma line_not_long l r a b :
  short_line l → unbroken a → (MAX_WIRE_MESSAGE_BYTES < text_bytes a)%Z → l +:+ String nl r ≠ a +:+ b.
Proof.
  intros [Hl Hlen] Ha Hlong E. unfold text_bytes, utf8_length in *.
  assert (∃ x, a = l +:+ x ∧ x ≠ "") as (x & -> & Hx).
  { assert (String.length l < String.length a) as Hlt by lia. clear -E Hlt. revert a Hlt E.
    induction l as [|c l IH]; intros a Hlt E; [exists a; split; [done|by destruct a; simpl in *; [lia|]]|].
    destruct a as [|d a]; simpl in *; [lia|]. injection E as -> E. destruct (IH a) as (x & -> & Hx); [lia|done|]. by exists x. }
  rewrite <- string_app_assoc in E. apply (inj (String.append l)) in E. destruct x as [|c x]; [done|]. injection E as <- _.
  apply unbroken_app in Ha as [_ Ha]. by apply unbroken_nl in Ha.
Qed.

Lemma framed_unique text lines lines' state state' :
  framed text lines state → framed text lines' state' → lines = lines'.
Proof.
  assert (Hfirst : ∀ l ls st text, framed text (l :: ls) st → ∃ r, text = l +:+ String nl r ∧ framed r ls st).
  { intros l ls st t [Hl Hs]. apply Forall_cons in Hl as [Hl Hls]. rewrite sent_cons in Hs. destruct st as [tail|].
    - destruct Hs as [-> Ht]. eexists. rewrite <- string_app_assoc. split; [done|]. by split.
    - destruct Hs as (a & b & -> & Ha). eexists. rewrite <- string_app_assoc. split; [done|]. split; [done|]. by exists a, b. }
  assert (Hnil : ∀ l r st, short_line l → ¬ framed (l +:+ String nl r) [] st).
  { intros l r st Hl [_ Hs]. destruct st as [tail|].
    - destruct Hs as [E Ht]. cbn in E. rewrite <- E in Ht. apply unbroken_app in Ht as [_ Ht]. by apply unbroken_nl in Ht.
    - destruct Hs as (a & b & E & Ha & Hlen). by apply (line_not_long l r a b) in E. }
  intros H H'. revert text lines' H H'. induction lines as [|l lines IH]; intros text [|l' lines'] H H'; [done| | |].
  - pose proof (proj1 H') as Hok. apply Forall_cons in Hok as [Hok _]. apply Hfirst in H' as (r & -> & _).
    by apply Hnil in H.
  - pose proof (proj1 H) as Hok. apply Forall_cons in Hok as [Hok _]. apply Hfirst in H as (r & -> & _).
    by apply Hnil in H'.
  - pose proof (proj1 H) as Hok. pose proof (proj1 H') as Hok'. apply Forall_cons in Hok as [[Hu _] _], Hok' as [[Hu' _] _].
    apply Hfirst in H as (r & -> & H). apply Hfirst in H' as (r' & E & H').
    apply unbroken_break in E as [-> ->]; [|done..]. f_equal. by eapply IH.
Qed.
End Lines.

(** The lines the daemon reads, and the ones it refuses as too long, depend on the
    bytes that arrive and not on how they are cut into chunks: every line that was
    read is a line of the text, of at most 1 MiB, and what follows them is either an
    unfinished line or a line that is too long. *)
Theorem chunks_do_not_matter chunks lines state :
  on_chunks "" chunks = (lines, state) →
  framed (String.concat "" chunks) lines state ∧
  ∀ chunks', String.concat "" chunks' = String.concat "" chunks → (on_chunks "" chunks').1 = lines.
Proof.
  intros H. assert (Hf : framed (String.concat "" chunks) lines state) by by apply (on_chunks_framed chunks "").
  split; [done|]. intros chunks' E. destruct (on_chunks "" chunks') as [lines' state'] eqn:H'.
  apply (on_chunks_framed chunks' "") in H'; [|done]. change ("" +:+ ?s) with s in H'. rewrite E in H'. by eapply framed_unique.
Qed.

Lemma chunks_do_not_matter_witness :
  on_chunks "" ["{}" +:+ chr 10 +:+ "{"; "}"; chr 10; "["] = (["{}"; "{}"], Some "[") ∧
  (on_chunks "" ["{}" +:+ chr 10 +:+ "{}" +:+ chr 10 +:+ "["]).1 = ["{}"; "{}"].
Proof.
  assert (H : on_chunks "" ["{}" +:+ chr 10 +:+ "{"; "}"; chr 10; "["] = (["{}"; "{}"], Some "[")) by (vm_compute; reflexivity).
  split; [exact H|].
  apply (chunks_do_not_matter ["{}" +:+ chr 10 +:+ "{"; "}"; chr 10; "["] _ _ H). vm_compute. reflexivity.
Defined.

(** ** From a client to the handler *)

Section Arrival.
Lemma drop_spaces_in p ps : p ∈ ps → js_space p = false → p ∈ drop_spaces ps.
Proof.
  induction ps as [|q ps IH]; [done|]. intros Hp Hs. cbn [drop_spaces]. destruct (js_space q) eqn:Eq; [|done].
  apply elem_of_cons in Hp as [->|Hp]; [congruence|auto].
Qed.

Lemma of_points_nonempty p ps : p ∈ ps → utf8_encode p ≠ "" → of_code_points ps ≠ "".
Proof.
  intros Hp He E. unfold of_code_points in E. induction ps as [|q ps IH]; [by apply elem_of_nil in Hp|].
  rewrite fmap_cons, concat_cons in E. apply elem_of_cons in Hp as [->|Hp].
  - destruct (utf8_encode q); done.
  - apply IH; [done|]. by destruct (utf8_encode q).
Qed.

Lemma brace_not_blank s : js_trim (String "{"%char s) ≠ "".
Proof.
  unfold js_trim. apply of_points_nonempty with (p := 123%N); [|done].
  apply elem_of_rev, drop_spaces_in; [|done]. apply elem_of_rev, drop_spaces_in; [|done]. by left.
Qed.

(** A request that was written as one line is the request the daemon reads. *)
Lemma line_of_request r chunks :
  json_clean (request_message r) = true → (text_bytes (json_text (request_message r)) <= MAX_WIRE_MESSAGE_BYTES)%Z →
  String.concat "" chunks = encodeWireMessage (request_message r) →
  (on_chunks "" chunks).1 = [json_text (request_message r)].
Proof.
  intros Hc Hlen Hchunks. destruct (on_chunks "" chunks) as [lines state] eqn:E.
  apply (on_chunks_framed chunks "") in E; [|done]. change ("" +:+ ?s) with s in E. rewrite Hchunks in E.
  eapply framed_unique; [exact E|]. split; [|instantiate (1 := Some "")].
  - apply Forall_singleton. split; [by apply text_line|done].
  - split; [|done]. unfold encodeWireMessage. rewrite sent_cons. by rewrite string_app_nil_r.
Qed.
End Arrival.


Definition sample_request_line : string := encodeWireMessage (request_message
  {| rq_id := NInt 7; rq_idempotencyKey := None; rq_method := "daemon.info"; rq_params := JObj [] |}).


(** ** Answers *)

(** A client that reads the message has the message that was sent. *)
Definition read_back (m : ServerMessage) : Prop := parseServerMessage (message_value m) = Ok m.

Definition error_of (m : ServerMessage) : option RpcErrorBody := match m with RpcError _ _ e => Some e | _ => None end.

(** The details that fit a code: those of provider errors are required. *)
Definition details_fit (e : RpcErrorBody) : Prop := parse_details (eb_code e) (of_opt (eb_details e)) = Ok (eb_details e).

Section Codes.
Lemma known_codes_bounded c : c ∈ RPC_ERROR_CODES → c ≠ "" ∧ (utf8_length c <= 128)%Z.
Proof.
  intros Hc. assert (Hall : forallb (λ c, negb (String.eqb c "") && (utf8_length c <=? 128)%Z) RPC_ERROR_CODES = true) by (vm_compute; reflexivity).
  rewrite forallb_forall in Hall. apply list_elem_of_In in Hc. apply Hall, andb_true_iff in Hc as [H1 H2%Z.leb_le].
  split; [|done]. by apply negb_true_iff, String.eqb_neq in H1.
Qed.

(** The code an error is sent with is known and allowed for the method. *)
Lemma normalized_code m c :
  let code := normalizeDaemonRpcErrorCode m c in
  code ∈ RPC_ERROR_CODES ∧ isRpcErrorAllowed m code = true ∧ (code = c ∨ code = "internal_error").
Proof.
  cbv zeta. unfold normalizeDaemonRpcErrorCode. destruct (_ && _) eqn:E.
  - apply andb_true_iff in E as [Hk%bool_decide_eq_true Ha]. auto.
  - split; [apply (bool_decide_unpack _); vm_compute; reflexivity|]. split; [|by right]. unfold isRpcErrorAllowed.
    by rewrite bool_decide_true by (apply (bool_decide_unpack _); vm_compute; reflexivity).
Qed.

(** An error of a request, with a normalised code. *)
Lemma correlated_accepted id m c message details :
  is_safe_integer id = true → (0 <= int_of id)%Z → m ∈ RPC_METHODS →
  let code := normalizeDaemonRpcErrorCode m c in
  let e := {| eb_code := code; eb_message := message; eb_retryable := isRpcErrorRetryable code; eb_details := details |} in
  read_back (RpcError id (Some m) e) ↔ (utf8_length message <= 4096)%Z ∧ details_fit e.
Proof.
  intros Hid Hpos Hm code e. destruct (normalized_code m c) as (Hk & Ha & _). fold code in Hk, Ha.
  unfold read_back. rewrite error_accepted. split; [by intros []|]. intros [Hlen Hd]. split; try done.
  - split; [done|lia].
  - by intros m' [= <-].
  - split; [lia|done].
  - by apply known_codes_bounded.
Qed.

Lemma uncorrelated_accepted c message :
  c ∈ PRE_RPC_ERROR_CODES →
  read_back (uncorrelated c message) ↔ (utf8_length message <= 4096)%Z.
Proof.
  intros Hc. unfold read_back, uncorrelated. rewrite error_accepted. split; [by intros []|]. intros Hlen.
  assert (isRpcErrorRetryable c = false ∧ c ∈ RPC_ERROR_CODES ∧ isProviderRpcErrorCode c = false) as (Hr & Hk & Hp).
  { repeat (apply elem_of_cons in Hc as [->|Hc]; [split_and!; [reflexivity|apply (bool_decide_unpack _); vm_compute; reflexivity|reflexivity]|]).
    by apply elem_of_nil in Hc. }
  split; cbn; try done.
  - by apply known_codes_bounded.
  - unfold parse_details. by rewrite Hp.
Qed.
End Codes.

(** ** Refusals *)

Section Refusals.
Lemma no_details c message b :
  isProviderRpcErrorCode c = false → details_fit {| eb_code := c; eb_message := message; eb_retryable := b; eb_details := None |}.
Proof. intros H. unfold details_fit, parse_details. cbn [eb_code eb_details]. by rewrite H. Qed.

Lemma normalized_plain m c : isProviderRpcErrorCode c = false → isProviderRpcErrorCode (normalizeDaemonRpcErrorCode m c) = false.
Proof. intros H. by destruct (normalized_code m c) as (_ & _ & [-> | ->]). Qed.

(** A correlated error without details. *)
Lemma plain_accepted id m c message :
  is_safe_integer id = true → (0 <= int_of id)%Z → m ∈ RPC_METHODS → isProviderRpcErrorCode c = false →
  let code := normalizeDaemonRpcErrorCode m c in
  let e := {| eb_code := code; eb_message := message; eb_retryable := isRpcErrorRetryable code; eb_details := None |} in
  read_back (RpcError id (Some m) e) ↔ (utf8_length message <= 4096)%Z.
Proof.
  intros Hid Hpos Hm Hc code e. unfold e, code. rewrite correlated_accepted by done.
  split; [by intros [? _]|]. intros Hlen. split; [done|]. by apply no_details, normalized_plain.
Qed.

Definition refusal (m : ServerMessage) : Prop :=
  ∃ id method e, m = RpcError id method e ∧ (read_back m ↔ (utf8_length (eb_message e) <= 4096)%Z).

Lemma uncorrelated_refusal c message : c ∈ PRE_RPC_ERROR_CODES → refusal (uncorrelated c message).
Proof. intros Hc. eexists _, _, _. split; [reflexivity|]. by apply uncorrelated_accepted. Qed.

Lemma candidate_id_Some cand n : candidate_id cand = Some n → is_safe_integer n = true ∧ (0 <= int_of n)%Z.
Proof.
  unfold candidate_id. destruct cand as [fs|]; [|done]. destruct (get "id" fs); try done.
  destruct (_ && _) eqn:E; [|done]. intros [= <-]. by apply andb_true_iff in E as [? ?%Z.leb_le].
Qed.

Lemma candidate_method_Some cand m : candidate_method cand = Some m → m ∈ RPC_METHODS.
Proof. unfold candidate_method. repeat (case_match; try done). intros [= <-]. by eapply bool_decide_eq_true. Qed.

Lemma malformed_refusal cand e : refusal (rejectMalformedRequest cand e).
Proof.
  assert (Hnone : ∀ cand' : option fields, refusal (RpcError (NInt (-1)) None
    {| eb_code := "bad_request"; eb_message := error_text e; eb_retryable := isRpcErrorRetryable "bad_request"; eb_details := None |})).
  { intros _. change (isRpcErrorRetryable "bad_request") with false. apply (uncorrelated_refusal "bad_request").
    apply (bool_decide_unpack _). vm_compute. reflexivity. }
  unfold rejectMalformedRequest. destruct (candidate_id cand) as [n|] eqn:En; [|by apply Hnone].
  destruct (candidate_method cand) as [m|] eqn:Em; [|by apply Hnone]. apply candidate_id_Some in En as [Hs Hp].
  apply candidate_method_Some in Em. eexists _, _, _. split; [reflexivity|]. apply plain_accepted; try done.
  by destruct (String.eqb _ _).
Qed.

Lemma admit_refusal su st r f : admitRequest su st r = Err f → ∃ c message, f = CodedError c message None ∧ isProviderRpcErrorCode c = false.
Proof.
  unfold admitRequest. destruct (su_running su); cbn [require rbind]; [|intros [= <-]; eauto].
  destruct (negb _ && negb _); cbn [refuse rbind]; [intros [= <-]; eauto|]. destruct (String.eqb _ _).
  - destruct (cn_initialized st); cbn [refuse rbind]; [intros [= <-]; eauto|].
    destruct (_ <=? _); cbn [refuse rbind]; [intros [= <-]; eauto|done].
  - destruct (requiredCapability _); [|done]. case_bool_decide; cbn [require rbind]; [done|]. intros [= <-]; eauto.
Qed.

Lemma nonNegative_accepted n path : nonNegativeInteger (JNum n) path = Ok n ↔ is_safe_integer n = true ∧ (0 <= int_of n)%Z.
Proof.
  cbn [nonNegativeInteger]. destruct (is_safe_integer n) eqn:Es; cbn [andb require rbind]; [|split; [done|by intros [? _]]].
  destruct n as [z| | | |]; try done. cbn [is_negative int_of]. destruct (Z.ltb_spec z 0); cbn [negb require rbind]; (split; [intros Hx|intros [_ Hn]]).
  - discriminate Hx.
  - lia.
  - done.
  - done.
Qed.

Lemma request_frame v r : parseWireRequest v = Ok r → is_safe_integer (rq_id r) = true ∧ (0 <= int_of (rq_id r))%Z ∧ rq_method r ∈ RPC_METHODS.
Proof.
  intros Hv. unfold parseWireRequest in Hv. open_parser Hv. cbn [rq_id rq_method].
  match goal with H : nonNegativeInteger _ _ = Ok _ |- _ => pose proof (nonNegativeInteger_Ok _ _ _ H) as E; rewrite E in H; rename H into Hid end.
  match goal with H : parseRpcMethod _ _ = Ok _ |- _ => pose proof (method_Ok _ _ _ H) as E'; rewrite E' in H; apply method_accepted in H end.
  apply nonNegative_accepted in Hid as [? ?]. done.
Qed.

Lemma error_answer_refusal v r su st f : parseWireRequest v = Ok r → admitRequest su st r = Err f → refusal (error_answer r f).
Proof.
  intros Hv Hf. apply request_frame in Hv as (Hs & Hp & Hm). apply admit_refusal in Hf as (c & message & -> & Hc).
  eexists _, _, _. split; [reflexivity|]. by apply plain_accepted.
Qed.
End Refusals.

(** ** What is answered *)

(** What a request is answered with goes back under its id and method, and a client
    reads exactly the answer that was sent, whatever the operation returned or threw:
    unless it is an error whose message is longer than 4096 bytes, or whose details
    are not those its code asks for. *)
Theorem answers_read_back v r dispatched :
  parseWireRequest v = Ok r →
  (∃ result, respond r dispatched = RpcSuccess (rq_id r) (rq_method r) result) ∧ read_back (respond r dispatched) ∨
  (∃ e, respond r dispatched = RpcError (rq_id r) (Some (rq_method r)) e ∧
    (read_back (respond r dispatched) ↔ (utf8_length (eb_message e) <= 4096)%Z ∧ details_fit e)).
Proof.
  intros Hv. apply request_frame in Hv as (Hs & Hpos & Hm).
  assert (Hfail : ∀ f, ∃ e, error_answer r f = RpcError (rq_id r) (Some (rq_method r)) e ∧
    (read_back (error_answer r f) ↔ (utf8_length (eb_message e) <= 4096)%Z ∧ details_fit e)).
  { intros f. eexists. split; [reflexivity|]. by apply correlated_accepted. }
  unfold respond. destruct dispatched as [d|f]; [|by right].
  destruct (parseRpcResult (rq_method r) d) as [w|e] eqn:Ew; [|by right]. left. split; [by eexists|].
  unfold read_back. apply rpc_result_again in Ew. apply method_accepted with (path := "message.method") in Hm.
  assert (Hid : nonNegativeInteger (JNum (rq_id r)) "message.id" = Ok (rq_id r)) by by apply nonNegative_accepted.
  eapply message_parts_again; [reflexivity|]. change (parse_message _ ?fs) with (parse_success fs).
  unfold parse_success. built. known. reflexivity.
Qed.

(** A line that is refused, because it is not JSON, is malformed, comes too early,
    is not authorised or finds too many requests pending, is answered with one error,
    which the client reads exactly when its message is at most 4096 bytes long. *)
Theorem refusals_read_back syntax su st line st' m :
  on_line syntax su st line = (st', Some (Answer m)) →
  ∃ id method e, m = RpcError id method e ∧ (read_back m ↔ (utf8_length (eb_message e) <= 4096)%Z).
Proof.
  change (∃ id method e, _) with (refusal m). unfold on_line. case_bool_decide; [done|].
  assert (Hbad : "bad_request" ∈ PRE_RPC_ERROR_CODES) by (apply (bool_decide_unpack _); vm_compute; reflexivity).
  destruct (_ <=? _).
  - intros [= _ <-]. unfold rejectOverloadedLine. destruct (json_parse line); [|by apply uncorrelated_refusal].
    destruct (parseWireRequest j) as [r|e] eqn:Hr; [|apply malformed_refusal]. apply request_frame in Hr as (Hs & Hp & Hm).
    eexists _, _, _. split; [reflexivity|].
    assert (normalizeDaemonRpcErrorCode (rq_method r) "rate_limited" = "rate_limited") as E by done.
    pose proof (plain_accepted (rq_id r) (rq_method r) "rate_limited" "Too many pending requests" Hs Hp Hm eq_refl) as Ha.
    cbv zeta in Ha. rewrite E in Ha. exact Ha.
  - unfold handleLine. destruct (json_parse line) as [decoded|].
    + destruct (match candidate_of decoded with Some _ => _ | None => _ end); [by intros [=]|].
      destruct (cn_control _); [by intros [=]|].
      destruct (parseWireRequest decoded) as [r|e] eqn:Hr; [|intros [= _ <-]; apply malformed_refusal].
      destruct (admitRequest _ _ r) as [st1|f] eqn:Ef; [by intros [=]|]. intros [= _ <-]. by eapply error_answer_refusal.
    + intros [= _ <-]. by apply uncorrelated_refusal.
Qed.

Definition sample_surroundings : surroundings :=
  {| su_running := true; su_capabilities := ["session.create"; "command.list"]; su_attachments := 0; su_now := 5 |}.

Lemma refusals_read_back_witness :
  ∃ m, on_line id sample_surroundings fresh_connection "{}" = (with_pending 1 fresh_connection, Some (Answer m)) ∧ read_back m.
Proof.
  eexists. split; [vm_compute; reflexivity|].
  destruct (refusals_read_back id sample_surroundings fresh_connection "{}" (with_pending 1 fresh_connection) _ eq_refl)
    as (i & method & e & E & H).
  apply H. injection E as _ _ <-. apply Z.leb_le. vm_compute. reflexivity.
Defined.

Lemma answers_read_back_witness :
  ∃ r, parseWireRequest sample_request = Ok r ∧
    read_back (respond r (Err (CodedError "invalid_cwd" "Cannot open working directory /work" None))).
Proof.
  eexists. split; [vm_compute; reflexivity|].
  match goal with |- read_back (respond ?r ?d) => destruct (answers_read_back sample_request r d) as [[_ H] | (e & E & H)] end.
  - vm_compute. reflexivity.
  - exact H.
  - apply H. injection E as <-. split; [apply Z.leb_le; vm_compute; reflexivity|vm_compute; reflexivity].
Defined.

(** ** An error no client reads *)

Definition long_name : string := String.concat "" (replicate 410 "aaaaaaaaaa").
Definition long_value : jsval :=
  JObj [("kind", JStr "request"); ("id", JInt 0); ("method", JStr long_name); ("params", JObj [])].
Definition long_request : string := json_text long_value.
Definition long_error : ProtocolValidationError := invalid "request.method" ("unknown method " +:+ quote long_name).

(** A request of 4 KiB whose method is unknown is answered with an error that repeats
    the method, and no client accepts that answer: the parser of messages, whose
    failure ends the client's connection, allows 4096 bytes. *)
Theorem long_refusal_is_not_read syntax su :
  (text_bytes long_request < 4200)%Z ∧
  ∃ st' m, on_line syntax su fresh_connection long_request = (st', Some (Answer m)) ∧
    parseServerMessage (message_value m) = Err (invalid "message.error.message" (too_long 4096)).
Proof.
  split; [apply Z.ltb_lt; vm_compute; reflexivity|].
  assert (Hb : bool_decide (js_trim long_request = "") = false) by (vm_compute; reflexivity).
  assert (Hj : json_parse long_request = Some long_value) by (apply json_parse_text; vm_compute; reflexivity).
  assert (Hp : parseWireRequest long_value = Err long_error) by (vm_compute; reflexivity).
  assert (Hc : rejectMalformedRequest (candidate_of long_value) long_error = uncorrelated "bad_request" (error_text long_error))
    by (vm_compute; reflexivity).
  eexists (with_pending 1 fresh_connection), (uncorrelated "bad_request" (error_text long_error)). split.
  - unfold on_line. rewrite Hb. cbn [fresh_connection cn_pending MAX_PENDING_REQUESTS Nat.leb]. unfold handleLine. rewrite Hj.
    change (match candidate_of long_value with Some fs => is_str "host.request" (get "kind" fs) | None => false end) with false.
    cbn [cn_control with_pending fresh_connection]. by rewrite Hp, Hc.
  - vm_compute. reflexivity.
Qed.

(** ** What a connection executes *)

Section Reach.
Context (syntax_message : string → string).

(** The connections that lines and finished requests lead to, with what became of the lines. *)
Inductive reaches : connection → list (surroundings * received) → Prop :=
| reach_fresh : reaches fresh_connection []
| reach_line st tr su line st' x :
    reaches st tr → on_line syntax_message su st line = (st', x) → reaches st' (tr ++ option_list ((su,.) <$> x))
| reach_settled st tr n : reaches st tr → cn_pending st = S n → reaches (with_pending n st) tr.
End Reach.

Definition executed (m : string) (x : surroundings * received) : Prop :=
  match x.2 with Execute r => rq_method r = m | _ => False end.
#[export] Instance executed_dec m x : Decision (executed m x).
Proof. unfold executed. destruct x.2; apply _. Defined.

(** Initialising the connection granted a capability that was asked for and the daemon has. *)
Definition granted_by (su : surroundings) (r : WireRequest) (c : string) : Prop :=
  c ∈ strings_of (field "requestedCapabilities" (rq_params r)) ∧ c ∈ su_capabilities su.

Definition authorised (tr : list (surroundings * received)) (r : WireRequest) : Prop :=
  before_initialize (rq_method r) = true ∨
  ∃ su r0, (su, Execute r0) ∈ tr ∧ rq_method r0 = "connection.initialize" ∧
    ∀ c, requiredCapability (rq_method r) = Some c → granted_by su r0 c.

Record connection_ok (st : connection) (tr : list (surroundings * received)) : Prop := {
  co_pending : cn_pending st ≤ MAX_PENDING_REQUESTS;
  co_separate : cn_control st = true → cn_initialized st = false;
  co_once : length (filter (executed "connection.initialize") tr) = if cn_initialized st then 1 else 0;
  co_granted : cn_initialized st = true →
    ∃ su r, (su, Execute r) ∈ tr ∧ rq_method r = "connection.initialize" ∧ ∀ c, c ∈ cn_granted st → granted_by su r c;
  co_authorised : ∀ pre su r post, tr = pre ++ (su, Execute r) :: post → authorised pre r
}.

Section Reached.
Context (syntax_message : string → string).

Lemma admit_cases su st r st' :
  admitRequest su st r = Ok st' →
  rq_method r = "connection.initialize" ∧ cn_initialized st = false ∧ st' = initialize su st (rq_params r) ∨
  rq_method r ≠ "connection.initialize" ∧ (before_initialize (rq_method r) = true ∨ cn_initialized st = true) ∧
  (∀ c, requiredCapability (rq_method r) = Some c → c ∈ cn_granted st) ∧ (st' = st ∨ st' = seen_now (su_now su) st).
Proof.
  unfold admitRequest. intros (u & _ & H)%bind_Ok. apply bind_Ok in H as (u' & Hb%refuse_Ok & H).
  apply andb_false_iff in Hb. destruct (String.eqb_spec (rq_method r) "connection.initialize") as [E|E].
  - left. apply bind_Ok in H as (u2 & Hi%refuse_Ok & H). apply bind_Ok in H as (u3 & _ & [= <-]). done.
  - right. apply bind_Ok in H as (u2 & Hc & [= <-]). split; [done|]. split; [rewrite !negb_false_iff in Hb; naive_solver|].
    split; [|by destruct (_ && _); auto]. intros c Hr. rewrite Hr in Hc. by apply require_Ok, bool_decide_eq_true in Hc.
Qed.

(** What a line may do: nothing, add a request that is handled, make the connection a
    control connection, or execute a request that was admitted. *)
Lemma on_line_cases su st line st' x :
  on_line syntax_message su st line = (st', x) →
  let st1 := with_pending (S (cn_pending st)) st in
  (∀ r, x ≠ Some (Execute r)) ∧ st' = st ∨
  cn_pending st < MAX_PENDING_REQUESTS ∧
  ((∀ r, x ≠ Some (Execute r)) ∧ (st' = st1 ∨ cn_initialized st = false ∧ st' = set_control st1) ∨
   ∃ r, x = Some (Execute r) ∧ cn_control st = false ∧ admitRequest su st1 r = Ok st').
Proof.
  intros H st1. unfold on_line in H. case_bool_decide; [left; by injection H as <- <-|].
  destruct (Nat.leb_spec MAX_PENDING_REQUESTS (cn_pending st)) as [Hp|Hp]; [left; by injection H as <- <-|].
  right. split; [done|]. fold st1 in H. unfold handleLine in H. destruct (json_parse line) as [decoded|]; [|left; injection H as <- <-; auto].
  destruct (match candidate_of decoded with Some _ => _ | None => _ end).
  { left. injection H as <- <-. split; [done|]. change (cn_initialized st1) with (cn_initialized st).
    change (cn_control st1) with (cn_control st). destruct (cn_initialized st), (cn_control st); cbn [orb]; auto. }
  change (cn_control st1) with (cn_control st) in H. destruct (cn_control st) eqn:Ec; [left; injection H as <- <-; auto|].
  destruct (parseWireRequest decoded) as [r|e]; [|left; injection H as <- <-; auto].
  destruct (admitRequest su st1 r) as [st2|f] eqn:Ea; [|left; injection H as <- <-; auto].
  right. injection H as <- <-. by exists r.
Qed.

Lemma authorised_snoc (tr : list (surroundings * received)) x :
  (∀ pre su r post, tr = pre ++ (su, Execute r) :: post → authorised pre r) →
  (∀ su r, x = (su, Execute r) → authorised tr r) →
  ∀ pre su r post, tr ++ [x] = pre ++ (su, Execute r) :: post → authorised pre r.
Proof.
  intros Htr Hx pre su r post E. destruct post as [|y post _] using rev_ind.
  - apply app_inj_tail in E as [<- ->]. by eapply Hx.
  - rewrite app_comm_cons, app_assoc in E. apply app_inj_tail in E as [E _]. by eapply Htr.
Qed.

(** An output that executes nothing leaves what is known. *)
Lemma quiet_ok st tr st' out :
  connection_ok st tr → Forall (λ x : surroundings * received, ∀ r, x.2 ≠ Execute r) out →
  cn_pending st' ≤ MAX_PENDING_REQUESTS → (cn_control st' = true → cn_initialized st' = false) →
  cn_initialized st' = cn_initialized st → cn_granted st' = cn_granted st →
  connection_ok st' (tr ++ out).
Proof.
  intros [Hp Hs Ho Hg Ha] Hout Hp' Hs' Hi Hgr. split; [done|done| | |].
  - rewrite filter_app, length_app, Hi, <- Ho. assert (filter (executed "connection.initialize") out = []) as ->; [|simpl; lia].
    induction Hout as [|x out Hx _ IH]; [done|]. rewrite filter_cons, decide_False; [done|]. unfold executed.
    by destruct x.2 eqn:E; try (intros []); destruct (Hx r).
  - rewrite Hi, Hgr. intros Hini. destruct (Hg Hini) as (su & r & Hin & Hr). exists su, r. split; [|done]. apply elem_of_app. by left.
  - clear -Ha Hout. induction out as [|x out IH] using rev_ind; [by rewrite app_nil_r|].
    apply Forall_app in Hout as [Hout Hx]. rewrite Forall_singleton in Hx. rewrite app_assoc.
    apply authorised_snoc; [exact (IH Hout)|].
    intros su r ->. by destruct (Hx r).
Qed.

Lemma quiet_line su (x : option received) :
  (∀ r, x ≠ Some (Execute r)) → Forall (λ y : surroundings * received, ∀ r, y.2 ≠ Execute r) (option_list ((su,.) <$> x)).
Proof. destruct x as [y|]; [|constructor]. intros H. apply Forall_singleton. cbn. intros r ->. by apply (H r). Qed.

Lemma reaches_ok st tr : reaches syntax_message st tr → connection_ok st tr.
Proof.
  induction 1 as [|st tr su line st' x Hr IH Hl|st tr n Hr IH Hn].
  - split; try done; [cbn; lia|]. by intros [] *.
  - apply on_line_cases in Hl as [[Hq ->] | (Hp & [[Hq Hst] | (r & -> & Hctl & Hadm)])].
    + apply quiet_ok with st; [done|by apply quiet_line|apply IH|apply IH|done|done].
    + pose proof (co_separate _ _ IH) as Hs. apply quiet_ok with st; [done|by apply quiet_line| | | |];
        destruct Hst as [-> | [Hi ->]]; cbn; try done; try lia.
    + pose proof IH as [_ Hs Ho Hg Ha]. apply admit_cases in Hadm as [(Hm & Hi & ->) | (Hm & Hb & Hc & Hst)].
      * cbn in Hi. change (option_list _) with [(su, Execute r)]. split; cbn.
        -- lia.
        -- by rewrite Hctl.
        -- rewrite filter_app, length_app, Ho, Hi, filter_cons, decide_True by done. done.
        -- intros _. exists su, r. split; [apply elem_of_app; right; by left|]. split; [done|].
           intros c [Hc1 Hc2]%list_elem_of_filter. by split.
        -- apply authorised_snoc; [done|]. intros su' r' [= <- <-]. left. unfold before_initialize. by rewrite Hm.
      * cbn in Hb, Hc. assert (Hsame : cn_pending st' = S (cn_pending st) ∧ cn_control st' = cn_control st ∧
          cn_initialized st' = cn_initialized st ∧ cn_granted st' = cn_granted st) by (by destruct Hst as [-> | ->]).
        destruct Hsame as (Ep & Ec & Ei & Eg). change (option_list _) with [(su, Execute r)]. split.
        -- rewrite Ep. lia.
        -- rewrite Ec, Hctl. done.
        -- rewrite filter_app, length_app, Ho, Ei, filter_cons, decide_False by done. simpl. lia.
        -- rewrite Ei, Eg. intros Hini. destruct (Hg Hini) as (su0 & r0 & Hin & Hr0). exists su0, r0. split; [|done].
           apply elem_of_app. by left.
        -- apply authorised_snoc; [done|]. intros su' r' [= <- <-]. destruct Hb as [Hb|Hini]; [by left|]. right.
           destruct (Hg Hini) as (su0 & r0 & Hin & Hm0 & Hgr). exists su0, r0. split; [done|]. split; [done|].
           intros c Hreq. by apply Hgr, Hc.
  - rewrite <- (app_nil_r tr). pose proof (co_pending _ _ IH) as Hp.
    apply quiet_ok with st; [done|constructor|cbn; lia|apply IH|done|done].
Qed.
End Reached.

(** C34: Whatever arrives on a connection, in whatever order requests finish: at most 64
    requests are handled at once; a connection is initialised at most once and never
    after it controlled the host; and a request that is executed is one of the three
    that need no initialisation, or follows an initialisation that asked for the
    capability the method needs, which the daemon has. *)
Theorem executed_requests_authorised syntax st tr :
  reaches syntax st tr →
  cn_pending st ≤ MAX_PENDING_REQUESTS ∧
  (cn_control st = true → cn_initialized st = false) ∧
  length (filter (executed "connection.initialize") tr) ≤ 1 ∧
  ∀ pre su r post, tr = pre ++ (su, Execute r) :: post → authorised pre r.
Proof.
  intros [Hp Hs Ho _ Ha]%reaches_ok. split; [done|]. split; [done|]. split; [rewrite Ho; destruct (cn_initialized st); lia|done].
Qed.

Definition initialize_line : string := json_text (JObj [("kind", JStr "request"); ("id", JInt 1); ("method", JStr "connection.initialize");
  ("params", JObj [("client", JObj [("kind", JStr "tui"); ("version", JStr "1"); ("instanceId", JStr "i")]);
                   ("requestedCapabilities", JArr [JStr "command.list"; JStr "session.export"])])]).
Definition command_list_line : string :=
  json_text (JObj [("kind", JStr "request"); ("id", JInt 2); ("method", JStr "command.list"); ("params", JObj [])]).

Lemma executed_requests_authorised_witness :
  ∃ st tr su r, reaches id st (tr ++ [(su, Execute r)]) ∧ rq_method r = "command.list" ∧ cn_granted st = ["command.list"] ∧
    authorised tr r.
Proof.
  assert (Hr : ∃ st x y, reaches id st [(sample_surroundings, Execute x); (sample_surroundings, Execute y)] ∧
    rq_method y = "command.list" ∧ cn_granted st = ["command.list"]).
  { eexists _, _, _. split.
    - eapply (reach_line id _ [_] sample_surroundings command_list_line _ (Some _));
        [eapply (reach_line id _ [] sample_surroundings initialize_line _ (Some _)); [apply reach_fresh|vm_compute; reflexivity]
        |vm_compute; reflexivity].
    - split; reflexivity. }
  destruct Hr as (st & x & y & Hr & Hm & Hg). exists st, [(sample_surroundings, Execute x)], sample_surroundings, y.
  split; [done|]. split; [done|]. split; [done|].
  destruct (executed_requests_authorised id st _ Hr) as (_ & _ & _ & Ha). by eapply (Ha [_] _ _ []).
Defined.
