(* ===== verification/Redaction.v ===== *)
(** kernel/src/redaction.ts: what is taken out of an event before it is stored.

    The theorems: no secret value survives in a string of the payload, unless it
    could be read out of the mark itself; a field with a secret name keeps
    nothing; and redaction changes nothing but the payload. *)
From stdpp Require Import base list sets strings.
From Stdlib Require Import ZArith Lia Ascii.
From S2P Require Import Prelude Text JsValue Json Envelope Types ModelRequest Events EventSchema.

Definition REDACTED_VALUE : string := "[REDACTED]".
Definition SECRET_FIELD_NAMES : list string :=
  ["accessToken"; "apiKey"; "authorization"; "clientSecret"; "cookie"; "credential"; "credentials";
   "passphrase"; "password"; "privateKey"; "proxyAuthorization"; "refreshToken"; "secret";
   "secretAccessKey"; "secrets"; "sessionToken"; "setCookie"; "token"; "xApiKey"].

(** [toLowerCase], as far as it can produce ASCII letters: the capitals, and the
    Kelvin sign. *)
Definition lower_point (p : N) : N :=
  if in_range 65 90 p then (p + 32)%N else if (p =? 8490)%N then 107%N else p.

(** [field.toLowerCase().replaceAll(/[-_.]/g, "")] *)
Definition normalize_field (field : string) : list N :=
  filter (λ p, p ∉ [45; 95; 46]%N) (lower_point <$> code_points field).

Definition isSecretField (field : string) : bool :=
  bool_decide (normalize_field field ∈ normalize_field <$> SECRET_FIELD_NAMES).

(** [s.replaceAll(pattern, replacement)]: the leftmost occurrences that do not
    overlap; [skip] characters belong to the last one. *)
Fixpoint replace_from (pattern replacement : string) (skip : nat) (s : string) : string :=
  match s with
  | "" => ""
  | String c s' =>
      match skip with
      | S k => replace_from pattern replacement k s'
      | 0 =>
          if String.prefix pattern s
          then replacement +:+ replace_from pattern replacement (String.length pattern - 1) s'
          else String c (replace_from pattern replacement 0 s')
      end
  end.
Definition replaceAll (pattern replacement s : string) : string := replace_from pattern replacement 0 s.

Definition redactString (value : string) (secretValues : list string) : string :=
  fold_left (λ redacted secret, replaceAll secret REDACTED_VALUE redacted) secretValues value.

Fixpoint redactJsonValue (secretValues : list string) (redactFieldNames : bool) (value : jsval) : jsval :=
  match value with
  | JStr s => JStr (redactString s secretValues)
  | JArr items => JArr (redactJsonValue secretValues redactFieldNames <$> items)
  | JObj fs =>
      JObj ((λ kv, (kv.1, if redactFieldNames && isSecretField kv.1 then JStr REDACTED_VALUE
                          else redactJsonValue secretValues redactFieldNames kv.2)) <$> fs)
  | v => v
  end.

(** [sort((left, right) => right.length - left.length)], which is stable. *)
Fixpoint insert_longest (s : string) (l : list string) : list string :=
  match l with
  | [] => [s]
  | t :: l' => if (js_length t <? js_length s)%Z then s :: l else t :: insert_longest s l'
  end.
Definition sort_longest (l : list string) : list string := fold_left (λ acc s, insert_longest s acc) l [].

(** [[...new Set(values)]] *)
Definition unique (l : list string) : list string :=
  fold_left (λ acc s, if bool_decide (s ∈ acc) then acc else acc ++ [s]) l [].

Inductive redaction_error :=
| RedactionInvalid (e : ProtocolValidationError)
| RedactionType (message : string).

Definition normalizeSecretValues (values : list string) : result redaction_error (list string) :=
  _ ← refuse (bool_decide ("" ∈ values)) (RedactionType "Secret values must be non-empty strings");
  Ok (sort_longest (unique values)).

(** The payload of an event, redacted.  In a tool schema the names of the fields
    are not read; its name and description are strings, on which
    [redactJsonValue] is [redactString]. *)
Definition redact_payload (type : string) (secrets : list string) (payload : fields) : fields :=
  if bool_decide (type = "tool.schema") then
    (λ kv, (kv.1, if bool_decide (kv.1 ∈ ["name"; "description"; "inputSchema"])
                  then redactJsonValue secrets false kv.2 else kv.2)) <$> payload
  else match redactJsonValue secrets true (JObj payload) with JObj fs => fs | _ => payload end.

Definition checked_event {A} (r : checked A) : result redaction_error A :=
  match r with Ok a => Ok a | Err e => Err (RedactionInvalid e) end.

Definition redactEventForStorage (value : jsval) (secretValues : list string) :
    result redaction_error EventEnvelope :=
  event ← checked_event (parseEvent value);
  secrets ← normalizeSecretValues secretValues;
  checked_event (parseEvent (envelope_value
    {| env_id := env_id event; env_sessionId := env_sessionId event; env_operationId := env_operationId event;
       env_parentId := env_parentId event; env_timestamp := env_timestamp event; env_type := env_type event;
       env_payload := redact_payload (env_type event) secrets (env_payload event) |})).

(** ** Strings *)

(** The mark is [[REDACTED]]; a value that has no bracket and is no part of the
    word cannot be read out of it. *)
Record unlike_mark (q : string) : Prop := {
  um_value : q ≠ "";
  um_open : "["%char ∉ String.list_ascii_of_string q;
  um_close : "]"%char ∉ String.list_ascii_of_string q;
  um_word : includes q "REDACTED" = false
}.

Section Strings.
#[local] Abbreviation chars := String.list_ascii_of_string.

Lemma prefix_break q b t r : b ∉ chars q → String.prefix q (t +:+ String b r) = true → String.prefix q t = true.
Proof.
  revert q; induction t as [|x t IH]; intros [|d q] Hb; simpl; try done.
  - destruct (ascii_dec d b) as [->|]; [|done]. exfalso. apply Hb. simpl. by left.
  - destruct (ascii_dec d x); [|done]. apply IH. intros Hin. apply Hb. simpl. by right.
Qed.

(** An occurrence without [b] in [a b r] is in [a] or in [r]. *)
Lemma includes_break q a b r :
  b ∉ chars q → q ≠ "" → includes q (a +:+ String b r) = true → includes q a = true ∨ includes q r = true.
Proof.
  intros Hb Hq. induction a as [|c a IH]; intros Hi.
  - apply orb_true_iff in Hi as [Hp|?]; [|by right]. apply (prefix_break q b "" r) in Hp; [|done]. by destruct q.
  - change (String.prefix q (String c a +:+ String b r) || includes q (a +:+ String b r) = true) in Hi.
    apply orb_true_iff in Hi as [Hp%prefix_break|Hi]; [|done|].
    + left. cbn [includes]. by rewrite Hp.
    + apply IH in Hi as [Hi|?]; [left|by right]. cbn [includes]. by rewrite Hi, orb_true_r.
Qed.

(** What is read at the front of a redacted string, and has no bracket, is read
    at the front of the original. *)
Lemma prefix_replaced q pattern s :
  "["%char ∉ chars q → String.prefix q (replace_from pattern REDACTED_VALUE 0 s) = true → String.prefix q s = true.
Proof.
  revert q; induction s as [|c s IH]; intros q Hq; [done|]. cbn [replace_from].
  destruct (String.prefix pattern (String c s)).
  - destruct q as [|d q]; [done|]. intros Hp. exfalso.
    change (String.prefix (String d q) (String "[" ("REDACTED]" +:+ replace_from pattern REDACTED_VALUE (String.length pattern - 1) s)) = true) in Hp.
    simpl in Hp. destruct (ascii_dec d "[") as [->|]; [|done]. apply Hq. simpl. by left.
  - destruct q as [|d q]; [done|]. simpl. destruct (ascii_dec d c); [|done]. apply IH.
    intros Hin. apply Hq. simpl. by right.
Qed.

Lemma includes_mark q t : unlike_mark q → includes q (REDACTED_VALUE +:+ t) = true → includes q t = true.
Proof.
  intros [Hne Ho Hc Hw] Hi. change (REDACTED_VALUE +:+ t) with ("" +:+ String "[" ("REDACTED" +:+ String "]" t)) in Hi.
  apply includes_break in Hi as [Hi|Hi]; [by destruct q|..|done|done].
  by apply includes_break in Hi as [Hi|Hi]; [congruence|..].
Qed.

(** Replacing never makes a value appear. *)
Lemma replace_absent q pattern skip s :
  unlike_mark q → includes q s = false → includes q (replace_from pattern REDACTED_VALUE skip s) = false.
Proof.
  intros Hq. revert skip; induction s as [|c s IH]; intros skip Hs; [done|].
  cbn [includes] in Hs. apply orb_false_iff in Hs as [Hp Hs]. cbn [replace_from].
  destruct skip as [|k]; [|by apply IH]. destruct (String.prefix pattern (String c s)).
  - apply not_true_iff_false. intros Hi%includes_mark; [|done]. by rewrite IH in Hi.
  - cbn [includes]. rewrite IH by done. rewrite orb_false_r. apply not_true_iff_false. intros Hi.
    assert (String.prefix q (String c s) = true) as Hp'; [|congruence].
    destruct q as [|d q]; [done|]. simpl in Hi |- *. destruct (ascii_dec d c); [|done].
    apply (prefix_replaced q pattern); [|done]. intros Hin. apply (um_open _ Hq). simpl. by right.
Qed.

(** And the replaced value is gone. *)
Lemma replace_gone q skip s : unlike_mark q → includes q (replace_from q REDACTED_VALUE skip s) = false.
Proof.
  intros Hq. revert skip; induction s as [|c s IH]; intros skip; [destruct q; [by destruct Hq|done]|].
  cbn [replace_from]. destruct skip as [|k]; [|by apply IH]. destruct (String.prefix q (String c s)) eqn:Hp.
  - apply not_true_iff_false. intros Hi%includes_mark; [|done]. by rewrite IH in Hi.
  - cbn [includes]. rewrite IH, orb_false_r. apply not_true_iff_false. intros Hi.
    assert (String.prefix q (String c s) = true) as Hp'; [|congruence].
    pose proof (um_open _ Hq) as Ho. clear Hp. 
    assert (∀ q', q' = q → String.prefix q' (String c (replace_from q REDACTED_VALUE 0 s)) = true →
      String.prefix q' (String c s) = true) as Hgen; [|by apply (Hgen q)].
    intros q' Hq' Hi'. destruct q' as [|d q']; [done|]. simpl in Hi' |- *. destruct (ascii_dec d c); [|done].
    apply (prefix_replaced q' q); [|done]. rewrite <- Hq' in Ho. intros Hin. apply Ho. simpl. by right.
Qed.

Lemma redactString_absent q secrets s :
  unlike_mark q → (q ∈ secrets ∨ includes q s = false) → includes q (redactString s secrets) = false.
Proof.
  intros Hq. unfold redactString. revert s; induction secrets as [|x secrets IH]; intros s; simpl.
  - by intros [?%elem_of_nil|?].
  - intros Hor. apply IH. destruct Hor as [[->|?]%elem_of_cons|?].
    + right. by apply replace_gone.
    + by left.
    + right. by apply replace_absent.
Qed.
End Strings.

(** ** Values *)

(** The strings of a value, and the values its fields with secret names hold. *)
Fixpoint strings_of (v : jsval) : list string :=
  match v with
  | JStr s => [s]
  | JArr items => mjoin (strings_of <$> items)
  | JObj fs => mjoin ((λ kv, strings_of kv.2) <$> fs)
  | _ => []
  end.
Fixpoint secret_fields (v : jsval) : list jsval :=
  match v with
  | JArr items => mjoin (secret_fields <$> items)
  | JObj fs => mjoin ((λ kv, (if isSecretField kv.1 then [kv.2] else []) ++ secret_fields kv.2) <$> fs)
  | _ => []
  end.

Section Values.
Context (secrets : list string) (q : string).
Context (Hq : unlike_mark q) (Hin : q ∈ secrets).

Lemma mark_free : includes q REDACTED_VALUE = false.
Proof.
  apply not_true_iff_false. intros Hi. rewrite <- (string_app_nil_r REDACTED_VALUE) in Hi.
  apply includes_mark in Hi; [|done]. destruct q; [by destruct Hq | done].
Qed.

Lemma redacted_strings names v :
  Forall (λ s, includes q s = false) (strings_of (redactJsonValue secrets names v)).
Proof.
  induction v as [| |b|n|s|l IH|fs IH|fs IH|] using jsval_rect'; try done; simpl.
  - apply Forall_singleton, redactString_absent; [done|by left].
  - rewrite <- list_fmap_compose. induction IH; [done|]. simpl. by apply Forall_app.
  - rewrite <- list_fmap_compose. induction IH as [|[k v] fs Hv _ IHf]; [done|]. simpl. apply Forall_app.
    split; [|done]. destruct (names && isSecretField k); [|done]. apply Forall_singleton, mark_free.
Qed.
End Values.

Lemma redacted_fields secrets v :
  Forall (λ x, x = JStr REDACTED_VALUE) (secret_fields (redactJsonValue secrets true v)).
Proof.
  induction v as [| |b|n|s|l IH|fs IH|fs IH|] using jsval_rect'; try done; simpl.
  - rewrite <- list_fmap_compose. induction IH; [done|]. simpl. by apply Forall_app.
  - rewrite <- list_fmap_compose. induction IH as [|[k v] fs Hv _ IHf]; [done|]. simpl. apply Forall_app.
    split; [|done]. destruct (isSecretField k); simpl; [by apply Forall_singleton | done].
Qed.

Lemma insert_longest_elem s t l : s ∈ insert_longest t l ↔ s = t ∨ s ∈ l.
Proof. induction l as [|u l IH]; simpl; [set_solver|]. case_match; [set_solver|]. rewrite !elem_of_cons, IH. tauto. Qed.

Lemma normalized_elem values secrets s : normalizeSecretValues values = Ok secrets → s ∈ secrets ↔ s ∈ values.
Proof.
  unfold normalizeSecretValues. intros H. apply bind_Ok in H as (u & _ & [= <-]). unfold sort_longest, unique.
  assert (Hs : ∀ l acc, s ∈ fold_left (λ acc s, insert_longest s acc) l acc ↔ s ∈ l ∨ s ∈ acc).
  { induction l as [|x l IH]; intros acc; simpl; [set_solver|]. rewrite IH, insert_longest_elem. set_solver. }
  assert (Hu : ∀ l acc, s ∈ fold_left (λ acc s, if bool_decide (s ∈ acc) then acc else acc ++ [s]) l acc ↔ s ∈ l ∨ s ∈ acc).
  { induction l as [|x l IH]; intros acc; simpl; [set_solver|]. rewrite IH. case_bool_decide; set_solver. }
  rewrite Hs, Hu. set_solver.
Qed.

Lemma exact_keys (value : fields) path required optional u :
  exact value path required optional = Ok u → Forall (λ k, k ∈ required ++ optional) (keys value).
Proof. unfold exact. intros H. apply bind_Ok in H as (? & H%each_elem_Ok & _). done. Qed.

(** What an event keeps, and the payload that is checked again. *)
Lemma redactEventForStorage_Ok value secretValues env :
  redactEventForStorage value secretValues = Ok env →
  ∃ e secrets parse, parseEvent value = Ok e ∧ normalizeSecretValues secretValues = Ok secrets ∧
    parser_of (env_type e) payloadParsers = Some parse ∧
    parse (redact_payload (env_type e) secrets (env_payload e)) "event.payload" = Ok (env_payload env) ∧
    env_id env = env_id e ∧ env_sessionId env = env_sessionId e ∧ env_operationId env = env_operationId e ∧
    env_parentId env = env_parentId e ∧ env_timestamp env = env_timestamp e ∧ env_type env = env_type e ∧
    parseEvent (envelope_value env) = Ok env.
Proof.
  unfold redactEventForStorage, checked_event. destruct (parseEvent value) as [e|] eqn:Ee; [|done].
  intros H. apply bind_Ok in H as (e' & [= <-] & H). apply bind_Ok in H as (secrets & Hs & H).
  match type of H with match parseEvent (envelope_value ?x) with _ => _ end = _ => set (e1 := x) in H end.
  destruct (parseEvent (envelope_value e1)) as [env'|] eqn:E1; [|done]. injection H as <-.
  pose proof (parseEvent_stable _ _ E1) as Hst.
  unfold parseEvent in E1. apply bind_Ok in E1 as (e2 & H2 & H3).
  assert (e2 = e1) as ->.
  { unfold parseEvent in Ee. apply bind_Ok in Ee as (en & [Hi Hses Ho Hp Ht Hty _]%parseEventEnvelope_sound & Ee).
    destruct (parser_of (env_type en) payloadParsers); [|done]. apply bind_Ok in Ee as (pl & _ & [= <-]).
    rewrite parseEventEnvelope_value in H2 by done. by apply bind_Ok in H2 as (? & _ & [= <-]). }
  change (env_type e1) with (env_type e) in H3. destruct (parser_of (env_type e) payloadParsers) as [parse|] eqn:Hp; [|done].
  apply bind_Ok in H3 as (payload & H3 & [= <-]). exists e, secrets, parse. done.
Qed.

(** C40: redaction takes every secret value out of what is stored: whatever the
    event and the secrets, no string value of the redacted payload, at any depth,
    contains a secret that has no bracket and is no part of the word REDACTED; no
    field under a secret name keeps its value (but in tool schemas, where names
    are not read); and the identity of the event, its place in the tree and its
    type do not change. *)
Theorem redaction_removes_secrets value secretValues env :
  redactEventForStorage value secretValues = Ok env →
  ∃ e payload path, parseEvent value = Ok e ∧
    (∃ parse, parser_of (env_type e) payloadParsers = Some parse ∧ parse payload path = Ok (env_payload env)) ∧
    (∀ q, q ∈ secretValues → unlike_mark q → Forall (λ s, includes q s = false) (strings_of (JObj payload))) ∧
    (env_type e ≠ "tool.schema" → Forall (λ x, x = JStr REDACTED_VALUE) (secret_fields (JObj payload))) ∧
    keys payload = keys (env_payload e) ∧
    env_id env = env_id e ∧ env_sessionId env = env_sessionId e ∧ env_operationId env = env_operationId e ∧
    env_parentId env = env_parentId e ∧ env_timestamp env = env_timestamp e ∧ env_type env = env_type e.
Proof.
  intros (e & secrets & parse & He & Hs & Hp & Hrun & ? & ? & ? & ? & ? & ? & _)%redactEventForStorage_Ok.
  exists e, (redact_payload (env_type e) secrets (env_payload e)), "event.payload".
  split; [done|]. split; [by exists parse|]. split_and!; try done.
  - intros q Hq Hmark. apply (normalized_elem _ _ q Hs) in Hq. unfold redact_payload. case_bool_decide as Ht.
    + assert (parse = parse_tool_schema) as -> by (rewrite Ht in Hp; by injection Hp as <-).
      unfold parse_tool_schema in Hrun. apply bind_Ok in Hrun as (u & Hk%exact_keys & _).
      unfold redact_payload in Hk. rewrite bool_decide_true in Hk by done. unfold keys in Hk.
      rewrite <- list_fmap_compose in Hk. rewrite app_nil_r in Hk. simpl. rewrite <- list_fmap_compose.
      induction (env_payload e) as [|[k v] fs IH]; [done|]. simpl in *. apply Forall_cons in Hk as [Hk1 Hk].
      apply Forall_app. split; [|by apply IH]. rewrite bool_decide_true by done. by apply redacted_strings.
    + exact (redacted_strings secrets q Hmark Hq true (JObj (env_payload e))).
  - intros Ht. unfold redact_payload. rewrite bool_decide_false by done.
    exact (redacted_fields secrets (JObj (env_payload e))).
  - unfold redact_payload, keys. case_bool_decide; simpl; rewrite <- list_fmap_compose; done.
Qed.

Definition secret_event : event :=
  {| ev_id := sample_id; ev_sessionId := sample_id; ev_operationId := None; ev_parentId := None; ev_timestamp := 7;
     ev_payload := ToolCall "1" "bash" [("command", JStr "login hunter2"); ("apiKey", JStr "x")] |}.
Definition redacted_event : event :=
  {| ev_id := sample_id; ev_sessionId := sample_id; ev_operationId := None; ev_parentId := None; ev_timestamp := 7;
     ev_payload := ToolCall "1" "bash" [("command", JStr "login [REDACTED]"); ("apiKey", JStr "[REDACTED]")] |}.

Lemma redaction_removes_secrets_witness :
  unlike_mark "hunter2" ∧
  redactEventForStorage (event_value secret_event) ["hunter2"] = Ok (event_envelope redacted_event) ∧
  ∃ e payload path, parseEvent (event_value secret_event) = Ok e ∧
    (∃ parse, parser_of (env_type e) payloadParsers = Some parse ∧
      parse payload path = Ok (env_payload (event_envelope redacted_event))) ∧
    (∀ q, q ∈ ["hunter2"] → unlike_mark q → Forall (λ s, includes q s = false) (strings_of (JObj payload))) ∧
    (env_type e ≠ "tool.schema" → Forall (λ x, x = JStr REDACTED_VALUE) (secret_fields (JObj payload))) ∧
    keys payload = keys (env_payload e) ∧
    env_id (event_envelope redacted_event) = env_id e ∧ env_sessionId (event_envelope redacted_event) = env_sessionId e ∧
    env_operationId (event_envelope redacted_event) = env_operationId e ∧
    env_parentId (event_envelope redacted_event) = env_parentId e ∧
    env_timestamp (event_envelope redacted_event) = env_timestamp e ∧
    env_type (event_envelope redacted_event) = env_type e.
Proof.
  split; [|split].
  - constructor; [discriminate|apply (bool_decide_unpack _); vm_compute; exact I..|vm_compute; reflexivity].
  - vm_compute. reflexivity.
  - apply (redaction_removes_secrets _ ["hunter2"]). vm_compute. reflexivity.
Defined.

(** the condition on the secret is needed: a secret that is part of the mark
    is found again in what is stored for it. *)
Theorem redaction_keeps_mark_fragments :
  redactString "the TED talk" ["TED"] = "the [REDACTED] talk" ∧
  includes "TED" (redactString "the TED talk" ["TED"]) = true.
Proof. vm_compute. done. Qed.
