(* ===== verification/EventLog.v ===== *)
(** kernel/src/jsonl-event-log.ts and protocol/src/canonical-event.ts: the log
    file of a session, one canonical event a line.

    The file is its bytes; what the file system answers to each call is given.
    The theorems: an append and a read are a round trip; a crash at any byte of an
    append costs at most the event being appended; an append that fails and rolls
    back leaves the file as it was; and what happens when the rollback fails too. *)
From stdpp Require Import base list sets strings pretty.
From Stdlib Require Import ZArith Lia Ascii.
From S2P Require Import Prelude Text JsValue Json JsonText Envelope Types ModelRequest Events EventSchema Redaction.

Definition MAX_CANONICAL_EVENT_BYTES : Z := 768 * 1024.

Record CanonicalEventSizeError := { cse_event : EventEnvelope; cse_encodedBytes : Z }.

Inductive decode_cause :=
| NotUtf8
| NotJson
| NotEvent (e : ProtocolValidationError).

Inductive log_error :=
| LogInvalid (e : ProtocolValidationError)
| LogRedaction (e : redaction_error)
| LogSize (e : CanonicalEventSizeError)
| LogPrepare (message : string)
| LogCorruption (line : nat) (cause : decode_cause)
| LogMigrationRequired (event : EventEnvelope) (encodedBytes : Z)
| LogIo
| LogAggregate.

(** ** Encoding *)

Inductive encode_error :=
| EncodeInvalid (e : ProtocolValidationError)
| EncodeSize (e : CanonicalEventSizeError).

Definition event_text (e : EventEnvelope) : string := json_text (envelope_value e).

Definition encodeCanonicalEvent (value : jsval) : result encode_error string :=
  match parseEvent value with
  | Err e => Err (EncodeInvalid e)
  | Ok event =>
      let encoded := event_text event in
      if (MAX_CANONICAL_EVENT_BYTES <? utf8_length encoded)%Z
      then Err (EncodeSize {| cse_event := event; cse_encodedBytes := utf8_length encoded |})
      else Ok encoded
  end.

(** ** Decoding *)

(** The byte order mark, which the decoder drops. *)
Definition byte_order_mark : string := utf8_encode 65279.
Definition strip_mark (s : string) : string :=
  if String.prefix byte_order_mark s then substring_from 3 s else s.

Definition decodeEventLine (lineNumber : nat) (line : string) (expectedSessionId : string) :
    result log_error EventEnvelope :=
  let corrupt cause := Err (LogCorruption lineNumber cause) in
  let oversized := (MAX_CANONICAL_EVENT_BYTES <? utf8_length line)%Z in
  if negb (utf8_valid line) then corrupt NotUtf8
  else
    match json_parse (strip_mark line) with
    | None => corrupt NotJson
    | Some v =>
        match parseEvent v with
        | Err e => corrupt (NotEvent e)
        | Ok event =>
            if negb (bool_decide (env_sessionId event = expectedSessionId)) then
              corrupt (NotEvent (invalid "event.sessionId" ("must match log session " +:+ expectedSessionId)))
            else if oversized then Err (LogMigrationRequired event (utf8_length line))
            else Ok event
        end
    end.

(** The committed lines, and what follows the last line feed. *)
Fixpoint split_lines (bytes : string) : list string * string :=
  match bytes with
  | "" => ([], "")
  | String c rest =>
      let (lines, tail) := split_lines rest in
      if is_newline c then ("" :: lines, tail)
      else match lines with
           | [] => ([], String c tail)
           | l :: lines' => (String c l :: lines', tail)
           end
  end.

Record DecodedEventLog := { del_events : list EventEnvelope; del_cleanByteLength : nat }.

Fixpoint decode_lines (lineNumber : nat) (lines : list string) (expectedSessionId : string) :
    result log_error (list EventEnvelope) :=
  match lines with
  | [] => Ok []
  | line :: rest =>
      e ← decodeEventLine lineNumber line expectedSessionId;
      events ← decode_lines (S lineNumber) rest expectedSessionId;
      Ok (e :: events)
  end.

Definition decodeEventLogBytes (bytes : string) (expectedSessionId : string) : result log_error DecodedEventLog :=
  let (lines, tail) := split_lines bytes in
  events ← decode_lines 1 lines expectedSessionId;
  Ok {| del_events := events; del_cleanByteLength := String.length bytes - String.length tail |}.

(** ** The file *)

(** What one [handle.write] does. *)
Inductive write_answer := Wrote (bytesWritten : nat) | WriteThrows.

(** What the file system answers during an operation. *)
Record io := {
  io_write : nat → write_answer;
  io_sync : bool;
  (** [truncate] of a rollback, or of a recovery, and the [sync] after it. *)
  io_truncate : bool;
  io_truncate_sync : bool
}.

(** [while (written < line.byteLength)]: every iteration writes at least a byte or
    throws, so the length of the line bounds them. *)
Fixpoint write_loop (fuel n : nat) (answers : nat → write_answer) (rest file : string) : bool * string :=
  match rest, fuel with
  | "", _ => (true, file)
  | _, 0 => (false, file)
  | _, S fuel' =>
      match answers n with
      | WriteThrows | Wrote 0 => (false, file)
      | Wrote k =>
          write_loop fuel' (S n) answers (substring_from k rest) (file +:+ String.substring 0 k rest)
      end
  end.

Definition appendDurably (line : string) (answers : io) (file : string) : result log_error unit * string :=
  let (written, file') := write_loop (String.length line) 0 (io_write answers) line file in
  if written && io_sync answers then (Ok tt, file')
  else if io_truncate answers then
    (Err (if io_truncate_sync answers then LogIo else LogAggregate), file)
  else (Err LogAggregate, file').

Record EventLogReadResult := { rr_events : list EventEnvelope; rr_recoveredBytes : nat }.

Definition readAndRecover (expectedSessionId : string) (answers : io) (file : string) :
    result log_error EventLogReadResult * string :=
  match decodeEventLogBytes file expectedSessionId with
  | Err e => (Err e, file)
  | Ok d =>
      let recovered := String.length file - del_cleanByteLength d in
      let r := {| rr_events := del_events d; rr_recoveredBytes := recovered |} in
      if 0 <? recovered then
        if io_truncate answers then
          (if io_truncate_sync answers then Ok r else Err LogIo, String.substring 0 (del_cleanByteLength d) file)
        else (Err LogIo, file)
      else (Ok r, file)
  end.

(** [ensureLogFile] and the first [read]; [None]: there is no file. *)
Definition open_log (sessionId : jsval) (answers : io) (file : option string) :
    result log_error (string * EventLogReadResult) * option string :=
  match parseSessionId sessionId "sessionId" with
  | Err e => (Err (LogInvalid e), file)
  | Ok sid =>
      let (r, file') := readAndRecover sid answers (default "" file) in
      (match r with Ok x => Ok (sid, x) | Err e => Err e end, Some file')
  end.

(** ** Appending *)

Record EventLogOptions := {
  elo_secretValues : list string;
  elo_prepareEvent : option (EventEnvelope → result log_error jsval);
  elo_prepareOversizedEvent : option (EventEnvelope → result log_error jsval)
}.

Section Append.
Context (options : EventLogOptions) (sessionId : string).

Definition own_session (event : EventEnvelope) : result log_error unit :=
  require (bool_decide (env_sessionId event = sessionId))
    (LogInvalid (invalid "event.sessionId" ("must match log session " +:+ sessionId))).

Definition reparse (value : jsval) : result log_error EventEnvelope :=
  match parseEvent value with Ok e => Ok e | Err e => Err (LogInvalid e) end.

(** The event to store and its line, before it is written. *)
Definition prepare (value : jsval) : result log_error (EventEnvelope * string) :=
  redacted ← match redactEventForStorage value (elo_secretValues options) with
             | Ok e => Ok e | Err e => Err (LogRedaction e) end;
  _ ← own_session redacted;
  event ← match elo_prepareEvent options with
          | None => Ok redacted
          | Some f => v ← f redacted; reparse v
          end;
  _ ← own_session event;
  match encodeCanonicalEvent (envelope_value event) with
  | Ok encoded => Ok (event, encoded)
  | Err (EncodeInvalid e) => Err (LogInvalid e)
  | Err (EncodeSize e) =>
      match elo_prepareOversizedEvent options with
      | None => Err (LogSize e)
      | Some f =>
          v ← f event;
          event ← reparse v;
          _ ← own_session event;
          match encodeCanonicalEvent (envelope_value event) with
          | Ok encoded => Ok (event, encoded)
          | Err (EncodeInvalid e) => Err (LogInvalid e)
          | Err (EncodeSize e) => Err (LogSize e)
          end
      end
  end.

Definition append (value : jsval) (answers : io) (file : string) : result log_error EventEnvelope * string :=
  match prepare value with
  | Err e => (Err e, file)
  | Ok (event, encoded) =>
      match appendDurably (encoded +:+ chr 10) answers file with
      | (Ok _, file') => (Ok event, file')
      | (Err e, file') => (Err e, file')
      end
  end.
End Append.

(** ** Lines *)

Definition line_of (e : EventEnvelope) : string := event_text e +:+ chr 10.
Definition file_of (events : list EventEnvelope) : string := String.concat "" (line_of <$> events).

(** An event a file can hold: one [parseEvent] accepts, of the session, within the
    size limit, with a text that stands for it. *)
Record storable (sid : string) (e : EventEnvelope) : Prop := {
  sto_parses : parseEvent (envelope_value e) = Ok e;
  sto_session : env_sessionId e = sid;
  sto_clean : json_clean (envelope_value e) = true;
  sto_size : (utf8_length (event_text e) <= MAX_CANONICAL_EVENT_BYTES)%Z
}.

Section Lines.
Lemma split_line l nl rest :
  is_newline nl = true → one_line l = true →
  split_lines (l +:+ String nl rest) = (l :: (split_lines rest).1, (split_lines rest).2).
Proof.
  intros Hn. unfold one_line. induction l as [|c l IH]; simpl.
  - intros _. rewrite Hn. by destruct (split_lines rest).
  - intros [Hc%negb_true_iff Hl]%andb_true_iff. rewrite IH by done. by rewrite Hc.
Qed.

Lemma split_tail t : one_line t = true → split_lines t = ([], t).
Proof.
  unfold one_line. induction t as [|c t IH]; [done|]. simpl. intros [Hc%negb_true_iff Ht]%andb_true_iff.
  by rewrite IH, Hc by done.
Qed.

Lemma file_of_cons e events : file_of (e :: events) = event_text e +:+ String (char_of 10) (file_of events).
Proof.
  unfold file_of. assert (H : ∀ t l, String.concat "" (t :: l) = t +:+ String.concat "" l).
  { intros t [|t' l]; [by rewrite string_app_nil_r | done]. }
  cbn [fmap list_fmap]. rewrite H. unfold line_of. by rewrite <- string_app_assoc.
Qed.

Lemma file_of_snoc events e : file_of (events ++ [e]) = file_of events +:+ line_of e.
Proof.
  induction events as [|x events IH]; [done|].
  rewrite <- app_comm_cons, !file_of_cons, IH, <- string_app_assoc. done.
Qed.

Lemma event_text_line e : json_clean (envelope_value e) = true → line_ok (event_text e).
Proof. apply text_line. Qed.

(** The lines of a file with a torn tail. *)
Lemma split_file sid events t :
  Forall (storable sid) events → one_line t = true →
  split_lines (file_of events +:+ t) = (event_text <$> events, t).
Proof.
  intros He Ht. induction He as [|e events H _ IH]; [by apply split_tail|].
  rewrite file_of_cons, <- string_app_assoc.
  change (String (char_of 10) (file_of events) +:+ t) with (String (char_of 10) (file_of events +:+ t)).
  rewrite split_line by (done || apply event_text_line, H). by rewrite IH.
Qed.

Lemma strip_event_text e : strip_mark (event_text e) = event_text e.
Proof. done. Qed.

Lemma decode_event_text n sid e : storable sid e → decodeEventLine n (event_text e) sid = Ok e.
Proof.
  intros [Hp Hs Hc Hz]. unfold decodeEventLine. destruct (event_text_line e Hc) as [Hu _]. rewrite Hu. cbn [negb].
  rewrite strip_event_text. unfold event_text at 1. rewrite json_parse_text by done. rewrite Hp.
  rewrite bool_decide_true by done. cbn [negb]. by rewrite (proj2 (Z.ltb_ge _ _) Hz).
Qed.

Lemma decode_lines_file n sid events :
  Forall (storable sid) events → decode_lines n (event_text <$> events) sid = Ok events.
Proof.
  intros He. revert n. induction He as [|e events H _ IH]; intros n; [done|]. cbn [fmap list_fmap decode_lines].
  rewrite decode_event_text by done. cbn [rbind]. by rewrite IH.
Qed.

Lemma decode_file sid events t :
  Forall (storable sid) events → one_line t = true →
  decodeEventLogBytes (file_of events +:+ t) sid =
    Ok {| del_events := events; del_cleanByteLength := String.length (file_of events) |}.
Proof.
  intros He Ht. unfold decodeEventLogBytes. rewrite (split_file sid) by done. rewrite decode_lines_file by done.
  cbn [rbind]. do 2 f_equal. rewrite string_length_app. lia.
Qed.

Lemma substring_prefix a b : String.substring 0 (String.length a) (a +:+ b) = a.
Proof. induction a as [|c a IH]; [by destruct b|]. simpl. by rewrite IH. Qed.

(** Reading a file with a torn tail gives its events and drops the tail. *)
Lemma read_file sid answers events t :
  Forall (storable sid) events → one_line t = true →
  io_truncate answers = true → io_truncate_sync answers = true →
  readAndRecover sid answers (file_of events +:+ t) =
    (Ok {| rr_events := events; rr_recoveredBytes := String.length t |}, file_of events).
Proof.
  intros He Ht H1 H2. unfold readAndRecover. rewrite decode_file by done. cbn [del_cleanByteLength del_events].
  rewrite string_length_app, H1, H2.
  replace (String.length (file_of events) + String.length t - String.length (file_of events))
    with (String.length t) by lia.
  destruct t as [|c t]; [by rewrite string_app_nil_r|]. simpl. by rewrite substring_prefix.
Qed.
End Lines.

(** ** Writing *)

Section Writing.
Lemma substring_split k s : String.substring 0 k s +:+ substring_from k s = s.
Proof.
  unfold substring_from. revert k; induction s as [|c s IH]; intros [|k]; simpl; try done.
  - by rewrite substring_all.
  - by rewrite IH.
Qed.

Lemma substring_from_length k s : 0 < k → s ≠ "" → String.length (substring_from k s) < String.length s.
Proof.
  intros Hk Hs. pose proof (f_equal String.length (substring_split k s)) as H.
  rewrite string_length_app in H. destruct s as [|c s]; [done|]. destruct k as [|k]; [lia|]. simpl in *. lia.
Qed.

Lemma substring_twice k j s :
  String.substring 0 k s +:+ String.substring 0 j (substring_from k s) =
  String.substring 0 (String.length (String.substring 0 k s) + j) s.
Proof.
  unfold substring_from. revert k; induction s as [|c s IH]; intros [|k]; simpl; try done.
  - destruct j; [done|]. by rewrite substring_all.
  - by rewrite IH.
Qed.

(** The loop writes a prefix of the line, and all of it unless a call fails. *)
Lemma write_loop_spec fuel n answers rest file :
  String.length rest ≤ fuel →
  match write_loop fuel n answers rest file with
  | (true, file') => file' = file +:+ rest
  | (false, file') =>
      (∃ k, k < String.length rest ∧ file' = file +:+ String.substring 0 k rest) ∧
      (∃ i, answers i = WriteThrows ∨ answers i = Wrote 0)
  end.
Proof.
  revert n rest file; induction fuel as [|fuel IH]; intros n rest file Hf; destruct rest as [|c rest];
    cbn [write_loop]; try (by rewrite string_app_nil_r); [simpl in Hf; lia|].
  set (r := String c rest) in *.
  destruct (answers n) as [[|k]|] eqn:Ea;
    try (split; [exists 0; split; [simpl; lia | by rewrite string_app_nil_r] | exists n; auto]).
  assert (String.length (substring_from (S k) r) < String.length r) by (apply substring_from_length; [lia|done]).
  specialize (IH (S n) (substring_from (S k) r) (file +:+ String.substring 0 (S k) r) ltac:(lia)).
  destruct (write_loop _ _ _ _ _) as [[|] file'].
  - rewrite IH, <- string_app_assoc. by rewrite substring_split.
  - destruct IH as [(j & Hj & ->) Hans]. split; [|done]. exists (String.length (String.substring 0 (S k) r) + j). split.
    + pose proof (f_equal String.length (substring_split (S k) r)) as Hl. rewrite string_length_app in Hl. lia.
    + rewrite <- string_app_assoc. f_equal.
      by apply substring_twice.
Qed.
End Writing.

(** What an append makes of the file. *)
Lemma appendDurably_spec line answers file :
  match appendDurably line answers file with
  | (Ok _, file') => file' = file +:+ line
  | (Err LogIo, file') => file' = file
  | (Err _, file') => ∃ k, k ≤ String.length line ∧ file' = file +:+ String.substring 0 k line
  end.
Proof.
  unfold appendDurably. pose proof (write_loop_spec (String.length line) 0 (io_write answers) line file ltac:(lia)) as H.
  destruct (write_loop _ _ _ _ _) as [[|] file'].
  - destruct (io_sync answers); [done|]. simpl. destruct (io_truncate answers).
    + destruct (io_truncate_sync answers); [done|]. exists 0. split; [lia|]. destruct line; by rewrite string_app_nil_r.
    + exists (String.length line). split; [done|]. by rewrite substring_all.
  - destruct H as [(k & Hk & ->) _]. simpl. destruct (io_truncate answers).
    + destruct (io_truncate_sync answers); [done|]. exists 0. split; [lia|]. destruct line; by rewrite string_app_nil_r.
    + exists k. split; [lia|done].
Qed.

Lemma encode_Ok v encoded :
  encodeCanonicalEvent v = Ok encoded →
  ∃ e, parseEvent v = Ok e ∧ encoded = event_text e ∧ (utf8_length encoded <= MAX_CANONICAL_EVENT_BYTES)%Z.
Proof.
  unfold encodeCanonicalEvent. destruct (parseEvent v) as [e|]; [|done]. case_match eqn:Hz; [done|].
  intros [= <-]. exists e. split_and!; [done..|]. apply Z.ltb_ge in Hz. exact Hz.
Qed.

(** What is written is the line of an event that parses, of this session, within
    the limit. *)
Lemma prepare_Ok options sid value event encoded :
  prepare options sid value = Ok (event, encoded) →
  encoded = event_text event ∧ parseEvent (envelope_value event) = Ok event ∧ env_sessionId event = sid ∧
  (utf8_length encoded <= MAX_CANONICAL_EVENT_BYTES)%Z.
Proof.
  assert (Hown : ∀ e u, own_session sid e = Ok u → env_sessionId e = sid).
  { intros e u H. unfold own_session in H. by apply require_Ok, bool_decide_eq_true in H. }
  assert (Hre : ∀ v e, reparse v = Ok e → parseEvent (envelope_value e) = Ok e).
  { intros v e. unfold reparse. destruct (parseEvent v) eqn:E; [|done]. intros [= <-]. by eapply parseEvent_stable. }
  assert (Hdone : ∀ e enc, parseEvent (envelope_value e) = Ok e → env_sessionId e = sid →
    encodeCanonicalEvent (envelope_value e) = Ok enc →
    enc = event_text e ∧ parseEvent (envelope_value e) = Ok e ∧ env_sessionId e = sid ∧
    (utf8_length enc <= MAX_CANONICAL_EVENT_BYTES)%Z).
  { intros e enc Hp Hs (e' & He' & -> & Hz)%encode_Ok. rewrite Hp in He'. by injection He' as <-. }
  unfold prepare. intros H. apply bind_Ok in H as (redacted & Hr & H).
  assert (parseEvent (envelope_value redacted) = Ok redacted) as Hpr.
  { destruct (redactEventForStorage _ _) eqn:E; [|done]. injection Hr as ->.
    by apply redactEventForStorage_Ok in E as (? & ? & ? & _ & _ & _ & _ & _ & _ & _ & _ & _ & _ & ?). }
  apply bind_Ok in H as (u1 & H1%Hown & H). apply bind_Ok in H as (e & He & H).
  apply bind_Ok in H as (u2 & H2%Hown & H).
  assert (parseEvent (envelope_value e) = Ok e) as Hpe.
  { destruct (elo_prepareEvent options); [|by injection He as <-]. apply bind_Ok in He as (v & _ & He). by eapply Hre. }
  destruct (encodeCanonicalEvent (envelope_value e)) as [enc|[|size]] eqn:Ee; [|done|].
  - injection H as <- <-. by apply Hdone.
  - destruct (elo_prepareOversizedEvent options); [|done].
    apply bind_Ok in H as (v & _ & H). apply bind_Ok in H as (e' & He'%Hre & H).
    apply bind_Ok in H as (u3 & H3%Hown & H).
    destruct (encodeCanonicalEvent (envelope_value e')) as [enc|[]] eqn:Ee'; try done.
    injection H as <- <-. by apply Hdone.
Qed.

(** C4: storing an event and reading the log is a round trip: an append that
    returns adds one line, and a read then gives the events the file held followed
    by exactly the event the append returned, whatever the redaction and the
    preparations made of it, however the writes were cut up. *)
Theorem append_read_roundtrip options sid value answers answers' events event file' :
  Forall (storable sid) events →
  append options sid value answers (file_of events) = (Ok event, file') →
  json_clean (envelope_value event) = true →
  file' = file_of (events ++ [event]) ∧ storable sid event ∧
  readAndRecover sid answers' file' = (Ok {| rr_events := events ++ [event]; rr_recoveredBytes := 0 |}, file').
Proof.
  intros He Ha Hc. unfold append in Ha. destruct (prepare options sid value) as [[e encoded]|] eqn:Ep; [|done].
  apply prepare_Ok in Ep as (-> & Hp & Hs & Hz).
  pose proof (appendDurably_spec (event_text e +:+ chr 10) answers (file_of events)) as Hw.
  destruct (appendDurably _ _ _) as [[[]|err] f]; [|done]. injection Ha as <- <-.
  assert (storable sid e) as Hst by done.
  change (event_text e +:+ chr 10) with (line_of e) in Hw. rewrite <- file_of_snoc in Hw. subst f.
  split_and!; [done..|].
  assert (Forall (storable sid) (events ++ [e])) as Hall by (apply Forall_app; split; [done | by apply Forall_singleton]).
  pose proof (decode_file sid (events ++ [e]) "" Hall eq_refl) as Hd. rewrite string_app_nil_r in Hd.
  unfold readAndRecover. rewrite Hd. cbn [del_cleanByteLength del_events]. by rewrite Nat.sub_diag.
Qed.

Definition sample_io : io :=
  {| io_write n := Wrote 7; io_sync := true; io_truncate := true; io_truncate_sync := true |}.
Definition sample_options : EventLogOptions :=
  {| elo_secretValues := ["hunter2"]; elo_prepareEvent := None; elo_prepareOversizedEvent := None |}.

Lemma append_read_roundtrip_witness :
  ∃ file', append sample_options sample_id (event_value secret_event) sample_io (file_of [])
           = (Ok (event_envelope redacted_event), file') ∧
  file' = file_of ([] ++ [event_envelope redacted_event]) ∧ storable sample_id (event_envelope redacted_event) ∧
  readAndRecover sample_id sample_io file' =
    (Ok {| rr_events := [] ++ [event_envelope redacted_event]; rr_recoveredBytes := 0 |}, file').
Proof.
  eexists. split; [vm_compute; reflexivity|].
  apply (append_read_roundtrip sample_options sample_id (event_value secret_event) sample_io sample_io []);
    [constructor | vm_compute; reflexivity | vm_compute; reflexivity].
Defined.

Lemma one_line_substring k l s : one_line l = true → k ≤ String.length l →
  one_line (String.substring 0 k (l +:+ s)) = true.
Proof.
  unfold one_line. revert k; induction l as [|c l IH]; intros [|k]; simpl; try done; [by destruct s|lia|].
  intros [-> Hl]%andb_true_iff Hk. apply IH; [done|lia].
Qed.

(** C5: a crash in the middle of an append costs at most the event being appended:
    if any number of bytes of its line reached the file, the next read gives
    exactly the events before it (with it, when the whole line did), and leaves a
    file without a torn tail. *)
Theorem crash_recovers sid answers events e k :
  Forall (storable sid) events → storable sid e → k ≤ String.length (line_of e) →
  io_truncate answers = true → io_truncate_sync answers = true →
  let kept := if decide (k = String.length (line_of e)) then events ++ [e] else events in
  ∃ recovered,
    readAndRecover sid answers (file_of events +:+ String.substring 0 k (line_of e)) =
      (Ok {| rr_events := kept; rr_recoveredBytes := recovered |}, file_of kept).
Proof.
  intros He Hst Hk H1 H2 kept. unfold kept. case_decide as Hd.
  - subst k. rewrite substring_all, <- file_of_snoc. exists 0.
    rewrite <- (string_app_nil_r (file_of (events ++ [e]))) at 1. apply (read_file sid answers); [|done..].
    apply Forall_app. split; [done | by apply Forall_singleton].
  - eexists. apply read_file; [done| |done|done]. unfold line_of in *. rewrite string_length_app in Hk, Hd.
    change (String.length (chr 10)) with 1 in Hk, Hd.
    apply one_line_substring; [by apply event_text_line, Hst | lia].
Qed.

Lemma redacted_storable : storable sample_id (event_envelope redacted_event).
Proof. constructor; [vm_compute; reflexivity..| apply Z.leb_le; vm_compute; reflexivity]. Qed.

Lemma crash_recovers_witness :
  ∃ recovered,
    readAndRecover sample_id sample_io
      (file_of [event_envelope redacted_event] +:+ String.substring 0 20 (line_of (event_envelope redacted_event))) =
      (Ok {| rr_events := [event_envelope redacted_event]; rr_recoveredBytes := recovered |},
       file_of [event_envelope redacted_event]).
Proof.
  apply (crash_recovers sample_id sample_io [event_envelope redacted_event] (event_envelope redacted_event) 20);
    [by apply Forall_singleton, redacted_storable | apply redacted_storable | apply Nat.leb_le; vm_compute; reflexivity
    | reflexivity | reflexivity].
Defined.

(** an append whose write or sync fails leaves the file byte for byte as it was
    when the rollback succeeds; the write loop itself ends after at most a call a
    byte. *)
Theorem failed_append_rolls_back options sid value answers file err file' :
  append options sid value answers file = (Err err, file') →
  io_truncate answers = true → file' = file.
Proof.
  unfold append. destruct (prepare options sid value) as [[e encoded]|]; [|by intros [= _ <-]].
  unfold appendDurably. destruct (write_loop _ _ _ _ _) as [w f]. intros H Ht. rewrite Ht in H.
  destruct (w && io_sync answers); [done|]. by injection H as _ <-.
Qed.

Definition broken_io (truncates : bool) : io :=
  {| io_write n := match n with 0 => Wrote 9 | _ => WriteThrows end; io_sync := true; io_truncate := truncates;
     io_truncate_sync := true |}.

Lemma failed_append_rolls_back_witness :
  ∃ err file', append sample_options sample_id (event_value secret_event) (broken_io true) "" = (Err err, file') ∧ file' = "".
Proof.
  eexists _, _. split; [vm_compute; reflexivity|].
  eapply (failed_append_rolls_back sample_options sample_id (event_value secret_event) (broken_io true));
    [vm_compute; reflexivity | reflexivity].
Defined.

(** when the rollback fails too, the torn bytes stay, and the session does not
    notice: the next append is written after them and returns, but its line is now
    part of a corrupt one, and from then on no read succeeds: the log has lost an
    event it reported as stored, and cannot be opened. *)
Theorem failed_rollback_corrupts :
  let torn := append sample_options sample_id (event_value secret_event) (broken_io false) "" in
  let next := append sample_options sample_id (event_value secret_event) sample_io torn.2 in
  is_ok torn.1 = false ∧ next.1 = Ok (event_envelope redacted_event) ∧
  readAndRecover sample_id sample_io next.2 = (Err (LogCorruption 1 NotJson), next.2) ∧
  (open_log (JStr sample_id) sample_io (Some next.2)).1 = Err (LogCorruption 1 NotJson).
Proof. vm_compute. done. Qed.

(** ** Reading what others wrote *)

Lemma decodeEventLine_Ok n line sid e :
  decodeEventLine n line sid = Ok e →
  env_sessionId e = sid ∧ utf8_valid line = true ∧ (utf8_length line <= MAX_CANONICAL_EVENT_BYTES)%Z ∧
  parseEvent (envelope_value e) = Ok e.
Proof.
  unfold decodeEventLine. destruct (utf8_valid line); [|done]. cbn [negb].
  destruct (json_parse _); [|done]. destruct (parseEvent j) eqn:Ep; [|done].
  case_bool_decide as Hs; [|done]. cbn [negb]. destruct (Z.ltb_spec MAX_CANONICAL_EVENT_BYTES (utf8_length line)); [done|].
  intros [= <-]. split_and!; [done..|]. by eapply parseEvent_stable.
Qed.

Lemma decode_lines_spec n lines sid :
  match decode_lines n lines sid with
  | Ok events => length events = length lines ∧
      ∀ i line e, lines !! i = Some line → events !! i = Some e → decodeEventLine (n + i) line sid = Ok e
  | Err err => ∃ i line, lines !! i = Some line ∧ decodeEventLine (n + i) line sid = Err err ∧
      ∀ j l, j < i → lines !! j = Some l → ∃ e, decodeEventLine (n + j) l sid = Ok e
  end.
Proof.
  revert n; induction lines as [|line lines IH]; intros n; cbn [decode_lines]; [by split|].
  destruct (decodeEventLine n line sid) as [e|err] eqn:El; cbn [rbind].
  - specialize (IH (S n)). destruct (decode_lines (S n) lines sid) as [events|err]; cbn [rbind].
    + destruct IH as [Hlen Hall]. split; [by simpl; f_equal|]. intros [|i] l x; simpl.
      * intros [= <-] [= <-]. by rewrite Nat.add_0_r.
      * intros Hl Hx. rewrite Nat.add_succ_r. by apply (Hall i).
    + destruct IH as (i & l & Hl & Hd & Hbefore). exists (S i), l. split_and!; [done|by rewrite Nat.add_succ_r|].
      intros [|j] l' Hj; simpl; [intros [= <-]; rewrite Nat.add_0_r; by exists e|].
      rewrite Nat.add_succ_r. apply Hbefore. lia.
  - exists 0, line. rewrite Nat.add_0_r. split_and!; [done..|]. lia.
Qed.

(** the reader trusts no byte: on any bytes it gives one event for every line,
    each parsed, of the session it was asked for and no longer than the limit, or
    refuses at the first line that is not one, and counts lines from one; what
    follows the last line feed is never read as an event. *)
Theorem decode_untrusted bytes sid :
  match decodeEventLogBytes bytes sid with
  | Ok d =>
      length (del_events d) = length (split_lines bytes).1 ∧
      Forall (λ e, env_sessionId e = sid ∧ parseEvent (envelope_value e) = Ok e) (del_events d) ∧
      Forall (λ l, utf8_valid l = true ∧ (utf8_length l <= MAX_CANONICAL_EVENT_BYTES)%Z) (split_lines bytes).1
  | Err err =>
      ∃ i line, (split_lines bytes).1 !! i = Some line ∧ decodeEventLine (S i) line sid = Err err ∧
        ∀ j l, j < i → (split_lines bytes).1 !! j = Some l → ∃ e, decodeEventLine (S j) l sid = Ok e
  end.
Proof.
  unfold decodeEventLogBytes. destruct (split_lines bytes) as [lines tail].
  pose proof (decode_lines_spec 1 lines sid) as H. destruct (decode_lines 1 lines sid) as [events|err]; cbn [rbind].
  - destruct H as [Hlen Hall]. cbn [del_events fst].
    assert (Hz : ∀ i e l, events !! i = Some e → lines !! i = Some l → decodeEventLine (1 + i) l sid = Ok e) by eauto.
    split_and!; [done|..].
    + apply Forall_lookup. intros i e He. destruct (lines !! i) as [l|] eqn:El.
      * by destruct (decodeEventLine_Ok _ _ _ _ (Hz _ _ _ He El)) as (? & _ & _ & ?).
      * apply lookup_lt_Some in He. apply lookup_ge_None in El. lia.
    + apply Forall_lookup. intros i l El. destruct (events !! i) as [e|] eqn:He.
      * by destruct (decodeEventLine_Ok _ _ _ _ (Hz _ _ _ He El)) as (_ & ? & ? & _).
      * apply lookup_lt_Some in El. apply lookup_ge_None in He. lia.
  - exact H.
Qed.
