(* ===== verification/CommandJournal.v ===== *)
(** daemon/src/command-journal.ts: the durable journal that makes retried commands
    idempotent: its records, the file they are appended to, opening it, reconciling
    what a crash left open, and the execution of commands by requests that overlap
    in any way, as a step relation. *)
From stdpp Require Import base list sets strings pretty relations.
From Stdlib Require Import ZArith Lia Ascii.
From S2P Require Import Prelude Text JsValue Json JsonText Utf8 Envelope JsMap WireTables EventLog.

(** ** Records *)

Record CommandFailure := {
  cf_code : string;
  cf_message : string;
  cf_retryable : bool;
  cf_details : option fields
}.
#[export] Instance CommandFailure_eq_dec : EqDecision CommandFailure.
Proof. solve_decision. Defined.

Record CommandAcceptance := {
  ca_idempotencyKey : string;
  ca_method : string;
  ca_requestHash : string;
  ca_targetSessionId : option string;
  ca_intendedSessionId : option string;
  ca_affectedOperationId : option string;
  ca_interactionId : option string;
  ca_operationId : string;
  ca_acceptedAt : Z
}.
#[export] Instance CommandAcceptance_eq_dec : EqDecision CommandAcceptance.
Proof. solve_decision. Defined.

Inductive CommandCompletion :=
| Succeeded (idempotencyKey : string) (value : jsval) (completedAt : Z)
| Failed (idempotencyKey : string) (error : CommandFailure) (completedAt : Z).
#[export] Instance CommandCompletion_eq_dec : EqDecision CommandCompletion.
Proof. solve_decision. Defined.

Inductive CommandRecord := Accepted (a : CommandAcceptance) | Completed (c : CommandCompletion).

Definition completion_key (c : CommandCompletion) : string :=
  match c with Succeeded k _ _ | Failed k _ _ => k end.
Definition record_key (r : CommandRecord) : string :=
  match r with Accepted a => ca_idempotencyKey a | Completed c => completion_key c end.

(** The objects the code builds, in the order of their literals. *)
Definition failure_value (e : CommandFailure) : jsval :=
  JObj ([("code", JStr (cf_code e)); ("message", JStr (cf_message e)); ("retryable", JBool (cf_retryable e))]
        ++ opt_field "details" (JObj <$> cf_details e)).

Definition opt_id (k : string) (v : option string) : fields := opt_field k (JStr <$> v).

Definition record_fields (r : CommandRecord) : fields :=
  match r with
  | Accepted a =>
      [("version", JInt 1); ("type", JStr "accepted"); ("idempotencyKey", JStr (ca_idempotencyKey a));
       ("method", JStr (ca_method a)); ("requestHash", JStr (ca_requestHash a))]
      ++ opt_id "targetSessionId" (ca_targetSessionId a) ++ opt_id "intendedSessionId" (ca_intendedSessionId a)
      ++ opt_id "affectedOperationId" (ca_affectedOperationId a) ++ opt_id "interactionId" (ca_interactionId a)
      ++ [("operationId", JStr (ca_operationId a)); ("acceptedAt", JInt (ca_acceptedAt a))]
  | Completed (Succeeded key value at_) =>
      [("version", JInt 1); ("type", JStr "succeeded"); ("idempotencyKey", JStr key); ("result", value);
       ("completedAt", JInt at_)]
  | Completed (Failed key error at_) =>
      [("version", JInt 1); ("type", JStr "failed"); ("idempotencyKey", JStr key); ("error", failure_value error);
       ("completedAt", JInt at_)]
  end.
Definition record_value (r : CommandRecord) : jsval := JObj (record_fields r).

(** ** Parsing records *)

Inductive journal_error :=
| JournalError (message : string)
| JournalInvalid (e : ProtocolValidationError)
| JournalIo
| CommandJournalError (code message : string) (retryable : bool) (details : option fields).

Definition journal_checked {A} (r : checked A) : result journal_error A :=
  match r with Ok a => Ok a | Err e => Err (JournalInvalid e) end.

Definition object (value : jsval) (path : string) : result journal_error fields :=
  match value with
  | JObj fs | JInst fs => Ok fs
  | _ => Err (JournalError (path +:+ " must be an object"))
  end.

Definition exact (value : fields) (path : string) (allowed : list string) : result journal_error unit :=
  each (λ key, require (bool_decide (key ∈ allowed)) (JournalError (path +:+ "." +:+ key +:+ " is not allowed"))) (keys value).

Definition timestamp (value : jsval) (path : string) : result journal_error Z :=
  _ ← require (safe_int value && (0 <=? int_val value)%Z) (JournalError (path +:+ " must be a non-negative safe integer"));
  Ok (int_val value).

Definition non_empty_string (value : jsval) (message : string) : result journal_error string :=
  match value with
  | JStr s => _ ← refuse (bool_decide (s = "")) (JournalError message); Ok s
  | _ => Err (JournalError message)
  end.

Definition parseFailure (value : jsval) (path : string) : result journal_error CommandFailure :=
  error ← object value path;
  _ ← exact error path ["code"; "message"; "retryable"; "details"];
  c ← non_empty_string (get "code" error) (path +:+ ".code must be a non-empty string");
  message ← non_empty_string (get "message" error) (path +:+ ".message must be a non-empty string");
  _ ← match get "retryable" error with
      | JBool b => Ok b
      | _ => Err (JournalError (path +:+ ".retryable must be boolean"))
      end;
  details ← match get "details" error with
            | JUndef => Ok None
            | JObj fs | JInst fs => Ok (Some fs)
            | _ => Err (JournalError (path +:+ ".details must be an object"))
            end;
  Ok {| cf_code := c; cf_message := message; cf_retryable := isRpcErrorRetryable c; cf_details := details |}.

Definition optional_field {A} (value : jsval) (parse : jsval → result journal_error A) : result journal_error (option A) :=
  if is_undef value then Ok None else a ← parse value; Ok (Some a).

Definition sha256_digest : regex := RTimes 64 hex.

Definition parse_accepted (record : fields) (path idempotencyKey : string) : result journal_error CommandRecord :=
  _ ← exact record path ["version"; "type"; "idempotencyKey"; "method"; "requestHash"; "targetSessionId";
                         "intendedSessionId"; "affectedOperationId"; "interactionId"; "operationId"; "acceptedAt"];
  m ← match get "method" record with
      | JStr m => _ ← require (isRetryableMutationMethod m) (JournalError (path +:+ ".method must be a retryable mutation")); Ok m
      | _ => Err (JournalError (path +:+ ".method must be a retryable mutation"))
      end;
  h ← match get "requestHash" record with
      | JStr h => _ ← require (rmatch sha256_digest h) (JournalError (path +:+ ".requestHash must be a lowercase SHA-256 digest")); Ok h
      | _ => Err (JournalError (path +:+ ".requestHash must be a lowercase SHA-256 digest"))
      end;
  target ← optional_field (get "targetSessionId" record) (λ v, journal_checked (parseSessionId v (member path "targetSessionId")));
  intended ← optional_field (get "intendedSessionId" record) (λ v, journal_checked (parseSessionId v (member path "intendedSessionId")));
  affected ← optional_field (get "affectedOperationId" record)
               (λ v, journal_checked (parseOperationId v (member path "affectedOperationId")));
  interaction ← optional_field (get "interactionId" record)
                  (λ v, non_empty_string v (path +:+ ".interactionId must be a non-empty string"));
  operation ← journal_checked (parseOperationId (get "operationId" record) (member path "operationId"));
  at_ ← timestamp (get "acceptedAt" record) (member path "acceptedAt");
  Ok (Accepted {| ca_idempotencyKey := idempotencyKey; ca_method := m; ca_requestHash := h; ca_targetSessionId := target;
                  ca_intendedSessionId := intended; ca_affectedOperationId := affected; ca_interactionId := interaction;
                  ca_operationId := operation; ca_acceptedAt := at_ |}).

Definition parse_completed (record : fields) (path idempotencyKey type : string) : result journal_error CommandRecord :=
  if bool_decide (type = "succeeded") then
    _ ← exact record path ["version"; "type"; "idempotencyKey"; "result"; "completedAt"];
    at_ ← timestamp (get "completedAt" record) (member path "completedAt");
    Ok (Completed (Succeeded idempotencyKey (get "result" record) at_))
  else
    _ ← exact record path ["version"; "type"; "idempotencyKey"; "error"; "completedAt"];
    error ← parseFailure (get "error" record) (member path "error");
    at_ ← timestamp (get "completedAt" record) (member path "completedAt");
    Ok (Completed (Failed idempotencyKey error at_)).

Definition parseRecord (value : jsval) (line : nat) : result journal_error CommandRecord :=
  let path := "command journal line " +:+ pretty line in
  record ← object value path;
  _ ← require (is_int 1 (get "version" record)) (JournalError (path +:+ ".version must be 1"));
  idempotencyKey ← journal_checked (parseOperationId (get "idempotencyKey" record) (member path "idempotencyKey"));
  match get "type" record with
  | JStr type =>
      if bool_decide (type = "accepted") then parse_accepted record path idempotencyKey
      else if bool_decide (type = "succeeded") || bool_decide (type = "failed") then
        parse_completed record path idempotencyKey type
      else Err (JournalError (path +:+ ".type is unknown"))
  | _ => Err (JournalError (path +:+ ".type is unknown"))
  end.

(** ** The file *)

Definition record_line (r : CommandRecord) : string := json_text (record_value r) +:+ chr 10.
Definition journal_file (rs : list CommandRecord) : string := String.concat "" (record_line <$> rs).

(** What [appendSynced] comes to: the line is written and synced, or opening,
    writing, syncing or closing throws when [bytes] of it are in the file. *)
Inductive write_answer := Written | WriteFails (bytes : nat).

Definition appendSynced (r : CommandRecord) (answer : write_answer) (file : string) : bool * string :=
  match answer with
  | Written => (true, file +:+ record_line r)
  | WriteFails n => (false, file +:+ String.substring 0 n (record_line r))
  end.

(** Whether a failed append left the whole line all the same. *)
Definition durable (r : CommandRecord) (answer : write_answer) : bool :=
  match answer with Written => true | WriteFails n => String.length (record_line r) <=? n end.

(** ** Entries *)

Inductive outcome := Fulfilled (v : jsval) | Rejected (e : journal_error).

(** The promise of a running effect: the effect has not settled, its terminal
    record is being appended, or it has settled. *)
Inductive phase := Effect | Terminal (c : CommandCompletion) | Settled (o : outcome).
(** A call of [execute]. *)
Record command := {
  cm_idempotencyKey : string;
  cm_method : string;
  cm_requestHash : string;
  cm_targetSessionId : option string;
  cm_intendedSessionId : option string;
  cm_affectedOperationId : option string;
  cm_interactionId : option string
}.

Record running := { ru_phase : phase; ru_waiters : list (nat * command) }.

Record CommandEntry := {
  ce_acceptance : CommandAcceptance;
  ce_completion : option CommandCompletion;
  ce_running : option running
}.

Definition entries := list (string * CommandEntry).

(** What the journal relies on: the parser of results, which accepts what it returned. *)
Class ResultContract := {
  parseRpcResult : string → jsval → checked jsval;
  rpc_again m v v' : parseRpcResult m v = Ok v' → parseRpcResult m v' = Ok v'
}.

Section Journal.
Context `{ResultContract}.

Definition rpc_result (m : string) (v : jsval) : result journal_error jsval := journal_checked (parseRpcResult m v).

Definition corrupt {A} (what : string) : result journal_error A :=
  Err (JournalError ("Corrupt command journal" +:+ what)).

(** One record of the file. *)
Definition install (es : entries) (r : CommandRecord) : result journal_error entries :=
  match r with
  | Accepted a =>
      let key := ca_idempotencyKey a in
      if map_has key es then corrupt (": duplicate acceptance " +:+ key)
      else Ok (map_set key {| ce_acceptance := a; ce_completion := None; ce_running := None |} es)
  | Completed c =>
      let key := completion_key c in
      match map_get key es with
      | Some {| ce_acceptance := a; ce_completion := None; ce_running := ru |} =>
          _ ← match c with
              | Succeeded _ v _ => _ ← rpc_result (ca_method a) v; Ok tt
              | Failed _ _ _ => Ok tt
              end;
          Ok (map_set key {| ce_acceptance := a; ce_completion := Some c; ce_running := ru |} es)
      | _ => corrupt (": unmatched completion " +:+ key)
      end
  end.

Definition read_record (path : string) (index : nat) (line : string) : result journal_error CommandRecord :=
  match json_parse line with
  | Some v => match parseRecord v (index + 1) with Ok r => Ok r | Err _ => corrupt (" " +:+ quote path) end
  | None => corrupt (" " +:+ quote path)
  end.

Fixpoint read_lines (path : string) (index : nat) (lines : list string) (es : entries) : result journal_error entries :=
  match lines with
  | [] => Ok es
  | line :: rest =>
      if bool_decide (line = "") then read_lines path (S index) rest es
      else r ← read_record path index line; es' ← install es r; read_lines path (S index) rest es'
  end.

(** What opening the file, truncating it and syncing it come to. *)
Record open_answers := { oa_read : bool; oa_truncate : bool; oa_sync : bool }.

(** [CommandJournal.open]: a torn last line is dropped. *)
Definition open_journal (path : string) (answers : open_answers) (file : string) : result journal_error entries * string :=
  if negb (oa_read answers) then (Err JournalIo, file)
  else
    let (lines, tail) := split_lines file in
    let clean := String.substring 0 (String.length file - String.length tail) file in
    if (0 <? String.length tail) && negb (oa_truncate answers) then (Err JournalIo, file)
    else if (0 <? String.length tail) && negb (oa_sync answers) then (Err JournalIo, clean)
    else (read_lines path 0 (utf8_text <$> lines) [], clean).

(** ** Reconciliation *)

Inductive recovered := RecoveredResult (v : jsval) | RecoveredError (e : CommandFailure).

Definition terminal_of (a : CommandAcceptance) (r : recovered) (now : Z) : result journal_error CommandCompletion :=
  match r with
  | RecoveredResult v => v' ← rpc_result (ca_method a) v; Ok (Succeeded (ca_idempotencyKey a) v' now)
  | RecoveredError e => Ok (Failed (ca_idempotencyKey a) e now)
  end.

Definition complete (c : CommandCompletion) (e : CommandEntry) : CommandEntry :=
  {| ce_acceptance := ce_acceptance e; ce_completion := Some c; ce_running := ce_running e |}.

(** [reconcile]: the entries, the file, and the completions that are durable. The
    clock and the appends answer the entry at each index. *)
Fixpoint reconcile (recover : CommandAcceptance → result journal_error (option recovered)) (clock : nat → Z)
    (writes : nat → write_answer) (i : nat) (es : entries) (file : string) :
    result journal_error entries * string * list CommandCompletion :=
  match es with
  | [] => (Ok [], file, [])
  | (key, e) :: rest =>
      let continue (e' : CommandEntry) (file' : string) (cs : list CommandCompletion) :=
        let '(r, file'', cs') := reconcile recover clock writes (S i) rest file' in
        ((λ rest', (key, e') :: rest') <$$> r, file'', cs ++ cs') in
      match ce_completion e with
      | Some _ => continue e file []
      | None =>
          match recover (ce_acceptance e) with
          | Err err => (Err err, file, [])
          | Ok None => continue e file []
          | Ok (Some r) =>
              match terminal_of (ce_acceptance e) r (clock i) with
              | Err err => (Err err, file, [])
              | Ok c =>
                  match appendSynced (Completed c) (writes i) file with
                  | (true, file') => continue (complete c e) file' [c]
                  | (false, file') => (Err JournalIo, file', if durable (Completed c) (writes i) then [c] else [])
                  end
              end
          end
      end
  end.
End Journal.

(** ** Executing commands *)

(** What an effect may throw: an [Error] with its fields, or something else. *)
Inductive thrown :=
| ThrownError (message : string) (code : option string) (details : option fields)
| ThrownOther.

Definition acceptance_of (i : command) (now : Z) : CommandAcceptance :=
  {| ca_idempotencyKey := cm_idempotencyKey i; ca_method := cm_method i; ca_requestHash := cm_requestHash i;
     ca_targetSessionId := cm_targetSessionId i; ca_intendedSessionId := cm_intendedSessionId i;
     ca_affectedOperationId := cm_affectedOperationId i; ca_interactionId := cm_interactionId i;
     ca_operationId := cm_idempotencyKey i; ca_acceptedAt := now |}.

Definition failure_of (cause : thrown) : CommandFailure :=
  let '(m, c, details) := match cause with
                          | ThrownError m c details => (m, default "internal_error" c, details)
                          | ThrownOther => ("Request failed", "internal_error", None)
                          end in
  {| cf_code := c; cf_message := m; cf_retryable := isRpcErrorRetryable c; cf_details := details |}.

Definition failure_error (e : CommandFailure) : journal_error :=
  CommandJournalError (cf_code e) (cf_message e) (cf_retryable e) (cf_details e).
Definition idempotency_conflict : journal_error :=
  CommandJournalError "idempotency_conflict" "The idempotency key is already bound to another request" false None.

(** The journal of a running daemon, its file, and the calls of [execute] whose
    [accept] has resolved and whose continuation has not run. *)
Record live := { lv_entries : entries; lv_file : string; lv_accepted : list (nat * command) }.
Inductive daemon := Up (w : live) | Down (file : string).

(** What happened, as an observer of the effects, the file and the responses sees it. *)
Inductive output :=
| Started (key : string)
| Lost (key : string)
| Recorded (key : string) (c : CommandCompletion)
| Responded (request : nat) (i : command) (o : outcome).

(** The append a crash interrupts. *)
Inductive pending := Nothing | Accepting (i : command) (now : Z) (bytes : nat) | Recording (key : string) (bytes : nat).

Inductive action :=
| Accept (request : nat) (i : command) (now : Z) (answer : write_answer)
| Dispatch (request : nat)
| EffectReturns (key : string) (v : jsval) (now : Z)
| EffectThrows (key : string) (cause : thrown) (now : Z)
| Append (key : string) (answer : write_answer)
| Release (key : string)
| Crash (interrupted : pending)
| Open (answers : open_answers) (recover : CommandAcceptance → result journal_error (option recovered))
    (clock : nat → Z) (writes : nat → write_answer).

Section Execute.
Context `{ResultContract} (path : string).

Definition same_request (i : command) (a : CommandAcceptance) : bool :=
  bool_decide (ca_method a = cm_method i) && bool_decide (ca_requestHash a = cm_requestHash i).

(** What a completed command answers. *)
Definition replay (m : string) (c : CommandCompletion) : outcome :=
  match c with
  | Succeeded _ v _ => match rpc_result m v with Ok v' => Fulfilled v' | Err e => Rejected e end
  | Failed _ e _ => Rejected (failure_error e)
  end.

(** [accept], in its turn of the queue. *)
Definition accept (request : nat) (i : command) (now : Z) (answer : write_answer) (w : live) : live * list output :=
  match map_get (cm_idempotencyKey i) (lv_entries w) with
  | Some e =>
      if same_request i (ce_acceptance e) then
        ({| lv_entries := lv_entries w; lv_file := lv_file w; lv_accepted := lv_accepted w ++ [(request, i)] |}, [])
      else (w, [Responded request i (Rejected idempotency_conflict)])
  | None =>
      let a := acceptance_of i now in
      match appendSynced (Accepted a) answer (lv_file w) with
      | (true, file') =>
          let e := {| ce_acceptance := a; ce_completion := None; ce_running := None |} in
          ({| lv_entries := map_set (cm_idempotencyKey i) e (lv_entries w); lv_file := file';
              lv_accepted := lv_accepted w ++ [(request, i)] |}, [])
      | (false, file') =>
          ({| lv_entries := lv_entries w; lv_file := file'; lv_accepted := lv_accepted w |},
           [Responded request i (Rejected JournalIo)])
      end
  end.

Definition with_entry (key : string) (e : CommandEntry) (w : live) : live :=
  {| lv_entries := map_set key e (lv_entries w); lv_file := lv_file w; lv_accepted := lv_accepted w |}.
Definition set_running (ru : option running) (e : CommandEntry) : CommandEntry :=
  {| ce_acceptance := ce_acceptance e; ce_completion := ce_completion e; ce_running := ru |}.

(** The continuation of [accept] in [execute]: replay, join, or start the effect. *)
Definition run_entry (request : nat) (i : command) (e : CommandEntry) (w : live) : live * list output :=
  let key := cm_idempotencyKey i in
  match ce_completion e, ce_running e with
  | Some c, _ => (w, [Responded request i (replay (cm_method i) c)])
  | None, Some ru =>
      (with_entry key (set_running (Some {| ru_phase := ru_phase ru; ru_waiters := ru_waiters ru ++ [(request, i)] |}) e) w,
       [])
  | None, None =>
      (with_entry key (set_running (Some {| ru_phase := Effect; ru_waiters := [(request, i)] |}) e) w, [Started key])
  end.

Definition dispatch (request : nat) (w : live) : option (live * list output) :=
  match map_get request (lv_accepted w) with
  | Some i =>
      match map_get (cm_idempotencyKey i) (lv_entries w) with
      | Some e =>
          Some (run_entry request i e
            {| lv_entries := lv_entries w; lv_file := lv_file w; lv_accepted := map_delete request (lv_accepted w) |})
      | None => None
      end
  | None => None
  end.

Definition with_phase (key : string) (p : phase) (ru : running) (e : CommandEntry) (w : live) : live :=
  with_entry key (set_running (Some {| ru_phase := p; ru_waiters := ru_waiters ru |}) e) w.

(** The effect of [key] settles; a result the parser refuses is not recorded. *)
Definition effect_settles (key : string) (r : jsval + thrown) (now : Z) (w : live) : option (live * list output) :=
  match map_get key (lv_entries w) with
  | Some e =>
      match ce_running e with
      | Some ru =>
          match ru_phase ru with
          | Effect =>
              Some match r with
                   | inl v =>
                       match rpc_result (ca_method (ce_acceptance e)) v with
                       | Ok v' => (with_phase key (Terminal (Succeeded key v' now)) ru e w, [])
                       | Err err => (with_phase key (Settled (Rejected err)) ru e w, [Lost key])
                       end
                   | inr cause => (with_phase key (Terminal (Failed key (failure_of cause) now)) ru e w, [])
                   end
          | _ => None
          end
      | None => None
      end
  | None => None
  end.

(** What the promise of the effect settles with once its record is durable. *)
Definition recorded_outcome (c : CommandCompletion) : outcome :=
  match c with Succeeded _ v _ => Fulfilled v | Failed _ e _ => Rejected (failure_error e) end.

(** The append of the terminal record of [key]. *)
Definition append_terminal (key : string) (answer : write_answer) (w : live) : option (live * list output) :=
  match map_get key (lv_entries w) with
  | Some e =>
      match ce_running e with
      | Some ru =>
          match ru_phase ru with
          | Terminal c =>
              Some match appendSynced (Completed c) answer (lv_file w) with
                   | (true, file') =>
                       (with_phase key (Settled (recorded_outcome c)) ru (complete c e)
                          {| lv_entries := lv_entries w; lv_file := file'; lv_accepted := lv_accepted w |},
                        [Recorded key c])
                   | (false, file') =>
                       (with_phase key (Settled (Rejected JournalIo)) ru e
                          {| lv_entries := lv_entries w; lv_file := file'; lv_accepted := lv_accepted w |},
                        [Lost key])
                   end
          | _ => None
          end
      | None => None
      end
  | None => None
  end.

(** [delete entry.running], and the answers of the calls that joined. *)
Definition release (key : string) (w : live) : option (live * list output) :=
  match map_get key (lv_entries w) with
  | Some e =>
      match ce_running e with
      | Some ru =>
          match ru_phase ru with
          | Settled o =>
              Some (with_entry key (set_running None e) w, (λ ri, Responded ri.1 ri.2 o) <$> ru_waiters ru)
          | _ => None
          end
      | None => None
      end
  | None => None
  end.

(** ** Crashes and restarts *)

Definition unfinished (e : CommandEntry) : bool :=
  match ce_running e with
  | Some ru => match ru_phase ru with Settled _ => false | _ => true end
  | None => false
  end.

(** What the process leaves: the file, and the effects nobody will record. *)
Definition crash (interrupted : pending) (w : live) : option (string * list output) :=
  let lost := omap (λ ke, if unfinished ke.2 then Some ke.1 else None) (lv_entries w) in
  match interrupted with
  | Nothing => Some (lv_file w, Lost <$> lost)
  | Accepting i now n =>
      match map_get (cm_idempotencyKey i) (lv_entries w) with
      | None => Some ((appendSynced (Accepted (acceptance_of i now)) (WriteFails n) (lv_file w)).2, Lost <$> lost)
      | Some _ => None
      end
  | Recording key n =>
      match map_get key (lv_entries w) with
      | Some {| ce_running := Some {| ru_phase := Terminal c |} |} =>
          Some ((appendSynced (Completed c) (WriteFails n) (lv_file w)).2,
                if durable (Completed c) (WriteFails n) then Recorded key c :: (Lost <$> filter (λ k, k ≠ key) lost)
                else Lost <$> lost)
      | _ => None
      end
  end.

(** The start of the daemon: nothing is served unless the journal opens and is reconciled. *)
Definition start (answers : open_answers) (recover : CommandAcceptance → result journal_error (option recovered))
    (clock : nat → Z) (writes : nat → write_answer) (file : string) : daemon * list output :=
  match open_journal path answers file with
  | (Err _, file') => (Down file', [])
  | (Ok es, file') =>
      let '(r, file'', cs) := reconcile recover clock writes 0 es file' in
      (match r with
       | Ok es' => Up {| lv_entries := es'; lv_file := file''; lv_accepted := [] |}
       | Err _ => Down file''
       end, (λ c, Recorded (completion_key c) c) <$> cs)
  end.

Definition lift_live (r : option (live * list output)) : option (daemon * list output) :=
  match r with Some (w, out) => Some (Up w, out) | None => None end.

(** One step; [None]: the action is not possible there. *)
Definition step (d : daemon) (a : action) : option (daemon * list output) :=
  match d, a with
  | Up w, Accept request i now answer =>
      if map_has request (lv_accepted w) then None else lift_live (Some (accept request i now answer w))
  | Up w, Dispatch request => lift_live (dispatch request w)
  | Up w, EffectReturns key v now => lift_live (effect_settles key (inl v) now w)
  | Up w, EffectThrows key cause now => lift_live (effect_settles key (inr cause) now w)
  | Up w, Append key answer => lift_live (append_terminal key answer w)
  | Up w, Release key => lift_live (release key w)
  | Up w, Crash interrupted =>
      match crash interrupted w with Some (file, out) => Some (Down file, out) | None => None end
  | Down file, Open answers recover clock writes => Some (start answers recover clock writes file)
  | _, _ => None
  end.

Fixpoint run (d : daemon) (actions : list action) : option (daemon * list output) :=
  match actions with
  | [] => Some (d, [])
  | a :: rest =>
      match step d a with
      | Some (d', out) => match run d' rest with Some (d'', out') => Some (d'', out ++ out') | None => None end
      | None => None
      end
  end.
End Execute.
