(* ===== verification/CommandJournalFacts.v ===== *)
(** The command journal keeps its promises: records are read back as they were
    written, the file of a journal reopens to its entries, and the effect of a key
    runs again only when the journal lost what became of it. *)
From stdpp Require Import base list sets strings pretty.
From Stdlib Require Import ZArith Lia Ascii.
From S2P Require Import Prelude Text JsValue Json JsonText Utf8 JsonClean Envelope JsMap WireTables EventLog CommandJournal.

(** ** Records *)

Definition time_ok (z : Z) : Prop := (0 <= z <= MAX_SAFE_INTEGER)%Z.
Definition id_ok (o : option string) : Prop := match o with Some s => is_uuid s = true | None => True end.

Record acceptance_ok (a : CommandAcceptance) : Prop := {
  acc_key : is_uuid (ca_idempotencyKey a) = true;
  acc_method : ca_method a ∈ RETRYABLE_MUTATION_METHODS;
  acc_hash : rmatch sha256_digest (ca_requestHash a) = true;
  acc_target : id_ok (ca_targetSessionId a);
  acc_intended : id_ok (ca_intendedSessionId a);
  acc_affected : id_ok (ca_affectedOperationId a);
  acc_interaction : ∀ s, ca_interactionId a = Some s → s ≠ "" ∧ utf8_valid s = true;
  acc_operation : is_uuid (ca_operationId a) = true;
  acc_time : time_ok (ca_acceptedAt a)
}.

Record failure_ok (e : CommandFailure) : Prop := {
  fai_code : cf_code e ≠ "" ∧ utf8_valid (cf_code e) = true;
  fai_message : cf_message e ≠ "" ∧ utf8_valid (cf_message e) = true;
  fai_retryable : cf_retryable e = isRpcErrorRetryable (cf_code e);
  fai_details : ∀ fs, cf_details e = Some fs → json_clean (JObj fs) = true
}.

Definition completion_ok (c : CommandCompletion) : Prop :=
  is_uuid (completion_key c) = true ∧
  match c with
  | Succeeded _ v at_ => json_clean v = true ∧ time_ok at_
  | Failed _ e at_ => failure_ok e ∧ time_ok at_
  end.

Definition record_ok (r : CommandRecord) : Prop :=
  match r with Accepted a => acceptance_ok a | Completed c => completion_ok c end.

Section Records.
Lemma uuid_utf8 s : is_uuid s = true → utf8_valid s = true.
Proof.
  intros H. apply (match_utf8 uuidPattern); [done|]. cbn. unfold is_lower_hex, is_digit, is_char, one_of.
  split_and!; try done; intros c; rewrite ?orb_true_iff, ?in_range_spec, ?bool_decide_eq_true, ?N.ltb_lt; try lia;
    intros Hc; try (by subst).
  cbn in Hc. rewrite !elem_of_cons in Hc. destruct_or! Hc; [by subst..|by apply not_elem_of_nil in Hc].
Qed.

Lemma digest_utf8 s : rmatch sha256_digest s = true → utf8_valid s = true.
Proof.
  intros H. apply (match_utf8 sha256_digest); [done|].
  assert (Hn : ∀ n, regex_chars (λ c, (code c <? 128)%N) (RTimes n hex)); [|apply Hn].
  induction n as [|n IH]; [done|]. split; [|done]. intros c. unfold is_lower_hex, is_digit.
  rewrite orb_true_iff, !in_range_spec, N.ltb_lt. lia.
Qed.

#[local] Opaque sha256_digest.

Lemma parse_id s p : is_uuid s = true → parseOperationId (JStr s) p = Ok s.
Proof. intros H. by apply parseId_Ok. Qed.
Lemma parse_session_id s p : is_uuid s = true → parseSessionId (JStr s) p = Ok s.
Proof. intros H. by apply parseId_Ok. Qed.

Lemma parse_time z p : time_ok z → timestamp (JInt z) p = Ok z.
Proof.
  intros Hz. unfold timestamp, safe_int, int_val, JInt, is_safe_integer. cbn [int_of].
  unfold time_ok in Hz. by rewrite (proj2 (Z.leb_le (Z.abs z) _)), (proj2 (Z.leb_le 0 z)) by lia.
Qed.

Lemma exact_fields fs path allowed : Forall (λ k, k ∈ allowed) (keys fs) → exact fs path allowed = Ok tt.
Proof. intros H. by apply each_elem_Ok. Qed.

Lemma parse_text s m : s ≠ "" → non_empty_string (JStr s) m = Ok s.
Proof. intros H. unfold non_empty_string. by rewrite bool_decide_false. Qed.

#[local] Opaque parseOperationId parseSessionId timestamp non_empty_string.

Lemma parse_accepted_value a path :
  acceptance_ok a → parse_accepted (record_fields (Accepted a)) path (ca_idempotencyKey a) = Ok (Accepted a).
Proof.
  intros [Hk Hm Hh Ht Hi Ha Hn Ho Hz]. unfold parse_accepted. rewrite exact_fields.
  - destruct a as [key m h target intended affected interaction operation at_]; simpl in *.
    assert (Hm' : isRetryableMutationMethod m = true) by by apply bool_decide_true.
    destruct target, intended, affected, interaction as [i|]; try destruct (Hn i eq_refl) as [Hne _]; simpl;
      rewrite Hm'; simpl; rewrite Hh; simpl; unfold optional_field, journal_checked; simpl;
      rewrite ?parse_id, ?parse_session_id, ?parse_text, ?parse_time by done; done.
  - cbn. destruct (ca_targetSessionId a), (ca_intendedSessionId a), (ca_affectedOperationId a), (ca_interactionId a);
      repeat (constructor; [by repeat (first [apply elem_of_cons; left; reflexivity | apply elem_of_cons; right])|]); constructor.
Qed.

Lemma parse_failure_value e path : failure_ok e → parseFailure (failure_value e) path = Ok e.
Proof.
  intros [[Hc _] [Hm _] Hr _]. unfold parseFailure, failure_value. cbn [object rbind].
  rewrite exact_fields; [|destruct (cf_details e); repeat (constructor; [set_solver|]); constructor].
  destruct e as [c m r details]. simpl in *. rewrite !parse_text by done. simpl.
  by destruct details; simpl; rewrite Hr.
Qed.

#[local] Opaque parseFailure exact.

Lemma parse_completed_value c path :
  completion_ok c →
  parse_completed (record_fields (Completed c)) path (completion_key c)
    (match c with Succeeded _ _ _ => "succeeded" | Failed _ _ _ => "failed" end) = Ok (Completed c).
Proof.
  intros [_ Hc]. destruct c as [key v at_|key e at_]; destruct Hc as [Hv Ht]; unfold parse_completed; simpl.
  - rewrite exact_fields by (repeat (constructor; [set_solver|]); constructor). simpl. by rewrite parse_time.
  - rewrite exact_fields by (repeat (constructor; [set_solver|]); constructor). simpl.
    rewrite parse_failure_value by done. simpl. by rewrite parse_time.
Qed.

#[local] Opaque parse_accepted parse_completed.

(** A record is parsed as it was written. *)
Lemma parse_record_value r n : record_ok r → parseRecord (record_value r) n = Ok r.
Proof.
  intros Hr. unfold parseRecord. set (path := "command journal line " +:+ pretty n). clearbody path.
  destruct r as [a|c].
  - unfold record_value. cbn [object rbind]. rewrite <- (parse_accepted_value a path Hr).
    unfold record_fields at 1 2 3. simpl. unfold journal_checked. by rewrite parse_id by apply Hr.
  - pose proof (parse_completed_value c path Hr) as Hp. destruct Hr as [Hk _].
    destruct c as [key v at_|key e at_]; cbn [completion_key] in *; unfold record_value; cbn [object rbind];
      rewrite <- Hp; simpl; unfold journal_checked; by rewrite parse_id by done.
Qed.

(** ... and the text of a record reads back as its value. *)
Ltac named := split; [split; reflexivity | cbn [snd]].
Ltac names := repeat first [apply Forall_nil_2 | apply Forall_cons_2; [named|]].
Ltac distinct := repeat first [apply NoDup_nil_2 | apply NoDup_cons_2; [set_solver|]].

Lemma clean_opt_id k o :
  name_key k → id_ok o → Forall clean_field (opt_id k o).
Proof.
  intros Hk Ho. destruct o as [s|]; [|constructor]. constructor; [|constructor].
  split; [done|]. by apply clean_str, uuid_utf8.
Qed.

Lemma clean_failure e : failure_ok e → json_clean (failure_value e) = true.
Proof.
  intros [[_ Hc] [_ Hm] _ Hd]. apply clean_object.
  - destruct (cf_details e); simpl; distinct.
  - names; [by apply clean_str|by apply clean_str|apply clean_bool|].
    destruct (cf_details e) as [fs|]; [|constructor]. names. by apply Hd.
Qed.

Lemma clean_record r : record_ok r → json_clean (record_value r) = true.
Proof.
  intros Hr. apply clean_object.
  - destruct r as [a|[]]; simpl; [|distinct..].
    destruct (ca_targetSessionId a), (ca_intendedSessionId a), (ca_affectedOperationId a), (ca_interactionId a);
      simpl; distinct.
  - destruct r as [a|[key v at_|key e at_]].
    + destruct Hr as [Hk Hm Hh Ht Hi Ha Hn Ho Hz]. cbn [record_fields]. rewrite !Forall_app. split_and!.
      * names; [by apply clean_int|by apply clean_str|by apply clean_str, uuid_utf8| |by apply clean_str, digest_utf8].
        apply clean_str. unfold RETRYABLE_MUTATION_METHODS in Hm. revert Hm. generalize (ca_method a). intros m Hm.
        repeat (apply elem_of_cons in Hm as [->|Hm]; [done|]). by apply elem_of_nil in Hm.
      * by apply clean_opt_id.
      * by apply clean_opt_id.
      * by apply clean_opt_id.
      * destruct (ca_interactionId a) as [s|]; [|constructor]. names. by apply clean_str, (Hn s).
      * names; [by apply clean_str, uuid_utf8|by apply clean_int].
    + destruct Hr as [Hk [Hv Ht]]. names; [by apply clean_int|by apply clean_str|by apply clean_str, uuid_utf8|done|by apply clean_int].
    + destruct Hr as [Hk [He Ht]].
      names; [by apply clean_int|by apply clean_str|by apply clean_str, uuid_utf8|by apply clean_failure|by apply clean_int].
Qed.

(** The line of a record reads back as the record. *)
Lemma record_text_line r : record_ok r → line_ok (json_text (record_value r)).
Proof. intros Hr. by apply text_line, clean_record. Qed.

Lemma read_record_line path n r : record_ok r → read_record path n (json_text (record_value r)) = Ok r.
Proof.
  intros Hr. unfold read_record. rewrite json_parse_text by by apply clean_record. by rewrite parse_record_value.
Qed.
End Records.

(** ** The file *)

Section Files.
Context `{ResultContract}.

Lemma journal_file_cons r rs :
  journal_file (r :: rs) = json_text (record_value r) +:+ String (char_of 10) (journal_file rs).
Proof.
  unfold journal_file. cbn [fmap list_fmap].
  assert (Hc : ∀ s l, String.concat "" (s :: l) = s +:+ String.concat "" l)
    by (intros s [|s' l]; [by rewrite string_app_nil_r | done]).
  rewrite Hc. unfold record_line. by rewrite <- string_app_assoc.
Qed.

Lemma journal_file_snoc rs r : journal_file (rs ++ [r]) = journal_file rs +:+ record_line r.
Proof.
  induction rs as [|x rs IH]; [done|]. rewrite <- app_comm_cons, !journal_file_cons, IH, <- string_app_assoc. done.
Qed.

Lemma split_journal rs t :
  Forall record_ok rs → one_line t = true →
  split_lines (journal_file rs +:+ t) = ((λ r, json_text (record_value r)) <$> rs, t).
Proof.
  intros Hrs Ht. induction Hrs as [|r rs Hr _ IH]; [by apply split_tail|].
  rewrite journal_file_cons, <- string_app_assoc.
  change (String (char_of 10) (journal_file rs) +:+ t) with (String (char_of 10) (journal_file rs +:+ t)).
  rewrite split_line by (done || by apply record_text_line). by rewrite IH.
Qed.

Lemma record_text_nonempty r : json_text (record_value r) ≠ "".
Proof. by destruct r as [|[]]. Qed.

Lemma read_journal_lines path i rs es :
  Forall record_ok rs →
  read_lines path i (utf8_text <$> ((λ r, json_text (record_value r)) <$> rs)) es = fold_res install es rs.
Proof.
  intros Hrs. revert i es. induction Hrs as [|r rs Hr _ IH]; intros i es; [done|].
  cbn [fmap list_fmap read_lines fold_res]. rewrite utf8_text_valid by apply record_text_line, Hr.
  rewrite bool_decide_false by apply record_text_nonempty. rewrite read_record_line by done. cbn [rbind].
  destruct (install es r); [apply IH|done].
Qed.

(** Opening a journal with a torn last line. *)
Lemma open_journal_spec path answers rs t :
  Forall record_ok rs → one_line t = true →
  open_journal path answers (journal_file rs +:+ t) = (fold_res install [] rs, journal_file rs) ∨
  ∃ t', one_line t' = true ∧ oa_read answers && oa_truncate answers && oa_sync answers = false ∧
    open_journal path answers (journal_file rs +:+ t) = (Err JournalIo, journal_file rs +:+ t').
Proof.
  intros Hrs Ht. unfold open_journal. destruct (oa_read answers); cbn [negb]; [|right; by exists t].
  rewrite split_journal by done. rewrite string_length_app.
  replace (String.length (journal_file rs) + String.length t - String.length t) with (String.length (journal_file rs)) by lia.
  rewrite substring_prefix, read_journal_lines by done.
  destruct (0 <? String.length t); [|by left]. cbn [andb].
  destruct (oa_truncate answers); cbn [negb andb]; [|right; by exists t].
  destruct (oa_sync answers); cbn [negb]; [by left|]. right. exists "". by rewrite string_app_nil_r.
Qed.

(** What an append that fails leaves: the whole line, or a torn one. *)
Lemma torn_append r n file :
  record_ok r →
  (durable r (WriteFails n) = true ∧ file +:+ String.substring 0 n (record_line r) = file +:+ record_line r) ∨
  (durable r (WriteFails n) = false ∧ ∃ t, one_line t = true ∧ file +:+ String.substring 0 n (record_line r) = file +:+ t).
Proof.
  intros Hr. cbn [durable]. destruct (Nat.leb_spec (String.length (record_line r)) n) as [Hn|Hn].
  - left. split; [done|]. f_equal. replace n with (String.length (record_line r) + (n - String.length (record_line r))) by lia.
    generalize (n - String.length (record_line r)) as k. generalize (record_line r) as s. clear.
    intros s k. induction s as [|c s IH]; [by destruct k|]. simpl. by rewrite IH.
  - right. split; [done|]. eexists. split; [|reflexivity]. unfold record_line in *. rewrite string_length_app in Hn.
    change (String.length (chr 10)) with 1 in Hn. apply one_line_substring; [by apply record_text_line|lia].
Qed.

(** ** Entries *)

(** The entries without what only the process knows. *)
Definition strip (es : entries) : entries := (λ ke, (ke.1, set_running None ke.2)) <$> es.

Lemma map_get_strip k es : map_get k (strip es) = set_running None <$> map_get k es.
Proof. unfold strip. induction es as [|[k' e] es IH]; [done|]. simpl. by case_bool_decide. Qed.

Lemma strip_keys es : (strip es).*1 = es.*1.
Proof. unfold strip. rewrite <- list_fmap_compose. done. Qed.

Lemma strip_set k e es : strip (map_set k e es) = map_set k (set_running None e) (strip es).
Proof. unfold strip. induction es as [|[k' e'] es IH]; [done|]. simpl. case_bool_decide; [done|]. simpl. by f_equal. Qed.

(** Only what runs changes. *)
Lemma strip_running k e ru es : map_get k es = Some e → strip (map_set k (set_running ru e) es) = strip es.
Proof.
  intros Hk. rewrite strip_set. apply map_set_same. by rewrite map_get_strip, Hk.
Qed.

Definition valid_for (m : string) (c : CommandCompletion) : Prop :=
  match c with Succeeded _ v _ => parseRpcResult m v = Ok v | Failed _ _ _ => True end.

Lemma install_accepted rs es a e :
  fold_res install [] rs = Ok (strip es) → map_get (ca_idempotencyKey a) es = None →
  ce_acceptance e = a → ce_completion e = None →
  fold_res install [] (rs ++ [Accepted a]) = Ok (strip (map_set (ca_idempotencyKey a) e es)).
Proof.
  intros Hrs Hk <- He. rewrite fold_res_app, Hrs. cbn [rbind fold_res install]. unfold map_has.
  rewrite map_get_strip, Hk. cbn. rewrite strip_set. unfold set_running. by rewrite He.
Qed.

Lemma install_completed rs es c e :
  fold_res install [] rs = Ok (strip es) → map_get (completion_key c) es = Some e → ce_completion e = None →
  valid_for (ca_method (ce_acceptance e)) c →
  fold_res install [] (rs ++ [Completed c]) = Ok (strip (map_set (completion_key c) (complete c e) es)).
Proof.
  intros Hrs Hk He Hv. rewrite fold_res_app, Hrs. cbn [rbind fold_res install].
  rewrite map_get_strip, Hk. destruct e as [a compl ru]. cbn in *. subst compl. cbn. rewrite strip_set. cbn.
  destruct c as [key v at_|key e at_]; [|done]. cbn in *. unfold rpc_result, journal_checked. by rewrite Hv.
Qed.

Lemma install_ok es r es' : install es r = Ok es' → map_ok es → map_ok es'.
Proof.
  intros Hi Hok. destruct r as [a|c]; cbn in Hi.
  - destruct (map_has _ es); [done|]. injection Hi as <-. by apply map_set_ok.
  - destruct (map_get _ es) as [[a [c'|] ru]|]; try done. apply bind_Ok in Hi as (u & _ & [= <-]). by apply map_set_ok.
Qed.

Lemma install_all_ok rs es : fold_res install [] rs = Ok es → map_ok es.
Proof.
  apply (fold_res_inv (λ _, map_ok)); [constructor|]. intros _ r t t' Ht Hi. by eapply install_ok.
Qed.
End Files.
