(* ===== verification/CommandJournalRuns.v ===== *)
(** The command journal under any interleaving: what every run of it keeps, the
    effect of a key that runs again only when the journal lost what became of it,
    and the files that no longer open. *)
From stdpp Require Import base list sets strings pretty.
From Stdlib Require Import ZArith Lia Ascii.
From S2P Require Import Prelude Text JsValue Json JsonText Utf8 JsonClean Envelope JsMap WireTables EventLog.
From S2P Require Import WireResults WireResultsFacts CommandJournal CommandJournalFacts.

(** ** What a trace may say *)

Definition started_key (x : output) : option string := match x with Started k => Some k | _ => None end.
Definition lost_key (x : output) : option string := match x with Lost k => Some k | _ => None end.

(** The effects of a key that started, and those nobody recorded. *)
Definition starts (k : string) (tr : list output) : nat := length (filter (λ x, started_key x = Some k) tr).
Definition losses (k : string) (tr : list output) : nat := length (filter (λ x, lost_key x = Some k) tr).

(** What may follow [pre]: once a completion is recorded, no effect of the key
    starts, no other completion is recorded, and every call is answered from it. *)
Definition allowed (pre : list output) (x : output) : Prop :=
  match x with
  | Started k => ∀ c, Recorded k c ∉ pre
  | Recorded k _ => ∀ c, Recorded k c ∉ pre
  | Responded _ i o =>
      ∀ c, Recorded (cm_idempotencyKey i) c ∈ pre → o = recorded_outcome c ∨ o = Rejected idempotency_conflict
  | Lost _ => True
  end.

Inductive lawful : list output → Prop :=
| lawful_nil : lawful []
| lawful_snoc tr x : lawful tr → allowed tr x → lawful (tr ++ [x]).

(** The key an output is about. *)
Definition about (x : output) : option string :=
  match x with Started k | Lost k | Recorded k _ => Some k | Responded _ _ _ => None end.

Section Traces.
Lemma lawful_at tr pre x post : lawful tr → tr = pre ++ x :: post → allowed pre x.
Proof.
  intros Htr. revert post. induction Htr as [|tr y Htr IH Hy]; intros post E; [by destruct pre|].
  destruct post as [|z post _] using rev_ind.
  - by apply app_inj_tail in E as [<- <-].
  - rewrite app_comm_cons, app_assoc in E. apply app_inj_tail in E as [E _]. by eapply IH.
Qed.

Lemma lawful_silent tr out :
  lawful tr → Forall (λ x, (∀ k c, x ≠ Recorded k c) ∧ allowed tr x) out → lawful (tr ++ out).
Proof.
  intros Htr. induction out as [|x out IH] using rev_ind; [by rewrite app_nil_r|].
  rewrite Forall_app, Forall_singleton. intros [Hout [Hx Ha]]. rewrite app_assoc. constructor; [auto|]. assert (Hin : ∀ k c, Recorded k c ∈ tr ++ out → Recorded k c ∈ tr).
  { intros k c [?|Hc]%elem_of_app; [done|]. rewrite Forall_forall in Hout. destruct (Hout _ Hc) as [Hn _].
    by destruct (Hn k c). }
  destruct x; simpl in *; naive_solver.
Qed.

Lemma lawful_one tr x : lawful tr → allowed tr x → lawful (tr ++ [x]).
Proof. apply lawful_snoc. Qed.

Lemma starts_app k a b : starts k (a ++ b) = starts k a + starts k b.
Proof. unfold starts. by rewrite filter_app, length_app. Qed.
Lemma losses_app k a b : losses k (a ++ b) = losses k a + losses k b.
Proof. unfold losses. by rewrite filter_app, length_app. Qed.

Lemma starts_frame k out : Forall (λ x, about x ≠ Some k) out → starts k out = 0.
Proof.
  intros Ho. unfold starts. induction Ho as [|x out Hx _ IH]; [done|]. rewrite filter_cons.
  destruct (decide _) as [E|]; [|done]. by destruct x.
Qed.

Lemma recorded_frame k c tr out : Forall (λ x, about x ≠ Some k) out → Recorded k c ∈ tr ++ out ↔ Recorded k c ∈ tr.
Proof.
  intros Ho. rewrite elem_of_app. split; [|by left]. intros [?|Hc]; [done|]. rewrite Forall_forall in Ho.
  by destruct (Ho _ Hc).
Qed.

Lemma losses_elem k l : k ∈ l → 1 ≤ losses k (Lost <$> l).
Proof.
  unfold losses. induction l as [|k' l IH]; [by intros ?%elem_of_nil|]. intros Hk.
  cbn [fmap list_fmap]. rewrite filter_cons. cbn [lost_key]. destruct (decide _) as [|Hne]; [simpl; lia|].
  apply IH. apply elem_of_cons in Hk as [->|?]; done.
Qed.

Lemma starts_one k : starts k [Started k] = 1.
Proof. unfold starts. rewrite filter_cons. by rewrite decide_True. Qed.

Lemma losses_one k : losses k [Lost k] = 1.
Proof. unfold losses. rewrite filter_cons. by rewrite decide_True. Qed.

Lemma starts_lost k l : starts k (Lost <$> l) = 0.
Proof. induction l as [|x l IH]; [done|]. done. Qed.
End Traces.

(** ** The invariant *)

Section Invariant.
Context `{ResultContract}.

Definition phase_ok (k : string) (e : CommandEntry) (p : phase) : Prop :=
  match p with
  | Effect => ce_completion e = None
  | Terminal c =>
      ce_completion e = None ∧ completion_ok c ∧ completion_key c = k ∧ valid_for (ca_method (ce_acceptance e)) c
  | Settled o => ∀ c, ce_completion e = Some c → o = recorded_outcome c
  end.

(** Whether an effect of the entry is accounted for. *)
Definition settled_or_running (e : CommandEntry) : bool :=
  match ce_completion e with Some _ => true | None => unfinished e end.

Record entry_ok (tr : list output) (k : string) (e : CommandEntry) : Prop := {
  en_key : ca_idempotencyKey (ce_acceptance e) = k ∧ is_uuid k = true;
  en_recorded : ∀ c, Recorded k c ∈ tr ↔ ce_completion e = Some c;
  en_valid : ∀ c, ce_completion e = Some c → completion_key c = k ∧ valid_for (ca_method (ce_acceptance e)) c;
  en_phase : ∀ ru, ce_running e = Some ru → phase_ok k e (ru_phase ru);
  en_waiters : ∀ ru, ce_running e = Some ru → Forall (λ ri, cm_idempotencyKey ri.2 = k) (ru_waiters ru);
  en_count : starts k tr ≤ losses k tr + (if settled_or_running e then 1 else 0)
}.

Record journal_inv (tr : list output) (es : entries) (rs : list CommandRecord) : Prop := {
  ji_records : Forall record_ok rs;
  ji_install : fold_res install [] rs = Ok (strip es);
  ji_entries : ∀ k e, map_get k es = Some e → entry_ok tr k e;
  ji_absent : ∀ k, map_get k es = None → starts k tr = 0 ∧ ∀ c, Recorded k c ∉ tr;
  ji_lawful : lawful tr
}.

Definition accepted_ok (es : entries) (accepted : list (nat * command)) : Prop :=
  ∀ r i, map_get r accepted = Some i →
    ∃ e, map_get (cm_idempotencyKey i) es = Some e ∧ same_request i (ce_acceptance e) = true.

Definition inv (tr : list output) (d : daemon) : Prop :=
  match d with
  | Up w =>
      ∃ rs, lv_file w = journal_file rs ∧ journal_inv tr (lv_entries w) rs ∧ accepted_ok (lv_entries w) (lv_accepted w)
  | Down file => ∃ rs t es, file = journal_file rs +:+ t ∧ one_line t = true ∧ journal_inv tr es rs ∧ strip es = es
  end.

(** ** Changing an entry *)

Lemma entry_frame tr out k e : Forall (λ x, about x ≠ Some k) out → entry_ok tr k e → entry_ok (tr ++ out) k e.
Proof.
  intros Ho [Hk Hr Hv Hp Hw Hc]. split; try done.
  - intros c. by rewrite recorded_frame.
  - rewrite starts_app, losses_app, (starts_frame k out) by done. lia.
Qed.

Lemma journal_change tr es rs k e' rs' out :
  journal_inv tr es rs →
  Forall record_ok rs' → fold_res install [] rs' = Ok (strip (map_set k e' es)) →
  entry_ok (tr ++ out) k e' → (∀ k', k' ≠ k → Forall (λ x, about x ≠ Some k') out) → lawful (tr ++ out) →
  journal_inv (tr ++ out) (map_set k e' es) rs'.
Proof.
  intros [_ _ He Ha _] Hrs' Hi' He' Hout Hl. split; [done|done| | |done].
  - intros k' e. rewrite map_get_set. case_bool_decide as Hk; [subst; by intros [= <-]|].
    intros Hk'. apply entry_frame; [by apply Hout|auto].
  - intros k'. rewrite map_get_set. case_bool_decide as Hk; [done|]. intros Hk'.
    destruct (Ha k' Hk') as [Hs Hc]. assert (Forall (λ x, about x ≠ Some k') out) by by apply Hout.
    rewrite starts_app, Hs, starts_frame by done. split; [done|]. intros c. by rewrite recorded_frame.
Qed.

(** Changing only what runs. *)
Lemma journal_running tr es rs k e ru out :
  journal_inv tr es rs → map_get k es = Some e →
  entry_ok (tr ++ out) k (set_running ru e) → (∀ k', k' ≠ k → Forall (λ x, about x ≠ Some k') out) → lawful (tr ++ out) →
  journal_inv (tr ++ out) (map_set k (set_running ru e) es) rs.
Proof.
  intros Hj Hk He Hout Hl. eapply journal_change; try done; [apply Hj|].
  rewrite (strip_running _ e) by done. apply Hj.
Qed.

Lemma journal_silent tr es rs k e ru :
  journal_inv tr es rs → map_get k es = Some e → entry_ok tr k (set_running ru e) →
  journal_inv tr (map_set k (set_running ru e) es) rs.
Proof.
  intros Hj Hk He. pose proof (journal_running tr es rs k e ru [] Hj Hk) as Hr. rewrite app_nil_r in Hr.
  apply Hr; [done|by constructor|apply Hj].
Qed.

(** Answers change nothing. *)
Lemma journal_answers tr es rs out :
  journal_inv tr es rs → Forall (λ x, about x = None ∧ allowed tr x) out → journal_inv (tr ++ out) es rs.
Proof.
  intros [Hr Hi He Ha Hl] Hout.
  assert (Hf : ∀ k, Forall (λ x, about x ≠ Some k) out).
  { intros k. eapply Forall_impl; [exact Hout|]. by intros x [-> _]. }
  split; [done|done| | |].
  - intros k e Hk. by apply entry_frame; auto.
  - intros k Hk. destruct (Ha k Hk) as [Hs Hc]. rewrite starts_app, Hs, starts_frame by done.
    split; [done|]. intros c. by rewrite recorded_frame.
  - apply lawful_silent; [done|]. eapply Forall_impl; [exact Hout|]. intros x [Hx ?]. split; [|done]. by intros k c ->.
Qed.

(** A completion that reaches the file. *)
Lemma journal_complete tr es rs k e c ru :
  journal_inv tr es rs → map_get k es = Some e → ce_completion e = None →
  completion_ok c → completion_key c = k → valid_for (ca_method (ce_acceptance e)) c →
  (∀ r, ru = Some r → ru_phase r = Settled (recorded_outcome c) ∧ Forall (λ ri, cm_idempotencyKey ri.2 = k) (ru_waiters r)) →
  journal_inv (tr ++ [Recorded k c]) (map_set k (set_running ru (complete c e)) es) (rs ++ [Completed c]).
Proof.
  intros Hj Hk Hn Hc Hck Hv Hru. pose proof (ji_entries _ _ _ Hj k e Hk) as [Hek Hr _ _ _ Hcount].
  assert (Hnone : ∀ c', Recorded k c' ∉ tr) by (intros c' ?%Hr; by rewrite Hn in *).
  assert (Hp := ji_install _ _ _ Hj). pose proof (install_completed rs es c e Hp) as Hi. rewrite Hck in Hi.
  eapply journal_change; [done| | | | |].
  - apply Forall_app. split; [apply Hj|]. by apply Forall_singleton.
  - rewrite Hi by done. by rewrite !strip_set.
  - split; [done| | | | |].
    + intros c'. rewrite elem_of_app, list_elem_of_singleton. cbn. naive_solver.
    + intros c' [= <-]. done.
    + intros r Hrr. destruct (Hru r Hrr) as [-> _]. intros c' [= <-]. done.
    + intros r Hrr. by apply Hru.
    + rewrite starts_app, losses_app. cbn. unfold settled_or_running in Hcount. rewrite Hn in Hcount.
      destruct (unfinished e); lia.
  - intros k' Hk'. apply Forall_singleton. simpl. congruence.
  - apply lawful_one; [apply Hj|done].
Qed.

(** The process dies: what it had in memory is lost. *)
Lemma journal_lose tr es rs l :
  journal_inv tr es rs → (∀ k e, map_get k es = Some e → unfinished e = true → k ∈ l) →
  journal_inv (tr ++ (Lost <$> l)) (strip es) rs.
Proof.
  intros [Hr Hi He Ha Hl] Hlost.
  assert (Hrec : ∀ k c, Recorded k c ∈ tr ++ (Lost <$> l) ↔ Recorded k c ∈ tr).
  { intros k c. rewrite elem_of_app, list_elem_of_fmap. naive_solver. }
  split; [done| | | |].
  - rewrite Hi. f_equal. unfold strip. rewrite <- list_fmap_compose. done.
  - intros k e. rewrite map_get_strip. destruct (map_get k es) as [e0|] eqn:Ek; [|done]. intros [= <-].
    destruct (He k e0 Ek) as [Hk Hrr Hv Hp Hw Hc]. split; cbn; try done.
    + intros c. by rewrite Hrec.
    + rewrite starts_app, losses_app, starts_lost. unfold settled_or_running in *. cbn.
      destruct (ce_completion e0); [lia|]. destruct (unfinished e0) eqn:Eu; [|lia].
      pose proof (losses_elem k l (Hlost _ _ Ek Eu)). lia.
  - intros k. rewrite map_get_strip. destruct (map_get k es) eqn:Ek; [done|]. intros _.
    destruct (Ha k Ek) as [Hs Hc]. rewrite starts_app, Hs, starts_lost. split; [done|]. intros c. by rewrite Hrec.
  - apply lawful_silent; [done|]. apply Forall_fmap, Forall_true. intros k. done.
Qed.
End Invariant.

(** ** What the environment does *)

Section Environment.
Context `{ResultContract}.

(** A write that fails while the daemon keeps running left nothing in the file. *)
Definition clean_write (answer : write_answer) : Prop := answer = Written ∨ answer = WriteFails 0.

(** Results are JSON values. *)
Definition json_result (v : jsval) : Prop := ∀ m v', parseRpcResult m v = Ok v' → json_clean v' = true.

Definition recovered_ok (r : recovered) : Prop :=
  match r with RecoveredResult v => json_result v | RecoveredError e => failure_ok e end.

(** Commands are as the wire parser accepts them, results are JSON values, thrown
    errors have a code and a message, the clock gives safe integers; files and
    processes may fail at any point, except for [clean_write]. *)
Definition action_ok (a : action) : Prop :=
  match a with
  | Accept _ i now answer => clean_write answer ∧ acceptance_ok (acceptance_of i now)
  | EffectReturns _ v now => json_result v ∧ time_ok now
  | EffectThrows _ cause now => failure_ok (failure_of cause) ∧ time_ok now
  | Append _ answer => clean_write answer
  | Crash (Accepting i now _) => acceptance_ok (acceptance_of i now)
  | Open _ recover clock _ => (∀ a r, recover a = Ok (Some r) → recovered_ok r) ∧ ∀ n, time_ok (clock n)
  | Dispatch _ | Release _ | Crash _ => True
  end.
End Environment.

(** ** The steps of a running daemon *)

Section Steps.
Context `{ResultContract}.

Lemma appendSynced_clean r answer file :
  clean_write answer → appendSynced r answer file = (true, file +:+ record_line r) ∨ appendSynced r answer file = (false, file).
Proof.
  intros [-> | ->]; [by left|right]. cbn [appendSynced]. f_equal. destruct (record_line r); by rewrite string_app_nil_r.
Qed.

Lemma accepted_ok_change es k e e' accepted :
  map_get k es = Some e → ce_acceptance e' = ce_acceptance e → accepted_ok es accepted →
  accepted_ok (map_set k e' es) accepted.
Proof.
  intros Hk He Ha r i Hr. destruct (Ha r i Hr) as (e0 & Hk0 & Hs). rewrite map_get_set. case_bool_decide as E; [|eauto].
  subst. rewrite Hk in Hk0. injection Hk0 as ->. exists e'. by rewrite He.
Qed.

Lemma accepted_ok_new es k e accepted : map_get k es = None → accepted_ok es accepted → accepted_ok (map_set k e es) accepted.
Proof.
  intros Hk Ha r i Hr. destruct (Ha r i Hr) as (e0 & Hk0 & Hs). exists e0. rewrite map_get_set.
  case_bool_decide; [congruence|done].
Qed.

Lemma map_get_snoc {A} (r q : nat) (i j : A) m : map_get r (m ++ [(q, i)]) = Some j → map_get r m = Some j ∨ j = i.
Proof.
  induction m as [|[k v] m IH]; simpl; [case_bool_decide; naive_solver|]. case_bool_decide; [by left|auto].
Qed.

Lemma accepted_ok_snoc es accepted r i e :
  map_get (cm_idempotencyKey i) es = Some e → same_request i (ce_acceptance e) = true →
  accepted_ok es accepted → accepted_ok es (accepted ++ [(r, i)]).
Proof. intros Hk Hs Ha q j [Hj | ->]%map_get_snoc; eauto. Qed.

(** A new acceptance. *)
Lemma journal_accept tr es rs a :
  journal_inv tr es rs → map_get (ca_idempotencyKey a) es = None → acceptance_ok a →
  journal_inv tr (map_set (ca_idempotencyKey a) {| ce_acceptance := a; ce_completion := None; ce_running := None |} es)
    (rs ++ [Accepted a]).
Proof.
  intros Hj Hk Ha. destruct (ji_absent _ _ _ Hj _ Hk) as [Hs Hc].
  rewrite <- (app_nil_r tr). eapply journal_change; [done| | | | |].
  - apply Forall_app. split; [apply Hj|]. by apply Forall_singleton.
  - by apply install_accepted; try done; apply Hj.
  - rewrite app_nil_r. split; cbn; try done.
    + split; [done|apply Ha].
    + intros c. naive_solver.
    + rewrite Hs. lia.
  - intros. constructor.
  - rewrite app_nil_r. apply Hj.
Qed.

Lemma accept_inv tr w request i now answer w' out :
  inv tr (Up w) → map_has request (lv_accepted w) = false → clean_write answer → acceptance_ok (acceptance_of i now) →
  accept request i now answer w = (w', out) → inv (tr ++ out) (Up w').
Proof.
  intros (rs & Hf & Hj & Hacc) Hr Hw Ha. unfold accept. destruct (map_get _ _) as [e|] eqn:Ek.
  - destruct (same_request _ _) eqn:Es; intros [= <- <-].
    + exists rs. rewrite app_nil_r. split_and!; [done..|]. cbn. by eapply accepted_ok_snoc.
    + exists rs. split_and!; [done| |done]. apply journal_answers; [done|]. apply Forall_singleton.
      split; [done|]. intros c _. by right.
  - destruct (appendSynced_clean (Accepted (acceptance_of i now)) answer (lv_file w) Hw) as [-> | ->]; intros [= <- <-].
    + exists (rs ++ [Accepted (acceptance_of i now)]). rewrite app_nil_r. cbn. rewrite journal_file_snoc, Hf. split_and!; [done| |].
      * by apply (journal_accept _ _ _ (acceptance_of i now)).
      * eapply accepted_ok_snoc; [by rewrite map_get_set, bool_decide_true| |by apply accepted_ok_new].
        unfold same_request. cbn. by rewrite !bool_decide_true.
    + exists rs. split_and!; [done| |done]. apply journal_answers; [done|]. apply Forall_singleton. split; [done|].
      intros c Hc. by apply (ji_absent _ _ _ Hj _ Ek) in Hc.
Qed.

Lemma accepted_delete es r accepted : accepted_ok es accepted → accepted_ok es (map_delete r accepted).
Proof. intros Ha q i. rewrite map_get_delete. case_bool_decide; [done|]. apply Ha. Qed.

(** Calls that join an entry. *)
Lemma entry_join tr k e ru ri :
  entry_ok tr k e → ce_running e = Some ru → cm_idempotencyKey ri.2 = k →
  entry_ok tr k (set_running (Some {| ru_phase := ru_phase ru; ru_waiters := ru_waiters ru ++ [ri] |}) e).
Proof.
  intros [Hk Hr Hv Hp Hw Hc] Hru Hri. split; cbn; try done.
  - intros ru' [= <-]. exact (Hp ru Hru).
  - intros ru' [= <-]. apply Forall_app. split; [by apply Hw|]. by apply Forall_singleton.
  - unfold settled_or_running, unfinished in *. cbn. by rewrite Hru in Hc.
Qed.

(** The effect of an entry starts. *)
Lemma entry_start tr k e ri :
  entry_ok tr k e → ce_completion e = None → ce_running e = None → cm_idempotencyKey ri.2 = k →
  entry_ok (tr ++ [Started k]) k (set_running (Some {| ru_phase := Effect; ru_waiters := [ri] |}) e).
Proof.
  intros [Hk Hr Hv Hp Hw Hc] Hn Hru Hri. split; cbn; try done.
  - intros c. rewrite elem_of_app, Hr, list_elem_of_singleton. naive_solver.
  - intros ru' [= <-]. done.
  - intros ru' [= <-]. by apply Forall_singleton.
  - rewrite starts_app, losses_app, starts_one. change (losses k [Started k]) with 0.
    unfold settled_or_running, unfinished in *. cbn. rewrite Hn in *. rewrite Hru in Hc. lia.
Qed.

Lemma replay_recorded m c : valid_for m c → replay m c = recorded_outcome c.
Proof. destruct c; cbn; [|done]. intros Hv. unfold rpc_result, journal_checked. by rewrite Hv. Qed.

Lemma dispatch_inv tr w request w' out :
  inv tr (Up w) → dispatch request w = Some (w', out) → inv (tr ++ out) (Up w').
Proof.
  intros (rs & Hf & Hj & Hacc). unfold dispatch. destruct (map_get request _) as [i|] eqn:Er; [|done].
  destruct (Hacc _ _ Er) as (e & Ek & Hs). rewrite Ek. intros [= Hrun].
  pose proof (ji_entries _ _ _ Hj _ _ Ek) as He. unfold run_entry in Hrun.
  destruct (ce_completion e) as [c|] eqn:Ec.
  - injection Hrun as <- <-. exists rs. split_and!; [done| |by apply accepted_delete].
    apply journal_answers; [done|]. apply Forall_singleton. split; [done|]. intros c' Hc'%(en_recorded _ _ _ He).
    left. rewrite Ec in Hc'. injection Hc' as <-. apply replay_recorded.
    destruct (en_valid _ _ _ He c Ec) as [_ Hv]. unfold same_request in Hs.
    apply andb_true_iff in Hs as [Hm%bool_decide_eq_true _]. by rewrite <- Hm.
  - destruct (ce_running e) as [ru|] eqn:Eru; injection Hrun as <- <-.
    + exists rs. rewrite app_nil_r. split_and!; [done| |].
      * apply journal_silent; [done..|]. by apply entry_join.
      * by eapply accepted_ok_change, accepted_delete.
    + exists rs. split_and!; [done| |by eapply accepted_ok_change, accepted_delete].
      eapply journal_running; [done|done|by apply entry_start| |].
      * intros k Hk. apply Forall_singleton. simpl. congruence.
      * apply lawful_one; [apply Hj|]. intros c Hc%(en_recorded _ _ _ He). by rewrite Ec in Hc.
Qed.

(** The promise of a running effect moves on. *)
Lemma entry_phase tr out k e ru p :
  entry_ok tr k e → ce_running e = Some ru → phase_ok k e p → Forall (λ x, x = Lost k) out →
  (unfinished e = true → (match p with Settled _ => false | _ => true end) = true ∨ out = [Lost k]) →
  entry_ok (tr ++ out) k (set_running (Some {| ru_phase := p; ru_waiters := ru_waiters ru |}) e).
Proof.
  intros [Hk Hr Hv Hp Hw Hc] Hru Hph Hout Hun.
  assert (Hs : starts k out = 0) by (clear Hun; induction Hout as [|x out -> _ IH]; [done|exact IH]).
  split; cbn; try done.
  - intros c. rewrite elem_of_app, Hr. split; [|by left]. intros [?|Hin]; [done|].
    rewrite Forall_forall in Hout. by apply Hout in Hin.
  - intros ru' [= <-]. exact Hph.
  - intros ru' [= <-]. exact (Hw ru Hru).
  - rewrite starts_app, losses_app, Hs. unfold settled_or_running in *. cbn.
    destruct (ce_completion e); [lia|]. destruct (unfinished e) eqn:Eu; [|lia].
    destruct (Hun eq_refl) as [Hp' | ->]; [|rewrite losses_one; lia]. unfold unfinished. cbn. rewrite Hp'. lia.
Qed.

Lemma lost_frame k k' out : k' ≠ k → Forall (λ x, x = Lost k) out → Forall (λ x, about x ≠ Some k') out.
Proof. intros Hk Ho. eapply Forall_impl; [exact Ho|]. intros x ->. simpl. congruence. Qed.

Lemma journal_phase tr es rs k e ru p out :
  journal_inv tr es rs → map_get k es = Some e → ce_running e = Some ru → phase_ok k e p →
  Forall (λ x, x = Lost k) out →
  (unfinished e = true → (match p with Settled _ => false | _ => true end) = true ∨ out = [Lost k]) →
  journal_inv (tr ++ out) (map_set k (set_running (Some {| ru_phase := p; ru_waiters := ru_waiters ru |}) e) es) rs.
Proof.
  intros Hj Hk Hru Hp Hout Hun. eapply journal_running; [done|done| | |].
  - apply entry_phase; try done. by apply (ji_entries _ _ _ Hj).
  - intros k' Hk'. by eapply lost_frame.
  - apply lawful_silent; [apply Hj|]. eapply Forall_impl; [exact Hout|]. by intros x ->.
Qed.

Lemma effect_settles_inv tr w key r now w' out :
  inv tr (Up w) → match r with inl v => json_result v | inr cause => failure_ok (failure_of cause) end → time_ok now →
  effect_settles key r now w = Some (w', out) → inv (tr ++ out) (Up w').
Proof.
  intros (rs & Hf & Hj & Hacc) Hok Ht. unfold effect_settles. destruct (map_get key _) as [e|] eqn:Ek; [|done].
  destruct (ce_running e) as [ru|] eqn:Eru; [|done]. destruct (ru_phase ru) eqn:Ep; try done. intros [= Hout].
  pose proof (ji_entries _ _ _ Hj _ _ Ek) as He. destruct (en_key _ _ _ He) as [_ Hu].
  assert (Hn : ce_completion e = None) by (pose proof (en_phase _ _ _ He ru Eru) as Hph; by rewrite Ep in Hph).
  assert (Hdone : ∀ p out, phase_ok key e p → Forall (λ x, x = Lost key) out →
    (match p with Settled _ => false | _ => true end) = true ∨ out = [Lost key] →
    inv (tr ++ out) (Up (with_phase key p ru e w))).
  { intros p o Hp Ho Hun. exists rs. split_and!; [done| |by eapply accepted_ok_change]. by apply journal_phase. }
  destruct r as [v|cause].
  - destruct (rpc_result _ v) as [v'|err] eqn:Ev; injection Hout as <- <-; apply Hdone; try (by repeat constructor).
    + unfold rpc_result, journal_checked in Ev. destruct (parseRpcResult _ v) as [v''|] eqn:Ep'; [|done]. injection Ev as ->.
      split_and!; [done| |done|by eapply rpc_again]. split; [done|]. split; [by eapply Hok|done].
    + intros c. by rewrite Hn.
  - injection Hout as <- <-. apply Hdone; [|constructor|by left]. by split_and!.
Qed.

Lemma append_terminal_inv tr w key answer w' out :
  inv tr (Up w) → clean_write answer → append_terminal key answer w = Some (w', out) → inv (tr ++ out) (Up w').
Proof.
  intros (rs & Hf & Hj & Hacc) Hw. unfold append_terminal. destruct (map_get key _) as [e|] eqn:Ek; [|done].
  destruct (ce_running e) as [ru|] eqn:Eru; [|done]. destruct (ru_phase ru) as [|c|] eqn:Ep; try done. intros [= Hout].
  pose proof (ji_entries _ _ _ Hj _ _ Ek) as He. pose proof (en_phase _ _ _ He ru Eru) as Hph. rewrite Ep in Hph.
  destruct Hph as (Hn & Hc & Hck & Hv).
  destruct (appendSynced_clean (Completed c) answer (lv_file w) Hw) as [Ha | Ha]; rewrite Ha in Hout; injection Hout as <- <-.
  - exists (rs ++ [Completed c]). rewrite journal_file_snoc. cbn. rewrite Hf. split_and!; [done| |by eapply accepted_ok_change].
    apply journal_complete; try done. intros r [= <-]. split; [done|]. exact (en_waiters _ _ _ He ru Eru).
  - exists rs. split_and!; [done| |by eapply accepted_ok_change]. apply journal_phase; try done; [|by repeat constructor|by right].
    intros c'. by rewrite Hn.
Qed.

Lemma entry_release tr k e ru o :
  entry_ok tr k e → ce_running e = Some ru → ru_phase ru = Settled o → entry_ok tr k (set_running None e).
Proof.
  intros [Hk Hr Hv Hp Hw Hc] Hru Hph. split; cbn; try done.
  unfold settled_or_running, unfinished in *. cbn. rewrite Hru, Hph in Hc. done.
Qed.

Lemma release_inv tr w key w' out : inv tr (Up w) → release key w = Some (w', out) → inv (tr ++ out) (Up w').
Proof.
  intros (rs & Hf & Hj & Hacc). unfold release. destruct (map_get key _) as [e|] eqn:Ek; [|done].
  destruct (ce_running e) as [ru|] eqn:Eru; [|done]. destruct (ru_phase ru) as [| |o] eqn:Ep; try done. intros [= <- <-].
  pose proof (ji_entries _ _ _ Hj _ _ Ek) as He. exists rs. split_and!; [done| |by eapply accepted_ok_change].
  apply journal_answers.
  - apply journal_silent; [done..|]. by eapply entry_release.
  - apply Forall_fmap. eapply Forall_impl; [exact (en_waiters _ _ _ He ru Eru)|]. intros [r i] Hi. split; [done|].
    cbn in *. rewrite Hi. intros c Hc%(en_recorded _ _ _ He). left.
    pose proof (en_phase _ _ _ He ru Eru) as Hph. rewrite Ep in Hph. by apply Hph.
Qed.
End Steps.

(** ** Crashes and restarts *)

Section Restarts.
Context `{ResultContract}.

#[local] Opaque record_line.

Lemma lost_keys_spec es k e :
  map_get k es = Some e → unfinished e = true →
  k ∈ omap (λ ke : string * CommandEntry, if unfinished ke.2 then Some ke.1 else None) es.
Proof.
  intros Hk Hu. apply list_elem_of_omap. exists (k, e). split; [by apply map_get_Some_elem|]. cbn. by rewrite Hu.
Qed.

Lemma strip_twice es : strip (strip es) = strip es.
Proof. unfold strip. rewrite <- list_fmap_compose. done. Qed.

Lemma crash_down tr es rs l t :
  journal_inv tr es rs → one_line t = true → (∀ k e, map_get k es = Some e → unfinished e = true → k ∈ l) →
  inv (tr ++ (Lost <$> l)) (Down (journal_file rs +:+ t)).
Proof.
  intros Hj Ht Hl. exists rs, t, (strip es). split_and!; [done|done|by apply journal_lose|apply strip_twice].
Qed.

Lemma crash_clean tr es rs l :
  journal_inv tr es rs → (∀ k e, map_get k es = Some e → unfinished e = true → k ∈ l) →
  inv (tr ++ (Lost <$> l)) (Down (journal_file rs)).
Proof. intros Hj Hl. rewrite <- (string_app_nil_r (journal_file rs)). by eapply crash_down. Qed.

Lemma crash_inv tr w interrupted file out :
  inv tr (Up w) → action_ok (Crash interrupted) → crash interrupted w = Some (file, out) → inv (tr ++ out) (Down file).
Proof.
  intros (rs & Hf & Hj & _) Hok. unfold crash. pose proof (lost_keys_spec (lv_entries w)) as Hlost.
  set (lost := omap _ (lv_entries w)) in *. destruct interrupted as [|i now n|key n].
  - intros [= <- <-]. rewrite Hf. by eapply crash_clean.
  - destruct (map_get _ _) eqn:Ek; [done|]. intros [= <- <-]. rewrite Hf.
    destruct (torn_append (Accepted (acceptance_of i now)) n (journal_file rs) Hok) as [[_ Hfile] | (_ & t & Ht & Hfile)];
      rewrite Hfile; [|by eapply crash_down].
    rewrite <- journal_file_snoc. eapply crash_clean; [exact (journal_accept _ _ _ (acceptance_of i now) Hj Ek Hok)|].
    intros k e. rewrite map_get_set. case_bool_decide; [by intros [= <-]|]. apply Hlost.
  - destruct (map_get _ _) as [[a compl [[[|c|] ws]|]]|] eqn:Ek; try done. intros [= <- <-]. rewrite Hf.
    pose proof (ji_entries _ _ _ Hj _ _ Ek) as He. pose proof (en_phase _ _ _ He _ eq_refl) as (Hn & Hc & Hck & Hv).
    destruct (torn_append (Completed c) n (journal_file rs) Hc) as [[Hd Hfile] | (Hd & t & Ht & Hfile)];
      cbn [durable] in Hd; rewrite Hd, Hfile; [|by eapply crash_down].
    rewrite <- journal_file_snoc. rewrite cons_middle, app_assoc.
    eapply crash_clean; [by eapply (journal_complete _ _ _ _ _ c None)|].
    intros k e. rewrite map_get_set. case_bool_decide as Hk; [by intros [= <-]|]. intros Hk' Hu.
    apply list_elem_of_filter. split; [congruence|by eapply Hlost].
Qed.

Lemma complete_running e c : ce_running e = None → set_running None (complete c e) = complete c e.
Proof. destruct e. cbn. by intros ->. Qed.

Lemma terminal_of_ok a r now c :
  recovered_ok r → time_ok now → is_uuid (ca_idempotencyKey a) = true → terminal_of a r now = Ok c →
  completion_ok c ∧ completion_key c = ca_idempotencyKey a ∧ valid_for (ca_method a) c.
Proof.
  intros Hr Ht Hu. destruct r as [v|e]; cbn; [|by intros [= <-]]. unfold rpc_result, journal_checked.
  destruct (parseRpcResult (ca_method a) v) as [v'|] eqn:Ev; [|done]. intros [= <-].
  split_and!; [split; [done|]; split; [by eapply Hr|done]|done|by eapply rpc_again].
Qed.

Lemma map_set_middle (k : string) (v v' : CommandEntry) a b :
  k ∉ a.*1 → map_set k v' (a ++ (k, v) :: b) = a ++ (k, v') :: b.
Proof.
  induction a as [|[k0 v0] a IH]; simpl; [by rewrite bool_decide_true|].
  intros [? ?]%not_elem_of_cons. rewrite bool_decide_false by congruence. by rewrite IH.
Qed.

Lemma map_get_middle (k : string) (v : CommandEntry) a b : k ∉ a.*1 → map_get k (a ++ (k, v) :: b) = Some v.
Proof.
  induction a as [|[k0 v0] a IH]; simpl; [by rewrite bool_decide_true|].
  intros [? ?]%not_elem_of_cons. rewrite bool_decide_false by congruence. by apply IH.
Qed.

Lemma journal_keys tr es rs : journal_inv tr es rs → NoDup es.*1.
Proof. intros Hj. rewrite <- (strip_keys es). apply (install_all_ok rs). apply Hj. Qed.

(** What the file and the entries are once a reconciliation stops, wherever it does. *)
Definition reconciled (tr : list output) (before : entries) (r : result journal_error entries) (file : string)
    (cs : list CommandCompletion) : Prop :=
  ∃ rs t es, file = journal_file rs +:+ t ∧ one_line t = true ∧
    journal_inv (tr ++ ((λ c, Recorded (completion_key c) c) <$> cs)) es rs ∧ strip es = es ∧
    ∀ rest, r = Ok rest → es = before ++ rest ∧ t = "".

Lemma reconciled_stop tr before es rs t e :
  journal_inv tr es rs → strip es = es → one_line t = true → reconciled tr before (Err e) (journal_file rs +:+ t) [].
Proof. intros. exists rs, t, es. rewrite app_nil_r. by split_and!. Qed.

Lemma reconciled_stop_clean tr before es rs e :
  journal_inv tr es rs → strip es = es → reconciled tr before (Err e) (journal_file rs) [].
Proof. intros. rewrite <- (string_app_nil_r (journal_file rs)). by eapply reconciled_stop. Qed.

Lemma reconciled_next tr before key e r file c cs :
  reconciled (tr ++ (Recorded (completion_key c) <$> [c])) (before ++ [(key, e)]) r file cs →
  reconciled tr before ((λ rest, (key, e) :: rest) <$$> r) file (c :: cs).
Proof.
  intros (rs & t & es & Hf & Ht & Hj & Hs & Hr). exists rs, t, es. rewrite <- app_assoc in Hj. split_and!; try done.
  intros rest (rest' & -> & ->)%rmap_Ok. destruct (Hr rest' eq_refl) as [-> ->]. by rewrite <- app_assoc.
Qed.

Lemma reconciled_skip tr before key e r file cs :
  reconciled tr (before ++ [(key, e)]) r file cs → reconciled tr before ((λ rest, (key, e) :: rest) <$$> r) file cs.
Proof.
  intros (rs & t & es & Hf & Ht & Hj & Hs & Hr). exists rs, t, es. split_and!; try done.
  intros rest (rest' & -> & ->)%rmap_Ok. destruct (Hr rest' eq_refl) as [-> ->]. by rewrite <- app_assoc.
Qed.

Lemma strip_middle before key e rest :
  strip (before ++ (key, e) :: rest) = before ++ (key, e) :: rest → ce_running e = None.
Proof.
  unfold strip. rewrite fmap_app. intros E. apply app_inj_1 in E as [_ E]; [|by rewrite length_fmap].
  cbn in E. injection E as E _. rewrite <- E. done.
Qed.

Lemma reconcile_inv recover clock writes rest : ∀ tr before rs i r file cs,
  (∀ a r, recover a = Ok (Some r) → recovered_ok r) → (∀ n, time_ok (clock n)) →
  journal_inv tr (before ++ rest) rs → strip (before ++ rest) = before ++ rest →
  reconcile recover clock writes i rest (journal_file rs) = (r, file, cs) →
  reconciled tr before r file cs.
Proof.
  induction rest as [|[key e] rest IH]; intros tr before rs i r file cs Hrec Hclock Hj Hs Hr.
  { injection Hr as <- <- <-. rewrite app_nil_r in *. exists rs, "", before. rewrite string_app_nil_r, app_nil_r.
    split_and!; try done. intros rest [= <-]. by rewrite app_nil_r. }
  assert (Hkey : key ∉ before.*1).
  { pose proof (journal_keys _ _ _ Hj) as Hnd. rewrite fmap_app in Hnd. apply NoDup_app in Hnd as (_ & Hd & _).
    intros Hin. apply (Hd key Hin). by left. }
  pose proof (map_get_middle key e before rest Hkey) as Ek. pose proof (ji_entries _ _ _ Hj _ _ Ek) as He.
  destruct (en_key _ _ _ He) as [Hk Hu]. pose proof (strip_middle _ _ _ _ Hs) as Hrun.
  assert (Hnext : before ++ (key, e) :: rest = (before ++ [(key, e)]) ++ rest) by by rewrite <- app_assoc.
  cbn [reconcile] in Hr. destruct (ce_completion e) as [c0|] eqn:Ec.
  { destruct (reconcile recover clock writes (S i) rest (journal_file rs)) as [[r' f'] cs'] eqn:Er.
    injection Hr as <- <- <-. apply reconciled_skip. rewrite Hnext in Hj, Hs. by eapply IH. }
  destruct (recover (ce_acceptance e)) as [[x|]|err] eqn:Ex.
  - destruct (terminal_of (ce_acceptance e) x (clock i)) as [c|err] eqn:Et;
      [|injection Hr as <- <- <-; by eapply reconciled_stop_clean].
    rewrite <- Hk in Hu. apply terminal_of_ok in Et as (Hc & Hck & Hv); [|by eapply Hrec|done|done].
    rewrite Hk in Hck.
    pose proof (journal_complete _ _ _ _ _ c None Hj Ek Ec Hc Hck Hv ltac:(done)) as Hj'.
    rewrite complete_running, map_set_middle in Hj' by done.
    assert (Hs' : strip (before ++ (key, complete c e) :: rest) = before ++ (key, complete c e) :: rest).
    { unfold strip in *. rewrite fmap_app in *. cbn in *. apply app_inj_1 in Hs as [-> E]; [|by rewrite length_fmap].
      injection E as _ ->. by rewrite complete_running. }
    destruct (writes i) as [|n]; cbn [appendSynced] in Hr.
    + rewrite <- journal_file_snoc in Hr.
      destruct (reconcile recover clock writes (S i) rest _) as [[r' f'] cs'] eqn:Er. injection Hr as <- <- <-.
      apply reconciled_next. eapply IH; [done|done| | |exact Er]; rewrite <- app_assoc; cbn; [by rewrite Hck|done].
    + destruct (torn_append (Completed c) n (journal_file rs) Hc) as [[Hd Hfile] | (Hd & t & Ht & Hfile)];
        rewrite Hd, Hfile in Hr; injection Hr as <- <- <-.
      * exists (rs ++ [Completed c]), "", (before ++ (key, complete c e) :: rest). rewrite journal_file_snoc, string_app_nil_r.
        split_and!; try done. cbn. by rewrite Hck.
      * by eapply reconciled_stop.
  - destruct (reconcile recover clock writes (S i) rest (journal_file rs)) as [[r' f'] cs'] eqn:Er.
    injection Hr as <- <- <-. apply reconciled_skip. rewrite Hnext in Hj, Hs. by eapply IH.
  - injection Hr as <- <- <-. by eapply reconciled_stop_clean.
Qed.

Lemma start_inv path tr file answers recover clock writes d out :
  inv tr (Down file) → action_ok (Open answers recover clock writes) →
  start path answers recover clock writes file = (d, out) → inv (tr ++ out) d.
Proof.
  intros (rs & t & es & -> & Ht & Hj & Hs) [Hrec Hclock]. unfold start.
  destruct (open_journal_spec path answers rs t (ji_records _ _ _ Hj) Ht) as [-> | (t' & Ht' & _ & ->)].
  - rewrite (ji_install _ _ _ Hj), Hs. destruct (reconcile _ _ _ _ _ _) as [[r f] cs] eqn:Er.
    apply (reconcile_inv _ _ _ _ tr []) in Er as (rs' & t' & es' & -> & Ht' & Hj' & Hs' & Hr); try done.
    intros [= <- <-]. destruct r as [es''|err].
    + destruct (Hr es'' eq_refl) as [-> ->]. exists rs'. cbn. rewrite string_app_nil_r. split_and!; try done.
    + by exists rs', t', es'.
  - intros [= <- <-]. rewrite app_nil_r. by exists rs, t', es.
Qed.
End Restarts.

(** ** Runs *)

Section Runs.
Context `{ResultContract} (path : string).

Lemma step_inv tr d a d' out : inv tr d → action_ok a → step path d a = Some (d', out) → inv (tr ++ out) d'.
Proof.
  intros Hi Ha. unfold step, lift_live. destruct d as [w|file], a; try done.
  - destruct (map_has _ _) eqn:Eh; [done|]. destruct (accept _ _ _ _ _) as [w' o] eqn:E. intros [= <- <-].
    destruct Ha. by eapply accept_inv.
  - destruct (dispatch _ _) as [[w' o]|] eqn:E; [|done]. intros [= <- <-]. by eapply dispatch_inv.
  - destruct (effect_settles _ _ _ _) as [[w' o]|] eqn:E; [|done]. intros [= <- <-]. destruct Ha as [Hv Ht].
    exact (effect_settles_inv _ _ _ (inl _) _ _ _ Hi Hv Ht E).
  - destruct (effect_settles _ _ _ _) as [[w' o]|] eqn:E; [|done]. intros [= <- <-]. destruct Ha as [Hv Ht].
    exact (effect_settles_inv _ _ _ (inr _) _ _ _ Hi Hv Ht E).
  - destruct (append_terminal _ _ _) as [[w' o]|] eqn:E; [|done]. intros [= <- <-]. by eapply append_terminal_inv.
  - destruct (release _ _) as [[w' o]|] eqn:E; [|done]. intros [= <- <-]. by eapply release_inv.
  - destruct (crash _ _) as [[f o]|] eqn:E; [|done]. intros [= <- <-]. by eapply crash_inv.
  - intros [= E]. by eapply start_inv.
Qed.

Lemma run_inv actions tr d d' out :
  inv tr d → Forall action_ok actions → run path d actions = Some (d', out) → inv (tr ++ out) d'.
Proof.
  revert tr d out. induction actions as [|a actions IH]; intros tr d out Hi Ha; cbn [run].
  { intros [= <- <-]. by rewrite app_nil_r. }
  apply Forall_cons in Ha as [Ha Has]. destruct (step path d a) as [[d1 o1]|] eqn:Es; [|done].
  destruct (run path d1 actions) as [[d2 o2]|] eqn:Er; [|done]. intros [= <- <-]. rewrite app_assoc.
  eapply IH; [|done|done]. by eapply step_inv.
Qed.

(** The directory of a daemon that never ran. *)
Lemma fresh_inv : inv [] (Down "").
Proof.
  exists [], "", []. split_and!; try done. split; [constructor|done|done| |constructor].
  intros k _. split; [done|]. by intros c ?%elem_of_nil.
Qed.
End Runs.

(** ** The promises *)

Definition open_ok : open_answers := {| oa_read := true; oa_truncate := true; oa_sync := true |}.
Definition journal_bytes (d : daemon) : string := match d with Up w => lv_file w | Down file => file end.



(** ** A run, and two that end a journal *)

Definition sample_key : string := "7f000000-0000-4000-8000-000000000001".
Definition sample_digest : string := String.concat "" (replicate 16 "0af9").
Definition sample_command : command :=
  {| cm_idempotencyKey := sample_key; cm_method := "session.delete"; cm_requestHash := sample_digest;
     cm_targetSessionId := Some sample_key; cm_intendedSessionId := None; cm_affectedOperationId := None;
     cm_interactionId := None |}.
Definition deleted : jsval := JObj [("deleted", JBool true); ("historyPreserved", JBool false)].

(** The parser of the wire protocol, as the journal uses it. *)
#[export] Instance wire_results : ResultContract :=
  {| parseRpcResult := WireResults.parseRpcResult; rpc_again := rpc_result_again |}.

Lemma deleted_result : json_result deleted.
Proof.
  intros m w. cbn [parseRpcResult wire_results]. unfold WireResults.parseRpcResult. cbv zeta.
  repeat (destruct (_ : bool); [intros H; vm_compute in H; first [discriminate H | injection H as <-; by vm_compute]|]).
  done.
Qed.

(** A call whose effect is cut short by a crash, its retry, a call that joins the
    retry, and one more after the answer. *)
Definition sample_run : list action :=
  [Open open_ok (λ _, Ok None) (λ _, 0%Z) (λ _, Written); Accept 1 sample_command 10 Written; Dispatch 1;
   Crash Nothing; Open open_ok (λ _, Ok None) (λ _, 0%Z) (λ _, Written);
   Accept 2 sample_command 20 Written; Dispatch 2; Accept 3 sample_command 21 Written;
   EffectReturns sample_key deleted 30; Dispatch 3; Append sample_key Written; Release sample_key;
   Crash (Accepting {| cm_idempotencyKey := "7f000000-0000-4000-8000-000000000002"; cm_method := "session.delete";
                       cm_requestHash := sample_digest; cm_targetSessionId := None; cm_intendedSessionId := None;
                       cm_affectedOperationId := None; cm_interactionId := Some "choice" |} 40 25);
   Open open_ok (λ _, Ok None) (λ _, 0%Z) (λ _, Written); Accept 4 sample_command 50 Written; Dispatch 4].

Lemma acceptance_ok_dec a :
  is_uuid (ca_idempotencyKey a) && isRetryableMutationMethod (ca_method a) && rmatch sha256_digest (ca_requestHash a)
    && is_uuid (ca_operationId a) && (0 <=? ca_acceptedAt a)%Z && (ca_acceptedAt a <=? MAX_SAFE_INTEGER)%Z = true →
  id_ok (ca_targetSessionId a) → id_ok (ca_intendedSessionId a) → id_ok (ca_affectedOperationId a) →
  (∀ s, ca_interactionId a = Some s → s ≠ "" ∧ utf8_valid s = true) → acceptance_ok a.
Proof.
  unfold isRetryableMutationMethod. intros Hb Ht Hi Ha Hn. inv_ok. split; try done. split; by apply Z.leb_le.
Qed.

Lemma sample_run_ok : Forall action_ok sample_run.
Proof.
  assert (Ha : ∀ z, (0 <= z <= 50)%Z → acceptance_ok (acceptance_of sample_command z)).
  { intros z Hz. assert ((z <= MAX_SAFE_INTEGER)%Z) by (unfold MAX_SAFE_INTEGER; lia).
    apply acceptance_ok_dec; [|by vm_compute|done|done|done]. cbn [acceptance_of ca_acceptedAt].
    rewrite (proj2 (Z.leb_le 0 z)), (proj2 (Z.leb_le z _)) by lia. by vm_compute. }
  assert (Ho : action_ok (Open open_ok (λ _, Ok None) (λ _, 0%Z) (λ _, Written))).
  { split; [by intros|]. intros _. by vm_compute. }
  assert (Hw : ∀ r z, (0 <= z <= 50)%Z → action_ok (Accept r sample_command z Written)).
  { intros r z Hz. split; [by left|auto]. }
  repeat first [apply Forall_nil_2 | apply Forall_cons_2];
    try first [exact Ho | exact I | by apply Hw | by left | split; [exact deleted_result|by vm_compute]].
  apply acceptance_ok_dec; try by vm_compute. by intros s [= <-].
Qed.



Definition journal_path : string := "/data/commands.jsonl".

(** an effect that throws an error with an empty message is recorded with that
    message, and the parser of records refuses it: the next start of the daemon
    finds its journal corrupt, although every write succeeded. *)
Theorem empty_message_locks_journal `{ResultContract} :
  ∃ w tr, run journal_path (Down "")
      [Open open_ok (λ _, Ok None) (λ _, 0%Z) (λ _, Written); Accept 1 sample_command 10 Written; Dispatch 1;
       EffectThrows sample_key (ThrownError "" None None) 20; Append sample_key Written; Release sample_key]
      = Some (Up w, tr) ∧
    (open_journal journal_path open_ok (lv_file w)).1 = Err (JournalError ("Corrupt command journal " +:+ quote journal_path)).
Proof. eexists _, _. split; [vm_compute; reflexivity|]. vm_compute. reflexivity. Qed.

(** an acceptance whose write reached the file and whose sync failed is not in
    memory, so the retry the caller makes writes a second acceptance of the key: the
    next start of the daemon refuses the journal. *)
Theorem unsynced_acceptance_locks_journal `{ResultContract} :
  ∃ w tr, run journal_path (Down "")
      [Open open_ok (λ _, Ok None) (λ _, 0%Z) (λ _, Written); Accept 1 sample_command 10 (WriteFails 1000);
       Accept 2 sample_command 20 Written]
      = Some (Up w, tr) ∧ tr = [Responded 1 sample_command (Rejected JournalIo)] ∧
    (open_journal journal_path open_ok (lv_file w)).1 =
      Err (JournalError ("Corrupt command journal: duplicate acceptance " +:+ sample_key)).
Proof. eexists _, _. split; [vm_compute; reflexivity|]. split; [reflexivity|]. vm_compute. reflexivity. Qed.
