(* ===== verification/WireJournal.v ===== *)
(** The command journal over the wire protocol: what a call that reached the journal is
    answered with is a result of its method, which the parser of results accepts as it
    is, however often the answer is replayed, joined or read back after a crash. *)
From stdpp Require Import base list sets strings pretty.
From Stdlib Require Import ZArith Lia Ascii.
From S2P Require Import Prelude Text JsValue Json JsonText Utf8 JsonClean Envelope JsMap WireTables EventLog.
From S2P Require Import WireFields WireResults WireResultsFacts CommandJournal CommandJournalFacts CommandJournalRuns.

(** ** Answers of a journal over any protocol *)

Section Answers.
Context `{ResultContract}.

Definition accepted_result (m : string) (o : outcome) : Prop :=
  match o with Fulfilled v => parseRpcResult m v = Ok v | Rejected _ => True end.

Definition well_answered (x : output) : Prop :=
  match x with Responded _ i o => accepted_result (cm_method i) o | _ => True end.

(** The calls that wait for an entry have its method; what they wait for is a result of it. *)
Record entry_answers (e : CommandEntry) : Prop := {
  ea_waiters : ∀ ru, ce_running e = Some ru →
    Forall (λ ri, cm_method ri.2 = ca_method (ce_acceptance e)) (ru_waiters ru);
  ea_settled : ∀ ru o, ce_running e = Some ru → ru_phase ru = Settled o → accepted_result (ca_method (ce_acceptance e)) o
}.

Definition entries_answer (es : entries) : Prop := ∀ k e, map_get k es = Some e → entry_answers e.
Definition daemon_answers (d : daemon) : Prop := match d with Up w => entries_answer (lv_entries w) | Down _ => True end.

Lemma idle_answers e : ce_running e = None → entry_answers e.
Proof. intros He. split; intros ru; by rewrite He. Qed.

Lemma phase_answers e ru p :
  entry_answers e → ce_running e = Some ru → (∀ o, p = Settled o → accepted_result (ca_method (ce_acceptance e)) o) →
  entry_answers (set_running (Some {| ru_phase := p; ru_waiters := ru_waiters ru |}) e).
Proof.
  intros [Hw _] Hru Hp. split; cbn; [intros ? [= <-]; exact (Hw ru Hru)|intros ? ? [= <-]; cbn; apply Hp].
Qed.

Lemma entries_change k e es : entries_answer es → entry_answers e → entries_answer (map_set k e es).
Proof. intros Hes He k' e'. rewrite map_get_set. case_bool_decide; [by intros [= <-]|apply Hes]. Qed.

Lemma strip_answers es : strip es = es → entries_answer es.
Proof.
  intros E k e. rewrite <- E, map_get_strip. intros (e' & _ & ->)%fmap_Some. by apply idle_answers.
Qed.

(** A completion answers with a result of the method it was recorded for. *)
Lemma valid_answers m c : valid_for m c → accepted_result m (recorded_outcome c).
Proof. by destruct c. Qed.

Lemma replay_answers m c : accepted_result m (replay m c).
Proof.
  destruct c as [k v t|]; cbn; [|done]. destruct (rpc_result m v) as [v'|] eqn:E; cbn; [|done].
  unfold rpc_result, journal_checked in E. destruct (parseRpcResult m v) eqn:Ep; [|done]. injection E as ->. by eapply rpc_again.
Qed.
End Answers.

(** ** Every step *)

(** Outputs that answer nothing, or refuse. *)
Ltac silent := solve [repeat first [apply Forall_nil_2 | apply Forall_cons_2; [done|]]].


Section Steps.
Context `{ResultContract} (path : string).

Lemma accept_answers w request i now answer w' out :
  entries_answer (lv_entries w) → accept request i now answer w = (w', out) →
  entries_answer (lv_entries w') ∧ Forall well_answered out.
Proof.
  intros Hw. unfold accept. destruct (map_get _ _).
  - destruct (same_request _ _); intros [= <- <-]; (split; [done|silent]).
  - destruct (appendSynced _ _ _) as [[] file']; intros [= <- <-]; (split; [|silent]); [|done].
    by apply entries_change, idle_answers.
Qed.

Lemma dispatch_answers tr w request w' out :
  inv tr (Up w) → entries_answer (lv_entries w) → dispatch request w = Some (w', out) →
  entries_answer (lv_entries w') ∧ Forall well_answered out.
Proof.
  intros (rs & _ & _ & Hacc) Hw. unfold dispatch. destruct (map_get request _) as [i|] eqn:Er; [|done].
  destruct (Hacc _ _ Er) as (e & Ek & Hs). rewrite Ek. intros [= Hrun].
  apply andb_true_iff in Hs as [Hm%bool_decide_eq_true _]. pose proof (Hw _ _ Ek) as He. unfold run_entry in Hrun.
  destruct (ce_completion e) as [c|].
  - injection Hrun as <- <-. split; [done|]. apply Forall_singleton, replay_answers.
  - destruct (ce_running e) as [ru|] eqn:Eru; injection Hrun as <- <-; (split; [|silent]); apply entries_change; try done.
    + split; cbn; [|intros ? o [= <-]; exact (ea_settled e He ru o Eru)].
      intros ? [= <-]. apply Forall_app. split; [by apply (ea_waiters e He)|by apply Forall_singleton].
    + split; cbn; [|by intros ? o [= <-]]. intros ? [= <-]. by apply Forall_singleton.
Qed.

Lemma effect_answers w key r now w' out :
  entries_answer (lv_entries w) → effect_settles key r now w = Some (w', out) →
  entries_answer (lv_entries w') ∧ Forall well_answered out.
Proof.
  intros Hw. unfold effect_settles. destruct (map_get key _) as [e|] eqn:Ek; [|done].
  destruct (ce_running e) as [ru|] eqn:Eru; [|done]. destruct (ru_phase ru); try done. pose proof (Hw _ _ Ek) as He.
  assert (Hp : ∀ p, (∀ o, p = Settled o → accepted_result (ca_method (ce_acceptance e)) o) →
    entries_answer (lv_entries (with_phase key p ru e w))) by (intros p Hp; by apply entries_change, phase_answers).
  destruct r as [v|cause]; [destruct (rpc_result _ v)|]; intros [= <- <-]; (split; [apply Hp|silent]); naive_solver.
Qed.

Lemma append_answers tr w key answer w' out :
  inv tr (Up w) → entries_answer (lv_entries w) → append_terminal key answer w = Some (w', out) →
  entries_answer (lv_entries w') ∧ Forall well_answered out.
Proof.
  intros (rs & _ & Hj & _) Hw. unfold append_terminal. destruct (map_get key _) as [e|] eqn:Ek; [|done].
  destruct (ce_running e) as [ru|] eqn:Eru; [|done]. destruct (ru_phase ru) as [|c|] eqn:Ep; try done.
  pose proof (Hw _ _ Ek) as He. pose proof (en_phase _ _ _ (ji_entries _ _ _ Hj _ _ Ek) ru Eru) as Hph. rewrite Ep in Hph.
  destruct Hph as (_ & _ & _ & Hv).
  destruct (appendSynced _ _ _) as [[] file']; intros [= <- <-]; (split; [|silent]); apply entries_change; try done.
  - apply (phase_answers (complete c e) ru); [by destruct He; split|done|]. intros o [= <-]. by apply valid_answers.
  - apply phase_answers; [done..|]. by intros o [= <-].
Qed.

Lemma release_answers w key w' out :
  entries_answer (lv_entries w) → release key w = Some (w', out) → entries_answer (lv_entries w') ∧ Forall well_answered out.
Proof.
  intros Hw. unfold release. destruct (map_get key _) as [e|] eqn:Ek; [|done].
  destruct (ce_running e) as [ru|] eqn:Eru; [|done]. destruct (ru_phase ru) as [| |o] eqn:Ep; try done. intros [= <- <-].
  pose proof (Hw _ _ Ek) as He. split; [by apply entries_change, idle_answers|].
  apply Forall_fmap. eapply Forall_impl; [by apply (ea_waiters e He)|]. intros [r i] Hi. cbn in *. rewrite Hi.
  by eapply ea_settled.
Qed.

Lemma start_answers tr file answers recover clock writes d out :
  inv tr (Down file) → action_ok (Open answers recover clock writes) →
  start path answers recover clock writes file = (d, out) → daemon_answers d ∧ Forall well_answered out.
Proof.
  intros (rs & t & es & -> & Ht & Hj & Hs) [Hrec Hclock]. unfold start.
  destruct (open_journal_spec path answers rs t (ji_records _ _ _ Hj) Ht) as [-> | (t' & Ht' & _ & ->)].
  - rewrite (ji_install _ _ _ Hj), Hs. destruct (reconcile _ _ _ _ _ _) as [[r f] cs] eqn:Er.
    apply (reconcile_inv _ _ _ _ tr []) in Er as (rs' & t' & es' & -> & Ht' & Hj' & Hs' & Hr); try done.
    intros [= <- <-]. split; [|by apply Forall_fmap, Forall_true]. destruct r as [es''|err]; [|done].
    destruct (Hr es'' eq_refl) as [-> ->]. by apply strip_answers.
  - intros [= <- <-]. by split.
Qed.

Lemma step_answers tr d a d' out :
  inv tr d → daemon_answers d → action_ok a → step path d a = Some (d', out) → daemon_answers d' ∧ Forall well_answered out.
Proof.
  intros Hi Hd Ha. unfold step, lift_live. destruct d as [w|file], a; try done.
  - destruct (map_has _ _); [done|]. destruct (accept _ _ _ _ _) as [w' o] eqn:E. intros [= <- <-]. by eapply accept_answers.
  - destruct (dispatch _ _) as [[w' o]|] eqn:E; [|done]. intros [= <- <-]. by eapply dispatch_answers.
  - destruct (effect_settles _ _ _ _) as [[w' o]|] eqn:E; [|done]. intros [= <- <-]. by eapply effect_answers.
  - destruct (effect_settles _ _ _ _) as [[w' o]|] eqn:E; [|done]. intros [= <- <-]. by eapply effect_answers.
  - destruct (append_terminal _ _ _) as [[w' o]|] eqn:E; [|done]. intros [= <- <-]. by eapply append_answers.
  - destruct (release _ _) as [[w' o]|] eqn:E; [|done]. intros [= <- <-]. by eapply release_answers.
  - destruct (crash _ _) as [[f o]|] eqn:E; [|done]. intros [= <- <-]. split; [done|]. revert E. unfold crash.
    destruct interrupted; repeat case_match; try done; intros [= <- <-];
      repeat first [apply Forall_cons_2; [done|] | by apply Forall_fmap, Forall_true].
  - intros [= E]. by eapply start_answers.
Qed.

Lemma run_answers actions tr d d' out :
  inv tr d → daemon_answers d → Forall action_ok actions → run path d actions = Some (d', out) → Forall well_answered out.
Proof.
  revert tr d out. induction actions as [|a actions IH]; intros tr d out Hi Hd Ha; cbn [run]; [by intros [= <- <-]|].
  apply Forall_cons in Ha as [Ha Has]. destruct (step path d a) as [[d1 o1]|] eqn:Es; [|done].
  destruct (run path d1 actions) as [[d2 o2]|] eqn:Er; [|done]. intros [= <- <-].
  destruct (step_answers _ _ _ _ _ Hi Hd Ha Es) as [Hd1 Ho1]. apply Forall_app. split; [done|].
  eapply IH; [|done|done|done]. by eapply step_inv.
Qed.
End Steps.

(** ** Over the wire *)

(** C33: Whatever calls overlap, whatever fails and wherever the daemon crashes and
    restarts, a call is answered with a result of its method that the parser of
    the client accepts and returns unchanged, or with an error. *)
Theorem answers_are_results path actions d tr r i v :
  Forall action_ok actions → run path (Down "") actions = Some (d, tr) → Responded r i (Fulfilled v) ∈ tr →
  WireResults.parseRpcResult (cm_method i) v = Ok v.
Proof.
  intros Ha Hr Hin. pose proof (run_answers path actions [] _ _ _ fresh_inv I Ha Hr) as Hw.
  rewrite Forall_forall in Hw. exact (Hw _ Hin).
Qed.

Lemma answers_are_results_witness :
  ∃ d tr, run "commands.jsonl" (Down "") sample_run = Some (d, tr) ∧ Responded 4 sample_command (Fulfilled deleted) ∈ tr ∧
    WireResults.parseRpcResult "session.delete" deleted = Ok deleted.
Proof.
  eexists _, _. split; [vm_compute; reflexivity|]. split; [apply (list_elem_of_lookup_2 _ 6); reflexivity|].
  eapply (answers_are_results "commands.jsonl" sample_run _ _ 4 sample_command deleted sample_run_ok);
    [vm_compute; reflexivity|apply (list_elem_of_lookup_2 _ 6); reflexivity].
Defined.
