(* ===== verification/SessionTree.v ===== *)
(** kernel/src/session-tree.ts: the tree of events of one session.

    The contract is [log_ok]: what an event log must be for [fromEvents] to
    accept it, stated without the pass that checks it. *)
From stdpp Require Import base list sets strings pretty.
From Stdlib Require Import ZArith Lia.
From S2P Require Import Prelude Text JsValue Envelope Types JsMap.

Record SessionTreeIntegrityError := {
  stie_index : Z;
  stie_eventId : option string;
  stie_message : string
}.

(** What the operations of a tree throw. *)
Inductive tree_error :=
| TreeInvalid (e : ProtocolValidationError)
| TreeIntegrity (e : SessionTreeIntegrityError).

Abbreviation integrity index id message :=
  (Err (TreeIntegrity {| stie_index := index; stie_eventId := Some id; stie_message := message |})).

Record SessionTreeNode := {
  node_event : event;
  node_children : list string
}.

Record SessionTree := {
  tree_sessionId : string;
  tree_nodes : list (string * SessionTreeNode);
  tree_root : option string
}.

(** [parent.children.push(id)]: the node is shared with the map. *)
Definition push_child (id : string) (parent : SessionTreeNode) : SessionTreeNode :=
  {| node_event := node_event parent; node_children := node_children parent ++ [id] |}.

(** The body of the loop of [fromEvents]. *)
Definition add_event (expected : string) (index : nat) (tree : SessionTree) (e : event) :
    result tree_error SessionTree :=
  let nodes := tree_nodes tree in
  let add nodes root :=
    {| tree_sessionId := expected;
       tree_nodes := map_set (ev_id e) {| node_event := e; node_children := [] |} nodes;
       tree_root := root |} in
  if negb (bool_decide (ev_sessionId e = expected)) then
    integrity (Z.of_nat index) (ev_id e)
      ("belongs to session " +:+ ev_sessionId e +:+ ", not " +:+ expected)
  else if map_has (ev_id e) nodes then
    integrity (Z.of_nat index) (ev_id e) "duplicates an earlier event ID"
  else
    match ev_parentId e with
    | None =>
        match tree_root tree with
        | Some root =>
            integrity (Z.of_nat index) (ev_id e)
              ("is a second root; the tree is already rooted at " +:+ root)
        | None => Ok (add nodes (Some (ev_id e)))
        end
    | Some parentId =>
        match map_get parentId nodes with
        | None =>
            integrity (Z.of_nat index) (ev_id e)
              ("references parent " +:+ parentId +:+ ", which does not precede it in the log")
        | Some parent => Ok (add (map_set parentId (push_child (ev_id e) parent) nodes) (tree_root tree))
        end
    end.

Fixpoint add_events (expected : string) (index : nat) (tree : SessionTree) (events : list event) :
    result tree_error SessionTree :=
  match events with
  | [] => Ok tree
  | e :: rest => tree' ← add_event expected index tree e; add_events expected (S index) tree' rest
  end.

Definition empty_tree (expected : string) : SessionTree :=
  {| tree_sessionId := expected; tree_nodes := []; tree_root := None |}.

Definition fromEvents (sessionId : jsval) (events : list event) : result tree_error SessionTree :=
  match parseSessionId sessionId "sessionId" with
  | Err e => Err (TreeInvalid e)
  | Ok expected => add_events expected 0 (empty_tree expected) events
  end.

Definition rootId (tree : SessionTree) : option string := tree_root tree.
Definition size (tree : SessionTree) : nat := length (tree_nodes tree).
Definition has (tree : SessionTree) (id : string) : bool := map_has id (tree_nodes tree).

Definition node (tree : SessionTree) (id : string) : result tree_error SessionTreeNode :=
  match map_get id (tree_nodes tree) with
  | Some n => Ok n
  | None => integrity (-1) id "is not part of this session tree"
  end.

Definition event_of (tree : SessionTree) (id : string) : result tree_error event :=
  node_event <$$> node tree id.
Definition childrenOf (tree : SessionTree) (id : string) : result tree_error (list string) :=
  node_children <$$> node tree id.

Definition events (tree : SessionTree) : list event := node_event <$> map_values (tree_nodes tree).
Definition leaves (tree : SessionTree) : list string :=
  (λ n, ev_id (node_event n)) <$>
    filter (λ n, length (node_children n) = 0) (map_values (tree_nodes tree)).

(** The walk to the root; [path] is what was pushed so far.  [None]: out of
    fuel, which [lineage] never is on a tree [fromEvents] built
    ([lineage_loop_path]). *)
Fixpoint lineage_loop (fuel : nat) (tree : SessionTree) (current : option string)
    (path : list event) : option (result tree_error (list event)) :=
  match current with
  | None => Some (Ok (rev path))
  | Some id =>
      match fuel with
      | 0 => None
      | S fuel' =>
          match event_of tree id with
          | Err e => Some (Err e)
          | Ok e => lineage_loop fuel' tree (ev_parentId e) (path ++ [e])
          end
      end
  end.

Definition lineage (tree : SessionTree) (id : string) : result tree_error (list event) :=
  match lineage_loop (S (size tree)) tree (Some id) [] with
  | Some r => r
  | None => integrity (-1) id "fuel"
  end.

(** ** The contract *)

Abbreviation uuid_string s := (is_uuid s = true).

(** [e] may follow the events of [log]. *)
Record extends_log (sid : string) (log : list event) (e : event) : Prop := {
  ext_session : ev_sessionId e = sid;
  ext_fresh : ev_id e ∉ ev_id <$> log;
  ext_parent : match ev_parentId e with
               | None => log = []
               | Some p => p ∈ ev_id <$> log
               end
}.

(** An append-ordered log of one session: every event names an earlier parent,
    except the first. *)
Inductive log_ok (sid : string) : list event → Prop :=
| log_nil : log_ok sid []
| log_snoc log e : log_ok sid log → extends_log sid log e → log_ok sid (log ++ [e]).

(** The path from the root to [id]. *)
Inductive path_to (log : list event) : string → list event → Prop :=
| path_root e : e ∈ log → ev_parentId e = None → path_to log (ev_id e) [e]
| path_step e p l : e ∈ log → ev_parentId e = Some p → path_to log p l →
    path_to log (ev_id e) (l ++ [e]).

Definition children_in (log : list event) (id : string) : list string :=
  ev_id <$> filter (λ e, ev_parentId e = Some id) log.

(** What a tree built from [log] holds. *)
Definition tree_of (sid : string) (log : list event) : SessionTree :=
  {| tree_sessionId := sid;
     tree_nodes := (λ e, (ev_id e, {| node_event := e; node_children := children_in log (ev_id e) |}))
                     <$> log;
     tree_root := ev_id <$> head log |}.

(** ** Logs *)

Section Logs.
Context (sid : string).
Implicit Types log : list event.

Lemma log_app_inv log1 log2 : log_ok sid (log1 ++ log2) → log_ok sid log1.
Proof.
  induction log2 as [|e log2 IH] using rev_ind; [by rewrite app_nil_r|].
  rewrite app_assoc. inversion 1 as [|l e' Hl He Heq]; [by destruct (log1 ++ log2)|].
  apply app_inj_tail in Heq as [-> ->]. auto.
Qed.

Lemma log_snoc_inv log e : log_ok sid (log ++ [e]) → log_ok sid log ∧ extends_log sid log e.
Proof.
  inversion 1 as [|l e' Hl He Heq]; [by destruct log|]. by apply app_inj_tail in Heq as [-> ->].
Qed.

Lemma log_split log i e : log_ok sid log → log !! i = Some e → extends_log sid (take i log) e.
Proof.
  intros Hlog Hi. pose proof (take_S_r _ _ _ Hi) as Ht.
  rewrite <- (take_drop (S i) log), Ht in Hlog. apply log_app_inv in Hlog.
  by apply log_snoc_inv in Hlog as [_ ?].
Qed.

Lemma log_ids log : log_ok sid log → NoDup (ev_id <$> log).
Proof.
  induction 1 as [|log e _ IH [_ Hf _]]; [apply NoDup_nil_2|]. rewrite fmap_app. apply NoDup_app.
  split_and!; [done| |apply NoDup_singleton].
  intros x Hx Hx'. simpl in Hx'. apply list_elem_of_singleton in Hx' as ->. done.
Qed.

Lemma log_sessions log : log_ok sid log → Forall (λ e, ev_sessionId e = sid) log.
Proof.
  induction 1 as [|log e _ IH [Hs _ _]]; [constructor|]. apply Forall_app. split; [done|]. by constructor.
Qed.

Lemma log_parents log e p : log_ok sid log → e ∈ log → ev_parentId e = Some p → p ∈ ev_id <$> log.
Proof.
  induction 1 as [|log e' _ IH [_ _ Hp]]; [by intros ?%elem_of_nil|].
  rewrite fmap_app, !elem_of_app, list_elem_of_singleton. intros [He | ->] Hpar; [left; auto|].
  rewrite Hpar in Hp. by left.
Qed.

Lemma log_id_inj log e1 e2 : log_ok sid log → e1 ∈ log → e2 ∈ log → ev_id e1 = ev_id e2 → e1 = e2.
Proof.
  intros Hlog%log_ids [i Hi]%list_elem_of_lookup [j Hj]%list_elem_of_lookup Heq.
  assert (i = j) as ->; [|congruence]. eapply (NoDup_lookup _ _ _ (ev_id e1) Hlog);
    rewrite list_lookup_fmap; [by rewrite Hi | by rewrite Hj, Heq].
Qed.

Lemma log_head log e : log_ok sid log → head log = Some e → ev_parentId e = None.
Proof.
  intros Hlog Hh. destruct log as [|e' log]; [done|]. injection Hh as ->.
  pose proof (log_split _ 0 e Hlog eq_refl) as [_ _ Hp]. simpl in Hp.
  destruct (ev_parentId e); [by apply elem_of_nil in Hp | done].
Qed.

Lemma log_root_head log e : log_ok sid log → e ∈ log → ev_parentId e = None → head log = Some e.
Proof.
  intros Hlog [i Hi]%list_elem_of_lookup Hn. pose proof (log_split _ i e Hlog Hi) as [_ _ Hp].
  rewrite Hn in Hp. destruct log as [|e0 log]; [done|]. by destruct i.
Qed.

(** ** The pass of [fromEvents] builds the tree of its log *)

Lemma tree_of_get log e : log_ok sid log → e ∈ log →
  map_get (ev_id e) (tree_nodes (tree_of sid log))
  = Some {| node_event := e; node_children := children_in log (ev_id e) |}.
Proof.
  intros Hlog He. apply map_elem_get.
  - unfold map_ok. simpl. rewrite <- list_fmap_compose. by apply log_ids.
  - simpl. apply list_elem_of_fmap. by exists e.
Qed.

Lemma tree_of_ids log : (tree_nodes (tree_of sid log)).*1 = ev_id <$> log.
Proof. simpl. by rewrite <- list_fmap_compose. Qed.

Lemma tree_of_get_None log id : map_get id (tree_nodes (tree_of sid log)) = None ↔ id ∉ ev_id <$> log.
Proof. by rewrite map_get_None, tree_of_ids. Qed.

Lemma tree_of_values log :
  map_values (tree_nodes (tree_of sid log))
  = (λ e, {| node_event := e; node_children := children_in log (ev_id e) |}) <$> log.
Proof. unfold map_values. simpl. by rewrite <- list_fmap_compose. Qed.

Lemma children_in_snoc log e id :
  children_in (log ++ [e]) id
  = children_in log id ++ (if decide (ev_parentId e = Some id) then [ev_id e] else []).
Proof.
  unfold children_in. rewrite filter_app, fmap_app. f_equal. rewrite filter_singleton by done.
  by destruct (decide _).
Qed.

Lemma children_in_elem log id c :
  c ∈ children_in log id ↔ ∃ e, e ∈ log ∧ ev_id e = c ∧ ev_parentId e = Some id.
Proof.
  unfold children_in. rewrite list_elem_of_fmap. setoid_rewrite list_elem_of_filter. naive_solver.
Qed.

Lemma children_in_fresh log id : log_ok sid log → id ∉ ev_id <$> log → children_in log id = [].
Proof.
  intros Hlog Hid. destruct (children_in log id) as [|c l] eqn:E; [done|]. exfalso.
  assert (c ∈ children_in log id) as Hc by (rewrite E; by left).
  apply children_in_elem in Hc as (e & He & _ & Hp). apply Hid. by eapply log_parents.
Qed.

Lemma add_event_ok log i e :
  log_ok sid log → extends_log sid log e →
  add_event sid i (tree_of sid log) e = Ok (tree_of sid (log ++ [e])).
Proof.
  intros Hlog He. pose proof (log_snoc _ _ _ Hlog He) as Hlog'. destruct He as [Hs Hf Hp].
  unfold add_event. rewrite bool_decide_true by done. simpl negb. cbv iota.
  rewrite (proj2 (map_has_false _ _)) by (by rewrite tree_of_ids).
  assert (Hnew : children_in (log ++ [e]) (ev_id e) = []).
  { rewrite children_in_snoc, children_in_fresh by done. simpl. rewrite decide_False; [done|].
    intros Hpe. rewrite Hpe in Hp. done. }
  destruct (ev_parentId e) as [p|] eqn:Hpe.
  - destruct (map_get p _) as [n|] eqn:Hn; [|by apply tree_of_get_None in Hn].
    apply list_elem_of_fmap in Hp as (pe & -> & Hpe'). rewrite tree_of_get in Hn by done.
    injection Hn as <-. f_equal. unfold tree_of. f_equal.
    + unfold push_child. simpl. rewrite map_set_tabulated;
        [| by apply log_ids | apply list_elem_of_fmap; eauto].
      rewrite map_set_new by (rewrite <- list_fmap_compose; exact Hf).
      rewrite fmap_app. simpl. rewrite Hnew. f_equal. apply list_fmap_ext. intros j y Hy. f_equal.
      rewrite children_in_snoc, Hpe. apply list_elem_of_lookup_2 in Hy.
      destruct (decide (ev_id y = ev_id pe)) as [E|E].
      * rewrite (decide_True _ _ (P := Some (ev_id pe) = Some (ev_id y))) by congruence.
        by rewrite (log_id_inj log y pe).
      * rewrite decide_False by congruence. by rewrite app_nil_r.
    + simpl. destruct log; [by apply elem_of_nil in Hpe'|done].
  - subst log. simpl in *. unfold tree_of. simpl. by rewrite Hnew.
Qed.

Lemma add_event_refused log i e :
  log_ok sid log → ¬ extends_log sid log e →
  ∃ m, add_event sid i (tree_of sid log) e = integrity (Z.of_nat i) (ev_id e) m.
Proof.
  intros Hlog He. unfold add_event.
  destruct (bool_decide_reflect (ev_sessionId e = sid)) as [Hs|]; cbn [negb]; [|eauto].
  destruct (map_has (ev_id e) _) eqn:Hf; [eauto|]. apply map_has_false in Hf. rewrite tree_of_ids in Hf.
  destruct (ev_parentId e) as [p|] eqn:Hp.
  - destruct (map_get p (tree_nodes (tree_of sid log))) as [n|] eqn:Hn; [|eauto].
    exfalso. apply He. constructor; [done..|]. rewrite Hp.
    apply dec_stable. intros Hnot. apply tree_of_get_None in Hnot. congruence.
  - destruct log as [|e0 log]; simpl; [|eauto]. exfalso. apply He. constructor; [done..|]. by rewrite Hp.
Qed.

Lemma extends_log_dec log e : {extends_log sid log e} + {¬ extends_log sid log e}.
Proof.
  destruct (decide (ev_sessionId e = sid)); [|right; by intros []].
  destruct (decide (ev_id e ∈ ev_id <$> log)); [right; by intros []|].
  assert (Decision (match ev_parentId e with None => log = [] | Some p => p ∈ ev_id <$> log end)) as D
    by (destruct (ev_parentId e); apply _).
  destruct D; [left; by constructor | right; by intros []].
Qed.

Lemma add_events_spec log rest i :
  log_ok sid log →
  match add_events sid i (tree_of sid log) rest with
  | Ok t => log_ok sid (log ++ rest) ∧ t = tree_of sid (log ++ rest)
  | Err err =>
      ∃ pre e post m, rest = pre ++ e :: post ∧ log_ok sid (log ++ pre) ∧
        ¬ extends_log sid (log ++ pre) e ∧
        err = TreeIntegrity {| stie_index := Z.of_nat (i + length pre);
                               stie_eventId := Some (ev_id e); stie_message := m |}
  end.
Proof.
  revert log i. induction rest as [|e rest IH]; intros log i Hlog; simpl; [by rewrite app_nil_r|].
  destruct (extends_log_dec log e) as [He|He].
  - rewrite add_event_ok by done. simpl. specialize (IH (log ++ [e]) (S i) (log_snoc _ _ _ Hlog He)).
    destruct (add_events _ _ _ _) as [t|err].
    + by rewrite <- app_assoc in IH.
    + destruct IH as (pre & e' & post & m & -> & Hpre & Hnot & ->).
      rewrite <- app_assoc in Hpre, Hnot. exists (e :: pre), e', post, m. split_and!; [done..|].
      do 2 f_equal. simpl. lia.
  - destruct (add_event_refused log i e Hlog He) as [m ->]. simpl. exists [], e, rest, m.
    rewrite app_nil_r. simpl. rewrite Nat.add_0_r. done.
Qed.

Lemma fromEvents_tree s events : uuid_string s → s = sid →
  fromEvents (JStr s) events = add_events sid 0 (tree_of sid []) events.
Proof.
  intros Hs ->. unfold fromEvents, parseSessionId. by rewrite (proj2 (parseId_Ok _ _ sid)).
Qed.
End Logs.

(** ** Paths *)

Section Paths.
Context (sid : string).
Implicit Types log : list event.

Lemma path_to_mono log e id l : path_to log id l → path_to (log ++ [e]) id l.
Proof.
  induction 1 as [e' He Hp | e' p l He Hp _ IH].
  - apply path_root; [|done]. apply elem_of_app. by left.
  - apply path_step with p; [|done..]. apply elem_of_app. by left.
Qed.

Lemma path_exists log id :
  log_ok sid log → id ∈ ev_id <$> log → ∃ l, path_to log id l ∧ l `sublist_of` log.
Proof.
  intros Hlog. revert id. induction Hlog as [|log e Hlog IH [_ _ Hp]]; intros id; [by intros ?%elem_of_nil|].
  rewrite fmap_app, elem_of_app. intros [Hid | Hid].
  - destruct (IH id Hid) as (l & Hl & Hs). exists l. split; [by apply path_to_mono|].
    rewrite <- (app_nil_r l). by apply sublist_app; [|apply sublist_nil_l].
  - simpl in Hid. apply list_elem_of_singleton in Hid as ->.
    assert (e ∈ log ++ [e]) as He by (apply elem_of_app; right; by left).
    destruct (ev_parentId e) as [p|] eqn:Hpe.
    + destruct (IH p Hp) as (l & Hl & Hs). exists (l ++ [e]). split.
      * apply path_step with p; [done..|]. by apply path_to_mono.
      * by apply sublist_app.
    + exists [e]. split; [by apply path_root|]. subst log. done.
Qed.

Lemma path_to_last log id l : path_to log id l → ∃ l' e, l = l' ++ [e] ∧ ev_id e = id ∧ e ∈ log.
Proof. destruct 1 as [e | e p l]; [by exists [], e | by exists l, e]. Qed.

Lemma path_to_elem log id l e : path_to log id l → e ∈ l → e ∈ log.
Proof.
  induction 1 as [e' He | e' p l He _ _ IH].
  - by intros ->%list_elem_of_singleton.
  - rewrite elem_of_app, list_elem_of_singleton. naive_solver.
Qed.

Lemma path_to_prefix log id l e :
  path_to log id l → e ∈ l → ∃ l', path_to log (ev_id e) l' ∧ l' `prefix_of` l.
Proof.
  induction 1 as [e' He Hp | e' p l He Hp Hl IH].
  - intros ->%list_elem_of_singleton. exists [e']. split; [by apply path_root|done].
  - rewrite elem_of_app, list_elem_of_singleton. intros [Hin | ->].
    + destruct (IH Hin) as (l' & Hl' & Hpre). exists l'. split; [done|]. by apply prefix_app_r.
    + exists (l ++ [e']). split; [by apply path_step with p|done].
Qed.

(** A prefix of a path is the path to its last event. *)
Lemma path_to_split log id l1 e l2 : path_to log id (l1 ++ e :: l2) → path_to log (ev_id e) (l1 ++ [e]).
Proof.
  intros H. remember (l1 ++ e :: l2) as l eqn:Hl. revert l1 l2 Hl.
  induction H as [e' He Hp | e' p l He Hp Hpath IH]; intros l1 l2 Hl.
  - destruct l1 as [|? l1]; [|by destruct l1]. injection Hl as -> <-. by apply path_root.
  - destruct l2 as [|e2 l2 _] using rev_ind.
    + apply app_inj_tail in Hl as [-> ->]. by apply path_step with p.
    + rewrite app_comm_cons, app_assoc in Hl. apply app_inj_tail in Hl as [-> _]. by eapply IH.
Qed.

(** The walk of [lineage] follows the path. *)
Lemma lineage_loop_path log id l :
  log_ok sid log → path_to log id l → ∀ fuel acc, length l ≤ fuel →
  lineage_loop fuel (tree_of sid log) (Some id) acc = Some (Ok (l ++ rev acc)).
Proof.
  intros Hlog. induction 1 as [e He Hp | e p l He Hp Hl IH]; intros fuel acc Hfuel.
  - destruct fuel as [|fuel]; simpl in Hfuel; [lia|]. cbn [lineage_loop].
    unfold event_of, node. rewrite tree_of_get by done. cbn [rmap node_event]. rewrite Hp.
    destruct fuel; cbn; by rewrite rev_app_distr.
  - rewrite length_app in Hfuel. simpl in Hfuel. destruct fuel as [|fuel]; [lia|]. cbn [lineage_loop].
    unfold event_of, node. rewrite tree_of_get by done. cbn [rmap node_event]. rewrite Hp, IH by lia.
    by rewrite rev_app_distr, <- app_assoc.
Qed.

Lemma lineage_path log id l :
  log_ok sid log → path_to log id l → lineage (tree_of sid log) id = Ok l.
Proof.
  intros Hlog Hl. destruct (path_exists log id Hlog) as (l' & Hl' & Hs).
  { apply path_to_last in Hl as (? & e & _ & <- & He). apply list_elem_of_fmap. by exists e. }
  assert (Hrun : lineage (tree_of sid log) id = Ok l').
  { unfold lineage. erewrite lineage_loop_path; [by rewrite app_nil_r|done|done|].
    apply sublist_length in Hs. unfold size. simpl. rewrite length_fmap. lia. }
  assert (Hbig : lineage_loop (length l + length l') (tree_of sid log) (Some id) []
                 = Some (Ok (l ++ rev []))) by (apply lineage_loop_path; [done..|lia]).
  rewrite (lineage_loop_path log id l' Hlog Hl' _ []) in Hbig by lia.
  rewrite !app_nil_r in Hbig. by injection Hbig as <-.
Qed.

Lemma lineage_known log id l :
  log_ok sid log → lineage (tree_of sid log) id = Ok l → id ∈ ev_id <$> log.
Proof.
  intros Hlog H. apply dec_stable. intros Hid%(tree_of_get_None sid).
  unfold lineage in H. cbn [lineage_loop] in H. unfold event_of, node in H. by rewrite Hid in H.
Qed.

Lemma lineage_iff log id l :
  log_ok sid log → lineage (tree_of sid log) id = Ok l ↔ path_to log id l.
Proof.
  intros Hlog. split; [|by apply lineage_path]. intros H.
  destruct (path_exists log id Hlog (lineage_known _ _ _ Hlog H)) as (l' & Hl' & _).
  rewrite (lineage_path _ _ _ Hlog Hl') in H. by injection H as <-.
Qed.

Lemma leaves_elem log id :
  id ∈ leaves (tree_of sid log) ↔ id ∈ ev_id <$> log ∧ children_in log id = [].
Proof.
  unfold leaves. rewrite tree_of_values, list_elem_of_fmap. setoid_rewrite list_elem_of_filter.
  setoid_rewrite list_elem_of_fmap. split.
  - intros (n & -> & Hn & e & -> & He). simpl in *. apply length_zero_iff_nil in Hn. eauto.
  - intros [(e & -> & He) Hc]. eexists. split; [|split; [|by exists e]]; [done|]. simpl. by rewrite Hc.
Qed.

(** From any event a descendant without children is reached. *)
Lemma leaf_below log i e :
  log_ok sid log → log !! i = Some e →
  ∃ leaf l, leaf ∈ leaves (tree_of sid log) ∧ path_to log leaf l ∧ e ∈ l.
Proof.
  intros Hlog. remember (length log - i) as n eqn:Hn. revert i e Hn.
  induction n as [n IH] using lt_wf_ind. intros i e Hn Hi.
  assert (e ∈ log) as He by by eapply list_elem_of_lookup_2.
  assert (ev_id e ∈ ev_id <$> log) as Hid by (apply list_elem_of_fmap; by exists e).
  destruct (children_in log (ev_id e)) as [|c cs] eqn:Hc.
  - destruct (path_exists log _ Hlog Hid) as (l & Hl & _). exists (ev_id e), l.
    split_and!; [by apply leaves_elem | done|].
    apply path_to_last in Hl as (l' & e' & -> & Heq & He'). apply elem_of_app. right.
    rewrite (log_id_inj sid log e' e) by done. by left.
  - assert (c ∈ children_in log (ev_id e)) as Hin by (rewrite Hc; by left).
    apply children_in_elem in Hin as (ce & Hce & _ & Hpar). apply list_elem_of_lookup in Hce as [j Hj].
    assert (i < j) as Hij.
    { pose proof (log_split _ _ _ _ Hlog Hj) as [_ _ Hp]. rewrite Hpar in Hp.
      apply list_elem_of_fmap in Hp as (e' & Heq & He').
      apply list_elem_of_lookup in He' as [k Hk]. pose proof (lookup_lt_Some _ _ _ Hk) as Hlt.
      rewrite length_take in Hlt. rewrite lookup_take_lt in Hk by lia.
      pose proof (log_ids _ _ Hlog) as Hnd. assert (i = k) as ->; [|lia].
      eapply (NoDup_lookup _ _ _ (ev_id e) Hnd); rewrite list_lookup_fmap; [by rewrite Hi | by rewrite Hk, Heq]. }
    pose proof (lookup_lt_Some _ _ _ Hj).
    destruct (IH (length log - j) ltac:(lia) j ce eq_refl Hj) as (leaf & l & Hleaf & Hl & Hin).
    exists leaf, l. split_and!; [done..|].
    destruct (path_to_prefix _ _ _ _ Hl Hin) as (l' & Hl' & [r ->]).
    apply elem_of_app. left. inversion Hl' as [e1 He1 Hp1 Hide | e1 p l1 He1 Hp1 Hl1 Hide Hll]; subst.
    + rewrite (log_id_inj sid log e1 ce) in Hp1; [congruence|done..|by eapply list_elem_of_lookup_2|done].
    + rewrite (log_id_inj sid log e1 ce) in Hp1; [|done..|by eapply list_elem_of_lookup_2|done].
      rewrite Hpar in Hp1. injection Hp1 as <-. apply path_to_last in Hl1 as (l2 & e2 & -> & Heq & He2).
      rewrite !elem_of_app. left. right. rewrite (log_id_inj sid log e2 e) by done. by left.
Qed.
End Paths.

(** ** Properties *)

Lemma fromEvents_Ok sessionId log t :
  fromEvents sessionId log = Ok t ↔
  ∃ sid, sessionId = JStr sid ∧ is_uuid sid = true ∧ log_ok sid log ∧ t = tree_of sid log.
Proof.
  unfold fromEvents, parseSessionId. destruct (parseId sessionId "sessionId") as [sid|e] eqn:Hp.
  - apply parseId_Ok in Hp as [-> Hs]. pose proof (add_events_spec sid [] log 0 (log_nil sid)) as H.
    change (empty_tree sid) with (tree_of sid []). destruct (add_events _ _ _ _) as [t'|err]; split.
    + intros [= <-]. exists sid. by destruct H.
    + intros (sid' & [= <-] & _ & _ & ->). by destruct H as [_ ->].
    + done.
    + intros (sid' & [= <-] & _ & Hlog & ->). exfalso.
      destruct H as (pre & e & post & m & -> & _ & Hnot & _). apply Hnot. simpl.
      change (e :: post) with ([e] ++ post) in Hlog. rewrite app_assoc in Hlog.
      apply log_app_inv in Hlog. by apply log_snoc_inv in Hlog as [_ ?].
  - split; [done|]. intros (sid & -> & Hs & _). rewrite (proj2 (parseId_Ok _ _ sid)) in Hp by done. done.
Qed.

(** A log with two branches: the root has two children. *)
Definition sample_node (id : string) (parent : option string) : event :=
  {| ev_id := id; ev_sessionId := "01234567-89ab-4def-8123-456789abcdef"; ev_operationId := None;
     ev_parentId := parent; ev_timestamp := 0; ev_payload := SessionResumed |}.
Definition sample_log : list event :=
  [sample_node "a" None; sample_node "b" (Some "a"); sample_node "c" (Some "a")].

(** C6: [fromEvents] accepts a log exactly when it is a well-formed tree of the
    session in append order: one session, distinct ids, one root which comes
    first, and every other event after its parent. *)
Theorem fromEvents_accepts sid log :
  is_ok (fromEvents (JStr sid) log) = true ↔ is_uuid sid = true ∧ log_ok sid log.
Proof.
  rewrite is_ok_true. setoid_rewrite fromEvents_Ok. split.
  - intros (t & sid' & [= <-] & ? & ? & _). done.
  - intros [? ?]. by exists (tree_of sid log), sid.
Qed.

(** what a tree answers about the log it was built from: the events in
    append order, their number, the root, the children of every event in append
    order, and as leaves exactly the events without children. *)
Theorem fromEvents_holds_log sid log t :
  fromEvents (JStr sid) log = Ok t →
  events t = log ∧ size t = length log ∧ rootId t = ev_id <$> head log ∧
  (∀ e, e ∈ log → event_of t (ev_id e) = Ok e ∧ childrenOf t (ev_id e) = Ok (children_in log (ev_id e))) ∧
  (∀ id, has t id = true ↔ id ∈ ev_id <$> log) ∧
  (∀ id, id ∈ leaves t ↔ id ∈ ev_id <$> log ∧ children_in log id = []).
Proof.
  intros (sid' & [= <-] & _ & Hlog & ->)%fromEvents_Ok. split_and!.
  - unfold events. rewrite tree_of_values, <- list_fmap_compose. by apply list_fmap_id.
  - unfold size. simpl. by rewrite length_fmap.
  - done.
  - intros e He. unfold event_of, childrenOf, node. by rewrite tree_of_get.
  - intros id. unfold has. by rewrite map_has_spec, tree_of_ids.
  - apply leaves_elem.
Qed.

Lemma fromEvents_holds_log_witness :
  ∃ t, events t = sample_log ∧ childrenOf t "a" = Ok ["b"; "c"] ∧ leaves t = ["b"; "c"].
Proof.
  eexists (tree_of "01234567-89ab-4def-8123-456789abcdef" sample_log).
  destruct (fromEvents_holds_log "01234567-89ab-4def-8123-456789abcdef" sample_log
    (tree_of "01234567-89ab-4def-8123-456789abcdef" sample_log)) as (He & _ & _ & Hc & _ & _).
  - vm_compute. reflexivity.
  - split; [exact He|]. split; [|vm_compute; reflexivity].
    apply (Hc (sample_node "a" None)). by left.
Defined.

(** when [fromEvents] refuses a log, the error names the index and the id of
    the first event that may not follow the ones before it. *)
Theorem fromEvents_reports_first sid log err :
  is_uuid sid = true → fromEvents (JStr sid) log = Err err →
  ∃ pre e post m, log = pre ++ e :: post ∧ log_ok sid pre ∧ ¬ extends_log sid pre e ∧
    err = TreeIntegrity {| stie_index := Z.of_nat (length pre); stie_eventId := Some (ev_id e);
                           stie_message := m |}.
Proof.
  intros Hs. unfold fromEvents, parseSessionId. rewrite (proj2 (parseId_Ok _ _ sid)) by done. intros H.
  pose proof (add_events_spec sid [] log 0 (log_nil sid)) as Hspec.
  change (empty_tree sid) with (tree_of sid []) in H. by rewrite H in Hspec.
Qed.

Lemma fromEvents_reports_first_witness :
  ∃ pre e post m, sample_log ++ [sample_node "d" (Some "z")] = pre ++ e :: post ∧
    log_ok "01234567-89ab-4def-8123-456789abcdef" pre ∧
    ¬ extends_log "01234567-89ab-4def-8123-456789abcdef" pre e ∧
    TreeIntegrity {| stie_index := 3; stie_eventId := Some "d";
                     stie_message := "references parent z, which does not precede it in the log" |}
    = TreeIntegrity {| stie_index := Z.of_nat (length pre); stie_eventId := Some (ev_id e);
                       stie_message := m |}.
Proof.
  apply (fromEvents_reports_first "01234567-89ab-4def-8123-456789abcdef");
    [vm_compute; reflexivity | vm_compute; reflexivity].
Defined.

(** the walk of [lineage] ends on every event of the tree and returns exactly
    the path from the root to it, in append order; on any other id it throws. *)
Theorem lineage_correct sid log t :
  fromEvents (JStr sid) log = Ok t →
  (∀ id l, lineage t id = Ok l ↔ path_to log id l) ∧
  (∀ id, has t id = true → ∃ l, lineage t id = Ok l ∧ l `sublist_of` log) ∧
  (∀ id, has t id = false → lineage t id = integrity (-1) id "is not part of this session tree").
Proof.
  intros (sid' & [= <-] & _ & Hlog & ->)%fromEvents_Ok. split_and!.
  - intros id l. by apply lineage_iff.
  - intros id. unfold has. rewrite map_has_spec, tree_of_ids. intros Hid.
    destruct (path_exists sid log id Hlog Hid) as (l & Hl & Hs). exists l. split; [by apply lineage_path | done].
  - intros id. unfold has. rewrite map_has_false, tree_of_ids. intros Hid.
    unfold lineage. cbn [lineage_loop]. unfold event_of, node.
    by rewrite (proj2 (tree_of_get_None sid log id) Hid).
Qed.

Lemma lineage_correct_witness :
  lineage (tree_of "01234567-89ab-4def-8123-456789abcdef" sample_log) "z"
  = integrity (-1) "z" "is not part of this session tree".
Proof.
  apply (lineage_correct "01234567-89ab-4def-8123-456789abcdef" sample_log); vm_compute; reflexivity.
Defined.

(** no event is lost to branching: every event of the tree lies on the
    lineage of some leaf. *)
Theorem every_event_on_a_branch sid log t e :
  fromEvents (JStr sid) log = Ok t → e ∈ log →
  ∃ leaf l, leaf ∈ leaves t ∧ lineage t leaf = Ok l ∧ e ∈ l.
Proof.
  intros (sid' & [= <-] & _ & Hlog & ->)%fromEvents_Ok [i Hi]%list_elem_of_lookup.
  destruct (leaf_below sid log i e Hlog Hi) as (leaf & l & Hleaf & Hl & Hin).
  exists leaf, l. split_and!; [done| by apply lineage_path | done].
Qed.

Lemma every_event_on_a_branch_witness :
  ∃ leaf l, leaf ∈ leaves (tree_of "01234567-89ab-4def-8123-456789abcdef" sample_log) ∧
    lineage (tree_of "01234567-89ab-4def-8123-456789abcdef" sample_log) leaf = Ok l ∧
    sample_node "a" None ∈ l.
Proof.
  apply (every_event_on_a_branch "01234567-89ab-4def-8123-456789abcdef" sample_log);
    [vm_compute; reflexivity | by left].
Defined.
