(* ===== verification/Replay.v ===== *)
(** kernel/src/replay.ts: pairing of tool calls and results along every branch.
    (The replay of a whole log into another is in ReplayLog.) *)
From stdpp Require Import base list sets strings pretty.
From Stdlib Require Import ZArith Lia.
From S2P Require Import Prelude Text JsValue Envelope Types JsMap SessionTree.

Record ReplayError := replay_error { replay_message : string }.

Inductive integrity_error :=
| PairingError (e : ReplayError)
| LineageError (e : tree_error).

Record call_state := { cs_name : string; cs_answered : bool }.

(** The body of the loop over one branch. *)
Definition pair_step (calls : list (string * call_state)) (e : event) :
    result ReplayError (list (string * call_state)) :=
  match ev_payload e with
  | ToolCall callId name _ =>
      if map_has callId calls
      then Err (replay_error ("Event " +:+ ev_id e +:+ " reuses tool call ID " +:+ callId +:+ " on one branch"))
      else Ok (map_set callId {| cs_name := name; cs_answered := false |} calls)
  | ToolResult callId name _ _ _ =>
      match map_get callId calls with
      | None =>
          Err (replay_error ("Event " +:+ ev_id e +:+ " answers tool call ID " +:+ callId +:+
                             ", which has no call on its branch"))
      | Some call =>
          if cs_answered call then
            Err (replay_error ("Event " +:+ ev_id e +:+ " answers tool call ID " +:+ callId +:+
                               " a second time on one branch"))
          else if negb (bool_decide (cs_name call = name)) then
            Err (replay_error ("Event " +:+ ev_id e +:+ " answers tool call ID " +:+ callId +:+ " as " +:+
                               name +:+ ", not " +:+ cs_name call))
          else Ok (map_set callId {| cs_name := cs_name call; cs_answered := true |} calls)
      end
  | _ => Ok calls
  end.

Definition verify_branch (tree : SessionTree) (leaf : string) : result integrity_error unit :=
  match lineage tree leaf with
  | Err e => Err (LineageError e)
  | Ok path =>
      match fold_res pair_step [] path with
      | Err e => Err (PairingError e)
      | Ok _ => Ok tt
      end
  end.

Definition verifyToolCallIntegrity (tree : SessionTree) : result integrity_error unit :=
  each (verify_branch tree) (leaves tree).

(** ** Well-paired branches *)

Definition call_of (e : event) : option (string * string) :=
  match ev_payload e with ToolCall i n _ => Some (i, n) | _ => None end.
Definition result_of (e : event) : option (string * string) :=
  match ev_payload e with ToolResult i n _ _ _ => Some (i, n) | _ => None end.
Definition calls_of (path : list event) : list (string * string) := omap call_of path.
Definition results_of (path : list event) : list (string * string) := omap result_of path.

(** Call ids are used once, answered at most once, and every result answers an
    earlier call with the same id and tool name. *)
Record paired (path : list event) : Prop := {
  paired_calls : NoDup (calls_of path).*1;
  paired_results : NoDup (results_of path).*1;
  paired_answers : ∀ pre e post c, path = pre ++ e :: post → result_of e = Some c → c ∈ calls_of pre
}.

Section Pairing.
Lemma calls_of_snoc path e : calls_of (path ++ [e]) = calls_of path ++ option_list (call_of e).
Proof. unfold calls_of. rewrite omap_app. simpl. by destruct (call_of e). Qed.
Lemma results_of_snoc path e : results_of (path ++ [e]) = results_of path ++ option_list (result_of e).
Proof. unfold results_of. rewrite omap_app. simpl. by destruct (result_of e). Qed.

Definition may_follow (path : list event) (e : event) : Prop :=
  match ev_payload e with
  | ToolCall i _ _ => i ∉ (calls_of path).*1
  | ToolResult i n _ _ _ => (i, n) ∈ calls_of path ∧ i ∉ (results_of path).*1
  | _ => True
  end.

Lemma NoDup_snoc {A} (l : list A) x : NoDup (l ++ [x]) ↔ NoDup l ∧ x ∉ l.
Proof.
  rewrite NoDup_app. split.
  - intros (? & H & _). split; [done|]. intros Hx. apply (H x Hx). by left.
  - intros [? H]. split_and!; [done| |apply NoDup_singleton]. intros y Hy ->%list_elem_of_singleton. done.
Qed.

Lemma paired_snoc path e : paired (path ++ [e]) ↔ paired path ∧ may_follow path e.
Proof.
  assert (Hans : (∀ pre e' post c, path ++ [e] = pre ++ e' :: post → result_of e' = Some c → c ∈ calls_of pre)
    ↔ (∀ pre e' post c, path = pre ++ e' :: post → result_of e' = Some c → c ∈ calls_of pre) ∧
      ∀ c, result_of e = Some c → c ∈ calls_of path).
  { split.
    - intros H. split; [intros pre e' post c ->; apply (H pre e' (post ++ [e])); by rewrite <- app_assoc|].
      intros c. by apply (H path e []).
    - intros [H1 H2] pre e' post c Heq. destruct post as [|e'' post _] using rev_ind.
      + apply app_inj_tail in Heq as [-> ->]. apply H2.
      + rewrite app_comm_cons, app_assoc in Heq. apply app_inj_tail in Heq as [-> ->]. by eapply H1. }
  split.
  - intros [Hc Hr Ha]. apply Hans in Ha as [Ha He]. rewrite calls_of_snoc, fmap_app in Hc.
    rewrite results_of_snoc, fmap_app in Hr. unfold call_of, result_of, may_follow in *.
    destruct (ev_payload e); simpl in *; rewrite ?app_nil_r, ?NoDup_snoc in *; destruct_and?;
      (split; [by constructor|]); auto.
  - intros [[Hc Hr Ha] He]. constructor; [| |apply Hans; split; [done|]];
      rewrite ?calls_of_snoc, ?results_of_snoc, ?fmap_app; unfold call_of, result_of, may_follow in *;
      destruct (ev_payload e); simpl in *; rewrite ?app_nil_r, ?NoDup_snoc; destruct_and?; auto; try done.
    intros c [= <-]. done.
Qed.

Lemma paired_nil : paired [].
Proof. constructor; [apply NoDup_nil_2 | apply NoDup_nil_2 |]. by intros [|] ? ? ? ?. Qed.

Lemma paired_app_l path1 path2 : paired (path1 ++ path2) → paired path1.
Proof.
  induction path2 as [|e path2 IH] using rev_ind; [by rewrite app_nil_r|].
  rewrite app_assoc, paired_snoc. intros [? _]. auto.
Qed.

(** The map [verifyToolCallIntegrity] holds after a path. *)
Definition table (path : list event) : list (string * call_state) :=
  (λ c, (c.1, {| cs_name := c.2; cs_answered := bool_decide (c.1 ∈ (results_of path).*1) |}))
    <$> calls_of path.

Lemma table_keys path : (table path).*1 = (calls_of path).*1.
Proof. unfold table. by rewrite <- list_fmap_compose. Qed.

Lemma table_get path i n : paired path → (i, n) ∈ calls_of path →
  map_get i (table path) = Some {| cs_name := n; cs_answered := bool_decide (i ∈ (results_of path).*1) |}.
Proof.
  intros [Hc _ _] Hin. apply map_elem_get; [unfold map_ok; by rewrite table_keys|].
  apply list_elem_of_fmap. by exists (i, n).
Qed.

Lemma calls_of_inj path i n n' :
  paired path → (i, n) ∈ calls_of path → (i, n') ∈ calls_of path → n = n'.
Proof.
  intros Hp H1 H2. pose proof (table_get _ _ _ Hp H1) as E1. rewrite (table_get _ _ _ Hp H2) in E1.
  by injection E1 as ->.
Qed.

Lemma paired_results_called path i : paired path → i ∈ (results_of path).*1 → i ∈ (calls_of path).*1.
Proof.
  intros Hp. induction path as [|e path IH] using rev_ind; [by intros ?%elem_of_nil|].
  apply paired_snoc in Hp as [Hp He]. rewrite results_of_snoc, calls_of_snoc, !fmap_app, !elem_of_app.
  intros [Hi|Hi]; [left; auto|]. unfold result_of, may_follow in *.
  destruct (ev_payload e); simpl in Hi; try by apply elem_of_nil in Hi.
  apply list_elem_of_singleton in Hi as ->. destruct He as [He _]. left.
  by apply (list_elem_of_fmap_2 fst) in He.
Qed.

Lemma pair_step_ok path e :
  paired path → may_follow path e → pair_step (table path) e = Ok (table (path ++ [e])).
Proof.
  intros Hp He. unfold pair_step, may_follow in *.
  assert (Hsame : call_of e = None → result_of e = None → table (path ++ [e]) = table path).
  { intros H1 H2. unfold table. by rewrite calls_of_snoc, results_of_snoc, H1, H2, !app_nil_r. }
  unfold call_of, result_of in Hsame.
  destruct (ev_payload e) eqn:Hpl; try (by rewrite Hsame).
  - rewrite (proj2 (map_has_false _ _)) by (by rewrite table_keys).
    rewrite map_set_new by (by rewrite table_keys). f_equal. unfold table.
    rewrite calls_of_snoc, results_of_snoc. unfold call_of, result_of. rewrite Hpl. simpl.
    rewrite app_nil_r, fmap_app. simpl. rewrite bool_decide_false; [done|].
    intros Hi. by apply He, paired_results_called.
  - destruct He as [Hc Hr]. rewrite (table_get _ _ _ Hp Hc). cbn [cs_answered cs_name].
    rewrite bool_decide_false by done. rewrite bool_decide_true by done. cbn [negb]. f_equal.
    unfold table at 1. rewrite map_set_tabulated;
      [| apply Hp | by apply (list_elem_of_fmap_2 fst) in Hc].
    unfold table. rewrite calls_of_snoc, results_of_snoc. unfold call_of, result_of. rewrite Hpl. simpl.
    rewrite app_nil_r. apply list_fmap_ext. intros j [i n] Hj. simpl. f_equal.
    apply list_elem_of_lookup_2 in Hj. case_decide as E.
    + subst i. rewrite (calls_of_inj path callId n name) by done. f_equal.
      rewrite bool_decide_true; [done|]. rewrite fmap_app. apply elem_of_app. right. by left.
    + f_equal. apply bool_decide_ext. rewrite fmap_app, elem_of_app. simpl.
      rewrite list_elem_of_singleton. naive_solver.
Qed.

Lemma pair_step_inv path e m :
  paired path → pair_step (table path) e = Ok m → may_follow path e.
Proof.
  intros Hp. unfold pair_step, may_follow. destruct (ev_payload e); try done.
  - destruct (map_has _ _) eqn:Hh; [done|]. apply map_has_false in Hh. by rewrite table_keys in Hh.
  - destruct (map_get _ _) as [c|] eqn:Hc; [|done]. apply map_get_Some_elem in Hc.
    apply list_elem_of_fmap in Hc as ([i n] & [= -> ->] & Hin). simpl.
    case_bool_decide as Hr; [done|]. case_bool_decide as Hn; [|done]. by subst n.
Qed.

Lemma pairing_fold path : (∃ m, fold_res pair_step [] path = Ok m) ↔ paired path.
Proof.
  assert (H : match fold_res pair_step [] path with
              | Ok m => paired path ∧ m = table path | Err _ => ¬ paired path end).
  { induction path as [|e path IH] using rev_ind; [split; [apply paired_nil|done]|].
    rewrite fold_res_app. destruct (fold_res pair_step [] path) as [m|err]; cbn [rbind].
    - destruct IH as [Hp ->]. cbn [fold_res]. destruct (pair_step (table path) e) as [m|err] eqn:Hs; cbn [rbind].
      + pose proof (pair_step_inv _ _ _ Hp Hs) as He. rewrite pair_step_ok in Hs by done.
        injection Hs as <-. split; [by apply paired_snoc|done].
      + intros [_ He]%paired_snoc. by rewrite pair_step_ok in Hs.
    - intros [Hp _]%paired_snoc. done. }
  destruct (fold_res pair_step [] path) as [m|err]; split; try done; [naive_solver..|]. by intros [? ?].
Qed.

Lemma verify_branch_Ok tree leaf :
  verify_branch tree leaf = Ok tt ↔ ∃ path, lineage tree leaf = Ok path ∧ paired path.
Proof.
  unfold verify_branch. destruct (lineage tree leaf) as [path|e]; [|naive_solver].
  pose proof (pairing_fold path) as H. destruct (fold_res pair_step [] path); naive_solver.
Qed.
End Pairing.

(** A branch on which a call is answered under another name. *)
Definition sample_call (id : string) (parent : option string) (p : payload) : event :=
  {| ev_id := id; ev_sessionId := "01234567-89ab-4def-8123-456789abcdef"; ev_operationId := None;
     ev_parentId := parent; ev_timestamp := 0; ev_payload := p |}.
Definition sample_calls (answer : string) : list event :=
  [sample_call "a" None SessionResumed; sample_call "b" (Some "a") (ToolCall "1" "edit" []);
   sample_call "c" (Some "b") (ToolResult "1" answer [] false None)].

(** The integrity check looks at the lineages of the leaves, and so at every path. *)
Lemma verify_paired sid log :
  log_ok sid log →
  verifyToolCallIntegrity (tree_of sid log) = Ok tt ↔ ∀ id path, path_to log id path → paired path.
Proof.
  intros Hlog. unfold verifyToolCallIntegrity.
  rewrite each_Ok, Forall_forall. setoid_rewrite verify_branch_Ok. split.
  - intros H id path Hpath. destruct (path_to_last _ _ _ Hpath) as (l & e & -> & <- & He).
    apply list_elem_of_lookup in He as [i Hi].
    destruct (leaf_below sid log i e Hlog Hi) as (leaf & full & Hleaf & Hfull & Hin).
    destruct (H leaf Hleaf) as (full' & Hl & Hpair). rewrite lineage_path with (l := full) in Hl by done.
    injection Hl as <-. destruct (path_to_prefix _ _ _ _ Hfull Hin) as (l' & Hl' & [r ->]).
    apply paired_app_l in Hpair.
    pose proof (lineage_path _ _ _ _ Hlog Hl') as E. rewrite (lineage_path _ _ _ _ Hlog Hpath) in E.
    by injection E as ->.
  - intros H leaf [Hid _]%leaves_elem. destruct (path_exists sid log leaf Hlog Hid) as (l & Hl & _).
    exists l. split; [by apply lineage_path | by eapply H].
Qed.

(** C8: the integrity check passes exactly when every path of the tree, complete
    or not, is well paired: no call id is used twice, no call is answered twice,
    and every result answers an earlier call of the same id and tool name. *)
Theorem verifyToolCallIntegrity_iff sid log t :
  fromEvents (JStr sid) log = Ok t →
  verifyToolCallIntegrity t = Ok tt ↔ ∀ id path, path_to log id path → paired path.
Proof. intros (sid' & [= <-] & _ & Hlog & ->)%fromEvents_Ok. by apply verify_paired. Qed.

Lemma verifyToolCallIntegrity_iff_witness :
  verifyToolCallIntegrity (tree_of "01234567-89ab-4def-8123-456789abcdef" (sample_calls "edit")) = Ok tt ↔
  ∀ id path, path_to (sample_calls "edit") id path → paired path.
Proof. apply verifyToolCallIntegrity_iff with (sid := "01234567-89ab-4def-8123-456789abcdef"). vm_compute. reflexivity. Defined.
