(* ===== verification/Projector.v ===== *)
(** sdk/src/projector.ts: the projection of a session's events that every client shows.

    Methods that may throw return the object as the throw leaves it, with the error: an
    event is recorded before its effect is worked out, so a throw does not undo it. *)
From stdpp Require Import base list sets strings pretty.
From Stdlib Require Import ZArith Lia Ascii.
From S2P Require Import Prelude Text JsValue Json Utf8 Envelope Types Arith Events JsMap WireMessages.

(** ** What is projected *)

(** An event of a type this client does not know; [ge_value] is the whole of it. *)
Record GenericEvent := {
  ge_id : string;
  ge_sessionId : string;
  ge_parentId : option string;
  ge_value : jsval
}.

Inductive ConversationRecord :=
| KnownEvent (e : event)
| UnknownEvent (e : GenericEvent).

Inductive intent := IShell | IRead | IEdit | ISearch | IWeb | IMcp | IWorkflow | IGeneric.
#[export] Instance intent_eq_dec : EqDecision intent.
Proof. solve_decision. Defined.

Record ToolOutcome := {
  to_eventId : string;
  to_content : list content;
  to_isError : bool;
  to_details : option jsval
}.

Record ProjectedToolCall := {
  pt_callId : string;
  pt_name : string;
  pt_input : fields;
  pt_callEventId : string;
  pt_operationId : option string;
  pt_result : option ToolOutcome;
  pt_renderIntent : intent
}.

Record ProjectedInteraction := {
  pi_interactionId : string;
  pi_request : event;
  pi_resolution : option event
}.

Record ProjectedActivity := {
  pa_operationId : string;
  pa_sequence : Z;
  pa_text : string;
  pa_thinking : string;
  pa_toolCalls : list TransientToolCall
}.

Record UsageTotals := {
  ut_inputTokens : number;
  ut_outputTokens : number;
  ut_cacheReadTokens : number;
  ut_cacheWriteTokens : number;
  ut_reasoningTokens : number;
  ut_costUsd : number
}.

Inductive operation_status := ORunning | OWaitingInteraction | OSucceeded | OFailed | OAborted.
#[export] Instance operation_status_eq_dec : EqDecision operation_status.
Proof. solve_decision. Defined.

Inductive queue_status := QQueued | QRunning | QPaused | QCompleted | QFailed | QAborted.
#[export] Instance queue_status_eq_dec : EqDecision queue_status.
Proof. solve_decision. Defined.

Record ProjectedQueueItem := {
  pq_queueItemId : string;
  pq_operationId : option string;
  pq_content : list content;
  pq_priority : Priority;
  pq_status : queue_status
}.

(** [DQueued], or the state of the last update. *)
Inductive delivery_status := DQueued | DUpdated (state : InterruptState).

Record ProjectedInterruptDelivery := {
  pd_requestEventId : string;
  pd_operationId : option string;
  pd_content : list content;
  pd_targetOperationId : option string;
  pd_reason : option string;
  pd_status : delivery_status
}.

Record ProjectionError := { pe_code : string; pe_message : string }.

(** ** The fields of the class, grouped by what resets them *)

(** What the configuration events set last. *)
Record projected_config := {
  pc_model : option string;
  pc_provider : option string;
  pc_entitlement : option string;
  pc_thinking : option ThinkingLevel;
  pc_requestSettings : option ModelRequestSettings;
  pc_lastRequest : option ModelRequestConfiguration;
  pc_profile : option SessionProfile;
  pc_webFetch : option bool;
  pc_webSearch : option bool;
  pc_sandbox : option (string * bool)
}.

(** What the events of the lineage add up to. *)
Record projected_view := {
  pv_tools : list (string * ProjectedToolCall);
  pv_interactions : list (string * ProjectedInteraction);
  pv_operations : list (string * operation_status);
  pv_active : option string;
  pv_queue : list (string * ProjectedQueueItem);
  pv_interrupts : list (string * ProjectedInterruptDelivery);
  pv_config : projected_config;
  pv_usage : UsageTotals;
  pv_closed : bool;
  pv_lastError : option event;
  pv_lastCompaction : option event;
  pv_compacted : list string
}.

(** [activity], [activitySequences], [retiredActivityOperations],
    [latestActivityOperationId]. *)
Record activity_view := {
  av_activity : option ProjectedActivity;
  av_sequences : list (string * Z);
  av_retired : list string;
  av_latest : option string
}.

Record projector := {
  pj_sessionId : option string;
  pj_selectedNodeId : option string;
  pj_records : list ConversationRecord;
  pj_events : list (string * string);
  pj_view : projected_view;
  pj_uncertain : list (string * string);
  pj_activity : activity_view
}.

Definition EMPTY_USAGE : UsageTotals :=
  {| ut_inputTokens := NInt 0; ut_outputTokens := NInt 0; ut_cacheReadTokens := NInt 0;
     ut_cacheWriteTokens := NInt 0; ut_reasoningTokens := NInt 0; ut_costUsd := NInt 0 |}.

Definition no_config : projected_config :=
  {| pc_model := None; pc_provider := None; pc_entitlement := None; pc_thinking := None;
     pc_requestSettings := None; pc_lastRequest := None; pc_profile := None; pc_webFetch := None;
     pc_webSearch := None; pc_sandbox := None |}.

Definition empty_view : projected_view :=
  {| pv_tools := []; pv_interactions := []; pv_operations := []; pv_active := None; pv_queue := [];
     pv_interrupts := []; pv_config := no_config; pv_usage := EMPTY_USAGE; pv_closed := false;
     pv_lastError := None; pv_lastCompaction := None; pv_compacted := [] |}.

Definition no_activity : activity_view :=
  {| av_activity := None; av_sequences := []; av_retired := []; av_latest := None |}.

(** The constructor. *)
Definition new_projector (sessionId selectedNodeId : option string) : projector :=
  {| pj_sessionId := sessionId; pj_selectedNodeId := selectedNodeId; pj_records := []; pj_events := [];
     pj_view := empty_view; pj_uncertain := []; pj_activity := no_activity |}.

(** *** Assignments to one field *)

Definition with_config (f : projected_config → projected_config) (v : projected_view) : projected_view :=
  {| pv_tools := pv_tools v; pv_interactions := pv_interactions v; pv_operations := pv_operations v;
     pv_active := pv_active v; pv_queue := pv_queue v; pv_interrupts := pv_interrupts v;
     pv_config := f (pv_config v); pv_usage := pv_usage v; pv_closed := pv_closed v;
     pv_lastError := pv_lastError v; pv_lastCompaction := pv_lastCompaction v; pv_compacted := pv_compacted v |}.
Definition with_tools (tools : list (string * ProjectedToolCall)) (v : projected_view) : projected_view :=
  {| pv_tools := tools; pv_interactions := pv_interactions v; pv_operations := pv_operations v;
     pv_active := pv_active v; pv_queue := pv_queue v; pv_interrupts := pv_interrupts v;
     pv_config := pv_config v; pv_usage := pv_usage v; pv_closed := pv_closed v;
     pv_lastError := pv_lastError v; pv_lastCompaction := pv_lastCompaction v; pv_compacted := pv_compacted v |}.
Definition with_interactions (interactions : list (string * ProjectedInteraction)) (v : projected_view) : projected_view :=
  {| pv_tools := pv_tools v; pv_interactions := interactions; pv_operations := pv_operations v;
     pv_active := pv_active v; pv_queue := pv_queue v; pv_interrupts := pv_interrupts v;
     pv_config := pv_config v; pv_usage := pv_usage v; pv_closed := pv_closed v;
     pv_lastError := pv_lastError v; pv_lastCompaction := pv_lastCompaction v; pv_compacted := pv_compacted v |}.
Definition with_operations (operations : list (string * operation_status)) (active : option string)
    (v : projected_view) : projected_view :=
  {| pv_tools := pv_tools v; pv_interactions := pv_interactions v; pv_operations := operations;
     pv_active := active; pv_queue := pv_queue v; pv_interrupts := pv_interrupts v;
     pv_config := pv_config v; pv_usage := pv_usage v; pv_closed := pv_closed v;
     pv_lastError := pv_lastError v; pv_lastCompaction := pv_lastCompaction v; pv_compacted := pv_compacted v |}.
Definition with_queue (queue : list (string * ProjectedQueueItem)) (v : projected_view) : projected_view :=
  {| pv_tools := pv_tools v; pv_interactions := pv_interactions v; pv_operations := pv_operations v;
     pv_active := pv_active v; pv_queue := queue; pv_interrupts := pv_interrupts v;
     pv_config := pv_config v; pv_usage := pv_usage v; pv_closed := pv_closed v;
     pv_lastError := pv_lastError v; pv_lastCompaction := pv_lastCompaction v; pv_compacted := pv_compacted v |}.
Definition with_interrupts (interrupts : list (string * ProjectedInterruptDelivery)) (v : projected_view) : projected_view :=
  {| pv_tools := pv_tools v; pv_interactions := pv_interactions v; pv_operations := pv_operations v;
     pv_active := pv_active v; pv_queue := pv_queue v; pv_interrupts := interrupts;
     pv_config := pv_config v; pv_usage := pv_usage v; pv_closed := pv_closed v;
     pv_lastError := pv_lastError v; pv_lastCompaction := pv_lastCompaction v; pv_compacted := pv_compacted v |}.
Definition with_usage (usage : UsageTotals) (v : projected_view) : projected_view :=
  {| pv_tools := pv_tools v; pv_interactions := pv_interactions v; pv_operations := pv_operations v;
     pv_active := pv_active v; pv_queue := pv_queue v; pv_interrupts := pv_interrupts v;
     pv_config := pv_config v; pv_usage := usage; pv_closed := pv_closed v;
     pv_lastError := pv_lastError v; pv_lastCompaction := pv_lastCompaction v; pv_compacted := pv_compacted v |}.
Definition with_error (e : event) (v : projected_view) : projected_view :=
  {| pv_tools := pv_tools v; pv_interactions := pv_interactions v; pv_operations := pv_operations v;
     pv_active := pv_active v; pv_queue := pv_queue v; pv_interrupts := pv_interrupts v;
     pv_config := pv_config v; pv_usage := pv_usage v; pv_closed := pv_closed v;
     pv_lastError := Some e; pv_lastCompaction := pv_lastCompaction v; pv_compacted := pv_compacted v |}.
Definition with_closed (v : projected_view) : projected_view :=
  {| pv_tools := pv_tools v; pv_interactions := pv_interactions v; pv_operations := pv_operations v;
     pv_active := pv_active v; pv_queue := pv_queue v; pv_interrupts := pv_interrupts v;
     pv_config := pv_config v; pv_usage := pv_usage v; pv_closed := true;
     pv_lastError := pv_lastError v; pv_lastCompaction := pv_lastCompaction v; pv_compacted := pv_compacted v |}.
Definition with_compaction (e : event) (compacted : list string) (v : projected_view) : projected_view :=
  {| pv_tools := pv_tools v; pv_interactions := pv_interactions v; pv_operations := pv_operations v;
     pv_active := pv_active v; pv_queue := pv_queue v; pv_interrupts := pv_interrupts v;
     pv_config := pv_config v; pv_usage := pv_usage v; pv_closed := pv_closed v;
     pv_lastError := pv_lastError v; pv_lastCompaction := Some e; pv_compacted := compacted |}.

(** ** Helpers *)

(** [set.add(x)]: a set in insertion order. *)
Definition set_add (x : string) (s : list string) : list string := if bool_decide (x ∈ s) then s else s ++ [x].
(** [set.delete(x)] *)
Definition set_delete (x : string) (s : list string) : list string := filter (λ y, y ≠ x) s.

(** [name.toLowerCase()], up to the characters whose lower case is not ASCII, which the
    tests of [renderIntent] cannot see: besides the letters, the Kelvin sign and the dotted
    capital I have one that is. *)
Definition lower_point (p : N) : list N :=
  if in_range 65 90 p then [(p + 32)%N]
  else if N.eqb p 8490 then [107%N]
  else if N.eqb p 304 then [105; 775]%N
  else [p].
Definition toLowerCase (s : string) : string := of_code_points (mjoin (lower_point <$> code_points s)).

Definition renderIntent (name : string) : intent :=
  let normalized := toLowerCase name in
  let named s := bool_decide (normalized = s) in
  if named "bash" || named "shell" || includes "terminal" normalized then IShell
  else if named "read" || includes "read_file" normalized then IRead
  else if named "edit" || includes "write" normalized || includes "diff" normalized then IEdit
  else if includes "search" normalized || includes "grep" normalized then ISearch
  else if includes "web" normalized || includes "fetch" normalized then IWeb
  else if starts_with "mcp" normalized || includes "__" normalized then IMcp
  else if includes "workflow" normalized then IWorkflow
  else IGeneric.

Definition MAX_PROJECTED_ACTIVITY_CHARACTERS : Z := 131072.
Definition ACTIVITY_TRIM_BATCH_CHARACTERS : Z := 16384.

(** [s.slice(-n)] *)
Definition js_slice_end (n : Z) (s : string) : string := js_slice_from (js_length s - n) s.

Definition boundedActivityText (current addition : string) : string :=
  let combined := current +:+ addition in
  if (js_length combined <=? MAX_PROJECTED_ACTIVITY_CHARACTERS + ACTIVITY_TRIM_BATCH_CHARACTERS)%Z then combined
  else js_slice_end MAX_PROJECTED_ACTIVITY_CHARACTERS combined.

Definition addUsage (total : UsageTotals) (usage : option Usage) : UsageTotals :=
  match usage with
  | None => total
  | Some u =>
      {| ut_inputTokens := num_add (ut_inputTokens total) (NInt (usage_inputTokens u));
         ut_outputTokens := num_add (ut_outputTokens total) (NInt (usage_outputTokens u));
         ut_cacheReadTokens := num_add (ut_cacheReadTokens total) (NInt (usage_cacheReadTokens u));
         ut_cacheWriteTokens := num_add (ut_cacheWriteTokens total) (NInt (usage_cacheWriteTokens u));
         ut_reasoningTokens := num_add (ut_reasoningTokens total) (NInt (default 0%Z (usage_reasoningTokens u)));
         ut_costUsd := num_add (ut_costUsd total) (default (NInt 0) (usage_costUsd u)) |}
  end.

(** ** Operations and the queue *)

Definition updateOperation (operationId : option string) (status : operation_status) (v : projected_view) :
    projected_view :=
  match operationId with
  | None => v
  | Some id =>
      let active :=
        match status with
        | ORunning | OWaitingInteraction => Some id
        | _ => if bool_decide (pv_active v = Some id) then None else pv_active v
        end in
      with_operations (map_set id status (pv_operations v)) active v
  end.

Definition queue_item (item : ProjectedQueueItem) (status : queue_status) (priority : option Priority) :
    ProjectedQueueItem :=
  {| pq_queueItemId := pq_queueItemId item; pq_operationId := pq_operationId item;
     pq_content := pq_content item; pq_priority := default (pq_priority item) priority; pq_status := status |}.

Definition updateQueueItem (queueItemId : string) (status : queue_status) (priority : option Priority)
    (v : projected_view) : result ProjectionError projected_view :=
  match map_get queueItemId (pv_queue v) with
  | None => Err {| pe_code := "queue_identity_conflict"; pe_message := "Unknown queue item " +:+ queueItemId |}
  | Some current => Ok (with_queue (map_set queueItemId (queue_item current status priority) (pv_queue v)) v)
  end.

(** The items are set while the map is iterated, which does not change its order. *)
Definition completeQueuedOperation (operationId : option string) (status : queue_status) (v : projected_view) :
    projected_view :=
  match operationId with
  | None => v
  | Some id =>
      with_queue ((λ kv, if bool_decide (pq_operationId kv.2 = Some id ∧ pq_status kv.2 = QRunning)
                         then (kv.1, queue_item kv.2 status None) else kv) <$> pv_queue v) v
  end.

(** ** Activity *)

(** [while (this.activitySequences.size > 128)]: the oldest go first. *)
Fixpoint evict (sequences : list (string * Z)) (retired : list string) : list (string * Z) * list string :=
  match sequences with
  | (oldest, _) :: rest => if 128 <? length sequences then evict rest (set_delete oldest retired) else (sequences, retired)
  | [] => ([], retired)
  end.

Definition rememberActivitySequence (operationId : string) (sequence : Z) (a : activity_view) : activity_view :=
  let sequences := map_set operationId sequence (map_delete operationId (av_sequences a)) in
  let kept := evict sequences (av_retired a) in
  {| av_activity := av_activity a; av_sequences := kept.1; av_retired := kept.2; av_latest := av_latest a |}.

Definition retireActivity (operationId : string) (a : activity_view) : activity_view :=
  let sequence :=
    match map_get operationId (av_sequences a) with
    | Some n => n
    | None => match av_activity a with Some act => pa_sequence act | None => 0%Z end
    end in
  rememberActivitySequence operationId sequence
    {| av_activity := av_activity a; av_sequences := av_sequences a;
       av_retired := set_add operationId (av_retired a); av_latest := av_latest a |}.

Definition of_operation (operationId : string) (act : option ProjectedActivity) : bool :=
  match act with Some x => bool_decide (pa_operationId x = operationId) | None => false end.

Definition with_activity (act : option ProjectedActivity) (a : activity_view) : activity_view :=
  {| av_activity := act; av_sequences := av_sequences a; av_retired := av_retired a; av_latest := av_latest a |}.
Definition with_latest (latest : option string) (a : activity_view) : activity_view :=
  {| av_activity := av_activity a; av_sequences := av_sequences a; av_retired := av_retired a; av_latest := latest |}.

Definition clearActivity (operationId : option string) (a : activity_view) : activity_view :=
  match operationId with
  | None =>
      let a := match av_latest a with Some latest => retireActivity latest a | None => a end in
      with_latest None (with_activity None a)
  | Some id =>
      let a := if of_operation id (av_activity a) then with_activity None a else a in
      let a := retireActivity id a in
      if bool_decide (av_latest a = Some id) then with_latest None a else a
  end.

(** The frame's effect on the text and the calls of [base]. *)
Definition frame_effect (frame : SessionActivityFrame) (base : ProjectedActivity) : option ProjectedActivity :=
  let sequence := int_of (af_sequence frame) in
  let next text thinking calls :=
    Some {| pa_operationId := pa_operationId base; pa_sequence := sequence; pa_text := text;
            pa_thinking := thinking; pa_toolCalls := calls |} in
  match af_body frame with
  | ActivityClear => None
  | ActivitySnapshot text thinking calls =>
      Some {| pa_operationId := af_operationId frame; pa_sequence := sequence;
              pa_text := boundedActivityText "" text; pa_thinking := boundedActivityText "" thinking;
              pa_toolCalls := calls |}
  | TextDelta false text => next (boundedActivityText (pa_text base) text) (pa_thinking base) (pa_toolCalls base)
  | TextDelta true text => next (pa_text base) (boundedActivityText (pa_thinking base) text) (pa_toolCalls base)
  | WireMessages.ToolCall call =>
      next (pa_text base) (pa_thinking base)
        (if existsb (λ c, bool_decide (tc_callId c = tc_callId call)) (pa_toolCalls base)
         then pa_toolCalls base else pa_toolCalls base ++ [call])
  end.

Definition is_snapshot (frame : SessionActivityFrame) : bool :=
  match af_body frame with ActivitySnapshot _ _ _ => true | _ => false end.

Definition sequence_gap (what : string) : ProjectionError :=
  {| pe_code := "activity_sequence_gap"; pe_message := what |}.

(** The part of [applyActivity] after the frame is accepted. *)
Definition accept_frame (frame : SessionActivityFrame) (a : activity_view) : activity_view :=
  let id := af_operationId frame in
  let sequence := int_of (af_sequence frame) in
  let a := match av_latest a with
           | Some latest => if bool_decide (latest = id) then a else retireActivity latest a
           | None => a
           end in
  let a := with_latest (Some id) a in
  let base := match av_activity a with
              | Some act => if bool_decide (pa_operationId act = id) then act
                            else {| pa_operationId := id; pa_sequence := sequence - 1; pa_text := ""; pa_thinking := ""; pa_toolCalls := [] |}
              | None => {| pa_operationId := id; pa_sequence := sequence - 1; pa_text := ""; pa_thinking := ""; pa_toolCalls := [] |}
              end in
  let a := rememberActivitySequence id sequence (with_activity (Some base) a) in
  with_activity (frame_effect frame base) a.

Definition applyActivity (frame : SessionActivityFrame) (a : activity_view) :
    activity_view * result ProjectionError bool :=
  let id := af_operationId frame in
  let sequence := int_of (af_sequence frame) in
  if bool_decide (id ∈ av_retired a) then (a, Ok false)
  else
    match map_get id (av_sequences a) with
    | Some prior =>
        if (sequence <=? prior)%Z then (a, Ok false)
        else if negb (sequence =? prior + 1)%Z then
          (if of_operation id (av_activity a) then with_activity None a else a,
           Err (sequence_gap ("Transient activity sequence gap: expected " +:+ pretty (prior + 1)%Z +:+ ", received " +:+ pretty sequence)))
        else (accept_frame frame a, Ok true)
    | None =>
        if negb (is_snapshot frame) && negb (sequence =? 0)%Z && negb (sequence =? 1)%Z then
          (with_activity None a,
           Err (sequence_gap ("Transient activity must start at sequence 0 or 1, received " +:+ pretty sequence)))
        else (accept_frame frame a, Ok true)
    end.

(** ** Events *)

Abbreviation conflict code message := {| pe_code := code; pe_message := message |}.

(** What an event changes besides the history. *)
Record effects := { ef_view : projected_view; ef_uncertain : list (string * string); ef_activity : activity_view }.

Definition on_view (f : projected_view → projected_view) (s : effects) : effects :=
  {| ef_view := f (ef_view s); ef_uncertain := ef_uncertain s; ef_activity := ef_activity s |}.
Definition on_activity (f : activity_view → activity_view) (s : effects) : effects :=
  {| ef_view := ef_view s; ef_uncertain := ef_uncertain s; ef_activity := f (ef_activity s) |}.
Definition set_view (v : projected_view) (s : effects) : effects := on_view (λ _, v) s.

Definition interrupt_requested (e : event) (items : list content) (target : option string) (s : effects) :
    effects * option ProjectionError :=
  match ev_operationId e with
  | None => (s, Some (conflict "interrupt_identity_conflict" ("Interrupt request " +:+ ev_id e +:+ " has no operation identity")))
  | Some id =>
      (on_view (λ v, with_interrupts (map_set id
         {| pd_requestEventId := ev_id e; pd_operationId := Some id; pd_content := items;
            pd_targetOperationId := target; pd_reason := None; pd_status := DQueued |} (pv_interrupts v)) v) s, None)
  end.

Definition interrupt_updated (e : event) (state : InterruptState) (target reason : option string) (s : effects) :
    effects * option ProjectionError :=
  match ev_operationId e with
  | None => (s, Some (conflict "interrupt_identity_conflict" ("Interrupt update " +:+ ev_id e +:+ " has no operation identity")))
  | Some id =>
      match map_get id (pv_interrupts (ef_view s)) with
      | None => (s, Some (conflict "interrupt_identity_conflict" ("Interrupt update " +:+ ev_id e +:+ " has no matching request")))
      | Some d =>
          (on_view (λ v, with_interrupts (map_set id
             {| pd_requestEventId := pd_requestEventId d; pd_operationId := pd_operationId d; pd_content := pd_content d;
                pd_targetOperationId := match target with Some _ => target | None => pd_targetOperationId d end;
                pd_reason := match reason with Some _ => reason | None => pd_reason d end;
                pd_status := DUpdated state |} (pv_interrupts v)) v) s, None)
      end
  end.

(** The recorded call leaves the calls of the running activity. *)
Definition drop_recorded_call (operationId : option string) (callId : string) (a : activity_view) : activity_view :=
  match av_activity a with
  | Some act =>
      if bool_decide (Some (pa_operationId act) = operationId) then
        with_activity (Some {| pa_operationId := pa_operationId act; pa_sequence := pa_sequence act; pa_text := pa_text act;
                               pa_thinking := pa_thinking act;
                               pa_toolCalls := filter (λ c, tc_callId c ≠ callId) (pa_toolCalls act) |}) a
      else a
  | None => a
  end.

Definition tool_call (e : event) (callId name : string) (input : fields) (s : effects) :
    effects * option ProjectionError :=
  let s := on_view (updateOperation (ev_operationId e) ORunning) s in
  if map_has callId (pv_tools (ef_view s)) then
    (s, Some (conflict "tool_identity_conflict" ("Duplicate tool call " +:+ callId)))
  else
    let s := on_view (λ v, with_tools (map_set callId
        {| pt_callId := callId; pt_name := name; pt_input := input; pt_callEventId := ev_id e;
           pt_operationId := ev_operationId e; pt_result := None; pt_renderIntent := renderIntent name |}
        (pv_tools v)) v) s in
    (on_activity (drop_recorded_call (ev_operationId e) callId) s, None).

Definition with_result (call : ProjectedToolCall) (r : ToolOutcome) : ProjectedToolCall :=
  {| pt_callId := pt_callId call; pt_name := pt_name call; pt_input := pt_input call;
     pt_callEventId := pt_callEventId call; pt_operationId := pt_operationId call; pt_result := Some r;
     pt_renderIntent := pt_renderIntent call |}.

Definition tool_result (e : event) (callId name : string) (items : list content) (isError : bool)
    (details : option jsval) (s : effects) : effects * option ProjectionError :=
  match map_get callId (pv_tools (ef_view s)) with
  | Some call =>
      if negb (bool_decide (pt_name call = name)) || bool_decide (is_Some (pt_result call)) then
        (s, Some (conflict "tool_identity_conflict" ("Tool result " +:+ callId +:+ " has no matching call")))
      else
        (on_view (λ v, with_tools (map_set callId (with_result call
           {| to_eventId := ev_id e; to_content := items; to_isError := isError; to_details := details |})
           (pv_tools v)) v) s, None)
  | None => (s, Some (conflict "tool_identity_conflict" ("Tool result " +:+ callId +:+ " has no matching call")))
  end.

Definition interaction_requested (e : event) (id : string) (s : effects) : effects * option ProjectionError :=
  if map_has id (pv_interactions (ef_view s)) then
    (s, Some (conflict "interaction_identity_conflict" ("Duplicate interaction " +:+ id)))
  else
    let s := on_view (λ v, with_interactions (map_set id
        {| pi_interactionId := id; pi_request := e; pi_resolution := None |} (pv_interactions v)) v) s in
    (on_view (updateOperation (ev_operationId e) OWaitingInteraction) s, None).

Definition interaction_resolved (e : event) (id : string) (s : effects) : effects * option ProjectionError :=
  let error := conflict "interaction_identity_conflict" ("Interaction " +:+ id +:+ " cannot be resolved") in
  match map_get id (pv_interactions (ef_view s)) with
  | Some i =>
      if bool_decide (is_Some (pi_resolution i)) then (s, Some error)
      else
        let s := on_view (λ v, with_interactions (map_set id
            {| pi_interactionId := pi_interactionId i; pi_request := pi_request i; pi_resolution := Some e |}
            (pv_interactions v)) v) s in
        (on_view (updateOperation (ev_operationId e) ORunning) s, None)
  | None => (s, Some error)
  end.

(** The end of an operation: its status, its queue items, its activity. *)
Definition settle_operation (operationId : option string) (status : operation_status) (queued : queue_status)
    (s : effects) : effects :=
  on_activity (clearActivity operationId)
    (on_view (λ v, completeQueuedOperation operationId queued (updateOperation operationId status v)) s).

Definition assistant_message (e : event) (stopReason : AssistantStopReason) (usage : option Usage) (s : effects) : effects :=
  let s := on_view (λ v, with_usage (addUsage (pv_usage v) usage) v) s in
  match stopReason with
  | SToolUse => on_view (updateOperation (ev_operationId e) ORunning) s
  | SAborted => settle_operation (ev_operationId e) OAborted QAborted s
  | SError => settle_operation (ev_operationId e) OFailed QFailed s
  | SStop | SLength => settle_operation (ev_operationId e) OSucceeded QCompleted s
  end.

Definition user_shell (e : event) (isError : bool) (s : effects) : effects :=
  let s := on_view (updateOperation (ev_operationId e) (if isError then OFailed else OSucceeded)) s in
  match ev_operationId e with
  | Some id => {| ef_view := ef_view s; ef_uncertain := map_delete id (ef_uncertain s); ef_activity := ef_activity s |}
  | None => s
  end.

Definition queue_update (queueItemId : string) (status : queue_status) (priority : option Priority) (s : effects) :
    effects * option ProjectionError :=
  match updateQueueItem queueItemId status priority (ef_view s) with
  | Ok v => (set_view v s, None)
  | Err err => (s, Some err)
  end.

Definition session_closed (e : event) (s : effects) : effects :=
  on_activity (clearActivity (ev_operationId e))
    (on_view (λ v, let v := updateOperation (ev_operationId e) OSucceeded (with_closed v) in
                   with_operations (pv_operations v) None v) s).

Definition config_event (p : payload) (c : projected_config) : projected_config :=
  let make model provider entitlement thinking settings last profile fetch search sandbox :=
    {| pc_model := model; pc_provider := provider; pc_entitlement := entitlement; pc_thinking := thinking;
       pc_requestSettings := settings; pc_lastRequest := last; pc_profile := profile; pc_webFetch := fetch;
       pc_webSearch := search; pc_sandbox := sandbox |} in
  let '(Build_projected_config model provider entitlement thinking settings last profile fetch search sandbox) := c in
  match p with
  | ConfigModel m => make (Some m) provider entitlement thinking settings last profile fetch search sandbox
  | ConfigProvider q => make model (Some q) entitlement thinking settings last profile fetch search sandbox
  | ConfigEntitlement n => make model provider (Some n) thinking settings last profile fetch search sandbox
  | ConfigRequest s => make model provider entitlement thinking (Some s) last profile fetch search sandbox
  | RequestConfigured r => make model provider entitlement thinking settings (Some r) profile fetch search sandbox
  | ConfigThinking _ effective _ => make model provider entitlement (Some effective) settings last profile fetch search sandbox
  | ConfigProfile q => make model provider entitlement thinking settings last (Some q) fetch search sandbox
  | ConfigTools f s => make model provider entitlement thinking settings last profile (Some f) (Some s) sandbox
  | SandboxConfigured p enforced _ _ => make model provider entitlement thinking settings last profile fetch search (Some (p, enforced))
  | _ => c
  end.

(** The [switch] of [applyEvent]. *)
Definition event_effect (e : event) (s : effects) : effects * option ProjectionError :=
  let op := ev_operationId e in
  match ev_payload e with
  | UserMessage _ => (on_view (updateOperation op ORunning) s, None)
  | QueueEnqueued items priority =>
      (on_view (λ v, with_queue (map_set (ev_id e)
         {| pq_queueItemId := ev_id e; pq_operationId := op; pq_content := items; pq_priority := priority;
            pq_status := QQueued |} (pv_queue v)) v) s, None)
  | QueueRequeued id priority => queue_update id QQueued (Some priority) s
  | QueueStarted id =>
      let (s, err) := queue_update id QRunning None s in
      match err with
      | Some _ => (s, err)
      | None => (on_view (updateOperation op ORunning) s, None)
      end
  | QueuePaused id => queue_update id QPaused None s
  | InterruptRequested items target => interrupt_requested e items target s
  | InterruptUpdated state target reason => interrupt_updated e state target reason s
  | UserShell _ _ isError _ => (user_shell e isError s, None)
  | Types.ToolCall callId name input => tool_call e callId name input s
  | ToolResult callId name items isError details => tool_result e callId name items isError details s
  | InteractionRequested id _ _ _ _ => interaction_requested e id s
  | InteractionResolved id _ _ => interaction_resolved e id s
  | AssistantMessage _ stopReason usage _ => (assistant_message e stopReason usage s, None)
  | ContextCompacted _ replaced usage =>
      (on_view (λ v, with_compaction e (fold_left (λ c id, set_add id c) replaced (pv_compacted v))
                       (with_usage (addUsage (pv_usage v) usage) v)) s, None)
  | SessionErrorP _ _ _ _ => (settle_operation op OFailed QFailed (on_view (with_error e) s), None)
  | SessionClosed _ => (session_closed e s, None)
  | p => (on_view (with_config (config_event p)) s, None)
  end.

(** [this.events.set(id, encoded); this.records.push(record)] *)
Definition record_event (id encoded : string) (r : ConversationRecord) (st : projector) : projector :=
  {| pj_sessionId := pj_sessionId st; pj_selectedNodeId := pj_selectedNodeId st;
     pj_records := pj_records st ++ [r]; pj_events := map_set id encoded (pj_events st);
     pj_view := pj_view st; pj_uncertain := pj_uncertain st; pj_activity := pj_activity st |}.

Definition effects_of (st : projector) : effects :=
  {| ef_view := pj_view st; ef_uncertain := pj_uncertain st; ef_activity := pj_activity st |}.
Definition with_effects (s : effects) (st : projector) : projector :=
  {| pj_sessionId := pj_sessionId st; pj_selectedNodeId := pj_selectedNodeId st;
     pj_records := pj_records st; pj_events := pj_events st;
     pj_view := ef_view s; pj_uncertain := ef_uncertain s; pj_activity := ef_activity s |}.

(** [JSON.stringify(event)] *)
Definition encoded_event (e : event) : string := json_text (event_value e).

(** The checks the two [apply] methods share: [None] to go on. *)
Definition check_history (id : string) (parentId : option string) (encoded changed : string) (st : projector) :
    option (result ProjectionError bool) :=
  match map_get id (pj_events st) with
  | Some prior =>
      if bool_decide (prior = encoded) then Some (Ok false)
      else Some (Err (conflict "altered_duplicate" changed))
  | None =>
      match parentId with
      | Some parent =>
          if map_has parent (pj_events st) then None
          else Some (Err (conflict "missing_parent" ("Event " +:+ id +:+ " has a missing parent")))
      | None => None
      end
  end.

Definition expect_session (sessionId : option string) (st : projector) : projector :=
  match pj_sessionId st with
  | Some _ => st
  | None =>
      {| pj_sessionId := sessionId; pj_selectedNodeId := pj_selectedNodeId st; pj_records := pj_records st;
         pj_events := pj_events st; pj_view := pj_view st; pj_uncertain := pj_uncertain st;
         pj_activity := pj_activity st |}
  end.

Definition session_mismatch : ProjectionError := conflict "session_mismatch" "Event belongs to another session".

Definition applyEvent (e : event) (st : projector) : projector * result ProjectionError bool :=
  let st := expect_session (Some (ev_sessionId e)) st in
  if negb (bool_decide (pj_sessionId st = Some (ev_sessionId e))) then (st, Err session_mismatch)
  else
    match check_history (ev_id e) (ev_parentId e) (encoded_event e) ("Event " +:+ ev_id e +:+ " changed in transit") st with
    | Some r => (st, r)
    | None =>
        let st := record_event (ev_id e) (encoded_event e) (KnownEvent e) st in
        let (s, err) := event_effect e (effects_of st) in
        (with_effects s st, match err with Some x => Err x | None => Ok true end)
    end.

Definition applyUnknownEvent (e : GenericEvent) (st : projector) : projector * result ProjectionError bool :=
  if bool_decide (is_Some (pj_sessionId st)) && negb (bool_decide (pj_sessionId st = Some (ge_sessionId e))) then
    (st, Err session_mismatch)
  else
    match check_history (ge_id e) (ge_parentId e) (json_text (ge_value e)) "Unknown event changed" st with
    | Some r => (st, r)
    | None => (record_event (ge_id e) (json_text (ge_value e)) (UnknownEvent e) st, Ok true)
    end.

(** [reset(sessionId, selectedNodeId)]; a parameter left out is the current value. *)
Definition reset (sessionId selectedNodeId : option string) (st : projector) : projector :=
  let sessionId := match sessionId with Some _ => sessionId | None => pj_sessionId st end in
  let selectedNodeId := match selectedNodeId with Some _ => selectedNodeId | None => pj_selectedNodeId st end in
  let keepUncertainShells :=
    bool_decide (sessionId = pj_sessionId st) && bool_decide (selectedNodeId = pj_selectedNodeId st) in
  {| pj_sessionId := sessionId; pj_selectedNodeId := selectedNodeId; pj_records := []; pj_events := [];
     pj_view := empty_view; pj_uncertain := if keepUncertainShells then pj_uncertain st else [];
     pj_activity := no_activity |}.

(** A loop of [applyEvent]: the first throw ends it. *)
Fixpoint apply_events (events : list event) (st : projector) : projector * option ProjectionError :=
  match events with
  | [] => (st, None)
  | e :: rest => match applyEvent e st with (st', Ok _) => apply_events rest st' | (st', Err err) => (st', Some err) end
  end.

Definition replace (events : list event) (sessionId selectedNodeId : option string) (st : projector) :
    projector * option ProjectionError :=
  apply_events events (reset sessionId selectedNodeId st).

Definition markShellUncertain (operationId command : string) (st : projector) : projector :=
  {| pj_sessionId := pj_sessionId st; pj_selectedNodeId := pj_selectedNodeId st;
     pj_records := pj_records st; pj_events := pj_events st; pj_view := pj_view st;
     pj_uncertain := map_set operationId command (pj_uncertain st); pj_activity := pj_activity st |}.

Definition with_activity_view (a : activity_view) (st : projector) : projector :=
  with_effects {| ef_view := pj_view st; ef_uncertain := pj_uncertain st; ef_activity := a |} st.

Definition apply_activity (frame : SessionActivityFrame) (st : projector) : projector * result ProjectionError bool :=
  let (a, r) := applyActivity frame (pj_activity st) in (with_activity_view a st, r).

Definition resetActivity (st : projector) : projector := with_activity_view no_activity st.

Definition isEventCompacted (eventId : string) (st : projector) : bool :=
  bool_decide (eventId ∈ pv_compacted (pj_view st)).

(** [overview.recordCount] *)
Definition recordCount (st : projector) : nat := length (pj_records st).
