(* ===== verification/ProjectorFacts.v ===== *)
(** What the projector shows: for a log that keeps the contract of the daemon, the view is
    what the events of each item make of it, whatever deliveries were repeated, reordered
    or lost. *)
From stdpp Require Import base list sets strings pretty.
From Stdlib Require Import ZArith Lia Ascii.
From S2P Require Import Prelude Text JsValue Json Utf8 Envelope Types Arith Events JsMap SessionTree Replay WireMessages Projector.

(** ** Tables: one item for each event that opens one *)

Section Tables.
Context {V : Type} (opens : event → option string) (init : event → V) (advance : string → event → V → V).

(** The item an event opens, after the events that follow. *)
Fixpoint table (log : list event) : list (string * V) :=
  match log with
  | [] => []
  | e :: rest =>
      match opens e with Some k => [(k, fold_left (λ v e, advance k e v) rest (init e))] | None => [] end ++ table rest
  end.

Definition opened (log : list event) : list string := omap opens log.

Lemma items_keys log : (table log).*1 = opened log.
Proof.
  unfold opened. induction log as [|e log IH]; [done|]. cbn [table]. rewrite fmap_app, IH. simpl.
  by destruct (opens e).
Qed.

Lemma table_snoc log e :
  table (log ++ [e]) = ((λ kv, (kv.1, advance kv.1 e kv.2)) <$> table log)
                       ++ match opens e with Some k => [(k, init e)] | None => [] end.
Proof.
  induction log as [|e' log IH]; cbn [app table]; [by rewrite app_nil_r|].
  rewrite IH. destruct (opens e') as [k|]; simpl; [|done]. by rewrite fold_left_app.
Qed.

(** An item is opened by one event of the log, and the later ones advance it. *)
Lemma table_elem log k v : (k, v) ∈ table log →
  ∃ pre e post, log = pre ++ e :: post ∧ opens e = Some k ∧ v = fold_left (λ v e, advance k e v) post (init e).
Proof.
  induction log as [|e log IH]; cbn [table]; [by intros ?%elem_of_nil|].
  rewrite elem_of_app. intros [H|H].
  - destruct (opens e) as [k'|] eqn:Eo; [|by apply elem_of_nil in H].
    apply list_elem_of_singleton in H as [= -> ->]. by exists [], e, log.
  - destruct (IH H) as (pre & e' & post & -> & Ho & Hv). by exists (e :: pre), e', post.
Qed.

Lemma items_get log k : map_get k (table log) = None ↔ k ∉ opened log.
Proof. by rewrite map_get_None, items_keys. Qed.

Lemma table_get_Some log k : k ∈ opened log → ∃ v, map_get k (table log) = Some v ∧ (k, v) ∈ table log.
Proof.
  intros Hk. destruct (map_get k (table log)) as [v|] eqn:E; [|by apply items_get in E].
  exists v. split; [done|]. by apply map_get_Some_elem.
Qed.

Lemma opened_snoc log e : opened (log ++ [e]) = opened log ++ option_list (opens e).
Proof. unfold opened. rewrite omap_app. simpl. by destruct (opens e). Qed.

Lemma table_same log e : opens e = None → (∀ k v, advance k e v = v) → table (log ++ [e]) = table log.
Proof.
  intros Ho Ha. rewrite table_snoc, Ho, app_nil_r.
  rewrite <- (list_fmap_id (table log)) at 2. apply list_fmap_ext. intros i [k v] _. by rewrite Ha.
Qed.

Lemma table_new log e k : opens e = Some k → (∀ k v, advance k e v = v) → k ∉ opened log →
  table (log ++ [e]) = map_set k (init e) (table log).
Proof.
  intros Ho Ha Hk. rewrite table_snoc, Ho, map_set_new by (by rewrite items_keys). f_equal.
  rewrite <- (list_fmap_id (table log)) at 2. apply list_fmap_ext. intros i [k' v] _. by rewrite Ha.
Qed.

(** Setting a key of a map to a function of its value. *)
Lemma map_set_at (m : list (string * V)) k v f : map_ok m → map_get k m = Some v →
  map_set k (f v) m = (λ kv, (kv.1, if decide (kv.1 = k) then f kv.2 else kv.2)) <$> m.
Proof.
  unfold map_ok. induction m as [|[k' v'] m IH]; [done|]. simpl.
  intros [Hk Hnd]%NoDup_cons. case_bool_decide as Hkk.
  - intros [= ->]. subst. rewrite decide_True by done. f_equal.
    rewrite <- (list_fmap_id m) at 1. apply list_fmap_ext. intros i [k2 v2] H2.
    rewrite decide_False; [done|]. intros Hx. simpl in Hx. subst. apply Hk.
    apply list_elem_of_fmap. exists (k, v2). split; [done|]. by eapply list_elem_of_lookup_2.
  - intros Hg. rewrite decide_False by done. f_equal. by apply IH.
Qed.

Lemma table_at log e k v f : opens e = None → NoDup (opened log) → map_get k (table log) = Some v →
  (∀ k' v', advance k' e v' = if decide (k' = k) then f v' else v') →
  table (log ++ [e]) = map_set k (f v) (table log).
Proof.
  intros Ho Hnd Hg Ha. rewrite table_snoc, Ho, app_nil_r, map_set_at; [|unfold map_ok; by rewrite items_keys|done].
  apply list_fmap_ext. intros i [k' v'] _. by rewrite Ha.
Qed.
End Tables.

(** ** The view as a function of the log *)

Definition tool_opens (e : event) : option string :=
  match ev_payload e with Types.ToolCall c _ _ => Some c | _ => None end.
Definition tool_init (e : event) : ProjectedToolCall :=
  match ev_payload e with
  | Types.ToolCall c n input =>
      {| pt_callId := c; pt_name := n; pt_input := input; pt_callEventId := ev_id e;
         pt_operationId := ev_operationId e; pt_result := None; pt_renderIntent := renderIntent n |}
  | _ => {| pt_callId := ""; pt_name := ""; pt_input := []; pt_callEventId := ""; pt_operationId := None;
            pt_result := None; pt_renderIntent := IGeneric |}
  end.
Definition tool_advance (k : string) (e : event) (t : ProjectedToolCall) : ProjectedToolCall :=
  match ev_payload e with
  | ToolResult c _ items isError details =>
      if decide (k = c) then
        with_result t {| to_eventId := ev_id e; to_content := items; to_isError := isError; to_details := details |}
      else t
  | _ => t
  end.

Definition interaction_opens (e : event) : option string :=
  match ev_payload e with InteractionRequested id _ _ _ _ => Some id | _ => None end.
Definition interaction_init (e : event) : ProjectedInteraction :=
  {| pi_interactionId := default "" (interaction_opens e); pi_request := e; pi_resolution := None |}.
Definition interaction_advance (k : string) (e : event) (i : ProjectedInteraction) : ProjectedInteraction :=
  match ev_payload e with
  | InteractionResolved id _ _ =>
      if decide (k = id) then
        {| pi_interactionId := pi_interactionId i; pi_request := pi_request i; pi_resolution := Some e |}
      else i
  | _ => i
  end.

Definition queue_opens (e : event) : option string :=
  match ev_payload e with QueueEnqueued _ _ => Some (ev_id e) | _ => None end.
Definition queue_init (e : event) : ProjectedQueueItem :=
  match ev_payload e with
  | QueueEnqueued items priority =>
      {| pq_queueItemId := ev_id e; pq_operationId := ev_operationId e; pq_content := items;
         pq_priority := priority; pq_status := QQueued |}
  | _ => {| pq_queueItemId := ""; pq_operationId := None; pq_content := []; pq_priority := Back; pq_status := QQueued |}
  end.

(** How an event ends its operation, if it does. *)
Definition ends_operation (e : event) : option queue_status :=
  match ev_payload e with
  | AssistantMessage _ SToolUse _ _ => None
  | AssistantMessage _ SAborted _ _ => Some QAborted
  | AssistantMessage _ SError _ _ => Some QFailed
  | AssistantMessage _ _ _ _ => Some QCompleted
  | SessionErrorP _ _ _ _ => Some QFailed
  | _ => None
  end.

(** The states of a queued prompt: queued, running, paused, and how it ended. *)
Definition queue_advance (k : string) (e : event) (q : ProjectedQueueItem) : ProjectedQueueItem :=
  match ev_payload e with
  | QueueRequeued id priority => if decide (k = id) then queue_item q QQueued (Some priority) else q
  | QueueStarted id => if decide (k = id) then queue_item q QRunning None else q
  | QueuePaused id => if decide (k = id) then queue_item q QPaused None else q
  | _ =>
      match ends_operation e, ev_operationId e with
      | Some status, Some op =>
          if bool_decide (pq_operationId q = Some op ∧ pq_status q = QRunning) then queue_item q status None else q
      | _, _ => q
      end
  end.

Definition interrupt_opens (e : event) : option string :=
  match ev_payload e with InterruptRequested _ _ => ev_operationId e | _ => None end.
Definition interrupt_init (e : event) : ProjectedInterruptDelivery :=
  match ev_payload e with
  | InterruptRequested items target =>
      {| pd_requestEventId := ev_id e; pd_operationId := ev_operationId e; pd_content := items;
         pd_targetOperationId := target; pd_reason := None; pd_status := DQueued |}
  | _ => {| pd_requestEventId := ""; pd_operationId := None; pd_content := []; pd_targetOperationId := None;
            pd_reason := None; pd_status := DQueued |}
  end.
Definition interrupt_advance (k : string) (e : event) (d : ProjectedInterruptDelivery) : ProjectedInterruptDelivery :=
  match ev_payload e with
  | InterruptUpdated state target reason =>
      if decide (Some k = ev_operationId e) then
        {| pd_requestEventId := pd_requestEventId d; pd_operationId := pd_operationId d; pd_content := pd_content d;
           pd_targetOperationId := match target with Some _ => target | None => pd_targetOperationId d end;
           pd_reason := match reason with Some _ => reason | None => pd_reason d end;
           pd_status := DUpdated state |}
      else d
  | _ => d
  end.

(** The last value a kind of event set. *)
Definition last_set {A} (f : payload → option A) (log : list event) : option A := last (omap (f ∘ ev_payload) log).

Definition config_of (log : list event) : projected_config :=
  {| pc_model := last_set (λ p, match p with ConfigModel m => Some m | _ => None end) log;
     pc_provider := last_set (λ p, match p with ConfigProvider q => Some q | _ => None end) log;
     pc_entitlement := last_set (λ p, match p with ConfigEntitlement n => Some n | _ => None end) log;
     pc_thinking := last_set (λ p, match p with ConfigThinking _ effective _ => Some effective | _ => None end) log;
     pc_requestSettings := last_set (λ p, match p with ConfigRequest s => Some s | _ => None end) log;
     pc_lastRequest := last_set (λ p, match p with RequestConfigured r => Some r | _ => None end) log;
     pc_profile := last_set (λ p, match p with ConfigProfile q => Some q | _ => None end) log;
     pc_webFetch := last_set (λ p, match p with ConfigTools f _ => Some f | _ => None end) log;
     pc_webSearch := last_set (λ p, match p with ConfigTools _ s => Some s | _ => None end) log;
     pc_sandbox := last_set (λ p, match p with SandboxConfigured n enforced _ _ => Some (n, enforced) | _ => None end) log |}.

(** The status an event gives its operation. *)
Definition operation_set (e : event) : option operation_status :=
  match ev_payload e with
  | UserMessage _ | QueueStarted _ | Types.ToolCall _ _ _ | InteractionResolved _ _ _ => Some ORunning
  | InteractionRequested _ _ _ _ _ => Some OWaitingInteraction
  | UserShell _ _ isError _ => Some (if isError then OFailed else OSucceeded)
  | AssistantMessage _ SToolUse _ _ => Some ORunning
  | AssistantMessage _ SAborted _ _ => Some OAborted
  | AssistantMessage _ SError _ _ => Some OFailed
  | AssistantMessage _ _ _ _ => Some OSucceeded
  | SessionErrorP _ _ _ _ => Some OFailed
  | SessionClosed _ => Some OSucceeded
  | _ => None
  end.

Definition is_closed (e : event) : bool := match ev_payload e with SessionClosed _ => true | _ => false end.

(** The statuses of the operations, and the one that is under way. *)
Definition operations_step (s : list (string * operation_status) * option string) (e : event) :
    list (string * operation_status) * option string :=
  match operation_set e, ev_operationId e with
  | Some status, Some id =>
      (map_set id status s.1,
       match status with
       | ORunning | OWaitingInteraction => Some id
       | _ => if is_closed e then None else if bool_decide (s.2 = Some id) then None else s.2
       end)
  | _, _ => (s.1, if is_closed e then None else s.2)
  end.
Definition operations_of (log : list event) : list (string * operation_status) * option string :=
  fold_left operations_step log ([], None).

Definition usage_in (p : payload) : option Usage :=
  match p with AssistantMessage _ _ u _ | ContextCompacted _ _ u => u | _ => None end.
Definition usage_of (log : list event) : UsageTotals :=
  fold_left (λ total u, addUsage total (Some u)) (omap (usage_in ∘ ev_payload) log) EMPTY_USAGE.

Definition error_in (e : event) : option event := match ev_payload e with SessionErrorP _ _ _ _ => Some e | _ => None end.
Definition compaction_in (e : event) : option event := match ev_payload e with ContextCompacted _ _ _ => Some e | _ => None end.
Definition replaced_in (e : event) : list string := match ev_payload e with ContextCompacted _ ids _ => ids | _ => [] end.

Definition view_of (log : list event) : projected_view :=
  {| pv_tools := table tool_opens tool_init tool_advance log;
     pv_interactions := table interaction_opens interaction_init interaction_advance log;
     pv_operations := (operations_of log).1;
     pv_active := (operations_of log).2;
     pv_queue := table queue_opens queue_init queue_advance log;
     pv_interrupts := table interrupt_opens interrupt_init interrupt_advance log;
     pv_config := config_of log;
     pv_usage := usage_of log;
     pv_closed := existsb is_closed log;
     pv_lastError := last (omap error_in log);
     pv_lastCompaction := last (omap compaction_in log);
     pv_compacted := fold_left (λ c id, set_add id c) (mjoin (replaced_in <$> log)) [] |}.

(** ** Logs that can be shown *)

(** The contract between the events of a log that the projector relies on: calls and
    results pair, and what advances an item comes after what opens it. *)
Definition shows (log : list event) (e : event) : Prop :=
  may_follow log e ∧
  match ev_payload e with
  | QueueRequeued id _ | QueueStarted id | QueuePaused id => id ∈ opened queue_opens log
  | InterruptRequested _ _ => ∃ op, ev_operationId e = Some op ∧ op ∉ opened interrupt_opens log
  | InterruptUpdated _ _ _ => ∃ op, ev_operationId e = Some op ∧ op ∈ opened interrupt_opens log
  | InteractionRequested id _ _ _ _ => id ∉ opened interaction_opens log
  | InteractionResolved id _ _ =>
      id ∈ opened interaction_opens log ∧
      id ∉ omap (λ e, match ev_payload e with InteractionResolved id _ _ => Some id | _ => None end) log
  | _ => True
  end.

Inductive displayable : list event → Prop :=
| displayable_nil : displayable []
| displayable_snoc log e : displayable log → shows log e → displayable (log ++ [e]).

(** ** One event more *)

Section Snoc.
Implicit Types (log : list event) (e : event).

Lemma last_set_snoc {A} (f : payload → option A) log e :
  last_set f (log ++ [e]) = match f (ev_payload e) with Some x => Some x | None => last_set f log end.
Proof.
  unfold last_set. rewrite omap_app. simpl. destruct (f (ev_payload e)); [apply last_snoc | by rewrite app_nil_r].
Qed.

Lemma config_snoc log e : config_of (log ++ [e]) = config_event (ev_payload e) (config_of log).
Proof. unfold config_of, config_event. rewrite !last_set_snoc. by destruct (ev_payload e). Qed.

Lemma operations_snoc log e : operations_of (log ++ [e]) = operations_step (operations_of log) e.
Proof. unfold operations_of. by rewrite fold_left_app. Qed.

Lemma usage_snoc log e : usage_of (log ++ [e]) = addUsage (usage_of log) (usage_in (ev_payload e)).
Proof. unfold usage_of. rewrite omap_app, fold_left_app. simpl. by destruct (usage_in (ev_payload e)). Qed.

Lemma closed_snoc log e : existsb is_closed (log ++ [e]) = existsb is_closed log || is_closed e.
Proof. rewrite existsb_app. simpl. by rewrite orb_false_r. Qed.

Lemma last_omap_snoc {A} (f : event → option A) log e :
  last (omap f (log ++ [e])) = match f e with Some x => Some x | None => last (omap f log) end.
Proof. rewrite omap_app. simpl. destruct (f e); [apply last_snoc | by rewrite app_nil_r]. Qed.

Lemma compacted_snoc log e :
  fold_left (λ c id, set_add id c) (mjoin (replaced_in <$> log ++ [e])) []
  = fold_left (λ c id, set_add id c) (replaced_in e) (fold_left (λ c id, set_add id c) (mjoin (replaced_in <$> log)) []).
Proof. rewrite fmap_app, join_app, fold_left_app. simpl. by rewrite app_nil_r. Qed.

(** The view of a longer log, its tables apart. *)
Lemma view_of_snoc log e :
  view_of (log ++ [e]) =
  let v := view_of log in
  let ops := operations_step (pv_operations v, pv_active v) e in
  {| pv_tools := table tool_opens tool_init tool_advance (log ++ [e]);
     pv_interactions := table interaction_opens interaction_init interaction_advance (log ++ [e]);
     pv_operations := ops.1; pv_active := ops.2;
     pv_queue := table queue_opens queue_init queue_advance (log ++ [e]);
     pv_interrupts := table interrupt_opens interrupt_init interrupt_advance (log ++ [e]);
     pv_config := config_event (ev_payload e) (pv_config v);
     pv_usage := addUsage (pv_usage v) (usage_in (ev_payload e));
     pv_closed := pv_closed v || is_closed e;
     pv_lastError := match error_in e with Some x => Some x | None => pv_lastError v end;
     pv_lastCompaction := match compaction_in e with Some x => Some x | None => pv_lastCompaction v end;
     pv_compacted := fold_left (λ c id, set_add id c) (replaced_in e) (pv_compacted v) |}.
Proof.
  unfold view_of. cbn [pv_tools pv_operations pv_active pv_config pv_usage pv_closed pv_lastError pv_lastCompaction pv_compacted].
  by rewrite operations_snoc, config_snoc, usage_snoc, closed_snoc, !last_omap_snoc, compacted_snoc,
    <- surjective_pairing.
Qed.

Lemma tools_idle log e : tool_opens e = None → result_of e = None →
  table tool_opens tool_init tool_advance (log ++ [e]) = table tool_opens tool_init tool_advance log.
Proof.
  intros Ho Hr. apply table_same; [done|]. intros k v. unfold tool_advance. unfold result_of in Hr.
  by destruct (ev_payload e).
Qed.

Lemma interactions_idle log e :
  match ev_payload e with InteractionRequested _ _ _ _ _ | InteractionResolved _ _ _ => false | _ => true end = true →
  table interaction_opens interaction_init interaction_advance (log ++ [e])
  = table interaction_opens interaction_init interaction_advance log.
Proof.
  intros H. apply table_same; [|intros k v]; unfold interaction_opens, interaction_advance; by destruct (ev_payload e).
Qed.

Lemma interrupts_idle log e :
  match ev_payload e with InterruptRequested _ _ | InterruptUpdated _ _ _ => false | _ => true end = true →
  table interrupt_opens interrupt_init interrupt_advance (log ++ [e])
  = table interrupt_opens interrupt_init interrupt_advance log.
Proof.
  intros H. apply table_same; [|intros k v]; unfold interrupt_opens, interrupt_advance; by destruct (ev_payload e).
Qed.

Lemma queue_idle log e :
  match ev_payload e with
  | QueueEnqueued _ _ | QueueRequeued _ _ | QueueStarted _ | QueuePaused _ => false | _ => true end = true →
  ends_operation e = None ∨ ev_operationId e = None →
  table queue_opens queue_init queue_advance (log ++ [e]) = table queue_opens queue_init queue_advance log.
Proof.
  intros H He. apply table_same; [unfold queue_opens; by destruct (ev_payload e)|]. intros k v. unfold queue_advance.
  destruct (ev_payload e); try done; destruct (ends_operation e), (ev_operationId e); naive_solver.
Qed.

(** The end of an operation moves its running prompts. *)
Lemma queue_ended log e op status : ends_operation e = Some status → ev_operationId e = Some op →
  table queue_opens queue_init queue_advance (log ++ [e])
  = (λ kv, if bool_decide (pq_operationId kv.2 = Some op ∧ pq_status kv.2 = QRunning)
           then (kv.1, queue_item kv.2 status None) else kv) <$> table queue_opens queue_init queue_advance log.
Proof.
  intros He Hop. rewrite table_snoc.
  assert (Ho : queue_opens e = None) by (unfold queue_opens, ends_operation in *; by destruct (ev_payload e)).
  rewrite Ho, app_nil_r. apply list_fmap_ext. intros i [k q] _. cbn [fst snd].
  assert (Ha : queue_advance k e q
    = if bool_decide (pq_operationId q = Some op ∧ pq_status q = QRunning) then queue_item q status None else q).
  { unfold queue_advance. rewrite He, Hop. unfold ends_operation in He. by destruct (ev_payload e). }
  rewrite Ha. by case_bool_decide.
Qed.
End Snoc.

(** Rewrites the fields of [view_of (log ++ [e])] that the payload [E] does not touch. *)
#[local] Ltac idle E :=
  rewrite view_of_snoc;
  rewrite ?tools_idle by (unfold tool_opens, result_of; by rewrite E);
  rewrite ?interactions_idle by (by rewrite E);
  rewrite ?interrupts_idle by (by rewrite E);
  unfold operations_step, operation_set, is_closed, error_in, compaction_in, replaced_in; rewrite E;
  cbn [usage_in config_event addUsage fold_left fst snd orb].

Section Effects.
Context (log : list event) (e : event) (s : effects).
Hypothesis (Hview : ef_view s = view_of log).

Abbreviation shown := ((event_effect e s).2 = None ∧ ef_view (event_effect e s).1 = view_of (log ++ [e])).

Definition plain_payload (p : payload) : bool :=
  match p with
  | SessionCreated _ _ _ _ | SessionResumed | SessionRenamed _ | RetryScheduled _ _ _ _ | ConfigRequest _
  | RequestConfigured _ | ConfigModel _ | ConfigProvider _ | ConfigEntitlement _ | ConfigProfile _
  | ConfigThinking _ _ _ | ConfigTools _ _ | ConfigDialect _ _ _ | PromptSection _ _ _ | ToolSchema _ _ _
  | ContextInjected _ _ | ContextExtension _ _ _ | PermissionRequested _ _ | PermissionResolved _ _ _
  | SandboxConfigured _ _ _ _ | SandboxViolation _ _ | ChildResult _ _ _ => true
  | _ => false
  end.

Lemma shows_plain : plain_payload (ev_payload e) = true → shown.
Proof.
  intros Hp. unfold event_effect. destruct (ev_payload e) eqn:E; try discriminate Hp;
    (split; [done|]; cbn [fst]; unfold on_view; cbn [ef_view]; rewrite Hview; idle E;
     rewrite queue_idle by (unfold ends_operation; rewrite E; auto);
     unfold with_config, view_of; cbn; by rewrite orb_false_r).
Qed.
Lemma updateOperation_step v status : operation_set e = Some status → is_closed e = false →
  updateOperation (ev_operationId e) status v
  = with_operations (operations_step (pv_operations v, pv_active v) e).1
                    (operations_step (pv_operations v, pv_active v) e).2 v.
Proof.
  intros Ho Hc. unfold updateOperation, operations_step. rewrite Ho, Hc.
  destruct (ev_operationId e) as [op|]; [by destruct status | by destruct v].
Qed.

Lemma shows_message items : ev_payload e = UserMessage items → shown.
Proof.
  intros E. unfold event_effect. rewrite E. split; [done|]. cbn [fst on_view ef_view].
  rewrite Hview, updateOperation_step by (unfold operation_set, is_closed; by rewrite E).
  idle E. rewrite queue_idle by (rewrite ?E; unfold ends_operation; rewrite ?E; auto).
  unfold with_operations, view_of. cbn. by rewrite orb_false_r.
Qed.

Lemma shows_shell command items isError excluded : ev_payload e = UserShell command items isError excluded → shown.
Proof.
  intros E. unfold event_effect. rewrite E. split; [done|]. cbn [fst].
  assert (Hv : ef_view (user_shell e isError s) = updateOperation (ev_operationId e) (if isError then OFailed else OSucceeded) (ef_view s)).
  { unfold user_shell. by destruct (ev_operationId e). }
  rewrite Hv, Hview, updateOperation_step by (unfold operation_set, is_closed; by rewrite E).
  idle E. rewrite queue_idle by (rewrite ?E; unfold ends_operation; rewrite ?E; auto).
  unfold with_operations, view_of. cbn. by rewrite orb_false_r.
Qed.

Lemma shows_enqueued items priority : ev_payload e = QueueEnqueued items priority → ev_id e ∉ opened queue_opens log → shown.
Proof.
  intros E Hk. unfold event_effect. rewrite E. split; [done|]. cbn [fst on_view ef_view]. rewrite Hview. idle E.
  erewrite table_new; [| unfold queue_opens; by rewrite E | |exact Hk].
  - unfold with_queue, view_of, queue_init. rewrite E. cbn. by rewrite orb_false_r.
  - intros k v. unfold queue_advance, ends_operation. by rewrite E.
Qed.

Lemma queue_update_shown id status priority :
  NoDup (opened queue_opens log) → id ∈ opened queue_opens log →
  (∀ k q, queue_advance k e q = if decide (k = id) then queue_item q status priority else q) →
  queue_opens e = None →
  queue_update id status priority s
  = (set_view (with_queue (table queue_opens queue_init queue_advance (log ++ [e])) (view_of log)) s, None).
Proof.
  intros Hnd Hid Ha Ho. unfold queue_update, updateQueueItem. rewrite Hview. cbn [pv_queue view_of].
  destruct (table_get_Some queue_opens queue_init queue_advance log id Hid) as (q & -> & Hq). f_equal.
  rewrite (table_at queue_opens queue_init queue_advance log e id q (λ q, queue_item q status priority)); try done.
  apply map_elem_get; [unfold map_ok; by rewrite items_keys | done].
Qed.

Lemma shows_requeued id priority : ev_payload e = QueueRequeued id priority →
  NoDup (opened queue_opens log) → id ∈ opened queue_opens log → shown.
Proof.
  intros E Hnd Hid. unfold event_effect. rewrite E.
  rewrite (queue_update_shown id QQueued (Some priority) Hnd Hid); try (unfold queue_advance, queue_opens; by rewrite E).
  split; [done|]. cbn [fst set_view on_view ef_view]. idle E. unfold with_queue, view_of. cbn. by rewrite orb_false_r.
Qed.

Lemma shows_paused id : ev_payload e = QueuePaused id →
  NoDup (opened queue_opens log) → id ∈ opened queue_opens log → shown.
Proof.
  intros E Hnd Hid. unfold event_effect. rewrite E.
  rewrite (queue_update_shown id QPaused None Hnd Hid); try (unfold queue_advance, queue_opens; by rewrite E).
  split; [done|]. cbn [fst set_view on_view ef_view]. idle E. unfold with_queue, view_of. cbn. by rewrite orb_false_r.
Qed.

Lemma shows_started id : ev_payload e = QueueStarted id →
  NoDup (opened queue_opens log) → id ∈ opened queue_opens log → shown.
Proof.
  intros E Hnd Hid. unfold event_effect. rewrite E.
  rewrite (queue_update_shown id QRunning None Hnd Hid); try (unfold queue_advance, queue_opens; by rewrite E).
  split; [done|]. cbn [fst set_view on_view ef_view].
  rewrite updateOperation_step by (unfold operation_set, is_closed; by rewrite E). idle E.
  unfold with_queue, with_operations, view_of. cbn. by rewrite orb_false_r.
Qed.

Lemma shows_interrupt items target op : ev_payload e = InterruptRequested items target → ev_operationId e = Some op →
  op ∉ opened interrupt_opens log → shown.
Proof.
  intros E Hop Hk. unfold event_effect. rewrite E. unfold interrupt_requested. rewrite Hop. split; [done|].
  cbn [fst on_view ef_view]. rewrite Hview. idle E. rewrite queue_idle by (rewrite ?E; unfold ends_operation; rewrite ?E; auto).
  erewrite table_new; [| unfold interrupt_opens; by rewrite E | |exact Hk].
  - unfold with_interrupts, view_of, interrupt_init. rewrite E, Hop. cbn. by rewrite orb_false_r.
  - intros k v. unfold interrupt_advance. by rewrite E.
Qed.

Lemma shows_interrupted state target reason op : ev_payload e = InterruptUpdated state target reason →
  ev_operationId e = Some op → NoDup (opened interrupt_opens log) → op ∈ opened interrupt_opens log → shown.
Proof.
  intros E Hop Hnd Hk. unfold event_effect. rewrite E. unfold interrupt_updated. rewrite Hop, Hview. cbn [pv_interrupts view_of].
  destruct (table_get_Some interrupt_opens interrupt_init interrupt_advance log op Hk) as (d & Hd & _). rewrite Hd.
  split; [done|]. cbn [fst on_view ef_view]. rewrite Hview. idle E.
  rewrite queue_idle by (rewrite ?E; unfold ends_operation; rewrite ?E; auto).
  rewrite (table_at interrupt_opens interrupt_init interrupt_advance log e op d (λ d, interrupt_advance op e d)); [|..]; try done.
  - unfold with_interrupts, view_of, interrupt_advance. rewrite E, Hop, decide_True by done. cbn. by rewrite orb_false_r.
  - unfold interrupt_opens. by rewrite E.
  - intros k d'. unfold interrupt_advance. rewrite E, Hop. repeat case_decide; naive_solver.
Qed.

Lemma shows_call c n input : ev_payload e = Types.ToolCall c n input → c ∉ opened tool_opens log → shown.
Proof.
  intros E Hk. unfold event_effect. rewrite E. unfold tool_call, on_view, on_activity. cbn [ef_view ef_uncertain ef_activity].
  rewrite Hview, updateOperation_step by (unfold operation_set, is_closed; by rewrite E).
  cbn [pv_tools view_of with_operations]. unfold map_has. rewrite (proj2 (items_get _ _ _ _ _) Hk). split; [done|]. cbn [fst ef_view].
  idle E. rewrite queue_idle by (rewrite ?E; unfold ends_operation; rewrite ?E; auto).
  erewrite (table_new tool_opens tool_init tool_advance log e c); [| unfold tool_opens; by rewrite E | |exact Hk].
  - unfold with_tools, view_of, tool_init. rewrite E. cbn. by rewrite orb_false_r.
  - intros k v. unfold tool_advance. by rewrite E.
Qed.

Lemma shows_result c n items isError details t : ev_payload e = ToolResult c n items isError details →
  NoDup (opened tool_opens log) → map_get c (table tool_opens tool_init tool_advance log) = Some t →
  pt_name t = n → pt_result t = None → shown.
Proof.
  intros E Hnd Ht Hn Hr. unfold event_effect. rewrite E. unfold tool_result. rewrite Hview. cbn [pv_tools view_of].
  rewrite Ht, bool_decide_true by done. rewrite (bool_decide_false (is_Some _)) by (rewrite Hr; by intros [? ?]).
  split; [done|]. cbn [negb orb fst on_view ef_view]. rewrite Hview. rewrite view_of_snoc.
  rewrite interactions_idle by (by rewrite E). rewrite interrupts_idle by (by rewrite E).
  rewrite queue_idle by (rewrite ?E; unfold ends_operation; rewrite ?E; auto).
  rewrite (table_at tool_opens tool_init tool_advance log e c t (λ t, tool_advance c e t)); [|..]; try done.
  - unfold operations_step, operation_set, is_closed, error_in, compaction_in, replaced_in, tool_advance. rewrite E.
    rewrite decide_True by done. unfold with_tools, view_of. cbn. by rewrite orb_false_r.
  - unfold tool_opens. by rewrite E.
  - intros k t'. unfold tool_advance. rewrite E. repeat case_decide; naive_solver.
Qed.

Lemma shows_interaction id kind source message data : ev_payload e = InteractionRequested id kind source message data →
  id ∉ opened interaction_opens log → shown.
Proof.
  intros E Hk. unfold event_effect. rewrite E. unfold interaction_requested, map_has. rewrite Hview. cbn [pv_interactions view_of].
  rewrite (proj2 (items_get _ _ _ _ _) Hk). split; [done|]. cbn [fst on_view ef_view]. rewrite Hview.
  rewrite updateOperation_step by (unfold operation_set, is_closed; by rewrite E).
  idle E. rewrite queue_idle by (rewrite ?E; unfold ends_operation; rewrite ?E; auto).
  erewrite (table_new interaction_opens interaction_init interaction_advance log e id);
    [| unfold interaction_opens; by rewrite E | |exact Hk].
  - unfold with_interactions, with_operations, view_of, interaction_init, interaction_opens. rewrite E. cbn. by rewrite orb_false_r.
  - intros k v. unfold interaction_advance. by rewrite E.
Qed.

Lemma shows_resolved id action answer i : ev_payload e = InteractionResolved id action answer →
  NoDup (opened interaction_opens log) →
  map_get id (table interaction_opens interaction_init interaction_advance log) = Some i → pi_resolution i = None → shown.
Proof.
  intros E Hnd Hi Hr. unfold event_effect. rewrite E. unfold interaction_resolved. rewrite Hview. cbn [pv_interactions view_of].
  rewrite Hi, bool_decide_false by (rewrite Hr; by intros [? ?]). split; [done|]. cbn [fst on_view ef_view]. rewrite Hview.
  rewrite updateOperation_step by (unfold operation_set, is_closed; by rewrite E).
  idle E. rewrite queue_idle by (rewrite ?E; unfold ends_operation; rewrite ?E; auto).
  rewrite (table_at interaction_opens interaction_init interaction_advance log e id i (λ i, interaction_advance id e i)); [|..]; try done.
  - unfold interaction_advance. rewrite E, decide_True by done. unfold with_interactions, with_operations, view_of. cbn.
    by rewrite orb_false_r.
  - unfold interaction_opens. by rewrite E.
  - intros k i'. unfold interaction_advance. rewrite E. repeat case_decide; naive_solver.
Qed.

Lemma completed_step status v : ends_operation e = Some status → pv_queue v = pv_queue (view_of log) →
  completeQueuedOperation (ev_operationId e) status v
  = with_queue (table queue_opens queue_init queue_advance (log ++ [e])) v.
Proof.
  intros He Hv. unfold completeQueuedOperation. destruct (ev_operationId e) as [op|] eqn:Hop.
  - rewrite Hv. cbn [pv_queue view_of]. by rewrite (queue_ended log e op status He Hop).
  - rewrite queue_idle; [|unfold ends_operation in He; by destruct (ev_payload e)|by right].
    change (table _ _ _ log) with (pv_queue (view_of log)). rewrite <- Hv. by destruct v.
Qed.

Lemma settle_view op st q s' : ef_view (settle_operation op st q s') = completeQueuedOperation op q (updateOperation op st (ef_view s')).
Proof. done. Qed.

Lemma shows_assistant items stopReason usage message : ev_payload e = AssistantMessage items stopReason usage message → shown.
Proof.
  intros E. unfold event_effect. rewrite E. split; [done|]. cbn [fst]. unfold assistant_message.
  destruct stopReason; rewrite ?settle_view; unfold on_view; cbn [ef_view]; rewrite Hview;
    rewrite updateOperation_step by (unfold operation_set, is_closed; by rewrite E);
    rewrite ?completed_step by (unfold ends_operation; by rewrite ?E);
    idle E; rewrite ?queue_idle by (rewrite ?E; unfold ends_operation; rewrite ?E; auto);
    unfold with_usage, with_queue, with_operations, view_of; cbn; by rewrite orb_false_r.
Qed.

Lemma shows_compacted summary ids usage : ev_payload e = ContextCompacted summary ids usage → shown.
Proof.
  intros E. unfold event_effect. rewrite E. split; [done|]. cbn [fst on_view ef_view]. rewrite Hview. idle E.
  rewrite queue_idle by (rewrite ?E; unfold ends_operation; rewrite ?E; auto).
  unfold with_compaction, with_usage, view_of. cbn. by rewrite orb_false_r.
Qed.

Lemma shows_error code message retryable details : ev_payload e = SessionErrorP code message retryable details → shown.
Proof.
  intros E. unfold event_effect. rewrite E. split; [done|]. cbn [fst]. rewrite settle_view. cbn [on_view ef_view]. rewrite Hview.
  rewrite updateOperation_step by (unfold operation_set, is_closed; by rewrite E).
  rewrite completed_step by (unfold ends_operation; by rewrite ?E). idle E.
  unfold with_error, with_queue, with_operations, view_of. cbn. by rewrite orb_false_r.
Qed.

Lemma shows_closed reason : ev_payload e = SessionClosed reason → shown.
Proof.
  intros E. unfold event_effect. rewrite E. split; [done|]. cbn [fst session_closed on_activity on_view ef_view]. rewrite Hview.
  idle E. rewrite queue_idle by (rewrite ?E; unfold ends_operation; rewrite ?E; auto).
  unfold updateOperation, with_closed, with_operations, view_of. rewrite orb_true_r. by destruct (ev_operationId e).
Qed.
End Effects.

(** ** Logs that can be shown are shown *)

Section Displayable.
Implicit Types (log : list event) (e : event).

Lemma fold_keeps {V} (advance : string → event → V → V) (P : V → Prop) k post v :
  P v → (∀ e v, e ∈ post → P v → P (advance k e v)) → P (fold_left (λ v e, advance k e v) post v).
Proof.
  revert v. induction post as [|e post IH]; intros v Hv H; [done|]. simpl. apply IH.
  - apply H; [by left | done].
  - intros e' v' He'. apply H. by right.
Qed.

Lemma tools_opened log : opened tool_opens log = (calls_of log).*1.
Proof.
  unfold opened, calls_of. induction log as [|e log IH]; [done|]. simpl. unfold call_of at 1, tool_opens at 1.
  destruct (ev_payload e); simpl; try done. by f_equal.
Qed.

Lemma displayable_paired log : displayable log → paired log.
Proof. induction 1 as [|log e _ IH [Hm _]]; [apply paired_nil | by apply paired_snoc]. Qed.

Lemma queue_ids_sublist log : opened queue_opens log ⊆ ev_id <$> log.
Proof.
  intros x. unfold opened. rewrite list_elem_of_omap. intros (e & He & Ho). apply list_elem_of_fmap.
  exists e. split; [|done]. unfold queue_opens in Ho. destruct (ev_payload e); congruence.
Qed.

Lemma queue_opened_nodup log : NoDup (ev_id <$> log) → NoDup (opened queue_opens log).
Proof.
  induction log as [|e log IH] using rev_ind; [intros _; apply NoDup_nil_2|].
  rewrite fmap_app, opened_snoc. intros [Hnd Hf]%NoDup_snoc. destruct (queue_opens e) as [k|] eqn:E; simpl.
  - apply NoDup_snoc. split; [auto|]. intros Hk%queue_ids_sublist. apply Hf.
    unfold queue_opens in E. destruct (ev_payload e); congruence.
  - rewrite app_nil_r. auto.
Qed.

(** A kind of item that [shows] opens once. *)
Lemma opened_nodup (opens : event → option string) log :
  (∀ log e k, shows log e → opens e = Some k → k ∉ opened opens log) → displayable log → NoDup (opened opens log).
Proof.
  intros Hs. induction 1 as [|log e _ IH Hsh]; [apply NoDup_nil_2|]. rewrite opened_snoc.
  destruct (opens e) as [k|] eqn:E; simpl; [|by rewrite app_nil_r].
  apply NoDup_snoc. split; [done|]. by eapply Hs.
Qed.

Lemma interrupts_nodup log : displayable log → NoDup (opened interrupt_opens log).
Proof.
  apply opened_nodup. intros l e k [_ Hs] Ho. unfold interrupt_opens in Ho.
  destruct (ev_payload e); try done. destruct Hs as (op & Hop & Hn). congruence.
Qed.

Lemma interactions_nodup log : displayable log → NoDup (opened interaction_opens log).
Proof.
  apply opened_nodup. intros l e k [_ Hs] Ho. unfold interaction_opens in Ho.
  destruct (ev_payload e); try done. congruence.
Qed.

Lemma open_call log i n : displayable log → (i, n) ∈ calls_of log → i ∉ (results_of log).*1 →
  ∃ t, map_get i (table tool_opens tool_init tool_advance log) = Some t ∧ pt_name t = n ∧ pt_result t = None.
Proof.
  intros Hd Hc Hr. assert (Hi : i ∈ opened tool_opens log).
  { rewrite tools_opened. apply list_elem_of_fmap. by exists (i, n). }
  destruct (table_get_Some tool_opens tool_init tool_advance log i Hi) as (t & Hg & Ht). exists t. split; [done|].
  apply table_elem in Ht as (pre & e & post & Hlog & Ho & ->).
  unfold tool_opens in Ho. destruct (ev_payload e) eqn:E; try done. injection Ho as ->.
  assert (name = n) as ->.
  { apply (calls_of_inj log i); [by apply displayable_paired| |done]. rewrite Hlog. unfold calls_of.
    apply list_elem_of_omap. exists e. split; [apply elem_of_app; right; by left|]. unfold call_of. by rewrite E. }
  split.
  - apply (fold_keeps tool_advance (λ t, pt_name t = n)); [unfold tool_init; by rewrite E|].
    intros e' t _ Ht. unfold tool_advance. destruct (ev_payload e'); try done. by case_decide.
  - apply (fold_keeps tool_advance (λ t, pt_result t = None)); [unfold tool_init; by rewrite E|].
    intros e' t He' Ht. unfold tool_advance. destruct (ev_payload e') as [| | | | | | | | | | | | | | |c n' items err det| | | | | | | | | | | | | | | | | | | | | |] eqn:E'; try done. case_decide as Hic; [|done].
    exfalso. apply Hr. apply list_elem_of_fmap. exists (i, n'). split; [done|]. unfold results_of. apply list_elem_of_omap.
    exists e'. split; [rewrite Hlog; apply elem_of_app; right; by right|]. unfold result_of. rewrite E'. by rewrite Hic.
Qed.

Lemma open_interaction log id : id ∈ opened interaction_opens log →
  id ∉ omap (λ e, match ev_payload e with InteractionResolved id _ _ => Some id | _ => None end) log →
  ∃ i, map_get id (table interaction_opens interaction_init interaction_advance log) = Some i ∧ pi_resolution i = None.
Proof.
  intros Hi Hr. destruct (table_get_Some interaction_opens interaction_init interaction_advance log id Hi) as (i & Hg & Ht).
  exists i. split; [done|]. apply table_elem in Ht as (pre & e & post & Hlog & Ho & ->).
  apply (fold_keeps interaction_advance (λ i, pi_resolution i = None)); [done|].
  intros e' t He' Ht. unfold interaction_advance. destruct (ev_payload e') as [| | | | | | | | | | | | | | | | | | | | | | | | | | | | | | | |id' action answer| | | | |] eqn:E'; try done. case_decide as Hic; [|done].
  exfalso. apply Hr. apply list_elem_of_omap. exists e'.
  split; [rewrite Hlog; apply elem_of_app; right; by right|]. by rewrite E', Hic.
Qed.

(** An event that may be shown has its effect, and the view is that of the longer log. *)
Lemma event_shown log e s : displayable log → NoDup (ev_id <$> log ++ [e]) → shows log e → ef_view s = view_of log →
  (event_effect e s).2 = None ∧ ef_view (event_effect e s).1 = view_of (log ++ [e]).
Proof.
  intros Hd Hnd Hs Hv. pose proof Hs as [Hm Hk]. unfold may_follow in Hm.
  rewrite fmap_app in Hnd. apply NoDup_snoc in Hnd as [Hnd Hfresh].
  pose proof (queue_opened_nodup log Hnd) as Hq.
  destruct (ev_payload e) eqn:E; try (by apply shows_plain; [done | by rewrite E]).
  - by eapply shows_closed.
  - by eapply shows_message.
  - eapply shows_enqueued; [done..|]. intros ?%queue_ids_sublist. done.
  - by eapply shows_requeued.
  - by eapply shows_started.
  - by eapply shows_paused.
  - destruct Hk as (op & Hop & Hk). by eapply shows_interrupt.
  - destruct Hk as (op & Hop & Hk). eapply shows_interrupted; try done. by apply interrupts_nodup.
  - by eapply shows_shell.
  - by eapply shows_assistant.
  - eapply shows_call; [done..|]. by rewrite tools_opened.
  - destruct Hm as [Hm Hr]. destruct (open_call log callId name Hd Hm Hr) as (t & Hg & Hn & Ht).
    eapply shows_result; try done. rewrite tools_opened. by destruct (displayable_paired log Hd).
  - by eapply shows_interaction.
  - destruct Hk as [Hk Hr]. destruct (open_interaction log interactionId Hk Hr) as (i & Hg & Hi).
    eapply shows_resolved; try done. by apply interactions_nodup.
  - by eapply shows_compacted.
  - by eapply shows_error.
Qed.
End Displayable.

(** ** Deliveries *)

(** [st] shows [log]. *)
Record showing (sid : string) (log : list event) (st : projector) : Prop := {
  sh_session : pj_sessionId st = Some sid;
  sh_records : pj_records st = KnownEvent <$> log;
  sh_events : pj_events st = (λ e, (ev_id e, encoded_event e)) <$> log;
  sh_view : pj_view st = view_of log
}.

(** Every event has the one before it as its parent: a session without branches. *)
Definition linear (log : list event) : Prop :=
  ∀ i e, log !! i = Some e → ev_parentId e = match i with 0 => None | S j => ev_id <$> log !! j end.

(** Events applied one after the other, whatever they throw. *)
Fixpoint deliver (events : list event) (st : projector) : projector * list (result ProjectionError bool) :=
  match events with
  | [] => (st, [])
  | e :: rest =>
      let (st, r) := applyEvent e st in
      let (st, rs) := deliver rest st in (st, r :: rs)
  end.

(** An event that came too early. *)
Definition too_early (r : result ProjectionError bool) : Prop :=
  match r with Ok _ => True | Err e => pe_code e = "missing_parent" end.

Section Deliveries.
Context (sid : string).
Implicit Types (log : list event) (e : event) (st : projector).

Lemma showing_keys log st : showing sid log st → (pj_events st).*1 = ev_id <$> log.
Proof. intros [_ _ -> _]. by rewrite <- list_fmap_compose. Qed.

Lemma showing_get log st e : showing sid log st → log_ok sid log → e ∈ log →
  map_get (ev_id e) (pj_events st) = Some (encoded_event e).
Proof.
  intros Hs Hlog He. apply map_elem_get.
  - unfold map_ok. rewrite (showing_keys log) by done. by eapply log_ids.
  - rewrite (sh_events _ _ _ Hs). apply list_elem_of_fmap. by exists e.
Qed.

Lemma new_showing sel : showing sid [] (new_projector (Some sid) sel).
Proof. done. Qed.

Lemma reset_showing st sel : showing sid [] (reset (Some sid) sel st).
Proof. done. Qed.

Lemma expect_same x s' st : pj_sessionId st = Some s' → expect_session x st = st.
Proof. unfold expect_session. by intros ->. Qed.

Lemma apply_next log st e : showing sid log st → log_ok sid log → extends_log sid log e → displayable log → shows log e →
  ∃ st', applyEvent e st = (st', Ok true) ∧ showing sid (log ++ [e]) st'.
Proof.
  intros Hs Hlog [Hses Hfresh Hpar] Hd Hsh. unfold applyEvent. rewrite (expect_same _ sid) by apply Hs. rewrite (sh_session _ _ _ Hs).
  rewrite Hses, bool_decide_true by done. cbn [negb]. unfold check_history.
  rewrite (proj2 (map_get_None _ _)) by (by rewrite (showing_keys log)).
  assert (Hp : match ev_parentId e with
               | Some parent => if map_has parent (pj_events st) then None else
                   Some (Err (conflict "missing_parent" ("Event " +:+ ev_id e +:+ " has a missing parent")) : result ProjectionError bool)
               | None => None end = None).
  { destruct (ev_parentId e) as [p|]; [|done]. by rewrite (proj2 (map_has_spec _ _)) by (by rewrite (showing_keys log)). }
  rewrite Hp. set (st1 := record_event _ _ _ st).
  destruct (event_shown log e (effects_of st1)) as [Herr Hview]; [done| |done|by apply (sh_view _ _ _ Hs)|].
  { rewrite fmap_app. apply NoDup_snoc. split; [by eapply log_ids | done]. }
  destruct (event_effect e (effects_of st1)) as [s err]. simpl in Herr, Hview. subst err.
  eexists. split; [done|]. split; cbn.
  - apply (sh_session _ _ _ Hs).
  - by rewrite (sh_records _ _ _ Hs), fmap_app.
  - rewrite map_set_new by (by rewrite (showing_keys log)). by rewrite (sh_events _ _ _ Hs), fmap_app.
  - done.
Qed.

Lemma apply_again log st e : showing sid log st → log_ok sid log → e ∈ log → applyEvent e st = (st, Ok false).
Proof.
  intros Hs Hlog He. unfold applyEvent. rewrite (expect_same _ sid) by apply Hs. rewrite (sh_session _ _ _ Hs).
  pose proof (log_sessions sid log Hlog) as Hall. rewrite Forall_forall in Hall. rewrite (Hall e He), bool_decide_true by done.
  cbn [negb]. unfold check_history. rewrite (showing_get log) by done. by rewrite bool_decide_true.
Qed.

Lemma apply_early log st e p : showing sid log st → ev_sessionId e = sid → ev_id e ∉ ev_id <$> log →
  ev_parentId e = Some p → p ∉ ev_id <$> log →
  ∃ err, applyEvent e st = (st, Err err) ∧ pe_code err = "missing_parent".
Proof.
  intros Hs Hses Hid Hp Hpn. unfold applyEvent. rewrite (expect_same _ sid) by apply Hs. rewrite (sh_session _ _ _ Hs), Hses, bool_decide_true by done.
  cbn [negb]. unfold check_history. rewrite (proj2 (map_get_None _ _)) by (by rewrite (showing_keys log)).
  rewrite Hp, (proj2 (map_has_false _ _)) by (by rewrite (showing_keys log)). by eexists.
Qed.

Lemma displayable_app log1 log2 : displayable (log1 ++ log2) → displayable log1.
Proof.
  induction log2 as [|e log2 IH] using rev_ind; [by rewrite app_nil_r|]. rewrite app_assoc.
  inversion 1 as [|l e' Hl He Heq]; [by destruct (log1 ++ log2)|]. apply app_inj_tail in Heq as [-> ->]. auto.
Qed.

Lemma displayable_at log i e : displayable log → log !! i = Some e → displayable (take i log) ∧ shows (take i log) e.
Proof.
  intros Hd Hi. rewrite <- (take_drop (S i) log), (take_S_r _ _ _ Hi) in Hd. apply displayable_app in Hd.
  inversion Hd as [|l e' Hl He Heq]; [by destruct (take i log)|]. by apply app_inj_tail in Heq as [-> ->].
Qed.

Lemma log_take log n : log_ok sid log → log_ok sid (take n log).
Proof. intros H. rewrite <- (take_drop n log) in H. by apply log_app_inv in H. Qed.

Lemma apply_events_app l1 l2 st : apply_events (l1 ++ l2) st
  = match apply_events l1 st with (st', None) => apply_events l2 st' | r => r end.
Proof. revert st. induction l1 as [|e l1 IH]; intros st; simpl; [done|]. by destruct (applyEvent e st) as [st' []]. Qed.

(** The events after a prefix that is shown. *)
Lemma apply_more log n k st : log_ok sid log → displayable log → showing sid (take n log) st →
  ∃ st', apply_events (take k (drop n log)) st = (st', None) ∧ showing sid (take (n + k) log) st'.
Proof.
  intros Hlog Hd Hs. induction k as [|k (st' & Ha & Hsh)]; [exists st; by rewrite Nat.add_0_r|].
  rewrite Nat.add_succ_r. destruct (log !! (n + k)) as [e|] eqn:En.
  - rewrite (take_S_r (drop n log) k e) by (by rewrite lookup_drop). rewrite apply_events_app, Ha. simpl.
    destruct (displayable_at log (n + k) e Hd En) as [Hdn Hshn].
    destruct (apply_next (take (n + k) log) st' e) as (st2 & -> & Hs2); [done | by apply log_take | by apply log_split | done | done|].
    exists st2. split; [done|]. by rewrite (take_S_r log _ e).
  - apply lookup_ge_None in En. exists st'. rewrite take_ge in Hsh by lia. split; [|by rewrite take_ge by lia].
    rewrite take_ge by (rewrite length_drop; lia). rewrite take_ge in Ha by (rewrite length_drop; lia). done.
Qed.

Lemma apply_log log st : showing sid [] st → log_ok sid log → displayable log →
  ∃ st', apply_events log st = (st', None) ∧ showing sid log st'.
Proof.
  intros Hs Hlog Hd. destruct (apply_more log 0 (length log) st) as (st' & Ha & Hsh); [done..|].
  rewrite drop_0, firstn_all in Ha. rewrite Nat.add_0_l, firstn_all in Hsh. by exists st'.
Qed.
End Deliveries.

#[export] Instance shows_dec log e : Decision (shows log e).
Proof.
  unfold shows, may_follow.
  refine (and_dec _ _); destruct (ev_payload e); try apply _;
    (destruct (ev_operationId e) as [op|]; [|right; by intros (? & ? & ?)]).
  - destruct (decide (op ∉ opened interrupt_opens log)); [left; eauto | right; naive_solver].
  - destruct (decide (op ∈ opened interrupt_opens log)); [left; eauto | right; naive_solver].
Defined.

Lemma displayable_check log : forallb id (imap (λ i e, bool_decide (shows (take i log) e)) log) = true → displayable log.
Proof.
  intros H. assert (Hall : ∀ i e, log !! i = Some e → shows (take i log) e).
  { intros i e Hi. rewrite forallb_forall in H. apply (bool_decide_eq_true_1 (shows (take i log) e)). apply H.
    apply list_elem_of_In, list_elem_of_lookup. exists i. by rewrite list_lookup_imap, Hi. }
  cut (∀ n, displayable (take n log)). { intros Hn. specialize (Hn (length log)). by rewrite firstn_all in Hn. }
  induction n as [|n IH]; [constructor|]. destruct (log !! n) as [e|] eqn:En.
  - rewrite (take_S_r _ _ _ En). constructor; [done | by apply Hall].
  - apply lookup_ge_None in En. rewrite take_ge in IH |- * by lia. done.
Qed.

(** C30: whatever a projector showed before, replacing its history with a log that keeps the
    daemon's contract never throws and shows that log: one record for each event, each tool
    call, interaction, queued prompt and interrupt as its own events leave it, the last
    configuration, the sums of usage, and the replaced events. *)
Theorem projection_of_log sid log sel st :
  log_ok sid log → displayable log →
  ∃ st', replace log (Some sid) sel st = (st', None) ∧ showing sid log st'.
Proof. intros Hlog Hd. by apply apply_log. Qed.

Section Prefixes.
Context (sid : string) (log : list event).
Hypothesis (Hlog : log_ok sid log) (Hlin : linear log) (Hd : displayable log).

(** One delivery: the next event extends the prefix, an earlier one changes nothing, a later
    one is refused. *)
Lemma apply_any n st i e : showing sid (take n log) st → n <= length log → log !! i = Some e →
  ∃ st' r, applyEvent e st = (st', r) ∧ too_early r ∧
    if decide (i = n) then showing sid (take (S n) log) st' else st' = st.
Proof.
  intros Hs Hn Hi. destruct (decide (i = n)) as [->|Hne].
  - destruct (displayable_at log n e Hd Hi). destruct (apply_next sid (take n log) st e) as (st' & Ha & Hs');
      [done | by apply log_take | by apply log_split | done | done|].
    exists st', (Ok true). rewrite (take_S_r _ _ _ Hi). done.
  - destruct (decide (i < n)) as [Hlt|Hge].
    + exists st, (Ok false). split_and!; [|done|done]. apply (apply_again sid (take n log)); [done | by apply log_take|].
      apply list_elem_of_lookup. exists i. by rewrite lookup_take_lt.
    + assert (Hin : ∀ j x, log !! j = Some x → n <= j → ev_id x ∉ ev_id <$> take n log).
      { intros j x Hj Hnj. destruct (log_split sid log j x Hlog Hj) as [_ Hf _]. intros Hx. apply Hf.
        replace (take n log) with (take n (take j log)) in Hx by (rewrite take_take; f_equal; lia).
        apply list_elem_of_fmap in Hx as (y & -> & Hy). apply list_elem_of_fmap. exists y. split; [done|].
        apply elem_of_take in Hy as (k & Hk & _). by eapply list_elem_of_lookup_2. }
      destruct i as [|j]; [lia|]. pose proof (Hlin _ _ Hi) as Hp. simpl in Hp.
      destruct (lookup_lt_is_Some_2 log j) as [x Hx]; [apply lookup_lt_Some in Hi; lia|]. rewrite Hx in Hp.
      destruct (apply_early sid (take n log) st e (ev_id x)) as (err & Ha & Hc); [done| | |done| |].
      * pose proof (log_sessions sid log Hlog) as Hall. rewrite Forall_forall in Hall. apply Hall. by apply list_elem_of_lookup_2 in Hi.
      * by apply (Hin _ _ Hi); lia.
      * apply (Hin _ _ Hx). lia.
      * by exists st, (Err err).
Qed.

Lemma deliver_prefix ds n st : showing sid (take n log) st → n <= length log → Forall (λ e, e ∈ log) ds →
  ∃ n', n' <= length log ∧ n <= n' ∧ showing sid (take n' log) (deliver ds st).1 ∧ Forall too_early (deliver ds st).2 ∧
    (∀ m, m <= n → sublist (drop m log) ds → n' = length log).
Proof.
  revert n st. induction ds as [|e ds IH]; intros n st Hs Hn Hds; cbn [deliver].
  - exists n. split_and!; [done..|constructor|]. intros m Hm Hsub. apply sublist_nil_r in Hsub.
    apply (f_equal length) in Hsub. rewrite length_drop in Hsub. simpl in Hsub. lia.
  - apply Forall_cons in Hds as [[i Hi]%list_elem_of_lookup Hds].
    destruct (apply_any n st i e Hs Hn Hi) as (st' & r & -> & Hr & Hcase).
    pose proof (lookup_lt_Some _ _ _ Hi) as Hlt.
    set (n1 := if decide (i = n) then S n else n).
    assert (Hs1 : showing sid (take n1 log) st') by (subst n1; case_decide; by subst).
    assert (Hn1 : n1 <= length log) by (subst n1; case_decide; lia).
    destruct (IH n1 st' Hs1 Hn1 Hds) as (n' & Hn' & Hle & Hs' & Hrs & Hall).
    destruct (deliver ds st') as [st2 rs]. exists n'. cbn [fst snd] in *.
    assert (n <= n1) by (subst n1; case_decide; lia).
    split_and!; [done|lia|done|by constructor|]. intros m Hm Hsub.
    apply sublist_cons_r in Hsub as [Hsub | (l' & Hl' & Hsub)]; [apply (Hall m); [lia|done]|].
    assert (Hmi : m = i).
    { apply (NoDup_lookup (ev_id <$> log) _ _ (ev_id e)); [by eapply log_ids| |by rewrite list_lookup_fmap, Hi].
      rewrite list_lookup_fmap. pose proof (f_equal (.!! 0) Hl') as H0. rewrite lookup_drop, Nat.add_0_r in H0. by rewrite H0. }
    subst m. apply (Hall (S i)); [subst n1; case_decide; lia|].
    replace (drop (S i) log) with l'; [done|]. by rewrite <- Nat.add_1_r, <- drop_drop, Hl'.
Qed.
End Prefixes.

(** in a session without branches, however its events are delivered - repeated, out of
    order, with gaps - a client shows a prefix of the log and nothing else: a delivery
    extends the prefix, changes nothing, or is refused for its missing parent; and once the
    events have come in order, whatever came in between, the client shows the whole log. *)
Theorem deliveries_show_a_prefix sid log sel ds :
  log_ok sid log → linear log → displayable log → Forall (λ e, e ∈ log) ds →
  ∃ n, n <= length log ∧ showing sid (take n log) (deliver ds (new_projector (Some sid) sel)).1 ∧
    Forall too_early (deliver ds (new_projector (Some sid) sel)).2 ∧
    (sublist log ds → n = length log).
Proof.
  intros Hlog Hlin Hd Hds.
  destruct (deliver_prefix sid log Hlog Hlin Hd ds 0 (new_projector (Some sid) sel)) as (n & Hn & _ & Hs & Hrs & Hall);
    [done | lia | done|].
  exists n. split_and!; [done..|]. by apply (Hall 0).
Qed.

(** An event is recorded before its effect is worked out: when the effect throws, the same
    event sent again is taken for a repetition, and its effect is never had. *)
Theorem thrown_event_not_retried e st st' err :
  applyEvent e st = (st', Err err) →
  pe_code err ∉ ["session_mismatch"; "altered_duplicate"; "missing_parent"] →
  applyEvent e st' = (st', Ok false).
Proof.
  unfold applyEvent. set (st1 := expect_session (Some (ev_sessionId e)) st).
  destruct (bool_decide (pj_sessionId st1 = Some (ev_sessionId e))) eqn:Hs; cbn [negb].
  - destruct (check_history _ _ _ _ st1) as [r|] eqn:Hc.
    + unfold check_history in Hc. destruct (map_get (ev_id e) (pj_events st1)); [case_match; simplify_eq; intros [= <- <-] Hn; exfalso; apply Hn; simpl; set_solver|].
      destruct (ev_parentId e); [case_match|]; simplify_eq. intros [= <- <-] Hn. exfalso. apply Hn. simpl. set_solver.
    + destruct (event_effect e _) as [s [x|]]; intros [= <- <-] _.
      rewrite (expect_same _ (ev_sessionId e)) by (by apply bool_decide_eq_true in Hs).
      cbn [pj_sessionId with_effects record_event]. rewrite Hs. cbn [negb]. unfold check_history.
      cbn [pj_events with_effects record_event]. rewrite map_get_set, bool_decide_true by done. by rewrite bool_decide_true.
  - intros [= <- <-] H. exfalso. apply H. simpl. set_solver.
Qed.

(** ** A sample session *)

Lemma log_ok_check sid log : is_ok (add_events sid 0 (empty_tree sid) log) = true → log_ok sid log.
Proof.
  intros H. pose proof (add_events_spec sid [] log 0 (log_nil sid)) as Hs. change (tree_of sid []) with (empty_tree sid) in Hs.
  destruct (add_events sid 0 (empty_tree sid) log); [by destruct Hs | done].
Qed.

Definition shown_event (id : string) (parent : option string) (op : option string) (p : payload) : event :=
  {| ev_id := id; ev_sessionId := "s"; ev_operationId := op; ev_parentId := parent; ev_timestamp := 0; ev_payload := p |}.

Definition shown_log : list event :=
  [shown_event "a" None None (SessionCreated "/work" None None None);
   shown_event "b" (Some "a") None (ConfigModel "m");
   shown_event "c" (Some "b") (Some "op") (QueueEnqueued [CText "hi"] Back);
   shown_event "d" (Some "c") (Some "op") (QueueStarted "c");
   shown_event "e" (Some "d") (Some "op") (UserMessage [CText "hi"]);
   shown_event "f" (Some "e") (Some "op") (Types.ToolCall "1" "Read_File" []);
   shown_event "g" (Some "f") (Some "op") (ToolResult "1" "Read_File" [CText "x"] false None);
   shown_event "h" (Some "g") (Some "op") (AssistantMessage [CText "done"] SStop None None)].

Lemma shown_log_ok : log_ok "s" shown_log ∧ linear shown_log ∧ displayable shown_log.
Proof.
  split_and!.
  - apply log_ok_check. vm_compute. reflexivity.
  - intros i e Hi. do 8 (destruct i as [|i]; [by injection Hi as <-|]). done.
  - apply displayable_check. vm_compute. reflexivity.
Qed.

Lemma projection_of_log_witness :
  ∃ st', replace shown_log (Some "s") None (new_projector None None) = (st', None) ∧ showing "s" shown_log st'.
Proof. apply (projection_of_log "s" shown_log); apply shown_log_ok. Defined.

(** The whole log arrives twice, the second time backwards between its own events. *)
Lemma deliveries_show_a_prefix_witness :
  ∃ n, n <= length shown_log ∧
    showing "s" (take n shown_log) (deliver (rev shown_log ++ shown_log) (new_projector (Some "s") None)).1 ∧
    Forall too_early (deliver (rev shown_log ++ shown_log) (new_projector (Some "s") None)).2 ∧
    (sublist shown_log (rev shown_log ++ shown_log) → n = length shown_log).
Proof.
  apply (deliveries_show_a_prefix "s" shown_log); [apply shown_log_ok.. |].
  apply Forall_app. split; [|by apply Forall_forall].
  apply Forall_forall. intros e. by rewrite elem_of_rev.
Defined.

(** A tool result whose call is not there. *)
Lemma thrown_event_not_retried_witness :
  let e := shown_event "g" None None (ToolResult "1" "Read_File" [] false None) in
  let st := new_projector (Some "s") None in
  (applyEvent e st).2 = Err (conflict "tool_identity_conflict" "Tool result 1 has no matching call") ∧
  applyEvent e (applyEvent e st).1 = ((applyEvent e st).1, Ok false).
Proof.
  cbn zeta. split; [vm_compute; reflexivity|].
  apply (thrown_event_not_retried _ (new_projector (Some "s") None) _
           (conflict "tool_identity_conflict" "Tool result 1 has no matching call")).
  - vm_compute. reflexivity.
  - apply (bool_decide_eq_true_1 _). vm_compute. reflexivity.
Defined.
