(* ===== verification/Subscriptions.v ===== *)
(** daemon/src/daemon.ts and daemon/src/session-manager.ts: subscriptions to a session. A
    subscriber pages through a frozen snapshot, or resumes from a cursor it acknowledged;
    what happens meanwhile is buffered, and pushed once the subscription is active. *)
From stdpp Require Import base list sets strings pretty.
From Stdlib Require Import ZArith Lia Ascii.
From S2P Require Import Prelude Text JsValue Json Utf8 Envelope Types Events JsMap SessionTree WireMessages Connection EventLog Projector.

(** ** The activity of a session ([applyActivity] of the session manager) *)

Record activity_state := {
  as_current : option SessionActivityFrame;
  as_text : string;
  as_thinking : string;
  as_tools : list TransientToolCall
}.

Definition quiet : activity_state := {| as_current := None; as_text := ""; as_thinking := ""; as_tools := [] |}.

(** [array.push(x); if (array.length > 64) array.shift();] *)
Definition push_recent (c : TransientToolCall) (tools : list TransientToolCall) : list TransientToolCall :=
  let tools := tools ++ [c] in if 64 <? length tools then tail tools else tools.

Definition apply_frame (frame : SessionActivityFrame) (st : activity_state) : activity_state * bool :=
  let same := match as_current st with Some c => bool_decide (af_operationId c = af_operationId frame) | None => false end in
  let late := match as_current st with Some c => (int_of (af_sequence frame) <=? int_of (af_sequence c))%Z | None => false end in
  if same && late then (st, false)
  else
    let text := if same then as_text st else "" in
    let thinking := if same then as_thinking st else "" in
    let tools := if same then as_tools st else [] in
    let next text thinking tools :=
      ({| as_current := Some frame; as_text := text; as_thinking := thinking; as_tools := tools |}, true) in
    match af_body frame with
    | ActivityClear => next "" "" []
    | ActivitySnapshot t th calls => next t th calls
    | TextDelta false t => next (js_slice_end 65536 (text +:+ t)) thinking tools
    | TextDelta true t => next text (js_slice_end 65536 (thinking +:+ t)) tools
    | WireMessages.ToolCall c => next text thinking (push_recent c tools)
    end.

(** What a session shows its subscribers; the events of one that is not open are its log. *)
Record session_view := {
  sv_events : list event;
  sv_activity : activity_state;
  sv_turn : bool;
  sv_open : bool
}.

Definition with_events (events : list event) (v : session_view) : session_view :=
  {| sv_events := events; sv_activity := sv_activity v; sv_turn := sv_turn v; sv_open := sv_open v |}.
Definition with_frames (a : activity_state) (v : session_view) : session_view :=
  {| sv_events := sv_events v; sv_activity := a; sv_turn := sv_turn v; sv_open := sv_open v |}.
Definition in_turn (turn : bool) (v : session_view) : session_view :=
  {| sv_events := sv_events v; sv_activity := sv_activity v; sv_turn := turn; sv_open := sv_open v |}.

(** The activity a new subscriber is given ([subscribe] of the session manager). *)
Definition current_activity (v : session_view) (fromNodeId : option string) : option SessionActivityFrame :=
  match fromNodeId, as_current (sv_activity v) with
  | None, Some current =>
      if match af_body current with ActivityClear => true | _ => false end && negb (sv_turn v) then None
      else Some {| af_operationId := af_operationId current; af_sequence := af_sequence current;
                   af_body := ActivitySnapshot (as_text (sv_activity v)) (as_thinking (sv_activity v)) (as_tools (sv_activity v)) |}
  | _, _ => None
  end.

(** ** The state of the daemon *)

Record CursorRecord := {
  cr_subscriptionId : string;
  cr_sessionId : string;
  cr_fromNodeId : option string;
  cr_position : Z;
  cr_expiresAt : Z;
  cr_acknowledged : bool
}.

Record SnapshotPage := {
  sp_events : list event;
  sp_nextPageCursor : option string;
  sp_complete : bool
}.

(** The [readonly] fields of a [ConnectionSubscription], and its connection. *)
Record subscription_base := {
  sb_id : string;
  sb_connection : nat;
  sb_sessionId : string;
  sb_fromNodeId : option string;
  sb_boundaryCursor : option string;
  sb_snapshotId : option string;
  sb_snapshotEvents : list event;
  sb_createdAt : Z
}.

(** The other fields; [sm_listening]: its listener is among those of the open session. *)
Record ConnectionSubscription := {
  sm_base : subscription_base;
  sm_pageCursors : list (string * nat);
  sm_pageResults : list (string * SnapshotPage);
  sm_bufferedEvents : list (event * Z);
  sm_bufferedActivity : list SessionActivityFrame;
  sm_bufferedEventBytes : Z;
  sm_nextPosition : Z;
  sm_sequence : Z;
  sm_acknowledgedPosition : Z;
  sm_acknowledgedCursor : option string;
  sm_active : bool;
  sm_finalPageServed : bool;
  sm_activateAfterResponse : bool;
  sm_invalidated : bool;
  sm_listening : bool;
  sm_lastAccessAt : Z
}.

Abbreviation subs := (list (string * ConnectionSubscription)).

(** [hb_next]: how many identifiers [randomUUID] has given out. *)
Record hub := {
  hb_sessions : list (string * session_view);
  hb_cursors : list (string * CursorRecord);
  hb_subscriptions : subs;
  hb_next : nat
}.

(** A message to a subscriber. *)
Inductive push :=
| PushEvent (subscriptionId sessionId : string) (sequence : Z) (cursor : string) (event : event)
| PushActivity (subscriptionId sessionId : string) (frame : SessionActivityFrame).

Record lifetimes := {
  snapshotIdleLifetimeMs : Z;
  snapshotAbsoluteLifetimeMs : Z;
  cursorLifetimeMs : Z
}.

Definition MAX_SNAPSHOT_PAGE_BYTES : Z := MAX_CANONICAL_EVENT_BYTES.
Definition MAX_SNAPSHOT_PAGE_EVENTS : Z := 5000.
Definition MAX_SNAPSHOT_TAIL_BYTES : Z := 4 * 1024 * 1024.
Definition MAX_SNAPSHOT_TAIL_EVENTS : Z := 1024.
Definition MAX_EVENT_CURSORS : Z := 16384.

Definition event_bytes (e : event) : Z := utf8_length (encoded_event e).
Definition frame_bytes (f : SessionActivityFrame) : Z := utf8_length (json_text (frame_value f)).

(** *** Assignments *)

Definition with_cursors (cursors : list (string * CursorRecord)) (h : hub) : hub :=
  {| hb_sessions := hb_sessions h; hb_cursors := cursors; hb_subscriptions := hb_subscriptions h; hb_next := hb_next h |}.
Definition with_subscriptions (s : subs) (h : hub) : hub :=
  {| hb_sessions := hb_sessions h; hb_cursors := hb_cursors h; hb_subscriptions := s; hb_next := hb_next h |}.
Definition with_sessions (s : list (string * session_view)) (h : hub) : hub :=
  {| hb_sessions := s; hb_cursors := hb_cursors h; hb_subscriptions := hb_subscriptions h; hb_next := hb_next h |}.

Definition put_subscription (s : ConnectionSubscription) (h : hub) : hub :=
  with_subscriptions (map_set (sb_id (sm_base s)) s (hb_subscriptions h)) h.

Definition delivered (sequence : Z) (s : ConnectionSubscription) : ConnectionSubscription :=
  {| sm_base := sm_base s; sm_pageCursors := sm_pageCursors s; sm_pageResults := sm_pageResults s;
     sm_bufferedEvents := sm_bufferedEvents s; sm_bufferedActivity := sm_bufferedActivity s;
     sm_bufferedEventBytes := sm_bufferedEventBytes s; sm_nextPosition := sm_nextPosition s; sm_sequence := sequence;
     sm_acknowledgedPosition := sm_acknowledgedPosition s; sm_acknowledgedCursor := sm_acknowledgedCursor s;
     sm_active := sm_active s; sm_finalPageServed := sm_finalPageServed s;
     sm_activateAfterResponse := sm_activateAfterResponse s; sm_invalidated := sm_invalidated s;
     sm_listening := sm_listening s; sm_lastAccessAt := sm_lastAccessAt s |}.
Definition positioned (position : Z) (s : ConnectionSubscription) : ConnectionSubscription :=
  {| sm_base := sm_base s; sm_pageCursors := sm_pageCursors s; sm_pageResults := sm_pageResults s;
     sm_bufferedEvents := sm_bufferedEvents s; sm_bufferedActivity := sm_bufferedActivity s;
     sm_bufferedEventBytes := sm_bufferedEventBytes s; sm_nextPosition := position; sm_sequence := sm_sequence s;
     sm_acknowledgedPosition := sm_acknowledgedPosition s; sm_acknowledgedCursor := sm_acknowledgedCursor s;
     sm_active := sm_active s; sm_finalPageServed := sm_finalPageServed s;
     sm_activateAfterResponse := sm_activateAfterResponse s; sm_invalidated := sm_invalidated s;
     sm_listening := sm_listening s; sm_lastAccessAt := sm_lastAccessAt s |}.
Definition with_buffers (events : list (event * Z)) (activity : list SessionActivityFrame) (bytes : Z)
    (s : ConnectionSubscription) : ConnectionSubscription :=
  {| sm_base := sm_base s; sm_pageCursors := sm_pageCursors s; sm_pageResults := sm_pageResults s;
     sm_bufferedEvents := events; sm_bufferedActivity := activity; sm_bufferedEventBytes := bytes;
     sm_nextPosition := sm_nextPosition s; sm_sequence := sm_sequence s;
     sm_acknowledgedPosition := sm_acknowledgedPosition s; sm_acknowledgedCursor := sm_acknowledgedCursor s;
     sm_active := sm_active s; sm_finalPageServed := sm_finalPageServed s;
     sm_activateAfterResponse := sm_activateAfterResponse s; sm_invalidated := sm_invalidated s;
     sm_listening := sm_listening s; sm_lastAccessAt := sm_lastAccessAt s |}.
Definition with_pages (cursors : list (string * nat)) (results : list (string * SnapshotPage)) (final : bool)
    (s : ConnectionSubscription) : ConnectionSubscription :=
  {| sm_base := sm_base s; sm_pageCursors := cursors; sm_pageResults := results;
     sm_bufferedEvents := sm_bufferedEvents s; sm_bufferedActivity := sm_bufferedActivity s;
     sm_bufferedEventBytes := sm_bufferedEventBytes s; sm_nextPosition := sm_nextPosition s; sm_sequence := sm_sequence s;
     sm_acknowledgedPosition := sm_acknowledgedPosition s; sm_acknowledgedCursor := sm_acknowledgedCursor s;
     sm_active := sm_active s; sm_finalPageServed := final;
     sm_activateAfterResponse := sm_activateAfterResponse s; sm_invalidated := sm_invalidated s;
     sm_listening := sm_listening s; sm_lastAccessAt := sm_lastAccessAt s |}.
Definition accessed (now : Z) (s : ConnectionSubscription) : ConnectionSubscription :=
  {| sm_base := sm_base s; sm_pageCursors := sm_pageCursors s; sm_pageResults := sm_pageResults s;
     sm_bufferedEvents := sm_bufferedEvents s; sm_bufferedActivity := sm_bufferedActivity s;
     sm_bufferedEventBytes := sm_bufferedEventBytes s; sm_nextPosition := sm_nextPosition s; sm_sequence := sm_sequence s;
     sm_acknowledgedPosition := sm_acknowledgedPosition s; sm_acknowledgedCursor := sm_acknowledgedCursor s;
     sm_active := sm_active s; sm_finalPageServed := sm_finalPageServed s;
     sm_activateAfterResponse := sm_activateAfterResponse s; sm_invalidated := sm_invalidated s;
     sm_listening := sm_listening s; sm_lastAccessAt := now |}.
Definition acknowledged (position : Z) (cursor : option string) (s : ConnectionSubscription) : ConnectionSubscription :=
  {| sm_base := sm_base s; sm_pageCursors := sm_pageCursors s; sm_pageResults := sm_pageResults s;
     sm_bufferedEvents := sm_bufferedEvents s; sm_bufferedActivity := sm_bufferedActivity s;
     sm_bufferedEventBytes := sm_bufferedEventBytes s; sm_nextPosition := sm_nextPosition s; sm_sequence := sm_sequence s;
     sm_acknowledgedPosition := position; sm_acknowledgedCursor := cursor;
     sm_active := sm_active s; sm_finalPageServed := sm_finalPageServed s;
     sm_activateAfterResponse := sm_activateAfterResponse s; sm_invalidated := sm_invalidated s;
     sm_listening := sm_listening s; sm_lastAccessAt := sm_lastAccessAt s |}.
Definition with_activation (active after : bool) (s : ConnectionSubscription) : ConnectionSubscription :=
  {| sm_base := sm_base s; sm_pageCursors := sm_pageCursors s; sm_pageResults := sm_pageResults s;
     sm_bufferedEvents := sm_bufferedEvents s; sm_bufferedActivity := sm_bufferedActivity s;
     sm_bufferedEventBytes := sm_bufferedEventBytes s; sm_nextPosition := sm_nextPosition s; sm_sequence := sm_sequence s;
     sm_acknowledgedPosition := sm_acknowledgedPosition s; sm_acknowledgedCursor := sm_acknowledgedCursor s;
     sm_active := active; sm_finalPageServed := sm_finalPageServed s;
     sm_activateAfterResponse := after; sm_invalidated := sm_invalidated s;
     sm_listening := sm_listening s; sm_lastAccessAt := sm_lastAccessAt s |}.
Definition silenced (invalidated : bool) (s : ConnectionSubscription) : ConnectionSubscription :=
  {| sm_base := sm_base s; sm_pageCursors := sm_pageCursors s; sm_pageResults := sm_pageResults s;
     sm_bufferedEvents := sm_bufferedEvents s; sm_bufferedActivity := sm_bufferedActivity s;
     sm_bufferedEventBytes := sm_bufferedEventBytes s; sm_nextPosition := sm_nextPosition s; sm_sequence := sm_sequence s;
     sm_acknowledgedPosition := sm_acknowledgedPosition s; sm_acknowledgedCursor := sm_acknowledgedCursor s;
     sm_active := sm_active s; sm_finalPageServed := sm_finalPageServed s;
     sm_activateAfterResponse := sm_activateAfterResponse s; sm_invalidated := invalidated;
     sm_listening := false; sm_lastAccessAt := sm_lastAccessAt s |}.

(** ** Cursors *)

Section Daemon.
Context (uuid : nat → string) (limits : lifetimes).

Definition fresh (h : hub) : string * hub :=
  (uuid (hb_next h), {| hb_sessions := hb_sessions h; hb_cursors := hb_cursors h;
                        hb_subscriptions := hb_subscriptions h; hb_next := S (hb_next h) |}).

Definition pruned (now : Z) (cursors : list (string * CursorRecord)) : list (string * CursorRecord) :=
  filter (λ kv, (now < cr_expiresAt kv.2)%Z) cursors.

Definition pruneCursors (now : Z) (h : hub) : hub := with_cursors (pruned now (hb_cursors h)) h.

(** [while (this.cursors.size >= MAX_EVENT_CURSORS)]: the oldest go first. *)
Fixpoint make_room (cursors : list (string * CursorRecord)) : list (string * CursorRecord) :=
  match cursors with
  | [] => []
  | _ :: rest => if (MAX_EVENT_CURSORS <=? Z.of_nat (length cursors))%Z then make_room rest else cursors
  end.

Definition createCursor (now : Z) (subscriptionId sessionId : string) (fromNodeId : option string) (position : Z)
    (h : hub) : string * hub :=
  let h := pruneCursors now h in
  let h := with_cursors (make_room (hb_cursors h)) h in
  let (cursor, h) := fresh h in
  (cursor, with_cursors (map_set cursor
     {| cr_subscriptionId := subscriptionId; cr_sessionId := sessionId; cr_fromNodeId := fromNodeId;
        cr_position := position; cr_expiresAt := (now + cursorLifetimeMs limits)%Z; cr_acknowledged := false |}
     (hb_cursors h)) h).

Definition releaseSubscriptionCursors (now : Z) (s : ConnectionSubscription) (preserveAcknowledged : bool) (h : hub) : hub :=
  let h := pruneCursors now h in
  with_cursors (filter (λ kv, ¬ (cr_subscriptionId kv.2 = sb_id (sm_base s) ∧
      (preserveAcknowledged = false ∨ Some kv.1 ≠ sm_acknowledgedCursor s))) (hb_cursors h)) h.

(** ** Delivery *)

Definition invalidateSnapshot (now : Z) (s : ConnectionSubscription) (h : hub) : hub :=
  let h := releaseSubscriptionCursors now s false h in
  put_subscription (silenced true (with_buffers [] [] 0 s)) h.

Definition over_limits {A} (buffered : list A) (bytes : Z) (s : ConnectionSubscription) : bool :=
  (MAX_SNAPSHOT_TAIL_EVENTS <=? Z.of_nat (length buffered))%Z
  || (MAX_SNAPSHOT_TAIL_BYTES <? sm_bufferedEventBytes s + bytes)%Z.

Definition bufferSnapshotEvent (now : Z) (s : ConnectionSubscription) (e : event) (position : Z) (h : hub) : hub :=
  if sm_invalidated s then put_subscription s h
  else if over_limits (sm_bufferedEvents s) (event_bytes e) s then invalidateSnapshot now s h
  else put_subscription (with_buffers (sm_bufferedEvents s ++ [(e, position)]) (sm_bufferedActivity s)
                           (sm_bufferedEventBytes s + event_bytes e) s) h.

Definition bufferSnapshotActivity (now : Z) (s : ConnectionSubscription) (f : SessionActivityFrame) (h : hub) : hub :=
  if sm_invalidated s then put_subscription s h
  else if over_limits (sm_bufferedActivity s) (frame_bytes f) s then invalidateSnapshot now s h
  else put_subscription (with_buffers (sm_bufferedEvents s) (sm_bufferedActivity s ++ [f])
                           (sm_bufferedEventBytes s + frame_bytes f) s) h.

Definition deliverEvent (now : Z) (s : ConnectionSubscription) (e : event) (position : Z) (h : hub) :
    ConnectionSubscription * hub * push :=
  let s := delivered (sm_sequence s + 1)%Z s in
  let b := sm_base s in
  let (cursor, h) := createCursor now (sb_id b) (sb_sessionId b) (sb_fromNodeId b) position h in
  (s, put_subscription s h, PushEvent (sb_id b) (sb_sessionId b) (sm_sequence s) cursor e).

(** The listener of a subscription for an event. *)
Definition hear_event (now : Z) (e : event) (id : string) (h : hub) : hub * list push :=
  match map_get id (hb_subscriptions h) with
  | Some s =>
      if sm_listening s && bool_decide (sb_sessionId (sm_base s) = ev_sessionId e) then
        let position := sm_nextPosition s in
        let s := positioned (position + 1)%Z s in
        if sm_active s then let '(_, h, p) := deliverEvent now s e position h in (h, [p])
        else (bufferSnapshotEvent now s e position h, [])
      else (h, [])
  | None => (h, [])
  end.

Definition hear_frame (now : Z) (sessionId : string) (f : SessionActivityFrame) (id : string) (h : hub) : hub * list push :=
  match map_get id (hb_subscriptions h) with
  | Some s =>
      if sm_listening s && bool_decide (sb_sessionId (sm_base s) = sessionId) then
        if sm_active s then (h, [PushActivity id sessionId f]) else (bufferSnapshotActivity now s f h, [])
      else (h, [])
  | None => (h, [])
  end.

(** [for (const listener of listeners)] *)
Fixpoint each_listener (f : string → hub → hub * list push) (ids : list string) (h : hub) : hub * list push :=
  match ids with
  | [] => (h, [])
  | id :: rest => let (h, p) := f id h in let (h, ps) := each_listener f rest h in (h, p ++ ps)
  end.

(** [onEvent] of a managed session. *)
Definition publish (now : Z) (e : event) (h : hub) : hub * list push :=
  match map_get (ev_sessionId e) (hb_sessions h) with
  | Some v =>
      if sv_open v then
        each_listener (hear_event now e) (hb_subscriptions h).*1
          (with_sessions (map_set (ev_sessionId e) (with_events (sv_events v ++ [e]) v) (hb_sessions h)) h)
      else (h, [])
  | None => (h, [])
  end.

(** [onActivity] of a managed session. *)
Definition publish_frame (now : Z) (sessionId : string) (f : SessionActivityFrame) (h : hub) : hub * list push :=
  match map_get sessionId (hb_sessions h) with
  | Some v =>
      if sv_open v then
        let (a, changed) := apply_frame f (sv_activity v) in
        let h := with_sessions (map_set sessionId (with_frames a v) (hb_sessions h)) h in
        if changed then each_listener (hear_frame now sessionId f) (hb_subscriptions h).*1 h else (h, [])
      else (h, [])
  | None => (h, [])
  end.

(** A turn begins or ends. *)
Definition set_turn (sessionId : string) (turn : bool) (h : hub) : hub :=
  match map_get sessionId (hb_sessions h) with
  | Some v => with_sessions (map_set sessionId (in_turn turn v) (hb_sessions h)) h
  | None => h
  end.

(** The listener of a subscription goes with the managed session it was added to. *)
Definition orphan (sessionId : string) (s : ConnectionSubscription) : ConnectionSubscription :=
  if bool_decide (sb_sessionId (sm_base s) = sessionId) then silenced (sm_invalidated s) s else s.

(** The end of [dispose]: the managed session goes, with its listeners. *)
Definition dispose_session (sessionId : string) (h : hub) : hub :=
  match map_get sessionId (hb_sessions h) with
  | Some v =>
      with_subscriptions
        ((λ kv, (kv.1, orphan sessionId kv.2)) <$> hb_subscriptions h)
        (with_sessions (map_set sessionId
           {| sv_events := sv_events v; sv_activity := quiet; sv_turn := false; sv_open := false |} (hb_sessions h)) h)
  | None => h
  end.

(** [open] of the session manager: the session is created, or resumed from its log, in a
    new managed session without listeners. *)
Definition open_session (sessionId : string) (h : hub) : hub :=
  match map_get sessionId (hb_sessions h) with
  | Some v =>
      if sv_open v then h
      else with_sessions (map_set sessionId
             {| sv_events := sv_events v; sv_activity := quiet; sv_turn := false; sv_open := true |} (hb_sessions h)) h
  | None =>
      with_sessions (map_set sessionId
        {| sv_events := []; sv_activity := quiet; sv_turn := false; sv_open := true |} (hb_sessions h)) h
  end.

(** ** Snapshots *)

Definition too_large (e : event) : request_failure :=
  CodedError "event_migration_required" ("Event " +:+ ev_id e +:+ " exceeds the canonical event limit") None.

(** The loop of [buildSnapshotPage] over the events from its offset. *)
Fixpoint take_page (events : list event) (count bytes : Z) : result request_failure (list event) :=
  match events with
  | [] => Ok []
  | e :: rest =>
      if (MAX_SNAPSHOT_PAGE_EVENTS <=? count)%Z then Ok []
      else if (MAX_SNAPSHOT_PAGE_BYTES <? event_bytes e)%Z then Err (too_large e)
      else if (0 <? count)%Z && (MAX_SNAPSHOT_PAGE_BYTES <? bytes + event_bytes e)%Z then Ok []
      else page ← take_page rest (count + 1) (bytes + event_bytes e); Ok (e :: page)
  end.

Definition buildSnapshotPage (s : ConnectionSubscription) (start : nat) (h : hub) :
    result request_failure (SnapshotPage * ConnectionSubscription * hub) :=
  let all := sb_snapshotEvents (sm_base s) in
  events ← take_page (drop start all) 0 0;
  let offset := start + length events in
  if length all <=? offset then Ok ({| sp_events := events; sp_nextPageCursor := None; sp_complete := true |}, s, h)
  else
    let (next, h) := fresh h in
    Ok ({| sp_events := events; sp_nextPageCursor := Some next; sp_complete := false |},
        with_pages (map_set next offset (sm_pageCursors s)) (sm_pageResults s) (sm_finalPageServed s) s, h).

Record SnapshotDescriptor := {
  sd_snapshotId : string;
  sd_boundaryCursor : string;
  sd_eventCount : nat;
  sd_page : SnapshotPage
}.

Record SubscribeResult := {
  sr_subscriptionId : string;
  sr_sessionId : string;
  sr_fromNodeId : option string;
  sr_resumedFrom : option string;
  sr_snapshot : option SnapshotDescriptor
}.

Definition snapshot_required (message : string) : request_failure := CodedError "snapshot_required" message None.

(** The events of the view: all of them, or the lineage of the selected node. *)
Definition selected_events (sessionId : string) (v : session_view) (fromNodeId : option string) :
    result request_failure (list event) :=
  match fromNodeId with
  | None => Ok (sv_events v)
  | Some id =>
      match t ← fromEvents (JStr sessionId) (sv_events v); lineage t id with
      | Ok l => Ok l
      | Err _ => Err (OtherError "SessionTreeIntegrityError")
      end
  end.

(** [slice.entries()], buffered with their positions. *)
Fixpoint buffer_tail (now : Z) (id : string) (events : list event) (position : Z) (h : hub) : hub :=
  match events with
  | [] => h
  | e :: rest =>
      match map_get id (hb_subscriptions h) with
      | Some s => buffer_tail now id rest (position + 1)%Z (bufferSnapshotEvent now s e position h)
      | None => h
      end
  end.

Definition new_subscription (base : subscription_base) (activity : option SessionActivityFrame) (nextPosition : Z)
    (resumed : option (string * Z)) (now : Z) : ConnectionSubscription :=
  {| sm_base := base; sm_pageCursors := []; sm_pageResults := []; sm_bufferedEvents := [];
     sm_bufferedActivity := option_list activity; sm_bufferedEventBytes := 0; sm_nextPosition := nextPosition;
     sm_sequence := 0; sm_acknowledgedPosition := match resumed with Some (_, p) => p | None => (-2)%Z end;
     sm_acknowledgedCursor := fst <$> resumed; sm_active := false; sm_finalPageServed := false;
     sm_activateAfterResponse := bool_decide (is_Some resumed); sm_invalidated := false;
     sm_listening := bool_decide (sb_fromNodeId base = None); sm_lastAccessAt := now |}.

(** The position a cursor resumes the view from. *)
Definition resume_position (now : Z) (sessionId : string) (fromNodeId : option string) (after : string) (h : hub) :
    result request_failure (CursorRecord) :=
  match map_get after (pruned now (hb_cursors h)) with
  | Some c =>
      if cr_acknowledged c && bool_decide (cr_sessionId c = sessionId) && bool_decide (cr_fromNodeId c = fromNodeId)
      then Ok c else Err (snapshot_required "The event cursor cannot resume this view")
  | None => Err (snapshot_required "The event cursor cannot resume this view")
  end.

Definition rebind (subscriptionId : string) (c : CursorRecord) : CursorRecord :=
  {| cr_subscriptionId := subscriptionId; cr_sessionId := cr_sessionId c; cr_fromNodeId := cr_fromNodeId c;
     cr_position := cr_position c; cr_expiresAt := cr_expiresAt c; cr_acknowledged := cr_acknowledged c |}.

Definition delete_subscription (id : string) (h : hub) : hub :=
  with_subscriptions (map_delete id (hb_subscriptions h)) h.

(** [subscribe], with a cursor. *)
Definition subscribe_after (now : Z) (connection : nat) (subscriptionId sessionId : string) (fromNodeId : option string)
    (v : session_view) (selected : list event) (after : string) (h : hub) : hub * result request_failure SubscribeResult :=
  let h := pruneCursors now h in
  match resume_position now sessionId fromNodeId after h with
  | Err e => (h, Err e)
  | Ok c =>
      let h := with_cursors (map_set after (rebind subscriptionId c) (hb_cursors h)) h in
      let base := {| sb_id := subscriptionId; sb_connection := connection; sb_sessionId := sessionId; sb_fromNodeId := fromNodeId;
                     sb_boundaryCursor := None; sb_snapshotId := None; sb_snapshotEvents := selected; sb_createdAt := now |} in
      let s := new_subscription base (current_activity v fromNodeId) (Z.of_nat (length selected)) (Some (after, cr_position c)) now in
      let start := (cr_position c + 1)%Z in
      let h := buffer_tail now subscriptionId (drop (Z.to_nat start) selected) start (put_subscription s h) in
      if match map_get subscriptionId (hb_subscriptions h) with Some s => sm_invalidated s | None => false end then
        (delete_subscription subscriptionId h, Err (snapshot_required "The resumable tail exceeded its delivery limit"))
      else
        (h, Ok {| sr_subscriptionId := subscriptionId; sr_sessionId := sessionId; sr_fromNodeId := fromNodeId;
                  sr_resumedFrom := Some after; sr_snapshot := None |})
  end.

(** [subscribe], with a snapshot. *)
Definition subscribe_snapshot (now : Z) (connection : nat) (subscriptionId sessionId : string) (fromNodeId : option string)
    (v : session_view) (selected : list event) (h : hub) : hub * result request_failure SubscribeResult :=
  let (snapshotId, h) := fresh h in
  let (boundaryCursor, h) := createCursor now subscriptionId sessionId fromNodeId (Z.of_nat (length selected) - 1) h in
  let base := {| sb_id := subscriptionId; sb_connection := connection; sb_sessionId := sessionId; sb_fromNodeId := fromNodeId;
                 sb_boundaryCursor := Some boundaryCursor; sb_snapshotId := Some snapshotId; sb_snapshotEvents := selected;
                 sb_createdAt := now |} in
  let s := new_subscription base (current_activity v fromNodeId) (Z.of_nat (length selected)) None now in
  let h := put_subscription s h in
  match buildSnapshotPage s 0 h with
  | Err e => (h, Err e)
  | Ok (page, s, h) =>
      (put_subscription (with_pages (sm_pageCursors s) (sm_pageResults s) (sp_complete page) s) h,
       Ok {| sr_subscriptionId := subscriptionId; sr_sessionId := sessionId; sr_fromNodeId := fromNodeId; sr_resumedFrom := None;
             sr_snapshot := Some {| sd_snapshotId := snapshotId; sd_boundaryCursor := boundaryCursor;
                                    sd_eventCount := length selected; sd_page := page |} |})
  end.

Definition subscribe (now : Z) (connection : nat) (sessionId : string) (fromNodeId after : option string) (h : hub) :
    hub * result request_failure SubscribeResult :=
  let (subscriptionId, h) := fresh h in
  match match map_get sessionId (hb_sessions h) with Some v => if sv_open v then Some v else None | None => None end with
  | None => (h, Err (CodedError "unknown_session" ("Session " +:+ sessionId +:+ " is not open; resume it first") None))
  | Some v =>
      match selected_events sessionId v fromNodeId with
      | Err e => (h, Err e)
      | Ok selected =>
          match after with
          | Some cursor => subscribe_after now connection subscriptionId sessionId fromNodeId v selected cursor h
          | None => subscribe_snapshot now connection subscriptionId sessionId fromNodeId v selected h
          end
      end
  end.

(** ** Requests about a subscription *)

Definition expired (now : Z) (s : ConnectionSubscription) : bool :=
  negb (sm_active s) && ((snapshotIdleLifetimeMs limits <? now - sm_lastAccessAt s)%Z
                         || (snapshotAbsoluteLifetimeMs limits <? now - sb_createdAt (sm_base s))%Z).

(** [assertSnapshotAvailable] *)
Definition assertSnapshotAvailable (now : Z) (s : ConnectionSubscription) (h : hub) : hub * result request_failure unit :=
  if sm_invalidated s || expired now s then
    (invalidateSnapshot now s h, Err (snapshot_required "The snapshot is no longer available"))
  else (h, Ok tt).

Definition of_connection (connection : nat) (h : hub) : list ConnectionSubscription :=
  filter (λ s, sb_connection (sm_base s) = connection) (map_values (hb_subscriptions h)).

Definition snapshotPage (now : Z) (connection : nat) (snapshotId pageCursor : string) (h : hub) :
    hub * result request_failure SnapshotPage :=
  match List.find (λ s, bool_decide (sb_snapshotId (sm_base s) = Some snapshotId)) (of_connection connection h) with
  | None => (h, Err (snapshot_required "The snapshot is unknown or no longer available"))
  | Some s =>
      match map_get pageCursor (sm_pageResults s) with
      | Some cached => (h, Ok cached)
      | None =>
          match assertSnapshotAvailable now s h with
          | (h, Err e) => (h, Err e)
          | (h, Ok _) =>
              let s := accessed now s in
              let h := put_subscription s h in
              match map_get pageCursor (sm_pageCursors s) with
              | None => (h, Err (CodedError "unknown_cursor" "The page cursor does not belong to this snapshot" None))
              | Some offset =>
                  match buildSnapshotPage s offset h with
                  | Err e => (h, Err e)
                  | Ok (page, s, h) =>
                      (put_subscription (with_pages (sm_pageCursors s) (map_set pageCursor page (sm_pageResults s))
                                           (sm_finalPageServed s || sp_complete page) s) h, Ok page)
                  end
              end
          end
      end
  end.

Definition own_subscription (connection : nat) (subscriptionId : string) (h : hub) : option ConnectionSubscription :=
  match map_get subscriptionId (hb_subscriptions h) with
  | Some s => if bool_decide (sb_connection (sm_base s) = connection) then Some s else None
  | None => None
  end.

Definition unknown_subscription : request_failure :=
  CodedError "unknown_subscription" "The subscription is not attached here" None.

Definition confirm (c : CursorRecord) : CursorRecord :=
  {| cr_subscriptionId := cr_subscriptionId c; cr_sessionId := cr_sessionId c; cr_fromNodeId := cr_fromNodeId c;
     cr_position := cr_position c; cr_expiresAt := cr_expiresAt c; cr_acknowledged := true |}.

(** The cursors an acknowledged one makes useless. *)
Definition drop_covered (cursor subscriptionId : string) (position : Z) (cursors : list (string * CursorRecord)) :
    list (string * CursorRecord) :=
  filter (λ kv, ¬ (kv.1 ≠ cursor ∧ cr_subscriptionId kv.2 = subscriptionId ∧ (cr_position kv.2 <= position)%Z)) cursors.

Definition acknowledge (now : Z) (connection : nat) (subscriptionId cursor : string) (h : hub) :
    hub * result request_failure string :=
  match own_subscription connection subscriptionId h with
  | None => (h, Err unknown_subscription)
  | Some s =>
      match assertSnapshotAvailable now s h with
      | (h, Err e) => (h, Err e)
      | (h, Ok _) =>
          let s := accessed now s in
          let h := pruneCursors now (put_subscription s h) in
          match map_get cursor (hb_cursors h) with
          | Some record =>
              if negb (bool_decide (cr_subscriptionId record = subscriptionId)) then
                (h, Err (CodedError "unknown_cursor" "The cursor does not belong to this subscription" None))
              else
                let boundary := bool_decide (Some cursor = sb_boundaryCursor (sm_base s)) in
                if boundary && negb (sm_finalPageServed s) then
                  (h, Err (snapshot_required "Finish the frozen snapshot before acknowledging it"))
                else
                  let s := if boundary then with_activation (sm_active s) true s else s in
                  let h := put_subscription s (with_cursors (map_set cursor (confirm record) (hb_cursors h)) h) in
                  if (cr_position record <? sm_acknowledgedPosition s)%Z then
                    (h, Ok (default cursor (sm_acknowledgedCursor s)))
                  else
                    let h := put_subscription (acknowledged (cr_position record) (Some cursor) s) h in
                    (with_cursors (drop_covered cursor subscriptionId (cr_position record) (hb_cursors h)) h, Ok cursor)
          | None => (h, Err (CodedError "unknown_cursor" "The cursor does not belong to this subscription" None))
          end
      end
  end.

Definition unsubscribe (now : Z) (connection : nat) (subscriptionId : string) (h : hub) : hub * result request_failure bool :=
  match own_subscription connection subscriptionId h with
  | None => (h, Err unknown_subscription)
  | Some s => (delete_subscription subscriptionId (releaseSubscriptionCursors now s false h), Ok true)
  end.

(** ** Activation, the timer and the end of a connection *)

Fixpoint deliver_buffered (now : Z) (buffered : list (event * Z)) (s : ConnectionSubscription) (h : hub) :
    ConnectionSubscription * hub * list push :=
  match buffered with
  | [] => (s, h, [])
  | (e, position) :: rest =>
      let '(s, h, p) := deliverEvent now s e position h in
      let '(s, h, ps) := deliver_buffered now rest s h in (s, h, p :: ps)
  end.

Definition activate (now : Z) (id : string) (h : hub) : hub * list push :=
  match map_get id (hb_subscriptions h) with
  | Some s =>
      if negb (sm_activateAfterResponse s) || sm_active s || sm_invalidated s then (h, [])
      else
        let s := with_activation true false s in
        let '(s, h, ps) := deliver_buffered now (sm_bufferedEvents s) s (put_subscription s h) in
        (put_subscription (with_buffers [] [] 0 s) h,
         ps ++ (PushActivity id (sb_sessionId (sm_base s)) <$> sm_bufferedActivity s))
  | None => (h, [])
  end.

(** [activateReadySubscriptions]: after every successful answer of the connection. *)
Definition activateReadySubscriptions (now : Z) (connection : nat) (h : hub) : hub * list push :=
  each_listener (activate now) ((λ s, sb_id (sm_base s)) <$> of_connection connection h) h.

(** The timer of a connection. *)
Definition sweep (now : Z) (connection : nat) (h : hub) : hub :=
  fold_left (λ h s, if negb (sm_active s) && negb (sm_invalidated s) && expired now s then invalidateSnapshot now s h else h)
    (of_connection connection h) (pruneCursors now h).

(** [cleanup], when the socket has closed. *)
Definition disconnect (now : Z) (connection : nat) (h : hub) : hub :=
  fold_left (λ h s, delete_subscription (sb_id (sm_base s)) (releaseSubscriptionCursors now s true h))
    (of_connection connection h) h.
End Daemon.
