(* ===== verification/SubscriptionFacts.v ===== *)
(** What subscribers receive: the events of the session from where they began, each once and
    in order, and the whole of it once they are active. *)
From stdpp Require Import base list sets strings pretty.
From Stdlib Require Import ZArith Lia Ascii.
From S2P Require Import Prelude Text JsValue Json Utf8 Envelope Types Events JsMap SessionTree WireMessages Connection EventLog Projector ProjectorFacts Subscriptions.

(** ** What happens to the daemon *)

Inductive action :=
| APublish (now : Z) (e : event)
| AFrame (now : Z) (sessionId : string) (f : SessionActivityFrame)
| ATurn (sessionId : string) (turn : bool)
| ADispose (sessionId : string)
| AOpen (sessionId : string)
| ASubscribe (now : Z) (connection : nat) (sessionId : string) (fromNodeId after : option string)
| APage (now : Z) (connection : nat) (snapshotId pageCursor : string)
| AAcknowledge (now : Z) (connection : nat) (subscriptionId cursor : string)
| AUnsubscribe (now : Z) (connection : nat) (subscriptionId : string)
| AActivate (now : Z) (connection : nat)
| ASweep (now : Z) (connection : nat)
| ADisconnect (now : Z) (connection : nat).

Section Facts.
Context (uuid : nat → string) (limits : lifetimes).
Context (uuid_inj : ∀ m n, uuid m = uuid n → m = n).

Definition step (a : action) (h : hub) : hub * list push :=
  match a with
  | APublish now e => publish uuid limits now e h
  | AFrame now sid f => publish_frame now sid f h
  | ATurn sid turn => (set_turn sid turn h, [])
  | ADispose sid => (dispose_session sid h, [])
  | AOpen sid => (open_session sid h, [])
  | ASubscribe now c sid from after => ((subscribe uuid limits now c sid from after h).1, [])
  | APage now c snapshot cursor => ((snapshotPage uuid limits now c snapshot cursor h).1, [])
  | AAcknowledge now c id cursor => ((acknowledge limits now c id cursor h).1, [])
  | AUnsubscribe now c id => ((unsubscribe now c id h).1, [])
  | AActivate now c => activateReadySubscriptions uuid limits now c h
  | ASweep now c => (sweep limits now c h, [])
  | ADisconnect now c => (disconnect now c h, [])
  end.

Fixpoint run (actions : list action) (h : hub) : hub * list push :=
  match actions with
  | [] => (h, [])
  | a :: rest => let (h, p) := step a h in let (h, ps) := run rest h in (h, p ++ ps)
  end.

(** The events of a session. *)
Definition events_of (sid : string) (h : hub) : list event :=
  match map_get sid (hb_sessions h) with Some v => sv_events v | None => [] end.

(** The events pushed to a subscription, with their sequence numbers and cursors. *)
Definition pushes_of (id : string) (ps : list push) : list (Z * string * event) :=
  omap (λ p, match p with
             | PushEvent i _ n c e => if bool_decide (i = id) then Some (n, c, e) else None
             | PushActivity _ _ _ => None
             end) ps.

Definition pushed (id : string) (ps : list push) : list (Z * event) := (λ x, (x.1.1, x.2)) <$> pushes_of id ps.

(** Events numbered from the one after [k]. *)
Definition numbered (k : nat) (l : list event) : list (Z * event) := imap (λ i e, (Z.of_nat (k + i + 1), e)) l.

(** The buffer of a subscription: events and their positions. *)
Definition with_positions (from : nat) (l : list event) : list (event * Z) := imap (λ i e, (e, Z.of_nat (from + i))) l.

(** The events a subscription is about: those of its session, or a lineage of it. *)
Definition viewed (b : subscription_base) (h : hub) : list event :=
  match sb_fromNodeId b with None => events_of (sb_sessionId b) h | Some _ => sb_snapshotEvents b end.

(** The subscription [s], which began at position [start] of [evs] and was pushed [k] events:
    it has seen the first events up to [seen], and holds back what it was not pushed. *)
Record tracks (start k : nat) (evs : list event) (s : ConnectionSubscription) (seen : nat) : Prop := {
  tk_bounds : start + k <= seen <= length evs;
  tk_listening : sm_listening s = true → seen = length evs;
  tk_next : sm_nextPosition s = Z.of_nat seen;
  tk_sequence : sm_sequence s = Z.of_nat k;
  tk_buffered : sm_bufferedEvents s = with_positions (start + k) (drop (start + k) (take seen evs));
  tk_active : sm_active s = true → start + k = seen
}.

Definition tracked (start k : nat) (evs : list event) (s : ConnectionSubscription) : Prop :=
  if sm_invalidated s then sm_listening s = false ∧ sm_active s = false else ∃ seen, tracks start k evs s seen.

(** The subscription [id] with base [b], while it is there. *)
Definition follows (id : string) (b : subscription_base) (start k : nat) (h : hub) : Prop :=
  start + k <= length (viewed b h) ∧
  ∀ s, map_get id (hb_subscriptions h) = Some s → sm_base s = b ∧ tracked start k (viewed b h) s.

(** Identifiers given out so far. *)
Definition used (h : hub) (x : string) : Prop := ∃ n, n < hb_next h ∧ x = uuid n.

Lemma not_used h : ¬ used h (uuid (hb_next h)).
Proof using uuid_inj. intros (n & Hn & Hu). apply uuid_inj in Hu. lia. Qed.

(** A cursor keeps its place for as long as it lives. *)
Definition same_place (r r' : CursorRecord) : Prop :=
  cr_position r' = cr_position r ∧ cr_sessionId r' = cr_sessionId r ∧ cr_fromNodeId r' = cr_fromNodeId r.

Record kept (h h' : hub) : Prop := {
  kp_next : hb_next h <= hb_next h';
  kp_cursors : map_ok (hb_cursors h) → map_ok (hb_cursors h') ∧
    ∀ c r', used h c → map_get c (hb_cursors h') = Some r' → ∃ r, map_get c (hb_cursors h) = Some r ∧ same_place r r'
}.

Lemma kept_same h h' : hb_next h <= hb_next h' → hb_cursors h' = hb_cursors h → kept h h'.
Proof. intros Hn Hc. split; [done|]. rewrite Hc. intros Hok. split; [done|]. intros c r _ Hr. by exists r. Qed.

Lemma kept_refl h : kept h h.
Proof. by apply kept_same. Qed.

#[local] Hint Extern 0 (kept _ _) => (simple apply kept_same; [reflexivity || (simpl; lia) | reflexivity]) : core.

Lemma used_mono h h' x : hb_next h <= hb_next h' → used h x → used h' x.
Proof. intros Hn (n & Hlt & ->). exists n. split; [lia | done]. Qed.

Lemma kept_used h h' x : kept h h' → used h x → used h' x.
Proof. intros [Hn _]. by apply used_mono. Qed.

Lemma kept_trans h1 h2 h3 : kept h1 h2 → kept h2 h3 → kept h1 h3.
Proof.
  intros H1 H2. pose proof (kp_next _ _ H1). pose proof (kp_next _ _ H2). split; [lia|]. intros Hok.
  destruct (kp_cursors _ _ H1 Hok) as [Hok2 Hc1]. destruct (kp_cursors _ _ H2 Hok2) as [Hok3 Hc2]. split; [done|].
  intros c r3 Hu H3. destruct (Hc2 c r3) as (r2 & Hr2 & Hp2 & Hs2 & Hf2); [by eapply kept_used | done|].
  destruct (Hc1 c r2 Hu Hr2) as (r1 & Hr1 & Hp1 & Hs1 & Hf1). exists r1. split; [done|]. split_and!; congruence.
Qed.

(** The cursor [c] marks the position [p] of the view of [b], if it still lives. *)
Definition pointed (b : subscription_base) (c : string) (p : Z) (h : hub) : Prop :=
  used h c ∧ ∀ r, map_get c (hb_cursors h) = Some r →
    cr_position r = p ∧ cr_sessionId r = sb_sessionId b ∧ cr_fromNodeId r = sb_fromNodeId b.

Lemma pointed_kept b c p h h' : map_ok (hb_cursors h) → kept h h' → pointed b c p h → pointed b c p h'.
Proof.
  intros Hok Hk [Hu Hp]. split; [by eapply kept_used|]. intros r' Hr'. destruct (kp_cursors _ _ Hk Hok) as [_ Hc].
  destruct (Hc c r' Hu Hr') as (r & Hr & H1 & H2 & H3). rewrite H1, H2, H3. by apply Hp.
Qed.

Record hub_ok (h : hub) : Prop := {
  ho_keys : map_ok (hb_subscriptions h);
  ho_ids : ∀ id s, map_get id (hb_subscriptions h) = Some s → sb_id (sm_base s) = id;
  ho_used : ∀ id, id ∈ (hb_subscriptions h).*1 → used h id;
  ho_cursors : ∀ c, c ∈ (hb_cursors h).*1 → used h c;
  ho_cursor_keys : map_ok (hb_cursors h);
  ho_invalid : ∀ id s, map_get id (hb_subscriptions h) = Some s → sm_invalidated s = true →
    sm_listening s = false ∧ sm_active s = false;
  ho_listening : ∀ id s, map_get id (hb_subscriptions h) = Some s → sm_listening s = true → sb_fromNodeId (sm_base s) = None;
  ho_snapshots : ∀ id s x, map_get id (hb_subscriptions h) = Some s → sb_snapshotId (sm_base s) = Some x → used h x
}.

(** ** Steps that keep every subscription on its log *)

(** What a subscription that was pushed [k] events gets: the next [j], each with a cursor
    that marks it. *)
Definition sent (id : string) (b : subscription_base) (start k j : nat) (ps : list push) (evs : list event) (h : hub) : Prop :=
  pushed id ps = numbered k (take j (drop (start + k) evs)) ∧
  ∀ n c e, (n, c, e) ∈ pushes_of id ps → pointed b c (Z.of_nat start + n - 1) h.

Lemma sent_nothing id b start k ps evs h : pushes_of id ps = [] → sent id b start k 0 ps evs h.
Proof. intros Hp. unfold sent, pushed. rewrite Hp. split; [done|]. by intros n c e ?%elem_of_nil. Qed.

Definition advances (id : string) (b : subscription_base) (start : nat) (h : hub) (ps : list push) (h' : hub) : Prop :=
  viewed b h `prefix_of` viewed b h' ∧
  ∀ k, follows id b start k h → ∃ j, follows id b start (k + j) h' ∧ sent id b start k j ps (viewed b h') h'.

Definition safe (h : hub) (ps : list push) (h' : hub) : Prop :=
  hub_ok h → hub_ok h' ∧ kept h h' ∧ ∀ id b start, used h id → advances id b start h ps h'.

Lemma pushes_app id p q : pushes_of id (p ++ q) = pushes_of id p ++ pushes_of id q.
Proof. apply omap_app. Qed.

Lemma imap_shift {A B} (f : nat → A → B) l1 l2 :
  imap f (l1 ++ l2) = imap f l1 ++ imap (λ i, f (length l1 + i)) l2.
Proof. by rewrite imap_app. Qed.

Lemma numbered_app k l1 l2 : numbered k (l1 ++ l2) = numbered k l1 ++ numbered (k + length l1) l2.
Proof.
  unfold numbered. rewrite imap_app. f_equal. apply imap_ext. intros i x _. simpl. f_equal. lia.
Qed.

Lemma take_drop_app {A} (l : list A) n j1 j2 : n + j1 <= length l →
  take (j1 + j2) (drop n l) = take j1 (drop n l) ++ take j2 (drop (n + j1) l).
Proof.
  intros H. rewrite <- drop_drop. rewrite <- (take_drop j1 (drop n l)) at 1.
  rewrite take_app_ge by (rewrite length_take, length_drop; lia). f_equal. f_equal. rewrite length_take, length_drop. lia.
Qed.

Lemma take_drop_prefix {A} (l l' : list A) n j : l `prefix_of` l' → n + j <= length l → take j (drop n l') = take j (drop n l).
Proof.
  intros [r ->] H. rewrite drop_app_le by lia. rewrite take_app_le by (rewrite length_drop; lia). done.
Qed.

(** Nothing was pushed. *)
Lemma advances_still id b start h ps h' : viewed b h `prefix_of` viewed b h' → pushes_of id ps = [] →
  (∀ k, follows id b start k h → follows id b start k h') → advances id b start h ps h'.
Proof. intros Hv Hp Hf. split; [done|]. intros k Hk. exists 0. rewrite Nat.add_0_r. split; [auto | by apply sent_nothing]. Qed.

Lemma advances_refl id b start h : advances id b start h [] h.
Proof. by apply advances_still. Qed.

Lemma advances_trans id b start h1 p1 h2 p2 h3 : map_ok (hb_cursors h2) → kept h2 h3 →
  advances id b start h1 p1 h2 → advances id b start h2 p2 h3 → advances id b start h1 (p1 ++ p2) h3.
Proof.
  intros Hok Hkept [Hp1 H1] [Hp2 H2]. split; [by etrans|]. intros k Hk. destruct (H1 k Hk) as (j1 & Hf1 & Hs1 & Hm1).
  destruct (H2 _ Hf1) as (j2 & Hf2 & Hs2 & Hm2). exists (j1 + j2). rewrite Nat.add_assoc. split; [done|].
  destruct Hf1 as [Hb1 _]. pose proof (prefix_length _ _ Hp2). unfold sent, pushed in *. rewrite pushes_app, fmap_app, Hs1, Hs2. split.
  - rewrite take_drop_app by lia. rewrite numbered_app. f_equal.
    + by rewrite (take_drop_prefix _ _ _ _ Hp2) by lia.
    + rewrite length_take, length_drop. replace (k + (j1 `min` _)) with (k + j1) by lia. by rewrite Nat.add_assoc.
  - intros n c e [Hin|Hin]%elem_of_app; [|by eapply Hm2]. eapply pointed_kept; [done..|]. by eapply Hm1.
Qed.

Lemma safe_refl h : safe h [] h.
Proof. intros Hok. split_and!; [done|apply kept_refl|]. intros. apply advances_refl. Qed.

Lemma safe_trans h1 p1 h2 p2 h3 : safe h1 p1 h2 → safe h2 p2 h3 → safe h1 (p1 ++ p2) h3.
Proof.
  intros H1 H2 Hok1. destruct (H1 Hok1) as (Hok2 & Hn1 & Ha1). destruct (H2 Hok2) as (Hok3 & Hn2 & Ha2).
  split_and!; [done|by eapply kept_trans|]. intros id b start Hid. eapply advances_trans; [apply Hok2|done|by apply Ha1|]. apply Ha2. by eapply kept_used.
Qed.

Lemma safe_trans_nil h1 h2 ps h3 : safe h1 [] h2 → safe h2 ps h3 → safe h1 ps h3.
Proof. apply (safe_trans h1 [] h2 ps h3). Qed.

Lemma safe_each (f : string → hub → hub * list push) ids h :
  (∀ id h, safe h (f id h).2 (f id h).1) → safe h (each_listener f ids h).2 (each_listener f ids h).1.
Proof.
  intros Hf. revert h. induction ids as [|id ids IH]; intros h; cbn [each_listener]; [apply safe_refl|].
  specialize (Hf id h). destruct (f id h) as [h1 p1]. specialize (IH h1).
  destruct (each_listener f ids h1) as [h2 p2]. by eapply safe_trans.
Qed.

Lemma safe_fold {A} (f : hub → A → hub) l h : (∀ h x, safe h [] (f h x)) → safe h [] (fold_left f l h).
Proof.
  intros Hf. revert h. induction l as [|x l IH]; intros h; simpl; [apply safe_refl|]. eapply safe_trans_nil; [apply Hf | apply IH].
Qed.

(** *** Cursors *)

(** A step that only changes the cursors. *)
Record cursor_step (h h' : hub) : Prop := {
  cs_sessions : hb_sessions h' = hb_sessions h;
  cs_subscriptions : hb_subscriptions h' = hb_subscriptions h;
  cs_kept : kept h h';
  cs_cursors : ∀ c, c ∈ (hb_cursors h').*1 → c ∈ (hb_cursors h).*1 ∨ used h' c
}.

Lemma cursor_step_refl h : cursor_step h h.
Proof. split; auto using kept_refl. Qed.

Lemma cursor_step_trans h1 h2 h3 : cursor_step h1 h2 → cursor_step h2 h3 → cursor_step h1 h3.
Proof.
  intros [Hs1 Hb1 Hn1 Hc1] [Hs2 Hb2 Hn2 Hc2]. split; [congruence|congruence|by eapply kept_trans|].
  intros c [Hc|Hc]%Hc2; [|by right]. destruct (Hc1 c Hc) as [|Hu]; [by left | right; by eapply kept_used].
Qed.

(** A part of a map. *)
Definition part_of {V} (l m : list (string * V)) : Prop :=
  (∀ c, c ∈ l.*1 → c ∈ m.*1) ∧ (map_ok m → map_ok l ∧ ∀ c r, map_get c l = Some r → map_get c m = Some r).

Lemma filter_part {V} (P : string * V → Prop) `{∀ x, Decision (P x)} (l : list (string * V)) : part_of (filter P l) l.
Proof.
  assert (Hsub : ∀ kv, kv ∈ filter P l → kv ∈ l) by (intros kv [_ Hin]%list_elem_of_filter; done). split.
  - intros c ([k v] & -> & Hin)%list_elem_of_fmap. apply list_elem_of_fmap. exists (k, v). auto.
  - intros Hok. split; [|intros c r Hc%map_get_Some_elem; apply map_elem_get; auto].
    eapply sublist_NoDup; [exact Hok|]. apply fmap_sublist, sublist_filter.
Qed.

Lemma make_room_part l : part_of (make_room l) l.
Proof.
  induction l as [|[k r] l IH]; [done|]. cbn [make_room]. case_match; [|done]. destruct IH as [IH1 IH2].
  split; [intros c Hc%IH1; by right|]. intros [Hk Hok]%NoDup_cons. destruct (IH2 Hok) as [Hok' Hg]. split; [done|].
  intros c r' Hc%Hg. simpl. rewrite bool_decide_false; [done|]. intros <-. apply Hk. apply map_get_Some_elem in Hc.
  by apply (list_elem_of_fmap_2 fst) in Hc.
Qed.

Lemma part_trans {V} (l m n : list (string * V)) : part_of l m → part_of m n → part_of l n.
Proof. intros [H1 H2] [H3 H4]. split; [auto|]. intros Hok%H4. destruct Hok as [Hok Hg]. apply H2 in Hok as [Hok' Hg']. auto. Qed.

Lemma part_step h l : part_of l (hb_cursors h) → cursor_step h (with_cursors l h).
Proof.
  intros [Hk Hg]. split; simpl; [done..| |auto]. split; [done|]. intros Hok. destruct (Hg Hok) as [Hok' Hg']. split; [done|].
  intros c r _ Hc. exists r. split; [by apply Hg'|done].
Qed.

Lemma prune_step now h : cursor_step h (pruneCursors now h).
Proof. apply part_step, filter_part. Qed.

(** A cursor, put in its place. *)
Lemma set_step h c r' : used h c → (∀ r, map_get c (hb_cursors h) = Some r → same_place r r') → is_Some (map_get c (hb_cursors h)) →
  cursor_step h (with_cursors (map_set c r' (hb_cursors h)) h).
Proof.
  intros Hu Hr [r Hc]. split; simpl; [done..| |].
  - split; [done|]. intros Hok. split; [by apply map_set_ok|]. intros c' x _. simpl. rewrite map_get_set.
    case_bool_decide as He; [subst; intros [= <-]; exists r; auto | intros Hx; by exists x].
  - intros x. rewrite map_set_keys; [auto|]. apply map_get_Some_elem in Hc. by apply (list_elem_of_fmap_2 fst) in Hc.
Qed.

Lemma create_step now i sid from position h cursor h' :
  createCursor uuid limits now i sid from position h = (cursor, h') →
  cursor_step h h' ∧ used h' cursor ∧ cursor = uuid (hb_next h) ∧ hb_next h' = S (hb_next h) ∧
  ∃ r, map_get cursor (hb_cursors h') = Some r ∧ cr_position r = position ∧ cr_sessionId r = sid ∧ cr_fromNodeId r = from.
Proof using uuid_inj.
  unfold createCursor, fresh. cbn. intros [= <- <-].
  assert (Hpart : part_of (make_room (pruned now (hb_cursors h))) (hb_cursors h)).
  { eapply part_trans; [apply make_room_part | apply filter_part]. }
  set (l := make_room _) in *. set (r := {| cr_subscriptionId := _ |}).
  assert (Hu : ∀ h', hb_next h' = S (hb_next h) → used h' (uuid (hb_next h))) by (intros h' Hn; exists (hb_next h); split; [lia|done]).
  split_and!; [|by apply Hu|done|done|exists r; cbn; by rewrite map_get_set, bool_decide_true]. split; cbn; [done..| |].
  - split; [simpl; lia|]. intros Hok. destruct (proj2 Hpart Hok) as [Hok' Hg]. split; [by apply map_set_ok|].
    intros c r' Hc. cbn. rewrite map_get_set, bool_decide_false; [intros Hr; exists r'; split; [by apply Hg|done]|].
    intros <-. by apply not_used in Hc.
  - intros c Hc. destruct (decide (c = uuid (hb_next h))) as [->|Hne]; [right; by apply Hu|]. left. apply Hpart.
    apply map_has_spec in Hc. unfold map_has in Hc. rewrite map_get_set, bool_decide_false in Hc by done. by apply map_has_spec.
Qed.

Lemma release_step now s preserve h : cursor_step h (releaseSubscriptionCursors now s preserve h).
Proof. eapply cursor_step_trans; [apply (prune_step now)|]. apply part_step, filter_part. Qed.

Lemma safe_cursor h h' : cursor_step h h' → safe h [] h'.
Proof.
  intros [Hs Hb Hn Hc] [H1 H2 H3 H4 H4' H5 H6 H7]. split_and!; [|done|].
  - split; rewrite ?Hb; try done.
    + intros id Hid. eapply kept_used; [done|auto].
    + intros c [Hi|Hi]%Hc; [eapply kept_used; [done|auto] | done].
    + by apply (kp_cursors _ _ Hn).
    + intros id s x Hs0 Hx. eapply kept_used; [done|]. by eapply H7.
  - intros id b start _. assert (Hv : viewed b h' = viewed b h) by (unfold viewed, events_of; by rewrite Hs).
    apply advances_still; [by rewrite Hv|done|]. intros k [Hk Hf]. split; [by rewrite Hv|].
    intros s. rewrite Hb, Hv. apply Hf.
Qed.

(** *** Subscriptions *)

Lemma put_get s h id : map_get id (hb_subscriptions (put_subscription s h))
  = if bool_decide (sb_id (sm_base s) = id) then Some s else map_get id (hb_subscriptions h).
Proof. apply map_get_set. Qed.

Lemma put_keys s h : sb_id (sm_base s) ∈ (hb_subscriptions h).*1 →
  (hb_subscriptions (put_subscription s h)).*1 = (hb_subscriptions h).*1.
Proof. apply map_set_keys. Qed.

Lemma map_get_key {V} (m : list (string * V)) k v : map_get k m = Some v → k ∈ m.*1.
Proof. intros H%map_get_Some_elem. by apply (list_elem_of_fmap_2 fst) in H. Qed.

(** [s'] in the place of [s]: what it owes its subscriber is the same. *)
Definition in_place (s s' : ConnectionSubscription) : Prop :=
  sm_base s' = sm_base s ∧
  ((sm_invalidated s' = true ∧ sm_listening s' = false ∧ sm_active s' = false) ∨
   (sm_listening s' = sm_listening s ∧ sm_invalidated s' = sm_invalidated s ∧ sm_active s' = sm_active s ∧
    sm_bufferedEvents s' = sm_bufferedEvents s ∧ sm_nextPosition s' = sm_nextPosition s ∧ sm_sequence s' = sm_sequence s) ∨
   (sm_listening s' = false ∧ sm_invalidated s' = sm_invalidated s ∧ sm_active s' = sm_active s ∧
    sm_bufferedEvents s' = sm_bufferedEvents s ∧ sm_nextPosition s' = sm_nextPosition s ∧ sm_sequence s' = sm_sequence s)).

Lemma in_place_tracked s s' start k evs : in_place s s' → tracked start k evs s → tracked start k evs s'.
Proof.
  intros [_ [(Hi & Hl & Ha) | [(Hl & Hi & Ha & Hb & Hn & Hq) | (Hl & Hi & Ha & Hb & Hn & Hq)]]]; unfold tracked; rewrite Hi.
  - done.
  - rewrite Hl, Ha. case_match; [done|]. intros (seen & [? ? ? ? ? ?]). exists seen. split; congruence || rewrite ?Hl, ?Ha; done.
  - rewrite Hl, Ha. case_match; [naive_solver|]. intros (seen & [? ? ? ? ? ?]). exists seen.
    split; try congruence; try done. by rewrite Ha.
Qed.

Lemma put_ok s s' h : hub_ok h → map_get (sb_id (sm_base s)) (hb_subscriptions h) = Some s → sm_base s' = sm_base s →
  (sm_invalidated s' = true → sm_listening s' = false ∧ sm_active s' = false) →
  (sm_listening s' = true → sm_listening s = true) → hub_ok (put_subscription s' h).
Proof.
  intros [H1 H2 H3 H4 H4' H5 H6 H7] Hs Hb Hi Hl. pose proof (map_get_key _ _ _ Hs) as Hk. rewrite <- Hb in Hk.
  split; try done.
  - by apply map_set_ok.
  - intros id x. rewrite put_get. case_bool_decide as Hid; [intros [= <-]; done | apply H2].
  - intros id. rewrite put_keys by done. apply H3.
  - intros id x. rewrite put_get. case_bool_decide as Hid; [intros [= <-]; done | apply H5].
  - intros id x. rewrite put_get. case_bool_decide as Hid; [intros [= <-] ?; rewrite Hb; eauto | apply H6].
  - intros id x y. rewrite put_get. case_bool_decide as Hid; [intros [= <-]; rewrite Hb; by eapply H7 | apply H7].
Qed.

Lemma safe_put s s' h : map_get (sb_id (sm_base s)) (hb_subscriptions h) = Some s → in_place s s' →
  safe h [] (put_subscription s' h).
Proof.
  intros Hs Hp Hok. pose proof Hp as [Hb Hcase]. split_and!; [|done|].
  - apply (put_ok s); try done.
    + destruct Hcase as [(? & ? & ?)|[(Hl & Hi & Ha & _)|(Hl & Hi & Ha & _)]]; [done|..];
        intros Ht; rewrite ?Hl, ?Ha; rewrite Hi in Ht; destruct (ho_invalid h Hok _ _ Hs Ht); auto.
    + destruct Hcase as [(? & ? & ?)|[(Hl & _)|(Hl & _)]]; congruence.
  - intros id b start _. apply advances_still; [done|done|]. intros k [Hk Hf]. split; [done|].
    intros x. rewrite put_get. case_bool_decide as Hid; [|apply Hf]. intros [= <-]. rewrite Hb in Hid. subst id.
    destruct (Hf s Hs) as [Hb' Ht]. split; [congruence|]. by eapply in_place_tracked.
Qed.

Lemma safe_delete id h : safe h [] (delete_subscription id h).
Proof.
  intros [H1 H2 H3 H4 H4' H5 H6 H7]. split_and!; [|done|].
  - split; simpl; try done.
    + by apply map_delete_ok.
    + intros i s. rewrite map_get_delete. case_bool_decide; [done|apply H2].
    + intros i Hi%(proj1 (filter_part _ _)). by apply H3.
    + intros i s. rewrite map_get_delete. case_bool_decide; [done|apply H5].
    + intros i s. rewrite map_get_delete. case_bool_decide; [done|apply H6].
    + intros i s x. rewrite map_get_delete. case_bool_decide; [done|apply H7].
  - intros i b start _. apply advances_still; [done|done|]. intros k [Hk Hf]. split; [done|].
    intros s. simpl. rewrite map_get_delete. case_bool_decide; [done|apply Hf].
Qed.

Lemma safe_invalidate now s h : map_get (sb_id (sm_base s)) (hb_subscriptions h) = Some s → sm_active s = false →
  safe h [] (invalidateSnapshot now s h).
Proof.
  intros Hs Ha. unfold invalidateSnapshot. pose proof (release_step now s false h) as Hr.
  eapply safe_trans_nil; [by apply safe_cursor|]. apply (safe_put s); [by rewrite (cs_subscriptions _ _ Hr)|].
  split; [done|]. by left.
Qed.

(** *** Events *)

Lemma deliver_spec now s e position h s' h' p :
  deliverEvent uuid limits now s e position h = (s', h', p) →
  ∃ cursor h0, s' = delivered (sm_sequence s + 1)%Z s ∧ cursor_step h h0 ∧ h' = put_subscription s' h0 ∧
    p = PushEvent (sb_id (sm_base s)) (sb_sessionId (sm_base s)) (sm_sequence s + 1)%Z cursor e ∧
    pointed (sm_base s) cursor position h'.
Proof using uuid_inj.
  unfold deliverEvent. destruct (createCursor _ _ _ _ _ _ _ _) as [cursor h0] eqn:Ec. intros [= <- <- <-].
  apply create_step in Ec as (Hc & Hu & _ & _ & r & Hr & H1 & H2 & H3). exists cursor, h0. split_and!; [done..|].
  split; [exact Hu|]. intros r'. cbn. rewrite Hr. by intros [= <-].
Qed.

(** A step of the listener [id]: it leaves the other subscriptions and the sessions alone. *)
Record own_step (id : string) (h : hub) (ps : list push) (h' : hub) : Prop := {
  os_ok : hub_ok h';
  os_kept : kept h h';
  os_sessions : hb_sessions h' = hb_sessions h;
  os_keys : (hb_subscriptions h').*1 = (hb_subscriptions h).*1;
  os_others : ∀ i, i ≠ id → map_get i (hb_subscriptions h') = map_get i (hb_subscriptions h) ∧ pushes_of i ps = []
}.

Lemma own_refl id h : hub_ok h → own_step id h [] h.
Proof. intros H. by split. Qed.

Lemma own_cursor id h h' : hub_ok h → cursor_step h h' → own_step id h [] h'.
Proof.
  intros Hok Hc. destruct (safe_cursor h h' Hc Hok) as (Hok' & Hn & _). destruct Hc as [Hs Hb _ _].
  split; [done|done|done|by rewrite Hb|]. intros i _. by rewrite Hb.
Qed.

Lemma own_put id s s' h ps : hub_ok h → map_get id (hb_subscriptions h) = Some s → sm_base s' = sm_base s →
  (sm_invalidated s' = true → sm_listening s' = false ∧ sm_active s' = false) →
  (sm_listening s' = true → sm_listening s = true) → (∀ i, i ≠ id → pushes_of i ps = []) →
  own_step id h ps (put_subscription s' h).
Proof.
  intros Hok Hs Hb Hi Hl Hps. pose proof (ho_ids _ Hok _ _ Hs) as Hid. split.
  - apply (put_ok s); try done. by rewrite Hid.
  - done.
  - done.
  - apply put_keys. rewrite Hb, Hid. by eapply map_get_key.
  - intros i Hne. split; [|auto]. by rewrite put_get, bool_decide_false by congruence.
Qed.

Lemma own_trans id h1 p1 h2 p2 h3 : own_step id h1 p1 h2 → own_step id h2 p2 h3 → own_step id h1 (p1 ++ p2) h3.
Proof.
  intros [_ Hn1 Hs1 Hk1 Ho1] [Hok Hn2 Hs2 Hk2 Ho2]. split; [done|by eapply kept_trans|congruence|congruence|].
  intros i Hi. destruct (Ho1 i Hi), (Ho2 i Hi). split; [congruence|]. rewrite pushes_app. by rewrite H0, H2.
Qed.

Lemma own_invalidate now id s s' h : hub_ok h → map_get id (hb_subscriptions h) = Some s → sm_base s' = sm_base s →
  sm_active s' = false → own_step id h [] (invalidateSnapshot now s' h).
Proof.
  intros Hok Hs Hb Ha. unfold invalidateSnapshot. pose proof (release_step now s' false h) as Hr.
  eapply (own_trans id h [] _ []); [by apply own_cursor|].
  destruct (safe_cursor _ _ Hr Hok) as (Hok' & _). by apply (own_put id s).
Qed.

Lemma own_buffer now id s s' e position h : hub_ok h → map_get id (hb_subscriptions h) = Some s → sm_base s' = sm_base s →
  sm_active s' = false → sm_listening s' = sm_listening s → sm_invalidated s' = sm_invalidated s →
  own_step id h [] (bufferSnapshotEvent now s' e position h).
Proof.
  intros Hok Hs Hb Ha Hl Hi. unfold bufferSnapshotEvent.
  assert (Hinv : sm_invalidated s = true → sm_listening s = false ∧ sm_active s = false) by (by eapply ho_invalid).
  destruct (sm_invalidated s') eqn:Hi'; [|destruct (over_limits _ _ _); [by eapply own_invalidate|]];
    (apply (own_put id s); [done..| | |done]); simpl; rewrite Hl, ?Ha; [intros _; naive_solver|done|congruence|done].
Qed.

Lemma hear_own now e id h : hub_ok h → own_step id h (hear_event uuid limits now e id h).2 (hear_event uuid limits now e id h).1.
Proof.
  intros Hok. unfold hear_event. destruct (map_get id (hb_subscriptions h)) as [s|] eqn:Hs; [|by apply own_refl].
  destruct (sm_listening s && _) eqn:Hl; [|by apply own_refl]. apply andb_true_iff in Hl as [Hl _].
  pose proof (ho_invalid h Hok _ _ Hs) as Hinv. destruct (sm_active s) eqn:Ha; cbn [sm_active positioned].
  - rewrite Ha. destruct (deliverEvent _ _ _ _ _ _ _) as [[s' h'] p] eqn:Ed. cbn [fst snd].
    apply deliver_spec in Ed as (cursor & h0 & -> & Hc & -> & -> & Hpt). cbn.
    eapply (own_trans id h [] _ [_]); [by apply own_cursor|]. destruct (safe_cursor _ _ Hc Hok) as (Hok' & _).
    apply (own_put id s); try done; [by rewrite (cs_subscriptions _ _ Hc) | simpl; intros Hx; naive_solver|].
    intros i Hi. simpl. by rewrite bool_decide_false by (rewrite (ho_ids _ Hok _ _ Hs); congruence).
  - rewrite Ha. cbn [fst snd]. by apply (own_buffer now id s).
Qed.

Lemma own_each_other (f : string → hub → hub * list push) ids id h :
  (∀ i h, hub_ok h → own_step i h (f i h).2 (f i h).1) → hub_ok h → id ∉ ids →
  hub_ok (each_listener f ids h).1 ∧ kept h (each_listener f ids h).1 ∧
  hb_sessions (each_listener f ids h).1 = hb_sessions h ∧
  map_get id (hb_subscriptions (each_listener f ids h).1) = map_get id (hb_subscriptions h) ∧
  pushes_of id (each_listener f ids h).2 = [].
Proof.
  intros Hf. revert h. induction ids as [|i ids IH]; intros h Hok Hid; cbn [each_listener]; [done|].
  apply not_elem_of_cons in Hid as [Hne Hid]. destruct (Hf i h Hok) as [Hok1 Hn1 Hs1 _ Ho1].
  destruct (f i h) as [h1 p1]. cbn [fst snd] in *. destruct (IH h1 Hok1 Hid) as (Hok2 & Hn2 & Hs2 & Hg2 & Hp2).
  destruct (each_listener f ids h1) as [h2 p2]. cbn [fst snd] in *. destruct (Ho1 id Hne) as [Hg1 Hp1].
  split_and!; [done|by eapply kept_trans|congruence|congruence|]. by rewrite pushes_app, Hp1, Hp2.
Qed.

(** A round of the listeners, seen from one of them. *)
Lemma each_at (f : string → hub → hub * list push) ids id h :
  (∀ i h, hub_ok h → own_step i h (f i h).2 (f i h).1) → hub_ok h → NoDup ids → id ∈ ids →
  ∃ h1, hub_ok h1 ∧ kept h h1 ∧ hb_sessions h1 = hb_sessions h ∧
    map_get id (hb_subscriptions h1) = map_get id (hb_subscriptions h) ∧
    hub_ok (each_listener f ids h).1 ∧ kept (f id h1).1 (each_listener f ids h).1 ∧
    hb_sessions (each_listener f ids h).1 = hb_sessions h ∧
    map_get id (hb_subscriptions (each_listener f ids h).1) = map_get id (hb_subscriptions (f id h1).1) ∧
    pushes_of id (each_listener f ids h).2 = pushes_of id (f id h1).2.
Proof.
  intros Hf. revert h. induction ids as [|i ids IH]; intros h Hok Hnd Hid; [by apply elem_of_nil in Hid|].
  apply NoDup_cons in Hnd as [Hi Hnd]. cbn [each_listener]. destruct (decide (i = id)) as [->|Hne].
  - exists h. pose proof (Hf id h Hok) as [Hok1 Hn1 Hs1 _ _]. destruct (f id h) as [h1 p1]. cbn [fst snd] in *.
    destruct (own_each_other f ids id h1 Hf Hok1 Hi) as (Hok2 & Hn2 & Hs2 & Hg2 & Hp2).
    destruct (each_listener f ids h1) as [h2 p2]. cbn [fst snd] in *.
    split_and!; try done; [congruence|]. by rewrite pushes_app, Hp2, app_nil_r.
  - apply elem_of_cons in Hid as [->|Hid]; [done|]. pose proof (Hf i h Hok) as [Hok1 Hn1 Hs1 _ Ho1].
    destruct (f i h) as [h1 p1]. cbn [fst snd] in *. destruct (Ho1 id ltac:(congruence)) as [Hg1 Hp1].
    destruct (IH h1 Hok1 Hnd Hid) as (h2 & ? & ? & ? & ? & ? & ? & ? & ? & Hp2).
    destruct (each_listener f ids h1) as [h3 p3]. cbn [fst snd] in *. exists h2.
    split_and!; try done; try (by eapply kept_trans); try congruence. by rewrite pushes_app, Hp1.
Qed.

Lemma tracked_longer start k evs more s : sm_listening s = false → tracked start k evs s → tracked start k (evs ++ more) s.
Proof.
  intros Hl. unfold tracked. case_match; [done|]. intros (seen & [Hb _ Hn Hq Hbuf Ha]). exists seen.
  split; try done; [rewrite length_app; lia|congruence|]. by rewrite take_app_le by lia.
Qed.

Lemma with_positions_snoc from l e : with_positions from (l ++ [e]) = with_positions from l ++ [(e, Z.of_nat (from + length l))].
Proof. unfold with_positions. rewrite imap_app. simpl. by rewrite Nat.add_0_r. Qed.

(** An event reaches the listening subscription [s]. *)
Lemma hear_tracked now e id h s evs start k :
  hub_ok h → map_get id (hb_subscriptions h) = Some s → sm_listening s = true → sb_sessionId (sm_base s) = ev_sessionId e →
  tracked start k evs s → start + k <= length evs →
  ∃ s' j, map_get id (hb_subscriptions (hear_event uuid limits now e id h).1) = Some s' ∧ sm_base s' = sm_base s ∧
    tracked start (k + j) (evs ++ [e]) s' ∧ start + (k + j) <= length (evs ++ [e]) ∧
    sent id (sm_base s) start k j (hear_event uuid limits now e id h).2 (evs ++ [e]) (hear_event uuid limits now e id h).1.
Proof.
  intros Hok Hs Hl Hses Ht Hk. pose proof (ho_ids _ Hok _ _ Hs) as Hid. unfold hear_event. rewrite Hs, Hl, Hses, bool_decide_true by done.
  destruct (sm_invalidated s) eqn:Hi; [destruct (ho_invalid h Hok _ _ Hs Hi); congruence|].
  unfold tracked in Ht. rewrite Hi in Ht. destruct Ht as (seen & [Hb Hlist Hn Hq Hbuf Hact]). specialize (Hlist Hl). subst seen.
  rewrite firstn_all in Hbuf. cbn [andb sm_active positioned]. destruct (sm_active s) eqn:Ha.
  - destruct (deliverEvent _ _ _ _ _ _ _) as [[s' h'] p] eqn:Ed. apply deliver_spec in Ed as (cursor & h0 & -> & Hc & -> & -> & Hpt).
    specialize (Hact eq_refl). exists (delivered (sm_sequence s + 1)%Z (positioned (sm_nextPosition s + 1)%Z s)), 1. cbn [fst snd].
    rewrite put_get. cbn [sm_base delivered positioned]. rewrite Hid, bool_decide_true by done.
    split_and!; [done|done| |rewrite length_app; simpl; lia|].
    + unfold tracked. cbn. rewrite Hi. exists (length (evs ++ [e])). split; cbn; rewrite ?length_app; simpl; try done; try lia.
      rewrite Hbuf, !drop_ge by (rewrite ?length_take, ?length_app; simpl; lia). done.
    + unfold sent, pushed. cbn. rewrite bool_decide_true by done. split.
      * rewrite Hact, drop_app_length. unfold numbered. simpl. rewrite Hq. do 2 f_equal. lia.
      * intros n c x [= -> -> ->]%list_elem_of_singleton. rewrite Hn in Hpt. replace (Z.of_nat start + _ - 1)%Z with (Z.of_nat (length evs)) by lia. done.
  - unfold bufferSnapshotEvent. cbn [sm_invalidated positioned]. rewrite Hi. cbn [fst snd pushes_of omap list_omap].
    assert (Hnone : ∀ h, sent id (sm_base s) start k 0 [] (evs ++ [e]) h) by (intros; by apply sent_nothing).
    destruct (over_limits _ _ _).
    + eexists _, 0. rewrite Nat.add_0_r. unfold invalidateSnapshot. rewrite put_get. cbn. rewrite Hid, bool_decide_true by done.
      split_and!; [done|done| |rewrite length_app; lia|done]. unfold tracked. by cbn.
    + eexists _, 0. rewrite Nat.add_0_r, put_get. cbn. rewrite Hid, bool_decide_true by done.
      split_and!; [done|done| |rewrite length_app; lia|done]. unfold tracked. cbn. rewrite Hi. exists (length (evs ++ [e])).
      split; cbn; rewrite ?length_app; simpl; try done; try lia; [|congruence].
      rewrite Hbuf, Hn, take_ge by (rewrite length_app; simpl; lia). rewrite drop_app_le by lia.
      rewrite with_positions_snoc, length_drop. do 3 f_equal. lia.
Qed.

Lemma sessions_ok h l : hub_ok h → hub_ok (with_sessions l h).
Proof. by intros []. Qed.

Lemma events_published v e h sid :
  map_get (ev_sessionId e) (hb_sessions h) = Some v →
  events_of sid (with_sessions (map_set (ev_sessionId e) (with_events (sv_events v ++ [e]) v) (hb_sessions h)) h)
  = events_of sid h ++ (if decide (ev_sessionId e = sid) then [e] else []).
Proof.
  intros Hv. unfold events_of. cbn. rewrite map_get_set. destruct (decide (ev_sessionId e = sid)) as [<-|Hne].
  - rewrite bool_decide_true by done. by rewrite Hv.
  - by rewrite bool_decide_false, app_nil_r.
Qed.

Lemma own_each_ok (f : string → hub → hub * list push) ids h :
  (∀ i h, hub_ok h → own_step i h (f i h).2 (f i h).1) → hub_ok h →
  hub_ok (each_listener f ids h).1 ∧ kept h (each_listener f ids h).1 ∧
  hb_sessions (each_listener f ids h).1 = hb_sessions h.
Proof.
  intros Hf. revert h. induction ids as [|i ids IH]; intros h Hok; cbn [each_listener]; [done|].
  destruct (Hf i h Hok) as [Hok1 Hn1 Hs1 _ _]. destruct (f i h) as [h1 p1]. cbn [fst snd] in *.
  destruct (IH h1 Hok1) as (Hok2 & Hn2 & Hs2). destruct (each_listener f ids h1) as [h2 p2]. cbn [fst snd] in *.
  split_and!; [done|by eapply kept_trans|congruence].
Qed.

(** The listeners' round after an event, seen from the subscription [s]. *)
Lemma hear_follows now e id h s evs start k (same : bool) :
  hub_ok h → map_get id (hb_subscriptions h) = Some s → tracked start k evs s → start + k <= length evs →
  same = bool_decide (sb_fromNodeId (sm_base s) = None ∧ sb_sessionId (sm_base s) = ev_sessionId e) →
  let evs' := evs ++ (if same then [e] else []) in
  ∃ s' j, map_get id (hb_subscriptions (hear_event uuid limits now e id h).1) = Some s' ∧ sm_base s' = sm_base s ∧
    tracked start (k + j) evs' s' ∧ start + (k + j) <= length evs' ∧
    sent id (sm_base s) start k j (hear_event uuid limits now e id h).2 evs' (hear_event uuid limits now e id h).1.
Proof.
  intros Hok Hs Ht Hk ->. cbn zeta. destruct (sm_listening s) eqn:Hl.
  - pose proof (ho_listening h Hok _ _ Hs Hl) as Hfrom. destruct (decide (sb_sessionId (sm_base s) = ev_sessionId e)) as [Hses|Hses].
    + rewrite bool_decide_true by done. by apply hear_tracked.
    + rewrite bool_decide_false by naive_solver. rewrite app_nil_r. exists s, 0. unfold hear_event.
      rewrite Hs, Hl, bool_decide_false by done. cbn. rewrite Nat.add_0_r. split_and!; [done..|by apply sent_nothing].
  - exists s, 0. unfold hear_event. rewrite Hs, Hl. cbn. rewrite Nat.add_0_r.
    split_and!; [done|done|by apply tracked_longer|rewrite length_app; lia|by apply sent_nothing].
Qed.

Lemma safe_publish now e h : safe h (publish uuid limits now e h).2 (publish uuid limits now e h).1.
Proof.
  intros Hok. unfold publish. destruct (map_get (ev_sessionId e) (hb_sessions h)) as [v|] eqn:Hv; [|by apply safe_refl].
  destruct (sv_open v); [|by apply safe_refl].
  set (h0 := with_sessions _ h). set (f := hear_event uuid limits now e).
  assert (Hok0 : hub_ok h0) by (by apply sessions_ok).
  assert (Hf : ∀ i h, hub_ok h → own_step i h (f i h).2 (f i h).1) by (intros; by apply hear_own).
  change (hb_subscriptions h) with (hb_subscriptions h0).
  assert (Hview : ∀ b h', hb_sessions h' = hb_sessions h0 → viewed b h'
    = viewed b h ++ if bool_decide (sb_fromNodeId b = None ∧ sb_sessionId b = ev_sessionId e) then [e] else []).
  { intros b h' Hh. unfold viewed. destruct (sb_fromNodeId b); [rewrite bool_decide_false by (by intros [? _]); by rewrite app_nil_r|].
    unfold events_of at 1. rewrite Hh. fold (events_of (sb_sessionId b) h0). unfold h0. rewrite events_published by done.
    f_equal. case_decide; [by rewrite bool_decide_true | rewrite bool_decide_false by (intros [_ ?]; congruence); done]. }
  destruct (own_each_ok f (hb_subscriptions h0).*1 h0 Hf Hok0) as (Hok' & Hn' & Hs').
  split_and!; [done|eapply kept_trans; [|exact Hn']; done|]. intros id b start _. split; [rewrite (Hview _ _ Hs'); by eexists|]. intros k [Hk Hfol].
  destruct (map_get id (hb_subscriptions h)) as [s|] eqn:Hs.
  - destruct (each_at f (hb_subscriptions h0).*1 id h0 Hf Hok0 (ho_keys _ Hok0)) as (h1 & Hok1 & _ & Hs1 & Hg1 & _ & Hkept & _ & Hg & Hp);
      [by eapply map_get_key|]. destruct (Hfol s eq_refl) as [<- Ht].
    change (hb_subscriptions h0) with (hb_subscriptions h) in Hg1. rewrite Hs in Hg1.
    destruct (hear_follows now e id h1 s (viewed (sm_base s) h) start k _ Hok1 Hg1 Ht Hk eq_refl) as (s' & j & Hgs & Hb & Ht' & Hk' & Hp').
    exists j. rewrite (Hview _ _ Hs'). split; [split; [by rewrite (Hview _ _ Hs')|]|].
    + intros x. rewrite Hg. intros Hx. fold f in Hgs. rewrite Hgs in Hx. injection Hx as <-. split; [done|]. by rewrite (Hview _ _ Hs').
    + unfold sent, pushed in *. rewrite Hp. fold f in Hp'. destruct Hp' as [Hseq Hmark]. split; [done|]. intros n c x Hin.
      eapply pointed_kept; [| |by eapply Hmark]; [|done]. apply (os_ok _ _ _ _ (Hf id h1 Hok1)).
  - destruct (own_each_other f (hb_subscriptions h0).*1 id h0 Hf Hok0) as (_ & _ & _ & Hg & Hp); [by apply map_get_None|].
    exists 0. rewrite Nat.add_0_r. split; [|by apply sent_nothing]. split; [rewrite (Hview _ _ Hs'), length_app; lia|].
    intros x. rewrite Hg. change (hb_subscriptions h0) with (hb_subscriptions h). by rewrite Hs.
Qed.

(** *** Sessions and activity *)

Lemma safe_sessions h l : (∀ sid, events_of sid (with_sessions l h) = events_of sid h) → safe h [] (with_sessions l h).
Proof.
  intros He Hok. split_and!; [by apply sessions_ok|done|]. intros id b start _.
  assert (Hv : viewed b (with_sessions l h) = viewed b h) by (unfold viewed; by rewrite He).
  apply advances_still; [by rewrite Hv|done|]. intros k [Hk Hf]. split; [by rewrite Hv|].
  intros s Hs. rewrite Hv. by apply Hf.
Qed.

(** Replacing a session by one with the same events. *)
Lemma same_events h sid v v' : map_get sid (hb_sessions h) = Some v → sv_events v' = sv_events v →
  ∀ i, events_of i (with_sessions (map_set sid v' (hb_sessions h)) h) = events_of i h.
Proof.
  intros Hv He i. unfold events_of. cbn. rewrite map_get_set. case_bool_decide as Hi; [|done]. subst. by rewrite Hv.
Qed.

Lemma in_place_refl s : in_place s s.
Proof. split; [done|]. by right; left. Qed.

Lemma safe_hear_frame now sid f id h : safe h (hear_frame now sid f id h).2 (hear_frame now sid f id h).1.
Proof.
  intros Hok. unfold hear_frame. destruct (map_get id (hb_subscriptions h)) as [s|] eqn:Hs; [|by apply safe_refl].
  pose proof (ho_ids _ Hok _ _ Hs) as Hid. rewrite <- Hid in Hs.
  destruct (_ && _); [|by apply safe_refl]. destruct (sm_active s) eqn:Ha; cbn [fst snd].
  - destruct (safe_refl h Hok) as (_ & _ & H). split_and!; [done|done|]. intros i b start Hu. destruct (H i b start Hu) as [Hp Hf].
    split; [done|]. intros k Hk. by apply Hf.
  - cut (safe h [] (bufferSnapshotActivity now s f h)); [by intros H; apply H|].
    unfold bufferSnapshotActivity. destruct (sm_invalidated s) eqn:Hi; [by apply (safe_put s); [|apply in_place_refl]|].
    destruct (over_limits _ _ _); [by apply safe_invalidate|]. apply (safe_put s); [done|]. split; [done|]. by right; left.
Qed.

Lemma safe_publish_frame now sid f h : safe h (publish_frame now sid f h).2 (publish_frame now sid f h).1.
Proof.
  unfold publish_frame. destruct (map_get sid (hb_sessions h)) as [v|] eqn:Hv; [|apply safe_refl].
  destruct (sv_open v); [|apply safe_refl]. destruct (apply_frame f (sv_activity v)) as [a changed].
  assert (Hs : safe h [] (with_sessions (map_set sid (with_frames a v) (hb_sessions h)) h))
    by (apply safe_sessions; by apply (same_events h sid v)).
  destruct changed; [|done]. eapply safe_trans_nil; [done|]. apply safe_each. intros. apply safe_hear_frame.
Qed.

Lemma safe_turn sid turn h : safe h [] (set_turn sid turn h).
Proof.
  unfold set_turn. destruct (map_get sid (hb_sessions h)) as [v|] eqn:Hv; [|apply safe_refl].
  apply safe_sessions. by apply (same_events h sid v).
Qed.

Lemma safe_open sid h : safe h [] (open_session sid h).
Proof.
  unfold open_session. destruct (map_get sid (hb_sessions h)) as [v|] eqn:Hv.
  - destruct (sv_open v); [apply safe_refl|]. apply safe_sessions. by apply (same_events h sid v).
  - apply safe_sessions. intros i. unfold events_of. cbn. rewrite map_get_set. case_bool_decide; [|done]. subst. by rewrite Hv.
Qed.

Lemma map_get_fmap {V} (g : V → V) (m : list (string * V)) k :
  map_get k ((λ kv, (kv.1, g kv.2)) <$> m) = g <$> map_get k m.
Proof. induction m as [|[k' v] m IH]; [done|]. simpl. by case_bool_decide. Qed.

(** The listeners of a disposed session fall silent. *)
Lemma orphan_in_place sid s : in_place s (orphan sid s).
Proof. unfold orphan. case_bool_decide; [split; [done|]; by right; right | apply in_place_refl]. Qed.

Lemma orphan_fields sid s : sm_base (orphan sid s) = sm_base s ∧ sm_invalidated (orphan sid s) = sm_invalidated s ∧
  sm_active (orphan sid s) = sm_active s ∧ (sm_listening (orphan sid s) = true → sm_listening s = true).
Proof. unfold orphan. by case_bool_decide. Qed.

Lemma safe_silence sid h : safe h [] (with_subscriptions ((λ kv, (kv.1, orphan sid kv.2)) <$> hb_subscriptions h) h).
Proof.
  assert (Hkeys : ((λ kv, (kv.1, orphan sid kv.2)) <$> hb_subscriptions h).*1 = (hb_subscriptions h).*1).
  { rewrite <- list_fmap_compose. by apply list_fmap_ext. }
  intros [H1 H2 H3 H4 H4' H5 H6 H7]. split_and!; [|done|].
  - assert (Hback : ∀ id s, map_get id ((λ kv, (kv.1, orphan sid kv.2)) <$> hb_subscriptions h) = Some s →
      ∃ s0, map_get id (hb_subscriptions h) = Some s0 ∧ s = orphan sid s0).
    { intros id s. rewrite map_get_fmap. by intros (s0 & Hs & ->)%fmap_Some; exists s0. }
    split; cbn; rewrite ?Hkeys; try done; [unfold map_ok; by rewrite Hkeys|..]; intros id s; [| | |intros x];
      intros (s0 & Hs & ->)%Hback; destruct (orphan_fields sid s0) as (Hb & Hi & Ha & Hl);
      rewrite ?Hb, ?Hi, ?Ha; [by apply H2| |intros ?%Hl; by eapply H6|by eapply H7].
    intros Ht. destruct (H5 id s0 Hs Ht) as [Hl0 Ha0]. split; [|done]. destruct (sm_listening (orphan sid s0)); [|done].
    specialize (Hl eq_refl). congruence.
  - intros id b start _. apply advances_still; [done|done|]. intros k [Hk Hf]. split; [done|].
    intros s. cbn. rewrite map_get_fmap. intros (s0 & Hs & ->)%fmap_Some. destruct (Hf s0 Hs) as [Hb Ht].
    split; [by rewrite (proj1 (orphan_fields sid s0))|]. eapply in_place_tracked; [apply orphan_in_place | exact Ht].
Qed.

Lemma safe_dispose sid h : safe h [] (dispose_session sid h).
Proof.
  unfold dispose_session. destruct (map_get sid (hb_sessions h)) as [v|] eqn:Hv; [|apply safe_refl].
  match goal with |- context [with_sessions ?l h] => apply (safe_trans_nil _ (with_sessions l h)) end.
  - apply safe_sessions. by apply (same_events h sid v).
  - match goal with |- context [with_sessions ?l h] => apply (safe_silence sid (with_sessions l h)) end.
Qed.

(** *** Subscribing *)

(** A step about the subscription [u], which no one knew before. *)
Record new_step (u : string) (h h' : hub) : Prop := {
  ns_ok : hub_ok h';
  ns_kept : kept h h';
  ns_sessions : hb_sessions h' = hb_sessions h;
  ns_others : ∀ i, i ≠ u → map_get i (hb_subscriptions h') = map_get i (hb_subscriptions h)
}.

Lemma new_trans u h1 h2 h3 : new_step u h1 h2 → new_step u h2 h3 → new_step u h1 h3.
Proof.
  intros [_ Hn1 Hs1 Ho1] [Hok Hn2 Hs2 Ho2]. split; [done|by eapply kept_trans|congruence|]. intros i Hi. by rewrite Ho2, Ho1.
Qed.

Lemma new_refl u h : hub_ok h → new_step u h h.
Proof. intros H. by split. Qed.

Lemma new_own u h ps h' : own_step u h ps h' → new_step u h h'.
Proof. intros [H1 H2 H3 _ H5]. split; [done..|]. intros i Hi. by apply H5. Qed.

Lemma new_cursor u h h' : hub_ok h → cursor_step h h' → new_step u h h'.
Proof. intros Hok Hc. eapply new_own, (own_cursor u); done. Qed.

Lemma new_safe u h h' : ¬ used h u → new_step u h h' → safe h [] h'.
Proof.
  intros Hu [Hok Hn Hs Ho] _. split_and!; [done|done|]. intros id b start Hid.
  assert (Hne : id ≠ u) by (by intros ->).
  assert (Hv : viewed b h' = viewed b h) by (unfold viewed, events_of; by rewrite Hs).
  apply advances_still; [by rewrite Hv|done|]. intros k [Hk Hf]. split; [by rewrite Hv|].
  intros s. rewrite (Ho id Hne), Hv. apply Hf.
Qed.

Lemma new_put u s h : hub_ok h → u ∉ (hb_subscriptions h).*1 → used h u → sb_id (sm_base s) = u → sm_invalidated s = false →
  (sm_listening s = true → sb_fromNodeId (sm_base s) = None) → (∀ x, sb_snapshotId (sm_base s) = Some x → used h x) →
  new_step u h (put_subscription s h).
Proof.
  intros [H1 H2 H3 H4 H4' H5 H6 H7] Hu Hused Hid Hi Hl Hsn. split; [|done|done|].
  - split; try done.
    + by apply map_set_ok.
    + intros i x. rewrite put_get. case_bool_decide; [intros [= <-]; congruence | apply H2].
    + intros i Hin. apply map_has_spec in Hin. unfold map_has in Hin. rewrite put_get in Hin. case_bool_decide; [by replace i with u by congruence|].
      apply H3, map_has_spec. done.
    + intros i x. rewrite put_get. case_bool_decide; [intros [= <-] ?; congruence | apply H5].
    + intros i x. rewrite put_get. case_bool_decide; [intros [= <-]; done | apply H6].
    + intros i x y. rewrite put_get. case_bool_decide; [intros [= <-]; apply Hsn | apply H7].
  - intros i Hne. by rewrite put_get, bool_decide_false by congruence.
Qed.

Lemma new_delete u h : hub_ok h → new_step u h (delete_subscription u h).
Proof.
  intros Hok. destruct (safe_delete u h Hok) as (H1 & H2 & _). split; [done..|]. intros i Hi.
  cbn. by rewrite map_get_delete, bool_decide_false by congruence.
Qed.

Lemma fresh_ok h u h1 : hub_ok h → fresh uuid h = (u, h1) →
  hub_ok h1 ∧ hb_next h1 = S (hb_next h) ∧ hb_sessions h1 = hb_sessions h ∧ hb_subscriptions h1 = hb_subscriptions h ∧
  hb_cursors h1 = hb_cursors h ∧ u = uuid (hb_next h) ∧ used h1 u ∧ u ∉ (hb_subscriptions h1).*1 ∧ new_step u h h1.
Proof using uuid_inj.
  intros [H1 H2 H3 H4 H4' H5 H6 H7]. unfold fresh. intros [= <- <-]. cbn.
  assert (Hu : ∀ x, used h x → used {| hb_sessions := hb_sessions h; hb_cursors := hb_cursors h;
    hb_subscriptions := hb_subscriptions h; hb_next := S (hb_next h) |} x).
  { intros x (n & Hn & ->). exists n. simpl. split; [lia|done]. }
  split_and!; try done.
  - split; cbn; eauto.
  - exists (hb_next h). simpl. split; [lia|done].
  - intros Hin%H3. by apply not_used in Hin.
  - split; cbn; [split; cbn; eauto|done..].
Qed.

Lemma buffer_get now s e position h :
  ∃ s', map_get (sb_id (sm_base s)) (hb_subscriptions (bufferSnapshotEvent now s e position h)) = Some s' ∧
    sm_base s' = sm_base s ∧ (sm_active s = false → sm_active s' = false) ∧
    (sm_invalidated s' = true ∨ ∃ n, s' = with_buffers (sm_bufferedEvents s ++ [(e, position)]) (sm_bufferedActivity s) n s).
Proof.
  unfold bufferSnapshotEvent. destruct (sm_invalidated s) eqn:Hi; [exists s|destruct (over_limits _ _ _); eexists];
    (split; [unfold invalidateSnapshot; rewrite put_get; cbn; by rewrite bool_decide_true|]); (split_and!; [done|done|]).
  - by left.
  - by left.
  - right. by eexists.
Qed.

Lemma buffer_tail_spec now u l : ∀ h s position, hub_ok h → map_get u (hb_subscriptions h) = Some s → sm_active s = false →
  own_step u h [] (buffer_tail now u l position h) ∧
  ∃ s', map_get u (hb_subscriptions (buffer_tail now u l position h)) = Some s' ∧ sm_base s' = sm_base s ∧
    (sm_invalidated s' = true ∨
     ∃ a n, s' = with_buffers (sm_bufferedEvents s ++ imap (λ i e, (e, (position + Z.of_nat i)%Z)) l) a n s).
Proof.
  induction l as [|e l IH]; intros h s position Hok Hs Ha; cbn [buffer_tail].
  - split; [by apply own_refl|]. exists s. split_and!; [done|done|]. right. exists (sm_bufferedActivity s), (sm_bufferedEventBytes s).
    simpl. rewrite app_nil_r. by destruct s.
  - rewrite Hs. pose proof (ho_ids _ Hok _ _ Hs) as Hid. pose proof (own_buffer now u s s e position h Hok Hs eq_refl Ha eq_refl eq_refl) as Hown.
    destruct (buffer_get now s e position h) as (s1 & Hs1 & Hb1 & Ha1 & Hcase1). rewrite Hid in Hs1.
    destruct (IH _ s1 (position + 1)%Z (os_ok _ _ _ _ Hown) Hs1 (Ha1 Ha)) as [Hown2 (s2 & Hs2 & Hb2 & Hcase2)].
    split; [by eapply (own_trans u h [] _ [])|]. exists s2. split_and!; [done|congruence|].
    destruct Hcase2 as [|(a & n & ->)]; [by left|]. destruct Hcase1 as [Hi|(n1 & ->)]; [by left|]. right. exists a, n. cbn.
    rewrite <- app_assoc. cbn. rewrite Z.add_0_r. unfold with_buffers. cbn. do 3 f_equal. apply imap_ext. intros i x _. cbn. f_equal. lia.
Qed.

Lemma build_step s start h page s' h' u : hub_ok h → buildSnapshotPage uuid s start h = Ok (page, s', h') →
  new_step u h h' ∧ hb_subscriptions h' = hb_subscriptions h ∧ hb_cursors h' = hb_cursors h ∧
  (s' = s ∨ ∃ pages, s' = with_pages pages (sm_pageResults s) (sm_finalPageServed s) s).
Proof using uuid_inj.
  intros Hok. unfold buildSnapshotPage. destruct (take_page _ _ _) as [l|]; [|done]. simpl. case_match.
  - intros [= <- <- <-]. split_and!; [by apply new_refl|done|done|by left].
  - destruct (fresh_ok h _ _ Hok eq_refl) as (H1 & _). cbn. intros [= <- <- <-].
    split_and!; [|done|done|right; by eexists]. by split.
Qed.

(** The state of a subscription that resumes. *)
Lemma subscribe_after_spec now c u sid from v selected cursor h :
  hub_ok h → u ∉ (hb_subscriptions h).*1 → used h u →
  let '(h', r) := subscribe_after now c u sid from v selected cursor h in
  new_step u h h' ∧
  ∀ res, r = Ok res → sr_subscriptionId res = u ∧ ∃ record s',
    map_get cursor (hb_cursors h) = Some record ∧ cr_sessionId record = sid ∧ cr_fromNodeId record = from ∧
    map_get u (hb_subscriptions h') = Some s' ∧ sb_sessionId (sm_base s') = sid ∧ sb_fromNodeId (sm_base s') = from ∧
    sb_connection (sm_base s') = c ∧ sm_invalidated s' = false ∧ sm_active s' = false ∧ sm_activateAfterResponse s' = true ∧
    sm_listening s' = bool_decide (from = None) ∧
    ((0 <= cr_position record + 1 <= Z.of_nat (length selected))%Z → sb_snapshotEvents (sm_base s') = selected →
     tracked (Z.to_nat (cr_position record + 1)) 0 selected s') ∧ sb_snapshotEvents (sm_base s') = selected.
Proof using uuid_inj.
  intros Hok Hu Hused. unfold subscribe_after. pose proof (prune_step now h) as Hprune.
  pose proof (new_cursor u _ _ Hok Hprune) as Hn0. set (h0 := pruneCursors now h) in *.
  pose proof (ns_ok _ _ _ Hn0) as Hok0.
  unfold resume_position. replace (pruned now (hb_cursors h0)) with (hb_cursors h0).
  2: { unfold h0, pruneCursors, pruned. cbn. symmetry. apply list_filter_filter_l. done. }
  destruct (map_get cursor (hb_cursors h0)) as [record|] eqn:Hc0; [|by split].
  destruct (cr_acknowledged record && _ && _) eqn:Hcond; [|by split].
  rewrite !andb_true_iff, !bool_decide_eq_true in Hcond. destruct Hcond as [[_ Hsid] Hfrom].
  match goal with |- context [buffer_tail _ _ _ _ (put_subscription ?x ?y)] => set (s0 := x); set (g := y) end.
  assert (Hg : cursor_step h0 g).
  { apply set_step; [by eapply ho_cursors, map_get_key| |by eexists]. rewrite Hc0. by intros r [= <-]. }
  pose proof (new_cursor u _ _ Hok0 Hg) as Hn1. pose proof (ns_ok _ _ _ Hn1) as Hokg.
  assert (Hn2 : new_step u g (put_subscription s0 g)).
  { apply new_put; try done. simpl. by rewrite bool_decide_eq_true. }
  assert (Hs0 : map_get u (hb_subscriptions (put_subscription s0 g)) = Some s0) by (by rewrite put_get, bool_decide_true).
  destruct (buffer_tail_spec now u (drop (Z.to_nat (cr_position record + 1)) selected) (put_subscription s0 g) s0
    (cr_position record + 1)%Z (ns_ok _ _ _ Hn2) Hs0 eq_refl) as [Hown (s1 & Hs1 & Hb1 & Hcase)].
  pose proof (new_own _ _ _ _ Hown) as Hn3. rewrite Hs1.
  assert (Hn : new_step u h (buffer_tail now u (drop (Z.to_nat (cr_position record + 1)) selected) (cr_position record + 1)%Z (put_subscription s0 g))).
  { eapply new_trans; [exact Hn0|]. eapply new_trans; [exact Hn1|]. by eapply new_trans. }
  destruct (sm_invalidated s1) eqn:Hi1; (split; [|intros res Hres; try discriminate Hres]).
  - eapply new_trans; [exact Hn|]. apply new_delete, Hn.
  - done.
  - injection Hres as <-. split; [done|]. exists record, s1. destruct Hcase as [|(a & n & ->)]; [congruence|].
    split_and!; try done.
    + apply (proj2 (filter_part (λ kv, (now < cr_expiresAt kv.2)%Z) (hb_cursors h))); [apply Hok | exact Hc0].
    + intros Hp _. unfold tracked. cbn. exists (length selected). split; cbn; rewrite ?Nat.add_0_r; try done; [lia|].
      rewrite firstn_all. unfold with_positions. apply imap_ext. intros i x _. cbn. f_equal. lia.
Qed.

Lemma pages_in_place pages results final s : in_place s (with_pages pages results final s).
Proof. split; [done|]. by right; left. Qed.

Lemma subscribe_snapshot_spec now c u sid from v selected h :
  hub_ok h → u ∉ (hb_subscriptions h).*1 → used h u →
  let '(h', r) := subscribe_snapshot uuid limits now c u sid from v selected h in
  new_step u h h' ∧
  ∀ res, r = Ok res → sr_subscriptionId res = u ∧ ∃ s' snapshot,
    map_get u (hb_subscriptions h') = Some s' ∧ sb_sessionId (sm_base s') = sid ∧ sb_fromNodeId (sm_base s') = from ∧
    sb_connection (sm_base s') = c ∧ sb_snapshotEvents (sm_base s') = selected ∧ sm_invalidated s' = false ∧
    sm_listening s' = bool_decide (from = None) ∧ tracked (length selected) 0 selected s' ∧
    sr_snapshot res = Some snapshot ∧ sd_eventCount snapshot = length selected ∧
    sb_boundaryCursor (sm_base s') = Some (sd_boundaryCursor snapshot) ∧
    pointed (sm_base s') (sd_boundaryCursor snapshot) (Z.of_nat (length selected) - 1) h'.
Proof using uuid_inj.
  intros Hok Hu Hused. unfold subscribe_snapshot. destruct (fresh uuid h) as [snapshotId h1] eqn:Ef.
  destruct (fresh_ok h _ _ Hok Ef) as (Hok1 & Hn1 & Hs1 & Hb1 & Hc1 & _ & Hsn & _).
  assert (Hstep1 : new_step u h h1) by (split; [done|apply kept_same; [lia|done]|done|by rewrite Hb1]).
  destruct (createCursor _ _ _ _ _ _ _ h1) as [cursor h2] eqn:Ec.
  destruct (create_step _ _ _ _ _ _ _ _ Ec) as (Hc2 & Hu2 & _ & _ & r & Hr & Hp1 & Hp2 & Hp3).
  pose proof (new_cursor u _ _ Hok1 Hc2) as Hstep2. pose proof (ns_ok _ _ _ Hstep2) as Hok2.
  match goal with |- context [put_subscription ?x h2] => set (s0 := x) end.
  assert (Hstep3 : new_step u h2 (put_subscription s0 h2)).
  { apply new_put; try done.
    - by rewrite (cs_subscriptions _ _ Hc2), Hb1.
    - eapply kept_used; [apply Hstep2|]. eapply kept_used; [apply Hstep1|done].
    - simpl. by rewrite bool_decide_eq_true.
    - intros x [= <-]. eapply kept_used; [apply Hstep2 | done]. }
  assert (H03 : new_step u h (put_subscription s0 h2)) by (eapply new_trans; [exact Hstep1|]; by eapply new_trans).
  pose proof (ns_ok _ _ _ Hstep3) as Hok3.
  destruct (buildSnapshotPage _ _ _ _) as [[[page s1] h4]|] eqn:Eb; [|by split].
  destruct (build_step _ _ _ _ _ _ u Hok3 Eb) as (Hstep4 & Hsub4 & Hcur4 & Hs). pose proof (ns_ok _ _ _ Hstep4) as Hok4.
  assert (Hpages : ∃ pages results final, s1 = with_pages pages results final s0).
  { destruct Hs as [->|[pages ->]]; [by exists [], [], false | by eexists _, _, _]. }
  clear Hs. destruct Hpages as (pages & results & final & ->).
  assert (Hs0 : map_get u (hb_subscriptions h4) = Some s0) by (by rewrite Hsub4, put_get, bool_decide_true).
  match goal with |- context [put_subscription ?x h4] => set (s2 := x) end.
  assert (Hown : own_step u h4 [] (put_subscription s2 h4)) by (by apply (own_put u s0)).
  pose proof (new_own _ _ _ _ Hown) as Hstep5. split; [by do 2 (eapply new_trans; [eassumption|])|].
  intros res [= <-]. split; [done|]. exists s2. eexists.
  split_and!; try done; [by rewrite put_get, bool_decide_true| |].
  - unfold tracked. cbn. exists (length selected). split; cbn; rewrite ?Nat.add_0_r; try done. by rewrite firstn_all, drop_all.
  - eapply pointed_kept; [apply Hok2| |].
    + eapply kept_trans; [apply Hstep3|]. eapply kept_trans; [apply Hstep4 | apply Hstep5].
    + split; [done|]. intros r'. cbn. rewrite Hr. by intros [= <-].
Qed.

Lemma subscribe_new now c sid from after h : hub_ok h →
  new_step (uuid (hb_next h)) h (subscribe uuid limits now c sid from after h).1.
Proof using uuid_inj.
  intros Hok. unfold subscribe. destruct (fresh uuid h) as [u h1] eqn:Ef.
  destruct (fresh_ok h u h1 Hok Ef) as (Hok1 & _ & _ & _ & _ & Hu & Hused & Hnot & Hstep). rewrite <- Hu. clear Hu.
  destruct (match map_get sid (hb_sessions h1) with Some v => _ | None => None end) as [v|]; [|done].
  destruct (selected_events sid v from) as [selected|]; [|done]. destruct after as [cursor|].
  - pose proof (subscribe_after_spec now c u sid from v selected cursor h1 Hok1 Hnot Hused) as Hs.
    destruct (subscribe_after _ _ _ _ _ _ _ _ _) as [h2 r]. destruct Hs as [Hs _]. by eapply new_trans.
  - pose proof (subscribe_snapshot_spec now c u sid from v selected h1 Hok1 Hnot Hused) as Hs.
    destruct (subscribe_snapshot _ _ _ _ _ _ _ _ _ _) as [h2 r]. destruct Hs as [Hs _]. by eapply new_trans.
Qed.

Lemma safe_subscribe now c sid from after h : safe h [] (subscribe uuid limits now c sid from after h).1.
Proof using uuid_inj.
  intros Hok. eapply (new_safe (uuid (hb_next h))); [apply not_used | by apply subscribe_new | done].
Qed.

(** *** Requests *)

Lemma connection_member c s h : hub_ok h → s ∈ of_connection c h →
  map_get (sb_id (sm_base s)) (hb_subscriptions h) = Some s ∧ sb_connection (sm_base s) = c.
Proof.
  intros Hok [Hc Hin]%list_elem_of_filter. split; [|done]. apply list_elem_of_fmap in Hin as ([id x] & -> & Hin).
  pose proof (map_elem_get _ _ _ (ho_keys _ Hok) Hin) as Hg. simpl. by rewrite (ho_ids _ Hok _ _ Hg).
Qed.

Lemma safe_assert now s h : map_get (sb_id (sm_base s)) (hb_subscriptions h) = Some s →
  safe h [] (assertSnapshotAvailable limits now s h).1.
Proof.
  intros Hs Hok. unfold assertSnapshotAvailable. destruct (_ || _) eqn:Hc; [|by apply safe_refl].
  apply safe_invalidate; [done| |done]. apply orb_true_iff in Hc as [Hi|He]; [by eapply ho_invalid|].
  unfold expired in He. by destruct (sm_active s).
Qed.

Lemma assert_ok now s h h' : assertSnapshotAvailable limits now s h = (h', Ok ()) → h' = h ∧ sm_invalidated s = false.
Proof. unfold assertSnapshotAvailable. destruct (_ || _) eqn:Hc; [done|]. intros [= <-]. by apply orb_false_iff in Hc as [? _]. Qed.

Lemma safe_page now c snapshot cursor h : safe h [] (snapshotPage uuid limits now c snapshot cursor h).1.
Proof using uuid_inj.
  intros Hok. unfold snapshotPage. destruct (List.find _ _) as [s|] eqn:Hf; [|by apply safe_refl].
  apply List.find_some in Hf as [Hin _]. apply list_elem_of_In, connection_member in Hin as [Hs _]; [|done].
  destruct (map_get cursor (sm_pageResults s)); [by apply safe_refl|].
  pose proof (safe_assert now s h Hs) as Ha. destruct (assertSnapshotAvailable limits now s h) as [h1 [[]|]] eqn:Ea; [|by apply Ha].
  apply assert_ok in Ea as [-> _]. clear Ha.
  assert (Hp1 : safe h [] (put_subscription (accessed now s) h)) by (apply (safe_put s); [done|]; split; [done|]; by right; left).
  destruct (map_get cursor (sm_pageCursors (accessed now s))) as [offset|]; [|by apply Hp1].
  destruct (buildSnapshotPage _ _ _ _) as [[[page s1] h2]|] eqn:Eb; [|by apply Hp1]. cbn [fst].
  destruct (Hp1 Hok) as (Hok1 & _).
  destruct (build_step _ _ _ _ _ _ (uuid (hb_next (put_subscription (accessed now s) h))) Hok1 Eb) as (Hn & Hsub & _ & Hcase).
  cut (safe h [] (put_subscription (with_pages (sm_pageCursors s1) (map_set cursor page (sm_pageResults s1))
    (sm_finalPageServed s1 || sp_complete page) s1) h2)); [by intros H; apply H|].
  eapply safe_trans_nil; [exact Hp1|]. eapply safe_trans_nil; [eapply new_safe; [|exact Hn]; apply not_used|].
  apply (safe_put (accessed now s)).
  - by rewrite Hsub, put_get, bool_decide_true.
  - destruct Hcase as [->|[pages ->]]; (split; [done|]; by right; left).
Qed.

Lemma own_get c u h s : hub_ok h → own_subscription c u h = Some s →
  map_get u (hb_subscriptions h) = Some s ∧ sb_id (sm_base s) = u ∧ sb_connection (sm_base s) = c.
Proof.
  intros Hok. unfold own_subscription. destruct (map_get _ _) as [s0|] eqn:Hs; [|done]. case_bool_decide; [|done].
  intros [= <-]. split_and!; [done|by eapply ho_ids|done].
Qed.

Lemma safe_put_here s s' h : map_get (sb_id (sm_base s)) (hb_subscriptions h) = Some s → in_place s s' →
  safe h [] (put_subscription s' h) ∧ map_get (sb_id (sm_base s')) (hb_subscriptions (put_subscription s' h)) = Some s'.
Proof. intros Hs Hp. split; [by apply (safe_put s)|]. by rewrite put_get, bool_decide_true. Qed.

Lemma safe_acknowledge now c u cursor h : safe h [] (acknowledge limits now c u cursor h).1.
Proof using uuid_inj.
  intros Hok. unfold acknowledge. destruct (own_subscription c u h) as [s|] eqn:Ho; [|by apply safe_refl].
  destruct (own_get c u h s Hok Ho) as (Hs & Hid & _). rewrite <- Hid in Hs.
  pose proof (safe_assert now s h Hs) as Ha. destruct (assertSnapshotAvailable limits now s h) as [h1 [[]|]] eqn:Ea; [|by apply Ha].
  apply assert_ok in Ea as [-> _]. clear Ha. destruct (safe_put_here s (accessed now s) h Hs) as [Hp1 Hs1]; [split; [done|]; by right; left|].
  set (s1 := accessed now s) in *. set (h1 := put_subscription s1 h) in *. pose proof (prune_step now h1) as Hprune.
  set (h2 := pruneCursors now h1) in *.
  assert (H2 : safe h [] h2) by (eapply safe_trans_nil; [exact Hp1|]; by apply safe_cursor).
  assert (Hs2 : map_get (sb_id (sm_base s1)) (hb_subscriptions h2) = Some s1) by (by rewrite (cs_subscriptions _ _ Hprune)).
  destruct (map_get cursor (hb_cursors h2)) as [record|] eqn:Hr; [|by apply H2].
  destruct (negb _); [by apply H2|]. destruct (_ && negb _); [by apply H2|].
  destruct (H2 Hok) as (Hok2 & _).
  assert (H3 : cursor_step h2 (with_cursors (map_set cursor (confirm record) (hb_cursors h2)) h2)).
  { apply set_step; [by eapply ho_cursors, map_get_key| |by eexists]. rewrite Hr. by intros r [= <-]. }
  set (h3 := with_cursors _ h2) in *. set (s2 := if bool_decide _ then _ else _).
  assert (Hp2 : in_place s1 s2) by (unfold s2; case_bool_decide; [split; [done|]; by right; left | apply in_place_refl]).
  destruct (safe_put_here s1 s2 h3) as [Hp3 Hs3]; [by rewrite (cs_subscriptions _ _ H3)|done|].
  assert (H4 : safe h [] (put_subscription s2 h3)) by (eapply safe_trans_nil; [exact H2|]; eapply safe_trans_nil; [by apply safe_cursor | done]).
  destruct (_ <? _)%Z; [by apply H4|]. cbn [fst].
  match goal with |- context [with_cursors (drop_covered ?x ?y ?z ?w) ?h5] => cut (safe h [] (with_cursors (drop_covered x y z w) h5)); [by intros H; apply H|] end.
  eapply safe_trans_nil; [exact H4|]. eapply safe_trans_nil; [apply (safe_put_here s2 (acknowledged (cr_position record) (Some cursor) s2)); [done|split; [done|]; by right; left]|].
  apply safe_cursor, part_step, filter_part.
Qed.

Lemma safe_unsubscribe now c u h : safe h [] (unsubscribe now c u h).1.
Proof using uuid_inj.
  unfold unsubscribe. destruct (own_subscription c u h) as [s|]; [|apply safe_refl].
  eapply safe_trans_nil; [apply safe_cursor, release_step | apply safe_delete].
Qed.

Lemma safe_disconnect now c h : safe h [] (disconnect now c h).
Proof using uuid_inj.
  apply safe_fold. intros g s. eapply safe_trans_nil; [apply safe_cursor, release_step | apply safe_delete].
Qed.

(** The timer's round: every subscription is touched once. *)
Lemma safe_sweep_round now l : ∀ h, NoDup ((λ s, sb_id (sm_base s)) <$> l) →
  (∀ s, s ∈ l → map_get (sb_id (sm_base s)) (hb_subscriptions h) = Some s) →
  safe h [] (fold_left (λ h s, if negb (sm_active s) && negb (sm_invalidated s) && expired limits now s
                               then invalidateSnapshot now s h else h) l h).
Proof using uuid_inj.
  induction l as [|s l IH]; intros h Hnd Hin; [apply safe_refl|]. cbn [fold_left]. apply NoDup_cons in Hnd as [Hnot Hnd].
  destruct (_ && _ && _) eqn:Hc; [|apply IH; [done|]; intros x Hx; apply Hin; by right].
  rewrite !andb_true_iff in Hc. destruct Hc as [[Ha _] _].
  eapply safe_trans_nil; [apply safe_invalidate; [apply Hin; by left | by destruct (sm_active s)]|].
  apply IH; [done|]. intros x Hx. unfold invalidateSnapshot. rewrite put_get. cbn.
  rewrite bool_decide_false by (intros He; apply Hnot; apply list_elem_of_fmap; by exists x). apply Hin. by right.
Qed.

Lemma safe_sweep now c h : safe h [] (sweep limits now c h).
Proof using uuid_inj.
  intros Hok. unfold sweep. revert Hok. change (safe h [] (fold_left (λ h s, if negb (sm_active s) && negb (sm_invalidated s) && expired limits now s
                               then invalidateSnapshot now s h else h) (of_connection c h) (pruneCursors now h))).
  intros Hok. eapply safe_trans_nil; [apply safe_cursor, prune_step | apply safe_sweep_round | done].
  - apply (sublist_NoDup _ (hb_subscriptions h).*1); [apply Hok|].
    assert (Hids : (hb_subscriptions h).*1 = (λ s, sb_id (sm_base s)) <$> map_values (hb_subscriptions h)).
    { unfold map_values. rewrite <- list_fmap_compose. apply list_fmap_ext. intros i [id s] Hi. simpl. symmetry.
      apply (ho_ids _ Hok). apply map_elem_get; [apply Hok|]. by eapply list_elem_of_lookup_2. }
    rewrite Hids. apply fmap_sublist, sublist_filter.
  - intros s Hs. by apply connection_member in Hs as [? _].
Qed.

(** *** Activation *)

Lemma own_safe u h ps h' : own_step u h ps h' →
  (map_get u (hb_subscriptions h) = None → pushes_of u ps = []) →
  (∀ s start k, map_get u (hb_subscriptions h) = Some s → start + k <= length (viewed (sm_base s) h) →
     tracked start k (viewed (sm_base s) h) s →
     ∃ s' j, map_get u (hb_subscriptions h') = Some s' ∧ sm_base s' = sm_base s ∧
       tracked start (k + j) (viewed (sm_base s) h) s' ∧ start + (k + j) <= length (viewed (sm_base s) h) ∧
       sent u (sm_base s) start k j ps (viewed (sm_base s) h) h') →
  safe h ps h'.
Proof.
  intros [Hok' Hkept Hses Hkeys Hoth] Hnone Hsome Hok. split_and!; [done|done|]. intros id b start _.
  assert (Hv : viewed b h' = viewed b h) by (unfold viewed, events_of; by rewrite Hses).
  destruct (decide (id = u)) as [->|Hne].
  - split; [by rewrite Hv|]. intros k [Hk Hf]. destruct (map_get u (hb_subscriptions h)) as [s|] eqn:Hs.
    + destruct (Hf s eq_refl) as [<- Ht]. destruct (Hsome s start k eq_refl Hk Ht) as (s' & j & Hs' & Hb & Ht' & Hk' & Hsent).
      exists j. unfold follows. rewrite Hv. split; [|done]. split; [done|]. intros x. rewrite Hs'. by intros [= <-].
    + exists 0. rewrite Nat.add_0_r. split; [|apply sent_nothing; auto]. split; [by rewrite Hv|]. intros x Hx%map_get_key.
      rewrite Hkeys in Hx. by apply map_get_None in Hs.
  - destruct (Hoth id Hne) as [Hg Hp]. apply advances_still; [by rewrite Hv|done|]. intros k [Hk Hf]. split; [by rewrite Hv|].
    intros s. rewrite Hg, Hv. apply Hf.
Qed.

Lemma deliver_own now u s e position h : hub_ok h → (∃ s0, map_get u (hb_subscriptions h) = Some s0 ∧ sm_base s = sm_base s0 ∧
    (sm_listening s = true → sm_listening s0 = true)) → sm_invalidated s = false →
  let '(s', h', p) := deliverEvent uuid limits now s e position h in
  s' = delivered (sm_sequence s + 1) s ∧ own_step u h [p] h' ∧ map_get u (hb_subscriptions h') = Some s' ∧
  ∃ c, pushes_of u [p] = [((sm_sequence s + 1)%Z, c, e)] ∧ pointed (sm_base s) c position h'.
Proof using uuid_inj.
  intros Hok (s0 & Hs0 & Hb & Hl) Hi. destruct (deliverEvent _ _ _ _ _ _ _) as [[s' h'] p] eqn:Ed.
  apply deliver_spec in Ed as (c & h0 & -> & Hc & -> & -> & Hpt). pose proof (ho_ids _ Hok _ _ Hs0) as Hid. rewrite <- Hb in Hid.
  split_and!; [done| | |exists c; split; [cbn; by rewrite bool_decide_true | done]].
  - eapply (own_trans u h [] _ [_]); [by apply own_cursor|]. destruct (safe_cursor _ _ Hc Hok) as (Hok' & _).
    apply (own_put u s0); try done; [by rewrite (cs_subscriptions _ _ Hc) | simpl; congruence|].
    intros i Hne. cbn. rewrite Hid. by rewrite bool_decide_false.
  - rewrite put_get. cbn. by rewrite Hid, bool_decide_true.
Qed.

Lemma deliver_buffered_spec now u l : ∀ s h, hub_ok h → map_get u (hb_subscriptions h) = Some s → sm_invalidated s = false →
  let '(s', h', ps) := deliver_buffered uuid limits now l s h in
  s' = delivered (sm_sequence s + Z.of_nat (length l)) s ∧ own_step u h ps h' ∧ map_get u (hb_subscriptions h') = Some s' ∧
  pushed u ps = imap (λ i x, ((sm_sequence s + Z.of_nat i + 1)%Z, x.1)) l ∧
  ∀ n c e, (n, c, e) ∈ pushes_of u ps → ∃ i p, l !! i = Some (e, p) ∧ n = (sm_sequence s + Z.of_nat i + 1)%Z ∧ pointed (sm_base s) c p h'.
Proof using uuid_inj.
  induction l as [|[e p] l IH]; intros s h Hok Hs Hi; cbn [deliver_buffered].
  - split_and!; [by destruct s; unfold delivered; cbn; rewrite Z.add_0_r|by apply own_refl|done|done|]. by intros n c e ?%elem_of_nil.
  - pose proof (deliver_own now u s e p h Hok (ex_intro _ s (conj Hs (conj eq_refl (λ H, H)))) Hi) as Hd.
    destruct (deliverEvent _ _ _ _ _ _ _) as [[s1 h1] p1]. destruct Hd as (-> & Hown1 & Hs1 & c1 & Hp1 & Hpt1).
    pose proof (os_ok _ _ _ _ Hown1) as Hok1.
    specialize (IH _ h1 Hok1 Hs1 Hi). destruct (deliver_buffered _ _ _ _ _ _) as [[s2 h2] p2].
    destruct IH as (-> & Hown2 & Hs2 & Hseq & Hmark). unfold pushed in *.
    change (p1 :: p2) with ([p1] ++ p2). rewrite pushes_app, fmap_app, Hp1, Hseq. split_and!.
    + unfold delivered. cbn. f_equal. lia.
    + by eapply own_trans.
    + done.
    + cbn. f_equal; [f_equal; lia|]. apply imap_ext. intros i x _. cbn. f_equal. lia.
    + intros n c x [Hin|Hin]%elem_of_app.
      * apply list_elem_of_singleton in Hin as [= -> -> ->]. exists 0, p. split_and!; [done|lia|].
        eapply pointed_kept; [apply Hok1|apply Hown2|done].
      * destruct (Hmark n c x Hin) as (i & q & Hl & -> & Hpt). exists (S i), q. cbn in *. split_and!; [done|lia|done].
Qed.

Lemma pushes_of_frames u id sid frames : pushes_of u (PushActivity id sid <$> frames) = [].
Proof. by induction frames. Qed.

Lemma positions_at (from : nat) l i (e : event) p : with_positions from l !! i = Some (e, p) → l !! i = Some e ∧ p = Z.of_nat (from + i).
Proof. unfold with_positions. rewrite list_lookup_imap. intros (x & Hx & [= -> ->])%fmap_Some. done. Qed.

Lemma positions_events (from : nat) (q : Z) (l : list event) :
  imap (λ i x, ((q + Z.of_nat i + 1)%Z, x.1)) (with_positions from l) = imap (λ i e, ((q + Z.of_nat i + 1)%Z, e)) l.
Proof. apply list_eq. intros i. unfold with_positions. rewrite !list_lookup_imap. by destruct (l !! i). Qed.

Lemma safe_activate now u h : safe h (activate uuid limits now u h).2 (activate uuid limits now u h).1.
Proof using uuid_inj.
  intros Hok. unfold activate. destruct (map_get u (hb_subscriptions h)) as [s|] eqn:Hs; [|by apply safe_refl].
  destruct (_ || _ || _) eqn:Hc; [by apply safe_refl|]. rewrite !orb_false_iff in Hc. destruct Hc as [[_ Ha] Hi].
  set (s1 := with_activation true false s). pose proof (ho_ids _ Hok _ _ Hs) as Hid.
  assert (Hown1 : own_step u h [] (put_subscription s1 h)) by (apply (own_put u s); try done; simpl; congruence).
  assert (Hs1 : map_get u (hb_subscriptions (put_subscription s1 h)) = Some s1) by (by rewrite put_get, bool_decide_true).
  pose proof (deliver_buffered_spec now u (sm_bufferedEvents s1) s1 _ (os_ok _ _ _ _ Hown1) Hs1 Hi) as Hd.
  destruct (deliver_buffered _ _ _ _ _ _) as [[s2 h2] ps]. destruct Hd as (-> & Hown2 & Hs2 & Hseq & Hmark). cbn [fst snd].
  set (s3 := with_buffers [] [] 0 _). set (frames := PushActivity u _ <$> _).
  assert (Hown3 : own_step u h2 frames (put_subscription s3 h2)).
  { apply (own_put u (delivered (sm_sequence s1 + Z.of_nat (length (sm_bufferedEvents s1))) s1)); try done; [apply Hown2|simpl; congruence|].
    intros i _. apply pushes_of_frames. }
  assert (Hs3 : map_get u (hb_subscriptions (put_subscription s3 h2)) = Some s3) by (by rewrite put_get, bool_decide_true).
  assert (Hown : own_step u h (ps ++ frames) (put_subscription s3 h2)).
  { eapply (own_trans u h [] _ _); [exact Hown1|]. by eapply own_trans. }
  revert Hok. apply (own_safe u); [done|intros Hn; congruence|]. intros x start k Hx Hk Ht. rewrite Hs in Hx. injection Hx as <-.
  unfold tracked in Ht. rewrite Hi in Ht. destruct Ht as (seen & [Hb Hl Hn Hq Hbuf _]).
  assert (Hlen : length (sm_bufferedEvents s1) = seen - (start + k)).
  { simpl. rewrite Hbuf. unfold with_positions. rewrite length_imap, length_drop, length_take. lia. }
  exists s3, (seen - (start + k)). split_and!; [done|done| |lia|].
  - unfold tracked. cbn. rewrite Hi. exists seen. split; cbn; try done; [lia|cbn in Hlen; lia| |lia].
    rewrite drop_ge; [done|]. rewrite length_take. lia.
  - assert (Hpushes : pushes_of u (ps ++ frames) = pushes_of u ps).
    { rewrite pushes_app. unfold frames. by rewrite pushes_of_frames, app_nil_r. }
    unfold sent, pushed in *. rewrite Hpushes, Hseq. split.
    + cbn [sm_bufferedEvents s1 with_activation]. rewrite Hbuf, positions_events. unfold numbered. cbn. rewrite Hq.
      rewrite skipn_firstn_comm. apply imap_ext. intros i e _. cbn. f_equal. lia.
    + intros n c e Hin. destruct (Hmark n c e Hin) as (i & p & Hl' & -> & Hpt). cbn in Hl', Hpt. rewrite Hbuf in Hl'.
      apply positions_at in Hl' as [_ ->]. cbn. rewrite Hq. eapply pointed_kept; [apply (os_ok _ _ _ _ Hown2)|apply Hown3|].
      replace (Z.of_nat start + (Z.of_nat k + Z.of_nat i + 1) - 1)%Z with (Z.of_nat (start + k + i)) by lia. done.
Qed.

Lemma safe_step a h : safe h (step a h).2 (step a h).1.
Proof using uuid_inj.
  destruct a; cbn [step fst snd].
  - apply safe_publish.
  - apply safe_publish_frame.
  - apply safe_turn.
  - apply safe_dispose.
  - apply safe_open.
  - apply safe_subscribe.
  - apply safe_page.
  - apply safe_acknowledge.
  - apply safe_unsubscribe.
  - apply safe_each. intros. apply safe_activate.
  - apply safe_sweep.
  - apply safe_disconnect.
Qed.

Lemma safe_run acts : ∀ h, safe h (run acts h).2 (run acts h).1.
Proof using uuid_inj.
  induction acts as [|a acts IH]; intros h; cbn [run]; [apply safe_refl|]. pose proof (safe_step a h) as Ha.
  destruct (step a h) as [h1 p1]. specialize (IH h1). destruct (run acts h1) as [h2 p2]. by eapply safe_trans.
Qed.

(** ** Subscribers *)

Definition daemon_start (sessions : list (string * session_view)) : hub :=
  {| hb_sessions := sessions; hb_cursors := []; hb_subscriptions := []; hb_next := 0 |}.

Lemma start_ok sessions : hub_ok (daemon_start sessions).
Proof. split; cbn; try done; [apply NoDup_nil_2|..|apply NoDup_nil_2]; by intros id ?%elem_of_nil. Qed.

Lemma reached_ok before sessions : hub_ok (run before (daemon_start sessions)).1.
Proof using uuid_inj. by apply safe_run, start_ok. Qed.

Lemma subscribe_follows now c sid after h h1 res :
  hub_ok h → subscribe uuid limits now c sid None after h = (h1, Ok res) →
  hub_ok h1 ∧ kept h h1 ∧ used h1 (sr_subscriptionId res) ∧ events_of sid h1 = events_of sid h ∧
  ∃ b, sb_sessionId b = sid ∧ sb_fromNodeId b = None ∧
    match after with
    | None => ∃ snapshot, sr_snapshot res = Some snapshot ∧ sd_eventCount snapshot = length (events_of sid h) ∧
        pointed b (sd_boundaryCursor snapshot) (Z.of_nat (length (events_of sid h)) - 1) h1 ∧
        follows (sr_subscriptionId res) b (length (events_of sid h)) 0 h1
    | Some cursor => ∃ record, map_get cursor (hb_cursors h) = Some record ∧
        ((0 <= cr_position record + 1 <= Z.of_nat (length (events_of sid h)))%Z →
         follows (sr_subscriptionId res) b (Z.to_nat (cr_position record + 1)) 0 h1)
    end.
Proof using uuid_inj.
  intros Hok Hsub. pose proof (subscribe_new now c sid None after h Hok) as Hnew. rewrite Hsub in Hnew. cbn [fst] in Hnew.
  assert (Hsame : ∀ i, events_of i h1 = events_of i h) by (intros i; unfold events_of; by rewrite (ns_sessions _ _ _ Hnew)).
  unfold subscribe in Hsub. destruct (fresh uuid h) as [u h0] eqn:Ef.
  destruct (fresh_ok h u h0 Hok Ef) as (Hok0 & _ & Hs0 & _ & Hc0 & Hu & Hused & Hnot & Hstep). rewrite Hs0 in Hsub.
  destruct (map_get sid (hb_sessions h)) as [v|] eqn:Hv; [|done]. destruct (sv_open v); [|done]. cbn [selected_events] in Hsub.
  assert (Hev : sv_events v = events_of sid h) by (unfold events_of; by rewrite Hv).
  assert (Hview : ∀ b, sb_sessionId b = sid → sb_fromNodeId b = None → viewed b h1 = events_of sid h).
  { intros b <- Hf. unfold viewed. by rewrite Hf. }
  split; [apply Hnew|]. split; [apply Hnew|].
  assert (Hfol : ∀ s' start, map_get u (hb_subscriptions h1) = Some s' → sb_sessionId (sm_base s') = sid → sb_fromNodeId (sm_base s') = None →
    start <= length (events_of sid h) → tracked start 0 (events_of sid h) s' → follows u (sm_base s') start 0 h1).
  { intros s' start Hg Hi Hf Hle Ht. split; rewrite (Hview _ Hi Hf); [lia|]. intros x. rewrite Hg. by intros [= <-]. }
  destruct after as [cursor|].
  - pose proof (subscribe_after_spec now c u sid None v (sv_events v) cursor h0 Hok0 Hnot Hused) as H. rewrite Hsub in H.
    destruct H as [Hnew2 H]. destruct (H res eq_refl) as (Hid & record & s' & Hr & _ & _ & Hg & Hi & Hf & _ & _ & _ & _ & _ & Ht & Hsel).
    rewrite Hid. split; [by eapply kept_used; [apply Hnew2|]|]. split; [done|]. exists (sm_base s'). split_and!; [done..|].
    rewrite Hc0 in Hr. exists record. split; [done|]. intros Hp. apply Hfol; [done..|lia|]. rewrite <- Hev in *. by apply Ht.
  - pose proof (subscribe_snapshot_spec now c u sid None v (sv_events v) h0 Hok0 Hnot Hused) as H. rewrite Hsub in H.
    destruct H as [Hnew2 H]. destruct (H res eq_refl) as (Hid & s' & snapshot & Hg & Hi & Hf & _ & _ & _ & _ & Ht & Hsnap & Hcount & _ & Hpt).
    rewrite Hid. split; [by eapply kept_used; [apply Hnew2|]|]. split; [done|]. exists (sm_base s'). split_and!; [done..|].
    rewrite <- Hev. exists snapshot. split_and!; [done..|]. rewrite Hev in *. by apply Hfol.
Qed.

Lemma run_app acts1 acts2 h : run (acts1 ++ acts2) h =
  let (h1, p1) := run acts1 h in let (h2, p2) := run acts2 h1 in (h2, p1 ++ p2).
Proof.
  revert h. induction acts1 as [|a acts1 IH]; intros h; cbn [app run]; [by destruct (run acts2 h)|].
  destruct (step a h) as [h1 p1]. rewrite IH. destruct (run acts1 h1) as [h2 p2]. destruct (run acts2 h2) as [h3 p3].
  by rewrite app_assoc.
Qed.

Lemma kept_pointed_run h acts h' ps b c p : hub_ok h → run acts h = (h', ps) → pointed b c p h → pointed b c p h'.
Proof using uuid_inj.
  intros Hok Hrun. destruct (safe_run acts h Hok) as (_ & Hkept & _). rewrite Hrun in Hkept. by apply pointed_kept; [apply Hok|].
Qed.

(** What the subscription gets of a run. *)
Lemma followed_run id b start h acts h' ps :
  hub_ok h → used h id → follows id b start 0 h → run acts h = (h', ps) → sb_fromNodeId b = None →
  let events := events_of (sb_sessionId b) h' in
  events_of (sb_sessionId b) h `prefix_of` events ∧
  ∃ j, start + j <= length events ∧ sent id b start 0 j ps events h' ∧
    ∀ s, map_get id (hb_subscriptions h') = Some s → sm_active s = true → sm_listening s = true → start + j = length events.
Proof using uuid_inj.
  intros Hok Hu Hf Hrun Hfrom. cbn zeta. destruct (safe_run acts h Hok) as (Hok' & Hkept & Hadv). rewrite Hrun in *. cbn [fst snd] in *.
  destruct (Hadv id b start Hu) as [Hpre Hall]. destruct (Hall 0 Hf) as (j & Hf' & Hsent).
  assert (Hv : ∀ h, viewed b h = events_of (sb_sessionId b) h) by (intros; unfold viewed; by rewrite Hfrom).
  rewrite !Hv in *. split; [done|]. exists j. destruct Hf' as [Hle Hs]. rewrite Hv in *. split_and!; [done|done|].
  intros s Hg Ha Hl. destruct (Hs s Hg) as [_ Ht]. unfold tracked in Ht. destruct (sm_invalidated s); [naive_solver congruence|].
  destruct Ht as (seen & [_ H1 _ _ _ H2]). rewrite <- (H1 Hl). by apply H2.
Qed.

(** C25: after a client subscribed with a snapshot, whatever happens next - events, activity,
    other clients, timers, disconnections, the session disposed and opened again - what it is
    pushed are the events after the snapshot, numbered from one, in their order, without a
    gap or a repetition; and once the subscription is active, for as long as it listens, it
    has been pushed every event of the session. *)
Theorem subscriber_is_pushed_the_log sessions before now c sid res h1 acts :
  let h := (run before (daemon_start sessions)).1 in
  subscribe uuid limits now c sid None None h = (h1, Ok res) →
  let '(h2, ps) := run acts h1 in
  ∃ snapshot j, sr_snapshot res = Some snapshot ∧ sd_eventCount snapshot = length (events_of sid h) ∧
    events_of sid h `prefix_of` events_of sid h2 ∧
    pushed (sr_subscriptionId res) ps = numbered 0 (take j (drop (sd_eventCount snapshot) (events_of sid h2))) ∧
    ∀ s, map_get (sr_subscriptionId res) (hb_subscriptions h2) = Some s → sm_active s = true → sm_listening s = true →
      sd_eventCount snapshot + j = length (events_of sid h2).
Proof using uuid_inj.
  intros h Hsub. destruct (run acts h1) as [h2 ps] eqn:Hrun.
  destruct (subscribe_follows _ _ _ _ _ _ _ (reached_ok before sessions) Hsub) as (Hok1 & _ & Hu & Hev & b & <- & Hfrom & snapshot & Hsnap & Hcount & _ & Hf).
  destruct (followed_run _ _ _ _ _ _ _ Hok1 Hu Hf Hrun Hfrom) as (Hpre & j & _ & Hsent & Hact). rewrite Hev in Hpre.
  exists snapshot, j. rewrite Hcount. split_and!; [done..| |done]. destruct Hsent as [Hseq _]. by rewrite Nat.add_0_r in Hseq.
Qed.

(** The cursor of the [n]-th event a subscription was pushed; that of its snapshot for none. *)
Definition holds_cursor (res : SubscribeResult) (ps : list push) (n : nat) (cursor : string) : Prop :=
  match n with
  | O => ∃ snapshot, sr_snapshot res = Some snapshot ∧ cursor = sd_boundaryCursor snapshot
  | S _ => ∃ e, (Z.of_nat n, cursor, e) ∈ pushes_of (sr_subscriptionId res) ps
  end.

Lemma numbered_in k l n e : (n, e) ∈ numbered k l → (Z.of_nat k < n <= Z.of_nat (k + length l))%Z.
Proof.
  unfold numbered. intros (i & Hi)%list_elem_of_lookup. rewrite list_lookup_imap in Hi.
  apply fmap_Some in Hi as (x & Hx & [= -> ->]). apply lookup_lt_Some in Hx. lia.
Qed.

(** A client that comes back with the cursor of the last event it saw - the snapshot's, or
    that of any event it was pushed - and is let in, is pushed the events from the next one
    on, in order, without a gap or a repetition, whatever happened to the daemon in between
    and whatever happens after. *)
Lemma resumed_where_it_stopped sessions before now c sid res h1 acts now' c' res' h3 acts' n cursor :
  let h := (run before (daemon_start sessions)).1 in
  subscribe uuid limits now c sid None None h = (h1, Ok res) →
  let '(h2, ps) := run acts h1 in
  holds_cursor res ps n cursor →
  subscribe uuid limits now' c' sid None (Some cursor) h2 = (h3, Ok res') →
  let '(h4, ps') := run acts' h3 in
  ∃ j, pushed (sr_subscriptionId res') ps' = numbered 0 (take j (drop (length (events_of sid h) + n) (events_of sid h4))) ∧
    ∀ s, map_get (sr_subscriptionId res') (hb_subscriptions h4) = Some s → sm_active s = true → sm_listening s = true →
      length (events_of sid h) + n + j = length (events_of sid h4).
Proof using uuid_inj.
  intros h Hsub. destruct (run acts h1) as [h2 ps] eqn:Hrun. intros Hhold Hsub'. destruct (run acts' h3) as [h4 ps'] eqn:Hrun'.
  destruct (subscribe_follows _ _ _ _ _ _ _ (reached_ok before sessions) Hsub) as (Hok1 & _ & Hu & Hev & b & <- & Hfrom & snapshot & Hsnap & Hcount & Hpt & Hf).
  fold h in Hev, Hpt, Hf, Hcount.
  destruct (followed_run _ _ _ _ _ _ _ Hok1 Hu Hf Hrun Hfrom) as (Hpre & j & Hj & [Hseq Hmark] & _). rewrite Hev in Hpre. rewrite Nat.add_0_r in Hseq.
  assert (Hok2 : hub_ok h2) by (destruct (safe_run acts h1 Hok1) as [H _]; by rewrite Hrun in H).
  assert (Hpt2 : pointed b cursor (Z.of_nat (length (events_of (sb_sessionId b) h)) + Z.of_nat n - 1) h2 ∧ n <= j).
  { destruct n as [|n]; cbn [holds_cursor] in Hhold.
    - destruct Hhold as (snap' & Heq & ->). rewrite Hsnap in Heq. injection Heq as <-. split; [|lia]. rewrite Z.add_0_r.
      eapply kept_pointed_run; [exact Hok1|exact Hrun|exact Hpt].
    - destruct Hhold as [e Hin]. split; [by eapply Hmark|].
      assert (Hin' : (Z.of_nat (S n), e) ∈ pushed (sr_subscriptionId res) ps) by (apply list_elem_of_fmap; by exists (Z.of_nat (S n), cursor, e)).
      rewrite Hseq in Hin'. apply numbered_in in Hin' as [_ Hle]. rewrite length_take in Hle. lia. }
  destruct Hpt2 as [[_ Hpt2] Hnj].
  destruct (subscribe_follows _ _ _ _ _ _ _ Hok2 Hsub') as (Hok3 & _ & Hu3 & Hev3 & b' & Hb' & Hfrom' & record & Hr & Hf').
  destruct (Hpt2 record Hr) as (Hp & _ & _). rewrite Hp in Hf'.
  pose proof (prefix_length _ _ Hpre). specialize (Hf' ltac:(lia)).
  replace (Z.to_nat _) with (length (events_of (sb_sessionId b) h) + n) in Hf' by lia. rewrite <- Hb'.
  destruct (followed_run _ _ _ _ _ _ _ Hok3 Hu3 Hf' Hrun' Hfrom') as (_ & j' & _ & [Hseq' _] & Hact').
  rewrite Nat.add_0_r in Hseq'.   rewrite Hb' in *. by exists j'.
Qed.
End Facts.

(** ** A sample run *)

Definition sample_limits : lifetimes :=
  {| snapshotIdleLifetimeMs := 60000; snapshotAbsoluteLifetimeMs := 600000; cursorLifetimeMs := 3600000 |}.

Definition sample_sessions : list (string * session_view) :=
  [("s", {| sv_events := take 3 shown_log; sv_activity := quiet; sv_turn := false; sv_open := true |})].

Definition sample_hub : hub := daemon_start sample_sessions.
Definition no_subscription : SubscribeResult :=
  {| sr_subscriptionId := ""; sr_sessionId := ""; sr_fromNodeId := None; sr_resumedFrom := None; sr_snapshot := None |}.
Definition granted (r : hub * result request_failure SubscribeResult) : SubscribeResult :=
  match r.2 with Ok res => res | Err _ => no_subscription end.

Definition sample_subscribed := subscribe tally sample_limits 5 7 "s" None None sample_hub.
Definition sample_cursor : string := match sr_snapshot (granted sample_subscribed) with Some d => sd_boundaryCursor d | None => "" end.
Definition sample_acts : list action :=
  [APublish 6 (shown_event "d" (Some "c") (Some "op") (QueueStarted "c"));
   AAcknowledge 7 7 (sr_subscriptionId (granted sample_subscribed)) sample_cursor; AActivate 7 7] ++
  (APublish 8 <$> drop 4 shown_log).

Lemma sample_granted : subscribe tally sample_limits 5 7 "s" None None (run tally sample_limits [] (daemon_start sample_sessions)).1
  = (sample_subscribed.1, Ok (granted sample_subscribed)).
Proof. vm_compute. reflexivity. Qed.

(** The sample subscription ends up active, and was pushed the five events after its snapshot. *)
Lemma sample_pushed :
  pushed (sr_subscriptionId (granted sample_subscribed)) (run tally sample_limits sample_acts sample_subscribed.1).2
    = numbered 0 (drop 3 shown_log) ∧
  sm_active <$> map_get (sr_subscriptionId (granted sample_subscribed))
    (hb_subscriptions (run tally sample_limits sample_acts sample_subscribed.1).1) = Some true.
Proof. vm_compute. split; reflexivity. Qed.

Lemma subscriber_is_pushed_the_log_witness :
  let '(h2, ps) := run tally sample_limits sample_acts sample_subscribed.1 in
  ∃ snapshot j, sr_snapshot (granted sample_subscribed) = Some snapshot ∧
    sd_eventCount snapshot = length (events_of "s" sample_hub) ∧
    events_of "s" sample_hub `prefix_of` events_of "s" h2 ∧
    pushed (sr_subscriptionId (granted sample_subscribed)) ps = numbered 0 (take j (drop (sd_eventCount snapshot) (events_of "s" h2))) ∧
    ∀ s, map_get (sr_subscriptionId (granted sample_subscribed)) (hb_subscriptions h2) = Some s → sm_active s = true → sm_listening s = true →
      sd_eventCount snapshot + j = length (events_of "s" h2).
Proof.
  apply (subscriber_is_pushed_the_log tally sample_limits tally_inj sample_sessions [] 5 7 "s" _ _ sample_acts sample_granted).
Defined.
