(* ===== verification/SubscriptionClient.v ===== *)
(** sdk/src/subscription.ts: a client loads the pages of a snapshot into its projector and
    then applies what it is pushed. The theorems put the daemon, the subscription and the
    projector together: what the client shows is the log of the session. *)
From stdpp Require Import base list sets strings pretty.
From Stdlib Require Import ZArith Lia Ascii.
From S2P Require Import Prelude Text JsValue Json Utf8 Envelope Types Events JsMap SessionTree WireMessages Connection EventLog Projector ProjectorFacts Subscriptions SubscriptionFacts.

Inductive load_error :=
| Projection (e : ProjectionError)
| Request (e : request_failure)
| Unanswered.

Record client := {
  cl_projector : projector;
  cl_subscriptionId : string;
  cl_sequence : Z
}.

Section Client.
Context (uuid : nat → string) (limits : lifetimes).

(** The loop of [establish] over the pages of a snapshot; the requests for the next page are
    handled at the given times. *)
Fixpoint load_pages (times : list Z) (connection : nat) (snapshotId : string) (page : SnapshotPage) (st : projector) (h : hub) :
    hub * projector * result load_error unit :=
  match apply_events (sp_events page) st with
  | (st, Some err) => (h, st, Err (Projection err))
  | (st, None) =>
      if sp_complete page then (h, st, Ok tt)
      else
        match sp_nextPageCursor page, times with
        | None, _ => (h, st, Err (Projection {| pe_code := "invalid_snapshot"; pe_message := "Incomplete snapshot omitted its page cursor" |}))
        | Some _, [] => (h, st, Err Unanswered)
        | Some cursor, now :: times =>
            match snapshotPage uuid limits now connection snapshotId cursor h with
            | (h, Err e) => (h, st, Err (Request e))
            | (h, Ok page) => load_pages times connection snapshotId page st h
            end
        end
  end.
End Client.

(** [applyEvent] of the subscription, up to the acknowledgement of the cursor it returns. *)
Definition receive (delivery : push) (cl : client) : client * result ProjectionError (option string) :=
  match delivery with
  | PushEvent id _ sequence cursor e =>
      if negb (bool_decide (id = cl_subscriptionId cl)) then (cl, Ok None)
      else if negb (sequence =? cl_sequence cl + 1)%Z then
        (cl, Err {| pe_code := "event_sequence_gap"; pe_message := "Canonical event delivery is out of order" |})
      else
        match applyEvent e (cl_projector cl) with
        | (st, Err err) => ({| cl_projector := st; cl_subscriptionId := cl_subscriptionId cl; cl_sequence := cl_sequence cl |}, Err err)
        | (st, Ok _) => ({| cl_projector := st; cl_subscriptionId := cl_subscriptionId cl; cl_sequence := sequence |}, Ok (Some cursor))
        end
  | PushActivity _ _ _ => (cl, Ok None)
  end.

Fixpoint receive_all (deliveries : list push) (cl : client) : client * option ProjectionError :=
  match deliveries with
  | [] => (cl, None)
  | d :: rest => match receive d cl with (cl, Ok _) => receive_all rest cl | (cl, Err err) => (cl, Some err) end
  end.

(** ** Pages *)

Definition page_bytes (l : list event) : Z := foldr (λ e n, (event_bytes e + n)%Z) 0%Z l.
Definition page_sized (e : event) : Prop := (event_bytes e <= MAX_SNAPSHOT_PAGE_BYTES)%Z.

Lemma take_page_ok l : ∀ count bytes, (0 <= count)%Z → (count = 0 → bytes = 0)%Z → Forall page_sized l →
  ∃ n, take_page l count bytes = Ok (take n l) ∧ n <= length l ∧ (count = 0%Z → l ≠ [] → 0 < n) ∧
    (n = 0 ∨ (count + Z.of_nat n <= MAX_SNAPSHOT_PAGE_EVENTS)%Z ∧ (bytes + page_bytes (take n l) <= MAX_SNAPSHOT_PAGE_BYTES)%Z).
Proof.
  induction l as [|e l IH]; intros count bytes Hc Hb Hl; cbn [take_page].
  - exists 0. split_and!; [done|done|done|by left].
  - apply Forall_cons in Hl as [He Hl]. assert (Hsized := He). unfold page_sized in He.
    destruct (MAX_SNAPSHOT_PAGE_EVENTS <=? count)%Z eqn:Hfull.
    { exists 0. split_and!; [done|simpl; lia| |by left]. unfold MAX_SNAPSHOT_PAGE_EVENTS in *. lia. }
    rewrite (proj2 (Z.ltb_ge _ _)) by lia. destruct (_ && _) eqn:Hover.
    { exists 0. split_and!; [done|simpl; lia| |by left]. apply andb_true_iff in Hover. lia. }
    destruct (IH (count + 1)%Z (bytes + event_bytes e)%Z) as (n & Hpage & Hn & _ & Hlim); [lia|lia|done|].
    rewrite Hpage. exists (S n). split_and!; [done|simpl; lia|lia|]. right. cbn [take page_bytes foldr]. fold (page_bytes (take n l)).
    destruct Hlim as [->|[H1 H2]]; [|lia]. simpl. apply andb_false_iff in Hover. unfold MAX_SNAPSHOT_PAGE_EVENTS in *. lia.
Qed.

Section Facts.
Context (uuid : nat → string) (limits : lifetimes).
Context (uuid_inj : ∀ m n, uuid m = uuid n → m = n).
Abbreviation used := (used uuid).
Abbreviation hub_ok := (hub_ok uuid).

(** The page of the events from [offset]. *)
Definition page_at (all : list event) (offset : nat) (page : SnapshotPage) : Prop :=
  ∃ n, sp_events page = take n (drop offset all) ∧ (offset < length all → 0 < n) ∧ offset + n <= length all ∧
    sp_complete page = bool_decide (offset + n = length all) ∧
    (sp_complete page = false → is_Some (sp_nextPageCursor page)) ∧
    (Z.of_nat n <= MAX_SNAPSHOT_PAGE_EVENTS)%Z ∧ (page_bytes (sp_events page) <= MAX_SNAPSHOT_PAGE_BYTES)%Z.

Lemma build_ok s offset h : Forall page_sized (sb_snapshotEvents (sm_base s)) → offset <= length (sb_snapshotEvents (sm_base s)) →
  ∃ page s' h', buildSnapshotPage uuid s offset h = Ok (page, s', h') ∧ page_at (sb_snapshotEvents (sm_base s)) offset page ∧
    (sp_complete page = true ∧ s' = s ∧ h' = h ∨
     sp_complete page = false ∧ sp_nextPageCursor page = Some (uuid (hb_next h)) ∧ h' = (fresh uuid h).2 ∧
     s' = with_pages (map_set (uuid (hb_next h)) (offset + length (sp_events page)) (sm_pageCursors s)) (sm_pageResults s) (sm_finalPageServed s) s).
Proof.
  set (all := sb_snapshotEvents (sm_base s)). intros Hsized Hle. unfold buildSnapshotPage. fold all.
  destruct (take_page_ok (drop offset all) 0 0) as (n & Hpage & Hn & Hpos & Hlim); [done|done|by apply Forall_drop|].
  rewrite length_drop in Hn. rewrite Hpage. simpl. rewrite length_take, length_drop. replace (n `min` _) with n by lia.
  assert (Hat : ∀ page, sp_events page = take n (drop offset all) → sp_complete page = bool_decide (offset + n = length all) →
    (sp_complete page = false → is_Some (sp_nextPageCursor page)) → page_at all offset page).
  { intros page He Hc Hx. exists n. rewrite He. split_and!; try done; [|lia|..].
    - intros Hlt. apply Hpos; [done|]. intros Hnil. apply (f_equal length) in Hnil. rewrite length_drop in Hnil. simpl in Hnil. lia.
    - unfold MAX_SNAPSHOT_PAGE_EVENTS in *. destruct Hlim as [->|[H _]]; lia.
    - destruct Hlim as [->|[_ H]]; [simpl; unfold MAX_SNAPSHOT_PAGE_BYTES, MAX_CANONICAL_EVENT_BYTES; lia|lia]. }
  destruct (length all <=? offset + n) eqn:Hend.
  - apply Nat.leb_le in Hend. eexists _, s, h. split_and!; [done| |by left]. apply Hat; [done| |done]. symmetry. apply bool_decide_eq_true. lia.
  - apply Nat.leb_gt in Hend. eexists _, _, _. split_and!; [done| |right].
    + apply Hat; [done| |by intros _; eexists]. symmetry. apply bool_decide_eq_false. lia.
    + cbn. split_and!; [done..|]. rewrite length_take, length_drop. by replace (n `min` _) with n by lia.
Qed.

(** A client of the subscription [u] that asks for the page of [cursor]. *)
Record reading (u : string) (b : subscription_base) (since : Z) (cursor : string) (offset : nat) (h : hub) : Prop := {
  rd_ok : hub_ok h;
  rd_unique : ∀ id s, map_get id (hb_subscriptions h) = Some s → sb_snapshotId (sm_base s) = sb_snapshotId b → id = u;
  rd_subscription : ∃ s, map_get u (hb_subscriptions h) = Some s ∧ sm_base s = b ∧ sm_invalidated s = false ∧
    (since <= sm_lastAccessAt s)%Z ∧ map_get cursor (sm_pageCursors s) = Some offset ∧ map_get cursor (sm_pageResults s) = None ∧
    ∀ x, is_Some (map_get x (sm_pageResults s)) → used h x;
  rd_cursor : used h cursor
}.

Lemma find_connection c u s h x : hub_ok h → map_get u (hb_subscriptions h) = Some s → sb_connection (sm_base s) = c →
  sb_snapshotId (sm_base s) = Some x →
  (∀ id s, map_get id (hb_subscriptions h) = Some s → sb_snapshotId (sm_base s) = Some x → id = u) →
  List.find (λ s, bool_decide (sb_snapshotId (sm_base s) = Some x)) (of_connection c h) = Some s.
Proof.
  intros Hok Hs Hc Hx Huniq. destruct (List.find _ _) as [s'|] eqn:Hf.
  - apply List.find_some in Hf as [Hin Hx']. apply bool_decide_eq_true in Hx'. apply list_elem_of_In in Hin.
    apply (connection_member uuid) in Hin as [Hs' _]; [|done]. rewrite (Huniq _ _ Hs' Hx') in Hs'. congruence.
  - apply (List.find_none _ _) with (x := s) in Hf; [by rewrite bool_decide_true in Hf|]. apply list_elem_of_In.
    apply list_elem_of_filter. split; [done|]. apply map_get_Some_elem in Hs. by apply (list_elem_of_fmap_2 snd) in Hs.
Qed.

Definition in_time (since now : Z) : Prop :=
  (since <= now)%Z ∧ (now - since <= snapshotIdleLifetimeMs limits)%Z ∧ (now - since <= snapshotAbsoluteLifetimeMs limits)%Z.

(** One page request. *)
Lemma page_step u b snapshotId cursor offset now h :
  reading u b (sb_createdAt b) cursor offset h → sb_snapshotId b = Some snapshotId → Forall page_sized (sb_snapshotEvents b) →
  offset <= length (sb_snapshotEvents b) → in_time (sb_createdAt b) now →
  ∃ page h', snapshotPage uuid limits now (sb_connection b) snapshotId cursor h = (h', Ok page) ∧
    page_at (sb_snapshotEvents b) offset page ∧
    (sp_complete page = false → ∃ next, sp_nextPageCursor page = Some next ∧
       reading u b (sb_createdAt b) next (offset + length (sp_events page)) h').
Proof using uuid_inj.
  intros [Hok Huniq (s & Hs & <- & Hi & Hsince & Hcur & Hres & Hused) Hc] Hsnap Hsized Hle (Ht1 & Ht2 & Ht3).
  set (b := sm_base s) in *. pose proof (ho_ids _ _ Hok _ _ Hs) as Hid. fold b in Hid.
  assert (Hsafe : hub_ok (snapshotPage uuid limits now (sb_connection b) snapshotId cursor h).1).
  { destruct (safe_page uuid limits uuid_inj now (sb_connection b) snapshotId cursor h Hok) as [H _]. exact H. }
  revert Hsafe. unfold snapshotPage. rewrite (find_connection _ u s) by (done || rewrite <- Hsnap; done).
  rewrite Hres. unfold assertSnapshotAvailable. rewrite Hi. unfold expired. fold b.
  rewrite (proj2 (Z.ltb_ge _ _)) by lia. rewrite (proj2 (Z.ltb_ge _ _)) by lia. rewrite andb_false_r. cbn [orb].
  cbn [sm_pageCursors accessed]. rewrite Hcur.
  destruct (build_ok (accessed now s) offset (put_subscription (accessed now s) h)) as (page & s' & h' & Hb & Hat & Hcase); [done..|].
  rewrite Hb. cbn [fst]. intros Hok'. eexists page, _. split_and!; [done|done|]. intros Hmore.
  destruct Hcase as [(Hf & _)|(_ & Hnext & -> & ->)]; [congruence|]. exists (uuid (hb_next h)). split; [done|].
  assert (Hfresh : ∀ x, used h x → x ≠ uuid (hb_next h)) by (intros x Hx ->; by apply (not_used uuid uuid_inj h)).
  assert (Hmono : ∀ g x, hb_next g = S (hb_next h) → used h x → used g x) by (intros g x Hg; apply used_mono; lia).
  split.
  - exact Hok'.
  - intros id x. rewrite put_get. cbn. fold b. rewrite Hid, map_get_set. case_bool_decide; [intros _ _; congruence|]. apply Huniq.
  - eexists. split; [rewrite put_get; cbn; fold b; by rewrite Hid, bool_decide_true|]. cbn. split_and!; [done|done|lia| | |].
    + by rewrite map_get_set, bool_decide_true.
    + rewrite map_get_set, bool_decide_false by (by apply Hfresh). apply eq_None_not_Some. intros Hx%Hused. by apply Hfresh in Hx.
    + intros x. rewrite map_get_set. case_bool_decide; [intros _; subst; by apply Hmono | intros Hx%Hused; by apply Hmono].
  - exists (hb_next h). cbn. split; [lia|done].
Qed.

Lemma load_pages_ok u b snapshotId times : sb_snapshotId b = Some snapshotId → Forall page_sized (sb_snapshotEvents b) →
  ∀ page offset st st' h, page_at (sb_snapshotEvents b) offset page → Forall (in_time (sb_createdAt b)) times →
  length (sb_snapshotEvents b) <= offset + length times ∨ offset = length (sb_snapshotEvents b) →
  (sp_complete page = false → ∃ next, sp_nextPageCursor page = Some next ∧
     reading u b (sb_createdAt b) next (offset + length (sp_events page)) h) →
  apply_events (drop offset (sb_snapshotEvents b)) st = (st', None) →
  ∃ h' acts, load_pages uuid limits times (sb_connection b) snapshotId page st h = (h', st', Ok tt) ∧
    run uuid limits acts h = (h', []).
Proof using uuid_inj.
  intros Hsnap Hsized. set (all := sb_snapshotEvents b) in *.
  induction times as [|now times IH]; intros page offset st st' h (n & He & Hpos & Hle & Hc & Hnext & _) Htimes Hlen Hread Happ.
  all: assert (Hlen' : length (sp_events page) = n) by (rewrite He, length_take, length_drop; lia).
  all: rewrite <- (take_drop n (drop offset all)), <- He, drop_drop, apply_events_app in Happ.
  all: cbn [load_pages]; destruct (apply_events (sp_events page) st) as [st1 [err|]]; [done|].
  all: destruct (sp_complete page) eqn:Hcomplete.
  1, 3: symmetry in Hc; apply bool_decide_eq_true in Hc; rewrite Hc, drop_all in Happ; injection Happ as <-; by exists h, [].
  - symmetry in Hc. apply bool_decide_eq_false in Hc. simpl in Hlen. lia.
  - symmetry in Hc. apply bool_decide_eq_false in Hc. apply Forall_cons in Htimes as [Hnow Htimes].
    destruct (Hread eq_refl) as (cursor & -> & Hr). rewrite Hlen' in Hr.
    destruct (page_step u b snapshotId cursor (offset + n) now h Hr Hsnap Hsized) as (page' & h1 & Hpage & Hat & Hmore); [fold all; lia|done|].
    rewrite Hpage. destruct (IH page' (offset + n) st1 st' h1) as (h' & acts & Hload & Hrun); [done|done| |done|done|].
    { simpl in Hlen. destruct (decide (offset < length all)); [|lia]. left. specialize (Hpos ltac:(lia)). lia. }
    rewrite Hload. eexists h', (APage now (sb_connection b) snapshotId cursor :: acts). split; [done|]. cbn [run step].
    rewrite Hpage. cbn [fst]. by rewrite Hrun.
Qed.

Lemma subscribe_reading now c sid from h h1 res :
  hub_ok h → subscribe uuid limits now c sid from None h = (h1, Ok res) →
  ∃ v selected b snapshot, map_get sid (hb_sessions h) = Some v ∧ selected_events sid v from = Ok selected ∧
    sr_snapshot res = Some snapshot ∧ sd_eventCount snapshot = length selected ∧
    sb_createdAt b = now ∧ sb_connection b = c ∧ sb_snapshotId b = Some (sd_snapshotId snapshot) ∧ sb_snapshotEvents b = selected ∧
    (Forall page_sized selected → page_at selected 0 (sd_page snapshot) ∧
       (sp_complete (sd_page snapshot) = false → ∃ next, sp_nextPageCursor (sd_page snapshot) = Some next ∧
          reading (sr_subscriptionId res) b now next (length (sp_events (sd_page snapshot))) h1)).
Proof using uuid_inj.
  intros Hok Hsub. pose proof (subscribe_new uuid limits uuid_inj now c sid from None h Hok) as Hnew. rewrite Hsub in Hnew. cbn [fst] in Hnew.
  unfold subscribe in Hsub. destruct (fresh uuid h) as [u h0] eqn:Ef.
  destruct (fresh_ok uuid uuid_inj h u h0 Hok Ef) as (Hok0 & _ & Hs0 & _ & _ & Hu & Hused & Hnot & _). rewrite Hs0 in Hsub.
  destruct (map_get sid (hb_sessions h)) as [v|] eqn:Hv; [|done]. destruct (sv_open v); [|done].
  destruct (selected_events sid v from) as [selected|] eqn:Hsel; [|done]. exists v, selected.
  unfold subscribe_snapshot in Hsub. destruct (fresh uuid h0) as [snapshotId h2] eqn:Ef2.
  destruct (fresh_ok uuid uuid_inj h0 snapshotId h2 Hok0 Ef2) as (Hok2 & _ & _ & Hsub2 & _ & Hsn & Hused2 & _ & Hstep2).
  destruct (createCursor _ _ _ _ _ _ _ h2) as [boundary h3] eqn:Ec.
  destruct (create_step _ _ uuid_inj _ _ _ _ _ _ _ _ Ec) as (Hc3 & _).
  match type of Hsub with context [put_subscription ?x h3] => set (s0 := x) in * end.
  destruct (buildSnapshotPage uuid s0 0 _) as [[[page s1] h4]|] eqn:Eb; [|done]. injection Hsub as <- <-.
  exists (sm_base s0). eexists. split_and!; try done. intros Hsized.
  destruct (build_ok s0 0 (put_subscription s0 h3) Hsized) as (page' & s' & h' & Hb & Hat & Hcase); [simpl; lia|].
  rewrite Eb in Hb. injection Hb as <- <- <-. split; [exact Hat|]. intros Hmore. cbn in Hmore |- *.
  destruct Hcase as [(Hf & _)|(_ & Hnext & -> & ->)]; [congruence|]. exists (uuid (hb_next h3)). split; [done|].
  assert (Hlt : hb_next h2 <= hb_next h3) by apply Hc3.
  split.
  - apply Hnew.
  - intros id x. rewrite put_get. cbn. rewrite map_get_set. case_bool_decide as Hid; [by intros [= <-]|].
    intros Hx Hsnap. rewrite (cs_subscriptions _ _ _ Hc3), Hsub2 in Hx. exfalso. 
    pose proof (ho_snapshots _ _ Hok0 _ _ _ Hx Hsnap) as Hbad. rewrite Hsn in Hbad. by apply (not_used uuid uuid_inj h0).
  - eexists. split; [rewrite put_get; by rewrite bool_decide_true|]. cbn. split_and!; [done|done|lia| |done|].
    + by rewrite bool_decide_true.
    + intros x [y Hy]. done.
  - exists (hb_next h3). cbn. split; [lia|done].
Qed.

(** What a client is pushed, received. *)
Lemma receive_pushed ps : ∀ l k cl st, pushed (cl_subscriptionId cl) ps = numbered k l → cl_sequence cl = Z.of_nat k →
  apply_events l (cl_projector cl) = (st, None) →
  receive_all ps cl = ({| cl_projector := st; cl_subscriptionId := cl_subscriptionId cl; cl_sequence := Z.of_nat (k + length l) |}, None).
Proof.
  induction ps as [|d ps IH]; intros l k cl st Hp Hk Happ.
  - destruct l; [|done]. injection Happ as <-. rewrite Nat.add_0_r, <- Hk. by destruct cl.
  - assert (Hskip : pushed (cl_subscriptionId cl) (d :: ps) = pushed (cl_subscriptionId cl) ps → receive d cl = (cl, Ok None) →
      receive_all (d :: ps) cl = ({| cl_projector := st; cl_subscriptionId := cl_subscriptionId cl; cl_sequence := Z.of_nat (k + length l) |}, None)).
    { intros He Hr. cbn [receive_all]. rewrite Hr. apply IH; [by rewrite <- He|done|done]. }
    destruct d as [id sid n c e|]; [|by apply Hskip]. destruct (decide (id = cl_subscriptionId cl)) as [Hid|Hid].
    + unfold pushed in Hp. cbn in Hp. rewrite bool_decide_true in Hp by done. destruct l as [|x l]; [done|].
      cbn in Hp. injection Hp as Hn -> Hp. cbn [receive_all receive]. rewrite bool_decide_true by done. cbn [negb].
      rewrite (proj2 (Z.eqb_eq _ _)) by lia. cbn [negb]. cbn [apply_events] in Happ.
      destruct (applyEvent x (cl_projector cl)) as [st1 [r|]]; [|done].
      rewrite (IH l (S k) _ st); [cbn [cl_subscriptionId length]; do 3 f_equal; lia| |cbn; lia|exact Happ].
      cbn [cl_subscriptionId]. etransitivity; [exact Hp|]. apply imap_ext. intros i y _. cbn. f_equal. lia.
    + apply Hskip; [unfold pushed; cbn; by rewrite bool_decide_false|]. cbn. by rewrite bool_decide_false.
Qed.


Lemma apply_known sid log l st : showing sid log st → log_ok sid log → Forall (λ e, e ∈ log) l → apply_events l st = (st, None).
Proof.
  intros Hs Hlog. induction 1 as [|e l He Hl IH]; [done|]. cbn [apply_events]. by rewrite (apply_again sid log).
Qed.

(** Events sent again, and then the next ones. *)
Lemma apply_overlap sid log m i j st : log_ok sid log → displayable log → showing sid (take m log) st → i <= m →
  ∃ st', apply_events (take j (drop i log)) st = (st', None) ∧ showing sid (take (m `max` (i + j)) log) st'.
Proof.
  intros Hlog Hd Hs Hi.
  assert (Hknown : ∀ k, i + k <= m → apply_events (take k (drop i log)) st = (st, None)).
  { intros k Hk. apply (apply_known sid (take m log)); [done|by apply log_take|]. apply Forall_forall.
    intros e (x & Hx & Hlt)%elem_of_take. rewrite lookup_drop in Hx. apply elem_of_take. exists (i + x). split; [done|lia]. }
  destruct (decide (i + j <= m)) as [Hle|Hgt].
  - exists st. rewrite Hknown by lia. by replace (m `max` (i + j)) with m by lia.
  - assert (Hsplit : take j (drop i log) = take (m - i) (drop i log) ++ take (i + j - m) (drop m log)).
    { replace j with ((m - i) + (i + j - m)) at 1 by lia. destruct (decide (m <= length log)).
      - rewrite take_drop_app by lia. by replace (i + (m - i)) with m by lia.
      - rewrite (drop_ge log m) by lia. rewrite take_nil, app_nil_r, !take_ge by (rewrite length_drop; lia). done. }
    rewrite Hsplit, apply_events_app, Hknown by lia.
    destruct (apply_more sid log m (i + j - m) st) as (st' & Ha & Hsh); [done..|]. exists st'. split; [done|].
    by replace (m `max` (i + j)) with (m + (i + j - m)) by lia.
Qed.

End Facts.

(** ** A sample run *)

Lemma shown_prefix_ok n : log_ok "s" (take n shown_log) ∧ displayable (take n shown_log).
Proof.
  destruct shown_log_ok as (Hlog & _ & Hd). split; [by apply log_take|].
  rewrite <- (take_drop n shown_log) in Hd. by apply displayable_app in Hd.
Qed.

Definition shown_projector (n : nat) : projector := (apply_events (take n shown_log) (new_projector (Some "s") None)).1.

Lemma shown_projector_ok n : showing "s" (take n shown_log) (shown_projector n).
Proof.
  destruct (shown_prefix_ok n) as [Hlog Hd]. unfold shown_projector.
  destruct (apply_log "s" (take n shown_log) (new_projector (Some "s") None)) as (st & -> & Hs); [apply new_showing|done..].
Qed.


(** The client leaves after the second of its pushes, and comes back for the other three. *)
Definition second_cursor : string :=
  match pushes_of (sr_subscriptionId (granted sample_subscribed)) (run tally sample_limits sample_acts sample_subscribed.1).2 !! 1 with
  | Some (_, c, _) => c | None => "" end.
Definition leaving_acts : list action :=
  sample_acts ++ [AAcknowledge 9 7 (sr_subscriptionId (granted sample_subscribed)) second_cursor; ADisconnect 10 7].
Definition left_hub : hub := (run tally sample_limits leaving_acts sample_subscribed.1).1.
Definition sample_resumed := subscribe tally sample_limits 11 8 "s" None (Some second_cursor) left_hub.

