(* ===== verification/SessionQueue.v ===== *)
(** daemon/src/session-manager.ts: who owns the branch of a session, and its queue of
    prompts. Every operation is cut where it awaits: an action is what runs between two
    awaits, and any order of actions is a run. *)
From stdpp Require Import base list sets strings.
From Stdlib Require Import ZArith Lia Ascii.
From S2P Require Import Prelude Text JsValue Envelope Types Events JsMap EventLog.

(** ** The state of a managed session *)

Inductive turn_kind := KTurn | KShell | KCompaction.
#[export] Instance turn_kind_eq_dec : EqDecision turn_kind.
Proof. solve_decision. Defined.

Record ActiveTurn := { at_kind : turn_kind; at_operationId : string }.

Record QueuedTurn := {
  qt_queueItemId : string;
  qt_operationId : string;
  qt_content : list content;
  qt_priority : Priority
}.

(** [interruptDelivery] *)
Record delivery_claim := { dc_operationId : string; dc_targetOperationId : option string }.

(** What a call of [send] awaits: the ownership of the blobs of its content, the append of
    [abortRecoveredTurn], the turn it started. *)
Inductive sending := Checking (content : list content) | AbortingRecovered | Running.

(** What [drainQueue] awaits; [Started]: the append of [queue.started] is done, [Next]: the
    last [await] of the loop is. *)
Inductive draining :=
| NotDraining
| RecordingStart (q : QueuedTurn)
| Started (q : QueuedTurn)
| SendingQueued (q : QueuedTurn) (s : sending)
| RecordingError (q : QueuedTurn)
| Next.

(** What [interruptAndDeliver] awaits. *)
Inductive delivering :=
| CheckingDelivery
| RecordingRequest
| RecordingInterrupting
| AwaitingTarget
| AbortingTarget
| SendingDelivery (s : sending)
| RecordingDelivered
| RecordingFailed (code : string).

(** The requests that are being handled, and what each awaits. *)
Inductive call :=
| CheckingPrompt (operationId : string) (content : list content) (priority : Priority)
| RecordingPrompt (operationId : string) (content : list content) (priority : Priority)
| RecordingRequeue (operationId : string) (q : QueuedTurn)
| PromptRecorded (q : QueuedTurn)
| Sending (operationId : string) (s : sending)
| Operating (kind : turn_kind) (operationId : string)
| Rebuilding (operationId : string)
| Delivering (operationId : string) (content : list content) (target : option string) (d : delivering).

Record managed := {
  mg_events : list event;
  mg_queue : list QueuedTurn;
  mg_draining : draining;
  mg_activeTurn : option ActiveTurn;
  mg_interruptDelivery : option delivery_claim;
  mg_rebuilding : bool;
  mg_disposing : bool;
  mg_stopping : bool;
  mg_calls : list call;
  mg_recovering : list (string * string);
  mg_next : nat
}.

Definition with_log (events : list event) (next : nat) (m : managed) : managed :=
  {| mg_events := events; mg_queue := mg_queue m; mg_draining := mg_draining m; mg_activeTurn := mg_activeTurn m;
     mg_interruptDelivery := mg_interruptDelivery m; mg_rebuilding := mg_rebuilding m; mg_disposing := mg_disposing m;
     mg_stopping := mg_stopping m; mg_calls := mg_calls m; mg_recovering := mg_recovering m; mg_next := next |}.
Definition with_queue (queue : list QueuedTurn) (d : draining) (m : managed) : managed :=
  {| mg_events := mg_events m; mg_queue := queue; mg_draining := d; mg_activeTurn := mg_activeTurn m;
     mg_interruptDelivery := mg_interruptDelivery m; mg_rebuilding := mg_rebuilding m; mg_disposing := mg_disposing m;
     mg_stopping := mg_stopping m; mg_calls := mg_calls m; mg_recovering := mg_recovering m; mg_next := mg_next m |}.
Definition with_active (active : option ActiveTurn) (m : managed) : managed :=
  {| mg_events := mg_events m; mg_queue := mg_queue m; mg_draining := mg_draining m; mg_activeTurn := active;
     mg_interruptDelivery := mg_interruptDelivery m; mg_rebuilding := mg_rebuilding m; mg_disposing := mg_disposing m;
     mg_stopping := mg_stopping m; mg_calls := mg_calls m; mg_recovering := mg_recovering m; mg_next := mg_next m |}.
Definition with_claim (claim : option delivery_claim) (m : managed) : managed :=
  {| mg_events := mg_events m; mg_queue := mg_queue m; mg_draining := mg_draining m; mg_activeTurn := mg_activeTurn m;
     mg_interruptDelivery := claim; mg_rebuilding := mg_rebuilding m; mg_disposing := mg_disposing m;
     mg_stopping := mg_stopping m; mg_calls := mg_calls m; mg_recovering := mg_recovering m; mg_next := mg_next m |}.
Definition with_flags (rebuilding disposing stopping : bool) (m : managed) : managed :=
  {| mg_events := mg_events m; mg_queue := mg_queue m; mg_draining := mg_draining m; mg_activeTurn := mg_activeTurn m;
     mg_interruptDelivery := mg_interruptDelivery m; mg_rebuilding := rebuilding; mg_disposing := disposing;
     mg_stopping := stopping; mg_calls := mg_calls m; mg_recovering := mg_recovering m; mg_next := mg_next m |}.
Definition with_calls (calls : list call) (m : managed) : managed :=
  {| mg_events := mg_events m; mg_queue := mg_queue m; mg_draining := mg_draining m; mg_activeTurn := mg_activeTurn m;
     mg_interruptDelivery := mg_interruptDelivery m; mg_rebuilding := mg_rebuilding m; mg_disposing := mg_disposing m;
     mg_stopping := mg_stopping m; mg_calls := calls; mg_recovering := mg_recovering m; mg_next := mg_next m |}.
Definition with_recovering (recovering : list (string * string)) (m : managed) : managed :=
  {| mg_events := mg_events m; mg_queue := mg_queue m; mg_draining := mg_draining m; mg_activeTurn := mg_activeTurn m;
     mg_interruptDelivery := mg_interruptDelivery m; mg_rebuilding := mg_rebuilding m; mg_disposing := mg_disposing m;
     mg_stopping := mg_stopping m; mg_calls := mg_calls m; mg_recovering := recovering; mg_next := mg_next m |}.

Definition draining_now (m : managed) : bool := match mg_draining m with NotDraining => false | _ => true end.
Definition owned (m : managed) : bool := bool_decide (is_Some (mg_activeTurn m)).
Definition claimed (m : managed) : bool := bool_decide (is_Some (mg_interruptDelivery m)).

(** ** What the log tells *)

Definition of_op (op : string) (e : event) : bool := bool_decide (ev_operationId e = Some op).

(** The last event of a turn. *)
Definition is_terminal (e : event) : bool :=
  match ev_payload e with
  | AssistantMessage _ stop _ _ => negb (bool_decide (stop = SToolUse))
  | SessionErrorP _ _ _ _ => true
  | _ => false
  end.
Definition is_message (e : event) : bool := match ev_payload e with UserMessage _ => true | _ => false end.

Definition has_terminal (op : string) (events : list event) : bool := existsb (λ e, of_op op e && is_terminal e) events.
Definition has_message (op : string) (events : list event) : bool := existsb (λ e, of_op op e && is_message e) events.

Definition has_blob (items : list content) : bool := existsb (λ c, match c with CBlob _ => true | _ => false end) items.

(** The event that put an item in the queue: its operation and its content. *)
Definition enqueues (x : string) (e : event) : bool :=
  match ev_payload e with QueueEnqueued _ _ => bool_decide (ev_id e = x) | _ => false end.
Definition find_enqueued (x : string) (events : list event) : option (string * list content) :=
  match List.find (enqueues x) events with
  | Some e => match ev_operationId e, ev_payload e with Some op, QueueEnqueued items _ => Some (op, items) | _, _ => None end
  | None => None
  end.

(** The items an event is about, and whether it pauses them. *)
Definition moves_item (x : string) (e : event) : option bool :=
  match ev_payload e with
  | QueueRequeued id _ | QueueStarted id => if bool_decide (id = x) then Some false else None
  | QueuePaused id => if bool_decide (id = x) then Some true else None
  | _ => None
  end.

(** The items that wait in the log, with their operations ([pauseRecoveredQueue]). *)
Definition pending_step (events : list event) (pending : list (string * string)) (e : event) : list (string * string) :=
  match ev_payload e with
  | QueueEnqueued _ _ => match ev_operationId e with Some op => map_set (ev_id e) op pending | None => pending end
  | QueueStarted id | QueuePaused id => map_delete id pending
  | QueueRequeued id _ => match find_enqueued id events with Some (op, _) => map_set id op pending | None => pending end
  | _ => pending
  end.
Definition pending_items (events : list event) : list (string * string) := fold_left (pending_step events) events [].

(** Whether the last event about an item pauses it. *)
Definition is_paused (x : string) (events : list event) : bool :=
  bool_decide (last (omap (moves_item x) events) = Some true).

(** ** Operations *)

Inductive answer :=
| AnsQueued (queueItemId : string)
| AnsDone (operationId : string)
| AnsFailed (operationId code : string).

Section Session.
Context (sessionId : string) (uuid : nat → string) (parent : nat → option string) (timestamp : nat → Z)
  (messageOf : string → string).

(** An append of the kernel that returns. *)
Definition record (operationId : option string) (p : payload) (m : managed) : managed :=
  with_log (mg_events m ++ [{| ev_id := uuid (mg_next m); ev_sessionId := sessionId; ev_operationId := operationId;
                              ev_parentId := parent (mg_next m); ev_timestamp := timestamp (mg_next m); ev_payload := p |}])
    (S (mg_next m)) m.

(** *** [send] *)

Inductive sent := SendReturned | SendThrew (code : string) | SendAwaits (s : sending).

(** [send] from its blob checks on: the guards, and the branch is taken. *)
Definition enter_turn (op : string) (m : managed) : managed * sent :=
  if mg_stopping m then (m, SendThrew "cancelled")
  else if mg_disposing m then (m, SendThrew "cancelled")
  else if owned m || mg_rebuilding m
          || match mg_interruptDelivery m with
             | Some c => negb (bool_decide (dc_operationId c = op)) && negb (bool_decide (dc_targetOperationId c = Some op))
             | None => false
             end
  then (m, SendThrew "operation_active")
  else (with_active (Some {| at_kind := KTurn; at_operationId := op |}) m, SendAwaits Running).

Definition send (op : string) (items : list content) (m : managed) : managed * sent :=
  if mg_stopping m then (m, SendThrew "cancelled")
  else if has_terminal op (mg_events m) then (m, SendReturned)
  else if has_message op (mg_events m) then (m, SendAwaits AbortingRecovered)
  else if has_blob items then (m, SendAwaits (Checking items))
  else enter_turn op m.

(** [if (managed.activeTurn === active) delete managed.activeTurn] *)
Definition release_turn (op : string) (m : managed) : managed :=
  match mg_activeTurn m with
  | Some a => if bool_decide (at_operationId a = op) then with_active None m else m
  | None => m
  end.

(** *** The queue *)

(** The [while] of [drainQueue], from its condition to the next [await]. *)
Definition drain_next (m : managed) : managed :=
  if mg_stopping m || mg_disposing m || owned m || mg_rebuilding m then with_queue (mg_queue m) NotDraining m
  else match mg_queue m with
       | [] => with_queue [] NotDraining m
       | q :: rest => with_queue rest (RecordingStart q) m
       end.

Definition drainQueue (m : managed) : managed :=
  if mg_stopping m || draining_now m || owned m || mg_rebuilding m || mg_disposing m then m else drain_next m.

Definition startQueueDrain (m : managed) : managed :=
  if mg_stopping m || mg_disposing m || draining_now m || claimed m then m else drainQueue m.

(** [drainQueue] rejects: the session is stopped. *)
Definition drain_fails (m : managed) : managed :=
  with_flags (mg_rebuilding m) true (mg_stopping m) (with_queue (mg_queue m) NotDraining m).

(** What a settled [await] of [send] comes to; [None]: the turn is not over, as it returns
    with its last event in the log. *)
Definition send_settles (op : string) (s : sending) (ok : bool) (m : managed) : option (managed * sent) :=
  match s with
  | Checking _ => Some (if ok then enter_turn op m else (m, SendThrew "blob_unavailable"))
  | AbortingRecovered =>
      Some (if ok then (record (Some op) (AssistantMessage [] SAborted None
                          (Some "Operation was aborted because the daemon restarted before recording completion.")) m, SendReturned)
            else (m, SendThrew "internal_error"))
  | Running =>
      if ok && negb (has_terminal op (mg_events m)) then None
      else Some (startQueueDrain (release_turn op m), if ok then SendReturned else SendThrew "internal_error")
  end.

(** [drainQueue] after its call of [send]. *)
Definition drain_sent (q : QueuedTurn) (r : managed * sent) : managed :=
  let '(m, r) := r in
  with_queue (mg_queue m)
    (match r with SendReturned => Next | SendThrew _ => RecordingError q | SendAwaits s => SendingQueued q s end) m.

(** [drainQueue] goes on. *)
Definition drain_step (ok : bool) (m : managed) : managed :=
  match mg_draining m with
  | NotDraining => m
  | RecordingStart q =>
      if ok then
        let m := record (Some (qt_operationId q)) (QueueStarted (qt_queueItemId q)) m in
        with_queue (mg_queue m) (Started q) m
      else drain_fails m
  | Started q => drain_sent q (send (qt_operationId q) (qt_content q) m)
  | SendingQueued q s =>
      match send_settles (qt_operationId q) s ok m with
      | Some r => drain_sent q r
      | None => m
      end
  | RecordingError q =>
      if ok then
        let m := record (Some (qt_operationId q)) (SessionErrorP "queued_prompt_failed" "Queued prompt execution failed" false None) m in
        with_queue (mg_queue m) Next m
      else drain_fails m
  | Next => drain_next m
  end.

(** An entry joins the queue, and the queue is drained. *)
Definition push_entry (q : QueuedTurn) (m : managed) : managed :=
  startQueueDrain (with_queue (match qt_priority q with Front => q :: mg_queue m | Back => mg_queue m ++ [q] end) (mg_draining m) m).

(** *** [interruptAndDeliver] *)

(** How a slice of a request leaves it. *)
Inductive outcome := Goes (c : call) | Ends (a : answer).

Definition reserveInterruptDelivery (op : string) (target : option string) (m : managed) : managed * bool :=
  match mg_interruptDelivery m with
  | Some c => if bool_decide (dc_operationId c = op) then (with_claim (Some {| dc_operationId := op; dc_targetOperationId := target |}) m, true)
              else (m, false)
  | None => (with_claim (Some {| dc_operationId := op; dc_targetOperationId := target |}) m, true)
  end.

Definition releaseInterruptDelivery (op : string) (m : managed) : managed :=
  match mg_interruptDelivery m with
  | Some c => if bool_decide (dc_operationId c = op) then startQueueDrain (with_claim None m) else m
  | None => m
  end.

Definition is_requested (e : event) : bool := match ev_payload e with InterruptRequested _ _ => true | _ => false end.
Definition is_update (state : InterruptState) (e : event) : bool :=
  match ev_payload e with InterruptUpdated s _ _ => bool_decide (s = state) | _ => false end.
Definition has_event (test : event → bool) (op : string) (events : list event) : bool :=
  existsb (λ e, of_op op e && test e) events.

(** The [finally] of [interruptAndDeliver], and its end. *)
Definition end_delivery (op : string) (a : answer) (m : managed) : managed * outcome := (releaseInterruptDelivery op m, Ends a).

(** Its [catch]. *)
Definition fail_delivery (op : string) (items : list content) (target : option string) (code : string) (m : managed) : managed * outcome :=
  if has_event is_requested op (mg_events m) && negb (has_event (is_update InterruptFailed) op (mg_events m))
  then (m, Goes (Delivering op items target (RecordingFailed code)))
  else end_delivery op (AnsFailed op code) m.

(** After its call of [send]. *)
Definition delivery_sent (op : string) (items : list content) (target : option string) (r : managed * sent) : managed * outcome :=
  let '(m, r) := r in
  match r with
  | SendThrew code => fail_delivery op items target code m
  | SendAwaits s => (m, Goes (Delivering op items target (SendingDelivery s)))
  | SendReturned =>
      if negb (has_message op (mg_events m)) then fail_delivery op items target "corrupt_session" m
      else if has_event (is_update Delivered) op (mg_events m) then end_delivery op (AnsDone op) m
      else (m, Goes (Delivering op items target RecordingDelivered))
  end.

(** The target of the interrupt is aborted: a turn that runs, or one a crash left open. *)
Definition interrupt_target (op : string) (items : list content) (target : option string) (t : string) (m : managed) : managed * outcome :=
  if match mg_activeTurn m with Some a => bool_decide (at_operationId a = t) | None => false end
  then (m, Goes (Delivering op items target AwaitingTarget))
  else if negb (has_terminal t (mg_events m)) && has_message t (mg_events m)
  then (m, Goes (Delivering op items target AbortingTarget))
  else delivery_sent op items target (send op items m).

(** From the record of the request on. *)
Definition delivery_requested (op : string) (items : list content) (target : option string) (m : managed) : managed * outcome :=
  match target with
  | None => delivery_sent op items target (send op items m)
  | Some t =>
      if has_event (is_update Interrupting) op (mg_events m) then interrupt_target op items target t m
      else (m, Goes (Delivering op items target RecordingInterrupting))
  end.

(** The branch is claimed, after the blob checks. *)
Definition claim_delivery (op : string) (items : list content) (target : option string) (m : managed) : managed * outcome :=
  let m := with_claim (Some {| dc_operationId := op; dc_targetOperationId := target |}) m in
  if has_event is_requested op (mg_events m) then delivery_requested op items target m
  else (m, Goes (Delivering op items target RecordingRequest)).

Definition interruptAndDeliver (op : string) (items : list content) (target : option string) (m : managed) : managed * outcome :=
  if mg_stopping m then (m, Ends (AnsFailed op "cancelled"))
  else if has_event (is_update Delivered) op (mg_events m) && has_terminal op (mg_events m) then (m, Ends (AnsDone op))
  else if match mg_interruptDelivery m with Some c => negb (bool_decide (dc_operationId c = op)) | None => false end
  then (m, Ends (AnsFailed op "operation_active"))
  else if has_blob items then (m, Goes (Delivering op items target CheckingDelivery))
  else claim_delivery op items target m.

Definition delivery_settles (op : string) (items : list content) (target : option string) (d : delivering) (ok : bool) (m : managed) :
    option (managed * outcome) :=
  match d with
  | CheckingDelivery => Some (if ok then claim_delivery op items target m else (m, Ends (AnsFailed op "blob_unavailable")))
  | RecordingRequest =>
      Some (if ok then delivery_requested op items target (record (Some op) (InterruptRequested items target) m)
            else end_delivery op (AnsFailed op "internal_error") m)
  | RecordingInterrupting =>
      Some (if ok then
              let m := record (Some op) (InterruptUpdated Interrupting target None) m in
              match target with
              | Some t => interrupt_target op items target t m
              | None => delivery_sent op items target (send op items m)
              end
            else fail_delivery op items target "internal_error" m)
  | AwaitingTarget =>
      if match mg_activeTurn m, target with Some a, Some t => bool_decide (at_operationId a = t) | _, _ => false end then None
      else Some (delivery_sent op items target (send op items m))
  | AbortingTarget =>
      Some (match ok, target with
            | true, Some t =>
                let m := record (Some t) (AssistantMessage [] SAborted None
                           (Some "Operation was aborted because the daemon restarted before recording completion.")) m in
                delivery_sent op items target (send op items m)
            | _, _ => fail_delivery op items target "internal_error" m
            end)
  | SendingDelivery s => delivery_sent op items target <$> send_settles op s ok m
  | RecordingDelivered =>
      Some (if ok then end_delivery op (AnsDone op) (record (Some op) (InterruptUpdated Delivered target None) m)
            else fail_delivery op items target "internal_error" m)
  | RecordingFailed code =>
      Some (if ok then end_delivery op (AnsFailed op code) (record (Some op) (InterruptUpdated InterruptFailed target (Some (messageOf code))) m)
            else end_delivery op (AnsFailed op "internal_error") m)
  end.

(** *** Requests *)

Inductive request :=
| Enqueue (operationId : string) (items : list content) (priority : Priority)
| Requeue (operationId queueItemId : string) (priority : Priority)
| Send (operationId : string) (items : list content)
| Compact (operationId : string)
| Shell (operationId command : string) (excluded : bool)
| Reload (operationId : string)
| Configure (operationId : string)
| InterruptAndDeliver (operationId : string) (items : list content) (target : option string).

Definition branch_taken (m : managed) : bool := owned m || mg_rebuilding m || claimed m.

Definition enqueue (op : string) (items : list content) (priority : Priority) (m : managed) : managed * outcome :=
  match List.find (λ e, match ev_payload e with QueueEnqueued _ _ => of_op op e | _ => false end) (mg_events m) with
  | Some prior => (m, Ends (AnsQueued (ev_id prior)))
  | None => (m, Goes (if has_blob items then CheckingPrompt op items priority else RecordingPrompt op items priority))
  end.

Definition requeue (op x : string) (priority : Priority) (m : managed) : managed * outcome :=
  if existsb (λ e, match ev_payload e with QueueRequeued _ _ => of_op op e | _ => false end) (mg_events m) then (m, Ends (AnsQueued x))
  else
    match find_enqueued x (mg_events m) with
    | None => (m, Ends (AnsFailed op "unknown_queue_item"))
    | Some (queued_op, items) =>
        if is_paused x (mg_events m)
        then (m, Goes (RecordingRequeue op {| qt_queueItemId := x; qt_operationId := queued_op; qt_content := items; qt_priority := priority |}))
        else (m, Ends (AnsFailed op "queue_not_paused"))
    end.

Definition sent_outcome (op : string) (r : managed * sent) : managed * outcome :=
  let '(m, r) := r in
  (m, match r with SendReturned => Ends (AnsDone op) | SendThrew code => Ends (AnsFailed op code) | SendAwaits s => Goes (Sending op s) end).

(** [compact], and [shell] when it runs its command. *)
Definition begin_operation (kind : turn_kind) (op : string) (m : managed) : managed * outcome :=
  if branch_taken m then (m, Ends (AnsFailed op "operation_active"))
  else (with_active (Some {| at_kind := kind; at_operationId := op |}) m, Goes (Operating kind op)).

(** The event [shell] would record for the largest output: it is encoded before the command runs. *)
Definition shell_event (op command : string) (excluded : bool) (m : managed) : event :=
  {| ev_id := uuid (mg_next m); ev_sessionId := sessionId; ev_operationId := Some op; ev_parentId := ev_id <$> last (mg_events m);
     ev_timestamp := timestamp (mg_next m);
     ev_payload := UserShell command
       [CBlob {| blob_sha256 := "0000000000000000000000000000000000000000000000000000000000000000"; blob_mediaType := "application/octet-stream";
                 blob_sizeBytes := 20971520; blob_name := None |}] false excluded |}.

Definition shell (op command : string) (excluded : bool) (m : managed) : managed * outcome :=
  match List.find (λ e, match ev_payload e with UserShell _ _ _ _ => of_op op e | _ => false end) (mg_events m) with
  | Some recorded =>
      match ev_payload recorded with
      | UserShell command' _ _ excluded' =>
          (m, Ends (if bool_decide (command' ≠ command) || bool_decide (excluded' ≠ excluded) then AnsFailed op "idempotency_conflict" else AnsDone op))
      | _ => (m, Ends (AnsDone op))
      end
  | None =>
      match encodeCanonicalEvent (event_value (shell_event op command excluded m)) with
      | Ok _ => begin_operation KShell op m
      | Err (EncodeSize _) => (m, Ends (AnsFailed op "content_too_large"))
      | Err (EncodeInvalid _) => (m, Ends (AnsFailed op "internal_error"))
      end
  end.

(** [rebuild], for [reload] and [configure]. *)
Definition rebuild (op : string) (m : managed) : managed * outcome :=
  (with_flags true (mg_disposing m) (mg_stopping m) m, Goes (Rebuilding op)).

Definition reload (op : string) (m : managed) : managed * outcome :=
  if branch_taken m then (m, Ends (AnsFailed op "operation_active"))
  else if existsb (of_op op) (mg_events m) then (m, Ends (AnsDone op)) else rebuild op m.

Definition configure (op : string) (m : managed) : managed * outcome :=
  if existsb (of_op op) (mg_events m) then (m, Ends (AnsDone op))
  else if branch_taken m then (m, Ends (AnsFailed op "operation_active")) else rebuild op m.

Definition on_request (r : request) (m : managed) : managed * outcome :=
  match r with
  | Enqueue op items priority => enqueue op items priority m
  | Requeue op x priority => requeue op x priority m
  | Send op items => sent_outcome op (send op items m)
  | Compact op => begin_operation KCompaction op m
  | Shell op command excluded => shell op command excluded m
  | Reload op => reload op m
  | Configure op => configure op m
  | InterruptAndDeliver op items target => interruptAndDeliver op items target m
  end.

(** A request whose [await] has settled goes on; [None]: it has not settled yet. *)
Definition call_settles (c : call) (ok : bool) (m : managed) : option (managed * outcome) :=
  match c with
  | CheckingPrompt op items priority =>
      Some (m, if ok then Goes (RecordingPrompt op items priority) else Ends (AnsFailed op "blob_unavailable"))
  | RecordingPrompt op items priority =>
      Some (if ok then (record (Some op) (QueueEnqueued items priority) m,
                        Goes (PromptRecorded {| qt_queueItemId := uuid (mg_next m); qt_operationId := op; qt_content := items; qt_priority := priority |}))
            else (m, Ends (AnsFailed op "internal_error")))
  | RecordingRequeue op q =>
      Some (if ok then (record (Some op) (QueueRequeued (qt_queueItemId q) (qt_priority q)) m, Goes (PromptRecorded q))
            else (m, Ends (AnsFailed op "internal_error")))
  | PromptRecorded q => Some (push_entry q m, Ends (AnsQueued (qt_queueItemId q)))
  | Sending op s => sent_outcome op <$> send_settles op s ok m
  | Operating _ op =>
      Some (startQueueDrain (release_turn op m), Ends (if ok then AnsDone op else AnsFailed op "internal_error"))
  | Rebuilding op => Some (with_flags false (mg_disposing m) (mg_stopping m) m, Ends (if ok then AnsDone op else AnsFailed op "internal_error"))
  | Delivering op items target d => delivery_settles op items target d ok m
  end.

(** ** Runs *)

Inductive action :=
| ARequest (r : request)
| ASettle (i : nat) (ok : bool)
| ADrain (ok : bool)
| ATurnEvent (p : payload)
| AOther (operationId : option string) (p : payload)
| ARecover (ok : bool)
| AReserve (operationId : string) (target : option string)
| ARelease (operationId : string)
| AStop
| ADispose
| ARestart (opening : list (option string * payload)).

Definition call_operation (c : call) : option string :=
  match c with
  | CheckingPrompt op _ _ | RecordingPrompt op _ _ | RecordingRequeue op _ | Sending op _ | Operating _ op | Rebuilding op | Delivering op _ _ _ => Some op
  | PromptRecorded _ => None
  end.
Definition request_operation (r : request) : string :=
  match r with
  | Enqueue op _ _ | Requeue op _ _ | Send op _ | Compact op | Shell op _ _ | Reload op | Configure op | InterruptAndDeliver op _ _ => op
  end.

(** Events that the kernel appends on its own: not those of the queue and of interrupts. *)
Definition kernel_payload (p : payload) : bool :=
  match p with
  | QueueEnqueued _ _ | QueueRequeued _ _ | QueueStarted _ | QueuePaused _ | InterruptRequested _ _ | InterruptUpdated _ _ _ => false
  | _ => true
  end.
(** Those it appends outside turns. *)
Definition quiet_payload (p : payload) : bool :=
  kernel_payload p && match p with UserMessage _ | AssistantMessage _ _ _ _ | SessionErrorP _ _ _ _ => false | _ => true end.

Definition keep (c : option call) (i : nat) (calls : list call) : list call :=
  match c with Some c => <[i := c]> calls | None => take i calls ++ drop (S i) calls end.

Fixpoint record_all (l : list (option string * payload)) (m : managed) : managed :=
  match l with
  | [] => m
  | (op, p) :: rest => record_all rest (if quiet_payload p then record op p m else m)
  end.

(** The session is opened again: its memory is that of the log ([open]). *)
Definition reopened (m : managed) : managed :=
  {| mg_events := mg_events m; mg_queue := []; mg_draining := NotDraining; mg_activeTurn := None; mg_interruptDelivery := None;
     mg_rebuilding := false; mg_disposing := false; mg_stopping := false; mg_calls := []; mg_recovering := pending_items (mg_events m);
     mg_next := mg_next m |}.

(** The next item of [pauseRecoveredQueue]; when an append fails it throws. *)
Definition recover (ok : bool) (m : managed) : managed :=
  match mg_recovering m with
  | [] => m
  | (x, op) :: rest => if ok then with_recovering rest (record (Some op) (QueuePaused x) m) else with_recovering [] m
  end.

Definition step (a : action) (m : managed) : managed * option answer :=
  match a with
  | ARequest r =>
      (* the command journal lets a retry wait for the request it repeats *)
      if existsb (λ c, bool_decide (call_operation c = Some (request_operation r))) (mg_calls m) then (m, None)
      else match on_request r m with
           | (m, Goes c) => (with_calls (mg_calls m ++ [c]) m, None)
           | (m, Ends a) => (m, Some a)
           end
  | ASettle i ok =>
      match mg_calls m !! i with
      | Some c =>
          match call_settles c ok m with
          | Some (m, Goes c) => (with_calls (keep (Some c) i (mg_calls m)) m, None)
          | Some (m, Ends a) => (with_calls (keep None i (mg_calls m)) m, Some a)
          | None => (m, None)
          end
      | None => (m, None)
      end
  | ADrain ok => (drain_step ok m, None)
  | ATurnEvent p =>
      (match mg_activeTurn m with
       | Some a => if kernel_payload p then record (Some (at_operationId a)) p m else m
       | None => m
       end, None)
  | AOther op p => (if quiet_payload p then record op p m else m, None)
  | ARecover ok => (recover ok m, None)
  | AReserve op target => ((reserveInterruptDelivery op target m).1, None)
  | ARelease op => (releaseInterruptDelivery op m, None)
  | AStop => (with_flags (mg_rebuilding m) (mg_disposing m) true m, None)
  | ADispose => (with_flags (mg_rebuilding m) true (mg_stopping m) m, None)
  | ARestart opening => (reopened (record_all opening m), None)
  end.

Fixpoint run (actions : list action) (m : managed) : managed * list answer :=
  match actions with
  | [] => (m, [])
  | a :: rest =>
      let (m, o) := step a m in
      let (m, os) := run rest m in (m, option_list o ++ os)
  end.

(** [open] of a session whose log is [events]. *)
Definition opened (events : list event) (next : nat) : managed :=
  reopened {| mg_events := events; mg_queue := []; mg_draining := NotDraining; mg_activeTurn := None; mg_interruptDelivery := None;
     mg_rebuilding := false; mg_disposing := false; mg_stopping := false; mg_calls := []; mg_recovering := [];
     mg_next := next |}.
End Session.

(** [busy] of [hostSessions]. *)
Definition busy (m : managed) : bool :=
  owned m || claimed m || mg_rebuilding m || mg_disposing m || draining_now m || bool_decide (mg_queue m ≠ []).
