(* ===== verification/SessionQueueFacts.v ===== *)
(** The branch of a session has one owner at a time; a prompt that was accepted waits in the
    queue until its start is in the log, is sent at most once, and is paused after a restart;
    the queue goes on whenever it can. *)
From stdpp Require Import base list sets strings.
From Stdlib Require Import ZArith Lia Ascii.
From S2P Require Import Prelude Text JsValue Envelope Types Events JsMap EventLog SessionQueue.

(** ** Items in the log *)

Inductive item_state := Waiting | Begun | Paused.

Definition item_next (x : string) (s : option item_state) (e : event) : option item_state :=
  match ev_payload e with
  | QueueEnqueued _ _ => if bool_decide (ev_id e = x) then Some Waiting else s
  | QueueRequeued id _ => if bool_decide (id = x) then Some Waiting else s
  | QueueStarted id => if bool_decide (id = x) then Some Begun else s
  | QueuePaused id => if bool_decide (id = x) then Some Paused else s
  | _ => s
  end.

(** What the log says of an item. *)
Definition item_of (x : string) (events : list event) : option item_state := fold_left (item_next x) events None.

Lemma item_snoc x events e : item_of x (events ++ [e]) = item_next x (item_of x events) e.
Proof. apply fold_left_app. Qed.

Definition queue_payload (p : payload) : bool :=
  match p with QueueEnqueued _ _ | QueueRequeued _ _ | QueueStarted _ | QueuePaused _ => true | _ => false end.

Lemma item_other x s e : queue_payload (ev_payload e) = false → item_next x s e = s.
Proof. unfold item_next. by destruct (ev_payload e). Qed.

Lemma find_app {A} (f : A → bool) l1 l2 :
  List.find f (l1 ++ l2) = match List.find f l1 with Some x => Some x | None => List.find f l2 end.
Proof. induction l1 as [|x l1 IH]; simpl; [done|]. by destruct (f x). Qed.

Lemma find_enqueued_app x events e r : find_enqueued x events = Some r → find_enqueued x (events ++ [e]) = Some r.
Proof.
  unfold find_enqueued. intros H. destruct (List.find (enqueues x) events) as [e0|] eqn:Hf; [|done].
  rewrite find_app, Hf. done.
Qed.

Lemma find_enqueued_elem x events op items : find_enqueued x events = Some (op, items) →
  ∃ e priority, e ∈ events ∧ ev_id e = x ∧ ev_operationId e = Some op ∧ ev_payload e = QueueEnqueued items priority.
Proof.
  unfold find_enqueued. destruct (List.find (enqueues x) events) as [e|] eqn:Hf; [|done].
  apply List.find_some in Hf as [Hin He%eq_sym]. apply list_elem_of_In in Hin. unfold enqueues in He.
  destruct (ev_operationId e) as [op'|] eqn:Ho; [|done]. destruct (ev_payload e) eqn:Hp; try done.
  symmetry in He. apply bool_decide_eq_true in He. intros [= -> ->]. by eexists e, _.
Qed.

Lemma find_enqueued_new x events e op items priority :
  x ∉ ev_id <$> events → ev_id e = x → ev_operationId e = Some op → ev_payload e = QueueEnqueued items priority →
  find_enqueued x (events ++ [e]) = Some (op, items).
Proof.
  intros Hx He Ho Hp. unfold find_enqueued. rewrite find_app. destruct (List.find (enqueues x) events) as [e0|] eqn:Hf.
  - exfalso. apply List.find_some in Hf as [Hin Hb]. apply Hx, list_elem_of_fmap. exists e0. split; [|by apply list_elem_of_In].
    unfold enqueues in Hb. destruct (ev_payload e0); try done. by apply bool_decide_eq_true in Hb.
  - cbn. unfold enqueues. rewrite Hp, bool_decide_true by done. by rewrite Ho, Hp.
Qed.

Lemma has_event_app (P : event → bool) (events : list event) e : existsb P (events ++ [e]) = existsb P events || P e.
Proof. rewrite existsb_app. cbn. by rewrite orb_false_r. Qed.

(** ** The invariant *)

Section Facts.
Context (sessionId : string) (uuid : nat → string) (parent : nat → option string) (timestamp : nat → Z).
Context (uuid_inj : ∀ m n, uuid m = uuid n → m = n).
(** The operations of queued prompts; a retried request keeps its operation. *)
Context (queued : string → Prop).

Abbreviation record := (record sessionId uuid parent timestamp).

(** The entries the session holds in memory, with the requests [l] it is handling. *)
Definition draining_entry (d : draining) : list QueuedTurn := match d with RecordingStart q => [q] | _ => [] end.
Definition call_entry (c : call) : option QueuedTurn := match c with PromptRecorded q => Some q | _ => None end.
Definition entries (m : managed) (l : list call) : list QueuedTurn :=
  mg_queue m ++ draining_entry (mg_draining m) ++ omap call_entry l.
(** The items it still has to start or to pause. *)
Definition memory (m : managed) (l : list call) : list string :=
  (qt_queueItemId <$> entries m l) ++ (mg_recovering m).*1.

(** The entry the queue is sending. *)
Definition sending_entry (d : draining) : option QueuedTurn :=
  match d with RecordingStart q | Started q | SendingQueued q _ | RecordingError q => Some q | _ => None end.

(** The operations that own the branch. *)
Definition draining_owner (d : draining) : list string :=
  match d with SendingQueued q Running => [qt_operationId q] | _ => [] end.
Definition call_owner (c : call) : option string :=
  match c with
  | Sending op Running | Operating _ op | Delivering op _ _ (SendingDelivery Running) => Some op
  | _ => None
  end.
Definition owners (m : managed) (l : list call) : list string := omap call_owner l ++ draining_owner (mg_draining m).

Definition call_ok (events : list event) (c : call) : Prop :=
  match c with
  | CheckingPrompt op _ _ | RecordingPrompt op _ _ => queued op
  | RecordingRequeue _ q | PromptRecorded q => find_enqueued (qt_queueItemId q) events = Some (qt_operationId q, qt_content q)
  | Sending op _ | Operating _ op => ¬ queued op
  | Rebuilding _ => True
  | Delivering op _ target d => ¬ queued op ∧ (d = AbortingTarget → ∀ t, target = Some t → has_message t events = true)
  end.

Record Inv (m : managed) (l : list call) : Prop := {
  i_ids : ∀ e, e ∈ mg_events m → ∃ n, n < mg_next m ∧ ev_id e = uuid n;
  i_enqueued : ∀ e items priority, e ∈ mg_events m → ev_payload e = QueueEnqueued items priority →
    ∃ op, ev_operationId e = Some op ∧ queued op;
  i_entries : ∀ q, q ∈ entries m l ∨ sending_entry (mg_draining m) = Some q →
    find_enqueued (qt_queueItemId q) (mg_events m) = Some (qt_operationId q, qt_content q);
  i_requeued : ∀ e x priority, e ∈ mg_events m → ev_payload e = QueueRequeued x priority → is_Some (find_enqueued x (mg_events m));
  i_kept : ∀ x, item_of x (mg_events m) = Some Waiting → mg_disposing m = true ∨ x ∈ memory m l;
  i_owner : owners m l = option_list (at_operationId <$> mg_activeTurn m);
  i_calls : Forall (call_ok (mg_events m)) l;
  i_checking : ∀ q items, mg_draining m = SendingQueued q (Checking items) →
    has_message (qt_operationId q) (mg_events m) = false ∧ has_terminal (qt_operationId q) (mg_events m) = false
}.

Lemma find_enqueued_op m l x op items : Inv m l → find_enqueued x (mg_events m) = Some (op, items) → queued op.
Proof.
  intros HI (e & pr & Hin & _ & Ho & Hp)%find_enqueued_elem. destruct (i_enqueued _ _ HI e items pr Hin Hp) as (op' & Ho' & Hq). congruence.
Qed.

Lemma owners_perm m l l' : l ≡ₚ l' → owners m l = option_list (at_operationId <$> mg_activeTurn m) →
  owners m l' = option_list (at_operationId <$> mg_activeTurn m).
Proof.
  intros Hp Ho. assert (Hperm : owners m l ≡ₚ owners m l') by (unfold owners; by rewrite Hp). rewrite Ho in Hperm.
  destruct (mg_activeTurn m) as [a|]; simpl in *; [by apply Permutation_singleton_l in Hperm|by apply Permutation_nil_l in Hperm].
Qed.

Lemma Inv_perm m l l' : l ≡ₚ l' → Inv m l → Inv m l'.
Proof.
  intros Hp [H1 H2 H3 H4 H5 H6 H7 H8]. assert (He : entries m l ≡ₚ entries m l') by (unfold entries; by rewrite Hp).
  split; try done.
  - intros q. rewrite <- He. apply H3.
  - intros x Hx. destruct (H5 x Hx) as [|Hm]; [by left|right]. unfold memory in *. by rewrite <- He.
  - by eapply owners_perm.
  - by rewrite <- Hp.
Qed.

(** *** Appends *)

(** Neither the message of a turn nor its end. *)
Definition plain (p : payload) : bool :=
  match p with UserMessage _ | AssistantMessage _ _ _ _ | SessionErrorP _ _ _ _ => false | _ => true end.

Lemma call_ok_app events e c : call_ok events c → call_ok (events ++ [e]) c.
Proof.
  destruct c; simpl; try done; try apply find_enqueued_app.
  intros [Hq Hm]. split; [done|]. intros Hd t Ht. unfold has_message in *. rewrite has_event_app. by rewrite (Hm Hd t Ht).
Qed.

Lemma calls_app events e l : Forall (call_ok events) l → Forall (call_ok (events ++ [e])) l.
Proof. intros H. eapply Forall_impl; [exact H|]. intros c. apply call_ok_app. Qed.

Lemma new_id m l : Inv m l → uuid (mg_next m) ∉ ev_id <$> mg_events m.
Proof.
  intros HI (e & He & Hin)%list_elem_of_fmap. destruct (i_ids _ _ HI e Hin) as (n & Hn & Hid). rewrite Hid in He.
  apply uuid_inj in He. lia.
Qed.

(** An append keeps what does not depend on it; [l'] are the requests afterwards, and
    [d], [queue] and [recovering] the rest of the memory. *)
Lemma inv_append m l op p queue d recovering l' :
  let m' := with_recovering recovering (with_queue queue d (record op p m)) in
  Inv m l →
  (∀ items priority, p = QueueEnqueued items priority → ∃ o, op = Some o ∧ queued o) →
  (∀ x priority, p = QueueRequeued x priority → is_Some (find_enqueued x (mg_events m))) →
  (∀ q, q ∈ entries m' l' ∨ sending_entry d = Some q →
     (q ∈ entries m l ∨ sending_entry (mg_draining m) = Some q) ∨
     find_enqueued (qt_queueItemId q) (mg_events m') = Some (qt_operationId q, qt_content q)) →
  (∀ x, item_of x (mg_events m') = Some Waiting → (item_of x (mg_events m) = Some Waiting ∧ (x ∈ memory m l → x ∈ memory m' l')) ∨ x ∈ memory m' l') →
  owners m' l' = option_list (at_operationId <$> mg_activeTurn m) →
  Forall (call_ok (mg_events m')) l' →
  (∀ q items, d = SendingQueued q (Checking items) → mg_draining m = d ∧ (op = Some (qt_operationId q) → plain p = true)) →
  Inv m' l'.
Proof.
  intros m' HI Henq Hreq Hent Hkept Hown Hcalls Hchk. pose proof HI as [H1 H2 H3 H4 H5 H6 H7 H8]. split; simpl.
  - intros e [He|He%list_elem_of_singleton]%elem_of_app.
    + destruct (H1 e He) as (n & Hn & Hid). exists n. split; [lia|done].
    + subst e. exists (mg_next m). split; [lia|done].
  - intros e items priority [He|He%list_elem_of_singleton]%elem_of_app; [by eapply H2|]. subst e. simpl. by apply Henq.
  - intros q Hq. destruct (Hent q Hq) as [Hold|]; [|done]. apply find_enqueued_app. by apply H3.
  - intros e x priority He Hp. assert (Hx : is_Some (find_enqueued x (mg_events m))).
    { apply elem_of_app in He as [He|He%list_elem_of_singleton]; [by eapply H4|]. subst e. by eapply Hreq. }
    destruct Hx as [r Hr]. exists r. by apply find_enqueued_app.
  - intros x Hx. destruct (Hkept x Hx) as [[Hw Hm]|Hm]; [|by right]. destruct (H5 x Hw) as [|Hin]; [by left|right; auto].
  - done.
  - done.
  - intros q items Hd. destruct (Hchk q items Hd) as [Hd0 Hp]. destruct (H8 q items) as [Hm Ht]; [congruence|].
    unfold has_message, has_terminal in *. rewrite !has_event_app, Hm, Ht. simpl. unfold of_op. simpl.
    case_bool_decide as Ho; [|done]. specialize (Hp Ho). by destruct p.
Qed.

Lemma item_record x op p m : item_of x (mg_events (record op p m)) =
  item_next x (item_of x (mg_events m)) {| ev_id := uuid (mg_next m); ev_sessionId := sessionId; ev_operationId := op;
    ev_parentId := parent (mg_next m); ev_timestamp := timestamp (mg_next m); ev_payload := p |}.
Proof. apply item_snoc. Qed.

(** Appends that are not about the queue. *)
Lemma inv_record m l op p : Inv m l → queue_payload p = false →
  (∀ q items, mg_draining m = SendingQueued q (Checking items) → op = Some (qt_operationId q) → plain p = true) →
  Inv (record op p m) l.
Proof.
  intros HI Hp Hchk. change (record op p m) with (with_recovering (mg_recovering m) (with_queue (mg_queue m) (mg_draining m) (record op p m))).
  apply (inv_append m l); try done.
  - intros items priority ->. done.
  - intros x priority ->. done.
  - intros q Hq. by left.
  - intros x. cbn [mg_events with_recovering with_queue]. rewrite item_record, item_other by done. intros Hx. left. split; [done|]. by intros H.
  - apply (i_owner _ _ HI).
  - apply calls_app, HI.
  - intros q items Hd. split; [done|]. by apply (Hchk q items).
Qed.

Lemma inv_enqueue m l op items priority : Inv m l → queued op →
  Inv (record (Some op) (QueueEnqueued items priority) m)
    (PromptRecorded {| qt_queueItemId := uuid (mg_next m); qt_operationId := op; qt_content := items; qt_priority := priority |} :: l).
Proof.
  intros HI Hq. set (q := {| qt_queueItemId := _ |}). set (m0 := record _ _ _).
  change m0 with (with_recovering (mg_recovering m) (with_queue (mg_queue m) (mg_draining m) m0)).
  assert (Hfind : find_enqueued (uuid (mg_next m)) (mg_events m0) = Some (op, items)).
  { by eapply find_enqueued_new; [eapply new_id|..]. }
  apply (inv_append m l); try done.
  - intros ? ? _. by exists op.
  - intros x Hx. unfold entries in *. cbn in Hx |- *. destruct Hx as [Hx|Hx]; [|by left; right].
    rewrite !elem_of_app, elem_of_cons in Hx. destruct Hx as [Hx|[Hx|[->|Hx]]]; [..|by left; left; set_solver]; [left; left; set_solver..|]. by right.
  - intros x. cbn [mg_events with_recovering with_queue]. unfold m0. rewrite item_record. unfold item_next. cbn. case_bool_decide as Hid.
    + intros _. right. unfold memory, entries. cbn. rewrite fmap_app, fmap_app. cbn. set_solver.
    + intros Hw. left. split; [done|]. unfold memory, entries. cbn. rewrite !fmap_app. cbn. set_solver.
  - apply (i_owner _ _ HI).
  - constructor; [exact Hfind|apply calls_app, HI].
Qed.

Lemma inv_requeue m l op q : Inv m l → find_enqueued (qt_queueItemId q) (mg_events m) = Some (qt_operationId q, qt_content q) →
  Inv (record (Some op) (QueueRequeued (qt_queueItemId q) (qt_priority q)) m) (PromptRecorded q :: l).
Proof.
  intros HI Hfind. set (m0 := record _ _ _).
  change m0 with (with_recovering (mg_recovering m) (with_queue (mg_queue m) (mg_draining m) m0)).
  assert (Hfind' : find_enqueued (qt_queueItemId q) (mg_events m0) = Some (qt_operationId q, qt_content q)) by (by apply find_enqueued_app).
  apply (inv_append m l); try done.
  - intros x priority [= <- _]. by eexists.
  - intros x Hx. unfold entries in *. cbn in Hx |- *. destruct Hx as [Hx|Hx]; [|by left; right].
    rewrite !elem_of_app, elem_of_cons in Hx. destruct Hx as [Hx|[Hx|[->|Hx]]]; [..|by left; left; set_solver]; [left; left; set_solver..|]. by right.
  - intros x. cbn [mg_events with_recovering with_queue]. unfold m0. rewrite item_record. unfold item_next. cbn. case_bool_decide as Hid.
    + intros _. right. unfold memory, entries. cbn. rewrite fmap_app, fmap_app. cbn. set_solver.
    + intros Hw. left. split; [done|]. unfold memory, entries. cbn. rewrite !fmap_app. cbn. set_solver.
  - apply (i_owner _ _ HI).
  - constructor; [exact Hfind'|apply calls_app, HI].
Qed.

Lemma inv_started m l q : Inv m l → mg_draining m = RecordingStart q →
  Inv (with_queue (mg_queue m) (Started q) (record (Some (qt_operationId q)) (QueueStarted (qt_queueItemId q)) m)) l.
Proof.
  intros HI Hd. set (m0 := record _ _ _).
  change (with_queue _ _ m0) with (with_recovering (mg_recovering m) (with_queue (mg_queue m) (Started q) m0)).
  apply (inv_append m l); try done.
  - unfold entries. rewrite Hd. cbn. intros x Hx. left. set_solver.
  - intros x. cbn [mg_events with_recovering with_queue]. unfold m0. rewrite item_record. unfold item_next. cbn. case_bool_decide as Hid; [done|].
    intros Hw. left. split; [done|]. unfold memory, entries. rewrite Hd. cbn. rewrite !fmap_app. cbn. set_solver.
  - unfold owners. cbn. pose proof (i_owner _ _ HI) as Ho. unfold owners in Ho. by rewrite Hd in Ho.
  - apply calls_app, HI.
Qed.

Lemma inv_error m l q code message : Inv m l → mg_draining m = RecordingError q →
  Inv (with_queue (mg_queue m) Next (record (Some (qt_operationId q)) (SessionErrorP code message false None) m)) l.
Proof.
  intros HI Hd. set (m0 := record _ _ _).
  change (with_queue _ _ m0) with (with_recovering (mg_recovering m) (with_queue (mg_queue m) Next m0)).
  apply (inv_append m l); try done.
  - unfold entries. rewrite Hd. cbn. intros x Hx. left. set_solver.
  - intros x. cbn [mg_events with_recovering with_queue]. unfold m0. rewrite item_record, item_other by done.
    intros Hw. left. split; [done|]. unfold memory, entries. by rewrite Hd.
  - unfold owners. cbn. pose proof (i_owner _ _ HI) as Ho. unfold owners in Ho. by rewrite Hd in Ho.
  - apply calls_app, HI.
Qed.

Lemma inv_paused m l x op rest : Inv m l → mg_recovering m = (x, op) :: rest →
  Inv (with_recovering rest (record (Some op) (QueuePaused x) m)) l.
Proof.
  intros HI Hr. set (m0 := record _ _ _).
  change (with_recovering rest m0) with (with_recovering rest (with_queue (mg_queue m) (mg_draining m) m0)).
  apply (inv_append m l); try done.
  - intros q Hq. by left.
  - intros y. cbn [mg_events with_recovering with_queue]. unfold m0. rewrite item_record. unfold item_next. cbn. case_bool_decide as Hid; [done|].
    intros Hw. left. split; [done|]. unfold memory, entries. rewrite Hr. cbn. set_solver.
  - apply (i_owner _ _ HI).
  - apply calls_app, HI.
Qed.

(** *** Steps that append nothing *)

Lemma inv_same_log m l m' l' : Inv m l → mg_events m' = mg_events m → mg_next m' = mg_next m →
  (∀ q, q ∈ entries m' l' ∨ sending_entry (mg_draining m') = Some q →
     (q ∈ entries m l ∨ sending_entry (mg_draining m) = Some q) ∨
     find_enqueued (qt_queueItemId q) (mg_events m) = Some (qt_operationId q, qt_content q)) →
  (∀ x, mg_disposing m = true ∨ x ∈ memory m l → mg_disposing m' = true ∨ x ∈ memory m' l') →
  owners m' l' = option_list (at_operationId <$> mg_activeTurn m') →
  Forall (call_ok (mg_events m)) l' →
  (∀ q items, mg_draining m' = SendingQueued q (Checking items) → mg_draining m = mg_draining m' ∨
     has_message (qt_operationId q) (mg_events m) = false ∧ has_terminal (qt_operationId q) (mg_events m) = false) →
  Inv m' l'.
Proof.
  intros HI He Hn Hent Hkept Hown Hcalls Hchk. pose proof HI as [H1 H2 H3 H4 H5 H6 H7 H8]. split; rewrite ?He, ?Hn; try done.
  - intros q Hq. destruct (Hent q Hq) as [Hold|]; [by apply H3|done].
  - intros x Hx. apply Hkept. by apply H5.
  - intros q items Hd. destruct (Hchk q items Hd) as [Hsame|]; [|done]. apply (H8 q items). congruence.
Qed.

(** The queue takes an entry, or stops. *)
Lemma inv_take m l q rest : Inv m l → mg_queue m = q :: rest → mg_draining m = NotDraining ∨ mg_draining m = Next →
  Inv (with_queue rest (RecordingStart q) m) l.
Proof.
  intros HI Hq Hd. apply (inv_same_log m l); try done.
  - intros x. unfold entries. rewrite Hq. cbn. destruct Hd as [->| ->]; cbn; intros Hx; left; set_solver.
  - intros x [Hdis|Hm]; [by left|right]. unfold memory, entries in *. rewrite Hq in Hm. cbn in *. destruct Hd as [Hd|Hd]; rewrite Hd in Hm; cbn in *; rewrite !fmap_app in *; cbn in *; set_solver.
  - pose proof (i_owner _ _ HI) as Ho. unfold owners in *. cbn. by destruct Hd as [Hd|Hd]; rewrite Hd in Ho.
  - apply HI.
Qed.

Lemma inv_rest m l : Inv m l → mg_draining m = NotDraining ∨ mg_draining m = Next → Inv (with_queue (mg_queue m) NotDraining m) l.
Proof.
  intros HI Hd. apply (inv_same_log m l); try done.
  - intros x. unfold entries. cbn. destruct Hd as [->| ->]; cbn; intros Hx; left; set_solver.
  - intros x [Hdis|Hm]; [by left|right]. unfold memory, entries in *. cbn in *. by destruct Hd as [Hd|Hd]; rewrite Hd in Hm.
  - pose proof (i_owner _ _ HI) as Ho. unfold owners in *. cbn. by destruct Hd as [Hd|Hd]; rewrite Hd in Ho.
  - apply HI.
Qed.

Lemma inv_drain_next m l : Inv m l → mg_draining m = NotDraining ∨ mg_draining m = Next → Inv (drain_next m) l.
Proof.
  intros HI Hd. unfold drain_next. destruct (_ || _); [by apply inv_rest|]. destruct (mg_queue m) as [|q rest] eqn:Hq.
  - rewrite <- Hq. by apply inv_rest.
  - by apply inv_take.
Qed.

Lemma inv_start m l : Inv m l → Inv (startQueueDrain m) l.
Proof.
  intros HI. unfold startQueueDrain, drainQueue. destruct (draining_now m) eqn:Hd; [by rewrite !orb_true_r|].
  case_match; [done|]. case_match; [done|]. apply inv_drain_next; [done|]. left. unfold draining_now in Hd. by destruct (mg_draining m).
Qed.

(** *** The branch *)

(** Only the owner releases the branch. *)
Lemma release_active m op : mg_activeTurn m = None ∨ at_operationId <$> mg_activeTurn m = Some op → release_turn op m = with_active None m.
Proof.
  unfold release_turn. destruct (mg_activeTurn m) as [a|] eqn:Ha; [|intros _; by destruct m; simpl in *; subst].
  intros [?|[= Hop]]; [done|]. by rewrite bool_decide_true.
Qed.

Lemma inv_add_call m l c : Inv m l → call_ok (mg_events m) c → call_owner c = None → call_entry c = None → Inv m (c :: l).
Proof.
  intros HI Hc Ho He. assert (Hents : entries m (c :: l) = entries m l) by (unfold entries; cbn; by rewrite He).
  apply (inv_same_log m l); try done.
  - intros q. rewrite Hents. by left.
  - intros x. unfold memory. by rewrite Hents.
  - unfold owners. cbn. rewrite Ho. apply HI.
  - constructor; [done|apply HI].
  - intros q items _. by left.
Qed.

Lemma inv_drop_call m l c : Inv m (c :: l) → call_owner c = None → call_entry c = None → Inv m l.
Proof.
  intros HI Ho He. assert (Hents : entries m (c :: l) = entries m l) by (unfold entries; cbn; by rewrite He).
  apply (inv_same_log m (c :: l)); try done.
  - intros q. rewrite Hents. by left.
  - intros x. unfold memory. by rewrite Hents.
  - pose proof (i_owner _ _ HI) as H. unfold owners in H. cbn in H. by rewrite Ho in H.
  - pose proof (i_calls _ _ HI) as H. by apply Forall_cons in H as [_ H].
  - intros q items _. by left.
Qed.

(** The branch is taken. *)
Lemma inv_enter m l c kind op : Inv m l → mg_activeTurn m = None → call_ok (mg_events m) c → call_owner c = Some op → call_entry c = None →
  Inv (with_active (Some {| at_kind := kind; at_operationId := op |}) m) (c :: l).
Proof.
  intros HI Hact Hc Ho He. set (m' := with_active _ m). assert (Hents : entries m' (c :: l) = entries m l) by (unfold entries; cbn; by rewrite He).
  apply (inv_same_log m l); try done.
  - intros q. rewrite Hents. by left.
  - intros x. unfold memory. by rewrite Hents.
  - pose proof (i_owner _ _ HI) as H. unfold owners in *. cbn. rewrite Ho, Hact in *. simpl in *. by rewrite H.
  - constructor; [done|apply HI].
  - intros q items _. by left.
Qed.

(** The owner gives it back. *)
Lemma inv_leave m l c op : Inv m (c :: l) → call_owner c = Some op → call_entry c = None → Inv (startQueueDrain (release_turn op m)) l.
Proof.
  intros HI Ho He. pose proof (i_owner _ _ HI) as Hown. unfold owners in Hown. cbn in Hown. rewrite Ho in Hown.
  destruct (mg_activeTurn m) as [a|] eqn:Ha; simpl in Hown; [|done]. injection Hown as Hop Hrest.
  rewrite release_active by (rewrite Ha; right; cbn; congruence). apply inv_start.
  set (m' := with_active _ m). assert (Hents : entries m' l = entries m (c :: l)) by (unfold entries; cbn; by rewrite He).
  apply (inv_same_log m (c :: l)); try done.
  - intros q. rewrite Hents. by left.
  - intros x. unfold memory. by rewrite Hents.
  - pose proof (i_calls _ _ HI) as H. by apply Forall_cons in H as [_ H].
  - intros q items _. by left.
Qed.

(** *** [send] *)

Lemma enter_cases op m :
  (∃ code, enter_turn op m = (m, SendThrew code)) ∨
  (enter_turn op m = (with_active (Some {| at_kind := KTurn; at_operationId := op |}) m, SendAwaits Running) ∧ mg_activeTurn m = None).
Proof.
  unfold enter_turn. destruct (mg_stopping m); [left; by eexists|]. destruct (mg_disposing m); [left; by eexists|].
  destruct (owned m || _ || _) eqn:Hc; [left; by eexists|]. right. split; [done|].
  apply orb_false_iff in Hc as [[Hc _]%orb_false_iff _]. unfold owned in Hc. apply bool_decide_eq_false in Hc.
  by destruct (mg_activeTurn m); [exfalso; apply Hc|].
Qed.

Lemma send_cases op items m :
  (∃ r, send op items m = (m, r) ∧
     match r with
     | SendAwaits Running => False
     | SendAwaits AbortingRecovered => has_message op (mg_events m) = true
     | SendAwaits (Checking _) => has_message op (mg_events m) = false ∧ has_terminal op (mg_events m) = false
     | _ => True
     end) ∨
  (send op items m = (with_active (Some {| at_kind := KTurn; at_operationId := op |}) m, SendAwaits Running) ∧ mg_activeTurn m = None ∧
     has_message op (mg_events m) = false ∧ has_terminal op (mg_events m) = false).
Proof.
  unfold send. destruct (mg_stopping m); [left; by eexists|]. destruct (has_terminal op (mg_events m)) eqn:Ht; [left; by eexists|].
  destruct (has_message op (mg_events m)) eqn:Hm; [left; by eexists|]. destruct (has_blob items); [left; by eexists|].
  destruct (enter_cases op m) as [[code ->]|[-> Ha]]; [left; by eexists|]. by right.
Qed.

(** A request that sends: [mk s] is what it is while it awaits [s]. *)
Record sender (op : string) (mk : sending → call) : Prop := {
  sn_running : call_owner (mk Running) = Some op;
  sn_waiting : ∀ s, s ≠ Running → call_owner (mk s) = None;
  sn_entry : ∀ s, call_entry (mk s) = None;
  sn_ok : ∀ events s, call_ok events (mk s)
}.

Definition sent_ok (mk : sending → call) (l : list call) (r : managed * sent) : Prop :=
  Inv r.1 (match r.2 with SendAwaits s => mk s :: l | _ => l end).

Lemma inv_entering m l op mk : sender op mk → Inv m l → sent_ok mk l (enter_turn op m).
Proof.
  intros [Hr Hw He Hok] HI. destruct (enter_cases op m) as [[code ->]|[-> Ha]]; unfold sent_ok; cbn; [done|]. by apply inv_enter.
Qed.

Lemma inv_sending m l op mk items : sender op mk → Inv m l → sent_ok mk l (send op items m).
Proof.
  intros [Hr Hw He Hok] HI. destruct (send_cases op items m) as [(r & -> & Hcase)|(-> & Ha & _)]; unfold sent_ok; cbn.
  - destruct r as [| |[]]; try done; by apply inv_add_call; auto.
  - by apply inv_enter.
Qed.

Lemma inv_settling m l op mk s ok r : sender op mk → ¬ queued op → Inv m (mk s :: l) → send_settles sessionId uuid parent timestamp op s ok m = Some r → sent_ok mk l r.
Proof.
  intros Hmk Hq HI. pose proof Hmk as [Hr Hw He Hok]. destruct s as [items| |]; cbn [send_settles].
  - intros [= <-]. assert (HI' : Inv m l) by (eapply inv_drop_call; [exact HI|by apply Hw|apply He]). destruct ok; [by eapply inv_entering|done].
  - intros [= <-]. assert (HI' : Inv m l) by (eapply inv_drop_call; [exact HI|by apply Hw|apply He]).
    destruct ok; [|done]. unfold sent_ok. cbn [fst snd]. apply inv_record; [done|done|]. intros q its Hd [= ->]. exfalso. apply Hq.
    eapply find_enqueued_op; [done|]. apply (i_entries _ _ HI'). right. by rewrite Hd.
  - destruct (_ && _); [done|]. intros [= <-]. unfold sent_ok. destruct ok; by eapply inv_leave.
Qed.

(** *** The drain *)

Lemma inv_redrain m l d active : Inv m l → draining_entry (mg_draining m) = [] → draining_entry d = [] →
  (∀ q, sending_entry d = Some q → sending_entry (mg_draining m) = Some q) →
  omap call_owner l ++ draining_owner d = option_list (at_operationId <$> active) →
  (∀ q items, d = SendingQueued q (Checking items) →
     has_message (qt_operationId q) (mg_events m) = false ∧ has_terminal (qt_operationId q) (mg_events m) = false) →
  Inv (with_queue (mg_queue m) d (with_active active m)) l.
Proof.
  intros HI Hd0 Hd Hs Ho Hchk. assert (Hents : entries (with_queue (mg_queue m) d (with_active active m)) l = entries m l) by (unfold entries; cbn; by rewrite Hd, Hd0).
  apply (inv_same_log m l); try done.
  - intros q. rewrite Hents. cbn. intros [Hq|Hq]; left; [by left|right; by apply Hs].
  - intros x. unfold memory. by rewrite Hents.
  - apply HI.
  - intros q items Hq. right. by eapply Hchk.
Qed.

Lemma same_active m : with_active (mg_activeTurn m) m = m.
Proof. by destruct m. Qed.

Lemma inv_dies m l : Inv m l → draining_owner (mg_draining m) = [] → Inv (drain_fails m) l.
Proof.
  intros HI Ho. apply (inv_same_log m l); try done.
  - intros q. unfold entries, drain_fails. cbn. intros Hq. left. left. destruct Hq; [set_solver|done].
  - intros x _. by left.
  - unfold owners, drain_fails. cbn. pose proof (i_owner _ _ HI) as H. unfold owners in H. by rewrite Ho in H.
  - apply HI.
Qed.

(** The drain, sending [q] and not owning the branch, goes on with what [send] came to. *)
Lemma inv_drain_sent m l q r : Inv m l → sending_entry (mg_draining m) = Some q → draining_entry (mg_draining m) = [] →
  draining_owner (mg_draining m) = [] →
  r = (m, SendReturned) ∨ (∃ code, r = (m, SendThrew code)) ∨ (∃ s, r = (m, SendAwaits s) ∧
    match s with Running => False | AbortingRecovered => True
    | Checking _ => has_message (qt_operationId q) (mg_events m) = false ∧ has_terminal (qt_operationId q) (mg_events m) = false end) ∨
  (r = (with_active (Some {| at_kind := KTurn; at_operationId := qt_operationId q |}) m, SendAwaits Running) ∧ mg_activeTurn m = None) →
  Inv (drain_sent q r) l.
Proof.
  intros HI Hs He Ho Hr. pose proof (i_owner _ _ HI) as Hown. unfold owners in Hown. rewrite Ho in Hown.
  destruct Hr as [-> |[[code ->]|[(s & -> & Hcase)|[-> Ha]]]]; unfold drain_sent; cbn [mg_queue with_active].
  - rewrite <- (same_active m) at 2. by apply inv_redrain.
  - rewrite <- (same_active m) at 2. apply inv_redrain; try done. by intros x [= <-].
  - rewrite <- (same_active m) at 2. apply inv_redrain; try done; [by intros x [= <-]|by destruct s|]. by intros x items [= <- ->].
  - apply inv_redrain; try done; [by intros x [= <-]|]. rewrite Ha in Hown. simpl in *. rewrite app_nil_r in Hown. by rewrite Hown.
Qed.

Lemma inv_drain ok m l : Inv m l → Inv (drain_step sessionId uuid parent timestamp ok m) l.
Proof.
  intros HI. unfold drain_step. destruct (mg_draining m) as [|q|q|q s|q|] eqn:Hd; [done|..].
  - destruct ok; [by apply (inv_started m l q)|]. apply inv_dies; [done|by rewrite Hd].
  - apply (inv_drain_sent m l q); rewrite ?Hd; try done. destruct (send_cases (qt_operationId q) (qt_content q) m) as [(r & -> & Hcase)|(-> & Ha & _)]; [|by do 3 right].
    destruct r as [|code|s]; [by left|right; left; by eexists|]. right. right. left. exists s. by destruct s.
  - destruct s as [items| |]; cbn [send_settles].
    + apply (inv_drain_sent m l q); rewrite ?Hd; try done. destruct ok; [|right; left; by eexists].
      destruct (enter_cases (qt_operationId q) m) as [[code ->]|[-> Ha]]; [right; left; by eexists|by do 3 right].
    + destruct ok; [|apply (inv_drain_sent m l q); rewrite ?Hd; try done; right; left; by eexists].
      assert (HI' : Inv (record (Some (qt_operationId q)) (AssistantMessage [] SAborted None (Some "Operation was aborted because the daemon restarted before recording completion.")) m) l).
      { apply inv_record; [done|done|]. intros x its Hx. rewrite Hd in Hx. discriminate Hx. }
      apply (inv_drain_sent _ l q _ HI'); [cbn; by rewrite Hd..|by left].
    + pose proof (i_owner _ _ HI) as Hown. unfold owners in Hown. rewrite Hd in Hown. cbn in Hown.
      destruct (mg_activeTurn m) as [a|] eqn:Ha; [|by destruct (omap call_owner l)]. simpl in Hown.
      assert (Hop : omap call_owner l = [] ∧ at_operationId a = qt_operationId q).
      { destruct (omap call_owner l) as [|o os]; simpl in Hown; [by injection Hown as ->|]. injection Hown as _ Hown. by destruct os. }
      destruct Hop as [Hnil Hop].
      assert (Hleave : startQueueDrain (release_turn (qt_operationId q) m) = with_active None m).
      { rewrite (release_active m) by (rewrite Ha; right; cbn; congruence). unfold startQueueDrain, draining_now. cbn. rewrite Hd. by rewrite !orb_true_r. }
      rewrite Hleave. destruct (ok && _); [done|]. unfold drain_sent. destruct ok; apply (inv_redrain m l _ None); rewrite ?Hd; try done; try (by rewrite Hnil).
  - destruct ok; [by apply (inv_error m l q)|]. apply inv_dies; [done|by rewrite Hd].
  - apply inv_drain_next; [done|by right].
Qed.

(** *** Requests *)

Definition out_ok (l : list call) (r : managed * outcome) : Prop :=
  match r with (m, Goes c) => Inv m (c :: l) | (m, Ends _) => Inv m l end.

Lemma inv_with_claim m l claim : Inv m l → Inv (with_claim claim m) l.
Proof. intros HI. apply (inv_same_log m l); try done; [by left|apply HI|apply HI|by left]. Qed.

Lemma inv_with_flags m l rebuilding stopping disposing : Inv m l → (mg_disposing m = true → disposing = true) →
  Inv (with_flags rebuilding disposing stopping m) l.
Proof.
  intros HI Hd. apply (inv_same_log m l); try done; [by left| |apply HI|apply HI|by left].
  intros x [Hx|Hx]; [left; by apply Hd|by right].
Qed.

Lemma inv_claim_release m l op : Inv m l → Inv (releaseInterruptDelivery op m) l.
Proof.
  intros HI. unfold releaseInterruptDelivery. destruct (mg_interruptDelivery m) as [c|]; [|done]. case_bool_decide; [|done].
  by apply inv_start, inv_with_claim.
Qed.

Section Delivery.
Context (op : string) (items : list content) (target : option string) (Hop : ¬ queued op).

Lemma inv_add_delivery m l d : Inv m l →
  match d with SendingDelivery Running => False | AbortingTarget => ∀ t, target = Some t → has_message t (mg_events m) = true | _ => True end →
  Inv m (Delivering op items target d :: l).
Proof.
  intros HI Hd. apply inv_add_call; [done| |by destruct d as [| | | | |[]| |]|done]. split; [done|]. by intros ->.
Qed.

Lemma delivery_sender : sender op (λ s, Delivering op items target (SendingDelivery s)).
Proof. split; try done. by intros []. Qed.

Lemma end_ok m l a : Inv m l → out_ok l (end_delivery op a m).
Proof. intros HI. by apply inv_claim_release. Qed.

Lemma fail_ok m l code : Inv m l → out_ok l (fail_delivery op items target code m).
Proof. intros HI. unfold fail_delivery. destruct (_ && _); [by apply inv_add_delivery|by apply end_ok]. Qed.

Lemma sent_out_ok l r : sent_ok (λ s, Delivering op items target (SendingDelivery s)) l r → out_ok l (delivery_sent op items target r).
Proof.
  destruct r as [m [|code|s]]; unfold sent_ok, delivery_sent; cbn; intros HI.
  - destruct (negb _); [by apply fail_ok|]. destruct (has_event _ _ _); [by apply end_ok|by apply inv_add_delivery].
  - by apply fail_ok.
  - done.
Qed.

Lemma send_out_ok m l : Inv m l → out_ok l (delivery_sent op items target (send op items m)).
Proof. intros HI. apply sent_out_ok. by apply (inv_sending m l op); [apply delivery_sender|]. Qed.

Lemma target_ok m l t : target = Some t → Inv m l → out_ok l (interrupt_target op items target t m).
Proof.
  intros Ht HI. unfold interrupt_target. destruct (match mg_activeTurn m with Some a => _ | None => false end); [by apply inv_add_delivery|].
  destruct (_ && _) eqn:Hm; [|by apply send_out_ok]. apply inv_add_delivery; [done|]. apply andb_true_iff in Hm as [_ Hm].
  intros t' Ht'. congruence.
Qed.

Lemma requested_ok m l : Inv m l → out_ok l (delivery_requested op items target m).
Proof.
  intros HI. unfold delivery_requested. destruct target as [t|] eqn:Ht; [|rewrite <- Ht; by apply send_out_ok].
  destruct (has_event _ _ _); rewrite <- Ht; [by apply target_ok|by apply inv_add_delivery].
Qed.

Lemma claim_ok m l : Inv m l → out_ok l (claim_delivery op items target m).
Proof.
  intros HI%(inv_with_claim _ _ (Some {| dc_operationId := op; dc_targetOperationId := target |})). unfold claim_delivery.
  destruct (has_event _ _ _); [by apply requested_ok|by apply inv_add_delivery].
Qed.

Lemma interrupt_ok m l : Inv m l → out_ok l (interruptAndDeliver op items target m).
Proof.
  intros HI. unfold interruptAndDeliver. destruct (mg_stopping m); [done|]. destruct (_ && _); [done|].
  destruct (match mg_interruptDelivery m with Some c => _ | None => false end); [done|].
  destruct (has_blob items); [by apply inv_add_delivery|by apply claim_ok].
Qed.

Lemma inv_interrupt_event m l p : Inv m l → queue_payload p = false → plain p = true → Inv (record (Some op) p m) l.
Proof. intros HI Hq Hp. by apply inv_record. Qed.
End Delivery.

Context (messageOf : string → string).

Lemma delivery_ok op items target d ok m l r : Inv m (Delivering op items target d :: l) →
  delivery_settles sessionId uuid parent timestamp messageOf op items target d ok m = Some r → out_ok l r.
Proof.
  intros HI. pose proof (i_calls _ _ HI) as Hcalls. apply Forall_cons in Hcalls as [[Hop Habort] _].
  assert (Hd : d = SendingDelivery Running ∨ d ≠ SendingDelivery Running) by (destruct d as [| | | | |[]| |]; auto).
  destruct Hd as [->|Hd].
  { cbn [delivery_settles]. intros (x & Hx & ->)%fmap_Some. apply sent_out_ok; [done|].
    eapply inv_settling; [by apply delivery_sender|exact Hop|exact HI|exact Hx]. }
  assert (HI' : Inv m l) by (eapply inv_drop_call; [exact HI|by destruct d as [| | | | |[]| |]|done]).
  destruct d as [| | | | |s| |code]; cbn [delivery_settles].
  - intros [= <-]. destruct ok; [by apply claim_ok|done].
  - intros [= <-]. destruct ok; [by apply requested_ok, inv_interrupt_event|by apply end_ok].
  - intros [= <-]. destruct ok; [|by apply fail_ok]. destruct target as [t|] eqn:Ht; rewrite <- ?Ht.
    + apply target_ok; [done|done|by apply inv_interrupt_event].
    + by apply send_out_ok, inv_interrupt_event.
  - destruct (match mg_activeTurn m with Some a => _ | None => false end); [done|]. intros [= <-]. by apply send_out_ok.
  - intros [= <-]. destruct ok; [|by apply fail_ok]. destruct target as [t|]; [|by apply fail_ok].
    apply send_out_ok; [done|]. apply inv_record; [done|done|]. intros q its Hq Heq. simplify_eq.
    destruct (i_checking _ _ HI' q its Hq) as [Hno _]. by rewrite (Habort eq_refl _ eq_refl) in Hno.
  - intros (x & Hx & ->)%fmap_Some. apply sent_out_ok; [done|].
    eapply inv_settling; [by apply delivery_sender|exact Hop|exact HI|exact Hx].
  - intros [= <-]. destruct ok; [by apply end_ok, inv_interrupt_event|by apply fail_ok].
  - intros [= <-]. destruct ok; [by apply end_ok, inv_interrupt_event|by apply end_ok].
Qed.

(** Prompts are queued under operations of their own. *)
Definition request_ok (r : request) : Prop :=
  match r with
  | Enqueue op _ _ => queued op
  | Send op _ | Compact op | Shell op _ _ | InterruptAndDeliver op _ _ => ¬ queued op
  | _ => True
  end.

Lemma send_sender op : ¬ queued op → sender op (Sending op).
Proof. intros H. split; try done. by intros []. Qed.

Lemma sent_outcome_ok op l r : sent_ok (Sending op) l r → out_ok l (sent_outcome op r).
Proof. by destruct r as [m [|code|s]]. Qed.

Lemma operation_ok kind op m l : ¬ queued op → Inv m l → out_ok l (begin_operation kind op m).
Proof.
  intros Hq HI. unfold begin_operation, branch_taken, owned. destruct (bool_decide _) eqn:Ha; [done|]. destruct (_ || _); [done|].
  apply inv_enter; try done. apply bool_decide_eq_false in Ha. by destruct (mg_activeTurn m); [exfalso; apply Ha|].
Qed.

Lemma rebuild_ok op m l : Inv m l → out_ok l (rebuild op m).
Proof. intros HI. unfold rebuild. apply inv_add_call; [by apply inv_with_flags|done..]. Qed.

Lemma on_request_ok r m l : request_ok r → Inv m l → out_ok l (on_request sessionId uuid timestamp r m).
Proof.
  intros Hr HI. destruct r as [op items priority|op x priority|op items|op|op command excluded|op|op|op items target]; cbn [on_request].
  - unfold enqueue. destruct (List.find _ _); [done|]. destruct (has_blob items); by apply inv_add_call.
  - unfold requeue. destruct (existsb _ _); [done|]. destruct (find_enqueued x (mg_events m)) as [[o its]|] eqn:Hf; [|done].
    destruct (is_paused _ _); [by apply inv_add_call|done].
  - apply sent_outcome_ok. eapply inv_sending; [by apply send_sender|done].
  - by apply operation_ok.
  - unfold shell. destruct (List.find _ _) as [e|]; [by destruct (ev_payload e)|].
    destruct (encodeCanonicalEvent _) as [|[]]; [by apply operation_ok|done..].
  - unfold reload. destruct (branch_taken m); [done|]. destruct (existsb _ _); [done|by apply rebuild_ok].
  - unfold configure. destruct (existsb _ _); [done|]. destruct (branch_taken m); [done|by apply rebuild_ok].
  - by apply interrupt_ok.
Qed.

Lemma inv_push m l q : Inv m (PromptRecorded q :: l) → Inv (push_entry q m) l.
Proof.
  intros HI. apply inv_start. set (m' := with_queue _ _ m).
  assert (Hents : ∀ x, x ∈ entries m' l ↔ x ∈ entries m (PromptRecorded q :: l)) by (intros x; unfold entries; cbn; destruct (qt_priority q); set_solver).
  apply (inv_same_log m (PromptRecorded q :: l)); try done.
  - intros x. rewrite Hents. by left.
  - intros x [Hx|Hx]; [by left|right]. unfold memory in *. rewrite elem_of_app in *. destruct Hx as [Hx|Hx]; [left|by right].
    apply list_elem_of_fmap in Hx as (y & -> & Hy). apply list_elem_of_fmap. exists y. split; [done|by apply Hents].
  - apply HI.
  - pose proof (i_calls _ _ HI) as H. by apply Forall_cons in H as [_ H].
  - intros x items _. by left.
Qed.

Lemma call_settles_ok c ok m l r : Inv m (c :: l) → call_settles sessionId uuid parent timestamp messageOf c ok m = Some r → out_ok l r.
Proof.
  intros HI. pose proof (i_calls _ _ HI) as Hcalls. apply Forall_cons in Hcalls as [Hc _].
  destruct c as [op items priority|op items priority|op q|q|op s|kind op|op|op items target d]; cbn [call_settles].
  - intros [= <-]. eapply inv_drop_call in HI; [|done..]. destruct ok; [by apply inv_add_call|done].
  - intros [= <-]. eapply inv_drop_call in HI; [|done..]. destruct ok; [by apply inv_enqueue|done].
  - intros [= <-]. eapply inv_drop_call in HI; [|done..]. destruct ok; [by apply inv_requeue|done].
  - intros [= <-]. by apply inv_push.
  - intros (x & Hx & ->)%fmap_Some. apply sent_outcome_ok. eapply inv_settling; [by apply send_sender|exact Hc|exact HI|exact Hx].
  - intros [= <-]. by eapply inv_leave.
  - intros [= <-]. eapply inv_drop_call in HI; [|done..]. by apply inv_with_flags.
  - by apply delivery_ok.
Qed.
End Facts.
