(* ===== verification/SessionQueueRuns.v ===== *)
(** Runs of a session's queue: every step keeps the invariant of [SessionQueueFacts], and what
    follows of prompts, of the branch, and of a restart. *)
From stdpp Require Import base list sets strings.
From Stdlib Require Import ZArith Lia Ascii.
From S2P Require Import Prelude Text JsValue Envelope Types Events JsMap EventLog SessionQueue SessionQueueFacts.

(** ** The items of a log that wait *)

Lemma map_set_elem {A} (k : string) (v : A) m x : x ∈ (map_set k v m).*1 ↔ x = k ∨ x ∈ m.*1.
Proof.
  rewrite <- !map_has_spec. unfold map_has. rewrite map_get_set. destruct (bool_decide_reflect (k = x)) as [->|]; [naive_solver|].
  destruct (map_get x m); naive_solver.
Qed.

Lemma map_delete_elem {A} k (m : list (string * A)) x : x ∈ (map_delete k m).*1 ↔ x ≠ k ∧ x ∈ m.*1.
Proof.
  unfold map_delete. rewrite !list_elem_of_fmap. split.
  - intros ([y v] & -> & [Hy Hin]%list_elem_of_filter). split; [done|]. by exists (y, v).
  - intros (Hx & [y v] & -> & Hin). exists (y, v). split; [done|]. by apply list_elem_of_filter.
Qed.

Lemma item_next_waiting x s e : item_next x s e = Some Waiting ↔
  match ev_payload e with
  | QueueEnqueued _ _ => ev_id e = x ∨ s = Some Waiting
  | QueueRequeued id _ => id = x ∨ s = Some Waiting
  | QueueStarted id | QueuePaused id => id ≠ x ∧ s = Some Waiting
  | _ => s = Some Waiting
  end.
Proof. unfold item_next. destruct (ev_payload e); try done; case_bool_decide; naive_solver. Qed.

(** [pauseRecoveredQueue] finds the items that wait. *)
Lemma pending_waiting all events :
  (∀ e items priority, e ∈ events → ev_payload e = QueueEnqueued items priority → is_Some (ev_operationId e)) →
  (∀ e x priority, e ∈ events → ev_payload e = QueueRequeued x priority → is_Some (find_enqueued x all)) →
  ∀ x, x ∈ (fold_left (pending_step all) events []).*1 ↔ item_of x events = Some Waiting.
Proof.
  intros Henq Hreq x. induction events as [|e events IH] using rev_ind; [cbn; set_solver|].
  rewrite fold_left_app, item_snoc. cbn [fold_left]. rewrite item_next_waiting.
  assert (H := IH ltac:(intros; eapply Henq; set_solver) ltac:(intros; eapply Hreq; set_solver)). clear IH.
  unfold pending_step. destruct (ev_payload e) eqn:Hp; try done.
  - destruct (Henq e _ _ ltac:(set_solver) Hp) as [op ->]. rewrite map_set_elem. naive_solver.
  - destruct (Hreq e _ _ ltac:(set_solver) Hp) as [[op its] ->]. rewrite map_set_elem. naive_solver.
  - rewrite map_delete_elem. naive_solver.
  - rewrite map_delete_elem. naive_solver.
Qed.

Section Runs.
Context (sessionId : string) (uuid : nat → string) (parent : nat → option string) (timestamp : nat → Z) (messageOf : string → string).
Context (uuid_inj : ∀ m n, uuid m = uuid n → m = n).
Context (queued : string → Prop).

Abbreviation record := (record sessionId uuid parent timestamp).
Abbreviation record_all := (record_all sessionId uuid parent timestamp).
Abbreviation step := (step sessionId uuid parent timestamp messageOf).
Abbreviation run := (run sessionId uuid parent timestamp messageOf).
Abbreviation Inv := (Inv uuid queued).

(** The invariant of a session between two steps. *)
Definition Good (m : managed) : Prop := Inv m (mg_calls m).

Lemma pending_spec m l : Inv m l → ∀ x, x ∈ (pending_items (mg_events m)).*1 ↔ item_of x (mg_events m) = Some Waiting.
Proof.
  intros HI. apply pending_waiting.
  - intros e items priority He Hp. destruct (i_enqueued _ _ _ _ HI e items priority He Hp) as (op & -> & _). by eexists.
  - intros e x priority. apply HI.
Qed.

(** ** Steps *)

Lemma good_calls m l l' : mg_calls m = l → Inv m l' → l ≡ₚ l' → Inv m l.
Proof. intros _ HI Hp. by apply (Inv_perm _ _ m l'). Qed.

Lemma inv_with_calls m l calls : Inv m l → Inv (with_calls calls m) l.
Proof. intros [H1 H2 H3 H4 H5 H6 H7 H8]. by split. Qed.

Lemma keep_perm (c c' : call) i calls : calls !! i = Some c → 
  calls ≡ₚ c :: keep None i calls ∧ keep (Some c') i calls ≡ₚ c' :: keep None i calls.
Proof.
  intros Hi. unfold keep. pose proof (lookup_lt_Some _ _ _ Hi) as Hlt. split.
  - rewrite <- (take_drop_middle _ _ _ Hi) at 1. by rewrite Permutation_middle.
  - rewrite insert_take_drop by done. by rewrite Permutation_middle.
Qed.

Lemma record_other m op p : mg_calls (record op p m) = mg_calls m ∧ mg_draining (record op p m) = mg_draining m.
Proof. done. Qed.

Definition action_ok (a : action) : Prop :=
  match a with ARequest r => request_ok queued r | ARecover ok => ok = true | _ => True end.

(** The kernel is inside the turn of another operation while the queue checks a prompt. *)
Lemma owner_not_queued m l a : Inv m l → mg_activeTurn m = Some a → draining_owner (mg_draining m) = [] → ¬ queued (at_operationId a).
Proof.
  intros HI Ha Hd. pose proof (i_owner _ _ _ _ HI) as Hown. unfold owners in Hown. rewrite Hd, Ha, app_nil_r in Hown. simpl in Hown.
  assert (Hin : at_operationId a ∈ omap call_owner l) by (rewrite Hown; by left).
  apply list_elem_of_omap in Hin as (c & Hc & Ho). pose proof (i_calls _ _ _ _ HI) as Hcalls.
  rewrite Forall_forall in Hcalls. specialize (Hcalls c Hc).
  destruct c as [| | | |op s|kind op| |op its tgt d]; try done; cbn in Ho, Hcalls.
  - destruct s; congruence.
  - congruence.
  - destruct Hcalls as [Hq _]. destruct d as [| | | | |[]| |]; congruence.
Qed.

Lemma inv_turn_event m l a p : Inv m l → mg_activeTurn m = Some a → kernel_payload p = true → Inv (record (Some (at_operationId a)) p m) l.
Proof.
  intros HI Ha Hp. apply inv_record; [done|by destruct p|]. intros q items Hd [= Hop]. exfalso.
  apply (owner_not_queued _ _ _ HI Ha); [by rewrite Hd|]. rewrite Hop.
  eapply find_enqueued_op; [exact HI|]. apply (i_entries _ _ _ _ HI). right. by rewrite Hd.
Qed.

Lemma inv_quiet m l op p : Inv m l → quiet_payload p = true → Inv (record op p m) l.
Proof. intros HI Hp. apply inv_record; [done|by destruct p|]. intros _ _ _ _. by destruct p. Qed.

Lemma inv_record_all m l opening : Inv m l → Inv (record_all opening m) l.
Proof.
  revert m. induction opening as [|[op p] opening IH]; intros m HI; [done|]. cbn. apply IH.
  destruct (quiet_payload p) eqn:Hp; [by apply inv_quiet|done].
Qed.

Lemma inv_reopened m l : Inv m l → Good (reopened m).
Proof.
  intros HI. pose proof (pending_spec _ _ HI) as Hpend. destruct HI as [H1 H2 H3 H4 H5 H6 H7 H8]. split; cbn; try done.
  - intros q [Hq|?]; [|done]. by apply elem_of_nil in Hq.
  - intros x Hx. right. by apply Hpend.
Qed.

(** *** What every operation leaves alone *)

(** A queue with entries has a reason to wait. *)
Definition awake (m : managed) : Prop :=
  mg_queue m = [] ∨ draining_now m = true ∨ owned m = true ∨ claimed m = true ∨ mg_stopping m = true ∨ mg_disposing m = true.

(** An operation that goes from [m] to [m'] does not handle requests, take the branch for the
    queue, or put the queue to sleep. *)
Record frame (m' m : managed) : Prop := {
  f_calls : mg_calls m' = mg_calls m;
  f_rebuilding : mg_rebuilding m' = mg_rebuilding m;
  f_draining : ∀ q, mg_draining m' = SendingQueued q Running → mg_draining m = SendingQueued q Running;
  f_awake : mg_rebuilding m = false → awake m → awake m'
}.

#[local] Ltac branch := match goal with |- context [if ?b then _ else _] => destruct b end.

#[local] Instance frame_preorder : PreOrder frame.
Proof.
  split; [by split|]. intros m1 m2 m3 [C1 R1 D1 A1] [C2 R2 D2 A2].
  split; [congruence|congruence|auto|]. intros Hr Ha. apply A1; [congruence|auto].
Qed.

Lemma start_awake m : mg_rebuilding m = false → awake (startQueueDrain m).
Proof.
  intros Hr. unfold awake, startQueueDrain, drainQueue, drain_next. rewrite Hr.
  destruct (mg_stopping m) eqn:?, (mg_disposing m) eqn:?, (draining_now m) eqn:?, (claimed m) eqn:?, (owned m) eqn:?; cbn; auto 10.
  destruct (mg_queue m) eqn:?; cbn; auto.
Qed.

Lemma start_draining m q : mg_draining (startQueueDrain m) = SendingQueued q Running → mg_draining m = SendingQueued q Running.
Proof. unfold startQueueDrain, drainQueue, drain_next. by repeat case_match. Qed.

Lemma start_frame m m' : mg_calls m' = mg_calls m → mg_rebuilding m' = mg_rebuilding m → mg_draining m' = mg_draining m → frame (startQueueDrain m') m.
Proof.
  intros Hc Hr Hd. split.
  - rewrite <- Hc. unfold startQueueDrain, drainQueue, drain_next. by repeat case_match.
  - rewrite <- Hr. unfold startQueueDrain, drainQueue, drain_next. by repeat case_match.
  - intros q ?%start_draining. congruence.
  - intros H _. apply start_awake. congruence.
Qed.

Lemma leave_frame op m : frame (startQueueDrain (release_turn op m)) m.
Proof. apply start_frame; unfold release_turn; by repeat case_match. Qed.

Lemma release_frame op m : frame (releaseInterruptDelivery op m) m.
Proof. unfold releaseInterruptDelivery. repeat case_match; [by apply start_frame|done..]. Qed.

Lemma record_frame op p m : frame (record op p m) m.
Proof. by split. Qed.

Lemma claim_frame c m : frame (with_claim (Some c) m) m.
Proof. split; try done. intros _ _. unfold awake, claimed. cbn. auto 10. Qed.

Lemma active_frame a m : frame (with_active (Some a) m) m.
Proof. split; try done. intros _ _. unfold awake, owned. cbn. auto 10. Qed.

Lemma reserve_frame op target m : frame (reserveInterruptDelivery op target m).1 m.
Proof. unfold reserveInterruptDelivery. repeat case_match; [apply claim_frame|done|apply claim_frame]. Qed.

Lemma enter_frame op m : frame (enter_turn op m).1 m.
Proof. unfold enter_turn. repeat (case_match; [done|]). apply active_frame. Qed.

Lemma send_frame op items m : frame (send op items m).1 m.
Proof. unfold send. repeat (case_match; [done|]). apply enter_frame. Qed.

Lemma settles_frame op s ok m r : send_settles sessionId uuid parent timestamp op s ok m = Some r → frame r.1 m.
Proof.
  destruct s; cbn; [intros [= <-]; destruct ok; [apply enter_frame|done]|intros [= <-]; destruct ok; [apply record_frame|done]|].
  case_match; [done|]. intros [= <-]. apply leave_frame.
Qed.

Lemma end_frame op a m : frame (end_delivery op a m).1 m.
Proof. apply release_frame. Qed.

Lemma fail_frame op items target code m : frame (fail_delivery op items target code m).1 m.
Proof. unfold fail_delivery. case_match; [done|apply end_frame]. Qed.

Lemma sent_frame op items target r : frame (delivery_sent op items target r).1 r.1.
Proof. destruct r as [m []]; cbn; [|apply fail_frame|done]. case_match; [apply fail_frame|]. case_match; [apply end_frame|done]. Qed.

Lemma send_sent_frame op items target m : frame (delivery_sent op items target (send op items m)).1 m.
Proof. etrans; [apply sent_frame|apply send_frame]. Qed.

Lemma target_frame op items target t m : frame (interrupt_target op items target t m).1 m.
Proof. unfold interrupt_target. branch; [done|]. branch; [done|apply send_sent_frame]. Qed.

Lemma requested_frame op items target m : frame (delivery_requested op items target m).1 m.
Proof. unfold delivery_requested. case_match; [|apply send_sent_frame]. case_match; [apply target_frame|done]. Qed.

Lemma claim_delivery_frame op items target m : frame (claim_delivery op items target m).1 m.
Proof. unfold claim_delivery. case_match; [|apply claim_frame]. etrans; [apply requested_frame|apply claim_frame]. Qed.

Lemma delivery_frame op items target d ok m r :
  delivery_settles sessionId uuid parent timestamp messageOf op items target d ok m = Some r → frame r.1 m.
Proof.
  destruct d; cbn [delivery_settles].
  - intros [= <-]. destruct ok; [apply claim_delivery_frame|done].
  - intros [= <-]. destruct ok; [|apply end_frame]. etrans; [apply requested_frame|apply record_frame].
  - intros [= <-]. destruct ok; [|apply fail_frame].
    etrans; [|apply (record_frame (Some op) (InterruptUpdated Interrupting target None))]. case_match; [apply target_frame|apply send_sent_frame].
  - branch; [done|]. intros [= <-]. apply send_sent_frame.
  - intros [= <-]. destruct ok; [|apply fail_frame]. destruct target; [|apply fail_frame].
    etrans; [apply send_sent_frame|apply record_frame].
  - intros (x & Hx & ->)%fmap_Some. etrans; [apply sent_frame|by eapply settles_frame].
  - intros [= <-]. destruct ok; [etrans; [apply end_frame|apply record_frame]|apply fail_frame].
  - intros [= <-]. destruct ok; [etrans; [apply end_frame|apply record_frame]|apply end_frame].
Qed.

Definition rebuilds (r : request) : bool := match r with Reload _ | Configure _ => true | _ => false end.

Lemma on_request_frame r m : rebuilds r = false → frame (on_request sessionId uuid timestamp r m).1 m.
Proof.
  destruct r as [op items pr|op x pr|op items|op|op command excluded|op|op|op items target]; intros Hr; try done; cbn [on_request].
  - unfold enqueue. by case_match.
  - unfold requeue. by repeat case_match.
  - pose proof (send_frame op items m) as H. unfold sent_outcome. by destruct (send op items m).
  - unfold begin_operation. case_match; [done|apply active_frame].
  - unfold shell. destruct (List.find _ _) as [e|]; [by destruct (ev_payload e)|]. destruct (encodeCanonicalEvent _) as [|[]]; [|done..]. unfold begin_operation. case_match; [done|apply active_frame].
  - unfold interruptAndDeliver. repeat (branch; [done|]). apply claim_delivery_frame.
Qed.

Lemma on_request_calls r m : mg_calls (on_request sessionId uuid timestamp r m).1 = mg_calls m.
Proof.
  destruct (rebuilds r) eqn:Hr; [|by apply f_calls, on_request_frame].
  destruct r; try done; cbn; unfold reload, configure, rebuild; by repeat case_match.
Qed.

(** What a request in flight goes on with, rebuilds apart. *)
Lemma call_frame c ok m r : call_settles sessionId uuid parent timestamp messageOf c ok m = Some r →
  match c with Rebuilding _ => mg_calls r.1 = mg_calls m ∧ mg_draining r.1 = mg_draining m | _ => frame r.1 m end.
Proof.
  destruct c; cbn [call_settles].
  - by intros [= <-].
  - intros [= <-]. destruct ok; [apply record_frame|done].
  - intros [= <-]. destruct ok; [apply record_frame|done].
  - intros [= <-]. by apply start_frame.
  - intros ([m' r'] & Hx & ->)%fmap_Some. by apply settles_frame in Hx.
  - intros [= <-]. apply leave_frame.
  - by intros [= <-].
  - apply delivery_frame.
Qed.

Lemma call_calls c ok m r : call_settles sessionId uuid parent timestamp messageOf c ok m = Some r → mg_calls r.1 = mg_calls m.
Proof. intros H%call_frame. destruct c; by destruct H. Qed.

Lemma drain_calls ok m : mg_calls (drain_step sessionId uuid parent timestamp ok m) = mg_calls m.
Proof.
  unfold drain_step. destruct (mg_draining m) as [|q|q|q s|q|] eqn:Hd; try (by destruct ok).
  - pose proof (f_calls _ _ (send_frame (qt_operationId q) (qt_content q) m)) as H. unfold drain_sent. by destruct (send _ _ m).
  - destruct (send_settles _ _ _ _ _ _ _ _) as [[m' r]|] eqn:Hs; [|done]. by apply settles_frame, f_calls in Hs.
  - unfold drain_next. by repeat case_match.
Qed.

Lemma step_ok a m : action_ok a → Good m → Good (step a m).1.
Proof.
  intros Ha HI. unfold Good in *. destruct a as [r|i ok|ok|p|op p|ok|op target|op| | |opening]; cbn [SessionQueue.step].
  - destruct (existsb _ _); [done|]. pose proof (on_request_ok sessionId uuid timestamp uuid_inj queued r m _ Ha HI) as Ho. pose proof (on_request_calls r m) as Hc.
    destruct (on_request sessionId uuid timestamp r m) as [m' [c|a]] eqn:Hr; cbn in *.
    + apply inv_with_calls. rewrite Hc. eapply Inv_perm; [|exact Ho]. by rewrite Permutation_app_comm.
    + by rewrite Hc.
  - destruct (mg_calls m !! i) as [c|] eqn:Hi; [|done]. destruct (keep_perm c c i _ Hi) as [Hp _].
    destruct (call_settles _ _ _ _ _ c ok m) as [[m' o]|] eqn:Hs; [|done].
    pose proof (call_calls _ _ _ _ Hs) as Hcalls. cbn in Hcalls.
    pose proof (call_settles_ok sessionId uuid parent timestamp uuid_inj queued messageOf c ok m _ _ (Inv_perm _ _ _ _ _ Hp HI) Hs) as Ho.
    destruct o as [c'|a]; cbn in *; apply inv_with_calls; rewrite Hcalls; [|done].
    eapply Inv_perm; [|exact Ho]. destruct (keep_perm c c' i _ Hi) as [_ Hp']. by rewrite Hp'.
  - cbn. rewrite drain_calls. by apply inv_drain.
  - destruct (mg_activeTurn m) as [t|] eqn:Ht; [|done]. destruct (kernel_payload p) eqn:Hp; [|done]. by apply inv_turn_event.
  - cbn. destruct (quiet_payload p) eqn:Hp; [by apply inv_quiet|done].
  - cbn in *. subst ok. unfold recover. destruct (mg_recovering m) as [|[x o] rest] eqn:Hr; [done|]. by apply inv_paused.
  - cbn. unfold reserveInterruptDelivery. destruct (mg_interruptDelivery m) as [c|]; [case_bool_decide|]; try done; by apply inv_with_claim.
  - cbn. rewrite (f_calls _ _ (release_frame op m)). by apply inv_claim_release.
  - by apply inv_with_flags.
  - by apply inv_with_flags.
  - by apply (inv_reopened _ (mg_calls m)), inv_record_all.
Qed.

Lemma run_ok acts m : Forall action_ok acts → Good m → Good (run acts m).1.
Proof.
  intros Hacts. revert m. induction Hacts as [|a acts Ha _ IH]; intros m HI; [done|]. cbn.
  pose proof (step_ok a m Ha HI) as Hs. destruct (step a m) as [m1 o]. specialize (IH m1 Hs). by destruct (run acts m1).
Qed.

(** The runs of a session, from its creation on. *)
Definition reachable (m : managed) : Prop := ∃ acts, Forall action_ok acts ∧ (run acts (opened [] 0)).1 = m.

Lemma opened_good : Good (opened [] 0).
Proof. split; cbn; try done; try (by intros ? ?%elem_of_nil); try (by intros ? ? ? ?%elem_of_nil). intros q [Hq|?]; [by apply elem_of_nil in Hq|done]. Qed.

Lemma reachable_good m : reachable m → Good m.
Proof. intros (acts & Ha & <-). apply run_ok; [done|apply opened_good]. Qed.

(** ** Awake *)

Lemma drain_awake ok m : mg_rebuilding m = false → awake m →
  let m' := drain_step sessionId uuid parent timestamp ok m in mg_rebuilding m' = false ∧ awake m'.
Proof.
  intros Hr Ha. unfold drain_step. destruct (mg_draining m) as [|q|q|q s|q|] eqn:Hd; [done|..].
  - destruct ok; (split; [done|unfold awake; cbn; auto 10]).
  - pose proof (f_rebuilding _ _ (send_frame (qt_operationId q) (qt_content q) m)) as H. unfold drain_sent. destruct (send _ _ m) as [m' []]; cbn in *;
      (split; [congruence|unfold awake; cbn; auto 10]).
  - destruct (send_settles _ _ _ _ _ _ _ _) as [[m' r]|] eqn:Hs; [|done]. apply settles_frame, f_rebuilding in Hs. cbn in Hs.
    unfold drain_sent. split; [cbn; congruence|]. destruct r; unfold awake; cbn; auto 10.
  - destruct ok; (split; [done|unfold awake; cbn; auto 10]).
  - unfold drain_next. rewrite Hr. destruct (mg_stopping m) eqn:?; [split; [done|unfold awake; cbn; auto 10]|].
    destruct (mg_disposing m) eqn:?; [split; [done|unfold awake; cbn; auto 10]|].
    destruct (owned m) eqn:?; [split; [done|unfold awake; cbn; auto 10]|]. destruct (mg_queue m); (split; [done|unfold awake; cbn; auto 10]).
Qed.

Definition no_rebuild (a : action) : Prop := match a with ARequest r => rebuilds r = false | _ => True end.

Lemma frame_awake m' m : frame m' m → mg_rebuilding m = false → awake m → mg_rebuilding m' = false ∧ awake m'.
Proof. intros [_ Hr _ Ha] Hm Hw. split; [congruence|auto]. Qed.

Lemma record_all_same opening m : let m' := record_all opening m in
  mg_rebuilding m' = mg_rebuilding m ∧ mg_queue m' = mg_queue m ∧ (∀ x, item_of x (mg_events m') = item_of x (mg_events m)).
Proof.
  revert m. induction opening as [|[op p] opening IH]; intros m; [done|]. cbn. destruct (IH (if quiet_payload p then record op p m else m)) as (H1 & H2 & H3).
  destruct (quiet_payload p) eqn:Hp; [|done]. split_and!; [done..|]. intros x. rewrite H3, item_record. apply item_other. by destruct p.
Qed.

Lemma step_awake a m : no_rebuild a → mg_rebuilding m = false → awake m → mg_rebuilding (step a m).1 = false ∧ awake (step a m).1.
Proof.
  intros Ha Hr Hw. destruct a as [r|i ok|ok|p|op p|ok|op target|op| | |opening]; cbn [SessionQueue.step].
  - destruct (existsb _ _); [done|]. pose proof (frame_awake _ _ (on_request_frame r m Ha) Hr Hw) as H. by destruct (on_request sessionId uuid timestamp r m) as [m' []].
  - destruct (mg_calls m !! i) as [c|] eqn:Hi; [|done]. destruct (call_settles _ _ _ _ _ c ok m) as [[m' o]|] eqn:Hs; [|done].
    assert (H : mg_rebuilding m' = false ∧ awake m'); [|by destruct o]. destruct c; try (by apply (frame_awake _ m); [apply (call_frame _ _ _ _ Hs)|..]).
    by injection Hs as <- _.
  - by apply drain_awake.
  - destruct (mg_activeTurn m); [|done]. by destruct (kernel_payload p).
  - by destruct (quiet_payload p).
  - cbn. unfold recover. destruct (mg_recovering m) as [|[x o] rest]; [done|]. by destruct ok.
  - apply (frame_awake _ m); [apply reserve_frame|done..].
  - apply (frame_awake _ m); [apply release_frame|done..].
  - split; [done|unfold awake; cbn; auto 10].
  - split; [done|unfold awake; cbn; auto 10].
  - split; [done|by left].
Qed.

Lemma run_awake acts m : Forall no_rebuild acts → mg_rebuilding m = false → awake m → mg_rebuilding (run acts m).1 = false ∧ awake (run acts m).1.
Proof.
  intros Hacts. revert m. induction Hacts as [|a acts Ha _ IH]; intros m Hr Hw; [done|]. cbn.
  pose proof (step_awake a m Ha Hr Hw) as [Hr' Hw']. destruct (step a m) as [m1 o]. specialize (IH m1 Hr' Hw'). by destruct (run acts m1).
Qed.

(** ** Taking the branch *)

Lemma drain_takes ok m l q : Inv m l → mg_draining (drain_step sessionId uuid parent timestamp ok m) = SendingQueued q Running →
  mg_draining m = SendingQueued q Running ∨ has_message (qt_operationId q) (mg_events m) = false ∧ has_terminal (qt_operationId q) (mg_events m) = false.
Proof.
  intros HI. unfold drain_step. destruct (mg_draining m) as [|q'|q'|q' s|q'|] eqn:Hd; [congruence|by destruct ok|..|by destruct ok|].
  - unfold drain_sent. destruct (send_cases (qt_operationId q') (qt_content q') m) as [(r & -> & Hcase)|(-> & Ha & Hm & Ht)]; cbn.
    + by destruct r as [| |[]].
    + intros [= ->]. by right.
  - destruct s as [items| |]; cbn.
    + destruct (i_checking _ _ _ _ HI q' items Hd) as [Hm Ht]. destruct ok; [|done]. destruct (enter_cases (qt_operationId q') m) as [[code ->]|[-> _]]; [done|].
      cbn. intros [= ->]. by right.
    + by destruct ok.
    + destruct (_ && _); cbn; [intros H; left; congruence|]. by destruct ok.
  - unfold drain_next. by repeat case_match.
Qed.

Lemma step_takes a m q : mg_draining (step a m).1 = SendingQueued q Running →
  mg_draining m = SendingQueued q Running ∨ ∃ ok, mg_draining (drain_step sessionId uuid parent timestamp ok m) = SendingQueued q Running.
Proof.
  destruct a as [r|i ok|ok|p|op p|ok|op target|op| | |opening]; cbn [SessionQueue.step]; try (by left).
  - destruct (existsb _ _); [by left|]. intros H. left. assert (Hd : mg_draining (on_request sessionId uuid timestamp r m).1 = SendingQueued q Running) by (by destruct (on_request sessionId uuid timestamp r m) as [m' []]).
    destruct (rebuilds r) eqn:Hr; [|by eapply f_draining; [by apply on_request_frame|]].
    destruct r; try done; cbn in Hd; unfold reload, configure, rebuild in Hd; by repeat case_match.
  - destruct (mg_calls m !! i) as [c|] eqn:Hi; [|by left]. destruct (call_settles _ _ _ _ _ c ok m) as [[m' o]|] eqn:Hs; [|by left].
    intros H. left. assert (Hd : mg_draining m' = SendingQueued q Running) by (by destruct o). apply call_frame in Hs.
    destruct c; try (by apply (f_draining _ _ Hs)). destruct Hs as [_ Hs]. cbn in Hs. congruence.
  - right. by exists ok.
  - destruct (mg_activeTurn m); [|by left]. destruct (kernel_payload p); by left.
  - destruct (quiet_payload p); by left.
  - cbn. unfold recover. destruct (mg_recovering m) as [|[x o] rest]; [by left|]. destruct ok; by left.
  - intros H. left. by apply (f_draining _ _ (reserve_frame op target m)).
  - intros H. left. by apply (f_draining _ _ (release_frame op m)).
Qed.

(** *** Restarts *)

Lemma item_paused x op p m : item_of x (mg_events (record op (QueuePaused p) m)) = if bool_decide (p = x) then Some Paused else item_of x (mg_events m).
Proof. by rewrite item_record. Qed.

Lemma recover_all rest m : mg_recovering m = rest →
  let m' := (run (replicate (length rest) (ARecover true)) m).1 in
  mg_recovering m' = [] ∧ mg_queue m' = mg_queue m ∧ mg_calls m' = mg_calls m ∧
  ∀ x, item_of x (mg_events m') = if bool_decide (x ∈ rest.*1) then Some Paused else item_of x (mg_events m).
Proof.
  revert m. induction rest as [|[y op] rest IH]; intros m Hrest; cbn.
  - by rewrite Hrest.
  - unfold recover. rewrite Hrest. set (m1 := with_recovering rest _). destruct (IH m1 eq_refl) as (H1 & H2 & H3 & H4).
    pose proof (λ x, item_paused x (Some op) y m : item_of x (mg_events m1) = _) as Hm1.
    destruct (run (replicate (length rest) (ARecover true)) m1) as [m2 os]. cbn [fst] in *. split_and!; try done.
    intros x. rewrite H4, Hm1.
    case_bool_decide as Hx; case_bool_decide as Hy; try case_bool_decide as Hz; try done; set_solver.
Qed.
(** ** What follows *)

(** a prompt that the session accepted is not lost: while its last event in the log is
    [queue.enqueued] or [queue.requeued], the session holds it in its queue, is about to start
    it, is about to answer the request that queued it, or is about to pause it after a restart;
    except for a session that is being disposed. *)
Theorem waiting_prompt_is_held m x : reachable m → item_of x (mg_events m) = Some Waiting →
  mg_disposing m = true ∨ x ∈ memory m (mg_calls m).
Proof. intros HI%reachable_good. apply HI. Qed.

(** C29: the branch of a session has one owner at a time: the operations that are in their
    turn - sends, deliveries, shells, compactions, and the prompt the queue runs - are the one
    of [activeTurn], or none when it is not set. *)
Theorem branch_has_one_owner m : reachable m → owners m (mg_calls m) = option_list (at_operationId <$> mg_activeTurn m).
Proof. intros HI%reachable_good. apply HI. Qed.

(** C27: a queued prompt runs at most once: whenever the branch is taken for the operation of a
    queued prompt, the log holds neither a message of that operation nor the end of its turn. *)
Theorem queued_prompt_runs_once m a op : reachable m → action_ok a → queued op →
  at_operationId <$> mg_activeTurn m ≠ Some op → at_operationId <$> mg_activeTurn (step a m).1 = Some op →
  has_message op (mg_events m) = false ∧ has_terminal op (mg_events m) = false.
Proof.
  intros HI%reachable_good Ha Hq Hbefore Hafter. pose proof (step_ok a m Ha HI) as HI'. unfold Good in *.
  destruct (mg_activeTurn (step a m).1) as [t|] eqn:Ht; [|done]. injection Hafter as Hop.
  destruct (draining_owner (mg_draining (step a m).1)) as [|o os] eqn:Hd.
  { exfalso. apply (owner_not_queued _ _ _ HI' Ht Hd). by rewrite Hop. }
  destruct (mg_draining (step a m).1) as [| | |q s| |] eqn:Hdr; try done. destruct s; try done.
  assert (Hqop : qt_operationId q = op).
  { pose proof (i_owner _ _ _ _ HI') as Hown. unfold owners in Hown. rewrite Hdr, Ht in Hown. cbn in Hown. rewrite Hop in Hown.
    destruct (omap call_owner _) as [|y ys]; simpl in Hown; [by injection Hown|]. injection Hown as _ Hown. by destruct ys. }
  assert (Hnot : mg_draining m ≠ SendingQueued q Running).
  { intros Hm. apply Hbefore. pose proof (i_owner _ _ _ _ HI) as Hown. unfold owners in Hown. rewrite Hm in Hown. cbn in Hown.
    destruct (mg_activeTurn m) as [b|]; simpl in *; [|by destruct (omap call_owner _)].
    destruct (omap call_owner _) as [|y ys]; simpl in Hown; [injection Hown as Hown; congruence|]. injection Hown as _ Hown. by destruct ys. }
  destruct (step_takes _ _ _ Hdr) as [|[ok Hok]]; [done|]. destruct (drain_takes _ _ _ _ HI Hok) as [|H]; [done|]. by rewrite Hqop in H.
Qed.

(** C28: a session at rest has run its queue: in runs without reloads and configurations, when
    no request is being handled, the queue is not draining, nothing claims the branch and the
    session is neither stopping nor disposed, the queue is empty; once the items of an earlier
    process are paused, no prompt waits in the log either. *)
Theorem rest_means_empty_queue acts m : Forall action_ok acts → Forall no_rebuild acts →
  (run acts (opened [] 0)).1 = m → mg_calls m = [] → mg_draining m = NotDraining → mg_interruptDelivery m = None →
  mg_stopping m = false → mg_disposing m = false →
  mg_queue m = [] ∧ (mg_recovering m = [] → ∀ x, item_of x (mg_events m) ≠ Some Waiting).
Proof.
  intros Ha Hn <- Hc Hd Hcl Hst Hdis. pose proof (run_ok acts (opened [] 0) Ha opened_good) as HI. unfold Good in HI.
  destruct (run_awake acts (opened [] 0) Hn eq_refl (or_introl eq_refl)) as [_ Hw]. set (m := (run acts (opened [] 0)).1) in *.
  assert (Hown : mg_activeTurn m = None).
  { pose proof (i_owner _ _ _ _ HI) as Hown. unfold owners in Hown. rewrite Hc, Hd in Hown. by destruct (mg_activeTurn m). }
  assert (Hq : mg_queue m = []).
  { unfold awake, draining_now, owned, claimed in Hw. rewrite Hd, Hcl, Hst, Hdis, Hown in Hw. by destruct Hw as [?|[?|[?|[?|[?|?]]]]]. }
  split; [done|]. intros Hr x Hx. destruct (i_kept _ _ _ _ HI x Hx) as [|Hm]; [congruence|].
  unfold memory, entries in Hm. rewrite Hq, Hd, Hc, Hr in Hm. by apply elem_of_nil in Hm.
Qed.

(** a restart pauses what was waiting: opened again, with whatever the kernel repairs,
    a session whose pauses are recorded has paused every prompt that waited, left every other
    prompt as it was, and holds nothing in its queue; opened once more it has nothing to pause. *)
Theorem restart_pauses_waiting m opening : reachable m →
  let m1 := (step (ARestart opening) m).1 in
  let m2 := (run (replicate (length (mg_recovering m1)) (ARecover true)) m1).1 in
  mg_recovering m2 = [] ∧ mg_queue m2 = [] ∧ mg_calls m2 = [] ∧
  (∀ x, item_of x (mg_events m2) = match item_of x (mg_events m) with Some Waiting => Some Paused | s => s end) ∧
  mg_recovering (reopened m2) = [].
Proof.
  intros HI%reachable_good m1 m2. pose proof (step_ok (ARestart opening) m I HI) as HI1. fold m1 in HI1.
  assert (HI2 : Good m2) by (apply run_ok; [by apply Forall_replicate|done]).
  destruct (recover_all _ m1 eq_refl) as (H1 & H2 & H3 & H4). fold m2 in H1, H2, H3, H4.
  destruct (record_all_same opening m) as (_ & _ & Hsame). pose proof (pending_spec _ _ (inv_record_all _ _ opening HI)) as Hpend.
  assert (Hitems : ∀ x, item_of x (mg_events m2) = match item_of x (mg_events m) with Some Waiting => Some Paused | s => s end).
  { intros x. rewrite H4. change (mg_events m1) with (mg_events (record_all opening m)). rewrite Hsame.
    assert (Hiff := Hpend x). rewrite Hsame in Hiff. change (mg_recovering m1) with (pending_items (mg_events (record_all opening m))).
    case_bool_decide as Hin; [by rewrite (proj1 Hiff Hin)|]. destruct (item_of x (mg_events m)) as [[]|]; naive_solver. }
  split_and!; try done. cbn. destruct (pending_items (mg_events m2)) as [|[x op] rest] eqn:Hp; [done|]. exfalso.
  assert (Hx : item_of x (mg_events m2) = Some Waiting) by (apply (pending_spec _ _ HI2); rewrite Hp; by left).
  rewrite Hitems in Hx. by repeat case_match.
Qed.
(** a queued prompt can be overtaken: between the append of [queue.started] and the send,
    another operation may take the branch; the prompt is then not put back but ends with an
    error, without a message in the log. *)
Theorem overtaken_prompt_fails m q : mg_draining m = Started q → owned m = true → mg_stopping m = false →
  has_blob (qt_content q) = false → has_message (qt_operationId q) (mg_events m) = false → has_terminal (qt_operationId q) (mg_events m) = false →
  let m' := (run [ADrain true; ADrain true] m).1 in
  mg_draining m' = Next ∧ mg_queue m' = mg_queue m ∧ has_message (qt_operationId q) (mg_events m') = false ∧
  has_terminal (qt_operationId q) (mg_events m') = true ∧ item_of (qt_queueItemId q) (mg_events m') = item_of (qt_queueItemId q) (mg_events m).
Proof.
  intros Hd Ho Hs Hb Hm Ht. assert (Hr : (run [ADrain true; ADrain true] m).1 =
    with_queue (mg_queue m) Next (record (Some (qt_operationId q)) (SessionErrorP "queued_prompt_failed" "Queued prompt execution failed" false None) m)).
  { cbn. unfold drain_step at 2. rewrite Hd. unfold send, enter_turn. rewrite Hs, Ht, Hm, Hb, Ho. by destruct (mg_disposing m). }
  rewrite Hr. cbv zeta. split; [done|]. split; [done|]. unfold has_message, has_terminal in *. cbn [mg_events with_queue with_log SessionQueue.record].
  rewrite !has_event_app, Hm, Ht, item_snoc, item_other by done. split_and!; [|by cbn; unfold of_op; cbn; rewrite bool_decide_true|done].
  cbn. by rewrite andb_false_r.
Qed.
End Runs.

(** ** Sample runs *)

Definition sample_queued (op : string) : Prop := op = "p".
Definition sample_run (acts : list action) : managed :=
  (run "s" tally (λ _, None) (λ _, 0%Z) (λ code, code) acts (opened [] 0)).1.
Definition sample_reachable (m : managed) : Prop := reachable "s" tally (λ _, None) (λ _, 0%Z) (λ code, code) sample_queued m.

(** A prompt is queued, started, and run. *)
Definition sample_enqueued : list action := [ARequest (Enqueue "p" [] Back); ASettle 0 true].
Definition sample_started : list action := sample_enqueued ++ [ASettle 0 true; ADrain true].
Definition sample_sent : list action := sample_started ++ [ADrain true].
Definition sample_done : list action :=
  sample_sent ++ [ATurnEvent (UserMessage []); ATurnEvent (AssistantMessage [] SStop None None); ADrain true; ADrain true].

Lemma waiting_prompt_is_held_witness : mg_disposing (sample_run sample_enqueued) = true ∨
  "" ∈ memory (sample_run sample_enqueued) (mg_calls (sample_run sample_enqueued)).
Proof.
  apply (waiting_prompt_is_held "s" tally (λ _, None) (λ _, 0%Z) (λ code, code) tally_inj sample_queued); [|by vm_compute].
  exists sample_enqueued. split; [|done]. by repeat constructor.
Defined.

Lemma branch_has_one_owner_witness : owners (sample_run sample_sent) (mg_calls (sample_run sample_sent)) = ["p"].
Proof.
  apply (branch_has_one_owner "s" tally (λ _, None) (λ _, 0%Z) (λ code, code) tally_inj sample_queued (sample_run sample_sent)).
  exists sample_sent. split; [|done]. by repeat constructor.
Defined.

Lemma queued_prompt_runs_once_witness : has_message "p" (mg_events (sample_run sample_started)) = false ∧
  has_terminal "p" (mg_events (sample_run sample_started)) = false.
Proof.
  apply (queued_prompt_runs_once "s" tally (λ _, None) (λ _, 0%Z) (λ code, code) tally_inj sample_queued (sample_run sample_started) (ADrain true));
    [|done|done|by vm_compute|by vm_compute].
  exists sample_started. split; [|done]. by repeat constructor.
Defined.

Lemma rest_means_empty_queue_witness : mg_queue (sample_run sample_done) = [] ∧
  (mg_recovering (sample_run sample_done) = [] → ∀ x, item_of x (mg_events (sample_run sample_done)) ≠ Some Waiting).
Proof.
  apply (rest_means_empty_queue "s" tally (λ _, None) (λ _, 0%Z) (λ code, code) tally_inj sample_queued sample_done (sample_run sample_done));
    [by repeat constructor|by repeat constructor|unfold sample_run; reflexivity|vm_compute; reflexivity..].
Defined.

Lemma restart_pauses_waiting_witness :
  let m1 := (step "s" tally (λ _, None) (λ _, 0%Z) (λ code, code) (ARestart []) (sample_run sample_enqueued)).1 in
  let m2 := (run "s" tally (λ _, None) (λ _, 0%Z) (λ code, code) (replicate (length (mg_recovering m1)) (ARecover true)) m1).1 in
  mg_recovering m2 = [] ∧ mg_queue m2 = [] ∧ mg_calls m2 = [] ∧
  (∀ x, item_of x (mg_events m2) = match item_of x (mg_events (sample_run sample_enqueued)) with Some Waiting => Some Paused | s => s end) ∧
  mg_recovering (reopened m2) = [].
Proof.
  apply (restart_pauses_waiting "s" tally (λ _, None) (λ _, 0%Z) (λ code, code) tally_inj sample_queued (sample_run sample_enqueued) []).
  exists sample_enqueued. split; [|done]. by repeat constructor.
Defined.

(** Another client's prompt comes first. *)
Definition sample_overtaken : managed := sample_run (sample_started ++ [ARequest (Send "c" [])]).
Definition sample_entry : QueuedTurn := {| qt_queueItemId := ""; qt_operationId := "p"; qt_content := []; qt_priority := Back |}.

Lemma overtaken_prompt_fails_witness :
  let m' := (run "s" tally (λ _, None) (λ _, 0%Z) (λ code, code) [ADrain true; ADrain true] sample_overtaken).1 in
  mg_draining m' = Next ∧ mg_queue m' = mg_queue sample_overtaken ∧ has_message "p" (mg_events m') = false ∧
  has_terminal "p" (mg_events m') = true ∧ item_of "" (mg_events m') = item_of "" (mg_events sample_overtaken).
Proof.
  apply (overtaken_prompt_fails "s" tally (λ _, None) (λ _, 0%Z) (λ code, code) sample_overtaken sample_entry); by vm_compute.
Defined.

(** a prompt that is queued while the session is rebuilt for a reload sleeps: the rebuild
    ends without draining the queue, and the session is at rest with the prompt in it. *)
Theorem prompt_sleeps_after_reload :
  let m := sample_run [ARequest (Reload "r"); ARequest (Enqueue "p" [] Back); ASettle 1 true; ASettle 1 true; ASettle 0 true] in
  mg_calls m = [] ∧ mg_draining m = NotDraining ∧ mg_activeTurn m = None ∧ mg_interruptDelivery m = None ∧ mg_rebuilding m = false ∧
  mg_stopping m = false ∧ mg_disposing m = false ∧ mg_queue m = [sample_entry] ∧ item_of "" (mg_events m) = Some Waiting.
Proof. by vm_compute. Qed.
