(* ===== verification/ReplayLog.v ===== *)
(** kernel/src/replay.ts: the deterministic replay of one session log into another,
    over the file model of EventLog, the tree of SessionTree and the integrity
    check of Replay. *)
From stdpp Require Import base list sets strings pretty gmap.
From Stdlib Require Import ZArith Lia.
From S2P Require Import Prelude Text JsValue Json JsonText Envelope Types EventSchema Redaction EventLog SessionTree Replay.

Inductive replay_failure :=
| SourceLog (e : log_error)
| SourceTree (e : tree_error)
| SourceIntegrity (e : integrity_error)
| DestinationLog (e : log_error)
| DestinationTree (e : tree_error)
| Refused (e : ReplayError).

Record ReplaySessionResult := { rsr_events : list EventEnvelope; rsr_tree : SessionTree }.

(** The typed view of parsed events.  [parseEvent_decodes]: every event a log read
    returns has one, so none is left out. *)
Definition typed (events : list EventEnvelope) : list event := omap decode_event events.

(** The files by absolute path. *)
Definition with_file (path : string) (f : option string) (fs : gmap string string) : gmap string string :=
  partial_alter (λ _, f) path fs.

Section ReplayLog.
(** [resolve] of node:path; what the file system answers to each operation, by
    number: the two opens, the read back, and the appends from the third on. *)
Context (resolve : string → string) (options : EventLogOptions) (answers : nat → io).

Definition open_path (path : string) (sessionId : jsval) (n : nat) (fs : gmap string string) :
    result log_error (string * EventLogReadResult) * gmap string string :=
  let (r, f) := open_log sessionId (answers n) (fs !! resolve path) in (r, with_file (resolve path) f fs).

(** [for (const event of source.events) await destination.log.append(event)] *)
Fixpoint append_all (sid path : string) (n : nat) (events : list EventEnvelope) (fs : gmap string string) :
    result log_error unit * gmap string string :=
  match events with
  | [] => (Ok tt, fs)
  | e :: rest =>
      let (r, f) := append options sid (envelope_value e) (answers n) (default "" (fs !! resolve path)) in
      let fs := with_file (resolve path) (Some f) fs in
      match r with
      | Err err => (Err err, fs)
      | Ok _ => append_all sid path (S n) rest fs
      end
  end.

Definition events_text (events : list EventEnvelope) : string := json_text (JArr (envelope_value <$> events)).

(** [destination.log.read()] and the comparison with the source. *)
Definition read_back (sid destinationPath : string) (source : list EventEnvelope) (fs : gmap string string) :
    result replay_failure ReplaySessionResult * gmap string string :=
  let (r, f) := readAndRecover sid (answers 2) (default "" (fs !! resolve destinationPath)) in
  let fs := with_file (resolve destinationPath) (Some f) fs in
  (match r with
   | Err e => Err (DestinationLog e)
   | Ok readBack =>
       match fromEvents (JStr sid) (typed (rr_events readBack)) with
       | Err e => Err (DestinationTree e)
       | Ok tree =>
           if negb (bool_decide (events_text (rr_events readBack) = events_text source)) then
             Err (Refused (replay_error ("Replay into " +:+ quote destinationPath +:+
                                         " diverged from the source log")))
           else Ok {| rsr_events := rr_events readBack; rsr_tree := tree |}
       end
   end, fs).

Definition check_source (sid : string) (source : list EventEnvelope) : result replay_failure unit :=
  match fromEvents (JStr sid) (typed source) with
  | Err e => Err (SourceTree e)
  | Ok tree =>
      match verifyToolCallIntegrity tree with
      | Err e => Err (SourceIntegrity e)
      | Ok _ => Ok tt
      end
  end.

Definition replaySessionLog (sourcePath destinationPath : string) (sessionId : jsval) (fs : gmap string string) :
    result replay_failure ReplaySessionResult * gmap string string :=
  match open_path sourcePath sessionId 0 fs with
  | (Err e, fs) => (Err (SourceLog e), fs)
  | (Ok (sid, source), fs) =>
      match check_source sid (rr_events source) with
      | Err e => (Err e, fs)
      | Ok _ =>
          match open_path destinationPath (JStr sid) 1 fs with
          | (Err e, fs) => (Err (DestinationLog e), fs)
          | (Ok (_, destination), fs) =>
              if 0 <? length (rr_events destination) then
                (Err (Refused (replay_error ("Replay destination " +:+ quote destinationPath +:+ " is not empty"))), fs)
              else
                match append_all sid destinationPath 3 (rr_events source) fs with
                | (Err e, fs) => (Err (DestinationLog e), fs)
                | (Ok _, fs) => read_back sid destinationPath (rr_events source) fs
                end
          end
      end
  end.

(** ** Facts *)

(** A disk on which every operation succeeds. *)
Record healthy (i : io) : Prop := {
  hio_write : ∀ n, ∃ k, io_write i n = Wrote (S k);
  hio_sync : io_sync i = true;
  hio_truncate : io_truncate i = true;
  hio_truncate_sync : io_truncate_sync i = true
}.

(** An event that redaction and the log's preparations leave as it is. *)
Definition settled_event (sid : string) (e : EventEnvelope) : Prop :=
  prepare options sid (envelope_value e) = Ok (e, event_text e).

Lemma write_healthy line i file : healthy i → appendDurably line i file = (Ok tt, file +:+ line).
Proof.
  intros [Hw Hs _ _]. unfold appendDurably.
  pose proof (write_loop_spec (String.length line) 0 (io_write i) line file ltac:(lia)) as H.
  destruct (write_loop _ _ _ _ _) as [[|] f].
  - by rewrite H, Hs.
  - destruct H as [_ [j Hj]]. destruct (Hw j) as [k Hk]. rewrite Hk in Hj. by destruct Hj.
Qed.

Lemma lookup_with_file path f fs : with_file path f fs !! path = f.
Proof. apply lookup_partial_alter_eq. Qed.
Lemma with_file_twice path f g fs : with_file path f (with_file path g fs) = with_file path f fs.
Proof.
  apply map_eq. intros i. destruct (decide (i = path)) as [->|Hi]; [by rewrite !lookup_with_file|].
  unfold with_file. by rewrite !lookup_partial_alter_ne by done.
Qed.
Lemma with_file_same path f fs : fs !! path = f → with_file path f fs = fs.
Proof.
  intros H. apply map_eq. intros i. destruct (decide (i = path)) as [->|Hi]; [by rewrite lookup_with_file|].
  by apply lookup_partial_alter_ne.
Qed.

Lemma append_all_settled sid path n done rest fs :
  (∀ i, healthy (answers i)) → Forall (settled_event sid) rest →
  fs !! resolve path = Some (file_of done) →
  append_all sid path n rest fs = (Ok tt, with_file (resolve path) (Some (file_of (done ++ rest))) fs).
Proof.
  intros Hh. revert n done fs; induction rest as [|e rest IH]; intros n done fs Hs Hf; cbn [append_all].
  - rewrite app_nil_r. by rewrite with_file_same.
  - apply Forall_cons in Hs as [He Hs]. rewrite Hf. cbn [default]. unfold append. rewrite He.
    rewrite write_healthy by apply Hh. unfold id. fold (line_of e). rewrite <- file_of_snoc.
    cbv zeta. rewrite (IH (S n) (done ++ [e])); [|done|apply lookup_with_file].
    rewrite with_file_twice. by rewrite <- app_assoc.
Qed.
End ReplayLog.

(** C20: replaying a session reproduces it: when the source file holds events of one
    session that form a tree on which every call is paired with its result, that
    storing leaves as they are, and the destination is another path with no file or
    an empty one, then on a disk that works the replay returns exactly the source's
    events and their tree, the destination becomes byte for byte the source, and no
    other file changes. *)
Theorem replay_reproduces resolve options answers source destination sid events fs :
  (∀ i, healthy (answers i)) →
  resolve source ≠ resolve destination →
  fs !! resolve source = Some (file_of events) → default "" (fs !! resolve destination) = "" →
  is_uuid sid = true → Forall (storable sid) events → Forall (settled_event options sid) events →
  log_ok sid (typed events) → (∀ id path, path_to (typed events) id path → paired path) →
  replaySessionLog resolve options answers source destination (JStr sid) fs =
    (Ok {| rsr_events := events; rsr_tree := tree_of sid (typed events) |},
     <[resolve destination := file_of events]> fs).
Proof.
  intros Hh Hne Hsrc Hdst Hsid Hst Hset Hlog Hpair.
  assert (Hread : ∀ i, readAndRecover sid (answers i) (file_of events) =
    (Ok {| rr_events := events; rr_recoveredBytes := 0 |}, file_of events)).
  { intros i. pose proof (read_file sid (answers i) events "" Hst eq_refl) as H. rewrite string_app_nil_r in H.
    apply H; apply Hh. }
  assert (Htree : fromEvents (JStr sid) (typed events) = Ok (tree_of sid (typed events))).
  { apply fromEvents_Ok. by exists sid. }
  unfold replaySessionLog, open_path at 1, open_log. rewrite (proj2 (parseId_Ok _ _ sid)) by done.
  rewrite Hsrc. cbn [default]. rewrite Hread. rewrite with_file_same by done.
  unfold check_source. cbn [rr_events]. rewrite Htree, (proj2 (verify_paired _ _ Hlog)) by done.
  unfold open_path, open_log. rewrite (proj2 (parseId_Ok _ _ sid)) by done. rewrite Hdst.
  change (readAndRecover sid (answers 1) "") with
    (Ok (E:=log_error) {| rr_events := []; rr_recoveredBytes := 0 |}, "").
  cbn [rr_events length Nat.ltb Nat.leb].
  rewrite (append_all_settled _ _ _ sid destination 3 []);
    [|done|done|apply lookup_with_file]. rewrite with_file_twice. cbn [app].
  unfold read_back. rewrite lookup_with_file. cbn [default]. rewrite Hread. cbn [rr_events]. rewrite Htree.
  rewrite bool_decide_true by done. cbn [negb]. f_equal. rewrite with_file_twice. done.
Qed.

Lemma healthy_sample : healthy sample_io.
Proof. split; try done. by exists 6. Qed.

Lemma replay_reproduces_witness :
  let source := file_of [event_envelope redacted_event] in
  replaySessionLog (λ p, p) sample_options (λ _, sample_io) "/source" "/copy" (JStr sample_id) {[ "/source" := source ]} =
    (Ok {| rsr_events := [event_envelope redacted_event];
           rsr_tree := tree_of sample_id (typed [event_envelope redacted_event]) |},
     <["/copy" := source]> {[ "/source" := source ]}).
Proof.
  assert (Hlog : log_ok sample_id (typed [event_envelope redacted_event])).
  { assert (fromEvents (JStr sample_id) (typed [event_envelope redacted_event]) =
      Ok (tree_of sample_id (typed [event_envelope redacted_event]))) as H by (vm_compute; reflexivity).
    apply fromEvents_Ok in H as (sid & [= <-] & _ & H & _). exact H. }
  apply (replay_reproduces (λ p, p) sample_options (λ _, sample_io) "/source" "/copy" sample_id
    [event_envelope redacted_event] {[ "/source" := file_of [event_envelope redacted_event] ]}).
  - intros i. apply healthy_sample.
  - done.
  - apply lookup_singleton_eq.
  - reflexivity.
  - reflexivity.
  - apply Forall_singleton, redacted_storable.
  - apply Forall_singleton. vm_compute. reflexivity.
  - exact Hlog.
  - apply verify_paired with (1 := Hlog). vm_compute. reflexivity.
Defined.
