(* ===== verification/Migration.v ===== *)
(** daemon/src/event-migration.ts: a session whose log holds an event above the size limit is
    rewritten into another session; what the rewriting makes of the events, and the order in
    which files are written, crashes included. *)
From stdpp Require Import base list sets strings pretty gmap.
From Stdlib Require Import ZArith Lia Ascii.
From S2P Require Import Prelude Text JsValue Json JsonText Utf8 Envelope Types Events EventSchema JsMap Sha256 Canonical EventLog SessionTree Replay ReplayLog.

(** ** Digests and identifiers *)

Inductive migration_error :=
| NotDecodable
| NotParsed
| InvalidEvent (e : ProtocolValidationError)
| IdentityMismatch
| IncompleteFinalLine
| EmptySource
| NotRequired
| Unsupported (eventId : string)
| NoPrefix
| BackupMismatch
| ManifestMismatch
| MalformedFile
| MigratedLog (e : log_error)
| MigratedTree (e : tree_error)
| MigratedCalls (e : integrity_error)
| IncompleteLog
| MissingFile
| BlobMismatch (digest : string).

Definition MAX_MIGRATION_BLOB_BYTES : Z := 20 * 1024 * 1024.

Section Migration.
(** [createHash("sha256")] of node:crypto, on the bytes of a text. *)
Context (digest : string → list Z).

Definition sha256_hex (text : string) : string := hex_bytes (digest text).

Definition slice (first last : nat) (s : string) : string := String.substring first (last - first) s.

Definition deterministicUuid (seed : string) : string :=
  let bytes := take 16 (digest seed) in
  let bytes := <[6 := Z.lor (Z.land (default 0%Z (bytes !! 6)) 15) 80]> bytes in
  let bytes := <[8 := Z.lor (Z.land (default 0%Z (bytes !! 8)) 63) 128]> bytes in
  let hex := hex_bytes bytes in
  slice 0 8 hex +:+ "-" +:+ slice 8 12 hex +:+ "-" +:+ slice 12 16 hex +:+ "-" +:+ slice 16 20 hex +:+ "-" +:+ slice 20 32 hex.

(** ** The events *)

(** [parseEvent] of an event built from parts. *)
Definition parse_typed (e : event) : result migration_error event :=
  match parseEvent (event_value e) with
  | Err p => Err (InvalidEvent p)
  | Ok env => match decode_event env with Some e => Ok e | None => Err (InvalidEvent (invalid "event" "has no type")) end
  end.

Definition with_items (items : list content) (p : payload) : payload :=
  match p with
  | UserMessage _ => UserMessage items
  | AssistantMessage _ stop usage message => AssistantMessage items stop usage message
  | InterruptRequested _ target => InterruptRequested items target
  | UserShell command _ isError excluded => UserShell command items isError excluded
  | ToolResult callId name _ isError details => ToolResult callId name items isError details
  | p => p
  end.

(** The content of the events that may be externalised. *)
Definition items_of (p : payload) : option (list content) :=
  match p with
  | UserMessage items | AssistantMessage items _ _ _ | InterruptRequested items _ | UserShell _ items _ _ | ToolResult _ _ items _ _ => Some items
  | _ => None
  end.

Definition eventBlobReferences (e : event) : list BlobReference :=
  omap (λ c, match c with CBlob b => Some b | _ => None end) (default [] (items_of (ev_payload e))).

Definition externalize_item (blobs : list (string * string)) (c : content) : list (string * string) * content :=
  match c with
  | CText text =>
      if bool_decide (text = "") || (MAX_MIGRATION_BLOB_BYTES <? utf8_length text)%Z then (blobs, c)
      else (map_set (sha256_hex text) text blobs,
            CBlob {| blob_sha256 := sha256_hex text; blob_mediaType := "text/plain"; blob_sizeBytes := utf8_length text; blob_name := None |})
  | c => (blobs, c)
  end.
Fixpoint externalize_items (blobs : list (string * string)) (items : list content) : list (string * string) * list content :=
  match items with
  | [] => (blobs, [])
  | c :: rest =>
      let (blobs, c) := externalize_item blobs c in
      let (blobs, rest) := externalize_items blobs rest in
      (blobs, c :: rest)
  end.

Definition externalizeTextContent (e : event) (blobs : list (string * string)) : result migration_error event * list (string * string) :=
  match items_of (ev_payload e) with
  | None => (Ok e, blobs)
  | Some items =>
      let (blobs, items) := externalize_items blobs items in
      (parse_typed {| ev_id := ev_id e; ev_sessionId := ev_sessionId e; ev_operationId := ev_operationId e; ev_parentId := ev_parentId e;
                      ev_timestamp := ev_timestamp e; ev_payload := with_items items (ev_payload e) |}, blobs)
  end.

(** An event of which the map knows no id has none, and does not parse. *)
Definition remapEvent (e : event) (targetSessionId : string) (mappings : list (string * string)) : result migration_error event :=
  match map_get (ev_id e) mappings with
  | None => Err (InvalidEvent (invalid "event.id" "must be a lowercase RFC 9562 UUID"))
  | Some id =>
      parent ← match ev_parentId e with
               | None => Ok None
               | Some p => match map_get p mappings with
                           | Some p => Ok (Some p)
                           | None => Err (InvalidEvent (invalid "event.parentId" "must be a lowercase RFC 9562 UUID"))
                           end
               end;
      parse_typed {| ev_id := id; ev_sessionId := targetSessionId; ev_operationId := ev_operationId e; ev_parentId := parent;
                     ev_timestamp := ev_timestamp e; ev_payload := ev_payload e |}
  end.

(** A line as [parseCommittedEvents] reads it, with its length. *)
Definition parse_line (sourceSessionId line : string) : result migration_error (event * Z) :=
  if negb (utf8_valid line) then Err NotDecodable
  else match json_parse (strip_mark line) with
       | None => Err NotParsed
       | Some v =>
           match parseEvent v with
           | Err p => Err (InvalidEvent p)
           | Ok env =>
               match decode_event env with
               | None => Err (InvalidEvent (invalid "event" "has no type"))
               | Some e => if bool_decide (ev_sessionId e = sourceSessionId) then Ok (e, utf8_length line) else Err IdentityMismatch
               end
           end
       end.
Definition parseCommittedEvents (bytes sourceSessionId : string) : result migration_error (list (event * Z)) :=
  let (lines, tail) := split_lines bytes in
  records ← map_indexed (λ _, parse_line sourceSessionId) lines;
  _ ← require (bool_decide (tail = "")) IncompleteFinalLine;
  Ok records.

Definition mappings_of (records : list (event * Z)) (targetSessionId : string) : list (string * string) :=
  fold_left (λ m r, map_set (ev_id r.1) (deterministicUuid (targetSessionId +:+ ":" +:+ ev_id r.1)) m) records [].

(** One event of [buildMigratedEvents]: it is externalised only when it does not fit. *)
Definition migrate_event (targetSessionId : string) (mappings : list (string * string)) (blobs : list (string * string)) (e : event) :
    result migration_error (list (string * string) * event) :=
  moved ← remapEvent e targetSessionId mappings;
  match encodeCanonicalEvent (event_value moved) with
  | Ok _ => Ok (blobs, moved)
  | Err (EncodeInvalid p) => Err (InvalidEvent p)
  | Err (EncodeSize _) =>
      let (external, blobs) := externalizeTextContent moved blobs in
      external ← external;
      match encodeCanonicalEvent (event_value external) with
      | Ok _ => Ok (blobs, external)
      | Err (EncodeInvalid p) => Err (InvalidEvent p)
      | Err (EncodeSize _) => Err (Unsupported (ev_id e))
      end
  end.
Fixpoint migrate_events (targetSessionId : string) (mappings blobs : list (string * string)) (records : list (event * Z)) :
    result migration_error (list (string * string) * list event) :=
  match records with
  | [] => Ok (blobs, [])
  | r :: rest =>
      '(blobs, e) ← migrate_event targetSessionId mappings blobs r.1;
      '(blobs, events) ← migrate_events targetSessionId mappings blobs rest;
      Ok (blobs, e :: events)
  end.
Definition buildMigratedEvents (records : list (event * Z)) (targetSessionId : string) :
    result migration_error (list (string * string) * list (string * string) * list event) :=
  let mappings := mappings_of records targetSessionId in
  _ ← each (λ kv, require (is_uuid kv.2) (InvalidEvent (invalid "eventId" "must be a lowercase RFC 9562 UUID"))) mappings;
  '(blobs, events) ← migrate_events targetSessionId mappings [] records;
  Ok (mappings, blobs, events).

(** ** The files *)

(** What a file holds that is written in place: its value, or a part of its text when the
    process stopped in the middle. *)
Inductive written (A : Type) := Whole (a : A) | Torn.
#[global] Arguments Whole {A} a.
#[global] Arguments Torn {A}.

Record manifest := {
  mf_sourceSessionId : string;
  mf_targetSessionId : string;
  mf_sourceSha256 : string;
  mf_targetSha256 : string;
  mf_eventIdMappings : list (string * string);
  mf_externalizedBlobDigests : list string;
  mf_omittedSuffix : option (string * nat)
}.

(** The data directory: session logs, blobs by digest, and under [migrations] the backups, the
    pending notes and the manifests, by target session. *)
Record storage := {
  sg_sessions : gmap string string;
  sg_blobs : gmap string (written string);
  sg_backups : gmap string (written string);
  sg_pending : gmap string (written string);
  sg_manifests : gmap string (written manifest)
}.
Definition with_sessions (x : gmap string string) (st : storage) : storage :=
  {| sg_sessions := x; sg_blobs := sg_blobs st; sg_backups := sg_backups st; sg_pending := sg_pending st; sg_manifests := sg_manifests st |}.
Definition with_blobs (x : gmap string (written string)) (st : storage) : storage :=
  {| sg_sessions := sg_sessions st; sg_blobs := x; sg_backups := sg_backups st; sg_pending := sg_pending st; sg_manifests := sg_manifests st |}.
Definition with_backups (x : gmap string (written string)) (st : storage) : storage :=
  {| sg_sessions := sg_sessions st; sg_blobs := sg_blobs st; sg_backups := x; sg_pending := sg_pending st; sg_manifests := sg_manifests st |}.
Definition with_pending (x : gmap string (written string)) (st : storage) : storage :=
  {| sg_sessions := sg_sessions st; sg_blobs := sg_blobs st; sg_backups := sg_backups st; sg_pending := x; sg_manifests := sg_manifests st |}.
Definition with_manifests (x : gmap string (written manifest)) (st : storage) : storage :=
  {| sg_sessions := sg_sessions st; sg_blobs := sg_blobs st; sg_backups := sg_backups st; sg_pending := sg_pending st; sg_manifests := x |}.

(** A run may stop: after how many changes of files, and whether the next one is torn. *)
Record stop := { sp_after : nat; sp_torn : bool }.
Inductive ending (A : Type) := Done (a : A) | Failed (e : migration_error) | Stopped.
#[global] Arguments Done {A} a.
#[global] Arguments Failed {A} e.
#[global] Arguments Stopped {A}.

Definition prog (A : Type) : Type := option stop → storage → ending A * option stop * storage.
Definition ret {A} (a : A) : prog A := λ b st, (Done a, b, st).
Definition fail {A} (e : migration_error) : prog A := λ b st, (Failed e, b, st).
Definition bind {A B} (m : prog A) (f : A → prog B) : prog B := λ b st,
  match m b st with
  | (Done a, b, st) => f a b st
  | (Failed e, b, st) => (Failed e, b, st)
  | (Stopped, b, st) => (Stopped, b, st)
  end.
Definition look {A} (f : storage → A) : prog A := λ b st, (Done (f st), b, st).
(** A change of the files, and what is left of it when it is torn. *)
Definition change (torn whole : storage → storage) : prog unit := λ b st,
  match b with
  | None => (Done tt, None, whole st)
  | Some {| sp_after := 0; sp_torn := t |} => (Stopped, b, if t then torn st else st)
  | Some {| sp_after := S n; sp_torn := t |} => (Done tt, Some {| sp_after := n; sp_torn := t |}, whole st)
  end.
#[local] Notation "'do' x '<~' m ; k" := (bind m (λ x, k)) (at level 10, x name, m at level 100, k at level 200).
#[local] Notation "'run' m ; k" := (bind m (λ _, k)) (at level 10, m at level 100, k at level 200).

(** *** [migrateSessionEvents] *)

Definition put_backup (key : string) (v : written string) (st : storage) : storage := with_backups (<[key := v]> (sg_backups st)) st.
Definition put_blob (key : string) (v : written string) (st : storage) : storage := with_blobs (<[key := v]> (sg_blobs st)) st.
Definition put_pending (key : string) (v : written string) (st : storage) : storage := with_pending (<[key := v]> (sg_pending st)) st.
Definition remove_pending (key : string) (st : storage) : storage := with_pending (delete key (sg_pending st)) st.
Definition put_manifest (key : string) (v : written manifest) (st : storage) : storage := with_manifests (<[key := v]> (sg_manifests st)) st.
Definition put_session (key bytes : string) (st : storage) : storage := with_sessions (<[key := bytes]> (sg_sessions st)) st.
Definition remove_session (key : string) (st : storage) : storage := with_sessions (delete key (sg_sessions st)) st.

(** The notes of migrations that did not end: without a manifest their session is removed. *)
Fixpoint clean_pending (notes : list (string * written string)) : prog unit :=
  match notes with
  | [] => ret tt
  | (name, Torn) :: _ => fail MalformedFile
  | (name, Whole target) :: rest =>
      do m <~ look (λ st, sg_manifests st !! target);
      run (if bool_decide (is_Some m) then ret tt else change id (remove_session target));
      run change id (remove_pending name);
      clean_pending rest
  end.

(** What is to be written, and whether its log can be read again. *)
Record plan := {
  pl_target : string;
  pl_bytes : string;
  pl_blobs : list (string * string);
  pl_references : list BlobReference;
  pl_verdict : result migration_error unit;
  pl_manifest : manifest
}.

(** The staged blobs are copied; one that is there must have its digest. *)
Fixpoint copy_blobs (blobs : list (string * string)) : prog unit :=
  match blobs with
  | [] => ret tt
  | (key, text) :: rest =>
      do there <~ look (λ st, sg_blobs st !! key);
      run match there with
         | None => change (put_blob key Torn) (put_blob key (Whole text))
         | Some (Whole old) => if bool_decide (sha256_hex old = key) then ret tt else fail (BlobMismatch key)
         | Some Torn => fail (BlobMismatch key)
         end;
      copy_blobs rest
  end.

(** Every blob the new log refers to is there, and is what the reference says. *)
Definition check_reference (staged : list (string * string)) (st : storage) (r : BlobReference) : result migration_error unit :=
  let check text := require (bool_decide (utf8_length text = blob_sizeBytes r) && bool_decide (sha256_hex text = blob_sha256 r)) (BlobMismatch (blob_sha256 r)) in
  match map_get (blob_sha256 r) staged with
  | Some text => check text
  | None => match sg_blobs st !! blob_sha256 r with
            | Some (Whole text) => check text
            | Some Torn => Err (BlobMismatch (blob_sha256 r))
            | None => Err MissingFile
            end
  end.

Definition backup_key (sourceSessionId sourceSha256 : string) : string := sourceSessionId +:+ "-" +:+ sourceSha256 +:+ ".jsonl".

(** The source is kept before it is read: a backup that is there must have its digest. *)
Definition keep_backup (key bytes sourceSha256 : string) : prog unit :=
  do there <~ look (λ st, sg_backups st !! key);
  match there with
  | None => change (put_backup key Torn) (put_backup key (Whole bytes))
  | Some (Whole old) => if bool_decide (sha256_hex old = sourceSha256) then ret tt else fail BackupMismatch
  | Some Torn => fail BackupMismatch
  end.

(** A migration that was not finished before: the checks of the new log, and its files. *)
Definition write_target (p : plan) : prog manifest :=
  run change id (remove_session (pl_target p));
  match pl_verdict p with
  | Err e => fail e
  | Ok _ =>
      do checked <~ look (λ st, each (check_reference (pl_blobs p) st) (pl_references p));
      match checked with
      | Err e => fail e
      | Ok _ =>
          run copy_blobs (pl_blobs p);
          run change (put_pending (pl_target p) Torn) (put_pending (pl_target p) (Whole (pl_target p)));
          run change id (put_session (pl_target p) (pl_bytes p));
          run change (put_manifest (pl_target p) Torn) (put_manifest (pl_target p) (Whole (pl_manifest p)));
          run change id (remove_pending (pl_target p));
          ret (pl_manifest p)
      end
  end.

(** What follows when the old notes are gone: the source, its backup, and the plan [make] finds
    for it, or refuses. *)
Definition migrate_source (make : string → result migration_error plan) (sourceSessionId : string) : prog manifest :=
  do source <~ look (λ st, sg_sessions st !! sourceSessionId);
  match source with
  | None => fail MissingFile
  | Some bytes =>
      let sourceSha256 := sha256_hex bytes in
      run keep_backup (backup_key sourceSessionId sourceSha256) bytes sourceSha256;
      match make bytes with
      | Err e => fail e
      | Ok p =>
          do existing <~ look (λ st, sg_manifests st !! pl_target p);
          match existing with
          | Some (Whole m) => if bool_decide (mf_sourceSha256 m = sourceSha256) then ret m else fail ManifestMismatch
          | Some Torn => fail MalformedFile
          | None => write_target p
          end
      end
  end.

Definition migrate_with (make : string → result migration_error plan) (sourceSessionId : string) : prog manifest :=
  do notes <~ look (λ st, map_to_list (sg_pending st));
  run clean_pending notes;
  migrate_source make sourceSessionId.

(** The session a migration writes: the same for the same log. *)
Definition target_of (sourceSha256 kind : string) : string := deterministicUuid ("axl-event-migration:" +:+ sourceSha256 +:+ ":" +:+ kind).

(** What is checked of the new log before its files are written. *)
Definition check_target (target targetBytes : string) : result migration_error unit :=
  decoded ← match decodeEventLogBytes targetBytes target with Ok d => Ok d | Err e => Err (MigratedLog e) end;
  tree ← match fromEvents (JStr target) (typed (del_events decoded)) with Ok t => Ok t | Err e => Err (MigratedTree e) end;
  _ ← match verifyToolCallIntegrity tree with Ok _ => Ok tt | Err e => Err (MigratedCalls e) end;
  require (bool_decide (del_cleanByteLength decoded = String.length targetBytes)) IncompleteLog.

(** The plan for a log: every event, or, when one cannot be externalised and it was asked for,
    the events before it. *)
Definition plan_of (confirmPrefix : bool) (sourceSessionId bytes : string) : result migration_error plan :=
  let sourceSha256 := sha256_hex bytes in
  records ← parseCommittedEvents bytes sourceSessionId;
  _ ← refuse (bool_decide (records = [])) EmptySource;
  _ ← require (existsb (λ r, MAX_CANONICAL_EVENT_BYTES <? r.2)%Z records) NotRequired;
  let finish target omitted built : plan :=
    let '(mappings, blobs, events) := built in
    let targetBytes := file_of (event_envelope <$> events) in
    {| pl_target := target; pl_bytes := targetBytes; pl_blobs := blobs; pl_references := mjoin (eventBlobReferences <$> events);
       pl_verdict := check_target target targetBytes;
       pl_manifest := {| mf_sourceSessionId := sourceSessionId; mf_targetSessionId := target; mf_sourceSha256 := sourceSha256;
                         mf_targetSha256 := sha256_hex targetBytes; mf_eventIdMappings := mappings;
                         mf_externalizedBlobDigests := (sort_keys blobs).*1; mf_omittedSuffix := omitted |} |} in
  let lossless := target_of sourceSha256 "lossless" in
  match buildMigratedEvents records lossless with
  | Ok built => Ok (finish lossless None built)
  | Err (Unsupported id) =>
      if negb confirmPrefix then Err (Unsupported id)
      else
        let blockingIndex := default 0 (fst <$> list_find (λ r, ev_id r.1 = id) records) in
        let selected := take blockingIndex records in
        match head selected with
        | Some (e, _) =>
            _ ← require (match ev_payload e with SessionCreated _ _ _ _ => true | _ => false end) NoPrefix;
            let target := target_of sourceSha256 ("prefix:" +:+ id) in
            built ← buildMigratedEvents selected target;
            Ok (finish target (Some (id, length records - blockingIndex)) built)
        | None => Err NoPrefix
        end
  | Err e => Err e
  end.

Definition migrateSessionEvents (confirmPrefix : bool) (sourceSessionId : string) : prog manifest :=
  migrate_with (plan_of confirmPrefix sourceSessionId) sourceSessionId.
End Migration.
