(* ===== verification/MigrationFacts.v ===== *)
(** Rewriting a session into another: the identifiers it makes are identifiers, and the log it
    makes opens as the log it came from. *)
From stdpp Require Import base list sets strings pretty gmap.
From Stdlib Require Import ZArith Lia Ascii.
From S2P Require Import Prelude Text JsValue Json JsonText Utf8 Envelope Types Events EventSchema JsMap Sha256 EventLog SessionTree Replay ReplayLog Migration.

(** ** Identifiers *)

Lemma lang_times p n s : all_chars p s = true → String.length s = n → lang (RTimes n (RClass p)) s.
Proof.
  revert s. induction n as [|n IH]; intros [|c s]; simpl; try done; [intros; constructor|].
  intros [Hc Hs]%andb_true_iff [= Hl]. apply (lang_seq (RClass p) _ (String c "") s); [by constructor|auto].
Qed.

Definition hex_char (n : Z) : ascii := char_of (if (Z.to_N n <? 10)%N then 48 + Z.to_N n else 87 + Z.to_N n)%N.

Lemma hex_bytes_cons b l : hex_bytes (b :: l) = String (hex_char (b / 16)) (String (hex_char (b mod 16)) (hex_bytes l)).
Proof. unfold hex_bytes. destruct l; [done|]. cbn [fmap list_fmap]. done. Qed.

Lemma hex_char_ok n : (0 <= n < 16)%Z → is_lower_hex (hex_char n) = true.
Proof.
  intros H. assert (Hall : Forall (λ i, is_lower_hex (hex_char (Z.of_nat i)) = true) (seq 0 16)) by (repeat constructor).
  rewrite Forall_forall in Hall. specialize (Hall (Z.to_nat n) ltac:(apply elem_of_seq; lia)). by rewrite Z2Nat.id in Hall by lia.
Qed.

Definition byte (b : Z) : Prop := (0 <= b < 256)%Z.

Lemma byte_hex b : byte b → is_lower_hex (hex_char (b / 16)) = true ∧ is_lower_hex (hex_char (b mod 16)) = true.
Proof.
  intros H. split; apply hex_char_ok; [|apply Z.mod_pos_bound; lia]. split; [apply Z.div_pos; unfold byte in *; lia|apply Z.div_lt_upper_bound; unfold byte in *; lia].
Qed.

Lemma hex_bytes_ok l : Forall byte l → all_chars is_lower_hex (hex_bytes l) = true ∧ String.length (hex_bytes l) = 2 * length l.
Proof.
  induction 1 as [|b l Hb _ [IH1 IH2]]; [done|]. rewrite hex_bytes_cons. destruct (byte_hex b Hb) as [H1 H2]. cbn. rewrite H1, H2, IH1, IH2. split; [done|lia].
Qed.

Lemma bytes_256 (P : Z → bool) : forallb P (Z.of_nat <$> seq 0 256) = true → ∀ b, byte b → P b = true.
Proof.
  intros H b Hb. rewrite forallb_forall in H. apply H, list_elem_of_In, list_elem_of_fmap. exists (Z.to_nat b). unfold byte in Hb.
  split; [lia|]. apply elem_of_seq. lia.
Qed.

Lemma version_byte b : byte b → let v := Z.lor (Z.land b 15) 80 in byte v ∧ hex_char (v / 16) = "5"%char.
Proof.
  intros Hb v. assert (Hv : ((0 <=? v) && (v <? 256) && bool_decide (hex_char (v / 16) = "5"%char))%Z = true).
  { revert b Hb v. apply (bytes_256 (λ b, let v := Z.lor (Z.land b 15) 80 in ((0 <=? v) && (v <? 256) && bool_decide (hex_char (v / 16) = "5"%char))%Z)). by vm_compute. }
  apply andb_true_iff in Hv as [[H1 H2]%andb_true_iff H3%bool_decide_eq_true]. unfold byte. split; [lia|done].
Qed.

Lemma variant_byte b : byte b → let v := Z.lor (Z.land b 63) 128 in byte v ∧ one_of "89ab" (hex_char (v / 16)) = true.
Proof.
  intros Hb v. assert (Hv : ((0 <=? v) && (v <? 256) && one_of "89ab" (hex_char (v / 16)))%Z = true).
  { revert b Hb v. apply (bytes_256 (λ b, let v := Z.lor (Z.land b 63) 128 in ((0 <=? v) && (v <? 256) && one_of "89ab" (hex_char (v / 16)))%Z)). by vm_compute. }
  apply andb_true_iff in Hv as [[H1 H2]%andb_true_iff H3]. unfold byte. split; [lia|done].
Qed.

Lemma uuid_shape a b c d e v : all_chars is_lower_hex a = true → all_chars is_lower_hex b = true → all_chars is_lower_hex c = true →
  all_chars is_lower_hex d = true → all_chars is_lower_hex e = true → one_of "89ab" v = true →
  String.length a = 8 → String.length b = 4 → String.length c = 3 → String.length d = 3 → String.length e = 12 →
  is_uuid (a +:+ "-" +:+ b +:+ "-" +:+ String "5" c +:+ "-" +:+ String v d +:+ "-" +:+ e) = true.
Proof.
  intros. apply rmatch_lang.
  replace (_ +:+ _) with (((((((((((a +:+ "-") +:+ b) +:+ "-") +:+ "5") +:+ c) +:+ "-") +:+ String v "") +:+ d) +:+ "-") +:+ e))
    by (rewrite <- !string_app_assoc; reflexivity).
  unfold uuidPattern, hex. repeat apply lang_seq; try (by apply lang_times); by constructor.
Qed.

Section Facts.
Context (digest : string → list Z) (digest_bytes : ∀ s, length (digest s) = 32 ∧ Forall byte (digest s)).

Lemma sha256_hex_ok s : rmatch sha256_pattern (sha256_hex digest s) = true.
Proof.
  destruct (digest_bytes s) as [Hl Hb]. apply rmatch_lang. destruct (hex_bytes_ok _ Hb) as [H1 H2]. apply lang_times; [done|]. unfold sha256_hex. lia.
Qed.

(** The identifiers of a migration are identifiers, whatever they are made from. *)
Lemma deterministicUuid_is_uuid seed : is_uuid (deterministicUuid digest seed) = true.
Proof.
  unfold deterministicUuid. destruct (digest_bytes seed) as [Hl Hb]. apply (Forall_take _ 16) in Hb. assert (Hl16 : length (take 16 (digest seed)) = 16) by (rewrite length_take; lia).
  set (bytes := take 16 (digest seed)) in *. clearbody bytes. do 16 (destruct bytes as [|? bytes]; [done|]). destruct bytes; [|done]. clear Hl Hl16.
  cbn [insert list_insert lookup list_lookup default from_option].
  repeat match goal with H : Forall byte (_ :: _) |- _ => apply Forall_cons in H as [? H] end.
  match goal with |- context [Z.lor (Z.land ?x 15) 80] => destruct (version_byte x ltac:(done)) as [Hv5 Hv6]; set (v := Z.lor (Z.land x 15) 80) in * end.
  match goal with |- context [Z.lor (Z.land ?x 63) 128] => destruct (variant_byte x ltac:(done)) as [Hw5 Hw6]; set (w := Z.lor (Z.land x 63) 128) in * end.
  rewrite !hex_bytes_cons. unfold slice. cbn [Nat.sub String.substring]. change (hex_bytes []) with "".
  repeat match goal with H : byte ?x |- _ => destruct (byte_hex x H) as [? ?]; clear H end.
  rewrite Hv6. apply uuid_shape; try done; cbn [all_chars]; repeat (apply andb_true_iff; split); done.
Qed.

Lemma deterministicUuid_version seed : String.get 14 (deterministicUuid digest seed) = Some "5"%char.
Proof.
  unfold deterministicUuid. destruct (digest_bytes seed) as [Hl Hb]. apply (Forall_take _ 16) in Hb. assert (Hl16 : length (take 16 (digest seed)) = 16) by (rewrite length_take; lia).
  set (bytes := take 16 (digest seed)) in *. clearbody bytes. do 16 (destruct bytes as [|? bytes]; [done|]). destruct bytes; [|done]. clear Hl Hl16.
  cbn [insert list_insert lookup list_lookup default from_option]. do 7 (apply Forall_cons in Hb as [? Hb]).
  match goal with |- context [Z.lor (Z.land ?x 15) 80] => destruct (version_byte x ltac:(done)) as [_ Hv]; set (v := Z.lor (Z.land x 15) 80) in * end.
  rewrite !hex_bytes_cons. unfold slice. cbn. by rewrite Hv.
Qed.

(** ** One event *)

Lemma parse_typed_ok e : event_ok e → parse_typed e = Ok e.
Proof. intros He. unfold parse_typed. destruct (parseEvent_complete e He) as [-> ->]. done. Qed.

(** The store holds a text of the digest. *)
Definition holds (blobs : list (string * string)) (key : string) : Prop := ∃ stored, map_get key blobs = Some stored ∧ sha256_hex digest stored = key.

Lemma holds_set blobs text key : key = sha256_hex digest text ∨ holds blobs key → holds (map_set (sha256_hex digest text) text blobs) key.
Proof.
  unfold holds. intros H. setoid_rewrite map_get_set. case_bool_decide as Hk; [by exists text|]. destruct H as [->|H]; [done|exact H].
Qed.

Definition externalized (blobs : list (string * string)) (c c' : content) : Prop :=
  c' = c ∨ ∃ text, c = CText text ∧ holds blobs (sha256_hex digest text) ∧
    c' = CBlob {| blob_sha256 := sha256_hex digest text; blob_mediaType := "text/plain"; blob_sizeBytes := utf8_length text; blob_name := None |}.

Definition grows (blobs blobs' : list (string * string)) : Prop := ∀ key, holds blobs key → holds blobs' key.

Lemma grows_trans a b c : grows a b → grows b c → grows a c.
Proof. unfold grows. auto. Qed.

Lemma externalized_grows blobs blobs' c c' : grows blobs blobs' → externalized blobs c c' → externalized blobs' c c'.
Proof. intros Hg [?|(text & ? & ? & ?)]; [by left|right]. exists text. auto. Qed.

Lemma item_spec blobs c flag : item_ok flag c → let '(blobs', c') := externalize_item digest blobs c in
  grows blobs blobs' ∧ externalized blobs' c c' ∧ item_ok flag c'.
Proof.
  intros Hok. destruct c as [text|text|b]; cbn; [|by split_and!; [intros ?|left|]..].
  destruct (bool_decide (text = "") || (MAX_MIGRATION_BLOB_BYTES <? utf8_length text)%Z) eqn:Hc; [by split_and!; [intros ?|left|]|].
  apply orb_false_iff in Hc as [_ Hc%Z.ltb_ge]. split_and!.
  - intros key Hk. apply holds_set. by right.
  - right. exists text. split_and!; [done| |done]. apply holds_set. by left.
  - split_and!; cbn; [apply sha256_hex_ok|done| |done]. unfold count, MAX_MIGRATION_BLOB_BYTES, MAX_SAFE_INTEGER, utf8_length in *. lia.
Qed.

Lemma items_spec blobs items flag : items_ok flag items → let '(blobs', items') := externalize_items digest blobs items in
  grows blobs blobs' ∧ Forall2 (externalized blobs') items items' ∧ items_ok flag items'.
Proof.
  intros Hok. revert blobs. induction Hok as [|c items Hc _ IH]; intros blobs; cbn; [by split_and!; [intros ?| |constructor]|].
  pose proof (item_spec blobs c flag Hc) as Hi. destruct (externalize_item digest blobs c) as [blobs1 c'].
  specialize (IH blobs1). destruct (externalize_items digest blobs1 items) as [blobs2 items']. destruct Hi as (Hg & He & Ho), IH as (Hg' & He' & Ho').
  split_and!; [by eapply grows_trans| |by constructor]. constructor; [by eapply externalized_grows|done].
Qed.

Definition items_flag (p : payload) : bool := match p with AssistantMessage _ _ _ _ => true | _ => false end.

Lemma payload_items p items : payload_ok p → items_of p = Some items → items_ok (items_flag p) items.
Proof. destruct p; cbn; intros Hok [= <-]; naive_solver. Qed.

Lemma payload_with p items items' : payload_ok p → items_of p = Some items → items_ok (items_flag p) items' → payload_ok (with_items items' p).
Proof. destruct p; cbn; intros Hok [= <-]; naive_solver. Qed.

Section Events.
Context (tgt : string) (Htgt : is_uuid tgt = true).

Definition new_id (id : string) : string := deterministicUuid digest (tgt +:+ ":" +:+ id).

Record migrated (blobs : list (string * string)) (e e' : event) : Prop := {
  mi_id : ev_id e' = new_id (ev_id e);
  mi_session : ev_sessionId e' = tgt;
  mi_operation : ev_operationId e' = ev_operationId e;
  mi_parent : ev_parentId e' = new_id <$> ev_parentId e;
  mi_timestamp : ev_timestamp e' = ev_timestamp e;
  mi_payload : ev_payload e' = ev_payload e ∨ ∃ items items', items_of (ev_payload e) = Some items ∧
    ev_payload e' = with_items items' (ev_payload e) ∧ Forall2 (externalized blobs) items items'
}.

Lemma migrated_grows blobs blobs' e e' : grows blobs blobs' → migrated blobs e e' → migrated blobs' e e'.
Proof.
  intros Hg [H1 H2 H3 H4 H5 H6]. split; try done. destruct H6 as [|(items & items' & ? & ? & Hf)]; [by left|right]. exists items, items'. split_and!; try done.
  eapply Forall2_impl; [exact Hf|]. intros c c'. by apply externalized_grows.
Qed.

Definition moved (e : event) : event :=
  {| ev_id := new_id (ev_id e); ev_sessionId := tgt; ev_operationId := ev_operationId e; ev_parentId := new_id <$> ev_parentId e;
     ev_timestamp := ev_timestamp e; ev_payload := ev_payload e |}.

Lemma moved_ok e : event_ok e → event_ok (moved e).
Proof.
  intros [H1 H2 H3 H4 H5 H6]. split; try done; cbn; [apply deterministicUuid_is_uuid|]. destruct (ev_parentId e); [|done]. apply deterministicUuid_is_uuid.
Qed.

Lemma mappings_get records id : map_get id (mappings_of digest records tgt) =
  if bool_decide (id ∈ (λ r : event * Z, ev_id r.1) <$> records) then Some (new_id id) else None.
Proof.
  induction records as [|r records IH] using rev_ind; [done|]. unfold mappings_of in *. rewrite fold_left_app. cbn [fold_left]. rewrite map_get_set, IH, fmap_app.
  destruct (bool_decide_reflect (ev_id r.1 = id)) as [<-|Hne].
  - rewrite bool_decide_true; [done|]. set_solver.
  - assert (Hiff : id ∈ ((λ r : event * Z, ev_id r.1) <$> records) ++ ((λ r : event * Z, ev_id r.1) <$> [r]) ↔ id ∈ (λ r : event * Z, ev_id r.1) <$> records) by set_solver.
    by rewrite (bool_decide_ext _ _ Hiff).
Qed.

Lemma remap_ok records e : event_ok e → ev_id e ∈ (λ r : event * Z, ev_id r.1) <$> records →
  (∀ p, ev_parentId e = Some p → p ∈ (λ r : event * Z, ev_id r.1) <$> records) →
  remapEvent e tgt (mappings_of digest records tgt) = Ok (moved e).
Proof.
  intros He Hid Hp. unfold remapEvent. rewrite mappings_get, bool_decide_true by done. pose proof (parse_typed_ok _ (moved_ok e He)) as Hm. unfold moved in *.
  destruct (ev_parentId e) as [p|]; [|exact Hm]. rewrite mappings_get, bool_decide_true by auto. exact Hm.
Qed.

Lemma encode_fits e encoded : encodeCanonicalEvent (event_value e) = Ok encoded → event_ok e →
  (utf8_length (event_text (event_envelope e)) <= MAX_CANONICAL_EVENT_BYTES)%Z.
Proof. intros (env & Hp & -> & Hz)%encode_Ok He. destruct (parseEvent_complete e He) as [Hc _]. congruence. Qed.

Lemma migrate_event_spec records blobs e : event_ok e → ev_id e ∈ (λ r : event * Z, ev_id r.1) <$> records →
  (∀ p, ev_parentId e = Some p → p ∈ (λ r : event * Z, ev_id r.1) <$> records) →
  match migrate_event digest tgt (mappings_of digest records tgt) blobs e with
  | Ok (blobs', e') => grows blobs blobs' ∧ migrated blobs' e e' ∧ event_ok e' ∧ (utf8_length (event_text (event_envelope e')) <= MAX_CANONICAL_EVENT_BYTES)%Z
  | Err err => err = Unsupported (ev_id e)
  end.
Proof.
  intros He Hid Hp. unfold migrate_event. rewrite (remap_ok records) by done. cbn [rbind]. pose proof (moved_ok e He) as Hm.
  destruct (encodeCanonicalEvent (event_value (moved e))) as [encoded|[p|size]] eqn:Henc.
  - split_and!; [intros ?; done|by split; auto|done|by eapply encode_fits].
  - exfalso. unfold encodeCanonicalEvent in Henc. destruct (parseEvent_complete _ Hm) as [Hc _]. rewrite Hc in Henc. by case_match.
  - unfold externalizeTextContent. destruct (items_of (ev_payload (moved e))) as [items|] eqn:Hi.
    + pose proof (items_spec blobs items _ (payload_items _ _ (evk_payload _ He) Hi)) as Hs.
      destruct (externalize_items digest blobs items) as [blobs' items']. destruct Hs as (Hg & Hf & Ho).
      set (e' := {| ev_id := _ |}). assert (He' : event_ok e').
      { destruct Hm as [H1 H2 H3 H4 H5 H6]. split; try done. by eapply payload_with. }
      rewrite parse_typed_ok by done. cbn [rbind]. destruct (encodeCanonicalEvent (event_value e')) as [encoded|[p|size']] eqn:Henc'; [|exfalso|done].
      * split_and!; [done| |done|by eapply encode_fits]. split; try done. right. by exists items, items'.
      * unfold encodeCanonicalEvent in Henc'. destruct (parseEvent_complete _ He') as [Hc _]. rewrite Hc in Henc'. by case_match.
    + cbn [rbind]. by rewrite Henc.
Qed.

(** ** The events of a log *)

Lemma migrate_events_spec all blobs records : Forall event_ok records.*1 →
  (∀ e, e ∈ records.*1 → ev_id e ∈ (λ r : event * Z, ev_id r.1) <$> all ∧ ∀ p, ev_parentId e = Some p → p ∈ (λ r : event * Z, ev_id r.1) <$> all) →
  match migrate_events digest tgt (mappings_of digest all tgt) blobs records with
  | Ok (blobs', events) => grows blobs blobs' ∧ Forall2 (migrated blobs') records.*1 events ∧ Forall event_ok events ∧
      Forall (λ e, utf8_length (event_text (event_envelope e)) <= MAX_CANONICAL_EVENT_BYTES)%Z events
  | Err err => ∃ e, e ∈ records.*1 ∧ err = Unsupported (ev_id e)
  end.
Proof.
  revert blobs. induction records as [|r records IH]; intros blobs Hok Hin; cbn; [by split_and!; [intros ?| | |]|].
  apply Forall_cons in Hok as [Hr Hok]. destruct (Hin r.1 ltac:(by left)) as [Hid Hp].
  pose proof (migrate_event_spec all blobs r.1 Hr Hid Hp) as He. destruct (migrate_event _ _ _ _ _) as [[blobs1 e']|err]; cbn; [|by exists r.1; split; [left|]].
  destruct He as (Hg & Hm & Ho & Hz). specialize (IH blobs1 Hok (λ e H, Hin e (list_elem_of_further _ _ _ H))).
  destruct (migrate_events _ _ _ _ _) as [[blobs2 events]|err]; cbn.
  - destruct IH as (Hg' & Hf & Ho' & Hz'). split_and!; [by eapply grows_trans| |by constructor|by constructor]. constructor; [by eapply migrated_grows|done].
  - destruct IH as (e & He & ->). exists e. split; [by right|done].
Qed.

Lemma migrated_ids blobs l l' : Forall2 (migrated blobs) l l' → ev_id <$> l' = new_id <$> (ev_id <$> l).
Proof. induction 1 as [|e e' l l' Hm _ IH]; [done|]. cbn. rewrite (mi_id _ _ _ Hm). by f_equal. Qed.

Lemma migrated_elem blobs l l' e' : Forall2 (migrated blobs) l l' → e' ∈ l' → ∃ e, e ∈ l ∧ migrated blobs e e'.
Proof.
  induction 1 as [|x x' l l' Hm _ IH]; [by intros ?%elem_of_nil|]. intros [->|Hin]%elem_of_cons; [exists x; split; [by left|done]|].
  destruct (IH Hin) as (e & He & Hme). exists e. split; [by right|done].
Qed.

Section Tree.
Context (sid : string) (source events : list event) (blobs : list (string * string)).
Context (Hsource : log_ok sid source) (Hmigrated : Forall2 (migrated blobs) source events).
(** Different events get different identifiers. *)
Context (Hinj : ∀ x y, x ∈ ev_id <$> source → y ∈ ev_id <$> source → new_id x = new_id y → x = y).

Lemma log_ok_migrated l l' : l `prefix_of` source → Forall2 (migrated blobs) l l' → log_ok sid l → log_ok tgt l'.
Proof.
  intros Hpre Hf Hlog. revert l' Hf. induction Hlog as [|l e Hlog IH Hext]; intros l' Hf.
  - apply Forall2_nil_inv_l in Hf as ->. constructor.
  - apply Forall2_app_inv_l in Hf as (l1 & l2 & Hf1 & Hf2 & ->). apply Forall2_cons_inv_l in Hf2 as (e' & l3 & Hm & Hf3 & ->). apply Forall2_nil_inv_l in Hf3 as ->.
    assert (Hpre' : l `prefix_of` source) by (etrans; [|exact Hpre]; by apply prefix_app_r).
    assert (Hids : ev_id <$> l1 = new_id <$> (ev_id <$> l)).
    { by eapply migrated_ids. }
    assert (Hsub : ∀ x, x ∈ ev_id <$> l ++ [e] → x ∈ ev_id <$> source) by (destruct Hpre as [k ->]; intros x; rewrite (fmap_app _ (l ++ [e])); set_solver).
    destruct Hext as [Hs Hfresh Hpar]. constructor; [by apply IH|]. split.
    + apply Hm.
    + rewrite Hids, (mi_id _ _ _ Hm). intros (y & Hy & Hin)%list_elem_of_fmap. apply Hinj in Hy as <-; [done|apply Hsub; set_solver|apply Hsub; set_solver].
    + rewrite (mi_parent _ _ _ Hm). destruct (ev_parentId e) as [q|]; cbn.
      * rewrite Hids. apply list_elem_of_fmap. by exists q.
      * subst l. by apply Forall2_nil_inv_l in Hf1.
Qed.

Lemma path_migrated id' path' : path_to events id' path' →
  ∃ id path, path_to source id path ∧ id' = new_id id ∧ id ∈ ev_id <$> source ∧ Forall2 (migrated blobs) path path'.
Proof.
  induction 1 as [e' Hin Hpar|e' q path' Hin Hpar _ IH]; destruct (migrated_elem _ _ _ _ Hmigrated Hin) as (e & He & Hm);
    pose proof (mi_parent _ _ _ Hm) as Hp; rewrite Hpar in Hp.
  - exists (ev_id e), [e]. split_and!; [|by apply (mi_id _ _ _ Hm)|by apply list_elem_of_fmap_2|by constructor]. constructor; [done|]. by destruct (ev_parentId e).
  - destruct IH as (p & path & Hpath & -> & Hpin & Hf). destruct (ev_parentId e) as [x|] eqn:Hx; [|done]. injection Hp as Hp.
    assert (x = p) as ->. { symmetry. apply Hinj; [done| |done]. by apply (log_parents sid source e). }
    exists (ev_id e), (path ++ [e]). split_and!; [by eapply path_step|by apply (mi_id _ _ _ Hm)|by apply list_elem_of_fmap_2|].
    apply Forall2_app; [done|by constructor].
Qed.

Lemma call_migrated e e' : migrated blobs e e' → call_of e' = call_of e ∧ result_of e' = result_of e.
Proof.
  intros Hm. unfold call_of, result_of. destruct (mi_payload _ _ _ Hm) as [->|(items & items' & Hi & -> & _)]; [done|]. by destruct (ev_payload e).
Qed.

Lemma calls_migrated path path' : Forall2 (migrated blobs) path path' → calls_of path' = calls_of path ∧ results_of path' = results_of path.
Proof.
  unfold calls_of, results_of. induction 1 as [|e e' l l' Hm _ [IH1 IH2]]; [done|]. destruct (call_migrated _ _ Hm) as [H1 H2]. cbn. rewrite H1, H2, IH1, IH2. done.
Qed.

Lemma paired_migrated path path' : Forall2 (migrated blobs) path path' → paired path → paired path'.
Proof.
  intros Hf [H1 H2 H3]. destruct (calls_migrated _ _ Hf) as [Hc Hr]. split; [by rewrite Hc|by rewrite Hr|].
  intros pre' e' post' c Heq Hres. subst path'. apply Forall2_app_inv_r in Hf as (pre & rest & Hpre & Hrest & ->).
  apply Forall2_cons_inv_r in Hrest as (e & post & Hm & _ & ->). destruct (calls_migrated _ _ Hpre) as [-> _].
  destruct (call_migrated _ _ Hm) as [_ Hres']. eapply H3; [done|congruence].
Qed.
End Tree.

Lemma map_set_values {A} (P : A → Prop) (k : string) v m : Forall (λ kv, P kv.2) m → P v → Forall (λ kv, P kv.2) (map_set k v m).
Proof.
  induction 1 as [|[x y] m Hx Hm IH]; intros Hv; cbn; [by constructor|]. case_bool_decide; constructor; auto.
Qed.

Lemma mappings_uuid records :
  each (λ kv : string * string, require (is_uuid kv.2) (InvalidEvent (invalid "eventId" "must be a lowercase RFC 9562 UUID"))) (mappings_of digest records tgt) = Ok tt.
Proof.
  apply each_Ok. assert (H : Forall (λ kv : string * string, is_uuid kv.2 = true) (mappings_of digest records tgt)).
  { unfold mappings_of. induction records as [|r records IH] using rev_ind; [constructor|]. rewrite fold_left_app. cbn [fold_left].
    apply (map_set_values (λ v, is_uuid v = true)); [done|]. apply deterministicUuid_is_uuid. }
  eapply Forall_impl; [exact H|]. intros kv Hkv. cbn. by rewrite Hkv.
Qed.

(** What [buildMigratedEvents] makes of a log. *)
Lemma built_spec sid records : log_ok sid records.*1 → Forall event_ok records.*1 →
  match buildMigratedEvents digest records tgt with
  | Err err => ∃ e, e ∈ records.*1 ∧ err = Unsupported (ev_id e)
  | Ok (_, blobs, events) =>
      Forall2 (migrated blobs) records.*1 events ∧ Forall event_ok events ∧
      Forall (λ e, (utf8_length (event_text (event_envelope e)) <= MAX_CANONICAL_EVENT_BYTES)%Z) events
  end.
Proof.
  intros Hlog Hok. unfold buildMigratedEvents.
  assert (Hids : (λ r : event * Z, ev_id r.1) <$> records = ev_id <$> records.*1) by (by rewrite <- list_fmap_compose).
  rewrite mappings_uuid. cbn [rbind].
  pose proof (migrate_events_spec records [] records Hok) as Hm. rewrite !Hids in Hm.
  specialize (Hm ltac:(intros e He; split; [by apply list_elem_of_fmap_2|intros p; by apply (log_parents sid)])).
  destruct (migrate_events _ _ _ _ _) as [[blobs events]|err]; cbn; [|done]. by destruct Hm as (_ & Hf & Ho & Hz).
Qed.

End Events.
End Facts.

(** ** A log that is migrated *)

(** Bytes that depend on every character of the text. *)
Definition sample_digest (s : string) : list Z :=
  let h := fold_left (λ h c, (h * 257 + Z.of_N (N_of_ascii c) + 1) mod (2 ^ 127 - 1))%Z (String.list_ascii_of_string s) 0%Z in
  (λ i, (h / 2 ^ (8 * Z.of_nat i)) mod 256)%Z <$> seq 0 32.
Lemma sample_digest_bytes s : length (sample_digest s) = 32 ∧ Forall byte (sample_digest s).
Proof.
  unfold sample_digest. split; [by rewrite length_fmap, length_seq|]. apply Forall_fmap, Forall_forall. intros i _.
  unfold compose, byte. apply Z.mod_pos_bound. lia.
Qed.

Definition old_id (n : nat) : string := "01234567-89ab-4def-8123-456789abcde" +:+ pretty n.
Definition old_event (n : nat) (p : payload) : event :=
  {| ev_id := old_id n; ev_sessionId := old_id 0; ev_operationId := None;
     ev_parentId := match n with 0 => None | S m => Some (old_id m) end; ev_timestamp := Z.of_nat n; ev_payload := p |}.
(** A question that was answered with a tool, and then compacted. *)
Definition old_log : list event :=
  [old_event 0 (SessionCreated "/w" None None None); old_event 1 (UserMessage [CText "which files are there"]);
   old_event 2 (AssistantMessage [] SToolUse None None); old_event 3 (ToolCall "c1" "list" []);
   old_event 4 (ToolResult "c1" "list" [CText "a b"] false None); old_event 5 (AssistantMessage [CText "two"] SStop None None);
   old_event 6 (ContextCompacted "asked for the files" [old_id 1; old_id 2; old_id 3; old_id 4] None)].
Definition old_records : list (event * Z) := (λ e, (e, 0%Z)) <$> old_log.
Definition new_session : string := "89abcdef-0123-5def-8123-456789abcdef".

Lemma old_log_ok : log_ok (old_id 0) old_log.
Proof.
  assert (∃ t, fromEvents (JStr (old_id 0)) old_log = Ok t) as [t Ht] by (eexists; vm_compute; reflexivity).
  by apply fromEvents_Ok in Ht as (sid & [= <-] & _ & Hlog & _).
Qed.
Lemma event_ok_read e env : parseEvent (event_value e) = Ok env → decode_event env = Some e → event_ok e.
Proof. intros (e' & He & Hok & _)%parseEvent_decodes Hd. congruence. Qed.
Lemma old_events_ok : Forall event_ok old_log.
Proof. repeat (apply Forall_cons; split); [..|constructor]; (eapply event_ok_read; [vm_compute; reflexivity|vm_compute; reflexivity]). Qed.
Lemma old_records_events : old_records.*1 = old_log.
Proof. done. Qed.

Lemma nodup_fmap_inj {A B} (f : A → B) l x y : NoDup (f <$> l) → x ∈ l → y ∈ l → f x = f y → x = y.
Proof.
  intros Hn [i Hi]%list_elem_of_lookup [j Hj]%list_elem_of_lookup Hf. assert (i = j) as ->; [|congruence].
  apply (NoDup_lookup _ _ _ (f x) Hn); rewrite list_lookup_fmap, ?Hi, ?Hj; cbn; congruence.
Qed.
Definition built_or {E} (r : result E (list (string * string) * list (string * string) * list event)) : list (string * string) * list (string * string) * list event :=
  match r with Ok built => built | Err _ => ([], [], []) end.
Definition migrated_old : list (string * string) * list (string * string) * list event :=
  built_or (buildMigratedEvents sample_digest old_records new_session).

Lemma built_old : buildMigratedEvents sample_digest old_records new_session = Ok migrated_old.
Proof. vm_compute. reflexivity. Qed.
Lemma old_migrated : Forall2 (migrated sample_digest new_session migrated_old.1.2) old_log migrated_old.2.
Proof.
  pose proof (built_spec sample_digest sample_digest_bytes new_session ltac:(vm_compute; reflexivity) (old_id 0) old_records old_log_ok old_events_ok) as H.
  rewrite built_old in H. destruct migrated_old as [[mappings blobs] events]. apply H.
Qed.

