(* ===== verification/MigrationRuns.v ===== *)
(** The files a migration writes: one that stops between two changes of files is finished by
    the next run, one that stops inside a change is not. *)
From stdpp Require Import base list sets strings pretty gmap.
From Stdlib Require Import ZArith Lia Ascii.
From S2P Require Import Prelude Text JsValue Json JsonText Utf8 Envelope Types Events EventSchema JsMap Sha256 Canonical EventLog SessionTree Replay ReplayLog Migration MigrationFacts.

(** ** Runs that stop *)

Definition after (n : nat) : option stop := Some {| sp_after := n; sp_torn := false |}.

(** [Q] holds of the files wherever [m] may stop between two changes. *)
Definition through {A} (Q : storage → Prop) (m : prog A) (st : storage) : Prop :=
  ∀ n, match m (after n) st with
       | (Stopped, _, st') => Q st'
       | (r, b, st') => (∃ n', b = after n') ∧ m None st = (r, None, st')
       end.

Lemma through_ret {A} Q (a : A) st : through Q (ret a) st.
Proof. intros n. cbn. eauto. Qed.
Lemma through_fail {A} Q e st : through Q (fail e : prog A) st.
Proof. intros n. cbn. eauto. Qed.
Lemma through_look {A} Q (f : storage → A) st : through Q (look f) st.
Proof. intros n. cbn. eauto. Qed.
Lemma through_change (Q : storage → Prop) torn whole st : Q st → through Q (change torn whole) st.
Proof. intros H [|n]; cbn; eauto. Qed.
Lemma through_bind {A B} Q (m : prog A) (f : A → prog B) st : through Q m st →
  (∀ a st', m None st = (Done a, None, st') → through Q (f a) st') → through Q (bind m f) st.
Proof.
  intros Hm Hf n. specialize (Hm n). unfold bind. destruct (m (after n) st) as [[[a|e|] b] st'].
  - destruct Hm as [[n' ->] Hm]. rewrite Hm. apply (Hf a st' Hm).
  - destruct Hm as [[n' ->] ->]. eauto.
  - done.
Qed.
Create HintDb runs.
#[export] Hint Resolve through_ret through_fail through_look through_change : runs.

(** Without a stop, a program ends. *)
Lemma bind_None {A B} (m : prog A) (f : A → prog B) a st st' :
  m None st = (Done a, None, st') → bind m f None st = f a None st'.
Proof. unfold bind. by intros ->. Qed.

Lemma through_weaken {A} (P Q : storage → Prop) (m : prog A) st : (∀ x, P x → Q x) → through P m st → through Q m st.
Proof. intros HPQ H n. specialize (H n). destruct (m (after n) st) as [[[a|e|] b] st']; auto. Qed.

(** ** The notes of migrations that did not end *)

(** A session a note names, and no manifest does. *)
Definition noted (x : storage) (k : string) : Prop := (∃ name, sg_pending x !! name = Some (Whole k)) ∧ sg_manifests x !! k = None.

#[global] Instance written_eq_dec {A} `{EqDecision A} : EqDecision (written A).
Proof. solve_decision. Defined.
#[global] Instance noted_dec x k : Decision (noted x k).
Proof.
  refine (cast_if (decide (Whole k ∈ (map_to_list (sg_pending x)).*2 ∧ sg_manifests x !! k = None))).
  - destruct a as [H Hm]. split; [|done]. apply list_elem_of_fmap in H as [[name v] [Hv H]]. exists name. apply elem_of_map_to_list. by rewrite Hv.
  - intros [[name H] Hm]. apply n. split; [|done]. apply list_elem_of_fmap. exists (name, Whole k). split; [done|]. by apply elem_of_map_to_list.
Defined.

(** [c] is [x] without its notes and the sessions they name. *)
Record cleans_to (c x : storage) : Prop := {
  cl_blobs : sg_blobs c = sg_blobs x;
  cl_backups : sg_backups c = sg_backups x;
  cl_manifests : sg_manifests c = sg_manifests x;
  cl_pending : sg_pending c = ∅;
  cl_whole : ∀ name v, sg_pending x !! name = Some v → v ≠ Torn;
  cl_noted : ∀ k, noted x k → sg_sessions c !! k = None;
  cl_others : ∀ k, ¬ noted x k → sg_sessions c !! k = sg_sessions x !! k
}.

Lemma cleans_self x : sg_pending x = ∅ → cleans_to x x.
Proof.
  intros H. assert (Hn : ∀ k, ¬ noted x k) by (intros k [[name Hk] _]; rewrite H, lookup_empty in Hk; done).
  split; auto; [|by intros k []%Hn]. intros name v. by rewrite H, lookup_empty.
Qed.
Lemma cleans_done c x : cleans_to c x → sg_pending x = ∅ → c = x.
Proof.
  intros [Hb Hk Hm Hp _ _ Ho] He. destruct c as [s b k p m], x as [s' b' k' p' m']; simpl in *; subst. f_equal. apply map_eq. intros i. apply Ho.
  intros [[name Hn] _]. simpl in Hn. by rewrite lookup_empty in Hn.
Qed.

(** One note: its session goes when no manifest names it, then the note. *)
Definition clear_session (t : string) (x : storage) : storage :=
  if bool_decide (is_Some (sg_manifests x !! t)) then x else remove_session t x.

Lemma noted_one x name t k : sg_pending x !! name = Some (Whole t) → k ≠ t → noted (remove_pending name (clear_session t x)) k ↔ noted x k.
Proof.
  intros Hn Hk. unfold noted, clear_session. case_bool_decide; simpl; split; intros [[n Hn'] Hm]; (split; [|done]).
  1,3: rewrite lookup_delete_Some in Hn'; destruct Hn' as [_ Hn']; by exists n.
  all: exists n; rewrite lookup_delete_Some; (split; [intros ->; congruence|done]).
Qed.
Lemma clear_lookup t x k : k ≠ t → sg_sessions (clear_session t x) !! k = sg_sessions x !! k.
Proof. intros. unfold clear_session. case_bool_decide; [done|]. simpl. by rewrite lookup_delete_ne. Qed.
Lemma clear_fields t x : sg_blobs (clear_session t x) = sg_blobs x ∧ sg_backups (clear_session t x) = sg_backups x ∧
  sg_manifests (clear_session t x) = sg_manifests x ∧ sg_pending (clear_session t x) = sg_pending x.
Proof. unfold clear_session. by case_bool_decide. Qed.

Lemma cleans_session c x name t : sg_pending x !! name = Some (Whole t) → cleans_to c x → cleans_to c (clear_session t x).
Proof.
  intros Hn [Hb Hk Hm Hp Hw Hs Ho]. unfold clear_session. case_bool_decide as Hd; [by split|].
  assert (Ht : noted x t) by (split; [by exists name|by apply eq_None_not_Some]).
  split; try done. intros k Hk'. change (¬ noted x k) in Hk'. simpl. rewrite lookup_delete_ne; [by apply Ho|]. by intros ->.
Qed.
Lemma cleans_one c x name t : sg_pending x !! name = Some (Whole t) →
  cleans_to c x ↔ cleans_to c (remove_pending name (clear_session t x)).
Proof.
  intros Hn. destruct (clear_fields t x) as (Fb & Fk & Fm & Fp).
  assert (Hsome : is_Some (sg_manifests x !! t) → clear_session t x = x) by (intros H; unfold clear_session; by rewrite bool_decide_true).
  assert (Hnone : sg_manifests x !! t = None → sg_sessions (clear_session t x) !! t = None).
  { intros H. unfold clear_session. rewrite bool_decide_false by (rewrite H; by intros [? ?]). simpl. by rewrite lookup_delete_eq. }
  assert (Ht : sg_manifests x !! t = None → noted x t) by (intros; split; [by exists name|done]).
  split; intros [Hb Hk Hm Hp Hw Hs Ho]; simpl in *; rewrite ?Fb, ?Fk, ?Fm, ?Fp in *.
  - split; simpl; rewrite ?Fb, ?Fk, ?Fm, ?Fp; auto.
    + intros name' v [_ ?]%lookup_delete_Some. eauto.
    + intros k Hk'. destruct (decide (k = t)) as [->|Hkt]; [|apply Hs; by rewrite <- (noted_one x name t)].
      apply Hs, Ht. destruct Hk' as [_ Hk']. simpl in Hk'. by rewrite Fm in Hk'.
    + intros k Hk'. destruct (decide (k = t)) as [->|Hkt].
      * destruct (sg_manifests x !! t) eqn:E; [rewrite Hsome by eauto; apply Ho; intros [_ ?]; congruence|].
        rewrite Hnone by done. by apply Hs, Ht.
      * rewrite clear_lookup by done. apply Ho. by rewrite <- (noted_one x name t).
  - split; auto.
    + intros name' v Hv. destruct (decide (name = name')) as [<-|]; [|apply (Hw name'); by rewrite lookup_delete_ne]. by simplify_eq.
    + intros k Hk'. destruct (decide (k = t)) as [->|Hkt]; [|apply Hs; by rewrite (noted_one x name t)].
      destruct (decide (noted (remove_pending name (clear_session t x)) t)); [by apply Hs|]. rewrite Ho by done. apply Hnone, Hk'.
    + intros k Hk'. destruct (decide (k = t)) as [->|Hkt]; [|rewrite Ho by (by rewrite (noted_one x name t)); by apply clear_lookup].
      destruct (sg_manifests x !! t) eqn:E; [|by destruct Hk'; apply Ht]. specialize (Ho t). rewrite Hsome in Ho by eauto. apply Ho. intros [_ H]. simpl in H. congruence.
Qed.

(** What [clean_pending] does of the notes there are. *)
Definition lists (x : storage) (notes : list (string * written string)) : Prop :=
  NoDup notes.*1 ∧ ∀ name v, (name, v) ∈ notes ↔ sg_pending x !! name = Some v.
Lemma lists_all x : lists x (map_to_list (sg_pending x)).
Proof. split; [apply NoDup_fst_map_to_list|]. intros. apply elem_of_map_to_list. Qed.
Lemma lists_rest x name t rest : lists x ((name, Whole t) :: rest) →
  sg_pending x !! name = Some (Whole t) ∧ lists (remove_pending name (clear_session t x)) rest.
Proof.
  intros [Hd He]. cbn in Hd. apply NoDup_cons in Hd as [Hin Hd]. split; [apply He; left|]. split; [done|]. intros name' v.
  simpl. destruct (clear_fields t x) as (_ & _ & _ & ->). rewrite lookup_delete_Some, <- He, elem_of_cons. split.
  - intros H. split; [intros ->; apply Hin, list_elem_of_fmap; by exists (name', v)|by right].
  - intros [Hne [[= -> ->]|H]]; done.
Qed.

Lemma clean_step name t rest b x : clean_pending ((name, Whole t) :: rest) b x =
  bind (if bool_decide (is_Some (sg_manifests x !! t)) then ret tt else change id (remove_session t))
       (λ _, bind (change id (remove_pending name)) (λ _, clean_pending rest)) b x.
Proof. done. Qed.
Lemma clean_None notes x : lists x notes → ∀ r x', clean_pending notes None x = (r, None, x') →
  (r = Done tt ∧ cleans_to x' x) ∨ r = Failed MalformedFile.
Proof.
  revert x. induction notes as [|[name [t|]] rest IH]; intros x Hl r x'; [|rewrite clean_step|by intros [= <- <-]; right].
  - intros [= <- <-]. left. split; [done|]. apply cleans_self, map_empty. intros name. apply eq_None_not_Some. intros [v Hv].
    apply Hl in Hv. by apply elem_of_nil in Hv.
  - destruct (lists_rest _ _ _ _ Hl) as [Hn Hl']. unfold bind, change, ret.
    assert (Hx : remove_pending name (clear_session t x) = remove_pending name (if bool_decide (is_Some (sg_manifests x !! t)) then x else remove_session t x)) by done.
    destruct (bool_decide _); cbn; rewrite <- Hx; intros H; (destruct (IH _ Hl' _ _ H) as [[-> Hc]| ->]; [left; split; [done|]|by right]);
      by rewrite (cleans_one _ _ name t).
Qed.
Lemma cleans_whole c x : cleans_to c x → ∀ notes, lists x notes → clean_pending notes None x = (Done tt, None, c) ∧ through (cleans_to c) (clean_pending notes) x.
Proof.
  intros Hc notes. revert x Hc. induction notes as [|[name [t|]] rest IH]; intros x Hc Hl.
  - split; [|apply through_ret]. cbn. unfold ret. do 3 f_equal. symmetry. apply cleans_done; [done|]. apply map_empty. intros name. apply eq_None_not_Some. intros [v Hv].
    apply Hl in Hv. by apply elem_of_nil in Hv.
  - destruct (lists_rest _ _ _ _ Hl) as [Hn Hl']. pose proof (cleans_session _ _ _ _ Hn Hc) as Hs. pose proof Hc as Hc'. rewrite (cleans_one _ _ _ _ Hn) in Hc'.
    destruct (IH _ Hc' Hl') as [Hrun Hthru]. revert Hs Hrun Hthru. unfold clear_session.
    split.
    + rewrite clean_step. destruct (bool_decide _); cbn; exact Hrun.
    + intros n. rewrite !clean_step. revert n. fold (through (cleans_to c) (bind (if bool_decide (is_Some (sg_manifests x !! t)) then ret tt else change id (remove_session t))
       (λ _, bind (change id (remove_pending name)) (λ _, clean_pending rest))) x).
      apply through_bind; [destruct (bool_decide _); auto with runs|]. intros [] x' Hx'.
      assert (x' = if bool_decide (is_Some (sg_manifests x !! t)) then x else remove_session t x) as -> by (destruct (bool_decide _); cbn in Hx'; injection Hx'; done).
      apply through_bind; [auto with runs|]. intros [] x'' [= <-]. done.
  - destruct (cl_whole _ _ Hc name Torn); [apply Hl; left|done].
Qed.

(** ** The blobs that are copied *)

Section Runs.
Context (digest : string → list Z).

Definition first_of (blobs : list (string * string)) : gmap string (written string) := Whole <$> (list_to_map blobs : gmap string string).

(** [c] is [y] with the blobs that are not there. *)
Record copies_to (blobs : list (string * string)) (c y : storage) : Prop := {
  cp_same : c = with_blobs (sg_blobs c) y;
  cp_blobs : sg_blobs c = sg_blobs y ∪ first_of blobs;
  cp_there : ∀ key w, key ∈ blobs.*1 → sg_blobs y !! key = Some w → ∃ old, w = Whole old ∧ sha256_hex digest old = key
}.

Lemma first_of_cons key text blobs : first_of ((key, text) :: blobs) = <[key := Whole text]> (first_of blobs).
Proof. unfold first_of. cbn. apply fmap_insert. Qed.
Lemma first_of_elem blobs key : key ∈ blobs.*1 ↔ is_Some (first_of blobs !! key).
Proof. unfold first_of. rewrite lookup_fmap, fmap_is_Some. rewrite <- not_eq_None_Some, <- not_elem_of_list_to_map. destruct (decide (key ∈ blobs.*1)); naive_solver. Qed.
Lemma first_of_hex blobs key w : Forall (λ kv, sha256_hex digest kv.2 = kv.1) blobs → first_of blobs !! key = Some w → ∃ old, w = Whole old ∧ sha256_hex digest old = key.
Proof.
  intros Hb. unfold first_of. rewrite lookup_fmap, fmap_Some. intros (text & H & ->). apply elem_of_list_to_map_2 in H. rewrite Forall_forall in Hb.
  exists text. split; [done|]. by apply (Hb (key, text)).
Qed.

(** A blob that is copied leaves the rest to copy. *)
Lemma copies_put all c y key text : copies_to all c y → sg_blobs y !! key = None → sg_blobs c !! key = Some (Whole text) →
  (key ∈ all.*1 → sha256_hex digest text = key) → copies_to all c (put_blob key (Whole text) y).
Proof.
  intros [Hs Hb Ht] Hy Hc Hk. split; [by rewrite Hs| |].
  - rewrite Hb in *. apply map_eq. intros i. unfold put_blob. cbn. destruct (decide (i = key)) as [->|Hne].
    + rewrite Hc. rewrite lookup_union, lookup_insert_eq. by rewrite union_Some_l.
    + rewrite !lookup_union. by rewrite lookup_insert_ne.
  - intros key' w Hin. cbn. destruct (decide (key' = key)) as [->|Hne]; [rewrite lookup_insert_eq|rewrite lookup_insert_ne by done; eauto].
    intros [= <-]. eauto.
Qed.
Lemma copies_tail key text blobs c y : copies_to ((key, text) :: blobs) c y → is_Some (sg_blobs y !! key) → copies_to blobs c y.
Proof.
  intros [Hs Hb Ht] [w Hw]. split; [done| |intros; eapply Ht; eauto; by right]. rewrite Hb, first_of_cons. apply map_eq. intros i.
  rewrite !lookup_union. destruct (decide (i = key)) as [->|]; [|by rewrite lookup_insert_ne]. rewrite Hw. by rewrite !union_Some_l.
Qed.
Lemma copies_end all c : sg_blobs c ∪ first_of all = sg_blobs c → (∀ key, key ∈ all.*1 → ∃ old, sg_blobs c !! key = Some (Whole old) ∧ sha256_hex digest old = key) →
  copies_to all c c.
Proof.
  intros Hu Ht. split; [by destruct c|done|]. intros key w Hin Hw. destruct (Ht key Hin) as (old & Hold & Hh). exists old. split; [congruence|done].
Qed.

Lemma copy_runs all blobs c y : Forall (λ kv, sha256_hex digest kv.2 = kv.1) all → blobs `suffix_of` all →
  copies_to all c y → copies_to blobs c y →
  copy_blobs digest blobs None y = (Done tt, None, c) ∧ through (copies_to all c) (copy_blobs digest blobs) y.
Proof.
  intros Hall. revert y. induction blobs as [|[key text] blobs IH]; intros y Hsuf Ha Hc.
  - split; [|apply through_ret]. cbn. unfold ret. do 2 f_equal. destruct Hc as [Hs Hb _]. rewrite Hs, Hb. unfold first_of. cbn. rewrite fmap_empty, map_union_empty. by destruct y.
  - assert (Hsuf' : blobs `suffix_of` all) by (destruct Hsuf as [l ->]; exists (l ++ [(key, text)]); by rewrite <- app_assoc).
    assert (Hkt : sha256_hex digest text = key).
    { destruct Hsuf as [l ->]. apply Forall_app in Hall as [_ Hall]. by apply Forall_cons in Hall as [? _]. }
    cbn [copy_blobs]. destruct (sg_blobs y !! key) as [w|] eqn:E.
    + destruct (cp_there _ _ _ Hc key w) as (old & -> & Hold); [left|done|]. destruct (IH y Hsuf' Ha) as [Hrun Hthru]; [by eapply copies_tail; eauto|].
      split; [unfold bind, look; rewrite E; cbn; by rewrite bool_decide_true|].
      apply through_bind; [auto with runs|]. intros a st' [= <- <-]. rewrite E. rewrite bool_decide_true by done. apply through_bind; [auto with runs|].
      intros [] st'' [= <-]. done.
    + assert (Hck : sg_blobs c !! key = Some (Whole text)).
      { rewrite (cp_blobs _ _ _ Hc), first_of_cons, lookup_union, E, lookup_insert_eq. done. }
      destruct (IH (put_blob key (Whole text) y) Hsuf') as [Hrun Hthru].
      { by apply copies_put. }
      { eapply copies_tail; [by apply copies_put|]. cbn. rewrite lookup_insert_eq. eauto. }
      split; [unfold bind, look; rewrite E; cbn; exact Hrun|].
      apply through_bind; [auto with runs|]. intros a st' [= <- <-]. rewrite E. apply through_bind; [auto with runs|]. intros [] st'' [= <-]. done.
Qed.

(** From a run without a stop that copies them. *)
Lemma copy_done blobs y c : Forall (λ kv, sha256_hex digest kv.2 = kv.1) blobs → copy_blobs digest blobs None y = (Done tt, None, c) → copies_to blobs c y.
Proof.
  revert y. induction blobs as [|[key text] blobs IH]; intros y Hall H.
  - injection H as <-. split; [by destruct y| |by intros ? ? ?%elem_of_nil]. unfold first_of. cbn. by rewrite fmap_empty, map_union_empty.
  - apply Forall_cons in Hall as [Hkt Hall]. cbn [copy_blobs] in H. unfold bind, look in H. destruct (sg_blobs y !! key) as [[old|]|] eqn:E; [|done|].
    + case_bool_decide as Hold; [|done]. cbn in H. destruct (IH _ Hall H) as [Hs Hb Ht]. split; [done| |].
      * rewrite Hb, first_of_cons. apply map_eq. intros i. rewrite !lookup_union. destruct (decide (i = key)) as [->|]; [|by rewrite lookup_insert_ne].
        rewrite E. by rewrite !union_Some_l.
      * intros key' w Hin Hw. destruct (decide (key' = key)) as [->|Hne]; [exists old; split; [congruence|done]|]. cbn in Hin. apply elem_of_cons in Hin as [->|Hin]; [done|]. by eapply Ht.
    + cbn in H. destruct (IH _ Hall H) as [Hs Hb Ht]. split; [by rewrite Hs| |].
      * rewrite Hb, first_of_cons. apply map_eq. intros i. cbn. rewrite !lookup_union. destruct (decide (i = key)) as [->|]; [|by rewrite !lookup_insert_ne].
        rewrite E, !lookup_insert_eq. by rewrite union_Some_l.
      * intros key' w Hin Hw. cbn in Hin. destruct (decide (key' = key)) as [->|Hne]; [congruence|]. apply elem_of_cons in Hin as [->|Hin]; [done|].
        apply (Ht key' w Hin). cbn. by rewrite lookup_insert_ne.
Qed.

(** A reference is checked the same before and after the staged blobs are copied. *)
Lemma check_copied blobs c y r : copies_to blobs c y → check_reference digest blobs c r = check_reference digest blobs y r.
Proof.
  intros [_ Hb _]. unfold check_reference. destruct (map_get (blob_sha256 r) blobs) eqn:E; [done|]. rewrite Hb, lookup_union.
  assert (first_of blobs !! blob_sha256 r = None) as ->.
  { apply eq_None_not_Some. rewrite <- first_of_elem. by apply map_get_None. }
  by destruct (sg_blobs y !! _).
Qed.

(** ** The run as a whole *)

Context (make : string → result migration_error plan) (sid bytes : string) (p : plan).

(** What the theorems ask of the plan of a log. *)
Record sound_plan : Prop := {
  sp_target : pl_target p ≠ sid;
  sp_blobs : Forall (λ kv, sha256_hex digest kv.2 = kv.1) (pl_blobs p);
  sp_source : mf_sourceSha256 (pl_manifest p) = sha256_hex digest bytes
}.

Definition key_of : string := backup_key sid (sha256_hex digest bytes).
Definition backed (y : storage) : Prop := ∃ old, sg_backups y !! key_of = Some (Whole old) ∧ sha256_hex digest old = sha256_hex digest bytes.

(** Files from which a run writes the new session: [c] is what they are when its blobs are
    copied. *)
Record ready (c y : storage) : Prop := {
  rd_source : sg_sessions y !! sid = Some bytes;
  rd_backup : backed y;
  rd_pending : sg_pending y = ∅;
  rd_manifest : sg_manifests y !! pl_target p = None;
  rd_copies : copies_to (pl_blobs p) c (remove_session (pl_target p) y);
  rd_verdict : pl_verdict p = Ok tt;
  rd_references : each (check_reference digest (pl_blobs p) c) (pl_references p) = Ok tt
}.

(** The note, the log and the manifest, in the order they are written. *)
Definition with_note (y : storage) : storage := put_pending (pl_target p) (Whole (pl_target p)) y.
Definition with_log (y : storage) : storage := put_session (pl_target p) (pl_bytes p) (with_note y).
Definition with_manifest (y : storage) : storage := put_manifest (pl_target p) (Whole (pl_manifest p)) (with_log y).
Definition finished (y : storage) : storage := remove_pending (pl_target p) (with_manifest y).

Lemma keep_backed y : backed y → keep_backup digest key_of bytes (sha256_hex digest bytes) None y = (Done tt, None, y).
Proof. intros (old & Hold & Hh). unfold keep_backup, bind, look. rewrite Hold. by rewrite bool_decide_true. Qed.

Lemma each_copied y c : copies_to (pl_blobs p) c y → each (check_reference digest (pl_blobs p) y) (pl_references p) = each (check_reference digest (pl_blobs p) c) (pl_references p).
Proof.
  intros Hc. unfold each. generalize 0. induction (pl_references p) as [|r rest IH]; intros n; [done|]. cbn. rewrite (check_copied _ _ _ _ Hc).
  destruct (check_reference _ _ _ _); [|done]. apply IH.
Qed.

Lemma write_runs c y : sound_plan → ready c y → write_target digest p None y = (Done (pl_manifest p), None, finished c).
Proof.
  intros Hp Hr. unfold write_target, bind, change, look. rewrite (rd_verdict _ _ Hr). rewrite (each_copied _ _ (rd_copies _ _ Hr)), (rd_references _ _ Hr).
  destruct (copy_runs (pl_blobs p) (pl_blobs p) c _ (sp_blobs Hp) ltac:(by exists []) (rd_copies _ _ Hr) (rd_copies _ _ Hr)) as [-> _]. done.
Qed.

Hypothesis made : make bytes = Ok p.

Lemma source_step b y : sg_sessions y !! sid = Some bytes → migrate_source digest make sid b y =
  bind (keep_backup digest key_of bytes (sha256_hex digest bytes)) (λ _,
    bind (look (λ st, sg_manifests st !! pl_target p)) (λ existing,
      match existing with
      | Some (Whole m) => if bool_decide (mf_sourceSha256 m = sha256_hex digest bytes) then ret m else fail ManifestMismatch
      | Some Torn => fail MalformedFile
      | None => write_target digest p
      end)) b y.
Proof. intros H. unfold migrate_source. unfold bind at 1, look at 1. rewrite H, made. done. Qed.

Lemma ready_runs c y : sound_plan → ready c y → migrate_source digest make sid None y = (Done (pl_manifest p), None, finished c).
Proof.
  intros Hp Hr. rewrite source_step by apply Hr. erewrite bind_None by (apply keep_backed, Hr). unfold bind at 1, look at 1. rewrite (rd_manifest _ _ Hr). by apply write_runs.
Qed.
Lemma migrated_runs m y : sg_sessions y !! sid = Some bytes → backed y → sg_manifests y !! pl_target p = Some (Whole m) → mf_sourceSha256 m = sha256_hex digest bytes →
  migrate_source digest make sid None y = (Done m, None, y).
Proof.
  intros Hs Hb Hm Hh. rewrite source_step by done. erewrite bind_None by (by apply keep_backed). unfold bind, look. rewrite Hm. by rewrite bool_decide_true.
Qed.

(** Running again from these files ends the same. *)
Definition ends (m : manifest) (last x : storage) : Prop := migrate_with digest make sid None x = (Done m, None, last).

Lemma ends_clean m last c x : cleans_to c x → migrate_source digest make sid None c = (Done m, None, last) → ends m last x.
Proof. intros Hc H. destruct (cleans_whole _ _ Hc _ (lists_all x)) as [Hrun _]. unfold ends, migrate_with, look. erewrite bind_None by done. by erewrite bind_None by exact Hrun. Qed.

Lemma clean_of m last x : ends m last x → ∃ c, cleans_to c x ∧ migrate_source digest make sid None c = (Done m, None, last).
Proof.
  unfold ends, migrate_with, look. erewrite bind_None by done. unfold bind. destruct (clean_pending _ None x) as [[r b] c] eqn:E.
  assert (b = None) as ->.
  { revert E. generalize (map_to_list (sg_pending x)). intros l. clear. revert x. induction l as [|[name [t|]] l IH]; intros x H; [by injection H|rewrite clean_step in H|by injection H].
    unfold bind, change, ret in H. destruct (bool_decide _); by apply IH in H. }
  destruct (clean_None _ _ (lists_all x) _ _ E) as [[-> Hc]| ->]; [|done]. eauto.
Qed.

Lemma cleans_note y : sg_pending y = ∅ → sg_manifests y !! pl_target p = None → sg_sessions y !! pl_target p = None →
  cleans_to y (with_note y) ∧ cleans_to y (with_log y).
Proof.
  intros Hp Hm Hs.
  assert (Hn : ∀ name v, (<[pl_target p := Whole (pl_target p)]> (sg_pending y)) !! name = Some v → v = Whole (pl_target p)).
  { intros name v. rewrite Hp, lookup_insert_Some, lookup_empty. by intros [[_ <-]|[_ ?]]. }
  assert (Ht : (<[pl_target p := Whole (pl_target p)]> (sg_pending y)) !! pl_target p = Some (Whole (pl_target p))) by apply lookup_insert_eq.
  split; split; auto; unfold noted, with_log, with_note; cbn.
  1,3: intros name v Hv; by rewrite (Hn _ _ Hv).
  - intros k [[name Hk] _]. by injection (Hn _ _ Hk) as ->.
  - intros k [[name Hk] _]. by injection (Hn _ _ Hk) as ->.
  - intros k Hk. rewrite lookup_insert_ne; [done|]. intros <-. apply Hk. split; [by exists (pl_target p)|done].
Qed.
Lemma cleans_manifest y : sg_pending y = ∅ → cleans_to (finished y) (with_manifest y).
Proof.
  intros Hp. assert (Hm : is_Some (sg_manifests (with_manifest y) !! pl_target p)) by (cbn; rewrite lookup_insert_eq; eauto).
  rewrite (cleans_one _ _ (pl_target p) (pl_target p)) by (cbn; by rewrite lookup_insert_eq).
  unfold clear_session. rewrite bool_decide_true by done. apply cleans_self. cbn. by rewrite Hp, delete_insert_eq.
Qed.

(** The files that are ready stay so while the blobs are copied. *)
Lemma ready_copied c y z : sound_plan → ready c y → copies_to (pl_blobs p) c z → with_blobs (sg_blobs z) c = z → ready c z.
Proof.
  intros Hp [Hs Hb Hpe Hm Hc Hv Hr] Hz Hcz. rewrite (cp_same _ _ _ Hc) in Hcz. split; try rewrite <- Hcz; try done.
  - cbn. rewrite lookup_delete_ne; [done|]. by destruct Hp.
  - rewrite Hcz. replace (remove_session (pl_target p) z) with z; [done|]. rewrite <- Hcz. unfold with_blobs, remove_session, with_sessions. cbn. by rewrite delete_delete_eq.
Qed.
Lemma copies_same c y : sound_plan → copies_to (pl_blobs p) c y → copies_to (pl_blobs p) c c.
Proof.
  intros Hp [Hs Hb Ht]. apply copies_end.
  - rewrite Hb. rewrite <- (assoc_L (∪)). f_equal. apply map_union_idemp.
  - intros key Hin. rewrite Hb. apply first_of_elem in Hin as Hf. destruct Hf as [w Hw]. destruct (sg_blobs y !! key) as [w'|] eqn:E.
    + destruct (Ht key w' Hin E) as (old & -> & Hold). exists old. split; [|done]. by apply lookup_union_Some_l.
    + destruct (first_of_hex _ _ _ (sp_blobs Hp) Hw) as (old & -> & Hold). exists old. split; [|done]. rewrite lookup_union_r by done. done.
Qed.

Lemma ready_through c y : sound_plan → ready c y → through (ends (pl_manifest p) (finished c)) (write_target digest p) y.
Proof.
  intros Hp Hr. assert (Hends : ∀ z, ready c z → ends (pl_manifest p) (finished c) z).
  { intros z Hz. apply (ends_clean _ _ z); [apply cleans_self, Hz|by apply ready_runs]. }
  pose proof (rd_copies _ _ Hr) as Hc.
  assert (Hcc : ready c c) by (apply (ready_copied c y); [done|done|by eapply copies_same|by destruct c]).
  unfold write_target. apply through_bind; [by apply through_change, Hends|]. intros [] z [= <-].
  rewrite (rd_verdict _ _ Hr). apply through_bind; [auto with runs|]. intros a z [= <- <-].
  rewrite (each_copied _ _ Hc), (rd_references _ _ Hr).
  destruct (copy_runs (pl_blobs p) (pl_blobs p) c _ (sp_blobs Hp) ltac:(by exists []) Hc Hc) as [Hrun Hthru].
  apply through_bind.
  { revert Hthru. apply through_weaken. intros z Hz. apply Hends. apply (ready_copied c y); [done|done|done|].
    rewrite (cp_same _ _ _ Hz). by destruct z. }
  intros [] z Hz. rewrite Hrun in Hz. injection Hz as <-.
  destruct (cleans_note c) as [Hnote Hlog]; [apply Hcc|apply Hcc|rewrite (cp_same _ _ _ Hc); cbn; apply lookup_delete_eq|].
  assert (Hend : migrate_source digest make sid None c = (Done (pl_manifest p), None, finished c)) by (by apply ready_runs).
  apply through_bind; [by apply through_change, Hends|]. intros [] z [= <-]. change (put_pending _ _ c) with (with_note c).
  apply through_bind; [apply through_change; by apply (ends_clean _ _ c)|]. intros [] z [= <-]. change (put_session _ _ _) with (with_log c).
  apply through_bind; [apply through_change; by apply (ends_clean _ _ c)|]. intros [] z [= <-]. change (put_manifest _ _ _) with (with_manifest c).
  apply through_bind; [apply through_change|intros [] z [= <-]; apply through_ret].
  apply (ends_clean _ _ (finished c)); [apply cleans_manifest, Hcc|]. apply migrated_runs; [|apply Hcc| |apply Hp].
  - cbn. rewrite lookup_insert_ne by apply Hp. apply Hcc.
  - cbn. by rewrite lookup_insert_eq.
Qed.

(** From a run without a stop that reached its end. *)
Lemma write_done y m last : sound_plan → sg_sessions y !! sid = Some bytes → backed y → sg_pending y = ∅ → sg_manifests y !! pl_target p = None →
  write_target digest p None y = (Done m, None, last) → ∃ c, ready c y ∧ m = pl_manifest p ∧ last = finished c.
Proof.
  intros Hp Hs Hb Hpe Hm. unfold write_target, bind, change, look. destruct (pl_verdict p) as [[]|] eqn:Hv; [|done].
  destruct (each _ _) as [[]|] eqn:He; [|done]. destruct (copy_blobs _ _ _ _) as [[[[]|e|] b] c] eqn:Hc; [|done|done].
  assert (b = None) as ->.
  { clear -Hc. revert Hc. generalize (remove_session (pl_target p) y). induction (pl_blobs p) as [|[key text] l IH]; intros z H; [by injection H|].
    cbn [copy_blobs] in H. unfold bind, look in H. destruct (sg_blobs z !! key) as [[old|]|]; [case_bool_decide|done|]; [|done|]; by apply IH in H. }
  intros [= <- <-]. apply copy_done in Hc; [|apply Hp]. exists c. split; [|done]. split; try done. by rewrite <- (each_copied _ _ Hc).
Qed.

Lemma backup_done y b y' : keep_backup digest key_of bytes (sha256_hex digest bytes) None y = (Done tt, b, y') →
  b = None ∧ backed y' ∧ y' = with_backups (sg_backups y') y.
Proof.
  unfold keep_backup, bind, look. destruct (sg_backups y !! key_of) as [[old|]|] eqn:E; [case_bool_decide as Hd|done|]; [|done|].
  - intros [= <- <-]. split; [done|]. split; [by exists old|by destruct y].
  - intros [= <- <-]. split; [done|]. split; [|done]. exists bytes. cbn. by rewrite lookup_insert_eq.
Qed.
End Runs.

Section Resume.
Context (digest : string → list Z) (make : string → result migration_error plan) (sid : string).

Lemma source_through m last c : (∀ bytes p, sg_sessions c !! sid = Some bytes → make bytes = Ok p → sound_plan digest sid bytes p) →
  sg_pending c = ∅ → migrate_source digest make sid None c = (Done m, None, last) → through (ends digest make sid m last) (migrate_source digest make sid) c.
Proof.
  intros Hsound Hpe H. assert (Hc : ends digest make sid m last c) by (apply (ends_clean _ _ _ _ _ c); [by apply cleans_self|done]).
  revert H. unfold migrate_source at 1 2. unfold bind at 1, look at 1. destruct (sg_sessions c !! sid) as [bytes|] eqn:Hs; [|done].
  specialize (Hsound bytes). change (backup_key sid (sha256_hex digest bytes)) with (key_of digest sid bytes). intros H.
  apply through_bind; [auto with runs|]. intros a z [= <- <-]. rewrite Hs. change (backup_key sid (sha256_hex digest bytes)) with (key_of digest sid bytes).
  apply through_bind.
  { unfold keep_backup. apply through_bind; [auto with runs|]. intros a z [= <- <-]. destruct (sg_backups c !! _) as [[old|]|]; [case_bool_decide| |]; auto with runs. }
  intros [] y Hy. unfold bind at 1 in H. rewrite Hy in H. destruct (backup_done _ _ _ _ _ _ Hy) as (_ & Hb & Hyc).
  destruct (make bytes) as [p|] eqn:Hmake; [|done]. specialize (Hsound p eq_refl eq_refl).
  assert (Hsy : sg_sessions y !! sid = Some bytes) by (by rewrite Hyc). assert (Hpy : sg_pending y = ∅) by (by rewrite Hyc).
  apply through_bind; [auto with runs|]. intros a z [= <- <-]. unfold bind, look in H. destruct (sg_manifests y !! pl_target p) as [[m'|]|] eqn:Hm; [| |].
  - case_bool_decide; auto with runs.
  - auto with runs.
  - destruct (write_done _ _ _ _ _ _ _ Hsound Hsy Hb Hpy Hm H) as (cc & Hr & -> & ->). by apply (ready_through _ _ _ bytes).
Qed.

(** A run that stops between two changes, and what may be left after any number of them. *)
Definition stops (st x : storage) : Prop := ∃ n b, migrate_with digest make sid (after n) st = (Stopped, b, x).

Lemma run_through m last st : (∀ bytes p, sg_sessions st !! sid = Some bytes → make bytes = Ok p → sound_plan digest sid bytes p) →
  ends digest make sid m last st → through (ends digest make sid m last) (migrate_with digest make sid) st.
Proof.
  intros Hsound H. destruct (clean_of _ _ _ _ _ _ H) as (c & Hc & Hend). unfold migrate_with. apply through_bind; [auto with runs|]. intros a z [= <- <-].
  destruct (cleans_whole _ _ Hc _ (lists_all st)) as [Hrun Hthru]. apply through_bind.
  { revert Hthru. apply through_weaken. intros x Hx. by apply (ends_clean _ _ _ _ _ c). }
  intros [] z Hz. rewrite Hrun in Hz. injection Hz as <-. apply source_through; [|apply Hc|done]. intros bytes p Hs. apply Hsound.
  destruct (decide (noted st sid)) as [Hn|Hn]; [by rewrite (cl_noted _ _ Hc _ Hn) in Hs|]. by rewrite <- (cl_others _ _ Hc _ Hn).
Qed.

(** The source is at the end what it was where the run began. *)
Lemma ends_source m last x : (∀ bytes p, make bytes = Ok p → sound_plan digest sid bytes p) →
  ends digest make sid m last x → ∃ bytes, sg_sessions x !! sid = Some bytes ∧ sg_sessions last !! sid = Some bytes.
Proof.
  intros Hsound H. destruct (clean_of _ _ _ _ _ _ H) as (c & Hc & Hend).
  assert (Hx : ∀ bytes, sg_sessions c !! sid = Some bytes → sg_sessions x !! sid = Some bytes).
  { intros bytes Hs. destruct (decide (noted x sid)) as [Hn|Hn]; [by rewrite (cl_noted _ _ Hc _ Hn) in Hs|]. by rewrite <- (cl_others _ _ Hc _ Hn). }
  unfold migrate_source in Hend. unfold bind at 1, look at 1 in Hend. destruct (sg_sessions c !! sid) as [bytes|] eqn:Hs; [|done]. exists bytes. split; [by apply Hx|].
  change (backup_key sid (sha256_hex digest bytes)) with (key_of digest sid bytes) in Hend. unfold bind at 1 in Hend.
  destruct (keep_backup _ _ _ _ _ _) as [[[[]|e|] b] y] eqn:Hy; [|done|done]. destruct (backup_done _ _ _ _ _ _ Hy) as (-> & Hb & Hyc).
  assert (Hsy : sg_sessions y !! sid = Some bytes) by (by rewrite Hyc). assert (Hpy : sg_pending y = ∅) by (rewrite Hyc; apply Hc).
  destruct (make bytes) as [p|] eqn:Hmake; [|done]. apply Hsound in Hmake. unfold bind, look in Hend. destruct (sg_manifests y !! pl_target p) as [[m'|]|] eqn:Hm; [|done|].
  - case_bool_decide; [|done]. by injection Hend as <- <-.
  - destruct (write_done _ _ _ _ _ _ _ Hmake Hsy Hb Hpy Hm Hend) as (cc & Hr & -> & ->). cbn. rewrite lookup_insert_ne by apply Hmake.
    rewrite (cp_same _ _ _ _ (rd_copies _ _ _ _ _ _ Hr)). cbn. rewrite lookup_delete_ne by apply Hmake. done.
Qed.

(** C15: a migration that stops is finished by running it again. If, left alone, the migration
    of a session ends with a manifest, then after a stop between any two changes of files, and
    after any number of such runs, the source log is untouched and running again returns the
    same manifest and leaves the same files; and a run that does not stop returns it itself. *)
Theorem stopped_migration_resumes m last st : (∀ bytes p, make bytes = Ok p → sound_plan digest sid bytes p) →
  migrate_with digest make sid None st = (Done m, None, last) →
  ∀ x, rtc stops st x →
    sg_sessions x !! sid = sg_sessions st !! sid ∧ migrate_with digest make sid None x = (Done m, None, last) ∧
    ∀ n, match migrate_with digest make sid (after n) x with
         | (Stopped, _, y) => sg_sessions y !! sid = sg_sessions st !! sid
         | (r, _, y) => r = Done m ∧ y = last
         end.
Proof.
  intros Hsound H.
  assert (Hkeep : ∀ y, ends digest make sid m last y → sg_sessions y !! sid = sg_sessions st !! sid).
  { intros y Hy. destruct (ends_source m last y Hsound Hy) as (b & ? & ?). destruct (ends_source m last st Hsound H) as (b' & ? & ?). congruence. }
  assert (Hthru : ∀ y, ends digest make sid m last y → through (ends digest make sid m last) (migrate_with digest make sid) y).
  { intros y Hy. apply run_through; [|done]. intros bytes p _. apply Hsound. }
  assert (Hall : ∀ x, rtc stops st x → ends digest make sid m last x).
  { intros x Hx. revert H. clear Hkeep. induction Hx as [y|y z w (n & b & Hn) _ IH]; [done|]. intros H. apply IH. specialize (Hthru y H n). by rewrite Hn in Hthru. }
  intros x Hx%Hall. split; [by apply Hkeep|]. split; [done|]. intros n. specialize (Hthru x Hx n). unfold ends in Hx.
  destruct (migrate_with digest make sid (after n) x) as [[[a|e|] b] y]; [| |by apply Hkeep]; destruct Hthru as [_ Hthru]; rewrite Hx in Hthru; by injection Hthru as <- <-.
Qed.

(** A note of which a part was written stays, and no session of the directory can be migrated
    while it is there. *)
Theorem torn_note_stops_migrations name st : sg_pending st !! name = Some Torn →
  ∃ last, migrate_with digest make sid None st = (Failed MalformedFile, None, last) ∧ sg_pending last !! name = Some Torn.
Proof.
  intros Hn. unfold migrate_with, look. erewrite bind_None by done. pose proof (lists_all st) as Hl. revert Hl. generalize (map_to_list (sg_pending st)). intros notes Hl.
  assert (∃ last, clean_pending notes None st = (Failed MalformedFile, None, last) ∧ sg_pending last !! name = Some Torn) as (last & Hc & Hp).
  { revert st Hn Hl. induction notes as [|[k [t|]] rest IH]; intros st Hn Hl; [apply Hl in Hn; by apply elem_of_nil in Hn| |by exists st].
    destruct (lists_rest _ _ _ _ Hl) as [Hk Hl']. destruct (IH (remove_pending k (clear_session t st))) as (last & Hc & Hp); [|done|].
    - cbn. destruct (clear_fields t st) as (_ & _ & _ & ->). rewrite lookup_delete_ne; [done|]. congruence.
    - exists last. split; [|done]. rewrite clean_step. rewrite <- Hc. unfold bind, change, ret, clear_session. by destruct (bool_decide _). }
  exists last. split; [|done]. unfold bind. by rewrite Hc.
Qed.
End Resume.

(** ** The plan of a log *)

Section Plans.
Context (digest : string → list Z).

Definition under_digests (blobs : list (string * string)) : Prop := Forall (λ kv, sha256_hex digest kv.2 = kv.1) blobs.

Lemma under_set blobs text : under_digests blobs → under_digests (map_set (sha256_hex digest text) text blobs).
Proof.
  unfold under_digests. induction blobs as [|[k v] blobs IH]; [by constructor|]. intros [Hk Hb]%Forall_cons. cbn. case_bool_decide as Hd; constructor; auto.
Qed.
Lemma under_items blobs items : under_digests blobs → under_digests (externalize_items digest blobs items).1.
Proof.
  revert blobs. induction items as [|c items IH]; intros blobs Hb; [done|]. cbn.
  assert (under_digests (externalize_item digest blobs c).1) as Hc by (destruct c; cbn; try done; destruct (_ || _); [done|by apply under_set]).
  destruct (externalize_item digest blobs c) as [blobs' c']. specialize (IH blobs' Hc). by destruct (externalize_items digest blobs' items).
Qed.
Lemma under_events target mappings blobs records blobs' events : under_digests blobs →
  migrate_events digest target mappings blobs records = Ok (blobs', events) → under_digests blobs'.
Proof.
  revert blobs events. induction records as [|r records IH]; intros blobs events Hb; [by intros [= <- <-]|]. cbn. unfold migrate_event.
  destruct (remapEvent _ _ _) as [moved|]; [|done]. cbn. destruct (encodeCanonicalEvent _) as [|[|]]; [|done|].
  - cbn. destruct (migrate_events _ _ _ _ _) as [[b l]|] eqn:E; [|done]. intros [= <- <-]. by eapply IH.
  - unfold externalizeTextContent. assert (∃ blobs1 r1, (match items_of (ev_payload moved) with None => (Ok moved, blobs) | Some items =>
      let (blobs, items) := externalize_items digest blobs items in (parse_typed {| ev_id := ev_id moved; ev_sessionId := ev_sessionId moved;
        ev_operationId := ev_operationId moved; ev_parentId := ev_parentId moved; ev_timestamp := ev_timestamp moved;
        ev_payload := with_items items (ev_payload moved) |}, blobs) end) = (r1, blobs1) ∧ under_digests blobs1) as (blobs1 & r1 & -> & Hb1).
    { destruct (items_of _) as [items|]; [|eauto]. pose proof (under_items blobs items Hb). destruct (externalize_items _ _ _). eauto. }
    destruct r1 as [ext|]; [|done]. cbn. destruct (encodeCanonicalEvent _) as [|[|]]; [|done|done]. cbn.
    destruct (migrate_events _ _ _ _ _) as [[b l]|] eqn:E; [|done]. intros [= <- <-]. by eapply IH.
Qed.
Lemma under_built records target mappings blobs events :
  buildMigratedEvents digest records target = Ok (mappings, blobs, events) → under_digests blobs.
Proof.
  unfold buildMigratedEvents. destruct (each _ _) as [[]|]; [|done]. cbn. destruct (migrate_events _ _ _ _ _) as [[b l]|] eqn:E; [|done].
  intros [= <- <- <-]. eapply under_events; [|done]. constructor.
Qed.

Lemma plan_of_sound confirmPrefix sid bytes p : (∀ kind, target_of digest (sha256_hex digest bytes) kind ≠ sid) →
  plan_of digest confirmPrefix sid bytes = Ok p → sound_plan digest sid bytes p.
Proof.
  intros Ht. unfold plan_of. destruct (parseCommittedEvents _ _) as [records|]; [|done]. cbn. destruct (refuse _ _); [|done]. cbn. destruct (require _ _); [|done]. cbn.
  destruct (buildMigratedEvents _ _ _) as [[[m b] e]|err] eqn:E.
  - intros [= <-]. split; [apply Ht|by eapply under_built|done].
  - destruct err; try done. destruct (negb _); [done|]. destruct (head _) as [[e ?]|]; [|done]. destruct (require _ _); [|done]. cbn.
    clear E. destruct (buildMigratedEvents _ _ _) as [[[m b] e']|err] eqn:E'; cbn; [|done]. intros [= <-]. split; [apply Ht|by eapply under_built|done].
Qed.

(** The migration as it is, when no log hashes to the session it is the log of. *)
Theorem migrateSessionEvents_resumes confirmPrefix sid m last st :
  (∀ bytes kind, target_of digest (sha256_hex digest bytes) kind ≠ sid) →
  migrateSessionEvents digest confirmPrefix sid None st = (Done m, None, last) →
  ∀ x, rtc (stops digest (plan_of digest confirmPrefix sid) sid) st x →
    sg_sessions x !! sid = sg_sessions st !! sid ∧ migrateSessionEvents digest confirmPrefix sid None x = (Done m, None, last).
Proof.
  intros Ht H x Hx. destruct (stopped_migration_resumes digest (plan_of digest confirmPrefix sid) sid m last st) with (x := x) as (? & ? & _); [|done|done|done].
  intros bytes p. by apply plan_of_sound.
Qed.

(** The sessions this makes have version 5, those the daemon makes have version 4. *)
Lemma random_sessions_differ hash kind sid : (∀ s, length (digest s) = 32 ∧ Forall byte (digest s)) → String.get 14 sid = Some "4"%char →
  target_of digest hash kind ≠ sid.
Proof. intros Hd Hs He. unfold target_of in He. rewrite <- He, deterministicUuid_version in Hs by done. done. Qed.
End Plans.

(** ** A run of it *)

Definition short_digest (s : string) : list Z := replicate 32 (Z.of_nat (String.length s) mod 256)%Z.
Lemma short_digest_bytes s : length (short_digest s) = 32 ∧ Forall byte (short_digest s).
Proof. split; [apply length_replicate|]. apply Forall_replicate. unfold byte. pose proof (Z.mod_pos_bound (Z.of_nat (String.length s)) 256). lia. Qed.

Definition small_plan : plan :=
  {| pl_target := "new"; pl_bytes := "rewritten"; pl_blobs := [(sha256_hex short_digest "a text", "a text")];
     pl_references := [{| blob_sha256 := sha256_hex short_digest "a text"; blob_mediaType := "text/plain"; blob_sizeBytes := 6; blob_name := None |}];
     pl_verdict := Ok tt;
     pl_manifest := {| mf_sourceSessionId := "old"; mf_targetSessionId := "new"; mf_sourceSha256 := sha256_hex short_digest "log";
                       mf_targetSha256 := sha256_hex short_digest "rewritten"; mf_eventIdMappings := []; 
                       mf_externalizedBlobDigests := [sha256_hex short_digest "a text"]; mf_omittedSuffix := None |} |}.
Definition small_make (bytes : string) : result migration_error plan := if bool_decide (bytes = "log") then Ok small_plan else Err NotRequired.
(** An earlier migration stopped when it had written its log. *)
Definition small_storage : storage :=
  {| sg_sessions := <["old" := "log"]> {["left" := "unfinished"]}; sg_blobs := ∅; sg_backups := ∅;
     sg_pending := {["left" := Whole "left"]}; sg_manifests := ∅ |}.
Definition small_run (at_ : option stop) : ending manifest * option stop * storage := migrate_with short_digest small_make "old" at_ small_storage.

Lemma small_sound bytes p : small_make bytes = Ok p → sound_plan short_digest "old" bytes p.
Proof. unfold small_make. case_bool_decide as Hb; [|done]. intros [= <-]. subst. split; [done|by repeat constructor|done]. Qed.

Lemma stopped_migration_resumes_witness :
  (small_run (after 7)).1.1 = Stopped ∧ is_Some (sg_sessions (small_run (after 7)).2 !! "new") ∧ sg_manifests (small_run (after 7)).2 = ∅ ∧
  migrate_with short_digest small_make "old" None (small_run (after 7)).2 = (Done (pl_manifest small_plan), None, (small_run None).2).
Proof.
  split; [by vm_compute|]. split; [eexists; by vm_compute|]. split; [by vm_compute|].
  refine (proj1 (proj2 (stopped_migration_resumes short_digest small_make "old" (pl_manifest small_plan) (small_run None).2 small_storage small_sound _ (small_run (after 7)).2 _))).
  - vm_compute. reflexivity.
  - apply rtc_once. exists 7, (small_run (after 7)).1.2. vm_compute. reflexivity.
Defined.

Definition torn_at (n : nat) : option stop := Some {| sp_after := n; sp_torn := true |}.

Lemma torn_note_stops_migrations_witness :
  sg_pending (small_run (torn_at 5)).2 !! "new" = Some Torn ∧
  ∃ last, migrate_with short_digest small_make "old" None (small_run (torn_at 5)).2 = (Failed MalformedFile, None, last) ∧ sg_pending last !! "new" = Some Torn.
Proof. split; [by vm_compute|]. apply (torn_note_stops_migrations short_digest small_make "old" "new" (small_run (torn_at 5)).2). by vm_compute. Defined.

(** The other files that are written in place: what every later run ends with. *)
Example torn_backup_is_final :
  (migrate_with short_digest small_make "old" None (small_run (torn_at 2)).2).1.1 = Failed BackupMismatch.
Proof. by vm_compute. Qed.
Example torn_blob_is_final :
  (migrate_with short_digest small_make "old" None (small_run (torn_at 4)).2).1.1 = Failed (BlobMismatch (sha256_hex short_digest "a text")).
Proof. by vm_compute. Qed.
Example torn_manifest_is_final :
  (migrate_with short_digest small_make "old" None (small_run (torn_at 7)).2).1.1 = Failed MalformedFile.
Proof. by vm_compute. Qed.
