(* ===== verification/Tools.v ===== *)
(** kernel/src/tools.ts: the tool registry, and kernel/src/tools/validate.ts:
    the checks tools run on their input. *)
From stdpp Require Import base list sets strings pretty.
From Stdlib Require Import ZArith Lia.
From S2P Require Import Prelude Text JsValue Json Types JsMap.

(** A tool is an object: [===] compares its identity [kt_ref].  What [execute]
    does is outside the registry. *)
Record KernelTool := {
  kt_ref : nat;
  kt_name : string;
  kt_description : string;
  kt_inputSchema : fields
}.
#[export] Instance KernelTool_eq_dec : EqDecision KernelTool.
Proof. solve_decision. Defined.

Record ToolExecutionResult := {
  ter_content : list content;
  ter_isError : bool;
  ter_details : option jsval
}.

Inductive ToolRegistryError := tool_registry_error (message : string).

Abbreviation ToolRegistry := (list (string * KernelTool)).

Module Registry.
Definition register (tool : KernelTool) (tools : ToolRegistry) : result ToolRegistryError ToolRegistry :=
  if map_has (kt_name tool) tools
  then Err (tool_registry_error ("Tool " +:+ kt_name tool +:+ " is already registered"))
  else Ok (map_set (kt_name tool) tool tools).

(** The disposer [register] returned for [tool]. *)
Definition dispose (tool : KernelTool) (tools : ToolRegistry) : ToolRegistry :=
  match map_get (kt_name tool) tools with
  | Some t => if bool_decide (kt_ref t = kt_ref tool) then map_delete (kt_name tool) tools else tools
  | None => tools
  end.

Definition get (name : string) (tools : ToolRegistry) : option KernelTool := map_get name tools.

Definition declarations (tools : ToolRegistry) : list ToolDeclaration :=
  (λ t, {| td_name := kt_name t; td_description := kt_description t;
           td_inputSchema := kt_inputSchema t |}) <$> map_values tools.

(** A history of a registry: a registration that throws changes nothing. *)
Inductive op := Register (tool : KernelTool) | Dispose (tool : KernelTool).

Definition run_op (o : op) (tools : ToolRegistry) : ToolRegistry :=
  match o with
  | Register t => match register t tools with Ok tools' => tools' | Err _ => tools end
  | Dispose t => dispose t tools
  end.
Definition run (ops : list op) : ToolRegistry := fold_left (λ tools o, run_op o tools) ops [].

(** [t] was registered when its name was free, and not disposed since. *)
Definition live (ops : list op) (t : KernelTool) : Prop :=
  ∃ pre post, ops = pre ++ Register t :: post ∧ get (kt_name t) (run pre) = None ∧
    Forall (λ o, ∀ t', o = Dispose t' → kt_name t' = kt_name t → kt_ref t' ≠ kt_ref t) post.

Lemma run_snoc ops o : run (ops ++ [o]) = run_op o (run ops).
Proof. unfold run. by rewrite fold_left_app. Qed.

Lemma get_run_op name o tools :
  get name (run_op o tools) =
    match o with
    | Register t => match get name tools with
                    | Some t' => Some t'
                    | None => if bool_decide (kt_name t = name) then Some t else None
                    end
    | Dispose t => match get name tools with
                   | Some t' => if bool_decide (kt_name t = name ∧ kt_ref t' = kt_ref t) then None else Some t'
                   | None => None
                   end
    end.
Proof.
  unfold get, run_op, register, dispose, map_has. destruct o as [t|t].
  - destruct (map_get (kt_name t) tools) as [t0|] eqn:Ht.
    + case_bool_decide as E; [subst name; by rewrite Ht|]. by destruct (map_get name tools).
    + rewrite map_get_set. case_bool_decide as E; [subst name; by rewrite Ht|]. by destruct (map_get name tools).
  - destruct (map_get (kt_name t) tools) as [t0|] eqn:Ht.
    + destruct (bool_decide_reflect (kt_ref t0 = kt_ref t)) as [Hr|Hr].
      * rewrite map_get_delete. case_bool_decide as E.
        -- subst name. rewrite Ht. by rewrite bool_decide_true.
        -- destruct (map_get name tools); [|done]. rewrite bool_decide_false; [done|]. by intros [? _].
      * destruct (map_get name tools) as [t1|] eqn:Hn; [|done]. rewrite bool_decide_false; [done|].
        intros [<- ?]. congruence.
    + destruct (map_get name tools) as [t1|] eqn:Hn; [|done]. rewrite bool_decide_false; [done|].
      intros [<- ?]. congruence.
Qed.

Lemma live_snoc ops o t :
  live (ops ++ [o]) t ↔
  (live ops t ∧ ∀ t', o = Dispose t' → kt_name t' = kt_name t → kt_ref t' ≠ kt_ref t) ∨
  (o = Register t ∧ get (kt_name t) (run ops) = None).
Proof.
  unfold live. split.
  - intros (pre & post & Heq & Hfree & Hpost). destruct post as [|o' post _] using rev_ind.
    + apply app_inj_tail in Heq as [-> ->]. by right.
    + rewrite app_comm_cons, app_assoc in Heq. apply app_inj_tail in Heq as [-> ->]. left.
      apply Forall_app in Hpost as [Hpost Ho']. rewrite Forall_singleton in Ho'. split; [by exists pre, post | exact Ho'].
  - intros [[(pre & post & -> & Hfree & Hpost) Ho] | [-> Hfree]].
    + exists pre, (post ++ [o]). rewrite <- app_assoc. split_and!; [done..|].
      apply Forall_app. split; [done|]. by apply Forall_singleton.
    + by exists ops, [].
Qed.

Lemma get_run ops name t : get name (run ops) = Some t ↔ kt_name t = name ∧ live ops t.
Proof.
  revert name t. induction ops as [|o ops IH] using rev_ind; intros name t.
  - split; [done|]. intros [_ (pre & post & Heq & _)]. by destruct pre.
  - assert (Huniq : kt_name t = name → live ops t → get name (run ops) = Some t) by (intros; by apply IH).
    rewrite run_snoc, get_run_op, live_snoc.
    destruct o as [u|u], (get name (run ops)) as [t'|] eqn:Hg.
    + pose proof (proj1 (IH _ _) Hg) as [Hn' Hl']. split.
      * intros [= ->]. split; [done|]. left. by split.
      * intros [Hn [[Hl _] | [_ Hfree]]]; [specialize (Huniq Hn Hl); congruence | congruence].
    + case_bool_decide as E; split; try done.
      * intros [= ->]. split; [done|]. right. by rewrite E.
      * intros [Hn [[Hl _] | [Heq _]]]; [specialize (Huniq Hn Hl); congruence | congruence].
      * intros [Hn [[Hl _] | [Heq _]]]; [specialize (Huniq Hn Hl); congruence | congruence].
    + pose proof (proj1 (IH _ _) Hg) as [Hn' Hl']. case_bool_decide as E; split; try done.
      * intros [Hn [[Hl Hd] | [? _]]]; [|done]. pose proof (Huniq Hn Hl) as [= ->].
        exfalso. by apply (Hd u eq_refl); [|symmetry]; destruct E; congruence.
      * intros [= ->]. split; [done|]. left. split; [done|]. intros u' [= <-] Hu Hr. apply E.
        split; congruence.
      * intros [Hn [[Hl _] | [? _]]]; [|done]. specialize (Huniq Hn Hl); congruence.
    + split; [done|]. intros [Hn [[Hl _] | [? _]]]; [|done]. specialize (Huniq Hn Hl); congruence.
Qed.
End Registry.

(** registry membership is authority: after any sequence of registrations and
    disposals, a tool answers to a name exactly when it was registered under that
    name while the name was free and was not itself disposed since.  In
    particular a disposer never removes another tool of the same name. *)
Theorem registry_authority ops name t :
  Registry.get name (Registry.run ops) = Some t ↔ kt_name t = name ∧ Registry.live ops t.
Proof. apply Registry.get_run. Qed.

(** ** Input checks *)

Inductive ToolInputError := tool_input_error (message : string).

Definition rejectUnknownFields (input : fields) (toolName : string) (allowed : list string) :
    result ToolInputError unit :=
  each (λ key, require (bool_decide (key ∈ allowed))
                 (tool_input_error (toolName +:+ ": unknown input field " +:+ quote key))) (keys input).

Definition requiredString (input : fields) (toolName key : string) : result ToolInputError string :=
  match get key input with
  | JStr s =>
      _ ← refuse (bool_decide (s = ""))
            (tool_input_error (toolName +:+ ": " +:+ key +:+ " must be a non-empty string"));
      Ok s
  | _ => Err (tool_input_error (toolName +:+ ": " +:+ key +:+ " must be a non-empty string"))
  end.

Definition optionalString (input : fields) (toolName key : string) : result ToolInputError (option string) :=
  match get key input with
  | JUndef => Ok None
  | JStr s => Ok (Some s)
  | _ => Err (tool_input_error (toolName +:+ ": " +:+ key +:+ " must be a string"))
  end.

Definition optionalPositiveInteger (input : fields) (toolName key : string) :
    result ToolInputError (option Z) :=
  match get key input with
  | JUndef => Ok None
  | v =>
      _ ← require (safe_int v && (0 <? int_val v)%Z)
            (tool_input_error (toolName +:+ ": " +:+ key +:+ " must be a positive integer"));
      Ok (Some (int_val v))
  end.

Definition optionalBoolean (input : fields) (toolName key : string) : result ToolInputError (option bool) :=
  match get key input with
  | JUndef => Ok None
  | JBool b => Ok (Some b)
  | _ => Err (tool_input_error (toolName +:+ ": " +:+ key +:+ " must be a boolean"))
  end.
