(* ===== verification/FileTools.v ===== *)
(** kernel/src/tools/edit.ts, write.ts and read.ts: the tools that change and show the files
    of a workspace. Files are a map of paths to bytes; every call of the file system and every
    look at the abort signal is answered by the environment. *)
From stdpp Require Import base list sets strings pretty gmap.
From Stdlib Require Import ZArith Lia Ascii.
From S2P Require Import Prelude Text JsValue Json Utf8 Types Tools PathPolicy.

(** ** Text search and replacement *)

(** What follows [p] at the start of [s]. *)
Fixpoint after_prefix (p s : string) : option string :=
  match p, s with
  | "", _ => Some s
  | String c p', String d s' => if bool_decide (c = d) then after_prefix p' s' else None
  | _, "" => None
  end.

(** [s.indexOf(needle)]: the text before and after the first occurrence. *)
Fixpoint find_first (needle s : string) : option (string * string) :=
  match after_prefix needle s with
  | Some rest => Some ("", rest)
  | None => match s with
            | "" => None
            | String c s' => prod_map (String c) id <$> find_first needle s'
            end
  end.

(** The loop of [countOccurrences], each round one occurrence further. *)
Fixpoint count_loop (fuel : nat) (haystack needle : string) : nat :=
  match fuel with
  | 0 => 0
  | S fuel => match find_first needle haystack with Some (_, rest) => S (count_loop fuel rest needle) | None => 0 end
  end.
Definition countOccurrences (haystack needle : string) : nat := count_loop (String.length haystack) haystack needle.

(** [s.split(separator)] of a non-empty separator. *)
Fixpoint split_loop (fuel : nat) (s separator : string) : list string :=
  match fuel with
  | 0 => [s]
  | S fuel => match find_first separator s with Some (before, rest) => before :: split_loop fuel rest separator | None => [s] end
  end.
Definition split_text (s separator : string) : list string := split_loop (String.length s) s separator.

(** What [String.prototype.replace] makes of a replacement text: [$] starts a pattern, of which
    those with a number or a name stand for themselves when a string is searched. *)
Fixpoint substitution (matched before after template : string) : string :=
  match template with
  | "" => ""
  | String c rest =>
      if is_char c "$" then
        match rest with
        | "" => String c ""
        | String d rest' =>
            if is_char d "$" then String d (substitution matched before after rest')
            else if is_char d "&" then matched +:+ substitution matched before after rest'
            else if is_char d "`" then before +:+ substitution matched before after rest'
            else if is_char d "'" then after +:+ substitution matched before after rest'
            else String c (substitution matched before after rest)
        end
      else String c (substitution matched before after rest)
  end.

(** [content.replace(oldText, newText)] *)
Definition replace_text (content oldText newText : string) : string :=
  match find_first oldText content with
  | Some (before, after) => before +:+ substitution oldText before after newText +:+ after
  | None => content
  end.

(** ** Files *)

Record file := { f_bytes : string; f_mode : Z }.
#[export] Instance file_eq_dec : EqDecision file.
Proof. solve_decision. Defined.

Abbreviation files := (gmap string file).

Inductive tool_error :=
| InputError (e : ToolInputError)
| PolicyError (e : policy_error)
| AbortedError
| IoError.

Definition input {A} (r : result ToolInputError A) : result tool_error A :=
  match r with Ok a => Ok a | Err e => Err (InputError e) end.
Definition input_error {A} (message : string) : result tool_error A := Err (InputError (tool_input_error message)).
Definition policy {A} (r : result policy_error A) : result tool_error A :=
  match r with Ok a => Ok a | Err e => Err (PolicyError e) end.

(** How [readFile] ends. *)
Inductive read_answer := ReadDone | ReadFails (code : option string) | ReadAborts.
(** How [writeFile] ends; a failure may leave a part of the text. *)
Inductive write_answer := WriteDone | WriteFails (written : option string) | WriteAborts (written : option string).

(** What a tool run meets: whether the signal is aborted at each of its checks, and the ends of
    its calls. *)
Record encounters := {
  en_aborted : bool;
  en_read : read_answer;
  en_mkdir : bool;
  en_abortedMade : bool;
  en_stat : bool;
  en_abortedStat : bool;
  en_write : write_answer;
  en_abortedWritten : bool;
  en_rename : bool;
  en_remove : bool;
  en_uuid : string
}.

Section FileTools.
Context (realpath : string → result fs_error string) (processCwd : string) (umask : Z).

(** The path a tool works on, checked by the policy when there is one ([withFileMutationQueue]). *)
Definition mutation_path (cwd requestedPath : string) (p : option WorkspacePolicy) : result tool_error string :=
  let absolutePath := PathPolicy.resolve cwd requestedPath in
  policy (match p with
          | None => canonicalizeForPolicy realpath processCwd absolutePath
          | Some p => assertWriteAllowed realpath processCwd p absolutePath
          end).

Definition temporary_of (path uuid : string) : string := path +:+ "." +:+ uuid +:+ ".axl-tmp".

(** [finally { await rm(temporary, { force: true }); }] *)
Definition remove_temporary (en : encounters) (temporary : string) (r : result tool_error unit) (fs : files) :
    result tool_error unit * files :=
  if bool_decide (is_Some (fs !! temporary)) && negb (en_remove en) then (Err IoError, fs) else (r, delete temporary fs).

(** The file as [writeFile] creates it: the process's mask takes bits off its mode. *)
Definition created (bytes : string) (mode : Z) : file := {| f_bytes := bytes; f_mode := Z.land mode (Z.lnot umask) |}.
Definition put (temporary bytes : string) (mode : Z) (fs : files) : files :=
  <[temporary := {| f_bytes := bytes; f_mode := match fs !! temporary with Some old => f_mode old | None => f_mode (created bytes mode) end |}]> fs.

(** The body of the [try]: the text is written beside the file and renamed over it. *)
Definition replace_body (en : encounters) (exclusive : bool) (path temporary text : string) (mode : result tool_error Z) (fs : files) :
    result tool_error unit * files :=
  match mode with
  | Err e => (Err e, fs)
  | Ok mode =>
      if en_abortedStat en then (Err AbortedError, fs)
      else if exclusive && bool_decide (is_Some (fs !! temporary)) then (Err IoError, fs)
      else match en_write en with
           | WriteFails None => (Err IoError, fs)
           | WriteFails (Some part) => (Err IoError, put temporary part mode fs)
           | WriteAborts None => (Err AbortedError, fs)
           | WriteAborts (Some part) => (Err AbortedError, put temporary part mode fs)
           | WriteDone =>
               let fs := put temporary text mode fs in
               if en_abortedWritten en then (Err AbortedError, fs)
               else if negb (en_rename en) then (Err IoError, fs)
               else match fs !! temporary with
                    | Some f => (Ok tt, <[path := f]> (delete temporary fs))
                    | None => (Err IoError, fs)
                    end
           end
  end.
Definition replace_file (en : encounters) (exclusive : bool) (path text : string) (mode : result tool_error Z) (fs : files) :
    result tool_error unit * files :=
  let temporary := temporary_of path (en_uuid en) in
  let (r, fs) := replace_body en exclusive path temporary text mode fs in
  remove_temporary en temporary r fs.

Definition permissions (mode : Z) : Z := Z.land mode 511.

(** ** [edit] *)

Record edit_input := { ei_path : string; ei_oldText : string; ei_newText : string; ei_replaceAll : bool }.

Definition parse_edit (value : fields) : result tool_error edit_input :=
  _ ← input (rejectUnknownFields value "edit" ["path"; "oldText"; "newText"; "replaceAll"]);
  path ← input (requiredString value "edit" "path");
  oldText ← input (requiredString value "edit" "oldText");
  newText ← match get "newText" value with JStr s => Ok s | _ => input_error "edit: newText must be a string" end;
  _ ← refuse (bool_decide (oldText = newText)) (InputError (tool_input_error "edit: oldText and newText are identical"));
  replaceAll ← input (optionalBoolean value "edit" "replaceAll");
  Ok {| ei_path := path; ei_oldText := oldText; ei_newText := newText; ei_replaceAll := default false replaceAll |}.

(** The text an edit makes of a text, and how many occurrences it replaces. *)
Definition edited (path : string) (i : edit_input) (content : string) : result tool_error (string * nat) :=
  let occurrences := countOccurrences content (ei_oldText i) in
  if bool_decide (occurrences = 0) then
    input_error ("edit: Target changed or no longer matches. Read the file again and retry. Path: " +:+ path)
  else if bool_decide (1 < occurrences) && negb (ei_replaceAll i) then
    input_error ("edit: oldText occurs " +:+ pretty occurrences +:+ " times in " +:+ path +:+ "; make it unique or set replaceAll")
  else if ei_replaceAll i then Ok (join (ei_newText i) (split_text content (ei_oldText i)), occurrences)
  else Ok (replace_text content (ei_oldText i) (ei_newText i), 1).

Definition unknown_error (code : option string) : string := default "unknown error" code.

(** What [edit] does inside the mutation queue of its file. *)
Definition edit_file (en : encounters) (i : edit_input) (path : string) (fs : files) : result tool_error nat * files :=
  if en_aborted en then (Err AbortedError, fs)
  else match (match en_read en with
              | ReadAborts => Err AbortedError
              | ReadFails code => input_error ("edit: cannot read " +:+ path +:+ ": " +:+ unknown_error code)
              | ReadDone => match fs !! path with
                            | Some f => Ok f
                            | None => input_error ("edit: cannot read " +:+ path +:+ ": ENOENT")
                            end
              end) with
       | Err e => (Err e, fs)
       | Ok f =>
           match edited path i (utf8_text (f_bytes f)) with
           | Err e => (Err e, fs)
           | Ok (updated, replacements) =>
               match replace_file en false path updated (if en_stat en then Ok (permissions (f_mode f)) else Err IoError) fs with
               | (Ok _, fs) => (Ok replacements, fs)
               | (Err e, fs) => (Err e, fs)
               end
           end
       end.

Definition edit_result (path : string) (replacements : nat) : ToolExecutionResult :=
  {| ter_content := [CText ("Replaced " +:+ pretty replacements +:+ " occurrence" +:+
       (if bool_decide (replacements = 1) then "" else "s") +:+ " in " +:+ path)];
     ter_isError := false;
     ter_details := Some (JObj [("path", JStr path); ("replacements", JNum (NInt (Z.of_nat replacements)))]) |}.

(** [execute] of the tool, once the queue of the file is its own. *)
Definition edit (cwd : string) (p : option WorkspacePolicy) (en : encounters) (value : fields) (fs : files) :
    result tool_error ToolExecutionResult * files :=
  match parse_edit value with
  | Err e => (Err e, fs)
  | Ok i =>
      match mutation_path cwd (ei_path i) p with
      | Err e => (Err e, fs)
      | Ok path =>
          match edit_file en i path fs with
          | (Ok replacements, fs) => (Ok (edit_result path replacements), fs)
          | (Err e, fs) => (Err e, fs)
          end
      end
  end.

(** ** [write] *)

Definition parse_write (maxBytes : Z) (value : fields) : result tool_error (string * string) :=
  _ ← input (rejectUnknownFields value "write" ["path"; "content"]);
  path ← input (requiredString value "write" "path");
  content ← match get "content" value with JStr s => Ok s | _ => input_error "write: content must be a string" end;
  _ ← refuse (maxBytes <? utf8_length content)%Z
        (InputError (tool_input_error ("write: content is " +:+ pretty (utf8_length content) +:+ " bytes; maximum is " +:+ pretty maxBytes)));
  Ok (path, content).

Definition write_file (en : encounters) (path content : string) (fs : files) : result tool_error unit * files :=
  if en_aborted en then (Err AbortedError, fs)
  else if negb (en_mkdir en) then (Err IoError, fs)
  else if en_abortedMade en then (Err AbortedError, fs)
  else replace_file en true path content
         (if en_stat en then Ok (match fs !! path with Some f => permissions (f_mode f) | None => 420%Z end) else Err IoError) fs.

Definition write_result (path content : string) : ToolExecutionResult :=
  {| ter_content := [CText ("Wrote " +:+ pretty (utf8_length content) +:+ " bytes to " +:+ path)];
     ter_isError := false;
     ter_details := Some (JObj [("path", JStr path); ("bytes", JNum (NInt (utf8_length content)))]) |}.

Definition write (cwd : string) (p : option WorkspacePolicy) (maxBytes : Z) (en : encounters) (value : fields) (fs : files) :
    result tool_error ToolExecutionResult * files :=
  match parse_write maxBytes value with
  | Err e => (Err e, fs)
  | Ok (requestedPath, content) =>
      match mutation_path cwd requestedPath p with
      | Err e => (Err e, fs)
      | Ok path =>
          match write_file en path content fs with
          | (Ok _, fs) => (Ok (write_result path content), fs)
          | (Err e, fs) => (Err e, fs)
          end
      end
  end.

(** ** [read] *)

Definition newline : ascii := ascii_of_nat 10.

(** [raw.subarray(0, 8_192).includes(0)] *)
Definition is_binary (raw : string) : bool := existsb (is_char (ascii_of_nat 0)) (take 8192 (String.list_ascii_of_string raw)).

(** The lines of a text; a newline at its end starts no line. *)
Definition text_lines (text : string) : list string :=
  let allLines := split_on newline text in
  if bool_decide (last allLines = Some "") then removelast allLines else allLines.

(** The lines that fit, each with its newline. *)
Fixpoint fitting (maxBytes bytes : Z) (slice : list string) : list string :=
  match slice with
  | [] => []
  | line :: rest =>
      let lineBytes := (utf8_length line + 1)%Z in
      if (maxBytes <? bytes + lineBytes)%Z then [] else line :: fitting maxBytes (bytes + lineBytes) rest
  end.

(** The lines a call shows. *)
Definition window (maxBytes : Z) (offset limit : Z) (allLines : list string) : list string :=
  let slice := take (Z.to_nat limit) (drop (Z.to_nat (offset - 1)) allLines) in
  if (maxBytes <? utf8_length (join (String newline "") slice))%Z then fitting maxBytes 0 slice else slice.

(** [lastShown] *)
Definition last_shown (offset : Z) (shown : list string) : Z := (offset - 1 + Z.of_nat (length shown))%Z.

Definition read_note (offset lastShown total : Z) : string :=
  "[showing lines " +:+ pretty offset +:+ "-" +:+ pretty lastShown +:+ " of " +:+ pretty total +:+
  "; continue with offset " +:+ pretty (lastShown + 1)%Z +:+ "]".

Definition read_result (path : string) (offset : Z) (shown allLines : list string) : ToolExecutionResult :=
  let lastShown := last_shown offset shown in
  let total := Z.of_nat (length allLines) in
  let notes := if (lastShown <? total)%Z then [read_note offset lastShown total] else [] in
  {| ter_content := [CText (join (String newline "") (filter (λ t, t ≠ "") (join (String newline "") shown :: notes)))];
     ter_isError := false;
     ter_details := Some (JObj [("path", JStr path); ("totalLines", JNum (NInt total)); ("shownFrom", JNum (NInt offset)); ("shownTo", JNum (NInt lastShown))]) |}.

Definition parse_read (maxLines : Z) (value : fields) : result tool_error (Z * Z) :=
  offset ← input (optionalPositiveInteger value "read" "offset");
  limit ← input (optionalPositiveInteger value "read" "limit");
  Ok (default 1%Z offset, Z.min (default maxLines limit) maxLines).

Definition read (cwd : string) (p : option WorkspacePolicy) (maxLines maxBytes : Z) (answer : option (option string)) (value : fields) (fs : files) :
    result tool_error ToolExecutionResult :=
  _ ← input (rejectUnknownFields value "read" ["path"; "offset"; "limit"]);
  requestedPath ← input (requiredString value "read" "path");
  path ← match p with
         | Some p => policy (assertReadAllowed realpath processCwd p (PathPolicy.resolve cwd requestedPath))
         | None => Ok (PathPolicy.resolve cwd requestedPath)
         end;
  '(offset, limit) ← parse_read maxLines value;
  raw ← match answer, fs !! path with
        | Some code, _ => input_error ("read: cannot read " +:+ path +:+ ": " +:+ unknown_error code)
        | None, None => input_error ("read: cannot read " +:+ path +:+ ": ENOENT")
        | None, Some f => Ok (f_bytes f)
        end;
  _ ← refuse (is_binary raw) (InputError (tool_input_error ("read: " +:+ path +:+ " is a binary file")));
  let allLines := text_lines (utf8_text raw) in
  Ok (read_result path offset (window maxBytes offset limit allLines) allLines).
End FileTools.
