(* ===== verification/FileToolsFacts.v ===== *)
(** The file tools: what an edit makes of a file, that a failing tool leaves files as they
    were, and that reading page by page shows a whole file. *)
From stdpp Require Import base list sets strings pretty gmap.
From Stdlib Require Import ZArith Lia Ascii.
From S2P Require Import Prelude Text JsValue Json JsonText Utf8 Types Tools PathPolicy FileTools.

(** ** Search *)

Lemma after_prefix_spec p s r : after_prefix p s = Some r ↔ s = p +:+ r.
Proof.
  revert s. induction p as [|c p IH]; intros [|d s]; simpl; try (split; congruence).
  case_bool_decide as Hc; [subst; rewrite IH; naive_solver|]. split; [done|]. intros H. congruence.
Qed.

Lemma find_first_sound needle s b a : find_first needle s = Some (b, a) → s = b +:+ needle +:+ a.
Proof.
  revert b a. induction s as [|c s IH]; intros b a; cbn [find_first].
  - destruct (after_prefix needle "") as [r|] eqn:Hp; [|done]. intros [= <- <-]. by apply after_prefix_spec in Hp.
  - destruct (after_prefix needle (String c s)) as [r|] eqn:Hp; [intros [= <- <-]; by apply after_prefix_spec in Hp|].
    intros ([b' a'] & Hf & Hba)%fmap_Some. simplify_eq/=. f_equal. by apply IH.
Qed.

(** It is the first one. *)
Lemma find_first_first needle s b a b' a' : find_first needle s = Some (b, a) → s = b' +:+ needle +:+ a' → String.length b ≤ String.length b'.
Proof.
  revert b a b'. induction s as [|c s IH]; intros b a b'; cbn [find_first].
  - destruct (after_prefix needle "") as [r|]; [|done]. intros [= <- <-]. simpl. lia.
  - destruct (after_prefix needle (String c s)) as [r|] eqn:Hp; [intros [= <- <-]; simpl; lia|].
    intros ([b1 a1] & Hf & Hba)%fmap_Some. simplify_eq/=. intros Hs. destruct b' as [|d b']; simpl in *.
    + apply after_prefix_spec in Hs. congruence.
    + injection Hs as _ Hs. specialize (IH _ _ _ Hf Hs). lia.
Qed.

Lemma find_first_None needle s : find_first needle s = None ↔ includes needle s = false.
Proof.
  rewrite <- not_true_iff_false, includes_spec. induction s as [|c s IH]; cbn [find_first].
  - destruct (after_prefix needle "") as [r|] eqn:Hp.
    + split; [done|]. intros H. exfalso. apply H. exists "", r. by apply after_prefix_spec in Hp.
    + split; [|done]. intros _ (b & a & Hs). destruct b; [|done]. simpl in Hs. apply after_prefix_spec in Hs. congruence.
  - destruct (after_prefix needle (String c s)) as [r|] eqn:Hp.
    + split; [done|]. intros H. exfalso. apply H. exists "", r. by apply after_prefix_spec in Hp.
    + rewrite fmap_None, IH. split; intros H (b & a & Hs); apply H.
      * destruct b as [|d b]; [simpl in Hs; apply after_prefix_spec in Hs; congruence|]. simpl in Hs. injection Hs as _ Hs. by eexists _, _.
      * exists (String c b), a. simpl. by f_equal.
Qed.

Lemma find_first_exact needle s b a : s = b +:+ needle +:+ a → (∀ b' a', s = b' +:+ needle +:+ a' → b' = b) → find_first needle s = Some (b, a).
Proof.
  intros Hs Hu. destruct (find_first needle s) as [[b' a']|] eqn:Hf.
  - apply find_first_sound in Hf. pose proof (Hu _ _ Hf) as ->. rewrite Hs in Hf. simplify_eq. done.
  - apply find_first_None in Hf. exfalso. apply not_true_iff_false in Hf. apply Hf, includes_spec. by eexists _, _.
Qed.

Lemma before_free needle s b a : needle ≠ "" → find_first needle s = Some (b, a) → includes needle b = false.
Proof.
  intros Hn Hf. apply not_true_iff_false. intros (b1 & b2 & Hb)%includes_spec.
  pose proof (find_first_sound _ _ _ _ Hf) as Hs. rewrite Hb in Hs.
  assert (Hs' : s = b1 +:+ needle +:+ (b2 +:+ needle +:+ a)) by (rewrite Hs, <- !string_app_assoc; done).
  pose proof (find_first_first _ _ _ _ _ _ Hf Hs') as Hle. rewrite Hb, !string_length_app in Hle.
  destruct needle; [done|simpl in *; lia].
Qed.

Lemma rest_shorter needle s b a : needle ≠ "" → find_first needle s = Some (b, a) → String.length a < String.length s.
Proof.
  intros Hn ->%find_first_sound. rewrite !string_length_app. destruct needle; [done|simpl; lia].
Qed.

(** ** Splitting *)

Lemma split_loop_spec sep fuel s : sep ≠ "" → String.length s ≤ fuel →
  let ps := split_loop fuel s sep in
  join sep ps = s ∧ Forall (λ p, includes sep p = false) ps ∧ length ps = S (count_loop fuel s sep).
Proof.
  intros Hsep. revert s. induction fuel as [|fuel IH]; intros s Hl; cbn.
  - destruct s; [|simpl in Hl; lia]. split_and!; [done| |done]. constructor; [by destruct sep|constructor].
  - destruct (find_first sep s) as [[b a]|] eqn:Hf.
    + pose proof (rest_shorter _ _ _ _ Hsep Hf) as Ha. destruct (IH a ltac:(lia)) as (H1 & H2 & H3).
      split_and!.
      * rewrite (find_first_sound _ _ _ _ Hf). destruct (split_loop fuel a sep) as [|y ys] eqn:Hsp; [done|].
        change (b +:+ sep +:+ join sep (y :: ys) = b +:+ sep +:+ a). by rewrite H1.
      * constructor; [by eapply before_free|done].
      * cbn. by rewrite H3.
    + split_and!; [done| |done]. constructor; [by apply find_first_None|constructor].
Qed.

Lemma split_text_spec s sep : sep ≠ "" → let ps := split_text s sep in
  join sep ps = s ∧ Forall (λ p, includes sep p = false) ps ∧ length ps = S (countOccurrences s sep).
Proof. intros H. by apply split_loop_spec. Qed.

(** Replacing a text that occurs once is splitting around it. *)
Lemma split_once s sep b a : split_text s sep = [b; a] → find_first sep s = Some (b, a).
Proof.
  unfold split_text. destruct (String.length s) as [|fuel] eqn:Hl; [done|]. cbn. destruct (find_first sep s) as [[b' a']|] eqn:Hf; [|done].
  intros H. injection H as <- H. destruct fuel as [|fuel]; cbn in H; [by injection H as ->|].
  destruct (find_first sep a') as [[b2 a2]|]; [|by injection H as ->]. injection H as _ H. destruct fuel; cbn in H; [done|]. by destruct (find_first sep a2) as [[]|].
Qed.

(** ** Patterns *)

Definition literal (template : string) : bool := all_chars (λ c, negb (is_char c "$")) template.

Lemma substitution_literal matched before after t : literal t = true → substitution matched before after t = t.
Proof.
  unfold literal. induction t as [|c t IH]; [done|]. cbn. intros [Hc Ht]%andb_true_iff. apply negb_true_iff in Hc. rewrite Hc. by rewrite IH.
Qed.

(** ** Edits *)

Section Edits.
Context (realpath : string → result fs_error string) (processCwd : string) (umask : Z).
Context (cwd : string) (p : option WorkspacePolicy).

Abbreviation edit := (edit realpath processCwd umask cwd p).
Abbreviation write := (write realpath processCwd umask cwd p).
Abbreviation mutation_path path := (mutation_path realpath processCwd cwd path p).

(** A run that is not aborted and whose calls succeed. *)
Definition smooth (en : encounters) : Prop :=
  en_aborted en = false ∧ en_read en = ReadDone ∧ en_mkdir en = true ∧ en_abortedMade en = false ∧ en_stat en = true ∧
  en_abortedStat en = false ∧ en_write en = WriteDone ∧ en_abortedWritten en = false ∧ en_rename en = true ∧ en_remove en = true.

Lemma temporary_other path uuid : temporary_of path uuid ≠ path.
Proof.
  intros H. apply (f_equal String.length) in H. unfold temporary_of in H. rewrite !string_length_app in H. simpl in H. lia.
Qed.

Lemma replace_smooth en exclusive path text mode fs : smooth en → fs !! temporary_of path (en_uuid en) = None →
  replace_file umask en exclusive path text (Ok mode) fs = (Ok tt, <[path := created umask text mode]> fs).
Proof.
  intros (_ & _ & _ & _ & _ & H1 & H2 & H3 & H4 & _) Ht. unfold replace_file, replace_body, put. rewrite H1, H2, H3, H4, Ht.
  rewrite (bool_decide_false _ (is_Some_None (A:=file))), andb_false_r. cbn. rewrite lookup_insert_eq, delete_insert_id by done.
  unfold remove_temporary. rewrite lookup_insert_ne by (by apply not_eq_sym, temporary_other). rewrite Ht.
  rewrite (bool_decide_false _ (is_Some_None (A:=file))). cbn. f_equal. rewrite delete_id; [done|].
  rewrite lookup_insert_ne by (by apply not_eq_sym, temporary_other). done.
Qed.

Lemma required_nonempty value tool key s : requiredString value tool key = Ok s → s ≠ "".
Proof. unfold requiredString. destruct (get key value); try done. intros H. inv_ok. done. Qed.

Lemma input_Ok {A} (r : result ToolInputError A) a : input r = Ok a → r = Ok a.
Proof. destruct r; [by intros [= ->]|done]. Qed.

Lemma parse_edit_old value i : parse_edit value = Ok i → ei_oldText i ≠ "".
Proof. unfold parse_edit. intros H. inv_ok. simpl. eapply required_nonempty, input_Ok. eassumption. Qed.


(** ** Failures *)

Lemma replace_failed en exclusive path text mode fs fs' e : fs !! temporary_of path (en_uuid en) = None →
  replace_file umask en exclusive path text mode fs = (Err e, fs') →
  fs' = fs ∨ en_remove en = false ∧ ∃ f, fs' = <[temporary_of path (en_uuid en) := f]> fs.
Proof.
  intros Ht. unfold replace_file. set (t := temporary_of path (en_uuid en)) in *.
  assert (Hclean : ∀ r f, remove_temporary en t r (<[t := f]> fs) = (Err e, fs') → fs' = fs ∨ en_remove en = false ∧ ∃ f, fs' = <[t := f]> fs).
  { intros r f. unfold remove_temporary. rewrite lookup_insert_eq, bool_decide_true by done. destruct (en_remove en); cbn.
    - intros [= _ <-]. left. by apply delete_insert_id.
    - intros [= _ <-]. right. split; [done|]. by eexists. }
  assert (Hnone : ∀ r, remove_temporary en t r fs = (Err e, fs') → fs' = fs).
  { intros r. unfold remove_temporary. rewrite Ht, (bool_decide_false _ (is_Some_None (A:=file))). cbn. intros [= _ <-]. by apply delete_id. }
  assert (Hput : ∀ text m, put umask t text m fs = <[t := created umask text m]> fs) by (intros; unfold put; by rewrite Ht).
  unfold replace_body. destruct mode as [m|]; [|eauto]. destruct (en_abortedStat en); [eauto|]. destruct (exclusive && _); [eauto|].
  destruct (en_write en) as [|[part|]|[part|]]; rewrite ?Hput; [|eauto..]. destruct (en_abortedWritten en); [eauto|]. destruct (negb (en_rename en)); [eauto|].
  rewrite lookup_insert_eq, delete_insert_id by done. unfold remove_temporary. rewrite lookup_insert_ne by (by apply not_eq_sym, temporary_other).
  rewrite Ht, (bool_decide_false _ (is_Some_None (A:=file))). done.
Qed.

(** a tool that fails leaves the files as they were, whatever fails and whenever the
    signal is aborted, but for a temporary file that could not be removed. *)
Theorem failed_tools_keep_files maxBytes en value fs fs' e :
  (∀ path, fs !! temporary_of path (en_uuid en) = None) →
  edit en value fs = (Err e, fs') ∨ write maxBytes en value fs = (Err e, fs') →
  fs' = fs ∨ en_remove en = false ∧ ∃ path f, fs' = <[temporary_of path (en_uuid en) := f]> fs.
Proof.
  intros Ht [He|He].
  - unfold FileTools.edit in He. destruct (parse_edit value) as [i|]; [|left; congruence]. destruct (mutation_path (ei_path i)) as [path|]; [|left; congruence].
    unfold edit_file in He. destruct (en_aborted en); [left; congruence|].
    destruct (match en_read en with ReadDone => _ | ReadFails code => _ | ReadAborts => _ end) as [f|]; [|left; congruence].
    destruct (edited path i (utf8_text (f_bytes f))) as [[updated n]|]; [|left; congruence].
    destruct (replace_file umask en false path updated _ fs) as [[] fs1] eqn:Hr; [done|]. injection He as <- <-.
    apply replace_failed in Hr as [|(? & f' & ?)]; [by left| |done]. right. eauto.
  - unfold FileTools.write in He. destruct (parse_write maxBytes value) as [[requested content]|]; [|left; congruence].
    destruct (mutation_path requested) as [path|]; [|left; congruence]. unfold write_file in He.
    destruct (en_aborted en); [left; congruence|]. destruct (negb (en_mkdir en)); [left; congruence|]. destruct (en_abortedMade en); [left; congruence|].
    destruct (replace_file umask en true path content _ fs) as [[] fs1] eqn:Hr; [done|]. injection He as <- <-.
    apply replace_failed in Hr as [|(? & f' & ?)]; [by left| |done]. right. eauto.
Qed.
End Edits.

(** ** Reading page by page *)

Lemma fitting_prefix maxBytes bytes slice : ∃ k, fitting maxBytes bytes slice = take k slice.
Proof.
  revert bytes. induction slice as [|line rest IH]; intros bytes; cbn; [by exists 0|]. destruct (_ <? _)%Z; [by exists 0|].
  destruct (IH (bytes + (utf8_length line + 1))%Z) as [k ->]. by exists (S k).
Qed.

(** What the lines of a text take, each with its newline. *)
Definition lines_bytes (l : list string) : Z := foldr (λ line n, utf8_length line + 1 + n)%Z 0%Z l.

Lemma lines_bytes_cons x l : lines_bytes (x :: l) = (utf8_length x + 1 + lines_bytes l)%Z.
Proof. done. Qed.

Lemma length_bytes_app a b : utf8_length (a +:+ b) = (utf8_length a + utf8_length b)%Z.
Proof. unfold utf8_length. rewrite string_length_app. lia. Qed.

Lemma join_bytes l : l ≠ [] → utf8_length (join (String newline "") l) = (lines_bytes l - 1)%Z.
Proof.
  induction l as [|x l IH]; [done|]. intros _. destruct l as [|y l]; [cbn; lia|].
  change (join (String newline "") (x :: y :: l)) with (x +:+ String newline "" +:+ join (String newline "") (y :: l)).
  rewrite !length_bytes_app, IH by done. cbn [lines_bytes foldr]. change (utf8_length (String newline "")) with 1%Z. lia.
Qed.

Lemma fitting_bytes maxBytes bytes slice : (bytes <= maxBytes)%Z → (bytes + lines_bytes (fitting maxBytes bytes slice) <= maxBytes)%Z.
Proof.
  revert bytes. induction slice as [|line rest IH]; intros bytes Hb; cbn [fitting]; [cbn; lia|].
  destruct (Z.ltb_spec maxBytes (bytes + (utf8_length line + 1))); [cbn; lia|].
  rewrite lines_bytes_cons. specialize (IH (bytes + (utf8_length line + 1))%Z ltac:(lia)). lia.
Qed.

Lemma fitting_first maxBytes line rest : (utf8_length line + 1 <= maxBytes)%Z → fitting maxBytes 0 (line :: rest) ≠ [].
Proof. intros H. cbn. destruct (Z.ltb_spec maxBytes (0 + (utf8_length line + 1))); [lia|done]. Qed.

Section Pages.
Context (maxLines maxBytes : Z) (lines : list string).

(** A client that reads from [offset] on, and follows the note of each answer. *)
Fixpoint read_pages (fuel : nat) (offset : Z) : list (list string) :=
  match fuel with
  | 0 => []
  | S fuel =>
      let shown := window maxBytes offset maxLines lines in
      shown :: if (last_shown offset shown <? Z.of_nat (length lines))%Z then read_pages fuel (last_shown offset shown + 1) else []
  end.

Lemma window_prefix offset limit : ∃ k, window maxBytes offset limit lines = take k (drop (Z.to_nat (offset - 1)) lines).
Proof.
  unfold window. set (slice := take _ _). destruct (_ <? _)%Z; [|by exists (Z.to_nat limit)].
  destruct (fitting_prefix maxBytes 0 slice) as [k ->]. unfold slice. rewrite take_take. by eexists.
Qed.

(** A page holds no more bytes than a result may. *)
Lemma window_bytes offset limit : (0 <= maxBytes)%Z → (utf8_length (join (String newline "") (window maxBytes offset limit lines)) <= maxBytes)%Z.
Proof.
  intros Hm. unfold window. set (slice := take _ _). destruct (Z.ltb_spec maxBytes (utf8_length (join (String newline "") slice))); [|lia].
  pose proof (fitting_bytes maxBytes 0 slice Hm) as Hf. destruct (fitting maxBytes 0 slice) as [|x l]; [exact Hm|].
  rewrite join_bytes by done. lia.
Qed.

Lemma pages_bytes fuel offset : (0 <= maxBytes)%Z →
  Forall (λ shown, utf8_length (join (String newline "") shown) <= maxBytes)%Z (read_pages fuel offset).
Proof.
  intros Hm. revert offset. induction fuel as [|fuel IH]; intros offset; cbn; [constructor|]. constructor; [by apply window_bytes|].
  destruct (_ <? _)%Z; [apply IH|constructor].
Qed.

Lemma window_nonempty offset : (1 <= offset <= Z.of_nat (length lines))%Z → (1 <= maxLines)%Z →
  Forall (λ line, utf8_length line + 1 <= maxBytes)%Z lines → window maxBytes offset maxLines lines ≠ [].
Proof.
  intros Ho Hl Hfit. unfold window. destruct (drop (Z.to_nat (offset - 1)) lines) as [|x rest] eqn:Hd.
  { apply (f_equal length) in Hd. rewrite length_drop in Hd. simpl in Hd. lia. }
  destruct (Z.to_nat maxLines) as [|k] eqn:Hk; [lia|]. cbn [take]. destruct (_ <? _)%Z; [|done]. apply fitting_first.
  apply (Forall_drop _ (Z.to_nat (offset - 1))) in Hfit. rewrite Hd in Hfit. by apply Forall_cons in Hfit as [? _].
Qed.

Lemma read_pages_from fuel offset : (1 <= offset)%Z → (1 <= maxLines)%Z → Forall (λ line, utf8_length line + 1 <= maxBytes)%Z lines →
  length lines < Z.to_nat offset + fuel → concat (read_pages fuel offset) = drop (Z.to_nat (offset - 1)) lines.
Proof.
  intros Ho Hm Hfit. revert offset Ho. induction fuel as [|fuel IH]; intros offset Ho Hf; cbn [read_pages concat].
  - rewrite drop_ge by lia. done.
  - destruct (window_prefix offset maxLines) as [k Hk]. set (shown := window _ _ _ _) in *. set (n := Z.to_nat (offset - 1)) in *.
    assert (Hlen : length shown = min k (length lines - n)) by (rewrite Hk, length_take, length_drop; done).
    unfold last_shown. destruct (Z.ltb_spec (offset - 1 + Z.of_nat (length shown)) (Z.of_nat (length lines))) as [Hlt|Hge].
    + assert (Hne : shown ≠ []) by (apply window_nonempty; [lia|done|done]).
      assert (Hpos : length shown ≠ 0) by (by destruct shown).
      rewrite IH by lia. replace (Z.to_nat _) with (n + length shown) by lia. rewrite Hlen, Nat.min_l by lia. rewrite <- drop_drop. rewrite Hk. apply take_drop.
    + cbn. rewrite app_nil_r, Hk. apply take_ge. rewrite length_drop. lia.
Qed.
End Pages.

Lemma join_snoc_empty sep l : l ≠ [] → join sep (l ++ [""]) = join sep l +:+ sep.
Proof.
  induction l as [|x l IH]; [done|]. intros _. destruct l as [|y l]; [cbn; by rewrite string_app_nil_r|].
  change (x +:+ sep +:+ join sep ((y :: l) ++ [""]) = (x +:+ sep +:+ join sep (y :: l)) +:+ sep). rewrite IH by done. by rewrite !string_app_assoc.
Qed.

(** The lines of a text are the text, but for the newline it may end with. *)
Lemma text_lines_join text : ∃ rest, (rest = "" ∨ rest = String newline "") ∧
  text = join (String newline "") (text_lines text) +:+ rest.
Proof.
  unfold text_lines. pose proof (split_on_join newline text) as Hj.
  destruct (bool_decide_reflect (last (split_on newline text) = Some "")) as [Hl|Hl]; [|exists ""; split; [by left|by rewrite string_app_nil_r]].
  destruct (split_on newline text) as [|x l _] using rev_ind; [done|]. rewrite last_snoc in Hl. injection Hl as ->. rewrite removelast_last.
  destruct l as [|y l].
  - exists "". split; [by left|]. by rewrite <- Hj.
  - exists (String newline ""). split; [by right|]. rewrite <- Hj. by apply join_snoc_empty.
Qed.

(** ** Reading through the tool *)

Section Reading.
Context (realpath : string → result fs_error string) (processCwd cwd : string) (p : option WorkspacePolicy).
Context (maxLines maxBytes : Z) (requestedPath path : string) (f : file) (fs : files).

Abbreviation lines := (text_lines (utf8_text (f_bytes f))).

Definition read_request (offset : Z) : fields := [("path", JStr requestedPath); ("offset", JNum (NInt offset))].
Definition read_from (offset : Z) : result tool_error ToolExecutionResult :=
  read realpath processCwd cwd p maxLines maxBytes None (read_request offset) fs.

Definition detail (key : string) (r : ToolExecutionResult) : Z :=
  match ter_details r with Some (JObj details) => match get key details with JNum (NInt n) => n | _ => 0%Z end | _ => 0%Z end.

(** The answers of a client that reads on while lines are left. *)
Fixpoint read_on (fuel : nat) (offset : Z) : list ToolExecutionResult :=
  match fuel with
  | 0 => []
  | S fuel =>
      match read_from offset with
      | Ok r => r :: if (detail "shownTo" r <? detail "totalLines" r)%Z then read_on fuel (detail "shownTo" r + 1) else []
      | Err _ => []
      end
  end.

(** The answers that show given pages, one after the other. *)
Fixpoint answers_of (offset : Z) (pages : list (list string)) : list ToolExecutionResult :=
  match pages with
  | [] => []
  | shown :: rest => read_result path offset shown lines :: answers_of (last_shown offset shown + 1) rest
  end.

Hypothesis Hrequested : requestedPath ≠ "".
Hypothesis Hpath : match p with
  | Some p => policy (assertReadAllowed realpath processCwd p (PathPolicy.resolve cwd requestedPath))
  | None => Ok (PathPolicy.resolve cwd requestedPath)
  end = Ok path.
Hypothesis Hfile : fs !! path = Some f.
Hypothesis Htext : is_binary (f_bytes f) = false.

Lemma read_from_ok offset : safe_int (JNum (NInt offset)) = true → (1 <= offset)%Z →
  read_from offset = Ok (read_result path offset (window maxBytes offset maxLines lines) lines).
Proof.
  intros Hs Ho. unfold read_from, read.
  assert (H1 : rejectUnknownFields (read_request offset) "read" ["path"; "offset"; "limit"] = Ok tt) by reflexivity.
  assert (H2 : requiredString (read_request offset) "read" "path" = Ok requestedPath).
  { unfold requiredString. change (get "path" (read_request offset)) with (JStr requestedPath). unfold refuse. by case_bool_decide. }
  assert (H3 : parse_read maxLines (read_request offset) = Ok (offset, maxLines)).
  { unfold parse_read. assert (Ha : optionalPositiveInteger (read_request offset) "read" "offset" = Ok (Some offset)).
    { unfold optionalPositiveInteger. change (get "offset" (read_request offset)) with (JNum (NInt offset)). cbv iota beta. rewrite Hs.
      change (int_val (JNum (NInt offset))) with offset. by rewrite (proj2 (Z.ltb_lt 0 offset)) by lia. }
    rewrite Ha. change (optionalPositiveInteger (read_request offset) "read" "limit") with (Ok None : result ToolInputError (option Z)).
    cbn [input rbind default from_option]. by rewrite Z.min_id. }
  rewrite H1, H2. cbn [input rbind]. rewrite Hpath. cbn [rbind]. rewrite H3. cbn [rbind]. rewrite Hfile. cbn [rbind]. by rewrite Htext.
Qed.

Lemma read_on_pages fuel offset : (1 <= offset <= MAX_SAFE_INTEGER)%Z → (Z.of_nat (length lines) <= MAX_SAFE_INTEGER)%Z →
  read_on fuel offset = answers_of offset (read_pages maxLines maxBytes lines fuel offset).
Proof.
  revert offset. induction fuel as [|fuel IH]; intros offset Ho Hl; [done|]. cbn [read_on read_pages answers_of].
  rewrite read_from_ok by (try lia; cbn; apply Z.leb_le; lia).
  set (shown := window _ _ _ _). change (detail "shownTo" _) with (last_shown offset shown). change (detail "totalLines" _) with (Z.of_nat (length lines)).
  f_equal. destruct (Z.ltb_spec (last_shown offset shown) (Z.of_nat (length lines))); [|done]. apply IH; [|done]. unfold last_shown in *. lia.
Qed.

(** C23: reading shows the whole file: a client that starts at the first line and asks on as
    long as lines are left gets pages whose lines, in order, are all lines of the file, each page
    of at most as many bytes as a result may have - provided that no line alone is longer. *)
Theorem paged_reading_shows_the_file : (1 <= maxLines)%Z → (0 <= maxBytes)%Z → Forall (λ line, utf8_length line + 1 <= maxBytes)%Z lines →
  (Z.of_nat (length lines) <= MAX_SAFE_INTEGER)%Z →
  ∃ pages rest, read_on (S (length lines)) 1 = answers_of 1 pages ∧
    utf8_text (f_bytes f) = join (String newline "") (concat pages) +:+ rest ∧ (rest = "" ∨ rest = String newline "") ∧
    Forall (λ shown, utf8_length (join (String newline "") shown) <= maxBytes)%Z pages.
Proof.
  intros Hm Hb Hfit Hl. exists (read_pages maxLines maxBytes lines (S (length lines)) 1).
  destruct (text_lines_join (utf8_text (f_bytes f))) as (rest & Hrest & Hj). exists rest. split_and!; [by apply read_on_pages| |done|].
  - rewrite read_pages_from by (done || lia). cbn [Z.sub]. by rewrite Hj at 1.
  - apply pages_bytes; lia.
Qed.
End Reading.

(** A line that is longer than a result may be is never shown: the answer shows nothing, and
    names the offset it was asked for as the one to continue from. *)
Theorem long_line_is_never_shown realpath processCwd cwd p maxLines maxBytes requestedPath path f fs offset line rest :
  requestedPath ≠ "" →
  match p with
  | Some p => policy (assertReadAllowed realpath processCwd p (PathPolicy.resolve cwd requestedPath))
  | None => Ok (PathPolicy.resolve cwd requestedPath)
  end = Ok path →
  fs !! path = Some f → is_binary (f_bytes f) = false → safe_int (JNum (NInt offset)) = true → (1 <= offset)%Z → (1 <= maxLines)%Z →
  drop (Z.to_nat (offset - 1)) (text_lines (utf8_text (f_bytes f))) = line :: rest → (maxBytes < utf8_length line)%Z →
  read_from realpath processCwd cwd p maxLines maxBytes requestedPath fs offset =
    Ok (read_result path offset [] (text_lines (utf8_text (f_bytes f)))) ∧ last_shown offset [] = (offset - 1)%Z.
Proof.
  intros Hr Hp Hf Ht Hs Ho Hm Hd Hlong. split; [|unfold last_shown; simpl; lia]. rewrite (read_from_ok _ _ _ _ _ _ _ path f) by done.
  f_equal. unfold window. rewrite Hd. destruct (Z.to_nat maxLines) as [|k] eqn:Hk; [lia|]. cbn [take].
  f_equal. destruct (Z.ltb_spec maxBytes (utf8_length (join (String newline "") (line :: take k rest)))) as [|Hle].
  - cbn [fitting]. destruct (Z.ltb_spec maxBytes (0 + (utf8_length line + 1))); [done|lia].
  - exfalso. destruct (take k rest) as [|y l].
    + unfold join in Hle. cbn in Hle. lia.
    + change (join (String newline "") (line :: y :: l)) with (line +:+ String newline "" +:+ join (String newline "") (y :: l)) in Hle.
      rewrite !length_bytes_app in Hle. unfold utf8_length in *. lia.
Qed.

(** ** Samples *)

Definition sample_edit (oldText newText : string) : fields :=
  [("path", JStr "a"); ("oldText", JStr oldText); ("newText", JStr newText)].
Definition sample_encounters : encounters :=
  {| en_aborted := false; en_read := ReadDone; en_mkdir := true; en_abortedMade := false; en_stat := true; en_abortedStat := false;
     en_write := WriteDone; en_abortedWritten := false; en_rename := true; en_remove := true; en_uuid := "u" |}.
Definition sample_files (bytes : string) (mode : Z) : files := {[ "/w/a" := {| f_bytes := bytes; f_mode := mode |} ]}.
Definition run_edit (umask : Z) (value : fields) (fs : files) : option file :=
  (edit Ok "/" umask "/w" None sample_encounters value fs).2 !! "/w/a".

Lemma sample_smooth : smooth sample_encounters.
Proof. done. Qed.


Lemma failed_tools_keep_files_witness : sample_files "one" 420 = sample_files "one" 420 ∨ en_remove sample_encounters = false ∧
  ∃ path f, sample_files "one" 420 = <[temporary_of path "u" := f]> (sample_files "one" 420).
Proof.
  apply (failed_tools_keep_files Ok "/" 0 "/w" None 100 sample_encounters (sample_edit "two" "2") (sample_files "one" 420) (sample_files "one" 420)
    (InputError (tool_input_error "edit: Target changed or no longer matches. Read the file again and retry. Path: /w/a"))).
  - intros path. unfold sample_files. apply lookup_singleton_None. unfold temporary_of. intros H.
    apply (f_equal (λ s, String.length s)) in H. rewrite !string_length_app in H. simpl in H. lia.
  - left. by vm_compute.
Defined.

Definition sample_text : string := "one" +:+ String newline "two" +:+ String newline "".
Lemma paged_reading_shows_the_file_witness :
  ∃ pages rest, read_on Ok "/" "/w" None 1 100 "a" (sample_files sample_text 420) 3 1 = answers_of "/w/a" {| f_bytes := sample_text; f_mode := 420 |} 1 pages ∧
    sample_text = join (String newline "") (concat pages) +:+ rest ∧ (rest = "" ∨ rest = String newline "") ∧
    Forall (λ shown, utf8_length (join (String newline "") shown) <= 100)%Z pages.
Proof.
  apply (paged_reading_shows_the_file Ok "/" "/w" None 1 100 "a" "/w/a" {| f_bytes := sample_text; f_mode := 420 |} (sample_files sample_text 420));
    [done|by vm_compute|done|by vm_compute|lia|lia| |by vm_compute].
  repeat constructor; by vm_compute.
Defined.

Lemma long_line_is_never_shown_witness :
  read_from Ok "/" "/w" None 10 2 "a" (sample_files sample_text 420) 2 = Ok (read_result "/w/a" 2 [] ["one"; "two"]) ∧ last_shown 2 [] = 1%Z.
Proof.
  apply (long_line_is_never_shown Ok "/" "/w" None 10 2 "a" "/w/a" {| f_bytes := sample_text; f_mode := 420 |} (sample_files sample_text 420) 2 "two" []);
    [done|by vm_compute|done|by vm_compute|by vm_compute|lia|lia|by vm_compute|by vm_compute].
Defined.

(** A dollar sign in the new text is not always written. *)
Theorem edit_drops_dollar : f_bytes <$> run_edit 0 (sample_edit "x" "$$") (sample_files "cost x" 420) = Some "cost $".
Proof. by vm_compute. Qed.

(** The old text occurs twice, and is replaced nonetheless. *)
Theorem edit_misses_overlap : f_bytes <$> run_edit 0 (sample_edit "aa" "b") (sample_files "aaa" 420) = Some "ba".
Proof. by vm_compute. Qed.

(** Bytes that are not UTF-8 are changed wherever they are. *)
Theorem edit_changes_other_bytes :
  f_bytes <$> run_edit 0 (sample_edit "x" "y") (sample_files (chr 255 +:+ "x") 420) = Some (replacement +:+ "y").
Proof. by vm_compute. Qed.

(** A file its group may write is not writable for the group afterwards: 0664 becomes 0644. *)
Theorem edit_drops_permissions : f_mode <$> run_edit 18 (sample_edit "x" "y") (sample_files "x" 436) = Some 420%Z.
Proof. by vm_compute. Qed.
