(* ===== verification/FileQueue.v ===== *)
(** kernel/src/tools/file-mutation-queue.ts: mutations of one file wait for each other, and
    those of different files do not. A call is cut where it awaits, and any order of the
    pieces is a run. *)
From stdpp Require Import base list sets strings gmap.
From Stdlib Require Import Lia.
From S2P Require Import Prelude.

(** ** The queues *)

(** What a mutation makes of the content of its file, [None] for a file that does not exist;
    a mutation that fails leaves the file alone. *)
Abbreviation change := (option string → option string).
Definition applied (c : change) (content : option string) : option string :=
  match c content with Some written => Some written | None => content end.

(** [mutate]: it has not begun, it has read the file, it has written it, its slot is released. *)
Inductive phase := Waiting | Read (seen : option string) | Written | Released.
#[export] Instance phase_eq_dec : EqDecision phase.
Proof. solve_decision. Defined.

(** A registration; its [tail] is its place in the list. *)
Record entry := { e_path : string; e_change : change; e_previous : option nat; e_phase : phase }.
Definition with_phase (s : phase) (e : entry) : entry :=
  {| e_path := e_path e; e_change := e_change e; e_previous := e_previous e; e_phase := s |}.

Record state := {
  st_calls : list change;
  st_entries : list entry;
  st_queues : gmap string nat;
  st_files : gmap string string
}.

Definition released (e : entry) : bool := match e_phase e with Released => true | _ => false end.
Definition done_change (e : entry) : bool := match e_phase e with Written | Released => true | _ => false end.

(** Whether the promise [tail] of an entry is settled: its slot is released, and the tail
    before it is settled. A tail is older than those that wait for it. *)
Fixpoint settled (fuel : nat) (entries : list entry) (tail : option nat) : bool :=
  match tail with
  | None => true
  | Some i =>
      match fuel with
      | 0 => false
      | S fuel => match entries !! i with Some e => released e && settled fuel entries (e_previous e) | None => false end
      end
  end.

(** The first call that waits is registered; the path is what the policy made of it. *)
Definition register (path : option string) (st : state) : state :=
  match st_calls st with
  | [] => st
  | c :: calls =>
      match path with
      | None => {| st_calls := calls; st_entries := st_entries st; st_queues := st_queues st; st_files := st_files st |}
      | Some p =>
          {| st_calls := calls;
             st_entries := st_entries st ++ [{| e_path := p; e_change := c; e_previous := st_queues st !! p; e_phase := Waiting |}];
             st_queues := <[p := length (st_entries st)]> (st_queues st);
             st_files := st_files st |}
      end
  end.

Definition with_entry (i : nat) (e : entry) (queues : gmap string nat) (files : gmap string string) (st : state) : state :=
  {| st_calls := st_calls st; st_entries := <[i := e]> (st_entries st); st_queues := queues; st_files := files |}.

(** An entry goes on: it reads its file once what it waits for is settled, it writes it, it
    releases its slot and takes it off the map when no later one is behind it. *)
Definition advance (i : nat) (st : state) : state :=
  match st_entries st !! i with
  | None => st
  | Some e =>
      match e_phase e with
      | Waiting =>
          if settled (length (st_entries st)) (st_entries st) (e_previous e)
          then with_entry i (with_phase (Read (st_files st !! e_path e)) e) (st_queues st) (st_files st) st
          else st
      | Read seen =>
          with_entry i (with_phase Written e) (st_queues st)
            (match e_change e seen with Some written => <[e_path e := written]> (st_files st) | None => st_files st end) st
      | Written =>
          with_entry i (with_phase Released e)
            (if bool_decide (st_queues st !! e_path e = Some i) then delete (e_path e) (st_queues st) else st_queues st) (st_files st) st
      | Released => st
      end
  end.

Inductive action := Call (c : change) | Register (path : option string) | Advance (i : nat).

Definition step (a : action) (st : state) : state :=
  match a with
  | Call c => {| st_calls := st_calls st ++ [c]; st_entries := st_entries st; st_queues := st_queues st; st_files := st_files st |}
  | Register path => register path st
  | Advance i => advance i st
  end.
Definition run (actions : list action) (st : state) : state := fold_left (λ st a, step a st) actions st.
Definition idle (files : gmap string string) : state := {| st_calls := []; st_entries := []; st_queues := ∅; st_files := files |}.

(** ** The invariant *)

(** The entries before the [i]th that have its path have released their slots. *)
Definition clear (entries : list entry) (i : nat) (p : string) : Prop :=
  ∀ j e, j < i → entries !! j = Some e → e_path e = p → released e = true.

Definition content_of (p : string) (content : option string) (entries : list entry) : option string :=
  fold_left (λ c e, if bool_decide (e_path e = p) && done_change e then applied (e_change e) c else c) entries content.

Section Queue.
Context (files0 : gmap string string).

Record ok (st : state) : Prop := {
  ok_previous : ∀ i e j, st_entries st !! i = Some e → e_previous e = Some j →
    j < i ∧ (∃ e', st_entries st !! j = Some e' ∧ e_path e' = e_path e) ∧ ∀ k e', j < k < i → st_entries st !! k = Some e' → e_path e' ≠ e_path e;
  ok_first : ∀ i e, st_entries st !! i = Some e → e_previous e = None → clear (st_entries st) i (e_path e);
  ok_begun : ∀ i e, st_entries st !! i = Some e → e_phase e ≠ Waiting → clear (st_entries st) i (e_path e);
  ok_queue : ∀ p k, st_queues st !! p = Some k → ∃ e, st_entries st !! k = Some e ∧ e_path e = p ∧ released e = false ∧
    ∀ j e', k < j → st_entries st !! j = Some e' → e_path e' ≠ p;
  ok_empty : ∀ p, st_queues st !! p = None → clear (st_entries st) (length (st_entries st)) p;
  ok_seen : ∀ i e seen, st_entries st !! i = Some e → e_phase e = Read seen → seen = st_files st !! e_path e;
  ok_files : ∀ p, st_files st !! p = content_of p (files0 !! p) (st_entries st)
}.

Lemma ok_idle : ok (idle files0).
Proof. split; simpl; try done; intros; set_solver. Qed.

(** *** Tails *)

Lemma settled_clear st fuel i e : ok st → st_entries st !! i = Some e → settled fuel (st_entries st) (e_previous e) = true →
  clear (st_entries st) i (e_path e).
Proof.
  intros Hok. revert i e. induction fuel as [|fuel IH]; intros i e Hi; destruct (e_previous e) as [j|] eqn:Hp; simpl; try done.
  - intros _. by eapply ok_first.
  - destruct (ok_previous _ Hok i e j Hi Hp) as (Hlt & (e' & Hj & Hpath) & Hbetween). rewrite Hj. intros [Hr Hs]%andb_true_iff.
    specialize (IH j e' Hj Hs). intros k ek Hk Hek Hpk. destruct (Nat.lt_trichotomy k j) as [|[->|]].
    + eapply IH; [done|done|congruence].
    + congruence.
    + exfalso. eapply Hbetween; [|done|done]. lia.
  - intros _. by eapply ok_first.
Qed.

Lemma clear_settled st fuel i e : ok st → st_entries st !! i = Some e → i ≤ fuel → clear (st_entries st) i (e_path e) →
  settled fuel (st_entries st) (e_previous e) = true.
Proof.
  intros Hok. revert i e. induction fuel as [|fuel IH]; intros i e Hi Hf Hc; destruct (e_previous e) as [j|] eqn:Hp; simpl; try done;
    destruct (ok_previous _ Hok i e j Hi Hp) as (Hlt & (e' & Hj & Hpath) & _); [lia|].
  rewrite Hj. apply andb_true_iff. split; [by eapply Hc|]. apply (IH j e' Hj); [lia|]. rewrite Hpath. intros k ek Hk. apply Hc. lia.
Qed.

(** *** Registrations *)

Lemma clear_snoc entries e i p : i ≤ length entries → clear entries i p → clear (entries ++ [e]) i p.
Proof. intros Hi Hc j e' Hj Hl. apply (Hc j); [done|]. by rewrite lookup_app_l in Hl by lia. Qed.

Lemma snoc_lookup {A} (l : list A) x i y : (l ++ [x]) !! i = Some y → l !! i = Some y ∨ i = length l ∧ y = x.
Proof. intros [?|[? H]]%lookup_app_Some; [by left|right]. apply list_lookup_singleton_Some in H as [? ->]. split; [lia|done]. Qed.

Lemma snoc_old {A} (l : list A) x i y : l !! i = Some y → (l ++ [x]) !! i = Some y ∧ i < length l.
Proof. intros H. split; [by apply lookup_app_l_Some|by eapply lookup_lt_Some]. Qed.

Lemma ok_register path st : ok st → ok (register path st).
Proof.
  intros Hok. unfold register. destruct (st_calls st) as [|c calls]; [done|]. destruct path as [p|]; [|by destruct Hok].
  set (new := {| e_path := p; e_change := c; e_previous := st_queues st !! p; e_phase := Waiting |}).
  pose proof Hok as [H1 H2 H3 H4 H5 H6 H7]. split; simpl.
  - intros i e j [Hi|[-> ->]]%snoc_lookup Hp.
    + destruct (H1 i e j Hi Hp) as (Hlt & (e' & Hj & Hpath) & Hb). apply (snoc_old _ new) in Hi as [_ Hi]. split; [done|]. split.
      * exists e'. split; [by apply snoc_old|done].
      * intros k ek Hk [Hek|[-> ->]]%snoc_lookup; [by eapply Hb|lia].
    + destruct (H4 p j Hp) as (e' & Hj & Hpath & _ & Hb). split; [by eapply lookup_lt_Some|]. split.
      * exists e'. split; [by apply snoc_old|done].
      * intros k ek Hk [Hek|[-> ->]]%snoc_lookup; [eapply Hb; [|done]; lia|lia].
  - intros i e [Hi|[-> ->]]%snoc_lookup Hp.
    + apply clear_snoc; [apply lookup_lt_Some in Hi; lia|by apply H2].
    + apply clear_snoc; [done|by apply H5].
  - intros i e [Hi|[-> ->]]%snoc_lookup Hp; [|done]. apply clear_snoc; [apply lookup_lt_Some in Hi; lia|by apply H3].
  - intros q k. rewrite lookup_insert. case_decide as Hq.
    + intros [= <-]. exists new. subst q. rewrite list_lookup_middle by done. split_and!; try done.
      intros j e' Hj [Hl%lookup_lt_Some|[-> ->]]%snoc_lookup; lia.
    + intros Hk. destruct (H4 q k Hk) as (e & He & Hpe & Hr & Hb). exists e. split_and!; [by apply snoc_old|done|done|].
      intros j e' Hj [Hl|[-> ->]]%snoc_lookup; [by eapply Hb|done].
  - intros q. rewrite lookup_insert. case_decide as Hq; [done|]. intros Hn j e' _ [Hl|[-> ->]]%snoc_lookup; [|done].
    eapply H5; [done|by eapply lookup_lt_Some|done].
  - intros i e seen [Hi|[-> ->]]%snoc_lookup; [by apply H6 with i|done].
  - intros q. unfold content_of. rewrite fold_left_app, H7. cbn. by rewrite andb_false_r.
Qed.

(** *** Steps of an entry *)

(** [e] goes on as [e'], of the same file and behind the same tail. *)
Definition goes_on (e e' : entry) : Prop :=
  e_path e' = e_path e ∧ e_previous e' = e_previous e ∧ (released e = true → released e' = true).

Lemma inserted (entries : list entry) i (e e' : entry) j x : entries !! i = Some e → <[i:=e']> entries !! j = Some x → goes_on e e' →
  ∃ y, entries !! j = Some y ∧ goes_on y x ∧ (j ≠ i → x = y) ∧ (j = i → x = e').
Proof.
  intros Hi [(-> & -> & _)|[Hne Hj]]%list_lookup_insert_Some Hg; [by exists e|]. exists x. split_and!; try done.
Qed.

Lemma clear_insert entries i e e' j p : entries !! i = Some e → goes_on e e' → clear entries j p → clear (<[i:=e']> entries) j p.
Proof.
  intros Hi Hg Hc k x Hk Hx Hp. destruct (inserted _ _ _ _ _ _ Hi Hx Hg) as (y & Hy & (Hpath & _ & Hr) & _).
  apply Hr. eapply Hc; [done|done|congruence].
Qed.

Lemma kept_entry (entries : list entry) i (e e' : entry) j y : entries !! i = Some e → goes_on e e' → entries !! j = Some y →
  ∃ x, <[i:=e']> entries !! j = Some x ∧ e_path x = e_path y.
Proof.
  intros Hi Hg Hj. destruct (decide (i = j)) as [<-|Hne].
  - exists e'. rewrite list_lookup_insert_eq by (by eapply lookup_lt_Some). split; [done|]. destruct Hg as [-> _]. congruence.
  - exists y. by rewrite list_lookup_insert_ne.
Qed.

(** What is left to show of the state after a step of the [i]th entry. *)
Lemma ok_step st i e e' queues files : ok st → st_entries st !! i = Some e → goes_on e e' → e_phase e' ≠ Waiting →
  clear (st_entries st) i (e_path e) →
  (∀ p k, queues !! p = Some k → st_queues st !! p = Some k ∧ (k = i → released e' = false)) →
  (∀ p, queues !! p = None → clear (<[i:=e']> (st_entries st)) (length (st_entries st)) p) →
  (∀ seen, e_phase e' = Read seen → seen = files !! e_path e) →
  (∀ p, p ≠ e_path e ∨ (∀ seen, e_phase e ≠ Read seen) → files !! p = st_files st !! p) →
  (∀ p, files !! p = content_of p (files0 !! p) (<[i:=e']> (st_entries st))) →
  ok (with_entry i e' queues files st).
Proof.
  intros Hok Hi Hg Hph Hclear Hq Hempty Hseen Hfiles Hcontent. pose proof Hok as [H1 H2 H3 H4 H5 H6 H7].
  assert (Hlen : length (<[i:=e']> (st_entries st)) = length (st_entries st)) by apply length_insert. split; simpl.
  - intros j x k Hj Hp. destruct (inserted _ _ _ _ _ _ Hi Hj Hg) as (y & Hy & (Hpath & Hprev & _) & _). rewrite Hpath.
    destruct (H1 j y k Hy ltac:(congruence)) as (Hlt & (z & Hk & Hz) & Hb). split; [done|]. split.
    + destruct (kept_entry _ _ _ _ _ _ Hi Hg Hk) as (x' & ? & ?). exists x'. split; [done|congruence].
    + intros k' x' Hk' Hx'. destruct (inserted _ _ _ _ _ _ Hi Hx' Hg) as (y' & Hy' & (Hpath' & _) & _). rewrite Hpath'. by apply (Hb k').
  - intros j x Hj Hp. destruct (inserted _ _ _ _ _ _ Hi Hj Hg) as (y & Hy & (Hpath & Hprev & _) & _). rewrite Hpath.
    eapply clear_insert; [done|done|]. apply H2; [done|congruence].
  - intros j x Hj Hp. destruct (inserted _ _ _ _ _ _ Hi Hj Hg) as (y & Hy & (Hpath & _) & Hne & _). rewrite Hpath.
    eapply clear_insert; [done|done|]. destruct (decide (j = i)) as [->|Hji].
    + assert (y = e) as -> by congruence. done.
    + rewrite (Hne Hji) in Hp. by apply H3.
  - intros p k [Hk Hki]%Hq. destruct (H4 p k Hk) as (y & Hy & Hpy & Hr & Hb). destruct (decide (k = i)) as [->|Hne].
    + exists e'. rewrite list_lookup_insert_eq by (by eapply lookup_lt_Some). assert (y = e) as -> by congruence. split_and!; [done|destruct Hg; congruence|auto|].
      intros j x Hj Hx. destruct (inserted _ _ _ _ _ _ Hi Hx Hg) as (y' & Hy' & (Hpath' & _) & _). rewrite Hpath'. by apply (Hb j).
    + exists y. rewrite list_lookup_insert_ne by done. split_and!; try done.
      intros j x Hj Hx. destruct (inserted _ _ _ _ _ _ Hi Hx Hg) as (y' & Hy' & (Hpath' & _) & _). rewrite Hpath'. by apply (Hb j).
  - intros p Hp. rewrite Hlen. by apply Hempty.
  - intros j x seen Hj Hs. destruct (decide (j = i)) as [->|Hne].
    + rewrite list_lookup_insert_eq in Hj by (by eapply lookup_lt_Some). injection Hj as <-. destruct Hg as [-> _]. by apply Hseen.
    + rewrite list_lookup_insert_ne in Hj by done. rewrite (H6 j x seen Hj Hs). symmetry. apply Hfiles.
      destruct (decide (e_path x = e_path e)) as [Heq|]; [right|by left]. intros seen' Hs'.
      assert (Hx : clear (st_entries st) j (e_path x)) by (apply H3; [done|by rewrite Hs]).
      destruct (Nat.lt_trichotomy i j) as [Hlt|[|Hlt]]; [|done|].
      * pose proof (Hx i e Hlt Hi (eq_sym Heq)) as Hr. unfold released in Hr. by rewrite Hs' in Hr.
      * pose proof (Hclear j x Hlt Hj Heq) as Hr. unfold released in Hr. by rewrite Hs in Hr.
  - done.
Qed.

Lemma content_app p c l1 l2 : content_of p c (l1 ++ l2) = content_of p (content_of p c l1) l2.
Proof. apply fold_left_app. Qed.

Lemma content_cons p c e l : content_of p c (e :: l) = content_of p (if bool_decide (e_path e = p) && done_change e then applied (e_change e) c else c) l.
Proof. done. Qed.

Lemma content_idle p c l : (∀ e, e ∈ l → e_path e = p → done_change e = false) → content_of p c l = c.
Proof.
  revert c. induction l as [|e l IH]; intros c H; [done|]. rewrite content_cons, IH by (intros x Hx; apply H; by right).
  case_bool_decide as Hp; [|done]. by rewrite (H e) by (done || by left).
Qed.

(** The entries that follow the [i]th one, of its file. *)
Definition later_idle (entries : list entry) (i : nat) (p : string) : Prop :=
  ∀ j e, i < j → entries !! j = Some e → e_path e = p → done_change e = false.

Lemma content_same entries i e e' p c : entries !! i = Some e → e_path e' = e_path e → e_change e' = e_change e → done_change e' = done_change e →
  content_of p c (<[i:=e']> entries) = content_of p c entries.
Proof.
  intros Hi Hp Hc Hd. rewrite insert_take_drop by (by eapply lookup_lt_Some). rewrite <- (take_drop_middle _ _ _ Hi) at 3.
  rewrite !content_app, !content_cons. by rewrite Hp, Hc, Hd.
Qed.

Lemma content_written entries i e e' p c : entries !! i = Some e → e_path e' = e_path e → e_change e' = e_change e →
  done_change e = false → done_change e' = true → later_idle entries i (e_path e) →
  content_of p c (<[i:=e']> entries) = if bool_decide (e_path e = p) then applied (e_change e) (content_of p c entries) else content_of p c entries.
Proof.
  intros Hi Hp Hc Hd Hd' Hl. rewrite insert_take_drop by (by eapply lookup_lt_Some). 
  assert (content_of p c entries = content_of p c (take i entries ++ e :: drop (S i) entries)) as -> by (by rewrite (take_drop_middle _ _ _ Hi)).
  rewrite !content_app, !content_cons, Hp, Hc, Hd, Hd', !andb_true_r, andb_false_r. case_bool_decide as Hep; [|done]. subst p.
  assert (Hrest : ∀ x, x ∈ drop (S i) entries → e_path x = e_path e → done_change x = false).
  { intros x (k & Hk)%list_elem_of_lookup Hx. rewrite lookup_drop in Hk. by apply (Hl (S i + k) x); [lia|..]. }
  by rewrite !(content_idle _ _ (drop (S i) entries)).
Qed.

Lemma idle_later st i e : ok st → st_entries st !! i = Some e → released e = false → later_idle (st_entries st) i (e_path e).
Proof.
  intros Hok Hi Hr j x Hj Hx Hp. destruct (e_phase x) eqn:Hph; unfold done_change; rewrite ?Hph; try done;
    (exfalso; assert (Hc : clear (st_entries st) j (e_path x)) by (by eapply ok_begun; [..|rewrite Hph]);
     pose proof (Hc i e Hj Hi ltac:(congruence)); congruence).
Qed.

Lemma goes_phase e s : released e = false → goes_on e (with_phase s e).
Proof. intros Hr. split_and!; [done..|]. by rewrite Hr. Qed.

Lemma ok_advance i st : ok st → ok (advance i st).
Proof.
  intros Hok. unfold advance. destruct (st_entries st !! i) as [e|] eqn:Hi; [|done].
  assert (Hkept : ∀ e', goes_on e e' → ∀ p, st_queues st !! p = None → clear (<[i:=e']> (st_entries st)) (length (st_entries st)) p).
  { intros e' Hg p Hp. eapply clear_insert; [done|done|by apply ok_empty]. }
  destruct (e_phase e) as [|seen| |] eqn:Hph.
  - destruct (settled _ _ _) eqn:Hs; [|done]. assert (Hr : released e = false) by (unfold released; by rewrite Hph).
    apply (ok_step st i e); try done; [by apply goes_phase|by eapply settled_clear|by apply Hkept, goes_phase|by intros s [= <-]|].
    intros p. rewrite (content_same _ _ e) by (try done; unfold done_change; by rewrite Hph). by apply ok_files.
  - assert (Hr : released e = false) by (unfold released; by rewrite Hph). assert (Hseen : seen = st_files st !! e_path e) by (by eapply ok_seen).
    apply (ok_step st i e); try done; [by apply goes_phase|eapply ok_begun; [done|done|by rewrite Hph]|by apply Hkept, goes_phase| |].
    + intros p [Hp|Hp]; [|by destruct (Hp seen)]. destruct (e_change e seen); [|done]. by rewrite lookup_insert_ne.
    + intros p. rewrite (content_written _ _ e) by first [done | by unfold done_change; rewrite Hph | by apply idle_later].
      rewrite <- (ok_files _ Hok p). unfold applied. rewrite Hseen. case_bool_decide as Hp.
      * subst p. destruct (e_change e (st_files st !! e_path e)); [by rewrite lookup_insert_eq|done].
      * destruct (e_change e (st_files st !! e_path e)); [by rewrite lookup_insert_ne|done].
  - assert (Hc : clear (st_entries st) i (e_path e)) by (eapply ok_begun; [done|done|by rewrite Hph]).
    apply (ok_step st i e); try done.
    + intros p k Hk. destruct (bool_decide_reflect (st_queues st !! e_path e = Some i)) as [Hq|Hq].
      * apply lookup_delete_Some in Hk as [Hne Hk]. split; [done|]. intros ->. destruct (ok_queue _ Hok _ _ Hk) as (x & Hx & Hpx & _). congruence.
      * split; [done|]. intros ->. destruct (ok_queue _ Hok _ _ Hk) as (x & Hx & Hpx & _). assert (x = e) as -> by congruence. congruence.
    + intros p Hp. assert (Hg : goes_on e (with_phase Released e)) by (by split_and!).
      destruct (bool_decide_reflect (st_queues st !! e_path e = Some i)) as [Hq|Hq]; [|by apply Hkept].
      apply lookup_delete_None in Hp as [<-|Hp]; [|by apply Hkept].
      intros j x Hj Hx Hpx. destruct (inserted _ _ _ _ _ _ Hi Hx Hg) as (y & Hy & (Hpy & _ & Hr) & _ & He').
      destruct (Nat.lt_trichotomy j i) as [Hlt|[->|Hlt]].
      * apply Hr. eapply Hc; [done|done|congruence].
      * by rewrite (He' eq_refl).
      * exfalso. destruct (ok_queue _ Hok _ _ Hq) as (z & _ & _ & _ & Hb). eapply Hb; [exact Hlt|exact Hy|congruence].
    + intros p. rewrite (content_same _ _ e) by (try done; unfold done_change; by rewrite Hph). by apply ok_files.
  - done.
Qed.

Lemma ok_run actions st : ok st → ok (run actions st).
Proof.
  revert st. induction actions as [|a actions IH]; intros st Hok; [done|]. apply IH. destruct a as [c|path|i]; [by destruct Hok|by apply ok_register|by apply ok_advance].
Qed.

(** ** What follows *)

(** C22: mutations of one file are serial. In any run, what a file holds is what it held at
    first with the changes of its finished mutations made one after the other, in the order they
    were registered; a mutation that has read its file and not yet written it read what the file
    holds now; and of two that have begun and not released their slots, both are the same or
    their files differ. *)
Theorem mutations_are_serial actions : let st := run actions (idle files0) in
  (∀ p, st_files st !! p = content_of p (files0 !! p) (st_entries st)) ∧
  (∀ i e seen, st_entries st !! i = Some e → e_phase e = Read seen → seen = st_files st !! e_path e) ∧
  (∀ i j e e', st_entries st !! i = Some e → st_entries st !! j = Some e' → e_path e = e_path e' →
     e_phase e ≠ Waiting → e_phase e' ≠ Waiting → released e = false → released e' = false → i = j).
Proof.
  intros st. assert (Hok : ok st) by apply ok_run, ok_idle. split; [apply Hok|]. split; [apply Hok|].
  intros i j e e' Hi Hj Hp Hb Hb' Hr Hr'. destruct (Nat.lt_trichotomy i j) as [Hlt|[|Hlt]]; [|done|]; exfalso.
  - pose proof (ok_begun _ Hok j e' Hj Hb' i e Hlt Hi Hp). congruence.
  - pose proof (ok_begun _ Hok i e Hi Hb j e' Hlt Hj (eq_sym Hp)). congruence.
Qed.

(** A waiting mutation goes on just when those of its file before it have released their slots. *)
Lemma waits_for_its_file st i e : ok st → st_entries st !! i = Some e → e_phase e = Waiting →
  (clear (st_entries st) i (e_path e) ∧ advance i st = with_entry i (with_phase (Read (st_files st !! e_path e)) e) (st_queues st) (st_files st) st) ∨
  (¬ clear (st_entries st) i (e_path e) ∧ advance i st = st).
Proof.
  intros Hok Hi Hph. unfold advance. rewrite Hi, Hph. destruct (settled _ _ _) eqn:Hs.
  - left. split; [by eapply settled_clear|done].
  - right. split; [|done]. intros Hc. apply lookup_lt_Some in Hi as Hlt.
    by rewrite (clear_settled st _ i e Hok Hi (Nat.lt_le_incl _ _ Hlt) Hc) in Hs.
Qed.

(** What is left to do. *)
Definition remaining (e : entry) : nat := match e_phase e with Waiting => 3 | Read _ => 2 | Written => 1 | Released => 0 end.
Definition measure (st : state) : nat := sum_list_with remaining (st_entries st).

Lemma measure_step st i e e' queues files : st_entries st !! i = Some e → remaining e' < remaining e → measure (with_entry i e' queues files st) < measure st.
Proof.
  intros Hi Hlt. unfold measure. cbn [st_entries with_entry]. rewrite insert_take_drop by (by eapply lookup_lt_Some).
  assert (st_entries st = take i (st_entries st) ++ e :: drop (S i) (st_entries st)) as Hs by (by rewrite (take_drop_middle _ _ _ Hi)).
  rewrite Hs at 3. rewrite !sum_list_with_app. cbn. lia.
Qed.

(** The first entry that has not released its slot can go on. *)
Lemma some_goes_on st : ok st → measure st ≠ 0 → ∃ i, measure (advance i st) < measure st.
Proof.
  intros Hok Hm. destruct (list_find (λ e, released e = false) (st_entries st)) as [[i e]|] eqn:Hf.
  - apply list_find_Some in Hf as (Hi & Hr & Hbefore). exists i.
    assert (Hc : clear (st_entries st) i (e_path e)) by (intros j x Hj Hx _; destruct (released x) eqn:Hrx; [done|by destruct (Hbefore j x Hx Hj)]).
    destruct (e_phase e) as [|seen| |] eqn:Hph; [|unfold advance; rewrite Hi, Hph; eapply measure_step; [done|unfold remaining; cbn; rewrite Hph; lia]..|].
    + destruct (waits_for_its_file st i e Hok Hi Hph) as [[_ ->]|[]]; [|done]. eapply measure_step; [done|]. unfold remaining. cbn. rewrite Hph. lia.
    + unfold released in Hr. by rewrite Hph in Hr.
  - apply list_find_None in Hf. exfalso. apply Hm. unfold measure. induction Hf as [|e l He Hl IH]; [done|]. cbn. rewrite IH.
    destruct (released e) eqn:Hr; [|done]. unfold released, remaining in *. by destruct (e_phase e).
Qed.

Lemma all_released st : ok st → measure st = 0 → Forall (λ e, released e = true) (st_entries st) ∧ st_queues st = ∅.
Proof.
  intros Hok Hm. assert (Hall : Forall (λ e, released e = true) (st_entries st)).
  { unfold measure in Hm. induction (st_entries st) as [|e l IH]; [constructor|]. cbn in Hm. constructor; [|apply IH; lia].
    unfold released, remaining in *. destruct (e_phase e); lia || done. }
  split; [done|]. apply map_eq. intros p. rewrite lookup_empty. destruct (st_queues st !! p) as [k|] eqn:Hk; [|done].
  destruct (ok_queue _ Hok _ _ Hk) as (e & He & _ & Hr & _). apply (Forall_lookup_1 _ _ _ _ Hall) in He. congruence.
Qed.

Lemma turns_exist st : ok st → ∃ turns, let st' := run (Advance <$> turns) st in
  Forall (λ e, released e = true) (st_entries st') ∧ st_queues st' = ∅.
Proof.
  intros Hok. remember (measure st) as n eqn:Hn. revert st Hok Hn. induction (lt_wf n) as [n _ IH]. intros st Hok ->.
  destruct (decide (measure st = 0)) as [Hz|Hz]; [exists []; by apply all_released|].
  destruct (some_goes_on st Hok Hz) as [i Hlt]. destruct (IH _ Hlt (advance i st) (ok_advance i st Hok) eq_refl) as [turns Ht].
  by exists (i :: turns).
Qed.

(** every mutation gets its turn: whatever happened, the registered mutations can all run
    to their end - none waits for ever - and the map of queues is empty afterwards. *)
Theorem every_mutation_gets_its_turn actions : ∃ turns, let st := run (actions ++ (Advance <$> turns)) (idle files0) in
  Forall (λ e, released e = true) (st_entries st) ∧ st_queues st = ∅.
Proof.
  destruct (turns_exist (run actions (idle files0)) (ok_run _ _ ok_idle)) as [turns Ht]. exists turns. cbv zeta.
  assert (run (actions ++ (Advance <$> turns)) (idle files0) = run (Advance <$> turns) (run actions (idle files0))) as -> by apply fold_left_app. exact Ht.
Qed.
End Queue.

(** Two mutations of one file that overlap: the second reads what the first wrote. *)
Definition append_text (t : string) : change := λ content, (λ s, s +:+ t) <$> content.
Example overlapping_mutations :
  st_files (run [Call (append_text "1"); Call (append_text "2"); Register (Some "a"); Register (Some "a");
                 Advance 0; Advance 1; Advance 0; Advance 1; Advance 0; Advance 1; Advance 1; Advance 1] (idle {[ "a" := "x" ]})) = {[ "a" := "x12" ]}.
Proof. by vm_compute. Qed.
