(* ===== verification/ModelStream.v ===== *)
(** protocol/src/model-stream.ts: the events of a model stream, their runtime
    checks, and the thinking levels a model supports. *)
From stdpp Require Import base list sets strings pretty.
From Stdlib Require Import ZArith Lia.
From S2P Require Import Prelude Text JsValue Json Envelope Types.

(** ** Thinking levels *)

(** One entry of [thinkingLevelMap]: absent, [null], or a provider's name. *)
Inductive level_mapping := Unmapped | MappedNull | Mapped (name : string).

Record ModelThinkingSupport := {
  mts_reasoning : bool;
  mts_levelMap : ThinkingLevel → level_mapping
}.

Definition THINKING_LEVELS : list ThinkingLevel := [TOff; TMinimal; TLow; TMedium; THigh; TXhigh; TMax].

Definition level_supported (model : ModelThinkingSupport) (level : ThinkingLevel) : bool :=
  match mts_levelMap model level with
  | MappedNull => false
  | mapped =>
      match level with
      | TXhigh | TMax => match mapped with Unmapped => false | _ => true end
      | _ => true
      end
  end.

Definition supportedThinkingLevels (model : ModelThinkingSupport) : list ThinkingLevel :=
  if mts_reasoning model then filter (λ l, Is_true (level_supported model l)) THINKING_LEVELS else [TOff].

(** ** The events of a stream *)

Inductive ModelRequestPhase := BeforeDispatch | AwaitingResponse | Streaming | PhaseUnknown.
#[export] Instance ModelRequestPhase_eq_dec : EqDecision ModelRequestPhase.
Proof. solve_decision. Defined.

Record ProviderResponseMetadata := {
  prm_providerId : string;
  prm_requestedModelId : string;
  prm_routedModelId : option string;
  prm_responseId : option string;
  prm_nativeStopReason : option string;
  prm_latencyMs : option number
}.

Record SafeProviderDiagnostic := { spd_code : string; spd_message : string; spd_severity : string }.

Record ModelStreamError := {
  mse_code : string;
  mse_message : string;
  mse_retryable : bool;
  mse_partial : option bool;
  mse_category : option string;
  mse_requestPhase : option ModelRequestPhase;
  mse_retryAfterMs : option number;
  mse_response : option ProviderResponseMetadata;
  mse_diagnostics : list SafeProviderDiagnostic
}.

(** An error with the four fields the kernel fills in itself. *)
Definition plain_error (code message : string) (retryable : bool) (category : option string)
    (phase : option ModelRequestPhase) : ModelStreamError :=
  {| mse_code := code; mse_message := message; mse_retryable := retryable; mse_partial := None;
     mse_category := category; mse_requestPhase := phase; mse_retryAfterMs := None;
     mse_response := None; mse_diagnostics := [] |}.

Record ProviderReplayMetadata := {
  rpm_target : string;
  rpm_contentIndex : Z;
  rpm_providerId : string;
  rpm_apiDialect : string;
  rpm_modelId : string;
  rpm_callId : option string;
  rpm_signature : option string;
  rpm_redacted : option bool;
  rpm_responseId : option string;
  rpm_itemId : option string;
  rpm_namespace : option string
}.

Inductive ModelStreamEvent :=
| TextDelta (text : string) (contentIndex : option Z)
| ThinkingDelta (text : string) (contentIndex : option Z)
| ToolCallStart (contentIndex : Z) (callId name : string)
| ToolCallDelta (contentIndex : Z) (callId argumentsDelta : string)
| ToolCallEvent (call : ToolCallRequest) (contentIndex : option Z)
| ReplayMetadata (metadata : ProviderReplayMetadata)
| Completed (stopReason : AssistantStopReason) (usage : Usage) (partial : option bool)
    (response : option ProviderResponseMetadata) (diagnostics : list SafeProviderDiagnostic)
| StreamError (error : ModelStreamError)
| Aborted (partial : option bool).

Definition isTerminalModelStreamEvent (e : ModelStreamEvent) : bool :=
  match e with Completed _ _ _ _ _ | StreamError _ | Aborted _ => true | _ => false end.

(** ** Runtime checks *)

Record ModelStreamValidationError := { msve_path : string; msve_message : string }.
Abbreviation stream_checked := (result ModelStreamValidationError).

Module StreamChecks.
Definition failure (path message : string) : ModelStreamValidationError :=
  {| msve_path := path; msve_message := message |}.
Abbreviation fail path message := (Err (failure path message)).

Definition object (value : jsval) (path : string) : stream_checked fields :=
  match value with
  | JObj fs | JInst fs => Ok fs
  | _ => fail path "must be an object"
  end.

Definition exact (value : fields) (path : string) (required optional : list string) :
    stream_checked unit :=
  _ ← each (λ key, require (bool_decide (key ∈ required ++ optional))
                     (failure (member path key) "is not allowed")) (keys value);
  each (λ key, require (has_own key value) (failure (member path key) "is required")) required.

Definition string_ (value : jsval) (path : string) (allowEmpty : bool) : stream_checked string :=
  let e := failure path (if allowEmpty then "must be a string" else "must be a non-empty string") in
  match value with
  | JStr s => _ ← require (allowEmpty || negb (bool_decide (s = ""))) e; Ok s
  | _ => Err e
  end.

Definition boolean (value : jsval) (path : string) : stream_checked bool :=
  match value with
  | JBool b => Ok b
  | _ => fail path "must be a boolean"
  end.

Definition nonNegativeNumber (value : jsval) (path : string) (integer : bool) : stream_checked number :=
  let e := failure path (if integer then "must be a non-negative safe integer"
                         else "must be a non-negative number") in
  match value with
  | JNum n =>
      _ ← require (is_finite n && negb (is_negative n) && (negb integer || is_safe_integer n)) e;
      Ok n
  | _ => Err e
  end.

Definition if_present {A} (value : jsval) (check : jsval → stream_checked A) : stream_checked unit :=
  if is_undef value then Ok tt else _ ← check value; Ok tt.

Definition optionalPosition (value : fields) (path : string) : stream_checked unit :=
  if_present (get "contentIndex" value)
    (λ v, nonNegativeNumber v (member path "contentIndex") true).

(** Cycles cannot occur in the values of the model, which are trees. *)
Fixpoint validateJson (value : jsval) (path : string) : stream_checked unit :=
  match value with
  | JNull | JStr _ | JBool _ => Ok tt
  | JNum n => require (is_finite n) (failure path "must be JSON-compatible")
  | JUndef | JOther => fail path "must be JSON-compatible"
  | JArr items =>
      (fix go (i : nat) (l : list jsval) : stream_checked unit :=
         match l with
         | [] => Ok tt
         | v :: l' => _ ← validateJson v (element path i); go (S i) l'
         end) 0 items
  | JInst _ => fail path "must be a plain object"
  | JObj fs =>
      (fix go (l : list (string * jsval)) : stream_checked unit :=
         match l with
         | [] => Ok tt
         | (k, v) :: l' => _ ← validateJson v (member path k); go l'
         end) fs
  end.

(** [String(v)] of a JSON value: an array is its elements joined by commas. *)
Fixpoint js_string (v : jsval) : string :=
  match v with
  | JUndef => "undefined"
  | JNull => "null"
  | JBool b => if b then "true" else "false"
  | JNum n => number_to_string n
  | JStr s => s
  | JArr l => join "," ((λ x, match x with JUndef | JNull => "" | _ => js_string x end) <$> l)
  | JObj _ | JInst _ | JOther => "[object Object]"
  end.

(** [new Set(names).has(String(v))] *)
Definition named (names : list string) (v : jsval) : bool := bool_decide (js_string v ∈ names).

Definition usage_counts : list string :=
  ["inputTokens"; "outputTokens"; "cacheReadTokens"; "cacheWriteTokens"].

Definition validateUsage (value : jsval) (path : string) : stream_checked unit :=
  usage ← object value path;
  _ ← exact usage path usage_counts ["reasoningTokens"; "costUsd"];
  _ ← each (λ key, _ ← nonNegativeNumber (get key usage) (member path key) true; Ok tt) usage_counts;
  _ ← if_present (get "reasoningTokens" usage)
        (λ v, nonNegativeNumber v (member path "reasoningTokens") true);
  if_present (get "costUsd" usage) (λ v, nonNegativeNumber v (member path "costUsd") false).

Definition validateResponse (value : jsval) (path : string) : stream_checked unit :=
  response ← object value path;
  _ ← exact response path ["providerId"; "requestedModelId"]
        ["routedModelId"; "responseId"; "nativeStopReason"; "latencyMs"];
  _ ← string_ (get "providerId" response) (member path "providerId") false;
  _ ← string_ (get "requestedModelId" response) (member path "requestedModelId") false;
  _ ← each (λ key, if_present (get key response) (λ v, string_ v (member path key) false))
        ["routedModelId"; "responseId"; "nativeStopReason"];
  if_present (get "latencyMs" response) (λ v, nonNegativeNumber v (member path "latencyMs") false).

Definition validate_diagnostic (path : string) (index : nat) (item : jsval) : stream_checked unit :=
  let itemPath := element path index in
  diagnostic ← object item itemPath;
  _ ← exact diagnostic itemPath ["code"; "message"; "severity"] [];
  _ ← string_ (get "code" diagnostic) (member itemPath "code") false;
  _ ← string_ (get "message" diagnostic) (member itemPath "message") false;
  require (named ["info"; "warning"; "error"] (get "severity" diagnostic))
    (failure (member itemPath "severity") "must be info, warning, or error").

Definition validateDiagnostics (value : jsval) (path : string) : stream_checked unit :=
  match value with
  | JArr items => each_indexed (validate_diagnostic path) items
  | _ => fail path "must be an array"
  end.

Definition validateTerminalMetadata (event : fields) (path : string) : stream_checked unit :=
  _ ← if_present (get "partial" event) (λ v, boolean v (member path "partial"));
  _ ← if_present (get "response" event) (λ v, validateResponse v (member path "response"));
  if_present (get "diagnostics" event) (λ v, validateDiagnostics v (member path "diagnostics")).
End StreamChecks.

Section Parse.
Import StreamChecks.
Implicit Types (event : fields) (path : string).

Definition parse_delta event path : stream_checked unit :=
  _ ← exact event path ["type"; "text"] ["contentIndex"];
  _ ← string_ (get "text" event) (member path "text") true;
  optionalPosition event path.

Definition parse_tool_call_start event path : stream_checked unit :=
  _ ← exact event path ["type"; "contentIndex"; "callId"; "name"] [];
  _ ← nonNegativeNumber (get "contentIndex" event) (member path "contentIndex") true;
  _ ← string_ (get "callId" event) (member path "callId") false;
  _ ← string_ (get "name" event) (member path "name") false;
  Ok tt.

Definition parse_tool_call_delta event path : stream_checked unit :=
  _ ← exact event path ["type"; "contentIndex"; "callId"; "argumentsDelta"] [];
  _ ← nonNegativeNumber (get "contentIndex" event) (member path "contentIndex") true;
  _ ← string_ (get "callId" event) (member path "callId") false;
  _ ← string_ (get "argumentsDelta" event) (member path "argumentsDelta") true;
  Ok tt.

Definition parse_stream_tool_call event path : stream_checked unit :=
  _ ← exact event path ["type"; "callId"; "name"; "input"] ["contentIndex"];
  _ ← string_ (get "callId" event) (member path "callId") false;
  _ ← string_ (get "name" event) (member path "name") false;
  _ ← object (get "input" event) (member path "input");
  _ ← validateJson (get "input" event) (member path "input");
  optionalPosition event path.

Definition parse_replay_metadata event path : stream_checked unit :=
  let field k := get k event in
  _ ← exact event path ["type"; "target"; "contentIndex"; "providerId"; "apiDialect"; "modelId"]
        ["callId"; "signature"; "redacted"; "responseId"; "itemId"; "namespace"];
  _ ← require (named ["thinking"; "text"; "tool_call"] (field "target"))
        (failure (member path "target") "must be thinking, text, or tool_call");
  _ ← nonNegativeNumber (field "contentIndex") (member path "contentIndex") true;
  _ ← string_ (field "providerId") (member path "providerId") false;
  _ ← string_ (field "apiDialect") (member path "apiDialect") false;
  _ ← string_ (field "modelId") (member path "modelId") false;
  _ ← each (λ key, if_present (field key) (λ v, string_ v (member path key) false))
        ["callId"; "signature"; "responseId"; "itemId"; "namespace"];
  _ ← refuse (defined (field "redacted") && match field "redacted" with JBool _ => false | _ => true end)
        (failure (member path "redacted") "must be a boolean");
  _ ← refuse (negb (is_str "thinking" (field "target")) && defined (field "redacted"))
        (failure (member path "redacted") "is allowed only for thinking replay metadata");
  _ ← refuse (bool_decide (field "redacted" = JBool true) && is_undef (field "signature"))
        (failure (member path "redacted") "requires signed thinking replay metadata");
  _ ← refuse (is_str "tool_call" (field "target") && is_undef (field "callId"))
        (failure (member path "callId") "is required for tool_call replay metadata");
  _ ← refuse (negb (is_str "tool_call" (field "target")) && defined (field "callId"))
        (failure (member path "callId") "is allowed only for tool_call replay metadata");
  refuse (is_undef (field "signature") && is_undef (field "responseId") && is_undef (field "itemId")
          && is_undef (field "namespace"))
    (failure path "must contain replay data").

Definition parse_completed event path : stream_checked unit :=
  _ ← exact event path ["type"; "stopReason"; "usage"] ["partial"; "response"; "diagnostics"];
  _ ← require (named ["stop"; "length"; "tool_use"; "error"; "aborted"] (get "stopReason" event))
        (failure (member path "stopReason") "is not recognized");
  _ ← validateUsage (get "usage" event) (member path "usage");
  validateTerminalMetadata event path.

Definition error_categories : list string :=
  ["rate_limit"; "overloaded"; "network"; "timeout"; "authentication"; "authorization";
   "invalid_request"; "context_limit"; "content_policy"; "provider_internal";
   "stream_interrupted"; "unknown"].

Definition parse_retry_guidance (value : jsval) path : stream_checked unit :=
  retry ← object value (member path "retry");
  _ ← exact retry (member path "retry") [] ["retryAfterMs"; "resetAtEpochMs"];
  _ ← if_present (get "retryAfterMs" retry)
        (λ v, nonNegativeNumber v (member (member path "retry") "retryAfterMs") true);
  _ ← if_present (get "resetAtEpochMs" retry)
        (λ v, nonNegativeNumber v (member (member path "retry") "resetAtEpochMs") true);
  refuse (is_undef (get "retryAfterMs" retry) && is_undef (get "resetAtEpochMs" retry))
    (failure (member path "retry") "must contain retryAfterMs or resetAtEpochMs").

Definition parse_stream_error event path : stream_checked unit :=
  _ ← exact event path ["type"; "code"; "message"; "retryable"]
        ["partial"; "category"; "requestPhase"; "retryAfterMs"; "retry"; "response"; "diagnostics"];
  _ ← string_ (get "code" event) (member path "code") false;
  _ ← string_ (get "message" event) (member path "message") false;
  _ ← boolean (get "retryable" event) (member path "retryable");
  _ ← refuse (defined (get "category" event) && negb (named error_categories (get "category" event)))
        (failure (member path "category") "is not recognized");
  _ ← refuse (defined (get "requestPhase" event) &&
              negb (named ["before_dispatch"; "awaiting_response"; "streaming"; "unknown"]
                      (get "requestPhase" event)))
        (failure (member path "requestPhase") "is not recognized");
  _ ← if_present (get "retryAfterMs" event)
        (λ v, nonNegativeNumber v (member path "retryAfterMs") true);
  _ ← validateTerminalMetadata event path;
  if_present (get "retry" event) (λ v, parse_retry_guidance v path).

Definition parse_aborted event path : stream_checked unit :=
  _ ← exact event path ["type"] ["partial"];
  if_present (get "partial" event) (λ v, boolean v (member path "partial")).

(** The dispatch on [type], in the order of the source. *)
Definition stream_parsers : list (string * (fields → string → stream_checked unit)) :=
  [("text_delta", parse_delta); ("thinking_delta", parse_delta);
   ("tool_call_start", parse_tool_call_start); ("tool_call_delta", parse_tool_call_delta);
   ("tool_call", parse_stream_tool_call); ("replay_metadata", parse_replay_metadata);
   ("completed", parse_completed); ("error", parse_stream_error); ("aborted", parse_aborted)].

Fixpoint stream_parser (type : string) (table : list (string * (fields → string → stream_checked unit))) :
    option (fields → string → stream_checked unit) :=
  match table with
  | [] => None
  | (t, p) :: rest => if bool_decide (t = type) then Some p else stream_parser type rest
  end.

(** Returns its argument. *)
Definition parseModelStreamEvent (value : jsval) (path : string) : stream_checked jsval :=
  event ← object value path;
  type ← string_ (get "type" event) (member path "type") false;
  match stream_parser type stream_parsers with
  | None => fail (member path "type") "is not recognized"
  | Some parse => _ ← parse event path; Ok value
  end.
End Parse.

(** ** Properties *)

(** An event whose stop reason is an array holding the name. *)
Definition array_reason_event : jsval :=
  JObj [("type", JStr "completed"); ("stopReason", JArr [JStr "stop"]);
        ("usage", JObj [("inputTokens", JInt 0); ("outputTokens", JInt 0);
                        ("cacheReadTokens", JInt 0); ("cacheWriteTokens", JInt 0)])].

(** the enumerated fields are compared after [String(v)], so a [completed]
    event whose stop reason is not a string at all, the array ["stop"], passes
    the check that guards the kernel's boundary. *)
Theorem parseModelStreamEvent_accepts_array_reason :
  parseModelStreamEvent array_reason_event "modelStreamEvent" = Ok array_reason_event ∧
  ¬ ∃ s, get "stopReason" (match array_reason_event with JObj fs => fs | _ => [] end) = JStr s.
Proof. split; [vm_compute; reflexivity | intros [s H]; discriminate H]. Qed.
