(* ===== verification/Compaction.v ===== *)
(** kernel/src/compaction.ts: the projection of a lineage onto model messages,
    the choice of what to compact, and the summary request. *)
From stdpp Require Import base list sets strings pretty.
From Stdlib Require Import ZArith Lia.
From S2P Require Import Prelude Text JsValue Json Envelope Types ModelRequest JsMap SessionTree Replay ModelStream.

Definition DEFAULT_COMPACTION_KEEP_RECENT_TOKENS : Z := 20000.
Definition DEFAULT_COMPACTION_MAX_OUTPUT_TOKENS : Z := 4096.
Definition TOOL_RESULT_MAX_CHARACTERS : Z := 2000.

Definition newline : string := chr 10.

Definition COMPACTION_SUMMARY_PREFIX : string :=
  "Earlier conversation history was compacted into this continuation summary:" +:+ newline +:+ newline
  +:+ "<summary>" +:+ newline.
Definition COMPACTION_SUMMARY_SUFFIX : string := newline +:+ "</summary>".
Definition SUMMARIZATION_SYSTEM_PROMPT : string :=
  "Summarize the supplied conversation for another assistant. Do not continue the conversation or answer its questions. Return only the requested continuation summary.".

Record ContextGroup := { g_message : ModelMessage; g_eventIds : list string }.

Record Compaction := { cp_id : string; cp_summary : string; cp_replaced : list string }.

Record ProjectedContext := {
  pc_previous : option Compaction;
  pc_groups : list ContextGroup
}.

Record CompactionPlan := {
  plan_messagesToSummarize : list ModelMessage;
  plan_previousSummary : option string;
  plan_replacedEventIds : list string;
  plan_splitTurn : bool
}.

(** ** The replacement closure *)

Definition compaction_of (e : event) : option Compaction :=
  match ev_payload e with
  | ContextCompacted summary ids _ => Some {| cp_id := ev_id e; cp_summary := summary; cp_replaced := ids |}
  | _ => None
  end.

(** What an event adds to the work list: nothing unless it is a compaction. *)
Definition replaced_by (e : event) : list string :=
  match compaction_of e with Some c => cp_replaced c | None => [] end.

(** [new Map(events.map((event, index) => [event.id, ...])).get(id)]: the last. *)
Fixpoint by_id (i : nat) (events : list event) (id : string) : option (event * nat) :=
  match events with
  | [] => None
  | e :: rest =>
      match by_id (S i) rest id with
      | Some r => Some r
      | None => if bool_decide (ev_id e = id) then Some (e, i) else None
      end
  end.

(** [compactionIndex]; an index is below it exactly when it is below the bound. *)
Definition index_bound (events : list event) (id : string) : Z :=
  match by_id 0 events id with Some (_, i) => Z.of_nat i | None => -1 end.

(** The work list, its top first; [None]: out of fuel, which
    [replacementClosure] never is ([closure_loop_total]). *)
Fixpoint closure_loop (fuel : nat) (events : list event) (cid : string) (bound : Z)
    (hidden pending : list string) : option (result ReplayError (list string)) :=
  match pending with
  | [] => Some (Ok hidden)
  | id :: rest =>
      match fuel with
      | 0 => None
      | S fuel' =>
          if bool_decide (id ∈ hidden) then closure_loop fuel' events cid bound hidden rest
          else
            let refuse :=
              Some (Err (replay_error ("Compaction " +:+ cid +:+ " replaces non-ancestor event " +:+ id))) in
            match by_id 0 events id with
            | None => refuse
            | Some (found, index) =>
                if (bound <=? Z.of_nat index)%Z then refuse
                else closure_loop fuel' events cid bound (hidden ++ [id]) (rev (replaced_by found) ++ rest)
            end
      end
  end.

Definition closure_fuel (events : list event) (pending : list string) : nat :=
  length pending + sum_list_with (λ e, length (replaced_by e)) events.

Definition replacementClosure (events : list event) (c : Compaction) : result ReplayError (list string) :=
  let pending := rev (cp_replaced c) in
  match closure_loop (closure_fuel events pending) events (cp_id c)
          (index_bound events (cp_id c)) [] pending with
  | Some r => r
  | None => Err (replay_error "fuel")
  end.

(** ** The projection *)

(** [groups], and where the tool-calling assistant's group is in it: the source
    holds a reference to the group and pushes calls into it. *)
Record projection := { pj_groups : list ContextGroup; pj_assistant : option nat }.

Definition push_group (g : ContextGroup) (p : projection) (assistant : option nat) : projection :=
  {| pj_groups := pj_groups p ++ [g]; pj_assistant := assistant |}.

Definition push_call (id : string) (call : ToolCallRequest) (g : ContextGroup) : ContextGroup :=
  {| g_message := match g_message g with
                  | MAssistant items calls => MAssistant items (calls ++ [call])
                  | m => m
                  end;
     g_eventIds := g_eventIds g ++ [id] |}.

Definition text_items (items : list content) : list string :=
  omap (λ c, match c with CText t => Some t | _ => None end) items.
Definition thinking_items (items : list content) : list string :=
  omap (λ c, match c with CThinking t => Some t | _ => None end) items.

Definition model_tool_name (name : string) : string := if bool_decide (name = "shell") then "bash" else name.

(** The body of the loop over the events. *)
Definition project_step (p : projection) (e : event) : result ReplayError projection :=
  let group m := {| g_message := m; g_eventIds := [ev_id e] |} in
  match ev_payload e with
  | UserMessage items => Ok (push_group (group (MUser items)) p None)
  | UserShell command items _ excluded =>
      if excluded then Ok {| pj_groups := pj_groups p; pj_assistant := None |}
      else
        Ok (push_group (group (MUser [CText ("[shell]" +:+ newline +:+ "$ " +:+ command +:+ newline +:+
                                             join "" (text_items items))])) p None)
  | AssistantMessage items _ _ _ =>
      Ok (push_group (group (MAssistant items [])) p (Some (length (pj_groups p))))
  | ToolCall callId name input =>
      match pj_assistant p with
      | None => Err (replay_error ("Tool call " +:+ ev_id e +:+ " has no preceding assistant turn"))
      | Some i =>
          let call := {| tcr_callId := callId; tcr_name := model_tool_name name; tcr_input := input |} in
          Ok {| pj_groups := alter (push_call (ev_id e) call) i (pj_groups p); pj_assistant := Some i |}
      end
  | ToolResult callId name items isError _ =>
      Ok (push_group (group (MTool callId (model_tool_name name) items isError)) p (pj_assistant p))
  | ContextInjected source body =>
      Ok (push_group (group (MUser [CText ("[" +:+ source +:+ "]" +:+ newline +:+ body)])) p None)
  | ContextCompacted _ _ _ => Ok {| pj_groups := pj_groups p; pj_assistant := None |}
  | _ => Ok p
  end.

(** The loop that hides the replaced groups. *)
Fixpoint hide_groups (hidden : list string) (cid : string) (visible : list ContextGroup) (found : bool)
    (groups : list ContextGroup) : result ReplayError (list ContextGroup * bool) :=
  match groups with
  | [] => Ok (visible, found)
  | g :: rest =>
      let hiddenCount := length (filter (λ id, id ∈ hidden) (g_eventIds g)) in
      if bool_decide (0 < hiddenCount ∧ hiddenCount < length (g_eventIds g)) then
        Err (replay_error ("Compaction " +:+ cid +:+ " splits a model message group"))
      else if bool_decide (0 < hiddenCount) then
        match visible with
        | [] => hide_groups hidden cid visible true rest
        | _ => Err (replay_error ("Compaction " +:+ cid +:+ " replaces a non-prefix message"))
        end
      else hide_groups hidden cid (visible ++ [g]) found rest
  end.

(** [events.findLast(...)] *)
Definition last_compaction (events : list event) : option Compaction := last (omap compaction_of events).

Definition projectContext (events : list event) : result ReplayError ProjectedContext :=
  let previous := last_compaction events in
  hidden ← match previous with None => Ok [] | Some c => replacementClosure events c end;
  p ← fold_res project_step {| pj_groups := []; pj_assistant := None |} events;
  let cid := match previous with Some c => cp_id c | None => "<unknown>" end in
  ' (visible, found) ← hide_groups hidden cid [] false (pj_groups p);
  _ ← match previous with
      | Some c => require found (replay_error ("Compaction " +:+ cp_id c +:+ " replaces no model-visible events"))
      | None => Ok tt
      end;
  Ok {| pc_previous := previous; pc_groups := visible |}.

Definition summary_message (c : Compaction) : ModelMessage :=
  MUser [CText (COMPACTION_SUMMARY_PREFIX +:+ cp_summary c +:+ COMPACTION_SUMMARY_SUFFIX)].

(** An assistant message without content and calls is not shown. *)
Definition shown (m : ModelMessage) : bool :=
  match m with MAssistant [] [] => false | _ => true end.

Definition context_messages (p : ProjectedContext) : list ModelMessage :=
  match pc_previous p with None => [] | Some c => [summary_message c] end ++
  filter (λ m, Is_true (shown m)) (g_message <$> pc_groups p).

Definition messagesFromCompactedLineage (events : list event) : result ReplayError (list ModelMessage) :=
  context_messages <$$> projectContext events.

(** ** The plan *)

Inductive plan_error :=
| PlanReplay (e : ReplayError)
| PlanType (message : string).

(** The first loop, over the groups from the last to the first: the index at
    which the accumulated estimate reaches [keep]. *)
Fixpoint crossed_at (keep accumulated : Z) (reversed : list ContextGroup) : option nat :=
  match reversed with
  | [] => None
  | g :: rest =>
      let accumulated' := (accumulated + estimateModelMessageTokens (g_message g))%Z in
      if (keep <=? accumulated')%Z then Some (length rest) else crossed_at keep accumulated' rest
  end.

Definition starts_turn (m : ModelMessage) : bool := match m with MTool _ _ _ _ => false | _ => true end.

(** The second loop: the first user or assistant group from [index] on. *)
Fixpoint first_kept (index : nat) (groups : list ContextGroup) : option nat :=
  match groups with
  | [] => None
  | g :: rest => if starts_turn (g_message g) then Some index else first_kept (S index) rest
  end.

Definition is_assistant (m : ModelMessage) : bool := match m with MAssistant _ _ => true | _ => false end.

Definition plan_of (p : ProjectedContext) (kept : nat) : CompactionPlan :=
  let compacted := take kept (pc_groups p) in
  {| plan_messagesToSummarize := g_message <$> compacted;
     plan_previousSummary := cp_summary <$> pc_previous p;
     plan_replacedEventIds := option_list (cp_id <$> pc_previous p) ++ mjoin (g_eventIds <$> compacted);
     plan_splitTurn := match pc_groups p !! kept with
                       | Some g => is_assistant (g_message g)
                       | None => false
                       end |}.

Definition ends_compacted (events : list event) : bool :=
  match last events with
  | Some e => match compaction_of e with Some _ => true | None => false end
  | None => false
  end.

(** The index of the first group kept. *)
Definition kept_index (keep : Z) (groups : list ContextGroup) : option nat :=
  match crossed_at keep 0 (rev groups) with
  | None => None
  | Some crossed =>
      match first_kept crossed (drop crossed groups) with
      | None | Some 0 => None
      | Some kept => Some kept
      end
  end.

Definition prepareCompaction (events : list event) (keepRecentTokens : number) :
    result plan_error (option CompactionPlan) :=
  _ ← require (is_safe_integer keepRecentTokens && (1 <=? int_of keepRecentTokens)%Z)
        (PlanType "keepRecentTokens must be a positive safe integer");
  if ends_compacted events then Ok None
  else
    match projectContext events with
    | Err e => Err (PlanReplay e)
    | Ok p => Ok (option_map (plan_of p) (kept_index (int_of keepRecentTokens) (pc_groups p)))
    end.

(** ** The summary request *)

(** [filter(Boolean)] on strings. *)
Definition non_empty (l : list string) : list string := filter (λ s, s ≠ "") l.

Definition contentText (items : list content) : string :=
  join newline (non_empty ((λ c, match c with
                                 | CText t | CThinking t => t
                                 | CBlob _ => "[binary attachment omitted]"
                                 end) <$> items)).

Definition truncateToolResult (text : string) : string :=
  if (js_length text <=? TOOL_RESULT_MAX_CHARACTERS)%Z then text
  else js_slice_start TOOL_RESULT_MAX_CHARACTERS text +:+ newline +:+ newline +:+ "["
       +:+ pretty (js_length text - TOOL_RESULT_MAX_CHARACTERS)%Z +:+ " characters omitted]".

(** What one message pushes onto [parts]. *)
Definition message_parts (message : ModelMessage) : list string :=
  match message with
  | MUser items => ["[User]" +:+ newline +:+ contentText items]
  | MAssistant items calls =>
      let thinking := join newline (thinking_items items) in
      let text := join newline (text_items items) in
      (if bool_decide (thinking = "") then [] else ["[Assistant thinking]" +:+ newline +:+ thinking])
      ++ (if bool_decide (text = "") then [] else ["[Assistant]" +:+ newline +:+ text])
      ++ (match calls with
          | [] => []
          | _ => ["[Assistant tool calls]" +:+ newline +:+
                  join newline ((λ c, tcr_name c +:+ "(" +:+ json_text (JObj (tcr_input c)) +:+ ")") <$> calls)]
          end)
  | MTool _ name items isError =>
      ["[Tool result: " +:+ name +:+ (if isError then ", error" else "") +:+ "]" +:+ newline
       +:+ truncateToolResult (contentText items)]
  end.

Definition serializeCompactionMessages (messages : list ModelMessage) : string :=
  join (newline +:+ newline) (mjoin (message_parts <$> messages)).

Definition blank : string := newline +:+ newline.

Definition summaryPrompt (plan : CompactionPlan) (customInstructions : option string) : string :=
  let previous :=
    match plan_previousSummary plan with
    | None => ""
    | Some s => blank +:+ "<previous-summary>" +:+ newline +:+ s +:+ newline +:+ "</previous-summary>"
    end in
  let split :=
    if plan_splitTurn plan then
      blank +:+ "The retained context begins partway through a turn. Preserve the original request and early work needed to understand that suffix."
    else "" in
  let focus :=
    match customInstructions with
    | None | Some "" => ""
    | Some i => blank +:+ "Additional focus from the user: " +:+ i
    end in
  "<conversation>" +:+ newline +:+ serializeCompactionMessages (plan_messagesToSummarize plan) +:+ newline
  +:+ "</conversation>" +:+ previous +:+ split +:+ focus +:+ blank
  +:+ "Write a concise continuation summary using exactly these sections:" +:+ blank
  +:+ join newline ["## Goal"; "## Constraints & Preferences"; "## Progress"; "### Done";
                    "### In Progress"; "### Blocked"; "## Key Decisions"; "## Next Steps";
                    "## Critical Context"]
  +:+ blank +:+ "Preserve exact file paths, function names, commands, and error messages needed to continue.".

(** What a model port does while a request runs: it yields events, reports the
    configuration it dispatched, or throws ([None]: a value that is not an
    [Error]); meanwhile clients act on the session. *)
Inductive client_action :=
| ClientSteer (items : list content)
| ClientFollowUp (items : list content)
| ClientAbort.

Inductive stream_item :=
| Yield (e : ModelStreamEvent)
| Configured (c : ModelRequestConfiguration)
| Throws (message : option string)
| Client (a : client_action).

Inductive summary_error :=
| SummaryAborted
| SummaryFailed (message : string)
| SummaryPortThrew (message : option string).

(** The loop over the stream.  [configured] is [onRequestConfigured], which
    works on the state [S]; an error it throws comes out of the stream.
    [aborted] is the signal. *)
Section Summarize.
Context {S : Type} (configured : ModelRequestConfiguration → S → result summary_error unit * S).

Fixpoint summary_loop (items : list stream_item) (aborted : bool) (s : S) (summary : string) :
    result summary_error (string * option Usage) * bool * S :=
  match items with
  | [] => (Ok (summary, None), aborted, s)
  | Client ClientAbort :: rest => summary_loop rest true s summary
  | Client _ :: rest => summary_loop rest aborted s summary
  | Configured c :: rest =>
      match configured c s with
      | (Ok _, s') => summary_loop rest aborted s' summary
      | (Err e, s') => (Err e, aborted, s')
      end
  | Throws m :: _ => (Err (SummaryPortThrew m), aborted, s)
  | Yield e :: rest =>
      match e with
      | TextDelta text _ => summary_loop rest aborted s (summary +:+ text)
      | ToolCallEvent _ _ => (Err (SummaryFailed "Compaction model attempted a tool call"), aborted, s)
      | StreamError err => (Err (SummaryFailed ("Compaction failed: " +:+ mse_message err)), aborted, s)
      | Aborted _ => (Err SummaryAborted, aborted, s)
      | Completed reason usage _ _ _ =>
          if bool_decide (reason = SStop) then (Ok (summary, Some usage), aborted, s)
          else (Err (SummaryFailed ("Compaction summary ended with " +:+ enum_name reason)), aborted, s)
      | _ => summary_loop rest aborted s summary
      end
  end.

(** [items] is what the port does for the request built from the plan. *)
Definition summarizeCompaction (items : list stream_item) (aborted : bool) (s : S) :
    result summary_error (string * Usage) * bool * S :=
  if aborted then (Err SummaryAborted, aborted, s)
  else
    match summary_loop items aborted s "" with
    | (Err e, aborted', s') => (Err e, aborted', s')
    | (Ok (summary, terminal), aborted', s') =>
        if aborted' then (Err SummaryAborted, aborted', s')
        else
          match terminal with
          | None => (Err (SummaryFailed "Compaction model stream ended without completion"), aborted', s')
          | Some usage =>
              let summary := js_trim summary in
              if bool_decide (summary = "") then
                (Err (SummaryFailed "Compaction model returned an empty summary"), aborted', s')
              else (Ok (summary, usage), aborted', s')
          end
    end.
End Summarize.

(** ** The closure is the least set closed under nested compactions *)

(** The ids [c] replaces, directly or through a compaction it replaces. *)
Inductive replaces (events : list event) (c : Compaction) : string → Prop :=
| replaces_direct id : id ∈ cp_replaced c → replaces events c id
| replaces_nested e id : replaces events c (ev_id e) → e ∈ events → id ∈ replaced_by e →
    replaces events c id.

Section Closure.
Implicit Types (events : list event) (hidden pending : list string).

Lemma by_id_None i events id : by_id i events id = None ↔ id ∉ ev_id <$> events.
Proof.
  revert i. induction events as [|e events IH]; intros i; simpl; [split; [intros _; apply not_elem_of_nil|done]|].
  rewrite not_elem_of_cons, <- (IH (S i)). destruct (by_id (S i) events id); [naive_solver|].
  case_bool_decide; naive_solver.
Qed.

Lemma by_id_Some i events id e j :
  by_id i events id = Some (e, j) → ev_id e = id ∧ i ≤ j ∧ events !! (j - i) = Some e.
Proof.
  revert i. induction events as [|e' events IH]; intros i; simpl; [done|].
  destruct (by_id (S i) events id) as [[e0 j0]|] eqn:H.
  - intros [= -> ->]. apply IH in H as (? & ? & H). split_and!; [done|lia|].
    replace (j - i) with (S (j - S i)) by lia. done.
  - case_bool_decide; [|done]. intros [= -> ->]. split_and!; [done|lia|]. by rewrite Nat.sub_diag.
Qed.

Lemma by_id_lookup events i e :
  NoDup (ev_id <$> events) → events !! i = Some e → by_id 0 events (ev_id e) = Some (e, i).
Proof.
  intros Hnd Hi. destruct (by_id 0 events (ev_id e)) as [[e' j]|] eqn:H.
  - apply by_id_Some in H as (Hid & _ & Hj). rewrite Nat.sub_0_r in Hj.
    assert (i = j) as ->; [|congruence]. apply (NoDup_lookup _ _ _ (ev_id e) Hnd); rewrite list_lookup_fmap;
      [by rewrite Hi | by rewrite Hj; simpl; f_equal].
  - apply by_id_None in H. destruct H. apply list_elem_of_fmap. exists e. split; [done|].
    by eapply list_elem_of_lookup_2.
Qed.

(** What is left to push: the work of the events not hidden yet. *)
Definition left_to_push events hidden : nat :=
  sum_list_with (λ e, if bool_decide (ev_id e ∈ hidden) then 0 else length (replaced_by e)) events.

Lemma left_to_push_hide events hidden e :
  e ∈ events → ev_id e ∉ hidden →
  left_to_push events (hidden ++ [ev_id e]) + length (replaced_by e) ≤ left_to_push events hidden.
Proof.
  unfold left_to_push. intros He Hid.
  assert (Hmono : ∀ l, sum_list_with (λ e', if bool_decide (ev_id e' ∈ hidden ++ [ev_id e]) then 0 else length (replaced_by e')) l
    ≤ sum_list_with (λ e', if bool_decide (ev_id e' ∈ hidden) then 0 else length (replaced_by e')) l).
  { induction l as [|e' l IH]; simpl; [lia|].
    destruct (bool_decide_reflect (ev_id e' ∈ hidden)).
    - rewrite (bool_decide_true (_ ∈ hidden ++ _)) by (apply elem_of_app; by left). lia.
    - case_bool_decide; lia. }
  induction events as [|e' events IH]; [by apply elem_of_nil in He|]. simpl.
  apply elem_of_cons in He as [<-|He].
  - rewrite (bool_decide_true (ev_id e ∈ hidden ++ _)) by (apply elem_of_app; right; by left).
    rewrite (bool_decide_false (ev_id e ∈ hidden)) by done. specialize (Hmono events). lia.
  - specialize (IH He). destruct (bool_decide_reflect (ev_id e' ∈ hidden)).
    + rewrite (bool_decide_true (ev_id e' ∈ hidden ++ _)) by (apply elem_of_app; by left). lia.
    + case_bool_decide; lia.
Qed.

(** Enough fuel: one unit per id popped. *)
Lemma closure_loop_total fuel events cid bound hidden pending :
  length pending + left_to_push events hidden ≤ fuel →
  ∃ r, closure_loop fuel events cid bound hidden pending = Some r.
Proof.
  revert hidden pending. induction fuel as [|fuel IH]; intros hidden [|id rest] Hf; simpl in *;
    try (by eexists); [lia|].
  case_bool_decide as Hid; [apply IH; lia|].
  destruct (by_id 0 events id) as [[e i]|] eqn:Hb; [|by eexists].
  destruct (bound <=? Z.of_nat i)%Z; [by eexists|].
  apply by_id_Some in Hb as (<- & _ & Hi). apply list_elem_of_lookup_2 in Hi.
  pose proof (left_to_push_hide events hidden e Hi Hid). apply IH.
  rewrite length_app, length_rev. lia.
Qed.

Lemma closure_fuel_enough events cid bound pending :
  ∃ r, closure_loop (closure_fuel events pending) events cid bound [] pending = Some r.
Proof.
  apply closure_loop_total. unfold closure_fuel. apply Nat.add_le_mono_l.
  unfold left_to_push. induction events as [|e events IH]; simpl; [lia|]. lia.
Qed.

(** The loop's result, against any set [P] the work list stays in. *)
Lemma closure_loop_sound (events : list event) (P : string → Prop) cid bound fuel hidden pending r :
  (∀ e id, P (ev_id e) → e ∈ events → id ∈ replaced_by e → P id) →
  Forall P hidden → Forall P pending →
  closure_loop fuel events cid bound hidden pending = Some r →
  match r with
  | Ok h =>
      Forall P h ∧ (∀ id, id ∈ hidden ∨ id ∈ pending → id ∈ h) ∧
      (∀ id, id ∈ h → id ∈ hidden ∨
         ∃ e i, by_id 0 events id = Some (e, i) ∧ (Z.of_nat i < bound)%Z ∧ ∀ id', id' ∈ replaced_by e → id' ∈ h)
  | Err _ =>
      ∃ id, P id ∧ match by_id 0 events id with None => True | Some (_, i) => (bound <= Z.of_nat i)%Z end
  end.
Proof.
  intros Hclosed. revert hidden pending. induction fuel as [|fuel IH]; intros hidden [|id rest] Hh Hp Hrun;
    simpl in Hrun; try (injection Hrun as <-; split_and!; [done| |auto]; intros ? [?|?%elem_of_nil]; done);
    try done.
  apply Forall_cons in Hp as [Hid Hp]. case_bool_decide as Hin.
  - specialize (IH _ _ Hh Hp Hrun). destruct r as [h|]; [|done]. destruct IH as (? & Hin2 & ?).
    split_and!; [done| |done]. intros id' [?|[->|?]%elem_of_cons]; apply Hin2; auto.
  - destruct (by_id 0 events id) as [[e i]|] eqn:Hb; [|injection Hrun as <-; exists id; by rewrite Hb].
    destruct (bound <=? Z.of_nat i)%Z eqn:Hlt; [injection Hrun as <-; exists id; rewrite Hb; split; [done|lia]|].
    pose proof (by_id_Some _ _ _ _ _ Hb) as (Heid & _ & Hi). apply list_elem_of_lookup_2 in Hi.
    apply IH in Hrun; [| by apply Forall_app; split; [|by apply Forall_singleton] |].
    + destruct r as [h|]; [|done]. destruct Hrun as (Hall & Hin2 & Hback). split_and!; [done| |].
      * intros id' [?|[->|?]%elem_of_cons]; apply Hin2; rewrite !elem_of_app; auto.
        left. right. by left.
      * intros id' Hid'. destruct (Hback id' Hid') as [[?|Heq%list_elem_of_singleton]%elem_of_app|?]; auto.
        subst id'. right. exists e, i. split_and!; [done|lia|]. intros x Hx. apply Hin2. right.
        apply elem_of_app. left. by apply elem_of_rev.
    + apply Forall_app. split; [|done]. apply Forall_rev, Forall_forall. intros x Hx.
      eapply Hclosed; [|done..]. by subst id.
Qed.

Lemma closure_spec events pos ce c :
  NoDup (ev_id <$> events) → events !! pos = Some ce → compaction_of ce = Some c →
  match replacementClosure events c with
  | Ok h => ∀ id, (id ∈ h ↔ replaces events c id) ∧ (id ∈ h → id ∈ ev_id <$> take pos events)
  | Err _ => ∃ id, replaces events c id ∧ id ∉ ev_id <$> take pos events
  end.
Proof.
  intros Hnd Hpos Hc.
  assert (Hcid : cp_id c = ev_id ce) by (unfold compaction_of in Hc; destruct (ev_payload ce); by simplify_eq).
  assert (Hb : index_bound events (cp_id c) = Z.of_nat pos).
  { unfold index_bound. by rewrite Hcid, (by_id_lookup _ _ _ Hnd Hpos). }
  assert (Hbefore : ∀ id e i, by_id 0 events id = Some (e, i) →
    (Z.of_nat i < Z.of_nat pos)%Z ↔ id ∈ ev_id <$> take pos events).
  { intros id e i (Hid & _ & Hi)%by_id_Some. rewrite Nat.sub_0_r in Hi. split.
    - intros Hlt. apply list_elem_of_fmap. exists e. split; [done|]. apply list_elem_of_lookup. exists i.
      by rewrite lookup_take_lt by lia.
    - intros (e' & -> & [j Hj]%list_elem_of_lookup)%list_elem_of_fmap.
      pose proof (lookup_lt_Some _ _ _ Hj) as Hlt. rewrite length_take in Hlt.
      rewrite lookup_take_lt in Hj by lia. assert (i = j); [|lia].
      apply (NoDup_lookup _ _ _ (ev_id e) Hnd); rewrite list_lookup_fmap; [by rewrite Hi | by rewrite Hj, Hid]. }
  unfold replacementClosure.
  destruct (closure_fuel_enough events (cp_id c) (index_bound events (cp_id c)) (rev (cp_replaced c))) as [r Hr].
  rewrite Hr. apply (closure_loop_sound events (replaces events c)) in Hr; [|by apply replaces_nested|done|].
  - rewrite Hb in Hr. destruct r as [h|err].
    + destruct Hr as (Hall & Hin & Hback).
      assert (Hback' : ∀ id, id ∈ h → ∃ e i, by_id 0 events id = Some (e, i) ∧ (Z.of_nat i < Z.of_nat pos)%Z ∧
        ∀ id', id' ∈ replaced_by e → id' ∈ h).
      { intros id Hid. by destruct (Hback id Hid) as [?%elem_of_nil|?]. }
      intros id. split; [split|].
      * rewrite Forall_forall in Hall. apply Hall.
      * induction 1 as [id Hid | e id _ IH He Hid].
        -- apply Hin. right. by apply elem_of_rev.
        -- destruct (Hback' _ IH) as (e' & i & Hb' & _ & Hcl). apply Hcl.
           apply list_elem_of_lookup in He as [j Hj]. rewrite (by_id_lookup _ _ _ Hnd Hj) in Hb'.
           by injection Hb' as <- _.
      * intros Hid. destruct (Hback' _ Hid) as (e & i & Hb' & Hlt & _). by eapply Hbefore.
    + destruct Hr as (id & Hid & Hnot). exists id. split; [done|]. intros Hbad.
      destruct (by_id 0 events id) as [[e i]|] eqn:Hbi.
      * apply (Hbefore id e i Hbi) in Hbad. lia.
      * apply by_id_None in Hbi. apply Hbi. apply list_elem_of_fmap in Hbad as (e & -> & He).
        apply list_elem_of_fmap. exists e. split; [done|].
        rewrite <- (take_drop pos events). apply elem_of_app. by left.
  - apply Forall_rev, Forall_forall. intros x. apply replaces_direct.
Qed.
End Closure.

(** ** The projection and its groups *)

(** The events whose ids the groups carry. *)
Definition in_model (e : event) : bool :=
  match ev_payload e with
  | UserMessage _ | AssistantMessage _ _ _ _ | ToolCall _ _ _ | ToolResult _ _ _ _ _
  | ContextInjected _ _ => true
  | UserShell _ _ _ excluded => negb excluded
  | _ => false
  end.

Definition group_ids (groups : list ContextGroup) : list string := mjoin (g_eventIds <$> groups).

(** Events the projection passes over. *)
Definition inert (e : event) : bool :=
  match ev_payload e with
  | UserMessage _ | UserShell _ _ _ _ | AssistantMessage _ _ _ _ | ToolCall _ _ _ | ToolResult _ _ _ _ _
  | ContextInjected _ _ | ContextCompacted _ _ _ => false
  | _ => true
  end.

Section Projection.
Lemma group_ids_app g1 g2 : group_ids (g1 ++ g2) = group_ids g1 ++ group_ids g2.
Proof. unfold group_ids. by rewrite fmap_app, join_app. Qed.

Lemma group_ids_push_call id call i groups :
  i < length groups →
  group_ids (alter (push_call id call) i groups) ≡ₚ group_ids groups ++ [id].
Proof.
  unfold group_ids. revert i. induction groups as [|g groups IH]; intros [|i] Hi; simpl in *; try lia.
  - rewrite <- app_assoc. by rewrite (Permutation_app_comm [id]), app_assoc.
  - rewrite <- app_assoc. apply Permutation_app_head. apply IH. lia.
Qed.

Lemma project_step_ids p e p' :
  (∀ i, pj_assistant p = Some i → i < length (pj_groups p)) →
  Forall (λ g, g_eventIds g ≠ []) (pj_groups p) →
  project_step p e = Ok p' →
  (∀ i, pj_assistant p' = Some i → i < length (pj_groups p')) ∧
  Forall (λ g, g_eventIds g ≠ []) (pj_groups p') ∧
  group_ids (pj_groups p') ≡ₚ group_ids (pj_groups p) ++ (if in_model e then [ev_id e] else []).
Proof.
  intros Ha Hne. unfold project_step, in_model.
  assert (Hpush : ∀ m a, (∀ i, a = Some i → i ≤ length (pj_groups p)) →
    let g := {| g_message := m; g_eventIds := [ev_id e] |} in
    (∀ i, pj_assistant (push_group g p a) = Some i → i < length (pj_groups (push_group g p a))) ∧
    Forall (λ g, g_eventIds g ≠ []) (pj_groups (push_group g p a)) ∧
    group_ids (pj_groups (push_group g p a)) ≡ₚ group_ids (pj_groups p) ++ [ev_id e]).
  { intros m a Hle g. simpl. split_and!.
    - intros i Hi. rewrite length_app. simpl. specialize (Hle i Hi). lia.
    - apply Forall_app. split; [done|]. by apply Forall_singleton.
    - by rewrite group_ids_app. }
  assert (Hkeep : group_ids (pj_groups p) ≡ₚ group_ids (pj_groups p) ++ []) by by rewrite app_nil_r.
  destruct (ev_payload e) eqn:He; try (intros [= <-]; by split_and!).
  - intros [= <-]. by apply Hpush.
  - destruct excluded; intros [= <-]; [by split_and!|]. by apply Hpush.
  - intros [= <-]. apply Hpush. intros i [= <-]. lia.
  - destruct (pj_assistant p) as [i|] eqn:Hi; [|done]. intros [= <-]. simpl. specialize (Ha i eq_refl).
    split_and!.
    + intros j [= <-]. by rewrite length_alter.
    + apply Forall_alter; [done|]. intros g _ _. simpl. by destruct (g_eventIds g).
    + by apply group_ids_push_call.
  - intros [= <-]. apply Hpush. intros i Hi. specialize (Ha i Hi). lia.
  - intros [= <-]. by apply Hpush.
Qed.

Lemma project_ids events p :
  fold_res project_step {| pj_groups := []; pj_assistant := None |} events = Ok p →
  Forall (λ g, g_eventIds g ≠ []) (pj_groups p) ∧
  group_ids (pj_groups p) ≡ₚ ev_id <$> filter (λ e, Is_true (in_model e)) events.
Proof.
  intros H.
  apply (fold_res_inv (λ done p,
    (∀ i, pj_assistant p = Some i → i < length (pj_groups p)) ∧
    Forall (λ g, g_eventIds g ≠ []) (pj_groups p) ∧
    group_ids (pj_groups p) ≡ₚ ev_id <$> filter (λ e, Is_true (in_model e)) done)) in H; [naive_solver | by split_and! |].
  intros done' e t t' (Ha & Hne & Hp) Hstep.
  destruct (project_step_ids t e t' Ha Hne Hstep) as (Ha' & Hne' & Hp'). split_and!; [done..|].
  rewrite Hp', Hp, filter_app, fmap_app. apply Permutation_app_head. rewrite filter_singleton by exact [].
  by destruct (in_model e).
Qed.

Lemma project_inert mid p :
  Forall (λ e, inert e = true) mid → fold_res project_step p mid = Ok p.
Proof.
  induction 1 as [|e mid He _ IH]; [done|]. simpl.
  assert (project_step p e = Ok p) as ->; [|done].
  unfold project_step, inert in *. by destruct (ev_payload e).
Qed.

Lemma in_model_not_compaction e c : compaction_of e = Some c → in_model e = false.
Proof. unfold compaction_of, in_model. by destruct (ev_payload e). Qed.

(** ** Hiding *)

Definition all_hidden (hidden : list string) (g : ContextGroup) : Prop := Forall (λ id, id ∈ hidden) (g_eventIds g).
Definition none_hidden (hidden : list string) (g : ContextGroup) : Prop := Forall (λ id, id ∉ hidden) (g_eventIds g).

Lemma hidden_count_all (hidden ids : list string) :
  length (filter (λ id, id ∈ hidden) ids) = length ids ↔ Forall (λ id, id ∈ hidden) ids.
Proof.
  induction ids as [|id ids IH]; [by split|]. rewrite filter_cons, Forall_cons. case_decide as Hid; simpl.
  - rewrite <- IH. split; [intros; split; [done|lia] | lia].
  - split; [|by intros [? _]]. pose proof (length_filter (λ id, id ∈ hidden) ids). lia.
Qed.

Lemma hidden_count_none (hidden ids : list string) :
  length (filter (λ id, id ∈ hidden) ids) = 0 ↔ Forall (λ id, id ∉ hidden) ids.
Proof.
  induction ids as [|id ids IH]; [by split|]. rewrite filter_cons, Forall_cons. case_decide as Hid; simpl.
  - split; [lia | by intros [? _]].
  - rewrite IH. naive_solver.
Qed.

Lemma hide_groups_visible hidden cid vis found groups :
  Forall (none_hidden hidden) groups → hide_groups hidden cid vis found groups = Ok (vis ++ groups, found).
Proof.
  revert vis. induction groups as [|g groups IH]; intros vis Hg; simpl; [by rewrite app_nil_r|].
  apply Forall_cons in Hg as [Hg Hgs]. apply hidden_count_none in Hg. rewrite Hg.
  rewrite !bool_decide_false by lia. rewrite IH by done. by rewrite <- app_assoc.
Qed.

Lemma hide_groups_prefix hidden cid found pre post :
  Forall (λ g, g_eventIds g ≠ []) pre → Forall (all_hidden hidden) pre → Forall (none_hidden hidden) post →
  hide_groups hidden cid [] found (pre ++ post) = Ok (post, found || negb (bool_decide (pre = []))).
Proof.
  intros Hne Hpre Hpost. revert found. induction pre as [|g pre IH]; intros found.
  - rewrite bool_decide_true by done. rewrite orb_false_r. simpl. by apply hide_groups_visible.
  - apply Forall_cons in Hpre as [Hg Hpre]. apply Forall_cons in Hne as [Hg0 Hne]. simpl.
    apply hidden_count_all in Hg. rewrite Hg.
    assert (0 < length (g_eventIds g)) by (destruct (g_eventIds g); simpl; [done|lia]).
    rewrite bool_decide_false by lia. rewrite bool_decide_true by done. rewrite IH by done.
    by destruct found.
Qed.

(** Conversely, what is hidden is a prefix of the groups. *)
Lemma hide_groups_inv hidden cid found groups vis f :
  hide_groups hidden cid [] found groups = Ok (vis, f) →
  ∃ pre, groups = pre ++ vis ∧ Forall (all_hidden hidden) pre ∧ Forall (none_hidden hidden) vis.
Proof.
  assert (Hvis : ∀ groups v0 found, v0 ≠ [] → hide_groups hidden cid v0 found groups = Ok (vis, f) →
    Forall (none_hidden hidden) groups ∧ vis = v0 ++ groups).
  { clear. induction groups as [|g groups IH]; intros v0 found Hv0; simpl; [intros [= -> _]; by rewrite app_nil_r|].
    case_bool_decide as H1; [done|]. case_bool_decide as H2; [by destruct v0|].
    intros H. apply IH in H as [H ->]; [|by destruct v0]. rewrite <- app_assoc. split; [|done].
    constructor; [|done]. apply hidden_count_none. lia. }
  revert found. induction groups as [|g groups IH]; intros found; simpl; [intros [= <- _]; by exists []|].
  case_bool_decide as H1; [done|]. case_bool_decide as H2.
  - intros (pre & -> & Hpre & Hv)%IH. exists (g :: pre). split_and!; [done| |done]. constructor; [|done].
    apply hidden_count_all. pose proof (length_filter (λ id, id ∈ hidden) (g_eventIds g)). lia.
  - intros [Hgs ->]%Hvis; [|done]. exists []. split_and!; [done..|]. simpl. constructor; [|done].
    apply hidden_count_none. lia.
Qed.
End Projection.

(** ** A planned compaction projects to exactly the groups it kept *)

Section Plan.
Implicit Types (events mid : list event).

Lemma last_compaction_snoc events ce c :
  compaction_of ce = Some c → last_compaction (events ++ [ce]) = Some c.
Proof. intros H. unfold last_compaction. rewrite omap_app. simpl. by rewrite H, last_snoc. Qed.

Lemma last_compaction_elem events c :
  last_compaction events = Some c → ∃ pos ce, events !! pos = Some ce ∧ compaction_of ce = Some c.
Proof.
  unfold last_compaction. intros H%last_Some_elem_of.
  apply list_elem_of_omap in H as (ce & [pos Hpos]%list_elem_of_lookup & Hc). by exists pos, ce.
Qed.

Lemma compaction_fields ce c :
  compaction_of ce = Some c → cp_id c = ev_id ce ∧ cp_replaced c = replaced_by ce.
Proof. intros H. unfold replaced_by. rewrite H. unfold compaction_of in H. by destruct (ev_payload ce); simplify_eq. Qed.

(** What [projectContext] established when it returned. *)
Lemma projectContext_inv events p :
  NoDup (ev_id <$> events) → projectContext events = Ok p →
  ∃ hidden proj pre,
    fold_res project_step {| pj_groups := []; pj_assistant := None |} events = Ok proj ∧
    pj_groups proj = pre ++ pc_groups p ∧
    Forall (all_hidden hidden) pre ∧ Forall (none_hidden hidden) (pc_groups p) ∧
    pc_previous p = last_compaction events ∧
    (∀ id, id ∈ hidden ↔ ∃ c, pc_previous p = Some c ∧ replaces events c id) ∧
    (∀ id, id ∈ hidden → id ∈ ev_id <$> events).
Proof.
  intros Hnd. unfold projectContext. intros (hidden & Hhid & (proj & Hproj & ([vis f] & Hvis & H)%bind_Ok)%bind_Ok)%bind_Ok.
  apply bind_Ok in H as (_ & _ & [= <-]). apply hide_groups_inv in Hvis as (pre & Hg & Hpre & Hpost).
  exists hidden, proj, pre. simpl. split_and!; [done..| |].
  - intros id. destruct (last_compaction events) as [c|] eqn:Hc.
    + destruct (last_compaction_elem _ _ Hc) as (pos & ce & Hpos & Hce).
      pose proof (closure_spec events pos ce c Hnd Hpos Hce) as Hs. rewrite Hhid in Hs.
      destruct (Hs id) as [-> _]. naive_solver.
    + injection Hhid as <-. split; [by intros ?%elem_of_nil | by intros (? & ? & _)].
  - intros id Hid. destruct (last_compaction events) as [c|] eqn:Hc.
    + destruct (last_compaction_elem _ _ Hc) as (pos & ce & Hpos & Hce).
      pose proof (closure_spec events pos ce c Hnd Hpos Hce) as Hs. rewrite Hhid in Hs.
      destruct (Hs id) as [_ Hb]. apply Hb in Hid. rewrite <- (take_drop pos events), fmap_app.
      apply elem_of_app. by left.
    + injection Hhid as <-. by apply elem_of_nil in Hid.
Qed.

(** The ids a plan replaces, with everything they already replaced. *)
Lemma replaces_plan events rest ce c p k :
  NoDup (ev_id <$> events ++ rest) → compaction_of ce = Some c →
  last_compaction events = pc_previous p →
  cp_replaced c = plan_replacedEventIds (plan_of p k) →
  (∀ id, id ∈ group_ids (take k (pc_groups p)) →
     ∃ e, e ∈ events ∧ ev_id e = id ∧ compaction_of e = None) →
  (∀ c' id, pc_previous p = Some c' → replaces events c' id → id ∈ ev_id <$> events) →
  ∀ id, replaces (events ++ rest) c id ↔
    id ∈ group_ids (take k (pc_groups p)) ∨
    ∃ c', pc_previous p = Some c' ∧ (id = cp_id c' ∨ replaces events c' id).
Proof.
  intros Hnd Hc Hprev Hrep Hgroups Hold.
  assert (Hsplit : ∀ id, id ∈ cp_replaced c ↔
    id ∈ group_ids (take k (pc_groups p)) ∨ ∃ c', pc_previous p = Some c' ∧ id = cp_id c').
  { intros id. rewrite Hrep. simpl. rewrite elem_of_app. fold (group_ids (take k (pc_groups p))).
    destruct (pc_previous p) as [c'|]; simpl.
    - rewrite list_elem_of_singleton. naive_solver.
    - rewrite elem_of_nil. naive_solver. }
  assert (Hin : ∀ e, e ∈ events ++ rest → ev_id e ∈ ev_id <$> events → e ∈ events).
  { intros e He Hid. apply elem_of_app in He as [He|He]; [done|]. exfalso.
    rewrite fmap_app in Hnd. apply NoDup_app in Hnd as (_ & Hnd & _). apply (Hnd _ Hid).
    apply list_elem_of_fmap. by exists e. }
  assert (Huniq : ∀ e e', e ∈ events → e' ∈ events → ev_id e = ev_id e' → e = e').
  { intros e e' [i Hi]%list_elem_of_lookup [j Hj]%list_elem_of_lookup Heq.
    rewrite fmap_app in Hnd. apply NoDup_app in Hnd as (Hnd & _ & _).
    assert (i = j) as ->; [|congruence]. apply (NoDup_lookup _ _ _ (ev_id e) Hnd); rewrite list_lookup_fmap;
      [by rewrite Hi | by rewrite Hj, Heq]. }
  intros id. split.
  - induction 1 as [id Hid | e id _ IH He Hid].
    + apply Hsplit in Hid. naive_solver.
    + destruct IH as [Hg | (c' & Hc' & [Heq | Hr])].
      * destruct (Hgroups _ Hg) as (e' & He' & Hid' & Hno).
        assert (e = e') as -> by (apply Huniq; [apply Hin; [done|]|done..]; apply list_elem_of_fmap; by exists e').
        unfold replaced_by in Hid. rewrite Hno in Hid. by apply elem_of_nil in Hid.
      * right. exists c'. split; [done|]. right. rewrite <- Hprev in Hc'.
        apply last_compaction_elem in Hc' as (pos & ce' & Hpos%list_elem_of_lookup_2 & Hce').
        apply compaction_fields in Hce' as [Hcid Hcr].
        assert (e = ce') as ->.
        { apply Huniq; [apply Hin; [done|] | done | congruence]. apply list_elem_of_fmap. exists ce'.
          split; [congruence|done]. }
        apply replaces_direct. by rewrite Hcr.
      * right. exists c'. split; [done|]. right. eapply replaces_nested; [exact Hr| |done].
        apply Hin; [done|]. by eapply Hold.
  - intros [Hg | (c' & Hc' & [-> | Hr])].
    + apply replaces_direct, Hsplit. by left.
    + apply replaces_direct, Hsplit. right. by exists c'.
    + assert (Hce' := Hc'). rewrite <- Hprev in Hce'.
      apply last_compaction_elem in Hce' as (pos & ce' & Hpos%list_elem_of_lookup_2 & Hce').
      apply compaction_fields in Hce' as [Hcid Hcr].
      induction Hr as [id Hid | e id Hr IH He Hid].
      * eapply (replaces_nested _ _ ce'); [|apply elem_of_app; by left|by rewrite <- Hcr].
        apply replaces_direct, Hsplit. right. exists c'. by rewrite Hcid.
      * eapply replaces_nested; [exact IH | apply elem_of_app; by left | done].
Qed.

(** Facts on the groups of a projection. *)
Lemma projected_group_ids events proj pre groups :
  NoDup (ev_id <$> events) →
  fold_res project_step {| pj_groups := []; pj_assistant := None |} events = Ok proj →
  pj_groups proj = pre ++ groups →
  NoDup (group_ids groups) ∧ Forall (λ g, g_eventIds g ≠ []) groups ∧
  (∀ id, id ∈ group_ids groups → ∃ e, e ∈ events ∧ ev_id e = id ∧ compaction_of e = None).
Proof.
  intros Hnd Hproj Hg. apply project_ids in Hproj as [Hne Hp]. rewrite Hg in Hne, Hp.
  apply Forall_app in Hne as [_ Hne]. split_and!; [|done|].
  - assert (NoDup (group_ids (pre ++ groups))) as Hnd'.
    { rewrite Hp. eapply sublist_NoDup; [exact Hnd|]. apply fmap_sublist, sublist_filter. }
    rewrite group_ids_app in Hnd'. by apply NoDup_app in Hnd' as (_ & _ & ?).
  - intros id Hid. assert (id ∈ group_ids (pre ++ groups)) as Hin by (rewrite group_ids_app; apply elem_of_app; by right).
    rewrite Hp in Hin. apply list_elem_of_fmap in Hin as (e & -> & [Hm He]%list_elem_of_filter).
    exists e. split_and!; [done..|]. destruct (compaction_of e) as [c|] eqn:Hc; [|done].
    apply in_model_not_compaction in Hc. by rewrite Hc in Hm.
Qed.

Lemma group_ids_elem g (groups : list ContextGroup) id : g ∈ groups → id ∈ g_eventIds g → id ∈ group_ids groups.
Proof.
  intros Hg Hid. unfold group_ids. apply list_elem_of_join. exists (g_eventIds g). split; [done|].
  apply list_elem_of_fmap. by exists g.
Qed.

(** The id of the previous compaction is an event of the log, and is not in a group. *)
Lemma previous_event events p c' :
  pc_previous p = last_compaction events → pc_previous p = Some c' →
  ∃ e, e ∈ events ∧ ev_id e = cp_id c' ∧ compaction_of e = Some c'.
Proof.
  intros Hprev Hc'. rewrite Hprev in Hc'.
  apply last_compaction_elem in Hc' as (pos & ce' & Hpos%list_elem_of_lookup_2 & Hce').
  exists ce'. split_and!; [done| |done]. by apply compaction_fields in Hce' as [-> _].
Qed.

(** The closure of the appended compaction. *)
Lemma plan_closure events mid ce c p k (hidden : list string) :
  NoDup (ev_id <$> events ++ mid ++ [ce]) →
  pc_previous p = last_compaction events →
  (∀ id, id ∈ group_ids (pc_groups p) → ∃ e, e ∈ events ∧ ev_id e = id ∧ compaction_of e = None) →
  (∀ id, id ∈ hidden ↔ ∃ c', pc_previous p = Some c' ∧ replaces events c' id) →
  (∀ id, id ∈ hidden → id ∈ ev_id <$> events) →
  compaction_of ce = Some c → cp_replaced c = plan_replacedEventIds (plan_of p k) →
  ∃ h, replacementClosure (events ++ mid ++ [ce]) c = Ok h ∧
    ∀ id, id ∈ h ↔ id ∈ group_ids (take k (pc_groups p)) ∨
                   (∃ c', pc_previous p = Some c' ∧ id = cp_id c') ∨ id ∈ hidden.
Proof.
  intros Hnd Hprev Hgev Hhid Hold Hc Hrep.
  assert (Hgk : ∀ id, id ∈ group_ids (take k (pc_groups p)) → id ∈ group_ids (pc_groups p)).
  { intros id Hid. rewrite <- (take_drop k (pc_groups p)), group_ids_app. apply elem_of_app. by left. }
  assert (Hreach := replaces_plan events (mid ++ [ce]) ce c p k Hnd Hc (eq_sym Hprev) Hrep
    ltac:(intros id Hid; by apply Hgev, Hgk)
    ltac:(intros c' id Hc' Hr; apply Hold, Hhid; by exists c')).
  assert (Hpos : (events ++ mid ++ [ce]) !! (length (events ++ mid)) = Some ce)
    by (rewrite app_assoc; by apply list_lookup_middle).
  pose proof (closure_spec _ _ _ _ Hnd Hpos Hc) as Hcl.
  assert (Htake : take (length (events ++ mid)) (events ++ mid ++ [ce]) = events ++ mid)
    by (rewrite app_assoc; by rewrite take_app_length).
  rewrite Htake in Hcl. destruct (replacementClosure _ c) as [h|err].
  - exists h. split; [done|]. intros id. destruct (Hcl id) as [-> _]. rewrite Hreach, Hhid. naive_solver.
  - exfalso. destruct Hcl as (id & Hr & Hnot). apply Hnot. rewrite fmap_app. apply elem_of_app. left.
    apply Hreach in Hr as [Hg|(c' & Hc' & [->|Hr])].
    + destruct (Hgev id) as (e & He & <- & _); [by apply Hgk|]. apply list_elem_of_fmap. by exists e.
    + destruct (previous_event _ _ _ Hprev Hc') as (e & He & <- & _). apply list_elem_of_fmap. by exists e.
    + apply Hold, Hhid. by exists c'.
Qed.

(** What was visible and not replaced stays visible. *)
Lemma kept_not_hidden events p k (hidden h : list string) :
  NoDup (ev_id <$> events) → NoDup (group_ids (pc_groups p)) →
  pc_previous p = last_compaction events →
  (∀ id, id ∈ group_ids (pc_groups p) → ∃ e, e ∈ events ∧ ev_id e = id ∧ compaction_of e = None) →
  Forall (none_hidden hidden) (pc_groups p) →
  (∀ id, id ∈ h → id ∈ group_ids (take k (pc_groups p)) ∨
                  (∃ c', pc_previous p = Some c' ∧ id = cp_id c') ∨ id ∈ hidden) →
  Forall (none_hidden h) (drop k (pc_groups p)).
Proof.
  intros Hnd Hgnd Hprev Hgev Hpost Hh. apply Forall_forall. intros g Hg. apply Forall_forall. intros id Hid Hin.
  assert (Hgp : g ∈ pc_groups p) by (rewrite <- (take_drop k (pc_groups p)); apply elem_of_app; by right).
  apply Hh in Hin as [Htk|[(c' & Hc' & ->)|Hr]].
  - rewrite <- (take_drop k (pc_groups p)), group_ids_app in Hgnd. apply NoDup_app in Hgnd as (_ & Hdis & _).
    apply (Hdis id Htk). by eapply group_ids_elem.
  - destruct (previous_event _ _ _ Hprev Hc') as (e & He & Hide & Hce).
    destruct (Hgev (cp_id c')) as (e' & He' & Hide' & Hno); [by eapply group_ids_elem|].
    assert (e = e') as ->; [|congruence].
    apply list_elem_of_lookup in He as [i Hi], He' as [j Hj].
    assert (i = j) as ->; [|congruence]. apply (NoDup_lookup _ _ _ (cp_id c') Hnd); rewrite list_lookup_fmap;
      [by rewrite Hi; simpl; f_equal | by rewrite Hj; simpl; f_equal].
  - rewrite Forall_forall in Hpost. specialize (Hpost g Hgp). unfold none_hidden in Hpost.
    rewrite Forall_forall in Hpost. by apply (Hpost id Hid).
Qed.

Lemma compacted_projection events mid ce c p k :
  NoDup (ev_id <$> events ++ mid ++ [ce]) → Forall (λ e, inert e = true) mid →
  projectContext events = Ok p → 0 < k → k < length (pc_groups p) →
  compaction_of ce = Some c → cp_replaced c = plan_replacedEventIds (plan_of p k) →
  projectContext (events ++ mid ++ [ce]) = Ok {| pc_previous := Some c; pc_groups := drop k (pc_groups p) |}.
Proof.
  intros Hnd Hmid Hp Hk Hlen Hc Hrep. pose proof Hnd as Hnd1. rewrite fmap_app in Hnd1.
  apply NoDup_app in Hnd1 as (Hnd1 & _ & _).
  destruct (projectContext_inv _ _ Hnd1 Hp) as (hidden & proj & pre & Hproj & Hgroups & Hpre & Hpost & Hprev & Hhid & Hold).
  destruct (projected_group_ids _ _ _ _ Hnd1 Hproj Hgroups) as (Hgnd & Hgne & Hgev).
  destruct (plan_closure _ _ _ _ _ _ _ Hnd Hprev Hgev Hhid Hold Hc Hrep) as (h & Hh & Hcl).
  unfold projectContext. rewrite app_assoc, (last_compaction_snoc _ _ _ Hc), <- app_assoc, Hh. cbn [rbind].
  rewrite fold_res_app, Hproj. cbn [rbind]. rewrite fold_res_app, (project_inert mid) by done. cbn [rbind fold_res].
  assert (Hstep : project_step proj ce = Ok {| pj_groups := pj_groups proj; pj_assistant := None |}).
  { unfold compaction_of in Hc. unfold project_step. by destruct (ev_payload ce). }
  rewrite Hstep. cbn [rbind pj_groups]. rewrite Hgroups, <- (take_drop k (pc_groups p)), app_assoc.
  rewrite hide_groups_prefix; cbn [rbind orb].
  - rewrite bool_decide_false; [by rewrite take_drop|]. intros [_ Hnil]%app_eq_nil.
    destruct (pc_groups p) as [|g gs]; simpl in Hlen; [lia|]. by destruct k; [lia|].
  - apply project_ids in Hproj as [Hne _]. rewrite Hgroups in Hne. apply Forall_app in Hne as [Hne _].
    apply Forall_app. split; [done|]. by apply Forall_take.
  - apply Forall_app. split.
    + eapply Forall_impl; [exact Hpre|]. intros g Hg. eapply Forall_impl; [exact Hg|]. intros id Hid.
      apply Hcl. auto.
    + apply Forall_forall. intros g Hg. apply Forall_forall. intros id Hid. apply Hcl. left.
      by eapply group_ids_elem.
  - eapply kept_not_hidden; [done..|]. intros id. apply Hcl.
Qed.
End Plan.

(** ** What is kept *)

Definition group_tokens (groups : list ContextGroup) : Z :=
  sumZ (λ g, estimateModelMessageTokens (g_message g)) groups.

Section Kept.
Lemma group_tokens_app g1 g2 : group_tokens (g1 ++ g2) = (group_tokens g1 + group_tokens g2)%Z.
Proof. apply sumZ_app. Qed.

Lemma crossed_at_spec keep (front back : list ContextGroup) :
  (group_tokens back < keep)%Z →
  match crossed_at keep (group_tokens back) (rev front) with
  | Some i => i < length front ∧
      (group_tokens (drop (S i) (front ++ back)) < keep <= group_tokens (drop i (front ++ back)))%Z
  | None => (group_tokens (front ++ back) < keep)%Z
  end.
Proof.
  revert back. induction front as [|g front IH] using rev_ind; intros back Hb; [done|].
  rewrite rev_app_distr. cbn [rev app crossed_at]. rewrite (Z.add_comm (group_tokens back)).
  change (estimateModelMessageTokens (g_message g) + group_tokens back)%Z with (group_tokens (g :: back)).
  rewrite <- app_assoc. cbn [app]. destruct (keep <=? group_tokens (g :: back))%Z eqn:E.
  - rewrite length_rev, length_app. cbn [length]. split; [lia|].
    rewrite drop_app_length. rewrite (cons_middle g front back), app_assoc.
    replace (S (length front)) with (length (front ++ [g])) by (rewrite length_app; simpl; lia).
    rewrite drop_app_length. lia.
  - specialize (IH (g :: back) ltac:(lia)). destruct (crossed_at _ _ _); [|done].
    rewrite length_app. cbn [length]. intuition lia.
Qed.

Lemma first_kept_spec i groups k :
  first_kept i groups = Some k →
  i ≤ k ∧ (∃ g, groups !! (k - i) = Some g ∧ starts_turn (g_message g) = true) ∧
  ∀ j g, j < k - i → groups !! j = Some g → starts_turn (g_message g) = false.
Proof.
  revert i. induction groups as [|g groups IH]; intros i; simpl; [done|].
  destruct (starts_turn (g_message g)) eqn:Hg.
  - intros [= <-]. rewrite Nat.sub_diag. split_and!; [lia|by exists g|lia].
  - intros (Hle & (g' & Hg' & Hs) & Hno)%IH. split_and!; [lia| |].
    + exists g'. by replace (k - i) with (S (k - S i)) by lia.
    + intros [|j] g0 Hj Hg0; simpl in Hg0; [congruence|]. apply (Hno j); [lia|done].
Qed.

Lemma kept_index_spec keep groups k :
  (1 <= keep)%Z → kept_index keep groups = Some k →
  0 < k ∧ k < length groups ∧
  (∃ g, groups !! k = Some g ∧ starts_turn (g_message g) = true) ∧
  ∃ crossed, crossed ≤ k ∧
    (group_tokens (drop (S crossed) groups) < keep <= group_tokens (drop crossed groups))%Z ∧
    ∀ j g, crossed ≤ j < k → groups !! j = Some g → starts_turn (g_message g) = false.
Proof.
  intros Hkeep. unfold kept_index. pose proof (crossed_at_spec keep groups []) as Hc.
  rewrite app_nil_r in Hc. change (group_tokens []) with 0%Z in Hc. specialize (Hc ltac:(lia)).
  destruct (crossed_at keep 0 (rev groups)) as [crossed|]; [|done]. destruct Hc as [Hlt Htok].
  destruct (first_kept crossed (drop crossed groups)) as [k'|] eqn:Hk; [|done].
  destruct k' as [|k']; [done|]. intros [= <-].
  apply first_kept_spec in Hk as (Hle & (g & Hg & Hs) & Hno). rewrite lookup_drop in Hg.
  replace (crossed + (S k' - crossed)) with (S k') in Hg by lia.
  split_and!; [lia | by apply lookup_lt_Some in Hg | by exists g |].
  exists crossed. split_and!; [done|lia|lia|]. intros j g' [Hj1 Hj2] Hg'. apply (Hno (j - crossed)); [lia|].
  rewrite lookup_drop. by replace (crossed + (j - crossed)) with j by lia.
Qed.
End Kept.

(** ** Properties *)

Definition sample_id (n : nat) : string := "e" +:+ pretty n.
Definition sample_at (n : nat) (p : payload) : event :=
  {| ev_id := sample_id n; ev_sessionId := "s"; ev_operationId := None;
     ev_parentId := match n with 0 => None | S m => Some (sample_id m) end;
     ev_timestamp := Z.of_nat n; ev_payload := p |}.
Definition sample_usage : Usage :=
  {| usage_inputTokens := 1; usage_outputTokens := 1; usage_cacheReadTokens := 0;
     usage_cacheWriteTokens := 0; usage_reasoningTokens := None; usage_costUsd := None |}.

(** A question, a tool call with its result, an answer, another question. *)
Definition sample_history : list event :=
  [sample_at 0 (SessionCreated "/w" None None None);
   sample_at 1 (UserMessage [CText "please list the files"]);
   sample_at 2 (AssistantMessage [] SToolUse None None);
   sample_at 3 (ToolCall "c1" "shell" [("command", JStr "ls")]);
   sample_at 4 (ToolResult "c1" "shell" [CText "a b"] false None);
   sample_at 5 (AssistantMessage [CText "there are two files"] SStop None None);
   sample_at 6 (UserMessage [CText "thank you"])].

Definition sample_plan : CompactionPlan :=
  match prepareCompaction sample_history (NInt 5) with Ok (Some p) => p | _ => plan_of {| pc_previous := None; pc_groups := [] |} 0 end.
Definition sample_compacted : event :=
  sample_at 7 (ContextCompacted "listed the files" (plan_replacedEventIds sample_plan) None).

(** the work list of [replacementClosure] always empties within its fuel; what
    it returns is the least set that holds the replaced ids and the ids replaced
    by compactions in it, all of them events before the compaction; and it throws
    exactly when that set reaches outside the events before the compaction. *)
Theorem replacementClosure_least events pos ce c :
  NoDup (ev_id <$> events) → events !! pos = Some ce → compaction_of ce = Some c →
  (∃ r, closure_loop (closure_fuel events (rev (cp_replaced c))) events (cp_id c)
          (index_bound events (cp_id c)) [] (rev (cp_replaced c)) = Some r) ∧
  match replacementClosure events c with
  | Ok h => ∀ id, (id ∈ h ↔ replaces events c id) ∧ (id ∈ h → id ∈ ev_id <$> take pos events)
  | Err _ => ∃ id, replaces events c id ∧ id ∉ ev_id <$> take pos events
  end.
Proof. intros. split; [apply closure_fuel_enough | by eapply closure_spec]. Qed.

Lemma replacementClosure_least_witness :
  (∃ r, closure_loop (closure_fuel [sample_compacted] (rev ["x"])) [sample_compacted] "e7"
          (index_bound [sample_compacted] "e7") [] (rev ["x"]) = Some r) ∧ True.
Proof.
  pose (ce := sample_at 7 (ContextCompacted "s" ["x"] None)).
  destruct (replacementClosure_least [ce] 0 ce {| cp_id := "e7"; cp_summary := "s"; cp_replaced := ["x"] |})
    as [Hr _]; [by repeat constructor; apply not_elem_of_nil | reflexivity | reflexivity |].
  split; [vm_compute; by eexists | done].
Defined.

(** C3: compaction loses nothing but what it planned to replace.  When a plan is
    made from a lineage and its [context.compacted] event is appended, possibly
    after events that are not model-visible, the new lineage projects without
    error to the summary followed by exactly the messages the plan did not take:
    the planned and the kept messages together are the messages of the old
    lineage. *)
Theorem compaction_preserves_context events mid ce keep plan p usage summary :
  NoDup (ev_id <$> events ++ mid ++ [ce]) → Forall (λ e, inert e = true) mid →
  prepareCompaction events keep = Ok (Some plan) → projectContext events = Ok p →
  ev_payload ce = ContextCompacted summary (plan_replacedEventIds plan) usage →
  ∃ k, 0 < k < length (pc_groups p) ∧
    plan_messagesToSummarize plan = g_message <$> take k (pc_groups p) ∧
    messagesFromCompactedLineage (events ++ mid ++ [ce]) =
      Ok (summary_message {| cp_id := ev_id ce; cp_summary := summary;
                             cp_replaced := plan_replacedEventIds plan |}
          :: filter (λ m, Is_true (shown m)) (g_message <$> drop k (pc_groups p))).
Proof.
  intros Hnd Hmid Hplan Hp Hce. unfold prepareCompaction in Hplan.
  apply bind_Ok in Hplan as ([] & Hkeep & Hplan). destruct (ends_compacted events); [done|]. rewrite Hp in Hplan.
  destruct (kept_index (int_of keep) (pc_groups p)) as [k|] eqn:Hk; [|done]. injection Hplan as <-.
  apply require_Ok in Hkeep. apply andb_true_iff in Hkeep as [_ Hkeep].
  apply kept_index_spec in Hk as (Hk0 & Hlen & _); [|lia]. exists k. split_and!; [done..|].
  unfold messagesFromCompactedLineage.
  erewrite (compacted_projection events mid ce _ p k) by (done || by (unfold compaction_of; rewrite Hce)).
  done.
Qed.

Lemma compaction_preserves_context_witness :
  ∃ k, 0 < k < length (pc_groups (match projectContext sample_history with Ok p => p
                                  | Err _ => {| pc_previous := None; pc_groups := [] |} end)) ∧ True.
Proof.
  destruct (compaction_preserves_context sample_history [] sample_compacted (NInt 5) sample_plan
    (match projectContext sample_history with Ok p => p | Err _ => {| pc_previous := None; pc_groups := [] |} end)
    None "listed the files") as (k & Hk & _).
  - apply (bool_decide_eq_true_1 _). vm_compute. reflexivity.
  - constructor.
  - vm_compute. reflexivity.
  - vm_compute. reflexivity.
  - vm_compute. reflexivity.
  - by exists k.
Defined.

(** the plan keeps the recent context it was asked to keep and cuts at the
    start of a turn: the groups from some point on hold at least
    [keepRecentTokens] estimated tokens and those after it less; the cut is the
    first user or assistant message from that point on, and never the start. *)
Theorem prepareCompaction_keeps_recent events keep plan p :
  prepareCompaction events keep = Ok (Some plan) → projectContext events = Ok p →
  ∃ k crossed, crossed ≤ k ∧ 0 < k ∧ plan = plan_of p k ∧ plan_replacedEventIds plan ≠ [] ∧
    (group_tokens (drop (S crossed) (pc_groups p)) < int_of keep <= group_tokens (drop crossed (pc_groups p)))%Z ∧
    (∃ g, pc_groups p !! k = Some g ∧ starts_turn (g_message g) = true) ∧
    ∀ j g, crossed ≤ j < k → pc_groups p !! j = Some g → starts_turn (g_message g) = false.
Proof.
  intros Hplan Hp. unfold prepareCompaction in Hplan.
  apply bind_Ok in Hplan as ([] & Hkeep & Hplan). destruct (ends_compacted events); [done|]. rewrite Hp in Hplan.
  destruct (kept_index (int_of keep) (pc_groups p)) as [k|] eqn:Hk; [|done]. injection Hplan as <-.
  apply require_Ok in Hkeep. apply andb_true_iff in Hkeep as [_ Hkeep].
  apply kept_index_spec in Hk as (Hk0 & Hlen & Hg & crossed & Hle & Htok & Hno); [|lia].
  exists k, crossed. split_and!; try done; [|lia..].
  unfold projectContext in Hp. apply bind_Ok in Hp as (hidden & _ & Hp). apply bind_Ok in Hp as (proj & Hproj & Hp).
  apply bind_Ok in Hp as ([vis f] & Hvis & Hp). apply bind_Ok in Hp as (_ & _ & [= <-]). simpl in *.
  apply project_ids in Hproj as [Hne _]. apply hide_groups_inv in Hvis as (pre & Hgs & _). rewrite Hgs in Hne.
  apply Forall_app in Hne as [_ Hne]. intros [_ Hnil]%app_eq_nil. destruct vis as [|g vis]; [simpl in Hlen; lia|].
  destruct k; [lia|]. apply Forall_cons in Hne as [Hne _]. simpl in Hnil. by apply app_eq_nil in Hnil as [? _].
Qed.

Lemma prepareCompaction_keeps_recent_witness :
  plan_replacedEventIds sample_plan ≠ [].
Proof.
  destruct (prepareCompaction_keeps_recent sample_history (NInt 5) sample_plan
    (match projectContext sample_history with Ok p => p | Err _ => {| pc_previous := None; pc_groups := [] |} end))
    as (k & crossed & _ & _ & _ & H & _); [vm_compute; reflexivity | vm_compute; reflexivity | exact H].
Defined.
