(* ===== verification/MigrationContext.v ===== *)
(** What a compaction is after its session was migrated: the ids it replaces are not moved
    with the events. *)
From stdpp Require Import base list sets strings pretty gmap.
From Stdlib Require Import ZArith Lia Ascii.
From S2P Require Import Prelude Text JsValue Json JsonText Utf8 Envelope Types Events EventSchema JsMap EventLog SessionTree Replay Migration MigrationFacts ModelStream Compaction.

Section Context.
Context (digest : string → list Z) (tgt : string).

Lemma moved_compaction blobs e e' : migrated digest tgt blobs e e' →
  compaction_of e' = (λ c, {| cp_id := ev_id e'; cp_summary := cp_summary c; cp_replaced := cp_replaced c |}) <$> compaction_of e.
Proof.
  intros [_ _ _ _ _ [Hp|(items & items' & Hi & Hp & _)]]; unfold compaction_of; rewrite Hp; [by destruct (ev_payload e)|].
  by destruct (ev_payload e).
Qed.

Lemma last_moved blobs l l' : Forall2 (migrated digest tgt blobs) l l' →
  match last_compaction l with
  | Some c => ∃ c', last_compaction l' = Some c' ∧ cp_replaced c' = cp_replaced c
  | None => last_compaction l' = None
  end.
Proof.
  unfold last_compaction. induction l as [|e l IH] using rev_ind in l' |- *; intros H.
  - apply Forall2_nil_inv_l in H as ->. done.
  - apply Forall2_app_inv_l in H as (l1 & l2 & H1 & H2 & ->). apply Forall2_cons_inv_l in H2 as (e' & l3 & He & H3 & ->). apply Forall2_nil_inv_l in H3 as ->.
    rewrite !omap_app. cbn. rewrite (moved_compaction _ _ _ He). destruct (compaction_of e) as [c|]; cbn; [|by rewrite !app_nil_r; apply IH].
    rewrite !last_snoc. eauto.
Qed.

Lemma hide_nothing cid visible found groups r : hide_groups [] cid visible found groups = Ok r → r.2 = found.
Proof.
  induction groups as [|g groups IH] in visible |- *; cbn; [by intros [= <-]|].
  assert (filter (λ id, id ∈ []) (g_eventIds g) = []) as -> by (induction (g_eventIds g) as [|id l IHl]; [done|]; rewrite filter_cons_False by apply not_elem_of_nil; done).
  cbn. rewrite !bool_decide_false by lia. apply IH.
Qed.

(** a session that was compacted and then migrated has no context: the migrated
    compaction names events of the old session, so that, whatever the log, the projection of the
    new one throws. *)
Theorem migrated_compaction_has_no_context blobs l l' c :
  Forall2 (migrated digest tgt blobs) l l' → last_compaction l = Some c →
  (∀ x y, x ∈ cp_replaced c → y ∈ ev_id <$> l → x ≠ new_id digest tgt y) →
  ∃ err, messagesFromCompactedLineage l' = Err err.
Proof.
  intros Hf Hc Hfresh. pose proof (last_moved _ _ _ Hf) as Hl. rewrite Hc in Hl. destruct Hl as (c' & Hc' & Hr). rewrite <- Hr in Hfresh.
  unfold messagesFromCompactedLineage, projectContext. rewrite Hc'. destruct (cp_replaced c') as [|id ids _] eqn:Hids using rev_ind.
  - assert (replacementClosure l' c' = Ok []) as -> by (unfold replacementClosure; rewrite Hids; by destruct (closure_fuel _ _)). cbn.
    destruct (fold_res _ _ _) as [p|]; [|by eexists]. cbn. destruct (hide_groups _ _ _ _ _) as [[vis f]|] eqn:Hh; [|by eexists].
    apply hide_nothing in Hh. cbn in Hh. subst f. cbn. by eexists.
  - assert (∃ err, replacementClosure l' c' = Err err) as [err ->]; [|by eexists].
    unfold replacementClosure. rewrite Hids, rev_app_distr. cbn [rev app]. unfold closure_fuel. cbn [length plus closure_loop].
    rewrite bool_decide_false by apply not_elem_of_nil. rewrite (proj2 (by_id_None _ _ _)); [by eexists|]. rewrite (migrated_ids _ _ _ _ _ Hf).
    intros (y & Hy & Hin)%list_elem_of_fmap. apply (Hfresh id y); [set_solver|done|done].
Qed.
End Context.

Lemma migrated_compaction_has_no_context_witness :
  is_ok (messagesFromCompactedLineage old_log) = true ∧ ∃ err, messagesFromCompactedLineage migrated_old.2 = Err err.
Proof.
  split; [vm_compute; reflexivity|].
  assert (Hc : last_compaction old_log = Some {| cp_id := old_id 6; cp_summary := "asked for the files"; cp_replaced := [old_id 1; old_id 2; old_id 3; old_id 4] |}) by (vm_compute; reflexivity).
  refine (migrated_compaction_has_no_context sample_digest new_session migrated_old.1.2 old_log migrated_old.2 _ _ Hc _).
  - exact old_migrated.
  - intros x y Hx Hy He. 
    assert (Hn : forallb (λ x, forallb (λ y, negb (bool_decide (x = new_id sample_digest new_session y))) (ev_id <$> old_log)) [old_id 1; old_id 2; old_id 3; old_id 4] = true)
      by (vm_compute; reflexivity).
    rewrite forallb_forall in Hn. specialize (Hn x (proj1 (list_elem_of_In _ _) Hx)). rewrite forallb_forall in Hn.
    specialize (Hn y (proj1 (list_elem_of_In _ _) Hy)). by rewrite bool_decide_true in Hn.
Defined.
