(* ===== verification/ProviderTypes.v ===== *)
(** ai/src/model.ts: what a provider says of a model, and the requests that are prepared for
    one. A union of records is one record with optional fields where its members share them. *)
From stdpp Require Import base list sets strings.
From Stdlib Require Import ZArith Lia.
From S2P Require Import Prelude Text JsValue Types ModelStream.

(** ** Models *)

Record ModelCapabilities := { mcap_toolUse : bool; mcap_structuredOutput : bool; mcap_imageInput : bool }.

(** [CacheRetention] *)
Inductive CacheRetention := RetentionNone | RetentionShort | RetentionLong.
#[export] Instance CacheRetention_eq_dec : EqDecision CacheRetention.
Proof. solve_decision. Defined.

Record ModelCachePolicy := {
  mcp_supported : bool;
  mcp_defaultRetention : CacheRetention;
  mcp_supportedRetentions : list CacheRetention
}.

(** [ModelCompatibility]: its members by [dialect]; a legacy record has none. *)
Record ModelCompatibility := {
  cm_dialect : option string;
  cm_supportsStrictTools : bool;
  cm_supportsGrammarTools : bool;
  cm_thinkingTokenBudgetField : option string;
  cm_forceAdaptiveThinking : bool;
  cm_supportsThinkingSignatures : bool;
  cm_cacheControlFormat : option string;
  cm_supportsPromptCacheMarkers : bool;
  cm_supportsCacheControlOnTools : bool;
  cm_supportsTemperature : bool;
  cm_supportsLongCacheRetention : bool
}.

Inductive SamplingOptionName :=
| OTemperature | OTopP | OTopK | OMinP | OFrequencyPenalty | OPresencePenalty | ORepetitionPenalty | OSeed.
#[export] Instance SamplingOptionName_eq_dec : EqDecision SamplingOptionName.
Proof. solve_decision. Defined.

Record ModelSamplingPolicy := { msp_supported : list SamplingOptionName; msp_customFields : list string }.

(** The fields of [ModelInfo] that requests depend on; limits are numbers of the language. *)
Record ModelInfo := {
  mi_providerId : string;
  mi_modelId : string;
  mi_apiDialect : string;
  mi_capabilities : ModelCapabilities;
  mi_thinking : ModelThinkingSupport;
  mi_contextWindow : number;
  mi_maxOutputTokens : number;
  mi_cache : option ModelCachePolicy;
  mi_sampling : option ModelSamplingPolicy;
  mi_compatibility : option ModelCompatibility
}.

(** ** Messages of a request *)

Record ProviderModelIdentity := { pmi_providerId : string; pmi_apiDialect : string; pmi_modelId : string }.
#[export] Instance ProviderModelIdentity_eq_dec : EqDecision ProviderModelIdentity.
Proof. solve_decision. Defined.

Record ProviderSignature := { psg_identity : ProviderModelIdentity; psg_value : string }.
#[export] Instance ProviderSignature_eq_dec : EqDecision ProviderSignature.
Proof. solve_decision. Defined.

Record ProviderContinuationMetadata := {
  pcm_identity : ProviderModelIdentity;
  pcm_responseId : option string;
  pcm_itemId : option string;
  pcm_namespace : option string
}.
#[export] Instance ProviderContinuationMetadata_eq_dec : EqDecision ProviderContinuationMetadata.
Proof. solve_decision. Defined.

Inductive RequestAssistantContent :=
| RText (text : string) (signature : option ProviderSignature) (continuation : option ProviderContinuationMetadata)
| RThinking (text : string) (signature : option ProviderSignature) (redacted : option bool)
| RBlob (blob : BlobReference).
#[export] Instance RequestAssistantContent_eq_dec : EqDecision RequestAssistantContent.
Proof. solve_decision. Defined.

Record RequestToolCall := {
  rtc_callId : string;
  rtc_name : string;
  rtc_input : fields;
  rtc_signature : option ProviderSignature;
  rtc_continuation : option ProviderContinuationMetadata
}.

Inductive RequestModelMessage :=
| RUser (items : list content)
| RAssistant (items : list RequestAssistantContent) (toolCalls : option (list RequestToolCall))
    (origin : option ProviderModelIdentity) (continuation : option ProviderContinuationMetadata)
| RTool (callId name : string) (items : list content) (isError : bool).

(** A message of the kernel as it is: without what a provider attached to it. *)
Definition plain_content (c : content) : RequestAssistantContent :=
  match c with CText t => RText t None None | CThinking t => RThinking t None None | CBlob b => RBlob b end.
Definition plain_call (c : ToolCallRequest) : RequestToolCall :=
  {| rtc_callId := tcr_callId c; rtc_name := tcr_name c; rtc_input := tcr_input c; rtc_signature := None; rtc_continuation := None |}.
Definition plain_message (m : ModelMessage) : RequestModelMessage :=
  match m with
  | MUser items => RUser items
  | MAssistant items calls => RAssistant (plain_content <$> items) (Some (plain_call <$> calls)) None None
  | MTool callId name items isError => RTool callId name items isError
  end.

(** ** Requests *)

Inductive ToolConstraint :=
| JsonSchemaConstraint (require_ : bool)
| GrammarConstraint (lark regex : option string).

Record RequestToolDeclaration := {
  rtd_name : string;
  rtd_description : string;
  rtd_inputSchema : fields;
  rtd_constraint : option ToolConstraint
}.

(** [ThinkingBudgets] *)
Record ThinkingBudgets := { tb_minimal : option number; tb_low : option number; tb_medium : option number; tb_high : option number }.

Record SamplingOptions := {
  so_temperature : option number;
  so_topP : option number;
  so_topK : option number;
  so_minP : option number;
  so_frequencyPenalty : option number;
  so_presencePenalty : option number;
  so_repetitionPenalty : option number;
  so_seed : option number;
  so_custom : option fields
}.

Record CacheOptions := { co_retention : option CacheRetention; co_sessionId : option string }.

Record ModelSafetySetting := { mss_category : string; mss_threshold : string }.

Inductive ToolChoice := ChoiceAuto | ChoiceRequired | ChoiceNone.
#[export] Instance ToolChoice_eq_dec : EqDecision ToolChoice.
Proof. solve_decision. Defined.
