(* ===== verification/Thinking.v ===== *)
(** ai/src/thinking.ts and ai/src/request-configuration.ts: the thinking level and the token
    budgets of a request, and how a request is fitted into the limits of its model. *)
From stdpp Require Import base list sets strings.
From Stdlib Require Import ZArith Lia.
From S2P Require Import Prelude Text JsValue Types ModelRequest ModelStream ProviderTypes.

(** What a [TypeError] says. *)
Record type_error := { te_message : string }.
Definition type_fail (message : string) : type_error := {| te_message := message |}.

(** ** Clamping *)

Record ThinkingClamp := { tc_requested : ThinkingLevel; tc_effective : ThinkingLevel; tc_clamped : bool }.

(** [THINKING_LEVELS.indexOf(level)] *)
Definition level_index (level : ThinkingLevel) : nat :=
  match level with TOff => 0 | TMinimal => 1 | TLow => 2 | TMedium => 3 | THigh => 4 | TXhigh => 5 | TMax => 6 end.

Definition clampThinkingLevel (model : ModelThinkingSupport) (requested : ThinkingLevel) : ThinkingClamp :=
  let supported := supportedThinkingLevels model in
  let clamp effective := {| tc_requested := requested; tc_effective := effective; tc_clamped := true |} in
  if bool_decide (requested ∈ supported) then {| tc_requested := requested; tc_effective := requested; tc_clamped := false |}
  else
    match list_find (λ l, l ∈ supported) (drop (S (level_index requested)) THINKING_LEVELS) with
    | Some (_, candidate) => clamp candidate
    | None =>
        match list_find (λ l, l ∈ supported) (rev (take (level_index requested) THINKING_LEVELS)) with
        | Some (_, candidate) => clamp candidate
        | None => clamp (default TOff (head supported))
        end
    end.

(** ** Budgets *)

Definition MIN_ANSWER_TOKENS : Z := 1024.
Definition DEFAULT_MINIMAL : number := NInt 1024.
Definition DEFAULT_LOW : number := NInt 2048.
Definition DEFAULT_MEDIUM : number := NInt 8192.
Definition DEFAULT_HIGH : number := NInt 16384.

Definition no_budgets : ThinkingBudgets := {| tb_minimal := None; tb_low := None; tb_medium := None; tb_high := None |}.

Definition budget_valid (n : number) : bool := is_safe_integer n && negb (is_negative n).

Definition thinkingBudgetForLevel (level : ThinkingLevel) (budgets : ThinkingBudgets) : result type_error Z :=
  _ ← refuse (bool_decide (level = TOff)) (type_fail "Invalid budgeted thinking level");
  let minimal := default DEFAULT_MINIMAL (tb_minimal budgets) in
  let low := default DEFAULT_LOW (tb_low budgets) in
  let medium := default DEFAULT_MEDIUM (tb_medium budgets) in
  let high := default DEFAULT_HIGH (tb_high budgets) in
  _ ← each (λ n, require (budget_valid n) (type_fail "Thinking budgets must be nonnegative safe integers for supported levels"))
        [minimal; low; medium; high];
  Ok (int_of (match level with TMinimal => minimal | TLow => low | TMedium => medium | _ => high end)).

Record FittedThinkingBudget := { ftb_maxTokens : Z; ftb_thinkingBudget : Z }.

Definition positive_limit (n : number) : bool := is_safe_integer n && (1 <=? int_of n)%Z.

Definition fitThinkingBudget (level : ThinkingLevel) (modelMaxTokens : number) (requestedMaxTokens : option number)
    (budgets : ThinkingBudgets) : result type_error FittedThinkingBudget :=
  _ ← require (positive_limit modelMaxTokens && match requestedMaxTokens with Some n => positive_limit n | None => true end)
        (type_fail "Output limits must be positive safe integers");
  let model := int_of modelMaxTokens in
  match level with
  | TOff => Ok {| ftb_maxTokens := Z.min (match requestedMaxTokens with Some n => int_of n | None => model end) model; ftb_thinkingBudget := 0 |}
  | _ =>
      _ ← refuse (model <? MIN_ANSWER_TOKENS)%Z (type_fail "Thinking requires at least 1024 output tokens to preserve answer room");
      thinkingBudget ← thinkingBudgetForLevel level budgets;
      let maxTokens := match requestedMaxTokens with Some n => Z.min (int_of n + thinkingBudget) model | None => model end in
      Ok {| ftb_maxTokens := maxTokens; ftb_thinkingBudget := Z.min thinkingBudget (Z.max 0 (maxTokens - MIN_ANSWER_TOKENS)) |}
  end.

(** ** Fitting a request *)

Definition CONTEXT_RESERVE_TOKENS : Z := 4096.
Definition DEFAULT_MODEL_REQUEST_SETTINGS : ModelRequestSettings := {| mrs_maxOutputTokens := None; mrs_httpIdleTimeoutMs := 300000 |}.

Inductive fit_error := FitSettings (e : Envelope.ProtocolValidationError) | FitType (e : type_error).

Definition number_value (n : option number) (absent : jsval) : jsval := match n with Some n => JNum n | None => absent end.

(** The input estimate is the one of the request, or [estimated] of its messages. *)
Definition fitModelRequest (model : ModelInfo) (maxOutputTokens httpIdleTimeoutMs estimatedInputTokens : option number) (estimated : Z) :
    result fit_error ModelRequestConfiguration :=
  settings ← match parseModelRequestSettings
                     (JObj [("maxOutputTokens", number_value maxOutputTokens JNull);
                            ("httpIdleTimeoutMs", number_value httpIdleTimeoutMs (JInt (mrs_httpIdleTimeoutMs DEFAULT_MODEL_REQUEST_SETTINGS)))])
                     "requestSettings" with
             | Ok s => Ok s | Err e => Err (FitSettings e) end;
  _ ← require (positive_limit (mi_contextWindow model)) (FitType (type_fail "Model contextWindow must be a positive safe integer"));
  _ ← require (positive_limit (mi_maxOutputTokens model)) (FitType (type_fail "Model maxOutputTokens must be a positive safe integer"));
  let estimate := default (NInt estimated) estimatedInputTokens in
  _ ← require (budget_valid estimate) (FitType (type_fail "estimatedInputTokens must be a nonnegative safe integer"));
  let window := int_of (mi_contextWindow model) in
  let limit := int_of (mi_maxOutputTokens model) in
  Ok {| mrc_maxOutputTokens := Z.min (Z.min (default limit (mrs_maxOutputTokens settings)) limit)
                                     (Z.max 1 (window - int_of estimate - CONTEXT_RESERVE_TOKENS));
        mrc_httpIdleTimeoutMs := mrs_httpIdleTimeoutMs settings;
        mrc_estimatedInputTokens := int_of estimate;
        mrc_contextWindow := window;
        mrc_contextReserveTokens := CONTEXT_RESERVE_TOKENS;
        mrc_modelMaxOutputTokens := limit |}.

(** ** Facts *)

Lemma level_index_lookup l : THINKING_LEVELS !! level_index l = Some l.
Proof. by destruct l. Qed.
Lemma levels_lookup l i : THINKING_LEVELS !! i = Some l → i = level_index l.
Proof. destruct l; do 7 (destruct i as [|i]; [by intros [=]|]); by destruct i. Qed.
Lemma supported_levels model l : l ∈ supportedThinkingLevels model → l ∈ THINKING_LEVELS.
Proof. intros _. by destruct l; vm_compute; repeat constructor. Qed.

(** clamping moves a level the model does not support to the nearest stronger level it
    does, or else to the nearest weaker one, and says that it did; a level that is supported
    stays. *)
Theorem clamp_is_nearest model requested : supportedThinkingLevels model ≠ [] →
  let c := clampThinkingLevel model requested in
  let supported l := l ∈ supportedThinkingLevels model in
  tc_requested c = requested ∧ supported (tc_effective c) ∧ (tc_clamped c = false ↔ tc_effective c = requested) ∧
  (∀ l, supported l → level_index requested <= level_index l → level_index requested <= level_index (tc_effective c) <= level_index l) ∧
  (∀ l, supported l → level_index (tc_effective c) < level_index requested → level_index l <= level_index (tc_effective c)).
Proof.
  intros Hne. unfold clampThinkingLevel. case_bool_decide as Hreq; [cbn; split_and!; try done; lia|].
  destruct (list_find _ (drop _ _)) as [[i c]|] eqn:Hup.
  - apply list_find_Some in Hup as (Hi & Hc & Hbefore). rewrite lookup_drop in Hi. pose proof (levels_lookup _ _ Hi) as Hidx. cbn.
    split_and!; try done; [split; [done|intros ->; done]| |lia]. intros l Hl Hle. split; [lia|].
    destruct (decide (level_index l < level_index c)) as [Hlt|]; [|lia]. exfalso.
    destruct (decide (l = requested)) as [->|Hne']; [done|]. assert (level_index l ≠ level_index requested) by (intros E; apply Hne'; by destruct l, requested).
    apply (Hbefore (level_index l - S (level_index requested)) l); [|lia|done]. rewrite lookup_drop.
    replace (S (level_index requested) + _) with (level_index l) by lia. apply level_index_lookup.
  - rewrite list_find_None, Forall_forall in Hup.
    assert (Hbelow : ∀ l, l ∈ supportedThinkingLevels model → level_index l < level_index requested).
    { intros l Hl. destruct (decide (level_index l < level_index requested)) as [|Hge]; [done|]. exfalso. apply (Hup l); [|done].
      apply list_elem_of_lookup. exists (level_index l - S (level_index requested)). rewrite lookup_drop.
      assert (level_index l ≠ level_index requested) by (intros E; assert (l = requested) as -> by (by destruct l, requested); done).
      replace (S (level_index requested) + _) with (level_index l) by lia. apply level_index_lookup. }
    destruct (list_find _ (rev _)) as [[i c]|] eqn:Hdown.
    + apply list_find_Some in Hdown as (Hi & Hc & Hbefore). cbn. pose proof (Hbelow c Hc). split_and!; try done; [split; [done|intros ->; done]| |].
      * intros l Hl Hle. pose proof (Hbelow l Hl). lia.
      * intros l Hl _. pose proof (Hbelow l Hl) as Hlb. destruct (decide (level_index l <= level_index c)) as [|Hgt]; [done|]. exfalso.
        assert (Hlen : length (take (level_index requested) THINKING_LEVELS) = level_index requested) by (destruct requested; done).
        assert (Hrev : ∀ l', level_index l' < level_index requested → rev (take (level_index requested) THINKING_LEVELS) !! (level_index requested - S (level_index l')) = Some l').
        { intros l' Hl'. by destruct requested, l'; try (cbn in Hl'; lia). }
        assert (i = level_index requested - S (level_index c)) as ->.
        { clear -Hi Hlen. destruct requested; do 6 (destruct i as [|i]; [destruct c; try done|]); by destruct i, c. }
        apply (Hbefore (level_index requested - S (level_index l)) l); [by apply Hrev|lia|done].
    + exfalso. rewrite list_find_None, Forall_forall in Hdown. destruct (supportedThinkingLevels model) as [|l0 rest] eqn:E; [done|].
      assert (H0 : l0 ∈ l0 :: rest) by left. pose proof (Hbelow l0 H0). apply (Hdown l0); [|done].
      destruct requested, l0; try (cbn in *; lia); vm_compute; repeat constructor.
Qed.

Lemma budget_valid_range n : budget_valid n = true → (0 <= int_of n <= MAX_SAFE_INTEGER)%Z.
Proof. unfold budget_valid. destruct n; cbn; try done; unfold MAX_SAFE_INTEGER; lia. Qed.
Lemma positive_limit_range n : positive_limit n = true → (1 <= int_of n <= MAX_SAFE_INTEGER)%Z.
Proof. unfold positive_limit. destruct n; cbn; try done; unfold MAX_SAFE_INTEGER; lia. Qed.
Lemma thinking_budget_range level budgets b : thinkingBudgetForLevel level budgets = Ok b → (0 <= b <= MAX_SAFE_INTEGER)%Z.
Proof.
  unfold thinkingBudgetForLevel. intros H. inv_ok. rewrite !Forall_cons in H. destruct H as (H1%require_Ok & H2%require_Ok & H3%require_Ok & H4%require_Ok & _).
  destruct level; by apply budget_valid_range.
Qed.

(** a budget for thinking is fitted under the output limit: the limit is within the model's and
    not above what was asked for by more than the budget, and the budget leaves the tokens that
    are reserved for the answer, or is zero. *)
Theorem fitted_budget_leaves_room level model requested budgets f :
  fitThinkingBudget level model requested budgets = Ok f →
  (1 <= ftb_maxTokens f <= int_of model)%Z ∧ (0 <= ftb_thinkingBudget f <= ftb_maxTokens f)%Z ∧
  (ftb_thinkingBudget f = 0 ∨ ftb_thinkingBudget f + MIN_ANSWER_TOKENS <= ftb_maxTokens f)%Z ∧
  (∀ n, requested = Some n → ftb_maxTokens f <= int_of n + match level with TOff => 0 | _ => match thinkingBudgetForLevel level budgets with Ok b => b | Err _ => 0 end end)%Z.
Proof.
  unfold fitThinkingBudget. intros H. apply bind_Ok in H as ([] & Hr & H). apply require_Ok in Hr. apply andb_true_iff in Hr as [Hm Hq].
  apply positive_limit_range in Hm. assert (Hn : ∀ n, requested = Some n → (1 <= int_of n)%Z) by (intros n ->; apply positive_limit_range in Hq; lia). clear Hq.
  destruct (decide (level = TOff)) as [->|Hl].
  - injection H as <-. cbn. destruct requested as [n|]; [specialize (Hn n eq_refl)|]; split_and!; try lia; intros ? [=]; subst; lia.
  - assert (Hb : ∃ b, thinkingBudgetForLevel level budgets = Ok b ∧ (MIN_ANSWER_TOKENS <= int_of model)%Z ∧
        f = {| ftb_maxTokens := match requested with Some n => Z.min (int_of n + b) (int_of model) | None => int_of model end;
               ftb_thinkingBudget := Z.min b (Z.max 0 (match requested with Some n => Z.min (int_of n + b) (int_of model) | None => int_of model end - MIN_ANSWER_TOKENS)) |}).
    { destruct level; try done; apply bind_Ok in H as ([] & Hlow & H); apply refuse_Ok in Hlow; apply bind_Ok in H as (b & Hb & H); exists b; (split; [done|]);
        (split; [unfold MIN_ANSWER_TOKENS in *; lia|]); by injection H as <-. }
    destruct Hb as (b & Hb & Hmin & ->). rewrite Hb. apply thinking_budget_range in Hb. unfold MIN_ANSWER_TOKENS in *. cbn.
    destruct requested as [n|]; [specialize (Hn n eq_refl)|]; split_and!; try lia; try (intros ? [=]; subst; destruct level; try done; lia).
Qed.

(** a request is fitted into its model: what is configured for it satisfies what the events
    ask of a configuration, is no more than was asked for, and leaves room for the input and the
    reserve whenever there is room at all. *)
Theorem fitted_request model maxOutput idle estimate estimated c :
  fitModelRequest model maxOutput idle estimate estimated = Ok c →
  configuration_ok c ∧ (∀ n, maxOutput = Some n → mrc_maxOutputTokens c <= int_of n)%Z ∧
  (mrc_maxOutputTokens c = 1 ∨ mrc_estimatedInputTokens c + mrc_maxOutputTokens c + mrc_contextReserveTokens c <= mrc_contextWindow c)%Z.
Proof.
  unfold fitModelRequest. destruct (parseModelRequestSettings _ _) as [s|] eqn:Hs; [|done]. cbn [rbind]. intros H. inv_ok. cbn.
  assert (Hmax : match maxOutput with Some n => mrs_maxOutputTokens s = Some (int_of n) ∧ (1 <= int_of n)%Z | None => mrs_maxOutputTokens s = None end ∧
                 (0 <= mrs_httpIdleTimeoutMs s <= MAX_SAFE_INTEGER)%Z).
  { unfold parseModelRequestSettings in Hs. cbn [object get] in Hs. apply bind_Ok in Hs as (fs & Hfs & Hs). 
    assert (fs = [("maxOutputTokens", number_value maxOutput JNull); ("httpIdleTimeoutMs", number_value idle (JInt (mrs_httpIdleTimeoutMs DEFAULT_MODEL_REQUEST_SETTINGS)))]) as -> by (by inv_ok).
    cbn in Hs. apply bind_Ok in Hs as (mo & Hmo & Hs). apply bind_Ok in Hs as (it & Hit & Hs). injection Hs as <-. cbn.
    split; [|apply integer_range in Hit; cbn in *; lia]. destruct maxOutput as [n|]; cbn in Hmo; [|by injection Hmo as <-].
    apply rmap_Ok in Hmo as (z & Hz & ->). pose proof Hz as Hz'. apply integer_Ok in Hz as (_ & <- & ?). done. }
  destruct Hmax as [Hmax Hidle].
  repeat match goal with H : positive_limit _ = true |- _ => apply positive_limit_range in H | H : budget_valid _ = true |- _ => apply budget_valid_range in H end.
  unfold configuration_ok, CONTEXT_RESERVE_TOKENS, MAX_SAFE_INTEGER in *. cbn. set (e := int_of (default (NInt estimated) estimate)) in *. clearbody e.
  destruct maxOutput as [n|]; [destruct Hmax as [-> Hn]|rewrite Hmax]; cbn [default from_option]; unfold id;
    (split_and!; try lia; try (intros ? [=]; subst; lia)).
Qed.
