(* ===== verification/Dialect.v ===== *)
(** ai/src/dialect.ts: how the tools of a request are named for a provider, and back. *)
From stdpp Require Import base list sets strings.
From Stdlib Require Import ZArith Lia.
From S2P Require Import Prelude Text JsValue Json JsonText JsMap Sha256 Types ProviderTypes.

Record ToolDialectError := { tde_message : string }.
Definition dialect_fail (message : string) : ToolDialectError := {| tde_message := message |}.

Record ToolDialectOverride := { tdo_name : option string; tdo_description : option string; tdo_inputSchema : option fields }.

(** The characters the class source of [allowed] stands for. *)
Record ToolNameRule := { tnr_allowed : N → bool; tnr_maxLength : Z }.

Record ToolDialectData := {
  tdd_id : string;
  tdd_nameRule : option ToolNameRule;
  tdd_tools : list (string * ToolDialectOverride)
}.

Definition GENERIC_TOOL_DIALECT : ToolDialectData := {| tdd_id := "generic"; tdd_nameRule := None; tdd_tools := [] |}.

(** [a-zA-Z0-9_-] *)
Definition portable_point (p : N) : bool :=
  in_range 97 122 p || in_range 65 90 p || in_range 48 57 p || (p =? 95)%N || (p =? 45)%N.
Definition OPENAI_CHAT_TOOL_DIALECT : ToolDialectData :=
  {| tdd_id := "openai-chat"; tdd_nameRule := Some {| tnr_allowed := portable_point; tnr_maxLength := 64 |}; tdd_tools := [] |}.

Definition resolveToolDialect (apiDialect : string) (dialects : list (string * ToolDialectData)) : ToolDialectData * bool :=
  match map_get apiDialect dialects with
  | Some dialect => (dialect, false)
  | None => (GENERIC_TOOL_DIALECT, true)
  end.

(** [requested.replace(/[^allowed]+/g, "_")]: every run of other characters. *)
Fixpoint replace_runs (allowed : N → bool) (in_run : bool) (ps : list N) : list N :=
  match ps with
  | [] => []
  | p :: rest =>
      if allowed p then p :: replace_runs allowed false rest
      else if in_run then replace_runs allowed true rest
      else 95%N :: replace_runs allowed true rest
  end.

Definition override_of (dialect : ToolDialectData) (canonicalName : string) : option ToolDialectOverride :=
  map_get canonicalName (tdd_tools dialect).

Definition renderToolName (dialect : ToolDialectData) (canonicalName : string) : result ToolDialectError string :=
  let requested := default canonicalName (override_of dialect canonicalName ≫= tdo_name) in
  match tdd_nameRule dialect with
  | None => Ok requested
  | Some rule =>
      let sanitized := js_slice_start (tnr_maxLength rule) (of_code_points (replace_runs (tnr_allowed rule) false (code_points requested))) in
      _ ← refuse (bool_decide (sanitized = "")) (dialect_fail ("Tool " +:+ canonicalName +:+ " renders to an empty provider name"));
      Ok sanitized
  end.

Record ProviderVisibleTool := {
  pvt_canonicalName : string;
  pvt_name : string;
  pvt_description : string;
  pvt_inputSchema : fields
}.

Definition visible_value (t : ProviderVisibleTool) : jsval :=
  JObj [("canonicalName", JStr (pvt_canonicalName t)); ("name", JStr (pvt_name t));
        ("description", JStr (pvt_description t)); ("inputSchema", JObj (pvt_inputSchema t))].

(** The two maps of the class hold the tools by name and by canonical name. *)
Record FrozenToolRoster := { ftr_dialectId : string; ftr_tools : list ProviderVisibleTool; ftr_fingerprint : string }.

Definition by_provider (tools : list ProviderVisibleTool) (name : string) : option ProviderVisibleTool :=
  snd <$> list_find (λ t, pvt_name t = name) tools.
Definition by_canonical (tools : list ProviderVisibleTool) (name : string) : option ProviderVisibleTool :=
  snd <$> list_find (λ t, pvt_canonicalName t = name) tools.

Definition render_tool (dialect : ToolDialectData) (rendered : list ProviderVisibleTool) (tool : ToolDeclaration) :
    result ToolDialectError (list ProviderVisibleTool) :=
  _ ← refuse (bool_decide (is_Some (by_canonical rendered (td_name tool))))
        (dialect_fail ("Canonical tool " +:+ td_name tool +:+ " is declared twice"));
  name ← renderToolName dialect (td_name tool);
  let override := override_of dialect (td_name tool) in
  let visible := {| pvt_canonicalName := td_name tool; pvt_name := name;
                    pvt_description := default (td_description tool) (override ≫= tdo_description);
                    pvt_inputSchema := default (td_inputSchema tool) (override ≫= tdo_inputSchema) |} in
  match by_provider rendered name with
  | Some collision =>
      Err (dialect_fail ("Dialect " +:+ tdd_id dialect +:+ " renders " +:+ pvt_canonicalName collision +:+ " and " +:+ td_name tool +:+
                         " to the same provider name " +:+ name))
  | None => Ok (rendered ++ [visible])
  end.

Section Roster.
(** [createHash("sha256")] *)
Context (digest : string → list Z).

Definition roster (dialect : ToolDialectData) (canonicalTools : list ToolDeclaration) : result ToolDialectError FrozenToolRoster :=
  rendered ← fold_res (render_tool dialect) [] canonicalTools;
  Ok {| ftr_dialectId := tdd_id dialect; ftr_tools := rendered;
        ftr_fingerprint := hex_bytes (digest (json_text (JObj [("dialectId", JStr (tdd_id dialect)); ("tools", JArr (visible_value <$> rendered))]))) |}.
End Roster.

Definition toCanonical (r : FrozenToolRoster) (providerName : string) : result ToolDialectError string :=
  match by_provider (ftr_tools r) providerName with
  | Some t => Ok (pvt_canonicalName t)
  | None => Err (dialect_fail ("Provider tool name " +:+ providerName +:+ " is not in the frozen roster"))
  end.
Definition toProvider (r : FrozenToolRoster) (canonicalName : string) : result ToolDialectError ProviderVisibleTool :=
  match by_canonical (ftr_tools r) canonicalName with
  | Some t => Ok t
  | None => Err (dialect_fail ("Canonical tool " +:+ canonicalName +:+ " is not in the frozen roster"))
  end.

(** The [config.dialect] event of a boundary. *)
Definition dialectBoundaryPayload (r : FrozenToolRoster) (reason : DialectBoundaryReason) : payload :=
  ConfigDialect (ftr_dialectId r) (ftr_fingerprint r) reason.

(** ** Facts *)

Lemma render_step dialect rendered tool rendered' : render_tool dialect rendered tool = Ok rendered' →
  NoDup (pvt_name <$> rendered) ∧ NoDup (pvt_canonicalName <$> rendered) →
  ∃ t, rendered' = rendered ++ [t] ∧ pvt_canonicalName t = td_name tool ∧ renderToolName dialect (td_name tool) = Ok (pvt_name t) ∧
    NoDup (pvt_name <$> rendered') ∧ NoDup (pvt_canonicalName <$> rendered').
Proof.
  unfold render_tool. intros H [Hn Hc]. apply bind_Ok in H as ([] & Hdup & H). apply bind_Ok in H as (name & Hname & H).
  apply refuse_Ok, bool_decide_eq_false_1 in Hdup. unfold by_canonical in Hdup. destruct (by_provider rendered name) eqn:Hp; [done|]. injection H as <-.
  unfold by_provider in Hp. apply fmap_None, list_find_None in Hp. rewrite fmap_is_Some in Hdup. apply eq_None_not_Some, list_find_None in Hdup.
  eexists. split; [done|]. cbn. split; [done|]. split; [done|]. rewrite !fmap_app. cbn. rewrite Forall_forall in Hp, Hdup.
  split; apply NoDup_app; (split; [done|split; [|apply NoDup_singleton]]).
  - intros x (t & -> & Ht)%list_elem_of_fmap Hx%list_elem_of_singleton. by apply (Hp t).
  - intros x (t & -> & Ht)%list_elem_of_fmap Hx%list_elem_of_singleton. by apply (Hdup t).
Qed.

Lemma rendered_tools dialect tools rendered rendered' : fold_res (render_tool dialect) rendered tools = Ok rendered' →
  NoDup (pvt_name <$> rendered) ∧ NoDup (pvt_canonicalName <$> rendered) →
  ∃ new, rendered' = rendered ++ new ∧ Forall2 (λ t v, pvt_canonicalName v = td_name t ∧ renderToolName dialect (td_name t) = Ok (pvt_name v)) tools new ∧
    NoDup (pvt_name <$> rendered') ∧ NoDup (pvt_canonicalName <$> rendered').
Proof.
  induction tools as [|t tools IH] in rendered |- *; cbn.
  - intros [= <-] Hd. exists []. rewrite app_nil_r. split_and!; try done; try constructor; by apply Hd.
  - intros (r1 & H1 & H)%bind_Ok Hd. destruct (render_step _ _ _ _ H1 Hd) as (v & -> & Hv & Hr & Hd'). destruct (IH _ H Hd') as (new & -> & Hf & Hd'').
    exists (v :: new). rewrite <- app_assoc. split; [done|]. split; [by constructor|]. by rewrite <- app_assoc in Hd''.
Qed.

Lemma find_unique {A} (f : A → string) l x : NoDup (f <$> l) → x ∈ l → snd <$> list_find (λ y, f y = f x) l = Some x.
Proof.
  intros Hn Hx. destruct (list_find (λ y, f y = f x) l) as [[i y]|] eqn:E.
  - apply list_find_Some in E as (Hi & Hy & _). cbn. f_equal. apply list_elem_of_lookup in Hx as [j Hj].
    assert (i = j) as ->; [|congruence]. apply (NoDup_lookup _ _ _ (f x) Hn); rewrite list_lookup_fmap, ?Hi, ?Hj; cbn; congruence.
  - rewrite list_find_None, Forall_forall in E. by destruct (E x).
Qed.

(** the names a provider sees are distinct and lead back: of every declared tool the roster
    holds one rendering, and the name rendered for it is the canonical name's and no other's. *)
Theorem roster_names_lead_back digest dialect tools r :
  roster digest dialect tools = Ok r →
  pvt_canonicalName <$> ftr_tools r = td_name <$> tools ∧ NoDup (pvt_name <$> ftr_tools r) ∧
  ∀ t, t ∈ tools → ∃ v, toProvider r (td_name t) = Ok v ∧ toCanonical r (pvt_name v) = Ok (td_name t) ∧
    renderToolName dialect (td_name t) = Ok (pvt_name v).
Proof.
  unfold roster. intros (rendered & Hr & [= <-])%bind_Ok. destruct (rendered_tools _ _ _ _ Hr) as (new & -> & Hf & Hn & Hc); [split; constructor|].
  cbn in *. split; [|split; [done|]].
  - clear -Hf. induction Hf as [|t v tools new [H _] _ IH]; cbn; [done|]. by rewrite H, IH.
  - intros t Ht. apply list_elem_of_lookup in Ht as [i Hi]. destruct (Forall2_lookup_l _ _ _ _ _ Hf Hi) as (v & Hv & Hname & Hren). apply list_elem_of_lookup_2 in Hv.
    exists v. unfold toProvider, toCanonical, by_canonical, by_provider. cbn. rewrite <- Hname.
    rewrite (find_unique pvt_canonicalName new v Hc Hv), (find_unique pvt_name new v Hn Hv), Hname. done.
Qed.

Definition sample_tool (name : string) : ToolDeclaration := {| td_name := name; td_description := "d"; td_inputSchema := [] |}.
Lemma roster_names_lead_back_witness :
  ∃ r, roster (λ _, []) OPENAI_CHAT_TOOL_DIALECT [sample_tool "mcp.read file"; sample_tool "edit"] = Ok r ∧
       pvt_canonicalName <$> ftr_tools r = ["mcp.read file"; "edit"] ∧ toCanonical r "mcp_read_file" = Ok "mcp.read file".
Proof.
  eexists. split; [vm_compute; reflexivity|].
  match goal with |- _ ∧ toCanonical ?r _ = _ =>
    destruct (roster_names_lead_back (λ _, []) OPENAI_CHAT_TOOL_DIALECT [sample_tool "mcp.read file"; sample_tool "edit"] r) as (H & _ & _); [vm_compute; reflexivity|] end.
  split; [exact H|vm_compute; reflexivity].
Defined.
