(* ===== verification/Preparation.v ===== *)
(** ai/src/request-preparation.ts and ai/src/capabilities.ts: a request is checked and made
    ready for one model before an adapter renders it.

    Arguments have their declared types, so that the run-time checks of types and of unknown
    keys never fail; what is left of them are the checks of values. [strictSchema] works on
    JSON values as they are. *)
From stdpp Require Import base list sets strings pretty.
From Stdlib Require Import ZArith Lia Ascii.
From S2P Require Import Prelude Text JsValue Json JsonText JsMap Sha256 Envelope Types EventSchema ModelRequest ModelStream ProviderTypes Thinking Dialect.

Record RequestPreparationError := { rpe_path : string; rpe_message : string }.

Inductive prep_error :=
| PrepError (e : RequestPreparationError)
| PrepDialect (e : ToolDialectError)
| PrepCapability (modelId : string) (missing : list string)
| PrepType (e : type_error)
| PrepRead (e : string)
| PrepFuel.
Abbreviation prepared := (result prep_error).

Definition fail {A} (path message : string) : prepared A := Err (PrepError {| rpe_path := path; rpe_message := message |}).
(** [if (b) fail(path, message)] *)
Definition fail_if (b : bool) (path message : string) : prepared unit := if b then fail path message else Ok tt.

Definition nonEmpty (value path : string) : prepared unit := fail_if (bool_decide (js_trim value = "")) path "must be a non-empty string".
Definition nonEmpty_opt (value : option string) (path : string) : prepared unit :=
  match value with Some s => nonEmpty s path | None => Ok tt end.

(** ** JSON and metadata *)

Definition FORBIDDEN_METADATA_KEYS : list string := ["authorization"; "cookie"; "credential"; "password"; "secret"; "token"; "apikey"].

Definition lower (c : ascii) : ascii :=
  let n := N_of_ascii c in if (65 <=? n)%N && (n <=? 90)%N then ascii_of_N (n + 32) else c.
Definition alphanumeric (c : ascii) : bool :=
  let n := N_of_ascii c in ((48 <=? n) && (n <=? 57) || (65 <=? n) && (n <=? 90) || (97 <=? n) && (n <=? 122))%N.
(** [key.replace(/[^a-z0-9]/gi, "").toLowerCase()] *)
Fixpoint normalized (s : string) : string :=
  match s with
  | "" => ""
  | String c s' => if alphanumeric c then String (lower c) (normalized s') else normalized s'
  end.
(** [s.endsWith(t)] *)
Fixpoint ends_with (t s : string) : bool :=
  bool_decide (s = t) || match s with "" => false | String _ s' => ends_with t s' end.
Definition forbiddenMetadataKey (key : string) : bool :=
  existsb (λ forbidden, ends_with forbidden (normalized key)) FORBIDDEN_METADATA_KEYS.

(** Values are trees, so that there are no cycles to find. *)
Fixpoint validateJson (value : jsval) (path : string) (rejectAuthorizationData : bool) {struct value} : prepared unit :=
  match value with
  | JNull | JStr _ | JBool _ => Ok tt
  | JNum n => fail_if (negb (is_finite n)) path "must be JSON-compatible"
  | JUndef | JOther => fail path "must be JSON-compatible"
  | JArr items =>
      (fix go (i : nat) (l : list jsval) : prepared unit :=
         match l with
         | [] => Ok tt
         | item :: l' => _ ← validateJson item (element path i) rejectAuthorizationData; go (S i) l'
         end) 0 items
  | JInst _ => fail path "must be a plain object"
  | JObj fs =>
      (fix go (l : fields) : prepared unit :=
         match l with
         | [] => Ok tt
         | (key, item) :: l' =>
             _ ← fail_if (rejectAuthorizationData && forbiddenMetadataKey key) (member path key) "must not contain authorization data";
             _ ← validateJson item (member path key) rejectAuthorizationData;
             go l'
         end) fs
  end.

Definition validateMetadata (metadata : option fields) : prepared unit :=
  match metadata with None => Ok tt | Some fs => validateJson (JObj fs) "request.metadata" true end.

(** ** Safety settings and sampling *)

Definition GOOGLE_SAFETY_CATEGORIES : list string :=
  ["HARM_CATEGORY_HARASSMENT"; "HARM_CATEGORY_HATE_SPEECH"; "HARM_CATEGORY_SEXUALLY_EXPLICIT"; "HARM_CATEGORY_DANGEROUS_CONTENT";
   "HARM_CATEGORY_CIVIC_INTEGRITY"].
Definition GOOGLE_SAFETY_THRESHOLDS : list string := ["BLOCK_NONE"; "BLOCK_LOW_AND_ABOVE"; "BLOCK_MEDIUM_AND_ABOVE"; "BLOCK_ONLY_HIGH"; "OFF"].

Fixpoint check_safety (i : nat) (categories : list string) (settings : list ModelSafetySetting) : prepared unit :=
  match settings with
  | [] => Ok tt
  | s :: rest =>
      let path := element "request.safetySettings" i in
      _ ← fail_if (negb (bool_decide (mss_category s ∈ GOOGLE_SAFETY_CATEGORIES))) (member path "category") "is not recognized";
      _ ← fail_if (negb (bool_decide (mss_threshold s ∈ GOOGLE_SAFETY_THRESHOLDS))) (member path "threshold") "is not recognized";
      _ ← fail_if (bool_decide (mss_category s ∈ categories)) (member path "category") "is duplicated";
      check_safety (S i) (mss_category s :: categories) rest
  end.
Definition prepareSafetySettings (model : ModelInfo) (settings : option (list ModelSafetySetting)) : prepared (option (list ModelSafetySetting)) :=
  match settings with
  | None => Ok None
  | Some l =>
      _ ← fail_if (negb (bool_decide (mi_apiDialect model = "google-generative-ai"))) "request.safetySettings" "is unsupported by this model dialect";
      _ ← check_safety 0 [] l;
      Ok (Some l)
  end.

Definition DEFAULT_SAMPLING_SUPPORT (dialect : string) : list SamplingOptionName :=
  if bool_decide (dialect = "openai-chat") then [OTemperature; OTopP; OFrequencyPenalty; OPresencePenalty; OSeed]
  else if bool_decide (dialect ∈ ["openai-responses"; "azure-openai-responses"; "openai-codex-responses"]) then [OTemperature; OTopP]
  else if bool_decide (dialect = "anthropic-messages") then [OTemperature; OTopP; OTopK]
  else if bool_decide (dialect ∈ ["google-generative-ai"; "google-vertex"]) then [OTemperature; OTopP; OTopK; OSeed]
  else if bool_decide (dialect = "bedrock-converse-stream") then [OTemperature; OTopP]
  else if bool_decide (dialect = "mistral-conversations") then [OTemperature; OTopP; OFrequencyPenalty; OPresencePenalty; OSeed]
  else if bool_decide (dialect = "fake") then [OTemperature; OTopP; OTopK; OMinP; OFrequencyPenalty; OPresencePenalty; ORepetitionPenalty; OSeed]
  else [].

Definition SAMPLING_OPTIONS : list SamplingOptionName :=
  [OTemperature; OTopP; OTopK; OMinP; OFrequencyPenalty; OPresencePenalty; ORepetitionPenalty; OSeed].
Definition option_name (o : SamplingOptionName) : string :=
  match o with
  | OTemperature => "temperature" | OTopP => "topP" | OTopK => "topK" | OMinP => "minP" | OFrequencyPenalty => "frequencyPenalty"
  | OPresencePenalty => "presencePenalty" | ORepetitionPenalty => "repetitionPenalty" | OSeed => "seed"
  end.
Definition sampling_value (s : SamplingOptions) (o : SamplingOptionName) : option number :=
  match o with
  | OTemperature => so_temperature s | OTopP => so_topP s | OTopK => so_topK s | OMinP => so_minP s
  | OFrequencyPenalty => so_frequencyPenalty s | OPresencePenalty => so_presencePenalty s
  | ORepetitionPenalty => so_repetitionPenalty s | OSeed => so_seed s
  end.

(** [lo <= n && n <= hi] *)
Definition number_between (lo hi : Z) (n : number) : bool :=
  match n with
  | NInt z => (lo <=? z) && (z <=? hi)
  | NNegZero => (lo <=? 0) && (0 <=? hi)
  | NFrac m k => (lo * 2 ^ Z.pos k <=? m) && (m <=? hi * 2 ^ Z.pos k)
  | _ => false
  end%Z.
Definition finite (value : option number) (path : string) (minimum maximum : Z) : prepared unit :=
  match value with
  | None => Ok tt
  | Some n => fail_if (negb (number_between minimum maximum n)) path ("must be between " +:+ pretty minimum +:+ " and " +:+ pretty maximum)
  end.

Definition prepareSampling (model : ModelInfo) (sampling : option SamplingOptions) : prepared (option SamplingOptions) :=
  match sampling with
  | None => Ok None
  | Some s =>
      _ ← finite (so_temperature s) "request.sampling.temperature" 0 2;
      _ ← finite (so_topP s) "request.sampling.topP" 0 1;
      _ ← finite (so_minP s) "request.sampling.minP" 0 1;
      _ ← finite (so_frequencyPenalty s) "request.sampling.frequencyPenalty" (-2) 2;
      _ ← finite (so_presencePenalty s) "request.sampling.presencePenalty" (-2) 2;
      (* the maximum is the largest finite number *)
      _ ← match so_repetitionPenalty s with
          | None => Ok tt
          | Some n => fail_if (negb (is_finite n) || is_negative n) "request.sampling.repetitionPenalty" "must be between 0 and 1.7976931348623157e+308"
          end;
      _ ← match so_topK s with
          | None => Ok tt
          | Some n => fail_if (negb (positive_limit n)) "request.sampling.topK" "must be a positive safe integer"
          end;
      _ ← match so_seed s with
          | None => Ok tt
          | Some n => fail_if (negb (is_safe_integer n)) "request.sampling.seed" "must be a safe integer"
          end;
      _ ← match so_custom s with None => Ok tt | Some fs => validateJson (JObj fs) "request.sampling.custom" true end;
      let supported := match mi_sampling model with Some p => msp_supported p | None => DEFAULT_SAMPLING_SUPPORT (mi_apiDialect model) end in
      _ ← each (λ o, fail_if (bool_decide (is_Some (sampling_value s o)) && negb (bool_decide (o ∈ supported)))
                             ("request.sampling." +:+ option_name o) "is unsupported by this model") SAMPLING_OPTIONS;
      _ ← match so_custom s with
          | None => Ok tt
          | Some fs =>
              let customFields := match mi_sampling model with Some p => msp_customFields p | None => [] end in
              each (λ field, fail_if (negb (bool_decide (field ∈ customFields))) ("request.sampling.custom." +:+ field) "is unsupported by this model") (keys fs)
          end;
      Ok (Some s)
  end.

(** ** Provenance *)

Definition targetIdentity (model : ModelInfo) : ProviderModelIdentity :=
  {| pmi_providerId := mi_providerId model; pmi_apiDialect := mi_apiDialect model; pmi_modelId := mi_modelId model |}.

Definition validateIdentity (value : ProviderModelIdentity) (path : string) : prepared unit :=
  _ ← nonEmpty (pmi_providerId value) (member path "providerId");
  _ ← nonEmpty (pmi_apiDialect value) (member path "apiDialect");
  nonEmpty (pmi_modelId value) (member path "modelId").

Inductive sanitization_reason := ForeignSignature | ForeignContinuation.
Record RequestSanitization := { san_path : string; san_reason : sanitization_reason }.

(** What is removed is added to the list of removals. *)
Definition keepSignature (signature : option ProviderSignature) (target : ProviderModelIdentity) (path : string) (sans : list RequestSanitization) :
    prepared (option ProviderSignature * list RequestSanitization) :=
  match signature with
  | None => Ok (None, sans)
  | Some s =>
      _ ← validateIdentity (psg_identity s) path;
      _ ← nonEmpty (psg_value s) (member path "value");
      if bool_decide (psg_identity s = target) then Ok (Some s, sans)
      else Ok (None, sans ++ [{| san_path := path; san_reason := ForeignSignature |}])
  end.

Definition keepContinuation (continuation : option ProviderContinuationMetadata) (target : ProviderModelIdentity) (path : string)
    (sans : list RequestSanitization) : prepared (option ProviderContinuationMetadata * list RequestSanitization) :=
  match continuation with
  | None => Ok (None, sans)
  | Some c =>
      _ ← validateIdentity (pcm_identity c) path;
      _ ← nonEmpty_opt (pcm_responseId c) (member path "responseId");
      _ ← nonEmpty_opt (pcm_itemId c) (member path "itemId");
      _ ← nonEmpty_opt (pcm_namespace c) (member path "namespace");
      if bool_decide (pcm_identity c = target) then Ok (Some c, sans)
      else Ok (None, sans ++ [{| san_path := path; san_reason := ForeignContinuation |}])
  end.

(** ** Tool call identifiers *)

(** [/^[A-Za-z0-9_-]{1,64}$/] *)
Definition id_char (c : ascii) : bool := alphanumeric c || bool_decide (c = "_"%char) || bool_decide (c = "-"%char).
Definition portable_id (s : string) : bool :=
  all_chars id_char s && (1 <=? String.length s) && (String.length s <=? 64).
(** [/^[A-Za-z0-9]{9}$/] *)
Definition mistral_id (s : string) : bool := all_chars alphanumeric s && (String.length s =? 9).

Definition is_mistral (apiDialect : string) : bool := bool_decide (apiDialect = "mistral-conversations").
Definition toolCallIdRule (apiDialect : string) : string → bool := if is_mistral apiDialect then mistral_id else portable_id.

Definition toolDialectFor (apiDialect : string) : ToolDialectData :=
  if bool_decide (apiDialect ∈ ["openai-chat"; "openai-responses"; "azure-openai-responses"; "openai-codex-responses"; "anthropic-messages"; "bedrock-converse-stream"])
  then {| tdd_id := apiDialect; tdd_nameRule := tdd_nameRule OPENAI_CHAT_TOOL_DIALECT; tdd_tools := tdd_tools OPENAI_CHAT_TOOL_DIALECT |}
  else {| tdd_id := apiDialect; tdd_nameRule := tdd_nameRule GENERIC_TOOL_DIALECT; tdd_tools := tdd_tools GENERIC_TOOL_DIALECT |}.

(** ** Strict schemas *)

Definition UNSUPPORTED_STRICT_KEYS : list string :=
  ["$ref"; "$defs"; "definitions"; "allOf"; "oneOf"; "patternProperties"; "dependentSchemas"; "dependencies"; "unevaluatedProperties";
   "propertyNames"; "contains"; "prefixItems"; "not"; "if"; "then"; "else"].

Definition schema_fields (value : jsval) : option fields := match value with JObj fs | JInst fs => Some fs | _ => None end.
(** [Array.isArray(type) && type.includes(name)] *)
Definition type_includes (name : string) (type : jsval) : bool := match type with JArr l => bool_decide (JStr name ∈ l) | _ => false end.

Definition structuredSchema (schema : jsval) : bool :=
  match schema_fields schema with
  | None => false
  | Some fs =>
      let includes_ name := is_str name (get "type" fs) || type_includes name (get "type" fs) in
      includes_ "object" || includes_ "array" || defined (get "properties" fs) || defined (get "items" fs)
  end.

Fixpoint jdepth (v : jsval) : nat :=
  match v with
  | JArr l => S (foldr (λ x n, Nat.max (jdepth x) n) 0 l)
  | JObj fs | JInst fs => S (foldr (λ kv n, Nat.max (jdepth kv.2) n) 0 fs)
  | _ => 1
  end.

Fixpoint schemaAllowsNull (fuel : nat) (schema : jsval) : bool :=
  match fuel, schema_fields schema with
  | S fuel', Some fs =>
      is_str "null" (get "type" fs) || type_includes "null" (get "type" fs)
      || match get "const" fs with JNull => true | _ => false end
      || match get "enum" fs with JArr l => bool_decide (JNull ∈ l) | _ => false end
      || match get "anyOf" fs with JArr l => existsb (schemaAllowsNull fuel') l | _ => false end
  | _, _ => false
  end.

Definition nullable_schema (property : jsval) : jsval := JObj [("anyOf", JArr [property; JObj [("type", JStr "null")]])].

(** The node after it was changed in place. *)
Fixpoint makeStrictNode (fuel : nat) (schema : jsval) (path : string) : prepared jsval :=
  match fuel with
  | 0 => Err PrepFuel
  | S fuel' =>
      match schema_fields schema with
      | None => fail path "uses an unsupported boolean schema"
      | Some fs =>
          _ ← each (λ key, fail_if (bool_decide (key ∈ UNSUPPORTED_STRICT_KEYS)) (member path key) "is unsupported in strict schemas") (keys fs);
          fs ← match get "anyOf" fs with
               | JUndef => Ok fs
               | JArr (x :: l) =>
                   variants ← map_indexed (λ i variant,
                     let at_ := element (member path "anyOf") i in
                     _ ← fail_if (structuredSchema variant) at_ "uses an unsupported structured union";
                     makeStrictNode fuel' variant at_) (x :: l);
                   Ok (map_set "anyOf" (JArr variants) fs)
               | _ => fail (member path "anyOf") "must not be empty"
               end;
          fs ← match get "items" fs with
               | JUndef => Ok fs
               | JArr _ => fail (member path "items") "tuple schemas are unsupported in strict mode"
               | items => items' ← makeStrictNode fuel' items (member path "items"); Ok (map_set "items" items' fs)
               end;
          if negb (is_str "object" (get "type" fs)) then
            _ ← fail_if (defined (get "properties" fs)) (member path "properties") "requires type object";
            Ok (JObj fs)
          else
            _ ← fail_if (defined (get "additionalProperties" fs) && negb (bool_decide (get "additionalProperties" fs = JBool false)))
                        (member path "additionalProperties") "must be false in strict mode";
            properties ← match get "properties" fs with
                         | JUndef => Ok []
                         | v => match schema_fields v with Some ps => Ok ps | None => fail (member path "properties") "must be a schema map" end
                         end;
            required ← match get "required" fs with
                       | JUndef => Ok []
                       | JArr l => if forallb (λ v, match v with JStr _ => true | _ => false end) l
                                   then Ok (omap (λ v, match v with JStr s => Some s | _ => None end) l)
                                   else fail (member path "required") "must be a string array"
                       | _ => fail (member path "required") "must be a string array"
                       end;
            _ ← fail_if (negb (bool_decide (NoDup required))) (member path "required") "must not contain duplicates";
            _ ← each (λ name, fail_if (negb (bool_decide (name ∈ keys properties))) (member path "required") ("contains unknown property " +:+ name)) required;
            properties' ← map_indexed (λ _ (kv : string * jsval),
              property ← makeStrictNode fuel' kv.2 (member path "properties" +:+ "." +:+ kv.1);
              Ok (kv.1, if bool_decide (kv.1 ∈ required) || schemaAllowsNull fuel' property then property else nullable_schema property)) properties;
            let fs := if defined (get "properties" fs) then map_set "properties" (JObj properties') fs else fs in
            Ok (JObj (map_set "additionalProperties" (JBool false) (map_set "required" (JArr (JStr <$> keys properties)) fs)))
      end
  end.

Definition strictSchema (schema : fields) (path : string) : prepared fields :=
  _ ← validateJson (JObj schema) path false;
  clone ← makeStrictNode (jdepth (JObj schema)) (JObj schema) path;
  match clone with
  | JObj fs => _ ← fail_if (negb (is_str "object" (get "type" fs))) path "must have object at its root for strict mode"; Ok fs
  | _ => fail path "must have object at its root for strict mode"
  end.

(** ** Tools *)

Inductive PreparedToolConstraint :=
| PreparedJsonSchema (strict : bool)
| PreparedGrammar (lark : bool) (definition inputProperty : string).

Record PreparedToolDeclaration := {
  ptd_name : string;
  ptd_canonicalName : string;
  ptd_description : string;
  ptd_inputSchema : fields;
  ptd_constraint : option ToolConstraint;
  ptd_preparedConstraint : option PreparedToolConstraint
}.

Definition compat_dialect (model : ModelInfo) : option string := mi_compatibility model ≫= cm_dialect.
Definition compat_flag (flag : ModelCompatibility → bool) (model : ModelInfo) : bool :=
  match mi_compatibility model with Some c => flag c | None => false end.
Definition dialect_among (model : ModelInfo) (names : list string) : bool :=
  match compat_dialect model with Some d => bool_decide (d ∈ names) | None => false end.

Definition strictToolSupport (model : ModelInfo) : bool :=
  dialect_among model ["openai-chat"; "openai-responses"; "azure-openai-responses"; "openai-codex-responses"; "anthropic-messages"; "google-generative-ai";
                       "google-vertex"; "bedrock-converse-stream"; "mistral-conversations"; "gateway-messages"]
  && compat_flag cm_supportsStrictTools model.
Definition grammarToolSupport (model : ModelInfo) : bool :=
  dialect_among model ["openai-chat"; "openai-responses"; "azure-openai-responses"; "openai-codex-responses"] && compat_flag cm_supportsGrammarTools model.

Definition grammarInputProperty (schema : fields) (path : string) : prepared string :=
  _ ← fail_if (negb (is_str "object" (get "type" schema))) path "requires an object schema";
  match get "required" schema with
  | JArr [JStr property] =>
      match schema_fields (get "properties" schema) with
      | Some ps =>
          match schema_fields (get property ps) with
          | Some p => _ ← fail_if (negb (is_str "string" (get "type" p))) path ("requires " +:+ property +:+ " to be a string"); Ok property
          | None => fail path ("requires a schema for property " +:+ property)
          end
      | None => fail path ("requires a schema for property " +:+ property)
      end
  | JArr [_] => fail (path +:+ ".required[0]") "must be a string"
  | _ => fail path "requires exactly one required string property"
  end.

(** [lark?.trim()], [undefined] or empty: absent. *)
Definition usable (variant : option string) : option string :=
  match variant with Some s => if bool_decide (js_trim s = "") then None else Some (js_trim s) | None => None end.

Definition prepare_constraint (model : ModelInfo) (source : RequestToolDeclaration) (inputSchema : fields) (path : string) :
    prepared (fields * option PreparedToolConstraint) :=
  match rtd_constraint source with
  | None => Ok (inputSchema, None)
  | Some (JsonSchemaConstraint required) =>
      if strictToolSupport model then
        match strictSchema inputSchema (member path "inputSchema") with
        | Ok strict => Ok (strict, Some (PreparedJsonSchema true))
        | Err e => if required then Err e else Ok (inputSchema, Some (PreparedJsonSchema false))
        end
      else
        _ ← fail_if required (member path "constraint") "requires strict schemas unsupported by this model";
        Ok (inputSchema, Some (PreparedJsonSchema false))
  | Some (GrammarConstraint lark regex_) =>
      _ ← fail_if (negb (grammarToolSupport model)) (member path "constraint") "requires grammar tools unsupported by this model";
      match usable lark, usable regex_ with
      | None, None => fail (member path "constraint") "has no usable grammar variant"
      | Some definition, _ =>
          property ← grammarInputProperty inputSchema (member path "inputSchema");
          Ok (inputSchema, Some (PreparedGrammar true definition property))
      | None, Some definition =>
          property ← grammarInputProperty inputSchema (member path "inputSchema");
          (* [lark ?? regex] is a blank [lark] when there is one *)
          Ok (inputSchema, Some (PreparedGrammar false (match lark with Some s => js_trim s | None => definition end) property))
      end
  end.

Definition prepare_tool (model : ModelInfo) (index : nat) (pair : ProviderVisibleTool * RequestToolDeclaration) : prepared PreparedToolDeclaration :=
  let (visible, source) := pair in
  let path := element "request.tools" index in
  _ ← nonEmpty (rtd_name source) (member path "name");
  _ ← nonEmpty (rtd_description source) (member path "description");
  _ ← validateJson (JObj (pvt_inputSchema visible)) (member path "inputSchema") false;
  '(inputSchema, constraint) ← prepare_constraint model source (pvt_inputSchema visible) path;
  Ok {| ptd_name := pvt_name visible; ptd_canonicalName := pvt_canonicalName visible; ptd_description := pvt_description visible;
        ptd_inputSchema := inputSchema; ptd_constraint := rtd_constraint source; ptd_preparedConstraint := constraint |}.

Definition declaration_of (t : RequestToolDeclaration) : ToolDeclaration :=
  {| td_name := rtd_name t; td_description := rtd_description t; td_inputSchema := rtd_inputSchema t |}.

Definition prepareTools (digest : string → list Z) (model : ModelInfo) (requestTools : list RequestToolDeclaration) (dialect : ToolDialectData) :
    prepared (list PreparedToolDeclaration) :=
  match requestTools with
  | [] => Ok []
  | _ =>
      match roster digest dialect (declaration_of <$> requestTools) with
      | Err e => Err (PrepDialect e)
      | Ok r => map_indexed (prepare_tool model) (zip (ftr_tools r) requestTools)
      end
  end.

(** ** Reasoning and limits *)

Record ModelRequest := {
  mrq_modelId : string;
  mrq_system : option string;
  mrq_messages : list RequestModelMessage;
  mrq_tools : option (list RequestToolDeclaration);
  mrq_thinkingLevel : option ThinkingLevel;
  mrq_thinkingBudgets : option ThinkingBudgets;
  mrq_maxOutputTokens : option number;
  mrq_httpIdleTimeoutMs : option number;
  mrq_estimatedInputTokens : option number;
  mrq_toolChoice : option ToolChoice;
  mrq_sampling : option SamplingOptions;
  mrq_cache : option CacheOptions;
  mrq_safetySettings : option (list ModelSafetySetting);
  mrq_metadata : option fields;
  mrq_timeoutMs : option number;
  mrq_maxRetries : option number;
  mrq_maxRetryDelayMs : option number
}.

Record PreparedReasoning := {
  prs_clamp : ThinkingClamp;
  prs_providerValue : option string;
  prs_tokenBudget : option Z;
  prs_maxTokens : option Z
}.

(** [/^\d+$/] and [Number.parseInt(s, 10)] *)
Definition is_digit (c : ascii) : bool := let n := N_of_ascii c in (48 <=? n)%N && (n <=? 57)%N.
Definition parse_digits (s : string) : option number :=
  if all_chars is_digit s && negb (bool_decide (s = ""))
  then Some (decimal_to_number false (fold_left (λ n c, n * 10 + Z.of_N (N_of_ascii c - 48))%Z (String.list_ascii_of_string s) 0%Z) 0)
  else None.

Definition mapped_name (m : level_mapping) : option string := match m with Mapped s => Some s | _ => None end.

Definition with_budget (level : ThinkingLevel) (n : number) (b : ThinkingBudgets) : ThinkingBudgets :=
  match level with
  | TMinimal => {| tb_minimal := Some (default n (tb_minimal b)); tb_low := tb_low b; tb_medium := tb_medium b; tb_high := tb_high b |}
  | TLow => {| tb_minimal := tb_minimal b; tb_low := Some (default n (tb_low b)); tb_medium := tb_medium b; tb_high := tb_high b |}
  | TMedium => {| tb_minimal := tb_minimal b; tb_low := tb_low b; tb_medium := Some (default n (tb_medium b)); tb_high := tb_high b |}
  | _ => {| tb_minimal := tb_minimal b; tb_low := tb_low b; tb_medium := tb_medium b; tb_high := Some (default n (tb_high b)) |}
  end.

Definition google_budget (model : ModelInfo) (providerValue : option string) : option number :=
  if dialect_among model ["google-generative-ai"] then providerValue ≫= parse_digits else None.
Definition usesBudget (model : ModelInfo) (googleBudget : option number) : bool :=
  (dialect_among model ["openai-chat"] && match mi_compatibility model with Some c => bool_decide (is_Some (cm_thinkingTokenBudgetField c)) | None => false end)
  || (dialect_among model ["anthropic-messages"] && negb (compat_flag cm_forceAdaptiveThinking model))
  || (dialect_among model ["bedrock-converse-stream"] && compat_flag cm_supportsThinkingSignatures model && negb (compat_flag cm_forceAdaptiveThinking model))
  || bool_decide (is_Some googleBudget).

Definition prepareReasoning (model : ModelInfo) (request : ModelRequest) : prepared (option PreparedReasoning) :=
  match mrq_thinkingLevel request with
  | None => Ok None
  | Some level =>
      let clamp := clampThinkingLevel (mi_thinking model) level in
      let effective := tc_effective clamp in
      if bool_decide (effective = TOff) then Ok (Some {| prs_clamp := clamp; prs_providerValue := None; prs_tokenBudget := None; prs_maxTokens := None |})
      else
        let providerValue := mapped_name (mts_levelMap (mi_thinking model) effective) in
        let googleBudget := google_budget model providerValue in
        if negb (usesBudget model googleBudget) then
          Ok (Some {| prs_clamp := clamp; prs_providerValue := providerValue; prs_tokenBudget := None; prs_maxTokens := None |})
        else
          let given := default no_budgets (mrq_thinkingBudgets request) in
          let budgets := match googleBudget with Some n => with_budget effective n given | None => given end in
          match fitThinkingBudget effective (mi_maxOutputTokens model) (mrq_maxOutputTokens request) budgets with
          | Err e => Err (PrepType e)
          | Ok fitted =>
              Ok (Some {| prs_clamp := clamp;
                          prs_providerValue := if dialect_among model ["google-generative-ai"] then providerValue else None;
                          prs_tokenBudget := Some (ftb_thinkingBudget fitted); prs_maxTokens := Some (ftb_maxTokens fitted) |})
          end
  end.

Definition resolvedMaxOutputTokens (model : ModelInfo) (request : ModelRequest) (reasoning : option PreparedReasoning) : prepared (option Z) :=
  _ ← match mrq_maxOutputTokens request with
      | None => Ok tt
      | Some n =>
          _ ← fail_if (negb (positive_limit n)) "request.maxOutputTokens" "must be a positive safe integer";
          fail_if (int_of (mi_maxOutputTokens model) <? int_of n)%Z "request.maxOutputTokens"
            ("exceeds model limit " +:+ number_to_string (mi_maxOutputTokens model))
      end;
  Ok (match reasoning ≫= prs_tokenBudget with
      | None => int_of <$> mrq_maxOutputTokens request
      | Some _ => Some (default (int_of (mi_maxOutputTokens model)) (reasoning ≫= prs_maxTokens))
      end).

(** ** History *)

Record PreparedToolCall := {
  ptc_callId : string;
  ptc_canonicalCallId : string;
  ptc_name : string;
  ptc_canonicalName : string;
  ptc_input : fields;
  ptc_signature : option ProviderSignature;
  ptc_continuation : option ProviderContinuationMetadata
}.

Inductive PreparedRequestMessage :=
| PUser (items : list content)
| PAssistant (items : list RequestAssistantContent) (toolCalls : option (list PreparedToolCall)) (origin : option ProviderModelIdentity)
    (continuation : option ProviderContinuationMetadata)
| PTool (callId canonicalCallId name canonicalName : string) (items : list content) (isError : bool).

Definition clone_blob (b : BlobReference) (path : string) : prepared unit :=
  _ ← fail_if (negb (rmatch Events.sha256_pattern (blob_sha256 b))) (member path "blob" +:+ ".sha256") "must be a SHA-256 digest";
  _ ← nonEmpty (blob_mediaType b) (member path "blob" +:+ ".mediaType");
  _ ← fail_if (negb ((0 <=? blob_sizeBytes b) && (blob_sizeBytes b <=? MAX_SAFE_INTEGER))%Z) (member path "blob" +:+ ".sizeBytes")
        "must be a non-negative safe integer";
  nonEmpty_opt (blob_name b) (member path "blob" +:+ ".name").

Definition cloneBasicContent (item : content) (path : string) : prepared content :=
  match item with
  | CText text => Ok (CText text)
  | CThinking _ => fail (member path "type") "is not supported"
  | CBlob b => _ ← clone_blob b path; Ok (CBlob b)
  end.

Definition sanitizeContent (target : ProviderModelIdentity) (path : string) (item : RequestAssistantContent) (sans : list RequestSanitization) :
    prepared (RequestAssistantContent * list RequestSanitization) :=
  match item with
  | RText text signature continuation =>
      ' (signature, sans) ← keepSignature signature target (member path "signature") sans;
      ' (continuation, sans) ← keepContinuation continuation target (member path "continuation") sans;
      Ok (RText text signature continuation, sans)
  | RThinking text signature redacted =>
      ' (signature, sans) ← keepSignature signature target (member path "signature") sans;
      _ ← fail_if (bool_decide (redacted = Some true) && bool_decide (signature = None)) path
            "contains redacted reasoning that cannot be replayed by the selected model";
      _ ← fail_if (bool_decide (text = "") && bool_decide (signature = None)) path "contains empty reasoning without a replayable signature";
      Ok (RThinking text signature (if bool_decide (redacted = Some true) then Some true else None), sans)
  | RBlob b => _ ← clone_blob b path; Ok (RBlob b, sans)
  end.

(** [items.map(...)] with a body that records removals. *)
Fixpoint map_sans {A B} (f : nat → A → list RequestSanitization → prepared (B * list RequestSanitization)) (i : nat) (l : list A)
    (sans : list RequestSanitization) : prepared (list B * list RequestSanitization) :=
  match l with
  | [] => Ok ([], sans)
  | x :: l' =>
      ' (y, sans) ← f i x sans;
      ' (ys, sans) ← map_sans f (S i) l' sans;
      Ok (y :: ys, sans)
  end.

(** The variables of [prepareHistory]. *)
Record history := {
  hs_callIds : list (string * string);
  hs_pending : list (string * string);
  hs_occupied : list string;
  hs_sans : list RequestSanitization
}.

Definition message_items (m : RequestModelMessage) : nat :=
  match m with RUser items => length items | RAssistant items _ _ _ => length items | RTool _ _ items _ => length items end.

Section History.
Context (digest : string → list Z) (model : ModelInfo) (tools : list PreparedToolDeclaration) (dialect : ToolDialectData).

Let apiDialect := mi_apiDialect model.
Let target := targetIdentity model.

Definition hex_digest (s : string) : string := hex_bytes (digest s).

Definition candidate_id (apiDialect id : string) (counter : nat) : string :=
  let text := if counter =? 0 then id else id +:+ ":" +:+ pretty counter in
  if is_mistral apiDialect then String.substring 0 9 (hex_digest text)
  else String.substring 0 64 ("call_" +:+ hex_digest text).
Fixpoint free_candidate (apiDialect id : string) (occupied : list string) (counter tries : nat) : option string :=
  match tries with
  | 0 => None
  | S tries' =>
      let candidate := candidate_id apiDialect id counter in
      if bool_decide (candidate ∈ occupied) then free_candidate apiDialect id occupied (S counter) tries' else Some candidate
  end.
Definition normalizedToolCallId (id apiDialect : string) (occupied : list string) : prepared string :=
  if toolCallIdRule apiDialect id && negb (bool_decide (id ∈ occupied)) then Ok id
  else match free_candidate apiDialect id occupied 0 1000 with
       | Some candidate => Ok candidate
       | None => fail "request.messages" "contains too many colliding tool call identifiers"
       end.

(** [activeTools.get(name)?.name ?? renderToolName(dialect, name)]; of two tools of one name
    the map would hold the last, but the roster refuses them. *)
Definition visible_name (name : string) : prepared string :=
  match list_find (λ t, ptd_canonicalName t = name) tools with
  | Some (_, t) => Ok (ptd_name t)
  | None => match renderToolName dialect name with Ok n => Ok n | Err e => Err (PrepDialect e) end
  end.

Definition prepare_call (path : string) (callIndex : nat) (call : RequestToolCall) (h : history) : prepared (PreparedToolCall * history) :=
  let callPath := element (member path "toolCalls") callIndex in
  _ ← nonEmpty (rtc_callId call) (member callPath "callId");
  _ ← nonEmpty (rtc_name call) (member callPath "name");
  _ ← validateJson (JObj (rtc_input call)) (member callPath "input") true;
  _ ← fail_if (map_has (rtc_callId call) (hs_callIds h)) (member callPath "callId") "is duplicated in request history";
  normalized ← normalizedToolCallId (rtc_callId call) apiDialect (hs_occupied h);
  name ← visible_name (rtc_name call);
  ' (signature, sans) ← keepSignature (rtc_signature call) target (member callPath "signature") (hs_sans h);
  ' (continuation, sans) ← keepContinuation (rtc_continuation call) target (member callPath "continuation") sans;
  Ok ({| ptc_callId := normalized; ptc_canonicalCallId := rtc_callId call; ptc_name := name; ptc_canonicalName := rtc_name call;
         ptc_input := rtc_input call; ptc_signature := signature; ptc_continuation := continuation |},
      {| hs_callIds := map_set (rtc_callId call) normalized (hs_callIds h); hs_pending := map_set (rtc_callId call) (rtc_name call) (hs_pending h);
         hs_occupied := hs_occupied h ++ [normalized]; hs_sans := sans |}).

Fixpoint prepare_calls (path : string) (i : nat) (calls : list RequestToolCall) (h : history) : prepared (list PreparedToolCall * history) :=
  match calls with
  | [] => Ok ([], h)
  | call :: rest =>
      ' (prepared_call, h) ← prepare_call path i call h;
      ' (prepared_calls, h) ← prepare_calls path (S i) rest h;
      Ok (prepared_call :: prepared_calls, h)
  end.

Definition set_sans (sans : list RequestSanitization) (h : history) : history :=
  {| hs_callIds := hs_callIds h; hs_pending := hs_pending h; hs_occupied := hs_occupied h; hs_sans := sans |}.
Definition answered (callId : string) (h : history) : history :=
  {| hs_callIds := hs_callIds h; hs_pending := map_delete callId (hs_pending h); hs_occupied := hs_occupied h; hs_sans := hs_sans h |}.

(** One message of the loop of [prepareHistory]. *)
Definition prepare_message (messageIndex : nat) (message : RequestModelMessage) (h : history) : prepared (PreparedRequestMessage * history) :=
  let path := element "request.messages" messageIndex in
  _ ← fail_if ((message_items message =? 0) && match message with RAssistant _ (Some (_ :: _)) _ _ => false | _ => true end)
        (member path "content") "must not be empty without an assistant tool call";
  match message with
  | RUser items =>
      _ ← fail_if (negb (bool_decide (hs_pending h = []))) path "appears before all preceding tool calls have results";
      items ← map_indexed (λ i item, cloneBasicContent item (element (member path "content") i)) items;
      Ok (PUser items, h)
  | RAssistant items toolCalls origin continuation =>
      _ ← fail_if (negb (bool_decide (hs_pending h = []))) path "appears before all preceding tool calls have results";
      _ ← match origin with Some o => validateIdentity o (member path "origin") | None => Ok tt end;
      ' (continuation, sans) ← keepContinuation continuation target (member path "continuation") (hs_sans h);
      ' (items, sans) ← map_sans (λ i, sanitizeContent target (element (member path "content") i)) 0 items sans;
      let h := set_sans sans h in
      match toolCalls with
      | None => Ok (PAssistant items None origin continuation, h)
      | Some calls => ' (calls, h) ← prepare_calls path 0 calls h; Ok (PAssistant items (Some calls) origin continuation, h)
      end
  | RTool callId name items isError =>
      _ ← nonEmpty callId (member path "callId");
      _ ← nonEmpty name (member path "name");
      match map_get callId (hs_pending h) with
      | None => fail (member path "callId") "does not match a preceding unresolved tool call"
      | Some expectedName =>
          _ ← fail_if (negb (bool_decide (expectedName = name))) (member path "name") ("does not match tool call " +:+ expectedName);
          match map_get callId (hs_callIds h) with
          | None => fail (member path "callId") "has no normalized tool call identifier"
          | Some normalized =>
              visible ← visible_name name;
              items ← map_indexed (λ i item, cloneBasicContent item (element (member path "content") i)) items;
              Ok (PTool normalized callId visible name items isError, answered callId h)
          end
      end
  end.

Fixpoint prepare_messages (i : nat) (messages : list RequestModelMessage) (h : history) : prepared (list PreparedRequestMessage * history) :=
  match messages with
  | [] => Ok ([], h)
  | m :: rest =>
      ' (p, h) ← prepare_message i m h;
      ' (ps, h) ← prepare_messages (S i) rest h;
      Ok (p :: ps, h)
  end.

Definition no_history : history := {| hs_callIds := []; hs_pending := []; hs_occupied := []; hs_sans := [] |}.

Definition prepareHistory (messages : list RequestModelMessage) : prepared (list PreparedRequestMessage * list RequestSanitization) :=
  ' (output, h) ← prepare_messages 0 messages no_history;
  _ ← fail_if (negb (bool_decide (hs_pending h = []))) "request.messages" "ends with unresolved tool calls";
  Ok (output, hs_sans h).
End History.

(** ** Blobs and caching *)

Inductive CachePlacement := PlaceSystem | PlaceTool (toolIndex : nat) | PlaceContent (messageIndex contentIndex : nat).
Record PreparedCache := { pch_retention : CacheRetention; pch_sessionId : option string; pch_placements : list CachePlacement }.

(** The items of a message that may carry a marker or a blob, by position. *)
Inductive item_kind := ItemText | ItemBlob (b : BlobReference) | ItemThinking.
Definition basic_kind (c : content) : item_kind := match c with CText _ => ItemText | CBlob b => ItemBlob b | CThinking _ => ItemThinking end.
Definition assistant_kind (c : RequestAssistantContent) : item_kind :=
  match c with RText _ _ _ => ItemText | RBlob b => ItemBlob b | RThinking _ _ _ => ItemThinking end.
Definition kinds_of (m : PreparedRequestMessage) : list item_kind :=
  match m with
  | PUser items | PTool _ _ _ _ items _ => basic_kind <$> items
  | PAssistant items _ _ _ => assistant_kind <$> items
  end.

Definition markable (k : item_kind) : bool := match k with ItemThinking => false | _ => true end.

(** The last item that can be marked, from the last message backwards. *)
Fixpoint last_marked {A} (f : nat → A → option CachePlacement) (i : nat) (l : list A) : option CachePlacement :=
  match l with
  | [] => None
  | x :: l' => match last_marked f (S i) l' with Some p => Some p | None => f i x end
  end.
Definition conversation_marker (messages : list PreparedRequestMessage) : option CachePlacement :=
  last_marked (λ mi m, last_marked (λ ci k, if markable k then Some (PlaceContent mi ci) else None) 0 (kinds_of m)) 0 messages.

Definition retention_name (r : CacheRetention) : string := match r with RetentionNone => "none" | RetentionShort => "short" | RetentionLong => "long" end.

Definition prepareCache (model : ModelInfo) (request : ModelRequest) (tools : list PreparedToolDeclaration) (messages : list PreparedRequestMessage) :
    prepared PreparedCache :=
  let retention := default (default RetentionNone (mcp_defaultRetention <$> mi_cache model)) (mrq_cache request ≫= co_retention) in
  _ ← if bool_decide (retention = RetentionNone) then Ok tt
      else match mi_cache model with
           | Some policy =>
               _ ← fail_if (negb (mcp_supported policy)) "request.cache.retention" "is unsupported by this model";
               fail_if (negb (bool_decide (retention ∈ mcp_supportedRetentions policy))) "request.cache.retention"
                 (retention_name retention +:+ " is unsupported by this model")
           | None => fail "request.cache.retention" "is unsupported by this model"
           end;
  _ ← match mrq_cache request ≫= co_sessionId with
      | None => Ok tt
      | Some id =>
          _ ← nonEmpty id "request.cache.sessionId";
          _ ← fail_if (bool_decide (retention = RetentionNone)) "request.cache.sessionId" "requires prompt caching to be enabled";
          fail_if (256 <? length (code_points id)) "request.cache.sessionId" "must not exceed 256 characters"
      end;
  let usesContentMarkers :=
    negb (bool_decide (retention = RetentionNone)) &&
    (bool_decide (mi_apiDialect model = "anthropic-messages")
     || (dialect_among model ["openai-chat"] && match mi_compatibility model with Some c => bool_decide (cm_cacheControlFormat c = Some "anthropic") | None => false end)
     || (dialect_among model ["bedrock-converse-stream"] && compat_flag cm_supportsPromptCacheMarkers model)) in
  let supportsToolMarker :=
    dialect_among model ["openai-chat"] || (dialect_among model ["anthropic-messages"] && compat_flag cm_supportsCacheControlOnTools model) in
  let placements :=
    if usesContentMarkers then
      (match mrq_system request with Some s => if bool_decide (s = "") then [] else [PlaceSystem] | None => [] end)
      ++ (if supportsToolMarker && negb (length tools =? 0) then [PlaceTool (length tools - 1)] else [])
      ++ option_list (conversation_marker messages)
    else [] in
  Ok {| pch_retention := retention;
        pch_sessionId := if bool_decide (retention = RetentionNone) then None else mrq_cache request ≫= co_sessionId;
        pch_placements := placements |}.

Record PreparedBlob := { pb_reference : BlobReference; pb_bytes : string }.

Definition item_path (mi ci : nat) : string := element (element "request.messages" mi +:+ ".content") ci.

(** The references of the history, one per digest. *)
Definition collect_blob (model : ModelInfo) (references : list (string * BlobReference)) (at_ : string * BlobReference) : prepared (list (string * BlobReference)) :=
  let (path, b) := at_ in
  _ ← fail_if (negb (mcap_imageInput (mi_capabilities model))) path "uses an image unsupported by this model";
  _ ← fail_if (negb (starts_with "image/" (blob_mediaType b))) (path +:+ ".blob.mediaType") "must be an image media type";
  _ ← match map_get (blob_sha256 b) references with
      | Some existing => fail_if (negb (bool_decide (blob_mediaType existing = blob_mediaType b)) || negb (blob_sizeBytes existing =? blob_sizeBytes b)%Z)
                           (path +:+ ".blob") "conflicts with another reference for the same digest"
      | None => Ok tt
      end;
  Ok (map_set (blob_sha256 b) b references).

Definition blob_items (messages : list PreparedRequestMessage) : list (string * BlobReference) :=
  mjoin (imap (λ mi m, mjoin (imap (λ ci k, match k with ItemBlob b => [(item_path mi ci, b)] | _ => [] end) (kinds_of m))) messages).

Section Prepare.
Context (digest : string → list Z).
(** [request.readBlob]: the bytes, or what its promise was rejected with. *)
Context (readBlob : option (BlobReference → result string string)).

Fixpoint load_references (read : BlobReference → result string string) (references : list (string * BlobReference)) : prepared (list (string * PreparedBlob)) :=
  match references with
  | [] => Ok []
  | (sha256, reference) :: rest =>
      bytes ← match read reference with Ok bytes => Ok bytes | Err e => Err (PrepRead e) end;
      _ ← fail_if (negb (utf8_length bytes =? blob_sizeBytes reference)%Z) ("request.blobs." +:+ sha256) "size does not match its reference";
      _ ← fail_if (negb (bool_decide (hex_bytes (digest bytes) = sha256))) ("request.blobs." +:+ sha256) "content hash does not match its reference";
      loaded ← load_references read rest;
      Ok ((sha256, {| pb_reference := reference; pb_bytes := bytes |}) :: loaded)
  end.
Definition loadBlobs (model : ModelInfo) (messages : list PreparedRequestMessage) : prepared (list (string * PreparedBlob)) :=
  references ← fold_res (collect_blob model) [] (blob_items messages);
  match references, readBlob with
  | [], _ => Ok []
  | _, None => fail "request.readBlob" "is required when history contains blobs"
  | _, Some read => load_references read references
  end.

(** ** Capabilities *)

Definition uses_image (m : RequestModelMessage) : bool :=
  let image (k : item_kind) := match k with ItemBlob b => starts_with "image/" (blob_mediaType b) | _ => false end in
  match m with
  | RUser items | RTool _ _ items _ => existsb (λ c, image (basic_kind c)) items
  | RAssistant items _ _ _ => existsb (λ c, image (assistant_kind c)) items
  end.
Definition requiredCapabilities (request : ModelRequest) : list string :=
  (match mrq_tools request with Some (_ :: _) => ["toolUse"] | _ => [] end)
  ++ (if existsb uses_image (mrq_messages request) then ["imageInput"] else []).
Definition has_capability (model : ModelInfo) (capability : string) : bool :=
  let c := mi_capabilities model in
  if bool_decide (capability = "toolUse") then mcap_toolUse c
  else if bool_decide (capability = "imageInput") then mcap_imageInput c
  else if bool_decide (capability = "structuredOutput") then mcap_structuredOutput c else false.
Definition missingCapabilities (model : ModelInfo) (required : list string) : list string :=
  List.filter (λ c, negb (has_capability model c)) required.
Definition assertModelSupports (model : ModelInfo) (request : ModelRequest) (extra : list string) : prepared unit :=
  match missingCapabilities model (requiredCapabilities request ++ extra) with
  | [] => Ok tt
  | missing => Err (PrepCapability (mi_modelId model) missing)
  end.

(** ** The request *)

Record PreparedModelRequest := {
  pmr_messages : list PreparedRequestMessage;
  pmr_tools : option (list PreparedToolDeclaration);
  pmr_thinkingLevel : option ThinkingLevel;
  pmr_maxOutputTokens : option Z;
  pmr_sampling : option SamplingOptions;
  pmr_cache : PreparedCache;
  pmr_safetySettings : option (list ModelSafetySetting);
  (** the fields that are passed on as they are *)
  pmr_request : ModelRequest;
  pmr_blobs : list (string * PreparedBlob);
  pmr_reasoning : option PreparedReasoning;
  pmr_sanitizations : list RequestSanitization
}.

Definition nonnegative_opt (field : string) (value : option number) : prepared unit :=
  match value with
  | None => Ok tt
  | Some n => fail_if (negb (budget_valid n)) ("request." +:+ field) "must be a non-negative safe integer"
  end.
Definition check_budgets (budgets : option ThinkingBudgets) : prepared unit :=
  match budgets with
  | None => Ok tt
  | Some b =>
      each (λ kv : string * option number,
              match kv.2 with
              | None => Ok tt
              | Some n => fail_if (negb (budget_valid n)) ("request.thinkingBudgets." +:+ kv.1) "must be a non-negative safe integer"
              end) [("minimal", tb_minimal b); ("low", tb_low b); ("medium", tb_medium b); ("high", tb_high b)]
  end.

Definition prepareModelRequest (model : ModelInfo) (request : ModelRequest) (toolDialect : option ToolDialectData) : prepared PreparedModelRequest :=
  _ ← nonEmpty (mrq_modelId request) "request.modelId";
  _ ← fail_if (negb (bool_decide (mrq_modelId request = mi_modelId model))) "request.modelId" ("does not match " +:+ mi_modelId model);
  _ ← check_budgets (mrq_thinkingBudgets request);
  _ ← nonnegative_opt "timeoutMs" (mrq_timeoutMs request);
  _ ← nonnegative_opt "httpIdleTimeoutMs" (mrq_httpIdleTimeoutMs request);
  _ ← nonnegative_opt "estimatedInputTokens" (mrq_estimatedInputTokens request);
  _ ← nonnegative_opt "maxRetries" (mrq_maxRetries request);
  _ ← nonnegative_opt "maxRetryDelayMs" (mrq_maxRetryDelayMs request);
  _ ← assertModelSupports model request [];
  _ ← validateMetadata (mrq_metadata request);
  safetySettings ← prepareSafetySettings model (mrq_safetySettings request);
  sampling ← prepareSampling model (mrq_sampling request);
  let dialect := default (toolDialectFor (mi_apiDialect model)) toolDialect in
  tools ← prepareTools digest model (default [] (mrq_tools request)) dialect;
  _ ← fail_if (bool_decide (mrq_toolChoice request = Some ChoiceRequired) && (length tools =? 0)) "request.toolChoice" "requires at least one tool";
  ' (messages, sanitizations) ← prepareHistory digest model tools dialect (mrq_messages request);
  blobs ← loadBlobs model messages;
  reasoning ← prepareReasoning model request;
  let temperature := bool_decide (is_Some (sampling ≫= so_temperature)) in
  _ ← fail_if (temperature && dialect_among model ["anthropic-messages"] && negb (compat_flag cm_supportsTemperature model))
        "request.sampling.temperature" "is unsupported by this model";
  _ ← fail_if (temperature && bool_decide (mi_apiDialect model = "anthropic-messages")
               && match reasoning with Some r => negb (bool_decide (tc_effective (prs_clamp r) = TOff)) | None => false end)
        "request.sampling.temperature" "cannot be combined with Anthropic reasoning";
  maxOutputTokens ← resolvedMaxOutputTokens model request reasoning;
  cache ← prepareCache model request tools messages;
  Ok {| pmr_messages := messages;
        pmr_tools := match tools, mrq_tools request with [], None => None | _, _ => Some tools end;
        pmr_thinkingLevel := (λ r, tc_effective (prs_clamp r)) <$> reasoning;
        pmr_maxOutputTokens := maxOutputTokens;
        pmr_sampling := sampling;
        pmr_cache := cache;
        pmr_safetySettings := safetySettings;
        pmr_request := request;
        pmr_blobs := blobs;
        pmr_reasoning := reasoning;
        pmr_sanitizations := sanitizations |}.
End Prepare.
