(* ===== verification/PreparationFacts.v ===== *)
(** What a prepared request is: its history answers every call where a provider expects it,
    under identifiers a provider accepts, and carries no other model's signatures. *)
From stdpp Require Import base list sets strings pretty.
From Stdlib Require Import ZArith Lia Ascii.
From S2P Require Import Prelude Text JsValue Json JsonText JsMap Sha256 Envelope Types EventSchema ModelRequest ModelStream MigrationFacts ProviderTypes Thinking Dialect Preparation.

Lemma fail_if_Ok b path message u : fail_if b path message = Ok u ↔ b = false.
Proof. destruct b, u; cbn; split; done. Qed.

(** ** Identifiers *)

Lemma all_chars_impl (p q : ascii → bool) s : (∀ c, p c = true → q c = true) → all_chars p s = true → all_chars q s = true.
Proof. intros Hpq. induction s as [|c s IH]; cbn; [done|]. intros [Hc Hs]%andb_true_iff. by rewrite Hpq, IH. Qed.
Lemma substring_length n s : n <= String.length s → String.length (String.substring 0 n s) = n.
Proof. induction n as [|n IH] in s |- *; intros Hn; [by destruct s|]. destruct s as [|c s]; cbn in *; [lia|]. rewrite IH; lia. Qed.
Lemma substring_chars p n s : all_chars p s = true → all_chars p (String.substring 0 n s) = true.
Proof. induction n as [|n IH] in s |- *; (destruct s as [|c s]; [done|]); cbn; [done|]. intros [-> Hs]%andb_true_iff. by rewrite IH. Qed.

Section Ids.
Context (digest : string → list Z) (digest_bytes : ∀ s, length (digest s) = 32 ∧ Forall byte (digest s)).

Lemma hex_digest_ok s : all_chars alphanumeric (hex_digest digest s) = true ∧ String.length (hex_digest digest s) = 64.
Proof.
  destruct (digest_bytes s) as [Hl Hb]. destruct (hex_bytes_ok _ Hb) as [Hc Hn]. unfold hex_digest. split; [|lia].
  revert Hc. apply all_chars_impl. intros c. unfold is_lower_hex, alphanumeric. destruct c as [[] [] [] [] [] [] [] []]; by vm_compute.
Qed.

Lemma candidate_ok api id counter : toolCallIdRule api (candidate_id digest api id counter) = true.
Proof.
  unfold candidate_id, toolCallIdRule. set (text := if counter =? 0 then id else _). destruct (hex_digest_ok text) as [Hc Hn]. destruct (is_mistral api).
  - unfold mistral_id. by rewrite substring_length, (substring_chars _ _ _ Hc) by lia.
  - assert (Hlen : String.length ("call_" +:+ hex_digest digest text) = 69) by (rewrite string_length_app; cbn; lia).
    unfold portable_id. rewrite substring_length by lia. rewrite substring_chars; [done|].
    rewrite all_chars_app. apply andb_true_iff. split; [done|]. revert Hc. apply all_chars_impl. intros c Hc. unfold id_char. by rewrite Hc.
Qed.

Lemma free_candidate_spec api id occupied counter tries c : free_candidate digest api id occupied counter tries = Some c →
  c ∉ occupied ∧ toolCallIdRule api c = true.
Proof.
  induction tries as [|tries IH] in counter |- *; cbn; [done|]. case_bool_decide as Hd; [apply IH|]. intros [= <-]. split; [done|apply candidate_ok].
Qed.

Lemma normalized_spec id api occupied n : normalizedToolCallId digest id api occupied = Ok n → n ∉ occupied ∧ toolCallIdRule api n = true.
Proof.
  unfold normalizedToolCallId. destruct (_ && _) eqn:E.
  - intros [= <-]. apply andb_true_iff in E as [? Hn]. apply negb_true_iff, bool_decide_eq_false_1 in Hn. done.
  - destruct (free_candidate _ _ _ _ _ _) as [c|] eqn:Hf; [|done]. intros [= <-]. by eapply free_candidate_spec.
Qed.
End Ids.

(** ** What is sent *)

(** The identifiers and names of a call and of a result, as the provider and as the session know
    them. *)
Definition call_key (c : PreparedToolCall) : string * string * string * string := (ptc_callId c, ptc_canonicalCallId c, ptc_name c, ptc_canonicalName c).
Definition calls_of (m : PreparedRequestMessage) : list PreparedToolCall := match m with PAssistant _ (Some calls) _ _ => calls | _ => [] end.
Definition result_key (m : PreparedRequestMessage) : option (string * string * string * string) :=
  match m with PTool callId canonicalCallId name canonicalName _ _ => Some (callId, canonicalCallId, name, canonicalName) | _ => None end.

(** Every assistant message is followed by the results of its calls, each once, and by no others. *)
Inductive answered_calls : list PreparedRequestMessage → Prop :=
| answered_nil : answered_calls []
| answered_user items rest : answered_calls rest → answered_calls (PUser items :: rest)
| answered_assistant m results keys rest : (∃ items calls origin continuation, m = PAssistant items calls origin continuation) →
    result_key <$> results = Some <$> keys → keys ≡ₚ call_key <$> calls_of m → answered_calls rest → answered_calls (m :: results ++ rest).

(** Nothing of another model. *)
Definition own_signature (target : ProviderModelIdentity) (s : option ProviderSignature) : Prop := ∀ x, s = Some x → psg_identity x = target.
Definition own_continuation (target : ProviderModelIdentity) (c : option ProviderContinuationMetadata) : Prop := ∀ x, c = Some x → pcm_identity x = target.
Definition own_item (target : ProviderModelIdentity) (i : RequestAssistantContent) : Prop :=
  match i with
  | RText _ s c => own_signature target s ∧ own_continuation target c
  | RThinking text s redacted => own_signature target s ∧ (s = None → text ≠ "" ∧ redacted = None)
  | RBlob _ => True
  end.
Definition own_message (target : ProviderModelIdentity) (m : PreparedRequestMessage) : Prop :=
  match m with
  | PAssistant items calls _ continuation =>
      Forall (own_item target) items ∧ own_continuation target continuation ∧
      Forall (λ c, own_signature target (ptc_signature c) ∧ own_continuation target (ptc_continuation c)) (default [] calls)
  | _ => True
  end.

(** What a kept value was, and what it is now. *)
Definition kept {A} (identity : A → ProviderModelIdentity) (target : ProviderModelIdentity) (a a' : option A) : Prop :=
  a' = match a with Some x => if bool_decide (identity x = target) then Some x else None | None => None end.
Definition same_item (target : ProviderModelIdentity) (i i' : RequestAssistantContent) : Prop :=
  match i, i' with
  | RText t s c, RText t' s' c' => t = t' ∧ kept psg_identity target s s' ∧ kept pcm_identity target c c'
  | RThinking t s _, RThinking t' s' _ => t = t' ∧ kept psg_identity target s s'
  | RBlob b, RBlob b' => b = b'
  | _, _ => False
  end.
Definition same_call (target : ProviderModelIdentity) (c : RequestToolCall) (c' : PreparedToolCall) : Prop :=
  ptc_canonicalCallId c' = rtc_callId c ∧ ptc_canonicalName c' = rtc_name c ∧ ptc_input c' = rtc_input c ∧
  kept psg_identity target (rtc_signature c) (ptc_signature c') ∧ kept pcm_identity target (rtc_continuation c) (ptc_continuation c').
Definition same_message (target : ProviderModelIdentity) (m : RequestModelMessage) (p : PreparedRequestMessage) : Prop :=
  match m, p with
  | RUser items, PUser items' => items = items'
  | RAssistant items calls origin c, PAssistant items' calls' origin' c' =>
      Forall2 (same_item target) items items' ∧ origin = origin' ∧ kept pcm_identity target c c' ∧
      match calls, calls' with
      | None, None => True
      | Some l, Some l' => Forall2 (same_call target) l l'
      | _, _ => False
      end
  | RTool id name items e, PTool _ id' _ name' items' e' => id = id' ∧ name = name' ∧ items = items' ∧ e = e'
  | _, _ => False
  end.

Lemma kept_own_signature target s s' : kept psg_identity target s s' → own_signature target s'.
Proof. intros -> x. destruct s as [y|]; [|done]. case_bool_decide; [|done]. by intros [= <-]. Qed.
Lemma kept_own_continuation target c c' : kept pcm_identity target c c' → own_continuation target c'.
Proof. intros -> x. destruct c as [y|]; [|done]. case_bool_decide; [|done]. by intros [= <-]. Qed.

Lemma keepSignature_spec s target path sans s' sans' : keepSignature s target path sans = Ok (s', sans') → kept psg_identity target s s'.
Proof.
  unfold keepSignature, kept. destruct s as [x|]; [|by intros [= <- _]]. intros H. apply bind_Ok in H as ([] & _ & H). apply bind_Ok in H as ([] & _ & H).
  destruct (bool_decide _); by injection H.
Qed.
Lemma keepContinuation_spec c target path sans c' sans' : keepContinuation c target path sans = Ok (c', sans') → kept pcm_identity target c c'.
Proof.
  unfold keepContinuation, kept. destruct c as [x|]; [|by intros [= <- _]]. intros H. do 4 (apply bind_Ok in H as ([] & _ & H)).
  destruct (bool_decide _); by injection H.
Qed.

Lemma sanitize_spec target path i sans i' sans' : sanitizeContent target path i sans = Ok (i', sans') → same_item target i i' ∧ own_item target i'.
Proof.
  unfold sanitizeContent. destruct i as [t s c|t s r|b]; intros H.
  - apply bind_Ok in H as ([s1 sans1] & Hs & H). apply bind_Ok in H as ([c1 sans2] & Hc & H). injection H as <- _.
    apply keepSignature_spec in Hs. apply keepContinuation_spec in Hc. split; [done|]. split; [by eapply kept_own_signature|by eapply kept_own_continuation].
  - apply bind_Ok in H as ([s1 sans1] & Hs & H). apply bind_Ok in H as ([] & Hr & H). apply bind_Ok in H as ([] & Ht & H). injection H as <- _.
    apply fail_if_Ok in Hr, Ht. apply keepSignature_spec in Hs. split; [done|]. split; [by eapply kept_own_signature|]. intros ->.
    rewrite (bool_decide_true (@None ProviderSignature = None)), andb_true_r in * by done.
    apply bool_decide_eq_false_1 in Hr, Ht. split; [done|]. by rewrite bool_decide_false.
  - apply bind_Ok in H as ([] & _ & H). by injection H as <- _.
Qed.

Lemma map_sans_spec {A B} (P : A → B → Prop) f i l sans l' sans' : (∀ i x sans y sans', f i x sans = Ok (y, sans') → P x y) →
  map_sans f i l sans = Ok (l', sans') → Forall2 P l l'.
Proof.
  intros Hf. induction l as [|x l IH] in i, sans, l', sans' |- *; cbn; [by intros [= <- _]; constructor|]. intros H.
  apply bind_Ok in H as ([y sans1] & Hy & H). apply bind_Ok in H as ([ys sans2] & Hys & H). injection H as <- _. constructor; [by eapply Hf|by eapply IH].
Qed.
Lemma clone_items path items items' : map_indexed (λ i item, cloneBasicContent item (path i)) items = Ok items' → items = items'.
Proof.
  unfold map_indexed. generalize 0. induction items as [|c items IH] in items' |- *; intros n; cbn; [by intros [= <-]|]. intros H.
  apply bind_Ok in H as (c' & Hc & H). apply bind_Ok in H as (l & Hl & H). injection H as <-. f_equal; [|by eapply IH].
  unfold cloneBasicContent in Hc. destruct c; [by injection Hc|done|]. apply bind_Ok in Hc as ([] & _ & Hc). by injection Hc.
Qed.

(** ** The loop *)

Lemma map_delete_absent {K V} `{EqDecision K} (k : K) (m : list (K * V)) : k ∉ m.*1 → map_delete k m = m.
Proof.
  unfold map_delete. induction m as [|[a b] m IH]; [done|]. cbn [fst fmap list_fmap]. intros [Ha Hm]%not_elem_of_cons. rewrite filter_cons.
  cbn. rewrite decide_True by done. by rewrite IH.
Qed.
Lemma map_delete_perm {K V} `{EqDecision K} (k : K) (v : V) (m : list (K * V)) : map_ok m → map_get k m = Some v → m ≡ₚ (k, v) :: map_delete k m.
Proof.
  unfold map_ok. induction m as [|[a b] m IH]; [done|]. cbn [map_get fst fmap list_fmap]. intros [Ha Hm]%NoDup_cons.
  unfold map_delete. rewrite filter_cons. fold (map_delete k m). cbn.
  destruct (decide (a = k)) as [->|Hne].
  - rewrite bool_decide_true by done. intros [= ->]. rewrite decide_False by naive_solver. by rewrite map_delete_absent.
  - rewrite bool_decide_false by done. intros Hg. rewrite decide_True by done. rewrite (IH Hm Hg) at 1. by constructor.
Qed.

Section History.
Context (digest : string → list Z) (digest_bytes : ∀ s, length (digest s) = 32 ∧ Forall byte (digest s)).
Context (model : ModelInfo) (tools : list PreparedToolDeclaration) (dialect : ToolDialectData).

Let target := targetIdentity model.
Let rule (c : PreparedToolCall) : Prop := toolCallIdRule (mi_apiDialect model) (ptc_callId c) = true.
Let own_call (c : PreparedToolCall) : Prop := own_signature target (ptc_signature c) ∧ own_continuation target (ptc_continuation c).

Definition visible (name : string) : string := match visible_name tools dialect name with Ok n => n | Err _ => "" end.

(** The pending calls, with the keys their results will have. *)
Definition expected_key (h : history) (kv : string * string) : string * string * string * string :=
  (default "" (map_get kv.1 (hs_callIds h)), kv.1, visible kv.2, kv.2).
Definition expected (h : history) : list (string * string * string * string) := expected_key h <$> hs_pending h.

Record sound_history (h : history) : Prop := {
  pending_once : map_ok (hs_pending h);
  pending_known : ∀ id, id ∈ (hs_pending h).*1 → id ∈ (hs_callIds h).*1;
  occupied_once : NoDup (hs_occupied h)
}.

(** What a step adds to the history: the calls [calls]. *)
Record adds (h : history) (calls : list PreparedToolCall) (h' : history) : Prop := {
  adds_sound : sound_history h';
  adds_occupied : hs_occupied h' = hs_occupied h ++ (ptc_callId <$> calls);
  adds_rule : Forall rule calls
}.

Lemma prepare_call_spec path i call h c h' : prepare_call digest model tools dialect path i call h = Ok (c, h') → sound_history h →
  same_call target call c ∧ own_call c ∧ adds h [c] h' ∧ expected h' = expected h ++ [call_key c].
Proof.
  intros H [Hp Hk Ho]. unfold prepare_call in H. do 3 (apply bind_Ok in H as ([] & _ & H)). apply bind_Ok in H as ([] & Hn & H).
  apply fail_if_Ok, map_has_false in Hn. apply bind_Ok in H as (id & Hid & H). apply bind_Ok in H as (name & Hname & H).
  apply bind_Ok in H as ([s sans] & Hs & H). apply bind_Ok in H as ([k sans'] & Hc & H). injection H as <- <-.
  apply (normalized_spec digest digest_bytes) in Hid as [Hocc Hrule]. apply keepSignature_spec in Hs. apply keepContinuation_spec in Hc.
  assert (Hpn : rtc_callId call ∉ (hs_pending h).*1) by (intros Hin; by apply Hn, Hk).
  split_and!; [done|split; [by eapply kept_own_signature|by eapply kept_own_continuation]| |].
  - split; [|done|by constructor]. split; cbn.
    + by apply map_set_ok.
    + intros x. rewrite !map_set_new, !fmap_app by done. intros [Hx|Hx]%elem_of_app; apply elem_of_app; [left; by apply Hk|by right].
    + apply NoDup_app. split_and!; [done| |apply NoDup_singleton]. intros x Hx ->%list_elem_of_singleton. done.
  - unfold expected. cbn [hs_pending]. rewrite (map_set_new (rtc_callId call) (rtc_name call)), fmap_app by done. f_equal.
    + apply list_fmap_ext. intros j [x n] Hx. unfold expected_key. cbn. rewrite map_get_set, bool_decide_false; [done|]. intros <-.
      apply Hpn. apply list_elem_of_fmap. exists (rtc_callId call, n). split; [done|]. by eapply list_elem_of_lookup_2.
    + cbn. unfold expected_key, call_key, visible. cbn. by rewrite map_get_set, bool_decide_true, Hname.
Qed.

Lemma prepare_calls_spec path calls i h cs h' : prepare_calls digest model tools dialect path i calls h = Ok (cs, h') → sound_history h →
  Forall2 (same_call target) calls cs ∧ Forall own_call cs ∧ adds h cs h' ∧ expected h' = expected h ++ (call_key <$> cs).
Proof.
  induction calls as [|call calls IH] in i, h, cs, h' |- *; cbn; intros H Hh.
  - injection H as <- <-. split_and!; [constructor..| |by rewrite app_nil_r]. by split; [|rewrite app_nil_r|].
  - apply bind_Ok in H as ([c h1] & Hc & H). apply bind_Ok in H as ([cs' h2] & Hcs & H). injection H as <- <-.
    apply prepare_call_spec in Hc as (Hsame & Hown & [Hs1 Ho1 Hr1] & He1); [|done].
    apply IH in Hcs as (Hsames & Howns & [Hs2 Ho2 Hr2] & He2); [|done]. split_and!; [by constructor..| |].
    + split; [done|by rewrite Ho2, Ho1, <- app_assoc|]. inversion Hr1; by constructor.
    + by rewrite He2, He1, <- app_assoc.
Qed.

(** The results still owed after a message, given those owed before it. *)
Inductive step_kind : list (string * string * string * string) → PreparedRequestMessage → list (string * string * string * string) → Prop :=
| step_user items : step_kind [] (PUser items) []
| step_assistant items calls origin continuation :
    step_kind [] (PAssistant items calls origin continuation) (call_key <$> calls_of (PAssistant items calls origin continuation))
| step_tool m k owed owed' : result_key m = Some k → owed ≡ₚ k :: owed' → calls_of m = [] → step_kind owed m owed'.

Lemma prepare_message_spec i m h p h' : prepare_message digest model tools dialect i m h = Ok (p, h') → sound_history h →
  same_message target m p ∧ own_message target p ∧ adds h (calls_of p) h' ∧ step_kind (expected h) p (expected h').
Proof.
  intros H Hh. unfold prepare_message in H. apply bind_Ok in H as ([] & _ & H). destruct m as [items|items calls origin k|callId name items isError].
  - apply bind_Ok in H as ([] & Hp & H). apply fail_if_Ok, negb_false_iff, bool_decide_eq_true_1 in Hp. apply bind_Ok in H as (items' & Hi & H).
    injection H as <- <-. apply clone_items in Hi as <-. split_and!; [done..| |].
    + split; [done|by rewrite app_nil_r|constructor].
    + unfold expected. rewrite Hp. constructor.
  - apply bind_Ok in H as ([] & Hp & H). apply fail_if_Ok, negb_false_iff, bool_decide_eq_true_1 in Hp. apply bind_Ok in H as ([] & _ & H).
    apply bind_Ok in H as ([k' sans] & Hk & H). apply keepContinuation_spec in Hk. apply bind_Ok in H as ([items' sans'] & Hi & H).
    apply (map_sans_spec (λ x y, same_item target x y ∧ own_item target y)) in Hi; [|intros ?????; apply sanitize_spec].
    assert (Hitems : Forall2 (same_item target) items items' ∧ Forall (own_item target) items').
    { split; [by eapply Forall2_impl; [apply Hi|intros ?? []]|]. clear -Hi. induction Hi as [|???? [_ ?]]; by constructor. }
    destruct Hitems as [Hsame Hown]. assert (He : expected h = []) by (unfold expected; by rewrite Hp). rewrite He.
    destruct calls as [calls|].
    + apply bind_Ok in H as ([cs h1] & Hcs & H). injection H as <- <-.
      apply prepare_calls_spec in Hcs as (Hcalls & Howns & Hadds & He'); [|by destruct Hh; split].
      split_and!; [done..|by split_and!; [|eapply kept_own_continuation|]|destruct Hadds; by split|].
      rewrite He'. unfold expected in *. cbn. rewrite Hp. cbn. apply (step_assistant _ (Some cs)).
    + injection H as <- <-. split_and!; [done..|by split_and!; [|eapply kept_own_continuation|constructor]| |].
      * split; [by destruct Hh; split|by rewrite app_nil_r|constructor].
      * unfold expected. cbn. rewrite Hp. apply (step_assistant _ None).
  - do 2 (apply bind_Ok in H as ([] & _ & H)). destruct (map_get callId (hs_pending h)) as [expectedName|] eqn:Hg; [|done].
    apply bind_Ok in H as ([] & Hn & H). apply fail_if_Ok, negb_false_iff, bool_decide_eq_true_1 in Hn as ->.
    destruct (map_get callId (hs_callIds h)) as [id|] eqn:Hid; [|done]. apply bind_Ok in H as (vis & Hv & H). apply bind_Ok in H as (items' & Hi & H).
    injection H as <- <-. apply clone_items in Hi as <-. destruct Hh as [Hp Hk Ho]. split_and!; [done..| |].
    + split; [|by rewrite app_nil_r|constructor]. split; cbn; [by apply map_delete_ok| |done].
      intros x (kv & -> & [_ Hx]%list_elem_of_filter)%list_elem_of_fmap. apply Hk, list_elem_of_fmap. by exists kv.
    + eapply step_tool; [done| |done]. unfold expected at 1. rewrite (map_delete_perm _ _ _ Hp Hg). cbn. unfold expected_key at 1. cbn.
      unfold visible. by rewrite Hid, Hv.
Qed.

Lemma prepare_messages_spec i messages h out h' : prepare_messages digest model tools dialect i messages h = Ok (out, h') → sound_history h →
  Forall2 (same_message target) messages out ∧ Forall (own_message target) out ∧ adds h (out ≫= calls_of) h'.
Proof.
  induction messages as [|m messages IH] in i, h, out, h' |- *; cbn; intros H Hh.
  - injection H as <- <-. split_and!; [constructor..|]. split; [done|by rewrite app_nil_r|constructor].
  - apply bind_Ok in H as ([p h1] & Hp & H). apply bind_Ok in H as ([ps h2] & Hps & H). injection H as <- <-.
    apply prepare_message_spec in Hp as (Hs & Ho & [Hs1 Ho1 Hr1] & _); [|done]. apply IH in Hps as (Hss & Hos & [Hs2 Ho2 Hr2]); [|done].
    split_and!; [by constructor..|]. cbn. split; [done|by rewrite Ho2, Ho1, fmap_app, <- app_assoc|by apply Forall_app].
Qed.

(** The results owed at the start come first, then a paired history. *)
Lemma prepare_messages_paired i messages h out h' : prepare_messages digest model tools dialect i messages h = Ok (out, h') → sound_history h →
  hs_pending h' = [] →
  ∃ results keys rest, out = results ++ rest ∧ result_key <$> results = Some <$> keys ∧ keys ≡ₚ expected h ∧ answered_calls rest.
Proof.
  intros H Hh Hend. induction messages as [|m messages IH] in i, h, out, H, Hh |- *; cbn in H.
  - injection H as <- <-. exists [], [], []. unfold expected. rewrite Hend. by split_and!; [..|constructor].
  - apply bind_Ok in H as ([p h1] & Hp & H). apply bind_Ok in H as ([ps h2] & Hps & H). injection H as <- <-.
    apply prepare_message_spec in Hp as (_ & _ & [Hs1 _ _] & Hstep); [|done]. apply IH in Hps as (results & keys & rest & -> & Hr & Hk & Ha); [|done].
    inversion Hstep as [items He Hp He1|items calls o k He Hp He1|m' k owed owed' Hrk Hperm _ He]; subst.
    + rewrite <- He1 in Hk. apply Permutation_nil_r in Hk as ->. apply fmap_nil_inv in Hr as ->. exists [], [], (PUser items :: rest).
      by split_and!; [..|constructor].
    + exists [], [], (PAssistant items calls o k :: results ++ rest). split_and!; [done..|]. eapply answered_assistant; [naive_solver|done|by rewrite Hk, <- He1|done].
    + exists (p :: results), (k :: keys), rest. split_and!; [done|cbn; congruence|by rewrite Hk, Hperm|done].
Qed.

Lemma prepared_history messages out sans : prepareHistory digest model tools dialect messages = Ok (out, sans) →
  answered_calls out ∧ NoDup (ptc_callId <$> (out ≫= calls_of)) ∧ Forall (λ c, toolCallIdRule (mi_apiDialect model) (ptc_callId c) = true) (out ≫= calls_of) ∧
  ∃ h, prepare_messages digest model tools dialect 0 messages no_history = Ok (out, h).
Proof.
  intros H. unfold prepareHistory in H. apply bind_Ok in H as ([out' h] & H & Hend). apply bind_Ok in Hend as ([] & Hp & [= <- <-]).
  apply fail_if_Ok, negb_false_iff, bool_decide_eq_true_1 in Hp.
  assert (Hno : sound_history no_history) by (split; [constructor|done|constructor]).
  destruct (prepare_messages_spec _ _ _ _ _ H Hno) as (_ & _ & [[_ _ Hd] Hocc Hr]). cbn in Hocc. rewrite Hocc in Hd.
  split_and!; [|done..|by eexists]. destruct (prepare_messages_paired _ _ _ _ _ H Hno Hp) as (results & keys & rest & -> & Hrk & Hk & Ha).
  apply Permutation_nil_r in Hk as ->. by apply fmap_nil_inv in Hrk as ->.
Qed.

(** C11: an accepted history is the given one, and a provider can take it: every assistant message
    is followed at once by one result for each of its calls, with the identifier and the name
    the call was sent under, and by no other results; the identifiers sent are distinct and of
    the form the model's interface takes; and signatures and continuations are there exactly
    when the same model made them. *)
Theorem prepared_history_is_paired messages out sans :
  prepareHistory digest model tools dialect messages = Ok (out, sans) →
  answered_calls out ∧
  NoDup (ptc_callId <$> (out ≫= calls_of)) ∧ Forall (λ c, toolCallIdRule (mi_apiDialect model) (ptc_callId c) = true) (out ≫= calls_of) ∧
  Forall2 (same_message (targetIdentity model)) messages out ∧ Forall (own_message (targetIdentity model)) out.
Proof.
  intros H. apply prepared_history in H as (Ha & Hd & Hr & h & Hm).
  destruct (prepare_messages_spec _ _ _ _ _ Hm) as (Hs & Ho & _); [by split; [constructor|done|constructor]|done].
Qed.
End History.

(** ** Histories that are refused *)

(** A turn without any output is refused wherever it is in the history. *)
Lemma prepare_messages_refuse digest model tools dialect i messages h origin k calls : default [] calls = [] → RAssistant [] calls origin k ∈ messages →
  ∀ r, prepare_messages digest model tools dialect i messages h ≠ Ok r.
Proof.
  intros Hc. induction messages as [|m messages IH] in i, h |- *; [by intros ?%elem_of_nil|]. intros [<-|Hin]%elem_of_cons r; cbn.
  - unfold prepare_message. cbn. by destruct calls as [[|]|].
  - destruct (prepare_message _ _ _ _ _ _ _) as [[p h1]|]; [|done]. cbn. destruct (prepare_messages _ _ _ _ _ _ _) as [[ps h2]|] eqn:Hm; [|done].
    exfalso. by apply (IH (S i) h1 Hin (ps, h2)).
Qed.
Lemma empty_turn_refused digest model tools dialect messages origin k calls : default [] calls = [] → RAssistant [] calls origin k ∈ messages →
  ∀ r, prepareHistory digest model tools dialect messages ≠ Ok r.
Proof.
  intros Hc Hin r. unfold prepareHistory. destruct (prepare_messages _ _ _ _ _ _ _) as [[ps h2]|] eqn:Hm; [|done].
  by destruct (prepare_messages_refuse _ _ _ _ _ _ _ _ _ _ Hc Hin _ Hm).
Qed.

(** ** A history *)

Definition sample_capabilities : ModelCapabilities := {| mcap_toolUse := true; mcap_structuredOutput := false; mcap_imageInput := false |}.
Definition sample_model (dialect : string) : ModelInfo :=
  {| mi_providerId := "acme"; mi_modelId := "m"; mi_apiDialect := dialect; mi_capabilities := sample_capabilities;
     mi_thinking := {| mts_reasoning := true; mts_levelMap := λ _, Unmapped |}; mi_contextWindow := NInt 200000; mi_maxOutputTokens := NInt 64000;
     mi_cache := None; mi_sampling := None; mi_compatibility := None |}.
Definition sample_identity (modelId : string) : ProviderModelIdentity :=
  {| pmi_providerId := "acme"; pmi_apiDialect := "anthropic-messages"; pmi_modelId := modelId |}.
Definition sample_call (id name : string) : RequestToolCall :=
  {| rtc_callId := id; rtc_name := name; rtc_input := []; rtc_signature := None; rtc_continuation := None |}.

(** Two calls, one under an identifier the provider does not take; the results come in the other
    order; one signature is another model's. *)
Definition sample_history : list RequestModelMessage :=
  [RUser [CText "go"];
   RAssistant [RThinking "a" (Some {| psg_identity := sample_identity "m"; psg_value := "s" |}) None;
               RThinking "b" (Some {| psg_identity := sample_identity "other"; psg_value := "s" |}) None]
     (Some [sample_call "call 1" "read"; sample_call "c2" "edit"]) None None;
   RTool "c2" "edit" [CText "done"] false;
   RTool "call 1" "read" [CText "text"] false;
   RAssistant [RText "ok" None None] None None None].

Definition sample_prepared : prepared (list PreparedRequestMessage * list RequestSanitization) :=
  prepareHistory sample_digest (sample_model "anthropic-messages") [] OPENAI_CHAT_TOOL_DIALECT sample_history.

Lemma prepared_history_is_paired_witness : ∃ out sans, sample_prepared = Ok (out, sans) ∧ answered_calls out ∧
  length (out ≫= calls_of) = 2 ∧ NoDup (ptc_callId <$> (out ≫= calls_of)) ∧ length sans = 1.
Proof.
  destruct sample_prepared as [[out sans]|] eqn:E; [|vm_compute in E; discriminate].
  exists out, sans. split; [done|].
  destruct (prepared_history_is_paired sample_digest sample_digest_bytes (sample_model "anthropic-messages") [] OPENAI_CHAT_TOOL_DIALECT
              sample_history out sans E) as (Ha & Hd & _).
  split; [exact Ha|]. split; [|split; [exact Hd|]]; clear Ha Hd; vm_compute in E; injection E as <- <-; reflexivity.
Defined.
