(* ===== verification/StrictSchema.v ===== *)
(** Strict tool schemas: what [makeStrictNode] of ai/src/request-preparation.ts makes of a
    schema, and that it always ends. *)
From stdpp Require Import base list sets strings pretty.
From Stdlib Require Import ZArith Lia.
From S2P Require Import Prelude Text JsValue Json JsonText JsMap Sha256 Envelope Types ModelStream ProviderTypes Thinking Dialect Preparation PreparationFacts.

(** A schema every value of which has exactly the declared fields, at every level: the objects
    admit no other properties and require all they have. *)
Inductive strict_schema : jsval → Prop :=
| strict_node fs :
    Forall (λ key, key ∉ UNSUPPORTED_STRICT_KEYS) (keys fs) →
    get "anyOf" fs = JUndef ∨ (∃ l, get "anyOf" fs = JArr l ∧ l ≠ [] ∧ ∀ v, v ∈ l → strict_schema v) →
    get "items" fs = JUndef ∨ strict_schema (get "items" fs) →
    (get "type" fs ≠ JStr "object" → get "properties" fs = JUndef) →
    (get "type" fs = JStr "object" → get "additionalProperties" fs = JBool false ∧
       ∃ ps, (get "properties" fs = JObj ps ∨ get "properties" fs = JUndef ∧ ps = []) ∧ get "required" fs = JArr (JStr <$> keys ps) ∧
             ∀ kv, kv ∈ ps → strict_schema kv.2) →
    strict_schema (JObj fs).

Lemma get_map_set k k' v fs : get k' (map_set k v fs) = if bool_decide (k = k') then v else get k' fs.
Proof.
  induction fs as [|[a b] fs IH]; cbn [map_set get]; [done|]. destruct (bool_decide_reflect (a = k)) as [->|Hak]; cbn [get].
  - by case_bool_decide.
  - rewrite IH. destruct (bool_decide_reflect (a = k')) as [->|]; [by rewrite bool_decide_false by done|done].
Qed.
Lemma keys_map_set k v fs x : x ∈ keys (map_set k v fs) → x = k ∨ x ∈ keys fs.
Proof.
  unfold keys. destruct (decide (k ∈ fs.*1)) as [Hk|Hk]; [rewrite map_set_keys by done; by right|].
  rewrite map_set_new, fmap_app by done. intros [?|Hx]%elem_of_app; [by right|]. left. by apply list_elem_of_singleton in Hx.
Qed.

(** The nodes keep their keys supported. *)
Lemma supported_map_set k v fs : k ∉ UNSUPPORTED_STRICT_KEYS → Forall (λ key, key ∉ UNSUPPORTED_STRICT_KEYS) (keys fs) →
  Forall (λ key, key ∉ UNSUPPORTED_STRICT_KEYS) (keys (map_set k v fs)).
Proof. rewrite !Forall_forall. intros Hk Hfs x [->|Hx]%keys_map_set; [done|by apply Hfs]. Qed.

Lemma nullable_strict property : strict_schema property → strict_schema (nullable_schema property).
Proof.
  intros Hp. constructor; try done.
  - apply Forall_forall. intros x Hx%list_elem_of_singleton. subst. by vm_compute; set_solver.
  - right. eexists. split; [done|]. split; [done|]. intros v [->|[->|[]%elem_of_nil]%elem_of_cons]%elem_of_cons; [done|].
    constructor; try done; try (by left). apply Forall_forall. intros x Hx%list_elem_of_singleton. subst. by vm_compute; set_solver.
  - by left.
Qed.

Lemma not_type_object fs : is_str "object" (get "type" fs) = false → get "type" fs ≠ JStr "object".
Proof. intros H E. by rewrite E in H. Qed.

(** Closed facts on names. *)
Ltac names := apply (bool_decide_unpack _); vm_compute; exact I.

(** The keys and the members that are set while a node is made strict are not its type. *)
Definition untouched (fs fs' : fields) (changed : list string) : Prop := ∀ k, k ∉ changed → get k fs' = get k fs.

Section Node.
Context (fuel : nat) (rec : ∀ schema path v, makeStrictNode fuel schema path = Ok v → strict_schema v).
Context (supported := Forall (λ key, key ∉ UNSUPPORTED_STRICT_KEYS)).

(** The union of a node. *)
Lemma strict_union path fs fs' : supported (keys fs) →
  match get "anyOf" fs with
  | JUndef => Ok fs
  | JArr (x :: l) =>
      variants ← map_indexed (λ i variant,
        let at_ := element (member path "anyOf") i in
        _ ← fail_if (structuredSchema variant) at_ "uses an unsupported structured union";
        makeStrictNode fuel variant at_) (x :: l);
      Ok (map_set "anyOf" (JArr variants) fs)
  | _ => fail (member path "anyOf") "must not be empty"
  end = Ok fs' →
  supported (keys fs') ∧ untouched fs fs' ["anyOf"] ∧
  (get "anyOf" fs' = JUndef ∨ ∃ l, get "anyOf" fs' = JArr l ∧ l ≠ [] ∧ ∀ v, v ∈ l → strict_schema v).
Proof.
  intros Hk. destruct (get "anyOf" fs) as [| | | | |[|x l]| | |] eqn:Ha; try done.
  - intros [= <-]. split_and!; [done|done|by left].
  - intros H. apply bind_Ok in H as (vs & Hm & [= <-]). apply map_indexed_Ok in Hm as [Hlen Hm]. split_and!.
    + apply supported_map_set; [by vm_compute; set_solver|done].
    + intros k Hne. rewrite get_map_set, bool_decide_false; [done|set_solver].
    + right. exists vs. rewrite get_map_set, bool_decide_true by done. split; [done|]. split; [by intros ->|]. intros v [j Hv]%list_elem_of_lookup.
      destruct (lookup_lt_is_Some_2 (x :: l) j) as [y Hy]; [rewrite Hlen; by eapply lookup_lt_Some|].
      specialize (Hm _ _ _ Hy Hv). cbn beta zeta in Hm. apply bind_Ok in Hm as (_ & _ & Hm). by apply rec in Hm.
Qed.

(** The items of a node. *)
Lemma strict_items path fs fs' : supported (keys fs) →
  match get "items" fs with
  | JUndef => Ok fs
  | JArr _ => fail (member path "items") "tuple schemas are unsupported in strict mode"
  | items => items' ← makeStrictNode fuel items (member path "items"); Ok (map_set "items" items' fs)
  end = Ok fs' →
  supported (keys fs') ∧ untouched fs fs' ["items"] ∧ (get "items" fs' = JUndef ∨ strict_schema (get "items" fs')).
Proof.
  intros Hk H. assert (Hcase : get "items" fs = JUndef ∧ fs' = fs ∨ ∃ items', strict_schema items' ∧ fs' = map_set "items" items' fs).
  { destruct (get "items" fs); first [by injection H as <-; left | done | apply bind_Ok in H as (items' & Hi & [= <-]); right; exists items'; by apply rec in Hi]. }
  destruct Hcase as [[Hi ->]|(items' & Hs & ->)]; [by split_and!; [..|left]|]. split_and!.
  - apply supported_map_set; [by vm_compute; set_solver|done].
  - intros k Hne. rewrite get_map_set, bool_decide_false; [done|set_solver].
  - right. by rewrite get_map_set, bool_decide_true.
Qed.
End Node.

Lemma makeStrictNode_strict fuel schema path v : makeStrictNode fuel schema path = Ok v → strict_schema v.
Proof.
  revert schema path v. induction fuel as [|fuel IH]; [done|]. intros schema path v. cbn [makeStrictNode].
  destruct (schema_fields schema) as [fs|]; [|done]. intros H. apply bind_Ok in H as ([] & Hk & H).
  assert (Hsupported : Forall (λ key, key ∉ UNSUPPORTED_STRICT_KEYS) (keys fs)).
  { apply each_Ok in Hk. eapply Forall_impl; [exact Hk|]. intros key Hkey%fail_if_Ok. by apply bool_decide_eq_false_1 in Hkey. }
  apply bind_Ok in H as (fs1 & H1 & H). apply (strict_union fuel IH) in H1 as (Hk1 & Hu1 & Ha1); [|done].
  apply bind_Ok in H as (fs2 & H2 & H). apply (strict_items fuel IH) in H2 as (Hk2 & Hu2 & Hi2); [|done].
  assert (Ha2 : get "anyOf" fs2 = JUndef ∨ ∃ l, get "anyOf" fs2 = JArr l ∧ l ≠ [] ∧ ∀ v, v ∈ l → strict_schema v) by (rewrite (Hu2 "anyOf" ltac:(names)); exact Ha1).
  destruct (is_str "object" (get "type" fs2)) eqn:Ht; cbn [negb] in H.
  - apply is_str_spec in Ht. apply bind_Ok in H as ([] & _ & H). apply bind_Ok in H as (ps & Hps & H). apply bind_Ok in H as (required & _ & H).
    do 2 (apply bind_Ok in H as ([] & _ & H)). apply bind_Ok in H as (ps' & Hm & [= <-]).
    apply map_indexed_Ok in Hm as [Hlen Hm].
    assert (Hkeys : keys ps' = keys ps).
    { unfold keys. apply list_eq_same_length with (n := length ps); rewrite ?length_fmap; [done..|]. intros j k k' _. rewrite !list_lookup_fmap.
      destruct (ps' !! j) as [[k1 v1]|] eqn:E1, (ps !! j) as [[k2 v2]|] eqn:E2; try done. cbn. intros [= <-] [= <-].
      specialize (Hm _ _ _ E2 E1). cbn beta in Hm. apply bind_Ok in Hm as (p & _ & [= <- _]). done. }
    assert (Hstrict : ∀ kv, kv ∈ ps' → strict_schema kv.2).
    { intros kv [j Hj]%list_elem_of_lookup. destruct (lookup_lt_is_Some_2 ps j) as [y Hy]; [rewrite Hlen; by eapply lookup_lt_Some|].
      specialize (Hm _ _ _ Hy Hj). cbn beta in Hm. apply bind_Ok in Hm as (p & Hp & [= <-]). apply IH in Hp. cbn.
      destruct (_ || _); [done|by apply nullable_strict]. }
    set (fs3 := if defined (get "properties" fs2) then map_set "properties" (JObj ps') fs2 else fs2).
    assert (Hu3 : untouched fs2 fs3 ["properties"]).
    { intros k Hne. subst fs3. destruct (defined _); [|done]. rewrite get_map_set, bool_decide_false; [done|set_solver]. }
    assert (Hp3 : get "properties" fs3 = JObj ps' ∨ get "properties" fs3 = JUndef ∧ ps' = []).
    { subst fs3. destruct (get "properties" fs2) eqn:Ep; cbn [defined is_undef negb]; try (left; by rewrite get_map_set, bool_decide_true).
      right. split; [done|]. injection Hps as <-. by destruct ps'. }
    assert (Hk3 : Forall (λ key, key ∉ UNSUPPORTED_STRICT_KEYS) (keys fs3)).
    { subst fs3. destruct (defined _); [apply supported_map_set; [names|]|]; done. }
    clearbody fs3. constructor.
    + do 2 (apply supported_map_set; [names|]). done.
    + rewrite !get_map_set, !bool_decide_false, (Hu3 "anyOf" ltac:(names)) by names. exact Ha2.
    + rewrite !get_map_set, !bool_decide_false, (Hu3 "items" ltac:(names)) by names. exact Hi2.
    + rewrite !get_map_set, !bool_decide_false, (Hu3 "type" ltac:(names)) by names. done.
    + intros _. rewrite !get_map_set. cbn. split; [done|]. exists ps'. split; [done|]. split; [by rewrite Hkeys|done].
  - apply not_type_object in Ht. apply bind_Ok in H as ([] & Hp & [= <-]). apply fail_if_Ok in Hp. constructor; try done.
    intros _. by destruct (get "properties" fs2).
Qed.

(** ** It ends *)

Lemma map_indexed_Err {E A B} (f : nat → A → result E B) l e : map_indexed f l = Err e → ∃ j x, l !! j = Some x ∧ f j x = Err e.
Proof.
  unfold map_indexed. cut (∀ i, map_from f i l = Err e → ∃ j x, l !! j = Some x ∧ f (i + j) x = Err e); [intros H; apply (H 0)|].
  induction l as [|x l IH]; intros i; cbn; [done|]. destruct (f i x) as [y|e'] eqn:Hf; cbn.
  - destruct (map_from f (S i) l) as [|e''] eqn:Hl; [done|]. cbn. intros [= ->]. destruct (IH _ Hl) as (j & z & ? & Hz).
    exists (S j), z. by rewrite Nat.add_succ_r.
  - intros [= ->]. exists 0, x. by rewrite Nat.add_0_r.
Qed.
Lemma each_fail_fuel {A} (b : A → bool) path message l : each (λ x, fail_if (b x) (path x) (message x)) l ≠ Err PrepFuel.
Proof. unfold each. generalize 0. induction l as [|x l IH]; intros n; cbn; [done|]. destruct (b x); cbn; [done|apply IH]. Qed.

Lemma jdepth_elem (l : list jsval) v : v ∈ l → jdepth v <= foldr (λ x n, Nat.max (jdepth x) n) 0 l.
Proof. induction 1; cbn; lia. Qed.
Lemma jdepth_get k fs : get k fs ≠ JUndef → jdepth (get k fs) <= foldr (λ kv n, Nat.max (jdepth kv.2) n) 0 fs.
Proof. induction fs as [|[a b] fs IH]; cbn [get foldr snd]; [done|]. destruct (bool_decide _); [lia|]. intros H. specialize (IH H). lia. Qed.
Lemma jdepth_field (kv : string * jsval) fs : kv ∈ fs → jdepth kv.2 <= foldr (λ kv n, Nat.max (jdepth kv.2) n) 0 fs.
Proof. induction 1; cbn; lia. Qed.

Lemma schema_fields_depth v fs : schema_fields v = Some fs → jdepth v = S (foldr (λ kv n, Nat.max (jdepth kv.2) n) 0 fs).
Proof. by destruct v; intros [= <-]. Qed.
Lemma fail_if_fuel b path message : fail_if b path message ≠ Err PrepFuel.
Proof. by destruct b. Qed.
Lemma bind_fuel {A B} (m : prepared A) (f : A → prepared B) : m ≠ Err PrepFuel → (∀ x, m = Ok x → f x ≠ Err PrepFuel) → rbind m f ≠ Err PrepFuel.
Proof. intros Hm Hf. destruct m as [x|e]; cbn; [by apply Hf|]. congruence. Qed.
Lemma map_indexed_fuel {A B} (f : nat → A → prepared B) l : (∀ j x, x ∈ l → f j x ≠ Err PrepFuel) → map_indexed f l ≠ Err PrepFuel.
Proof. intros Hf H. apply map_indexed_Err in H as (j & x & Hx & H). by apply (Hf j x); [eapply list_elem_of_lookup_2|]. Qed.

(** The union and the items leave the other members of a node as they were. *)
Lemma get_after_union fuel path k fs fs1 : k ≠ "anyOf" →
  match get "anyOf" fs with
  | JUndef => Ok fs
  | JArr (x :: l) =>
      variants ← map_indexed (λ i variant,
        let at_ := element (member path "anyOf") i in
        _ ← fail_if (structuredSchema variant) at_ "uses an unsupported structured union";
        makeStrictNode fuel variant at_) (x :: l);
      Ok (map_set "anyOf" (JArr variants) fs)
  | _ => fail (member path "anyOf") "must not be empty"
  end = Ok fs1 → get k fs1 = get k fs.
Proof.
  intros Hk. destruct (get "anyOf" fs) as [| | | | |[|x l]| | |]; try done; [by intros [= <-]|]. intros H.
  apply bind_Ok in H as (vs & _ & [= <-]). by rewrite get_map_set, bool_decide_false by done.
Qed.
Lemma get_after_items fuel path k fs fs1 : k ≠ "items" →
  match get "items" fs with
  | JUndef => Ok fs
  | JArr _ => fail (member path "items") "tuple schemas are unsupported in strict mode"
  | items => items' ← makeStrictNode fuel items (member path "items"); Ok (map_set "items" items' fs)
  end = Ok fs1 → get k fs1 = get k fs.
Proof.
  intros Hk H. assert (fs1 = fs ∨ ∃ v, fs1 = map_set "items" v fs) as [->|[v ->]]; [|done|by rewrite get_map_set, bool_decide_false by done].
  destruct (get "items" fs); first [by injection H as <-; left | done | apply bind_Ok in H as (v & _ & [= <-]); by right; exists v].
Qed.

Lemma makeStrictNode_ends fuel schema path : jdepth schema <= fuel → makeStrictNode fuel schema path ≠ Err PrepFuel.
Proof.
  revert schema path. induction fuel as [|fuel IH]; intros schema path Hd; [exfalso; destruct schema; cbn in Hd; lia|]. cbn [makeStrictNode].
  destruct (schema_fields schema) as [fs|] eqn:Hfs; [|done]. apply schema_fields_depth in Hfs. rewrite Hfs in Hd. apply le_S_n in Hd.
  assert (Hmember : ∀ k, get k fs ≠ JUndef → jdepth (get k fs) <= fuel) by (intros k Hk; pose proof (jdepth_get _ _ Hk); lia).
  apply bind_fuel; [apply each_fail_fuel|]. intros _ _. apply bind_fuel.
  { pose proof (Hmember "anyOf") as Ha. destruct (get "anyOf" fs) as [| | | | |[|x l]| | |]; try done. apply bind_fuel; [|done].
    apply map_indexed_fuel. intros j v Hv. cbn beta zeta. apply bind_fuel; [apply fail_if_fuel|]. intros _ _. apply IH.
    specialize (Ha ltac:(done)). pose proof (jdepth_elem _ _ Hv). cbn [jdepth] in Ha. lia. }
  intros fs1 H1. apply bind_fuel.
  { rewrite (get_after_union _ _ "items" _ _ ltac:(done) H1). pose proof (Hmember "items") as Hi.
    destruct (get "items" fs); try done; (apply bind_fuel; [apply IH, Hi; done|done]). }
  intros fs2 H2. assert (Hget : ∀ k, k ≠ "anyOf" → k ≠ "items" → get k fs2 = get k fs).
  { intros k Ha Hi. rewrite (get_after_items _ _ _ _ _ Hi H2). by eapply get_after_union. }
  rewrite !Hget by done. destruct (is_str _ _); cbn [negb]; [|by apply bind_fuel; [apply fail_if_fuel|]].
  apply bind_fuel; [apply fail_if_fuel|]. intros _ _. apply bind_fuel; [destruct (get "properties" fs); done|]. intros ps Hps.
  apply bind_fuel; [destruct (get "required" fs); try done; by destruct (forallb _ _)|]. intros required _.
  apply bind_fuel; [apply fail_if_fuel|]. intros _ _. apply bind_fuel; [apply each_fail_fuel|]. intros _ _. apply bind_fuel; [|done].
  apply map_indexed_fuel. intros j kv Hkv. cbn beta. apply bind_fuel; [|done]. apply IH.
  pose proof (Hmember "properties") as Hp. destruct (get "properties" fs) eqn:Ep; try done; injection Hps as <-; [by apply elem_of_nil in Hkv|..];
    specialize (Hp ltac:(done)); pose proof (jdepth_field _ _ Hkv); cbn [jdepth] in Hp; lia.
Qed.

Lemma validateJson_fuel : ∀ value path reject, validateJson value path reject ≠ Err PrepFuel.
Proof.
  fix IH 1. intros [| |b|n|s|items|fs|fs|] path reject; cbn; try (clear IH; discriminate).
  - clear IH. by destruct (is_finite n).
  - generalize 0. induction items as [|v items IHl]; intros i; [done|]. apply bind_fuel; [apply IH|]. intros _ _. apply IHl.
  - induction fs as [|[k v] fs IHl]; [done|]. apply bind_fuel; [apply fail_if_fuel|]. intros _ _. apply bind_fuel; [apply IH|]. intros _ _. apply IHl.
Qed.

(** making a schema strict always ends: as many steps as the schema is deep are enough. *)
Lemma strictSchema_ends schema path : strictSchema schema path ≠ Err PrepFuel.
Proof.
  unfold strictSchema. apply bind_fuel; [apply validateJson_fuel|]. intros _ _. apply bind_fuel; [by apply makeStrictNode_ends|].
  intros v _. destruct v; try done. by apply bind_fuel; [apply fail_if_fuel|].
Qed.


(** A tool with an optional argument, a list and a nested object. *)
Definition sample_schema : fields :=
  [("type", JStr "object");
   ("properties", JObj [("path", JObj [("type", JStr "string")]);
                        ("lines", JObj [("type", JStr "array"); ("items", JObj [("type", JStr "object"); ("properties", JObj [("n", JObj [("type", JStr "number")])])])])]);
   ("required", JArr [JStr "path"])].
