(* ===== verification/Sse.v ===== *)
(** ai/src/sse.ts: server-sent events of a provider's response. The decoder of the bytes is the
    streaming [TextDecoder], which replaces what is not UTF-8 and drops a leading mark. *)
From stdpp Require Import base list strings.
From Stdlib Require Import ZArith Lia Ascii.
From S2P Require Import Prelude Text Utf8 JsonText.

Definition MAX_SSE_TOTAL_BYTES : Z := 16 * 1024 * 1024.
Definition MAX_SSE_LINE_BYTES : Z := 1024 * 1024.
Definition MAX_SSE_EVENT_NAME_BYTES : Z := 256.
Definition MAX_SSE_DATA_LINES : nat := 1024.
Definition MAX_SSE_FRAME_DATA_BYTES : Z := 4 * 1024 * 1024.

Record SseFrame := { sse_event : option string; sse_data : string }.

Record sse_error := { sse_message : string }.
Definition sse_fail (message : string) : sse_error := {| sse_message := message |}.

(** ** Decoding *)

(** [decoder.decode(chunk, { stream: true })] of what was held back and the chunk: the text, and
    the incomplete sequence that is held back now. *)
Fixpoint decode_chunk (s : string) : string * string :=
  let emit (text : string) (r : string * string) : string * string := (text +:+ r.1, r.2) in
  match s with
  | "" => ("", "")
  | String a s1 =>
      let n := code a in
      if (n <? 128)%N then emit (String a "") (decode_chunk s1)
      else if in_range 194 223 n then
        match s1 with
        | String b s2 =>
            if continuation b then emit (String a (String b "")) (decode_chunk s2) else emit replacement (decode_chunk s1)
        | "" => ("", s)
        end
      else if in_range 224 239 n then
        match s1 with
        | String b s2 =>
            if in_range (if (n =? 224)%N then 160 else 128) (if (n =? 237)%N then 159 else 191) (code b) then
              match s2 with
              | String c s3 =>
                  if continuation c then emit (String a (String b (String c ""))) (decode_chunk s3) else emit replacement (decode_chunk s2)
              | "" => ("", s)
              end
            else emit replacement (decode_chunk s1)
        | "" => ("", s)
        end
      else if in_range 240 244 n then
        match s1 with
        | String b s2 =>
            if in_range (if (n =? 240)%N then 144 else 128) (if (n =? 244)%N then 143 else 191) (code b) then
              match s2 with
              | String c s3 =>
                  if continuation c then
                    match s3 with
                    | String d s4 =>
                        if continuation d then emit (String a (String b (String c (String d "")))) (decode_chunk s4)
                        else emit replacement (decode_chunk s3)
                    | "" => ("", s)
                    end
                  else emit replacement (decode_chunk s2)
              | "" => ("", s)
              end
            else emit replacement (decode_chunk s1)
        | "" => ("", s)
        end
      else emit replacement (decode_chunk s1)
  end.

(** U+FEFF is dropped from the start of a stream. *)
Definition byte_order_mark : string := utf8_encode 65279.
Definition drop_mark (text : string) : string :=
  match text with
  | String a (String b (String c rest)) => if bool_decide (String a (String b (String c "")) = byte_order_mark) then rest else text
  | _ => text
  end.

Record text_decoder := { td_held : string; td_started : bool }.
Definition fresh_decoder : text_decoder := {| td_held := ""; td_started := false |}.
(** What a decoder gives out, from the text it made. *)
Definition give_out (started : bool) (text held : string) : string * text_decoder :=
  (if started then text else drop_mark text, {| td_held := held; td_started := started || negb (bool_decide (text = "")) |}).
Definition decode_more (d : text_decoder) (chunk : string) : string * text_decoder :=
  let '(text, held) := decode_chunk (td_held d +:+ chunk) in give_out (td_started d) text held.
(** [decoder.decode()]: what is held back is an incomplete sequence. *)
Definition decode_end (d : text_decoder) : string := (give_out (td_started d) (utf8_text (td_held d)) "").1.

(** ** Lines *)

Record sse_state := { st_event : option string; st_data : list string; st_dataBytes : Z }.
Definition fresh_state : sse_state := {| st_event := None; st_data := []; st_dataBytes := 0 |}.

(** [line.endsWith("\r")] without it *)
Fixpoint strip_cr (line : string) : string :=
  match line with
  | "" => ""
  | String c "" => if bool_decide (code c = 13%N) then "" else line
  | String c rest => String c (strip_cr rest)
  end.
(** The text before the first colon, and the text after it. *)
Fixpoint cut_colon (line : string) : string * option string :=
  match line with
  | "" => ("", None)
  | String c rest => if bool_decide (c = ":"%char) then ("", Some rest) else let '(field, value) := cut_colon rest in (String c field, value)
  end.
Definition strip_space (value : string) : string :=
  match value with String c rest => if bool_decide (c = " "%char) then rest else value | "" => "" end.

(** A line of the loop: the frame it ends, and what is gathered after it. *)
Definition on_line (st : sse_state) (line : string) : result sse_error (option SseFrame * sse_state) :=
  _ ← refuse (MAX_SSE_LINE_BYTES <? utf8_length line)%Z (sse_fail "SSE line exceeds its byte limit");
  let line := strip_cr line in
  match line with
  | "" => Ok (match st_data st with [] => None | data => Some {| sse_event := st_event st; sse_data := join (String (ascii_of_nat 10) "") data |} end, fresh_state)
  | String c _ =>
      if bool_decide (c = ":"%char) then Ok (None, st)
      else
        let '(field, rest) := cut_colon line in
        let value := strip_space (default "" rest) in
        if bool_decide (field = "event") then
          _ ← refuse (MAX_SSE_EVENT_NAME_BYTES <? utf8_length value)%Z (sse_fail "SSE event name exceeds its byte limit");
          Ok (None, {| st_event := Some value; st_data := st_data st; st_dataBytes := st_dataBytes st |})
        else if bool_decide (field = "data") then
          _ ← refuse (MAX_SSE_DATA_LINES <=? length (st_data st)) (sse_fail "SSE frame exceeds its data-line limit");
          let dataBytes := (st_dataBytes st + utf8_length value + (if bool_decide (st_data st = []) then 0 else 1))%Z in
          _ ← refuse (MAX_SSE_FRAME_DATA_BYTES <? dataBytes)%Z (sse_fail "SSE frame data exceeds its byte limit");
          Ok (None, {| st_event := st_event st; st_data := st_data st ++ [value]; st_dataBytes := dataBytes |})
        else Ok (None, st)
  end.

Definition option_list {A} (o : option A) : list A := match o with Some x => [x] | None => [] end.

(** [drainLines]: [line] is the line so far; the frames, and the state with the line that is not
    ended, or the error. *)
Fixpoint drainLines (st : sse_state) (line buffer : string) : list SseFrame * result sse_error (sse_state * string) :=
  match buffer with
  | "" => ([], Ok (st, line))
  | String c rest =>
      if is_newline c then
        match on_line st line with
        | Err e => ([], Err e)
        | Ok (frame, st') => let '(frames, r) := drainLines st' "" rest in (option_list frame ++ frames, r)
        end
      else drainLines st (line +:+ String c "") rest
  end.

(** [buffer.includes("\n")] *)
Definition has_newline (s : string) : bool := negb (all_chars (λ c, negb (is_newline c)) s).

(** The loop over the chunks, and the end of the stream. *)
Fixpoint decode_stream (d : text_decoder) (st : sse_state) (buffer : string) (totalBytes : Z) (chunks : list string) : list SseFrame * result sse_error unit :=
  match chunks with
  | [] =>
      let '(frames, r) := drainLines st "" (buffer +:+ (decode_end d +:+ String (ascii_of_nat 10) (String (ascii_of_nat 10) ""))) in
      (frames, rmap (λ _, tt) r)
  | chunk :: rest =>
      let totalBytes := (totalBytes + utf8_length chunk)%Z in
      if (MAX_SSE_TOTAL_BYTES <? totalBytes)%Z then ([], Err (sse_fail "SSE response exceeds its byte limit"))
      else
        let '(text, d') := decode_more d chunk in
        let buffer := buffer +:+ text in
        if negb (has_newline buffer) && (MAX_SSE_LINE_BYTES <? utf8_length buffer)%Z then ([], Err (sse_fail "SSE pending line exceeds its byte limit"))
        else match drainLines st "" buffer with
             | (frames, Err e) => (frames, Err e)
             | (frames, Ok (st', buffer')) => let '(frames', r) := decode_stream d' st' buffer' totalBytes rest in (frames ++ frames', r)
             end
  end.
Definition decodeSseStream (chunks : list string) : list SseFrame * result sse_error unit := decode_stream fresh_decoder fresh_state "" 0 chunks.
