(* ===== verification/SseFacts.v ===== *)
(** The frames of a stream of server-sent events do not depend on how its bytes arrive. *)
From stdpp Require Import base list strings.
From Stdlib Require Import ZArith Lia Ascii.
From S2P Require Import Prelude Text Utf8 JsonText Sse.

(** ** Decoding *)

(** One step of the two decoders. *)
Definition utf8_text_step (text : string → string) (s : string) : string :=
  match s with
  | "" => ""
  | String a s1 =>
      let n := code a in
      if (n <? 128)%N then String a (text s1)
      else if in_range 194 223 n then
        match s1 with
        | String b s2 =>
            if continuation b then String a (String b (text s2)) else replacement +:+ text s1
        | "" => replacement
        end
      else if in_range 224 239 n then
        match s1 with
        | String b s2 =>
            if in_range (if (n =? 224)%N then 160 else 128) (if (n =? 237)%N then 159 else 191) (code b) then
              match s2 with
              | String c s3 =>
                  if continuation c then String a (String b (String c (text s3))) else replacement +:+ text s2
              | "" => replacement
              end
            else replacement +:+ text s1
        | "" => replacement
        end
      else if in_range 240 244 n then
        match s1 with
        | String b s2 =>
            if in_range (if (n =? 240)%N then 144 else 128) (if (n =? 244)%N then 143 else 191) (code b) then
              match s2 with
              | String c s3 =>
                  if continuation c then
                    match s3 with
                    | String d s4 =>
                        if continuation d then String a (String b (String c (String d (text s4))))
                        else replacement +:+ text s3
                    | "" => replacement
                    end
                  else replacement +:+ text s2
              | "" => replacement
              end
            else replacement +:+ text s1
        | "" => replacement
        end
      else replacement +:+ text s1
  end.
Definition decode_chunk_step (decode : string → string * string) (s : string) : string * string :=
  let emit (text : string) (r : string * string) : string * string := (text +:+ r.1, r.2) in
  match s with
  | "" => ("", "")
  | String a s1 =>
      let n := code a in
      if (n <? 128)%N then emit (String a "") (decode s1)
      else if in_range 194 223 n then
        match s1 with
        | String b s2 =>
            if continuation b then emit (String a (String b "")) (decode s2) else emit replacement (decode s1)
        | "" => ("", s)
        end
      else if in_range 224 239 n then
        match s1 with
        | String b s2 =>
            if in_range (if (n =? 224)%N then 160 else 128) (if (n =? 237)%N then 159 else 191) (code b) then
              match s2 with
              | String c s3 =>
                  if continuation c then emit (String a (String b (String c ""))) (decode s3) else emit replacement (decode s2)
              | "" => ("", s)
              end
            else emit replacement (decode s1)
        | "" => ("", s)
        end
      else if in_range 240 244 n then
        match s1 with
        | String b s2 =>
            if in_range (if (n =? 240)%N then 144 else 128) (if (n =? 244)%N then 143 else 191) (code b) then
              match s2 with
              | String c s3 =>
                  if continuation c then
                    match s3 with
                    | String d s4 =>
                        if continuation d then emit (String a (String b (String c (String d "")))) (decode s4)
                        else emit replacement (decode s3)
                    | "" => ("", s)
                    end
                  else emit replacement (decode s2)
              | "" => ("", s)
              end
            else emit replacement (decode s1)
        | "" => ("", s)
        end
      else emit replacement (decode s1)
  end.
Lemma utf8_text_eq s : utf8_text s = utf8_text_step utf8_text s.
Proof. by destruct s. Qed.
Lemma decode_chunk_eq s : decode_chunk s = decode_chunk_step decode_chunk s.
Proof. by destruct s. Qed.

(** A text that shows whether a mark stands first. *)
Definition settles_mark (out : string) : bool := (3 <=? String.length out) || match out with String a _ => negb (code a =? 239)%N | "" => false end.
(** The bytes [whole] begin with a part that makes [out], and [rest] follows. *)
Definition decodes (whole out rest : string) : Prop :=
  settles_mark out = true ∧
  String.length rest < String.length whole ∧ (∀ t, utf8_text (whole +:+ t) = out +:+ utf8_text (rest +:+ t)) ∧
  decode_chunk whole = (out +:+ (decode_chunk rest).1, (decode_chunk rest).2).

Ltac conditions := repeat match goal with H : ?x = true |- context [?x] => rewrite H | H : ?x = false |- context [?x] => rewrite H end.
Ltac decodes_as out rest :=
  left; exists out, rest; split; [first [reflexivity|unfold settles_mark; apply orb_true_iff; right; cbv beta iota; apply negb_true_iff, N.eqb_neq; repeat match goal with H : in_range _ _ _ = true |- _ => apply in_range_spec in H | H : (_ <? _)%N = true |- _ => apply N.ltb_lt in H end; lia]|split; [cbn; lia|split]];
  [let t := fresh in intros t; rewrite utf8_text_eq; generalize utf8_text; intros; cbn; conditions; reflexivity
  |rewrite decode_chunk_eq; generalize decode_chunk; intros; cbn; conditions; reflexivity].
Ltac holds := right; rewrite decode_chunk_eq; generalize decode_chunk; intros; cbn; conditions; reflexivity.

Lemma decode_first s : s = "" ∨ (∃ out rest, decodes s out rest) ∨ decode_chunk s = ("", s).
Proof.
  destruct s as [|a s1]; [by left|right]. destruct (code a <? 128)%N eqn:R0; [decodes_as (String a "") s1|].
  destruct (in_range 194 223 (code a)) eqn:R1.
  { destruct s1 as [|b s2]; [holds|]. destruct (continuation b) eqn:Cb; [decodes_as (String a (String b "")) s2|decodes_as replacement (String b s2)]. }
  destruct (in_range 224 239 (code a)) eqn:R2.
  { destruct s1 as [|b s2]; [holds|]. destruct (in_range (if (code a =? 224)%N then 160 else 128) (if (code a =? 237)%N then 159 else 191) (code b)) eqn:Cb;
      [|decodes_as replacement (String b s2)]. destruct s2 as [|c s3]; [holds|].
    destruct (continuation c) eqn:Cc; [decodes_as (String a (String b (String c ""))) s3|decodes_as replacement (String c s3)]. }
  destruct (in_range 240 244 (code a)) eqn:R3; [|decodes_as replacement s1].
  destruct s1 as [|b s2]; [holds|]. destruct (in_range (if (code a =? 240)%N then 144 else 128) (if (code a =? 244)%N then 143 else 191) (code b)) eqn:Cb;
    [|decodes_as replacement (String b s2)]. destruct s2 as [|c s3]; [holds|].
  destruct (continuation c) eqn:Cc; [|decodes_as replacement (String c s3)]. destruct s3 as [|d s4]; [holds|].
  destruct (continuation d) eqn:Cd; [decodes_as (String a (String b (String c (String d "")))) s4|decodes_as replacement (String d s4)].
Qed.

(** What a chunk gives, and what it holds back, lead to the text of the whole. *)
Lemma decode_chunk_text s : ∀ t, utf8_text (s +:+ t) = (decode_chunk s).1 +:+ utf8_text ((decode_chunk s).2 +:+ t).
Proof.
  induction s as [s IH] using string_length_ind. intros t. destruct (decode_first s) as [->|[(out & rest & _ & Hlt & Ht & Hd)|Hd]]; [done| |by rewrite Hd].
  rewrite Ht, Hd, (IH rest Hlt). cbn. by rewrite string_app_assoc.
Qed.

Lemma settles_app a b : settles_mark a = true → settles_mark (a +:+ b) = true ∧ drop_mark (a +:+ b) = drop_mark a +:+ b.
Proof.
  unfold settles_mark. destruct a as [|a1 [|a2 [|a3 a]]]; cbn; intros H; [done| | |].
  - split; [by rewrite H, orb_true_r|]. destruct b as [|b1 [|b2 b]]; try done. cbn. rewrite bool_decide_false; [done|]. intros [= -> _ _]. by vm_compute in H.
  - split; [by rewrite H, orb_true_r|]. destruct b as [|b1 b]; try done. cbn. rewrite bool_decide_false; [done|]. intros [= -> _ _]. by vm_compute in H.
  - split; [done|]. by case_bool_decide.
Qed.
Lemma decode_chunk_settles s : (decode_chunk s).1 = "" ∨ settles_mark (decode_chunk s).1 = true.
Proof.
  destruct (decode_first s) as [->|[(out & rest & Hs & _ & _ & ->)| ->]]; [by left|right|by left]. cbn. by apply settles_app.
Qed.

(** What the decoder makes of the bytes that are still to come. *)
Definition remaining (d : text_decoder) (s : string) : string :=
  let text := utf8_text (td_held d +:+ s) in if td_started d then text else drop_mark text.

Lemma decode_more_text d chunk text d' : decode_more d chunk = (text, d') → ∀ s, remaining d (chunk +:+ s) = text +:+ remaining d' s.
Proof.
  unfold decode_more, give_out, remaining. pose proof (decode_chunk_settles (td_held d +:+ chunk)) as Hm.
  pose proof (decode_chunk_text (td_held d +:+ chunk)) as Ht. destruct (decode_chunk _) as [out held]. cbn in Hm, Ht. intros [= <- <-] s. cbn.
  rewrite string_app_assoc, Ht. destruct (td_started d); [done|]. cbn. destruct Hm as [->|Hm]; [by rewrite bool_decide_true|].
  rewrite bool_decide_false by (intros ->; by vm_compute in Hm). by apply settles_app.
Qed.
Lemma decode_end_text d : decode_end d = remaining d "".
Proof. unfold decode_end, give_out, remaining. cbn. by rewrite string_app_nil_r. Qed.

(** ** Lines *)

Definition then_drain (r : list SseFrame * result sse_error (sse_state * string)) (b : string) : list SseFrame * result sse_error (sse_state * string) :=
  match r with
  | (f, Err e) => (f, Err e)
  | (f, Ok (st, line)) => let '(f', r) := drainLines st line b in (f ++ f', r)
  end.
Lemma drain_app st line a b : drainLines st line (a +:+ b) = then_drain (drainLines st line a) b.
Proof.
  induction a as [|c a IH] in st, line |- *; cbn [String.append drainLines]; [cbn; by destruct (drainLines st line b)|].
  destruct (is_newline c); [|apply IH]. destruct (on_line st line) as [[frame st']|e]; [|done]. rewrite IH.
  destruct (drainLines st' "" a) as [f [[st1 l1]|e]]; [|done]. cbn. destruct (drainLines st1 l1 b). by rewrite app_assoc.
Qed.
Lemma drain_unbroken st line a : one_line a = true → drainLines st line a = ([], Ok (st, line +:+ a)).
Proof.
  unfold one_line. induction a as [|c a IH] in line |- *; cbn; [by rewrite string_app_nil_r|]. intros [Hc Ha]%andb_true_iff.
  apply negb_true_iff in Hc. rewrite Hc, IH by done. by rewrite <- string_app_assoc.
Qed.
Lemma drain_restart st line x : one_line line = true → drainLines st "" (line +:+ x) = drainLines st line x.
Proof. intros Hl. rewrite drain_app, drain_unbroken by done. cbn. by destruct (drainLines st line x). Qed.
Lemma one_line_app a b : one_line (a +:+ b) = one_line a && one_line b.
Proof. unfold one_line. induction a as [|c a IH]; cbn; [done|]. by rewrite IH, andb_assoc. Qed.
Lemma drain_rest st line a f st' line' : drainLines st line a = (f, Ok (st', line')) → one_line line = true → one_line line' = true.
Proof.
  induction a as [|c a IH] in st, line, f |- *; cbn; [by intros [= _ _ ->]|]. destruct (is_newline c) eqn:Hc.
  - destruct (on_line st line) as [[frame st1]|]; [|done]. destruct (drainLines st1 "" a) as [f1 r1] eqn:E. intros [= _ ->] _. by eapply IH.
  - intros H Hl. eapply IH; [exact H|]. rewrite one_line_app, Hl. unfold one_line. cbn. by rewrite Hc.
Qed.
Lemma utf8_length_app a b : utf8_length (a +:+ b) = (utf8_length a + utf8_length b)%Z.
Proof. unfold utf8_length. rewrite string_length_app. lia. Qed.
Lemma utf8_length_nonneg a : (0 <= utf8_length a)%Z.
Proof. unfold utf8_length. lia. Qed.

(** A line that is too long already is refused when it ends. *)
Lemma drain_long st line x : (MAX_SSE_LINE_BYTES < utf8_length line)%Z → one_line x = false → ∃ e, drainLines st line x = ([], Err e).
Proof.
  induction x as [|c x IH] in line |- *; cbn; [done|]. intros Hlong. destruct (is_newline c) eqn:Hc; cbn.
  - intros _. unfold on_line. rewrite (proj2 (Z.ltb_lt _ _) Hlong). cbn. by eexists.
  - intros Hx. apply IH; [|exact Hx]. rewrite utf8_length_app. pose proof (utf8_length_nonneg (String c "")). lia.
Qed.

(** ** Frames *)

Definition two_newlines : string := String (ascii_of_nat 10) (String (ascii_of_nat 10) "").
Definition outcome (r : list SseFrame * result sse_error (sse_state * string)) : list SseFrame * result sse_error unit := (r.1, rmap (λ _, tt) r.2).

(** The frames of the bytes as they are: the lines of their text, one after the other. *)
Definition frames_of (bytes : string) : list SseFrame * result sse_error unit :=
  outcome (drainLines fresh_state "" (drop_mark (utf8_text bytes) +:+ two_newlines)).

Lemma concat_string_cons (s : string) l : String.concat "" (s :: l) = s +:+ String.concat "" l.
Proof. destruct l; [cbn; by rewrite string_app_nil_r|done]. Qed.

Lemma outcome_then f st line x frames : outcome (then_drain (f, Ok (st, line)) x) = (frames, Ok tt) ↔
  ∃ frames', frames = f ++ frames' ∧ outcome (drainLines st line x) = (frames', Ok tt).
Proof.
  cbn. destruct (drainLines st line x) as [f' r]. unfold outcome. cbn. split.
  - intros [= <- Hr]. exists f'. by rewrite Hr.
  - by intros (frames' & -> & [= <- ->]).
Qed.

#[local] Opaque MAX_SSE_TOTAL_BYTES MAX_SSE_LINE_BYTES.
Lemma decode_stream_spec chunks d st buffer total frames : one_line buffer = true → (total <= MAX_SSE_TOTAL_BYTES)%Z →
  decode_stream d st buffer total chunks = (frames, Ok tt) ↔
  (total + utf8_length (String.concat "" chunks) <= MAX_SSE_TOTAL_BYTES)%Z ∧
  outcome (drainLines st buffer (remaining d (String.concat "" chunks) +:+ two_newlines)) = (frames, Ok tt).
Proof.
  induction chunks as [|chunk chunks IH] in d, st, buffer, total, frames |- *; intros Hb Htotal; cbn [decode_stream].
  - rewrite decode_end_text, drain_restart by done. fold two_newlines. cbn [String.concat]. unfold outcome.
    destruct (drainLines _ _ _) as [f r]. cbn. split; [intros H; split; [change (utf8_length "") with 0%Z; lia|done]|by intros []].
  - rewrite concat_string_cons, utf8_length_app. pose proof (utf8_length_nonneg (String.concat "" chunks)).
    destruct (Z.ltb_spec MAX_SSE_TOTAL_BYTES (total + utf8_length chunk)); [split; [done|intros []; lia]|].
    destruct (decode_more d chunk) as [text d'] eqn:Hd. rewrite (decode_more_text _ _ _ _ Hd), <- string_app_assoc.
    destruct (negb (has_newline _) && _) eqn:Hpending.
    + split; [done|]. intros [_ H']. exfalso. apply andb_true_iff in Hpending as [Hn Hlong]. unfold has_newline in Hn. rewrite negb_involutive in Hn.
      apply Z.ltb_lt in Hlong. fold (one_line (buffer +:+ text)) in Hn. rewrite one_line_app in Hn. apply andb_true_iff in Hn as [_ Hn].
      rewrite drain_app, drain_unbroken in H' by done. destruct (drain_long st (buffer +:+ text) (remaining d' (String.concat "" chunks) +:+ two_newlines)) as [e He];
        [done|by rewrite one_line_app, andb_false_r|]. unfold then_drain in H'. by rewrite He in H'.
    + rewrite drain_restart, (drain_app _ _ text) by done. destruct (drainLines st buffer text) as [f [[st' buffer']|e]] eqn:He; [|by split; [|intros []]].
      apply drain_rest in He; [|done]. rewrite outcome_then. destruct (decode_stream d' st' buffer' _ chunks) as [f' r'] eqn:Hs. split.
      * intros [= <- ->]. apply IH in Hs as [Hle Hs]; [|done|lia]. split; [lia|]. by exists f'.
      * intros (Hle & frames' & -> & Hf). assert (Hs' : decode_stream d' st' buffer' (total + utf8_length chunk) chunks = (frames', Ok tt)) by (apply IH; [done|lia|split; [lia|done]]).
        rewrite Hs' in Hs. by injection Hs as -> ->.
Qed.

(** C19: the frames of a response depend on its bytes only: however they are cut into chunks, inside
    a character or a line ending as well, a response is read to its end with exactly the frames
    of its lines when it is within the limit of bytes and its lines are accepted, and not
    otherwise. *)
Theorem sse_chunks_do_not_matter chunks frames :
  decodeSseStream chunks = (frames, Ok tt) ↔
  (utf8_length (String.concat "" chunks) <= MAX_SSE_TOTAL_BYTES)%Z ∧ frames_of (String.concat "" chunks) = (frames, Ok tt).
Proof. apply (decode_stream_spec chunks fresh_decoder fresh_state "" 0); [done|by vm_compute]. Qed.
