(* ===== verification/ProviderPort.v ===== *)
(** ai/src/stream.ts and ai/src/provider-port.ts: the model port of a session.

    A stream is the list of what it yields; a provider's stream may also throw. What a
    request meets outside is a record: the models that are listed, the state of its abort
    signal at the points where it is looked at, how the session's callback ends and what the
    provider streams. The turns that were streamed before are passed from call to call. *)
From stdpp Require Import base list sets strings.
From Stdlib Require Import ZArith Lia.
From S2P Require Import Prelude Text JsValue Json Envelope Types EventSchema ModelRequest ModelStream Compaction ProviderTypes Thinking Dialect Preparation.

(** ** Stream events as values *)

Definition phase_name (p : ModelRequestPhase) : string :=
  match p with BeforeDispatch => "before_dispatch" | AwaitingResponse => "awaiting_response" | Streaming => "streaming" | PhaseUnknown => "unknown" end.
Definition response_value (r : ProviderResponseMetadata) : jsval :=
  JObj ([("providerId", JStr (prm_providerId r)); ("requestedModelId", JStr (prm_requestedModelId r))]
        ++ opt_str "routedModelId" (prm_routedModelId r) ++ opt_str "responseId" (prm_responseId r)
        ++ opt_str "nativeStopReason" (prm_nativeStopReason r) ++ opt_field "latencyMs" (JNum <$> prm_latencyMs r)).
Definition diagnostic_value (d : SafeProviderDiagnostic) : jsval :=
  JObj [("code", JStr (spd_code d)); ("message", JStr (spd_message d)); ("severity", JStr (spd_severity d))].
(** No diagnostics and an empty list of them are not distinguished. *)
Definition terminal_fields (partial : option bool) (response : option ProviderResponseMetadata) (diagnostics : list SafeProviderDiagnostic) : fields :=
  opt_field "partial" (JBool <$> partial) ++ opt_field "response" (response_value <$> response)
  ++ match diagnostics with [] => [] | _ => [("diagnostics", JArr (diagnostic_value <$> diagnostics))] end.

Definition stream_event_fields (e : ModelStreamEvent) : fields :=
  match e with
  | TextDelta text i => [("type", JStr "text_delta"); ("text", JStr text)] ++ opt_field "contentIndex" (JInt <$> i)
  | ThinkingDelta text i => [("type", JStr "thinking_delta"); ("text", JStr text)] ++ opt_field "contentIndex" (JInt <$> i)
  | ToolCallStart i callId name => [("type", JStr "tool_call_start"); ("contentIndex", JInt i); ("callId", JStr callId); ("name", JStr name)]
  | ToolCallDelta i callId d => [("type", JStr "tool_call_delta"); ("contentIndex", JInt i); ("callId", JStr callId); ("argumentsDelta", JStr d)]
  | ToolCallEvent call i =>
      [("type", JStr "tool_call"); ("callId", JStr (tcr_callId call)); ("name", JStr (tcr_name call)); ("input", JObj (tcr_input call))]
      ++ opt_field "contentIndex" (JInt <$> i)
  | ReplayMetadata m =>
      [("type", JStr "replay_metadata"); ("target", JStr (rpm_target m)); ("contentIndex", JInt (rpm_contentIndex m));
       ("providerId", JStr (rpm_providerId m)); ("apiDialect", JStr (rpm_apiDialect m)); ("modelId", JStr (rpm_modelId m))]
      ++ opt_str "callId" (rpm_callId m) ++ opt_str "signature" (rpm_signature m) ++ opt_field "redacted" (JBool <$> rpm_redacted m)
      ++ opt_str "responseId" (rpm_responseId m) ++ opt_str "itemId" (rpm_itemId m) ++ opt_str "namespace" (rpm_namespace m)
  | Completed reason usage partial response diagnostics =>
      [("type", JStr "completed"); ("stopReason", JEnum reason); ("usage", encode_usage usage)] ++ terminal_fields partial response diagnostics
  | StreamError err =>
      [("type", JStr "error"); ("code", JStr (mse_code err)); ("message", JStr (mse_message err)); ("retryable", JBool (mse_retryable err))]
      ++ opt_str "category" (mse_category err) ++ opt_str "requestPhase" (phase_name <$> mse_requestPhase err)
      ++ opt_field "retryAfterMs" (JNum <$> mse_retryAfterMs err)
      ++ terminal_fields (mse_partial err) (mse_response err) (mse_diagnostics err)
  | Aborted partial => [("type", JStr "aborted")] ++ opt_field "partial" (JBool <$> partial)
  end.
Definition stream_event_value (e : ModelStreamEvent) : jsval := JObj (stream_event_fields e).

(** ** normalizeModelStream *)

(** What an adapter's generator does next: yield an event, or throw, with the message of an
    [Error] or something else. *)
Inductive raw_item := RawEvent (e : ModelStreamEvent) | RawThrow (message : option string).

Definition partial_of (emitted : bool) : option bool := if emitted then Some true else None.
Definition terminalForFailure (aborted : bool) (code message : string) (partial : bool) : ModelStreamEvent :=
  if aborted then Aborted (partial_of partial)
  else StreamError {| mse_code := code; mse_message := message; mse_retryable := false; mse_partial := partial_of partial;
                      mse_category := Some "stream_interrupted"; mse_requestPhase := Some Streaming; mse_retryAfterMs := None;
                      mse_response := None; mse_diagnostics := [] |}.

(** [aborted] is the state of the signal when the stream fails. *)
Fixpoint normalizeModelStream (aborted emittedContent : bool) (items : list raw_item) : list ModelStreamEvent :=
  match items with
  | [] => [terminalForFailure aborted "provider_stream_truncated" "provider ended the stream without a terminal event" emittedContent]
  | RawThrow m :: _ => [terminalForFailure aborted "provider_stream_failure" (default "provider stream threw a non-Error value" m) emittedContent]
  | RawEvent e :: rest =>
      match parseModelStreamEvent (stream_event_value e) "modelStreamEvent" with
      | Err err => [terminalForFailure aborted "provider_stream_failure" (msve_path err +:+ " " +:+ msve_message err) emittedContent]
      | Ok _ => if isTerminalModelStreamEvent e then [e] else e :: normalizeModelStream aborted true rest
      end
  end.

(** [collectModelStream] *)
Definition collectModelStream (aborted : bool) (items : list raw_item) : list ModelStreamEvent * result string ModelStreamEvent :=
  let events := normalizeModelStream aborted false items in
  (events, match last events with
           | Some t => if isTerminalModelStreamEvent t then Ok t else Err "normalized model stream did not end with a terminal event"
           | None => Err "normalized model stream did not end with a terminal event"
           end).

(** ** Replay metadata *)

Abbreviation ReplayEvent := ProviderReplayMetadata.

Definition replay_identity (e : ReplayEvent) : ProviderModelIdentity :=
  {| pmi_providerId := rpm_providerId e; pmi_apiDialect := rpm_apiDialect e; pmi_modelId := rpm_modelId e |}.
Definition replayContinuation (e : ReplayEvent) : ProviderContinuationMetadata :=
  {| pcm_identity := replay_identity e; pcm_responseId := rpm_responseId e; pcm_itemId := rpm_itemId e; pcm_namespace := rpm_namespace e |}.
Definition hasReplayContinuation (e : ReplayEvent) : bool :=
  bool_decide (is_Some (rpm_responseId e)) || bool_decide (is_Some (rpm_itemId e)) || bool_decide (is_Some (rpm_namespace e)).
Definition replay_signature (e : ReplayEvent) : option ProviderSignature :=
  (λ v, {| psg_identity := replay_identity e; psg_value := v |}) <$> rpm_signature e.
Definition replay_continuation (e : ReplayEvent) : option ProviderContinuationMetadata :=
  if hasReplayContinuation e then Some (replayContinuation e) else None.

(** [.sort((a, b) => a.contentIndex - b.contentIndex)], which is stable. *)
Fixpoint insert_replay (e : ReplayEvent) (l : list ReplayEvent) : list ReplayEvent :=
  match l with
  | [] => [e]
  | x :: l' => if (rpm_contentIndex e <=? rpm_contentIndex x)%Z then e :: l else x :: insert_replay e l'
  end.
Definition of_target (target : string) (replay : list ReplayEvent) : list ReplayEvent :=
  foldr insert_replay [] (List.filter (λ e, bool_decide (rpm_target e = target)) replay).

Definition retain_thinking (text : string) (e : option ReplayEvent) : RequestAssistantContent :=
  match e with
  | Some e =>
      match replay_signature e with
      | None => RThinking text None None
      | Some s => RThinking text (Some s) (if bool_decide (rpm_redacted e = Some true) then Some true else None)
      end
  | None => RThinking text None None
  end.
Definition retain_text (text : string) (e : option ReplayEvent) : RequestAssistantContent :=
  match e with Some e => RText text (replay_signature e) (replay_continuation e) | None => RText text None None end.
(** [message.content.map(...)], which takes the next event of each kind. *)
Fixpoint retain_content (thinking text : list ReplayEvent) (items : list content) : list RequestAssistantContent :=
  match items with
  | [] => []
  | CThinking t :: rest => retain_thinking t (head thinking) :: retain_content (tail thinking) text rest
  | CText t :: rest => retain_text t (head text) :: retain_content thinking (tail text) rest
  | CBlob b :: rest => RBlob b :: retain_content thinking text rest
  end.
Definition retain_call (replay : list ReplayEvent) (call : ToolCallRequest) : RequestToolCall :=
  match list_find (λ e, rpm_target e = "tool_call" ∧ rpm_callId e = Some (tcr_callId call)) replay with
  | Some (_, e) =>
      {| rtc_callId := tcr_callId call; rtc_name := tcr_name call; rtc_input := tcr_input call;
         rtc_signature := replay_signature e; rtc_continuation := replay_continuation e |}
  | None => plain_call call
  end.

(** One message, with the replay events of its turn. *)
Definition retain_message (m : ModelMessage) (replay : list ReplayEvent) : result string RequestModelMessage :=
  match m, replay with
  | MAssistant items calls, first :: _ =>
      _ ← require (forallb (λ e, bool_decide (replay_identity e = replay_identity first)) replay)
            "A model turn emitted replay metadata for multiple model identities";
      Ok (RAssistant (retain_content (of_target "thinking" replay) (of_target "text" replay) items) (Some (retain_call replay <$> calls))
            (Some (replay_identity first))
            (replayContinuation <$> (snd <$> list_find (λ e, is_Some (rpm_responseId e)) replay)))
  | _, _ => Ok (plain_message m)
  end.

Definition is_assistant (m : ModelMessage) : bool := match m with MAssistant _ _ => true | _ => false end.
Definition assistants (messages : list ModelMessage) : nat := length (List.filter is_assistant messages).

(** [ordinal] counts the assistant messages before; [shift] is the difference of the numbers of
    assistant messages and of turns, or zero: a message has the turn at its ordinal less it. *)
Fixpoint retain_from (shift : nat) (turns : list (list ReplayEvent)) (ordinal : nat) (messages : list ModelMessage) : result string (list RequestModelMessage) :=
  match messages with
  | [] => Ok []
  | m :: rest =>
      let replay := if is_assistant m && (shift <=? ordinal) then default [] (turns !! (ordinal - shift)) else [] in
      m' ← retain_message m replay;
      rest' ← retain_from shift turns (if is_assistant m then S ordinal else ordinal) rest;
      Ok (m' :: rest')
  end.
Definition retainReplayMetadata (messages : list ModelMessage) (turns : list (list ReplayEvent)) : result string (list RequestModelMessage) :=
  match turns with
  | [] => Ok (plain_message <$> messages)
  | _ => retain_from (assistants messages - length turns) turns 0 messages
  end.

(** ** The request *)

Record SessionPortOptions := {
  spo_modelId : string;
  spo_thinkingLevel : option ThinkingLevel;
  spo_maxOutputTokens : option number;
  spo_requestSettings : option ModelRequestSettings;
  spo_readBlob : option (BlobReference → result string string)
}.

Record PortTurnRequest := {
  ptr_system : option string;
  ptr_messages : list ModelMessage;
  ptr_tools : list ToolDeclaration;
  ptr_maxOutputTokens : option number;
  ptr_toolChoice : option ToolChoice;
  ptr_estimatedInputTokens : option number
}.

Definition declared (t : ToolDeclaration) : RequestToolDeclaration :=
  {| rtd_name := td_name t; rtd_description := td_description t; rtd_inputSchema := td_inputSchema t; rtd_constraint := None |}.

(** [a ?? b] *)
Definition or_else {A} (a b : option A) : option A := match a with Some x => Some x | None => b end.

Definition requestedMaximum (options : SessionPortOptions) (request : PortTurnRequest) (settings : ModelRequestSettings) : option number :=
  or_else (ptr_maxOutputTokens request) (or_else (spo_maxOutputTokens options) (NInt <$> mrs_maxOutputTokens settings)).

Definition raw_request (options : SessionPortOptions) (request : PortTurnRequest) (messages : list RequestModelMessage) : ModelRequest :=
  let settings := default DEFAULT_MODEL_REQUEST_SETTINGS (spo_requestSettings options) in
  {| mrq_modelId := spo_modelId options; mrq_system := ptr_system request; mrq_messages := messages;
     mrq_tools := Some (declared <$> ptr_tools request); mrq_thinkingLevel := spo_thinkingLevel options; mrq_thinkingBudgets := None;
     mrq_maxOutputTokens := requestedMaximum options request settings; mrq_httpIdleTimeoutMs := Some (NInt (mrs_httpIdleTimeoutMs settings));
     mrq_estimatedInputTokens := ptr_estimatedInputTokens request; mrq_toolChoice := ptr_toolChoice request;
     mrq_sampling := None; mrq_cache := None; mrq_safetySettings := None; mrq_metadata := None;
     mrq_timeoutMs := None; mrq_maxRetries := None; mrq_maxRetryDelayMs := None |}.

(** The prepared request, with the three fields that are replaced. *)
Record ConfiguredRequest := {
  cfr_prepared : PreparedModelRequest;
  cfr_maxOutputTokens : Z;
  cfr_httpIdleTimeoutMs : Z;
  cfr_estimatedInputTokens : Z
}.
Definition configured_request (prepared_ : PreparedModelRequest) (c : ModelRequestConfiguration) : ConfiguredRequest :=
  {| cfr_prepared := prepared_; cfr_maxOutputTokens := mrc_maxOutputTokens c; cfr_httpIdleTimeoutMs := mrc_httpIdleTimeoutMs c;
     cfr_estimatedInputTokens := mrc_estimatedInputTokens c |}.

(** [error.message]; fuel never runs out. *)
Definition fit_message (e : fit_error) : string :=
  match e with FitSettings e => pve_path e +:+ ": " +:+ pve_message e | FitType e => te_message e end.
Definition prep_message (model : ModelInfo) (e : prep_error) : string :=
  match e with
  | PrepError e => rpe_path e +:+ " " +:+ rpe_message e
  | PrepDialect e => tde_message e
  | PrepCapability modelId missing => "Model " +:+ mi_providerId model +:+ "/" +:+ modelId +:+ " does not support: " +:+ join ", " missing
  | PrepType e => te_message e
  | PrepRead e => e
  | PrepFuel => ""
  end.

(** ** The port *)

(** What a request meets: whether the signal has been aborted at the start, before the dispatch
    and when a stream fails; how the callback ends,
    when there is one; and what the provider streams. *)
Record port_world := {
  pw_aborted_first : bool;
  pw_aborted_before_dispatch : bool;
  pw_aborted_at_end : bool;
  pw_onRequestConfigured : option (result (option string) unit);
  pw_stream : ConfiguredRequest → list raw_item
}.

Section Port.
Context (digest : string → list Z) (providerId : string) (options : SessionPortOptions).

(** What [configureRequest] gives: whether the callback was called, and the request or what was
    thrown. *)
Definition configureRequest (model : ModelInfo) (request : PortTurnRequest) (messages : list RequestModelMessage) (callback : option (result (option string) unit)) :
    option ModelRequestConfiguration * result (option string) ConfiguredRequest :=
  let raw := raw_request options request messages in
  match fitModelRequest model (mrq_maxOutputTokens raw) (mrq_httpIdleTimeoutMs raw) (mrq_estimatedInputTokens raw)
          (estimateModelInputTokens (ptr_system request) (ptr_messages request) (ptr_tools request)) with
  | Err e => (None, Err (Some (fit_message e)))
  | Ok configuration =>
      match prepareModelRequest digest (spo_readBlob options) model raw None with
      | Err e => (None, Err (Some (prep_message model e)))
      | Ok prepared_ =>
          match callback with
          | None => (None, Ok (configured_request prepared_ configuration))
          | Some (Err e) => (Some configuration, Err e)
          | Some (Ok _) => (Some configuration, Ok (configured_request prepared_ configuration))
          end
      end
  end.

(** The generator inside the port, once it knows what the lookup of the model gives: the
    configuration it announces and what it yields. An abort throws the reason of the signal, of
    which only the signal's state is seen later. *)
Definition port_items (lookup_model : result (option string) ModelInfo) (turns : list (list ReplayEvent)) (request : PortTurnRequest) (w : port_world) :
    option ModelRequestConfiguration * list raw_item :=
  if pw_aborted_first w then (None, [RawThrow None])
  else match lookup_model with
       | Err e => (None, [RawThrow e])
       | Ok model =>
           match retainReplayMetadata (ptr_messages request) turns with
           | Err e => (None, [RawThrow (Some e)])
           | Ok messages =>
               let '(configured, r) := configureRequest model request messages (pw_onRequestConfigured w) in
               match r with
               | Err e => (configured, [RawThrow e])
               | Ok prepared_ => (configured, if pw_aborted_before_dispatch w then [RawThrow None] else pw_stream w prepared_)
               end
           end
       end.

Definition replay_events (events : list ModelStreamEvent) : list ReplayEvent :=
  omap (λ e, match e with ReplayMetadata m => Some m | _ => None end) events.

(** A signal stays aborted. *)
Definition aborted_at_end (w : port_world) : bool := pw_aborted_first w || pw_aborted_before_dispatch w || pw_aborted_at_end w.

(** [stream(request)], read to its end, and the turns after it. *)
Definition retainStream (lookup_model : result (option string) ModelInfo) (turns : list (list ReplayEvent)) (request : PortTurnRequest) (w : port_world) :
    list stream_item * list (list ReplayEvent) :=
  let '(configured, items) := port_items lookup_model turns request w in
  let events := normalizeModelStream (aborted_at_end w) false items in
  ((match configured with Some c => [Configured c] | None => [] end) ++ (Yield <$> events), turns ++ [replay_events events]).

(** The two ports differ in how they find the model: in the list of a provider, or what
    [listModels] threw, *)
Definition modelPortForSession (models : result (option string) (list ModelInfo)) : list (list ReplayEvent) → PortTurnRequest → port_world →
    list stream_item * list (list ReplayEvent) :=
  retainStream
    (listed ← models;
     match list_find (λ m, mi_modelId m = spo_modelId options) listed with
     | Some (_, model) => Ok model
     | None => Err (Some ("Provider " +:+ providerId +:+ " has no model " +:+ spo_modelId options))
     end).
(** and by the registry, whose answer is given. *)
Definition modelPortForRegistry (getModel : string → string → result (option string) ModelInfo) : list (list ReplayEvent) → PortTurnRequest → port_world →
    list stream_item * list (list ReplayEvent) :=
  retainStream (getModel providerId (spo_modelId options)).
End Port.
