(* ===== verification/ProviderPortFacts.v ===== *)
(** What the model port promises: a stream ends once, a request carries the conversation with
    what each turn's provider attached to it, and a refused history is never dispatched. *)
From stdpp Require Import base list sets strings.
From Stdlib Require Import ZArith Lia.
From S2P Require Import Prelude Text JsValue Json Sha256 Envelope Types EventSchema ModelRequest ModelStream Compaction MigrationFacts ProviderTypes Thinking Dialect Preparation PreparationFacts ProviderPort.

(** ** One terminal *)

Lemma failure_is_terminal aborted code message partial : isTerminalModelStreamEvent (terminalForFailure aborted code message partial) = true.
Proof. by destruct aborted. Qed.

Definition ends_once (aborted emitted : bool) (items : list raw_item) (events : list ModelStreamEvent) (t : ModelStreamEvent) : Prop :=
  isTerminalModelStreamEvent t = true ∧ Forall (λ e, isTerminalModelStreamEvent e = false) events ∧ (RawEvent <$> events) `prefix_of` items ∧
  ((RawEvent <$> events ++ [t]) `prefix_of` items ∨
   ∃ code message, t = terminalForFailure aborted code message (emitted || bool_decide (events ≠ []))).

Lemma failure_ends_once aborted emitted items code message : ends_once aborted emitted items [] (terminalForFailure aborted code message emitted).
Proof.
  split_and!; [apply failure_is_terminal|constructor|apply prefix_nil|]. right. exists code, message. by rewrite orb_false_r.
Qed.
Lemma normalize_ends_once aborted emitted items : ∃ events t, normalizeModelStream aborted emitted items = events ++ [t] ∧ ends_once aborted emitted items events t.
Proof.
  induction items as [|[e|m] items IH] in emitted |- *; cbn [normalizeModelStream]; [eexists [], _; split; [done|apply failure_ends_once]| |eexists [], _; split; [done|apply failure_ends_once]].
  destruct (parseModelStreamEvent _ _); [|eexists [], _; split; [done|apply failure_ends_once]].
  destruct (isTerminalModelStreamEvent e) eqn:He.
  - exists [], e. split; [done|]. split_and!; [done|constructor|apply prefix_nil|]. left. apply prefix_cons, prefix_nil.
  - destruct (IH true) as (events & t & -> & Ht & Hn & Hp & Hcase). exists (e :: events), t. split; [done|].
    split_and!; [done|by constructor|by apply prefix_cons|]. destruct Hcase as [Hcase|(code & message & ->)]; [left; by apply prefix_cons|right].
    exists code, message. by rewrite orb_true_r.
Qed.

(** whatever a provider's stream does, what the kernel reads of it is a prefix of the
    provider's events and then exactly one terminal event: the provider's own, or a failure,
    which says whether anything was streamed before it. So collecting a stream always finds its
    terminal. *)
Theorem normalized_stream_ends_once aborted items :
  ∃ events t, collectModelStream aborted items = (events ++ [t], Ok t) ∧ isTerminalModelStreamEvent t = true ∧
    Forall (λ e, isTerminalModelStreamEvent e = false) events ∧ (RawEvent <$> events) `prefix_of` items ∧
    ((RawEvent <$> events ++ [t]) `prefix_of` items ∨ ∃ code message, t = terminalForFailure aborted code message (bool_decide (events ≠ []))).
Proof.
  destruct (normalize_ends_once aborted false items) as (events & t & E & Ht & H). exists events, t. split; [|done].
  unfold collectModelStream. by rewrite E, last_snoc, Ht.
Qed.

(** ** The conversation *)

Definition forget_item (i : RequestAssistantContent) : content :=
  match i with RText t _ _ => CText t | RThinking t _ _ => CThinking t | RBlob b => CBlob b end.
Definition forget_call (c : RequestToolCall) : ToolCallRequest :=
  {| tcr_callId := rtc_callId c; tcr_name := rtc_name c; tcr_input := rtc_input c |}.
Definition forget_message (m : RequestModelMessage) : ModelMessage :=
  match m with
  | RUser items => MUser items
  | RAssistant items calls _ _ => MAssistant (forget_item <$> items) (forget_call <$> default [] calls)
  | RTool callId name items isError => MTool callId name items isError
  end.

Lemma forget_content thinking text items : forget_item <$> retain_content thinking text items = items.
Proof.
  induction items as [|[t|t|b] items IH] in thinking, text |- *; cbn; [done| | |]; rewrite IH; f_equal.
  - by destruct (head text).
  - unfold retain_thinking. destruct (head thinking) as [e|]; [|done]. by destruct (replay_signature e).
Qed.
Lemma forget_retained_call replay call : forget_call (retain_call replay call) = call.
Proof. unfold retain_call. destruct (list_find _ _) as [[? e]|]; by destruct call. Qed.
Lemma forget_plain m : forget_message (plain_message m) = m.
Proof.
  destruct m as [items|items calls|? ? ? ?]; cbn; [done| |done]. f_equal.
  - rewrite <- list_fmap_compose. rewrite <- (list_fmap_id items) at 2. apply list_fmap_ext. intros ? [] _; done.
  - rewrite <- list_fmap_compose. rewrite <- (list_fmap_id calls) at 2. apply list_fmap_ext. intros ? [] _; done.
Qed.
Lemma forget_retained m replay m' : retain_message m replay = Ok m' → forget_message m' = m.
Proof.
  unfold retain_message. destruct m as [items|items calls|? ? ? ?], replay as [|first replay]; intros H;
    try (by injection H as <-); try (injection H as <-; apply (forget_plain (MAssistant _ _))).
  apply bind_Ok in H as ([] & _ & [= <-]). cbn [forget_message]. rewrite forget_content. f_equal.
  change (forget_call <$> (retain_call (first :: replay) <$> calls) = calls). rewrite <- list_fmap_compose. rewrite <- (list_fmap_id calls) at 2. apply list_fmap_ext. intros ? c _. apply forget_retained_call.
Qed.

(** The turn of the assistant message number [ordinal]. *)
Definition replay_of (shift : nat) (turns : list (list ReplayEvent)) (ordinal : nat) (m : ModelMessage) : list ReplayEvent :=
  if is_assistant m && (shift <=? ordinal) then default [] (turns !! (ordinal - shift)) else [].

Lemma retain_from_lookup shift turns ordinal messages out : retain_from shift turns ordinal messages = Ok out →
  length out = length messages ∧
  ∀ k m, messages !! k = Some m → ∃ m', out !! k = Some m' ∧ retain_message m (replay_of shift turns (ordinal + assistants (take k messages)) m) = Ok m'.
Proof.
  induction messages as [|m messages IH] in ordinal, out |- *; cbn [retain_from]; [by intros [= <-]|]. intros H.
  apply bind_Ok in H as (m' & Hm & H). apply bind_Ok in H as (rest & Hrest & [= <-]). apply IH in Hrest as [Hl Hk]. split; [by cbn; rewrite Hl|].
  intros [|k] x Hx; cbn in Hx.
  - injection Hx as <-. exists m'. split; [done|]. rewrite Nat.add_0_r. exact Hm.
  - destruct (Hk k x Hx) as (x' & Hx' & Hr). exists x'. split; [done|]. unfold assistants in *. cbn. destruct (is_assistant m); cbn; [|done].
    by rewrite Nat.add_succ_r.
Qed.
Lemma retained_forget messages turns out : retainReplayMetadata messages turns = Ok out → forget_message <$> out = messages.
Proof.
  unfold retainReplayMetadata. destruct turns as [|turn turns].
  - intros [= <-]. rewrite <- list_fmap_compose. rewrite <- (list_fmap_id messages) at 2. apply list_fmap_ext. intros ? m _. apply forget_plain.
  - intros [Hl Hk]%retain_from_lookup. apply list_eq_same_length with (n := length messages); [done|by rewrite length_fmap|].
    intros i x y _. rewrite list_lookup_fmap. intros (z & Hz & ->)%fmap_Some Hy. destruct (Hk _ _ Hy) as (m' & Hm' & Hr).
    rewrite Hm' in Hz. injection Hz as <-. by eapply forget_retained.
Qed.


Definition signed (modelId value : string) : ReplayEvent :=
  {| rpm_target := "thinking"; rpm_contentIndex := 0; rpm_providerId := "acme"; rpm_apiDialect := "anthropic-messages"; rpm_modelId := modelId;
     rpm_callId := None; rpm_signature := Some value; rpm_redacted := None; rpm_responseId := None; rpm_itemId := None; rpm_namespace := None |}.
Definition thought (text : string) : ModelMessage := MAssistant [CThinking text; CText "ok"] [].
Definition thought_signed (text value : string) : RequestModelMessage :=
  RAssistant [RThinking text (Some {| psg_identity := sample_identity "m"; psg_value := value |}) None; RText "ok" None None] (Some [])
    (Some (sample_identity "m")) None.


(** An attempt that failed before it streamed anything, and was retried, is a turn without a
    message: the signature of the answer is not sent with it, but with the next answer. *)
Example retried_turn_shifts_signatures :
  retainReplayMetadata [MUser [CText "a"]; thought "one"; MUser [CText "b"]] [[]; [signed "m" "s1"]] =
    Ok [RUser [CText "a"]; plain_message (thought "one"); RUser [CText "b"]] ∧
  retainReplayMetadata [MUser [CText "a"]; thought "one"; MUser [CText "b"]; thought "two"; MUser [CText "c"]] [[]; [signed "m" "s1"]; [signed "m" "s2"]] =
    Ok [RUser [CText "a"]; plain_message (thought "one"); RUser [CText "b"]; thought_signed "two" "s1"; RUser [CText "c"]].
Proof. split; by vm_compute. Qed.

(** ** Budgets *)

(** what is prepared for a model leaves the answer its room beside the thinking budget. *)
Lemma prepared_budget_fits digest readBlob model request dialect p r budget :
  prepareModelRequest digest readBlob model request dialect = Ok p → pmr_reasoning p = Some r → prs_tokenBudget r = Some budget →
  ∃ limit, pmr_maxOutputTokens p = Some limit ∧ (limit <= int_of (mi_maxOutputTokens model))%Z ∧ (budget = 0 ∨ budget + MIN_ANSWER_TOKENS <= limit)%Z.
Proof.
  unfold prepareModelRequest. intros H. repeat (apply bind_Ok in H as (? & ? & H); try match type of H with (let '(_, _) := ?x in _) = _ => destruct x end). injection H as <-. cbn. intros -> Hbudget.
  match goal with H : resolvedMaxOutputTokens _ _ _ = Ok _ |- _ => unfold resolvedMaxOutputTokens in H; apply bind_Ok in H as (? & _ & H); injection H as <- end.
  match goal with H : prepareReasoning _ _ = Ok _ |- _ => rename H into Hr end. unfold prepareReasoning in Hr.
  destruct (mrq_thinkingLevel request) as [level|]; [|by injection Hr]. cbv zeta in Hr.
  destruct (bool_decide (tc_effective _ = TOff)); [by injection Hr as <-|]. destruct (negb (usesBudget _ _)); [by injection Hr as <-|]. destruct (fitThinkingBudget _ _ _ _) as [f|] eqn:Hf; [|done]. injection Hr as <-. cbn in *.
  injection Hbudget as <-. apply fitted_budget_leaves_room in Hf as (Hm & _ & Hroom & _). eexists. split; [done|]. split; [lia|done].
Qed.

(** A model whose thinking is a budget: medium thinking takes 8192 tokens. *)
Definition budget_model : ModelInfo :=
  {| mi_providerId := "acme"; mi_modelId := "m"; mi_apiDialect := "anthropic-messages"; mi_capabilities := sample_capabilities;
     mi_thinking := {| mts_reasoning := true; mts_levelMap := λ _, Unmapped |}; mi_contextWindow := NInt 200000; mi_maxOutputTokens := NInt 64000;
     mi_cache := None; mi_sampling := None;
     mi_compatibility := Some {| cm_dialect := Some "anthropic-messages"; cm_supportsStrictTools := false; cm_supportsGrammarTools := false;
       cm_thinkingTokenBudgetField := None; cm_forceAdaptiveThinking := false; cm_supportsThinkingSignatures := true; cm_cacheControlFormat := None;
       cm_supportsPromptCacheMarkers := false; cm_supportsCacheControlOnTools := false; cm_supportsTemperature := true; cm_supportsLongCacheRetention := false |} |}.
Definition medium_options : SessionPortOptions :=
  {| spo_modelId := "m"; spo_thinkingLevel := Some TMedium; spo_maxOutputTokens := None; spo_requestSettings := None; spo_readBlob := None |}.
(** A compaction asks for at most 4096 tokens. *)
Definition summary_turn : PortTurnRequest :=
  {| ptr_system := None; ptr_messages := [MUser [CText "summarize"]]; ptr_tools := []; ptr_maxOutputTokens := Some (NInt 4096);
     ptr_toolChoice := None; ptr_estimatedInputTokens := None |}.
Definition budget_and_limit (r : result (option string) ConfiguredRequest) : option (option Z * Z) :=
  match r with
  | Ok c => Some (pmr_reasoning (cfr_prepared c) ≫= prs_tokenBudget, cfr_maxOutputTokens c)
  | Err _ => None
  end.
(** The budget is fitted to an output limit that is then replaced by a smaller one: the request
    asks to think for more tokens than it may produce. *)
Example configured_budget_overruns :
  budget_and_limit (configureRequest sample_digest medium_options budget_model summary_turn [RUser [CText "summarize"]] None).2 = Some (Some 8192%Z, 4096%Z).
Proof. vm_compute. reflexivity. Qed.

(** ** What is never sent *)

(** [MAssistant [] []]: a turn in which the model said nothing and called nothing. *)
Lemma retained_silent messages turns out : retainReplayMetadata messages turns = Ok out → MAssistant [] [] ∈ messages →
  ∃ origin continuation, RAssistant [] (Some []) origin continuation ∈ out.
Proof.
  intros H [k Hk]%list_elem_of_lookup. assert (Hm : ∃ m' replay, out !! k = Some m' ∧ retain_message (MAssistant [] []) replay = Ok m').
  { unfold retainReplayMetadata in H. destruct turns as [|turn turns].
    - injection H as <-. exists (plain_message (MAssistant [] [])), []. by rewrite list_lookup_fmap, Hk.
    - apply retain_from_lookup in H as [_ H]. destruct (H _ _ Hk) as (m' & ? & ?). by eauto. }
  destruct Hm as (m' & replay & Hm' & Hr). apply list_elem_of_lookup_2 in Hm'. unfold retain_message in Hr. destruct replay as [|first replay].
  - injection Hr as <-. by exists None, None.
  - apply bind_Ok in Hr as ([] & _ & [= <-]). by eauto.
Qed.

Lemma silent_not_configured digest options model request messages callback origin continuation : RAssistant [] (Some []) origin continuation ∈ messages →
  ∃ e, configureRequest digest options model request messages callback = (None, Err (Some e)).
Proof.
  intros Hin. unfold configureRequest. destruct (fitModelRequest _ _ _ _ _); [|by eauto].
  destruct (prepareModelRequest _ _ _ _ _) as [p|e] eqn:Hp; [|by eauto]. exfalso. unfold prepareModelRequest in Hp.
  repeat (apply bind_Ok in Hp as (? & ? & Hp); try match type of Hp with (let '(_, _) := ?x in _) = _ => destruct x end).
  match goal with H : prepareHistory ?d ?m ?t ?dl _ = Ok ?r |- _ => eapply (empty_turn_refused d m t dl); [| |exact H]; [|exact Hin]; done end.
Qed.

(** Once a turn without any output is in the conversation, the port sends nothing more: every
    request ends at once in one terminal event, without reaching the provider and without
    announcing a configuration. *)
Lemma port_refuses digest providerId options getModel turns request w : MAssistant [] [] ∈ ptr_messages request →
  ∃ t, modelPortForRegistry digest providerId options getModel turns request w = ([Yield t], turns ++ [[]]) ∧
    (t = Aborted None ∨ ∃ err, t = StreamError err ∧ mse_code err = "provider_stream_failure" ∧ mse_retryable err = false ∧ mse_partial err = None).
Proof.
  intros Hin. unfold modelPortForRegistry, retainStream.
  assert (Hitems : ∃ m, port_items digest options (getModel providerId (spo_modelId options)) turns request w = (None, [RawThrow m])).
  { unfold port_items. destruct (pw_aborted_first w); [by eauto|]. destruct (getModel _ _) as [model|e]; [|by eauto].
    destruct (retainReplayMetadata _ _) as [messages|e] eqn:Hr; [|by eauto]. destruct (retained_silent _ _ _ Hr Hin) as (o & c & Ho).
    destruct (silent_not_configured digest options model request messages (pw_onRequestConfigured w) o c Ho) as [e ->]. by eauto. }
  destruct Hitems as [m ->]. cbn. destruct (aborted_at_end w); cbn; (eexists; split; [done|]); [by left|right]. by eexists.
Qed.
