(* ===== verification/Anthropic.v ===== *)
(** ai/src/anthropic-messages.ts: requests and streams of the Anthropic Messages interface.

    A body is a value of the language. Models have no prices here, so that a usage has no
    costs. A count of tokens that is no integer is what the port refuses the event for, so it
    ends the stream with that message. *)
From stdpp Require Import base list strings pretty.
From Stdlib Require Import ZArith Lia Ascii.
From S2P Require Import Prelude Text JsValue Json JsonText JsMap Redaction Types ModelStream ProviderTypes Thinking Preparation Sse ProviderPort.

(** What an [AnthropicMessagesCodecError] says. *)
Abbreviation coded := (result string).

(** ** Base64 *)

Definition base64_digit (n : N) : ascii :=
  ascii_of_N (if (n <? 26)%N then 65 + n else if (n <? 52)%N then 71 + n else if (n <? 62)%N then n - 4 else if (n =? 62)%N then 43 else 47)%N.
(** [Buffer.from(bytes).toString("base64")] *)
Fixpoint base64 (bytes : string) : string :=
  match bytes with
  | "" => ""
  | String a "" => let n := (code a * 65536)%N in
      String (base64_digit (n / 262144)) (String (base64_digit (n / 4096 mod 64)) "==")
  | String a (String b "") => let n := (code a * 65536 + code b * 256)%N in
      String (base64_digit (n / 262144)) (String (base64_digit (n / 4096 mod 64)) (String (base64_digit (n / 64 mod 64)) "="))
  | String a (String b (String c rest)) => let n := (code a * 65536 + code b * 256 + code c)%N in
      String (base64_digit (n / 262144)) (String (base64_digit (n / 4096 mod 64)) (String (base64_digit (n / 64 mod 64)) (String (base64_digit (n mod 64)) (base64 rest))))
  end.

(** ** Requests *)

Definition ANTHROPIC_VERSION : string := "2023-06-01".
Definition INTERLEAVED_THINKING_BETA : string := "interleaved-thinking-2025-05-14".
Definition RESERVED_REQUEST_FIELDS : list string :=
  ["model"; "messages"; "system"; "max_tokens"; "stream"; "tools"; "tool_choice"; "thinking"; "output_config"; "temperature"; "top_p"; "top_k"; "metadata"].

Definition compatibility (model : ModelInfo) : coded ModelCompatibility :=
  _ ← require (bool_decide (mi_apiDialect model = "anthropic-messages")) ("Model " +:+ mi_modelId model +:+ " does not use the anthropic-messages dialect");
  match mi_compatibility model with
  | Some c => _ ← require (bool_decide (cm_dialect c = Some "anthropic-messages"))
                    ("Model " +:+ mi_modelId model +:+ " has no Anthropic Messages compatibility record"); Ok c
  | None => Err ("Model " +:+ mi_modelId model +:+ " has no Anthropic Messages compatibility record")
  end.

(** [placements.some(...)]: the placements are compared whole. *)
#[export] Instance CachePlacement_eq_dec : EqDecision CachePlacement.
Proof. solve_decision. Defined.
Definition hasPlacement (placements : list CachePlacement) (placement : CachePlacement) : bool := bool_decide (placement ∈ placements).

Definition cacheControl (model : ModelInfo) (request : PreparedModelRequest) : coded (option jsval) :=
  match pch_retention (pmr_cache request) with
  | RetentionNone => Ok None
  | RetentionShort => Ok (Some (JObj [("type", JStr "ephemeral")]))
  | RetentionLong =>
      c ← compatibility model;
      _ ← require (cm_supportsLongCacheRetention c) "Long cache retention is unsupported by this model";
      Ok (Some (JObj [("type", JStr "ephemeral"); ("ttl", JStr "1h")]))
  end.

Definition imageBlock (request : PreparedModelRequest) (sha256 : string) : coded fields :=
  match map_get sha256 (pmr_blobs request) with
  | None => Err ("Prepared blob " +:+ sha256 +:+ " is unavailable")
  | Some blob =>
      let mediaType := blob_mediaType (pb_reference blob) in
      _ ← require (bool_decide (mediaType ∈ ["image/jpeg"; "image/png"; "image/gif"; "image/webp"]))
            ("Anthropic Messages does not support image media type " +:+ mediaType);
      Ok [("type", JStr "image");
          ("source", JObj [("type", JStr "base64"); ("media_type", JStr mediaType); ("data", JStr (base64 (pb_bytes blob)))])]
  end.

Definition marked (marker : option jsval) (placed : bool) (block : fields) : jsval :=
  JObj (block ++ match marker with Some m => if placed then [("cache_control", m)] else [] | None => [] end).

Section Encode.
Context (model : ModelInfo) (request : PreparedModelRequest) (marker : option jsval).
Let placed := hasPlacement (pch_placements (pmr_cache request)).

Definition basic_block (messageIndex contentIndex : nat) (item : content) : coded jsval :=
  block ← match item with
          | CText text => Ok [("type", JStr "text"); ("text", JStr text)]
          | CBlob b => imageBlock request (blob_sha256 b)
          | CThinking _ => Err "Anthropic Messages cannot encode this content block"
          end;
  Ok (marked marker (placed (PlaceContent messageIndex contentIndex)) block).
Definition basicContent (messageIndex : nat) (items : list content) : coded (list jsval) := map_indexed (basic_block messageIndex) items.

Definition path_of (messageIndex : nat) : string := "messages[" +:+ pretty messageIndex +:+ "]".
Definition rejectContinuation (messageIndex : nat) (items : list RequestAssistantContent) (calls : option (list PreparedToolCall))
    (continuation : option ProviderContinuationMetadata) : coded unit :=
  _ ← refuse (bool_decide (is_Some continuation)) (path_of messageIndex +:+ " has continuation metadata unsupported by Anthropic Messages");
  _ ← each_indexed (λ contentIndex item,
        refuse (match item with RText _ _ (Some _) => true | _ => false end)
          (path_of messageIndex +:+ ".content[" +:+ pretty contentIndex +:+ "] has unsupported continuation metadata")) items;
  each_indexed (λ callIndex call,
    let at_ := path_of messageIndex +:+ ".toolCalls[" +:+ pretty callIndex +:+ "]" in
    _ ← refuse (bool_decide (is_Some (ptc_continuation call))) (at_ +:+ " has unsupported continuation metadata");
    refuse (bool_decide (is_Some (ptc_signature call))) (at_ +:+ " has unsupported signature metadata")) (default [] calls).

Definition text_block (text : string) : list jsval := if bool_decide (text = "") then [] else [JObj [("type", JStr "text"); ("text", JStr text)]].
Definition assistant_block (messageIndex : nat) (item : RequestAssistantContent) : coded (list jsval) :=
  match item with
  | RBlob _ => Err (path_of messageIndex +:+ " cannot replay an assistant image through Anthropic Messages")
  | RText text _ _ => Ok (text_block text)
  | RThinking text signature redacted =>
      match signature with
      | None => if bool_decide (redacted = Some true) then Err (path_of messageIndex +:+ " has redacted thinking without a signature") else Ok (text_block text)
      | Some s =>
          if bool_decide (redacted = Some true) then Ok [JObj [("type", JStr "redacted_thinking"); ("data", JStr (psg_value s))]]
          else Ok [JObj [("type", JStr "thinking"); ("thinking", JStr text); ("signature", JStr (psg_value s))]]
      end
  end.
Definition call_block (call : PreparedToolCall) : jsval :=
  JObj [("type", JStr "tool_use"); ("id", JStr (ptc_callId call)); ("name", JStr (ptc_name call)); ("input", JObj (ptc_input call))].
Definition assistantContent (messageIndex : nat) (items : list RequestAssistantContent) (calls : option (list PreparedToolCall))
    (continuation : option ProviderContinuationMetadata) : coded (list jsval) :=
  _ ← rejectContinuation messageIndex items calls continuation;
  blocks ← map_indexed (λ _, assistant_block messageIndex) items;
  let blocks := mjoin blocks ++ (call_block <$> default [] calls) in
  _ ← refuse (bool_decide (blocks = [])) (path_of messageIndex +:+ " has no Anthropic-renderable assistant content");
  Ok blocks.

Definition result_block (messageIndex : nat) (callId : string) (items : list content) (isError : bool) : coded jsval :=
  c ← basicContent messageIndex items;
  Ok (JObj [("type", JStr "tool_result"); ("tool_use_id", JStr callId); ("content", JArr c); ("is_error", JBool isError)]).

Definition wire_message (role : string) (blocks : list jsval) : jsval := JObj [("role", JStr role); ("content", JArr blocks)].

(** The loop over the messages; [results] are the blocks of the run of results that is open. *)
Definition close_results (results : list jsval) : list jsval := match results with [] => [] | _ => [wire_message "user" results] end.
Fixpoint encode_from (messageIndex : nat) (results : list jsval) (messages : list PreparedRequestMessage) : coded (list jsval) :=
  match messages with
  | [] => Ok (close_results results)
  | PTool callId _ _ _ items isError :: rest =>
      block ← result_block messageIndex callId items isError;
      encode_from (S messageIndex) (results ++ [block]) rest
  | PUser items :: rest =>
      blocks ← basicContent messageIndex items;
      encoded ← encode_from (S messageIndex) [] rest;
      Ok (close_results results ++ wire_message "user" blocks :: encoded)
  | PAssistant items calls _ continuation :: rest =>
      blocks ← assistantContent messageIndex items calls continuation;
      encoded ← encode_from (S messageIndex) [] rest;
      Ok (close_results results ++ wire_message "assistant" blocks :: encoded)
  end.
Definition encodeMessages (messages : list PreparedRequestMessage) : coded (list jsval) := encode_from 0 [] messages.

Definition encode_tool (toolIndex : nat) (tool : PreparedToolDeclaration) : coded jsval :=
  _ ← match ptd_preparedConstraint tool with
      | Some (PreparedGrammar _ _ _) => Err ("Anthropic Messages cannot render grammar-constrained tool " +:+ ptd_canonicalName tool)
      | _ => Ok tt
      end;
  Ok (marked marker (placed (PlaceTool toolIndex))
        ([("name", JStr (ptd_name tool)); ("description", JStr (ptd_description tool)); ("input_schema", JObj (ptd_inputSchema tool))]
         ++ match ptd_preparedConstraint tool with Some (PreparedJsonSchema true) => [("strict", JBool true)] | _ => [] end)).
Definition encodeTools : coded (option (list jsval)) :=
  match pmr_tools request with
  | None | Some [] => Ok None
  | Some tools => l ← map_indexed encode_tool tools; Ok (Some l)
  end.

(** What is added to the body, and whether thinking is on. *)
Definition applyThinking : coded (fields * bool) :=
  match pmr_reasoning request with
  | None => Ok ([], false)
  | Some reasoning =>
      let effective := tc_effective (prs_clamp reasoning) in
      if bool_decide (effective = TOff) then Ok ([("thinking", JObj [("type", JStr "disabled")])], false)
      else
        compat ← compatibility model;
        if cm_forceAdaptiveThinking compat then
          Ok ([("thinking", JObj [("type", JStr "adaptive"); ("display", JStr "summarized")]);
               ("output_config", JObj [("effort", match prs_providerValue reasoning with Some v => JStr v | None => JEnum effective end)])], true)
        else match prs_tokenBudget reasoning with
             | None => Err "Anthropic budget-based thinking requires a prepared token budget"
             | Some budget =>
                 Ok ([("thinking", JObj [("type", JStr "enabled"); ("budget_tokens", JInt budget); ("display", JStr "summarized")])], true)
             end
  end.

(** [field in body] finds also what every object inherits. *)
Definition OBJECT_PROTOTYPE_NAMES : list string :=
  ["constructor"; "__defineGetter__"; "__defineSetter__"; "hasOwnProperty"; "__lookupGetter__"; "__lookupSetter__"; "isPrototypeOf";
   "propertyIsEnumerable"; "toString"; "valueOf"; "__proto__"; "toLocaleString"].
Definition applySampling (body : fields) : coded fields :=
  match pmr_sampling request with
  | None => Ok body
  | Some s =>
      let body := body ++ opt_field "temperature" (JNum <$> so_temperature s) ++ opt_field "top_p" (JNum <$> so_topP s) ++ opt_field "top_k" (JNum <$> so_topK s) in
      fold_res (λ body (kv : string * jsval),
        _ ← refuse (bool_decide (kv.1 ∈ RESERVED_REQUEST_FIELDS) || has_own kv.1 body || bool_decide (kv.1 ∈ OBJECT_PROTOTYPE_NAMES))
              ("Custom sampling field " +:+ kv.1 +:+ " collides with an Anthropic request field");
        Ok (body ++ [kv])) body (default [] (so_custom s))
  end.
End Encode.

Record EncodedAnthropicMessagesRequest := { ear_body : fields; ear_headers : list (string * string) }.

Definition choice_name (c : ToolChoice) : string := match c with ChoiceRequired => "required" | ChoiceAuto => "auto" | ChoiceNone => "none" end.

(** [maxOutputTokens] is the limit of the request, which the port has set. *)
Definition encodeAnthropicMessagesRequest (model : ModelInfo) (request : PreparedModelRequest) (maxOutputTokens : option Z) : coded EncodedAnthropicMessagesRequest :=
  let raw := pmr_request request in
  compat ← compatibility model;
  _ ← require (bool_decide (mrq_modelId raw = mi_modelId model)) ("Request model " +:+ mrq_modelId raw +:+ " does not match " +:+ mi_modelId model);
  let metadata := default [] (mrq_metadata raw) in
  _ ← require (forallb (λ key, bool_decide (key = "user_id")) (keys metadata)) "Anthropic Messages supports only metadata.user_id";
  _ ← match get "user_id" metadata with JUndef | JStr _ => Ok tt | _ => Err "Anthropic Messages metadata.user_id must be a string" end;
  marker ← cacheControl model request;
  messages ← encodeMessages request marker (pmr_messages request);
  let system := match mrq_system raw with
                | Some s => if bool_decide (s = "") then []
                            else [("system", JArr [marked marker (hasPlacement (pch_placements (pmr_cache request)) PlaceSystem)
                                                     [("type", JStr "text"); ("text", JStr s)]])]
                | None => []
                end in
  tools ← encodeTools request marker;
  choice ← match mrq_toolChoice raw with
           | None => Ok []
           | Some c =>
               _ ← refuse (negb (bool_decide (c = ChoiceNone)) && bool_decide (tools = None)) ("toolChoice " +:+ choice_name c +:+ " needs at least one tool");
               Ok [("tool_choice", JObj [("type", JStr (match c with ChoiceRequired => "any" | _ => choice_name c end))])]
           end;
  ' (thinking, enabled) ← applyThinking model request;
  body ← applySampling request
           ([("model", JStr (mi_modelId model)); ("messages", JArr messages);
             ("max_tokens", match maxOutputTokens with Some n => JInt n | None => JNum (mi_maxOutputTokens model) end); ("stream", JBool true)]
            ++ system ++ opt_field "tools" (JArr <$> tools) ++ choice ++ thinking);
  Ok {| ear_body := body ++ match get "user_id" metadata with JStr id => [("metadata", JObj [("user_id", JStr id)])] | _ => [] end;
        ear_headers := [("accept", "text/event-stream"); ("content-type", "application/json"); ("anthropic-version", ANTHROPIC_VERSION)]
                       ++ if enabled && negb (cm_forceAdaptiveThinking compat) then [("anthropic-beta", INTERLEAVED_THINKING_BETA)] else [] |}.

(** ** Streams *)

Inductive Block :=
| TextBlock (contentIndex : nat)
| ThinkingBlock (contentIndex : nat) (redacted : bool) (signature : string)
| ToolBlock (contentIndex : nat) (callId wireName argumentsText : string).

Definition numberField (value : jsval) (name : string) : coded (option number) :=
  match value with
  | JUndef | JNull => Ok None
  | JNum n => if is_finite n && negb (is_negative n) then Ok (Some n) else Err ("Anthropic usage " +:+ name +:+ " must be non-negative")
  | _ => Err ("Anthropic usage " +:+ name +:+ " must be non-negative")
  end.

Record AnthropicUsageState := { us_input : number; us_output : number; us_cacheRead : number; us_cacheWrite : number; us_cacheWrite1h : number; us_reasoning : number }.
Definition no_usage : AnthropicUsageState :=
  {| us_input := NInt 0; us_output := NInt 0; us_cacheRead := NInt 0; us_cacheWrite := NInt 0; us_cacheWrite1h := NInt 0; us_reasoning := NInt 0 |}.

(** [object(value)]: the fields of an object that is no array. *)
Definition object_of (value : jsval) : option fields := schema_fields value.
(** [object(value)?.key] *)
Definition inner (key : string) (value : jsval) : jsval := match object_of value with Some fs => get key fs | None => JUndef end.

Definition mergeUsage (state : AnthropicUsageState) (raw : jsval) : coded AnthropicUsageState :=
  if is_undef raw then Ok state
  else match object_of raw with
       | None => Err "Anthropic usage must be an object"
       | Some value =>
           input ← numberField (get "input_tokens" value) "input_tokens";
           output ← numberField (get "output_tokens" value) "output_tokens";
           cacheRead ← numberField (get "cache_read_input_tokens" value) "cache_read_input_tokens";
           cacheWrite ← numberField (get "cache_creation_input_tokens" value) "cache_creation_input_tokens";
           cacheWrite1h ← numberField (inner "ephemeral_1h_input_tokens" (get "cache_creation" value)) "ephemeral_1h_input_tokens";
           reasoning ← numberField (inner "thinking_tokens" (get "output_tokens_details" value)) "thinking_tokens";
           Ok {| us_input := default (us_input state) input; us_output := default (us_output state) output;
                 us_cacheRead := default (us_cacheRead state) cacheRead; us_cacheWrite := default (us_cacheWrite state) cacheWrite;
                 us_cacheWrite1h := default (us_cacheWrite1h state) cacheWrite1h; us_reasoning := default (us_reasoning state) reasoning |}
       end.

(** [usage(state, model)] for a model without prices, as the check of the event takes it. *)
Definition checked_count (name : string) (n : number) : coded Z :=
  if is_safe_integer n && negb (is_negative n) then Ok (int_of n)
  else Err ("modelStreamEvent.usage." +:+ name +:+ " must be a non-negative safe integer").
Definition usage (state : AnthropicUsageState) : coded Usage :=
  input ← checked_count "inputTokens" (us_input state);
  output ← checked_count "outputTokens" (us_output state);
  cacheRead ← checked_count "cacheReadTokens" (us_cacheRead state);
  cacheWrite ← checked_count "cacheWriteTokens" (us_cacheWrite state);
  reasoning ← checked_count "reasoningTokens" (us_reasoning state);
  Ok {| usage_inputTokens := input; usage_outputTokens := output; usage_cacheReadTokens := cacheRead; usage_cacheWriteTokens := cacheWrite;
        usage_reasoningTokens := Some reasoning; usage_costUsd := None |}.

Definition retryableProviderCode (code : string) : bool := bool_decide (code ∈ ["api_error"; "overloaded_error"; "rate_limit_error"; "timeout_error"]).

(** [a ?? b] of values *)
Definition or_value (a b : jsval) : jsval := match a with JUndef | JNull => b | _ => a end.
Definition nonempty_str (v : jsval) : option string := match v with JStr s => if bool_decide (s = "") then None else Some s | _ => None end.

(** [safeProviderMessage] of ai/src/diagnostics.ts *)
Definition MAX_DIAGNOSTIC_MESSAGE_LENGTH : Z := 2000.
Definition safeProviderMessage (message : string) (secretValues : list string) : string :=
  js_slice_start MAX_DIAGNOSTIC_MESSAGE_LENGTH
    (redactString message (sort_longest (unique (List.filter (λ s, negb (bool_decide (s = ""))) secretValues)))).

Definition parseFrame (frame : SseFrame) : coded (option fields) :=
  if bool_decide (sse_event frame = Some "ping") then Ok None
  else match json_parse (sse_data frame) ≫= object_of with
       | Some fs => Ok (Some fs)
       | None => Err "Provider sent an undecodable Anthropic stream frame"
       end.

Definition known_frames : list string :=
  ["message_start"; "message_delta"; "message_stop"; "content_block_start"; "content_block_delta"; "content_block_stop"; "error"].

(** The variables of the decoder. *)
Record decoder := {
  dc_blocks : list (Z * Block);
  dc_usage : AnthropicUsageState;
  dc_responseId : option string;
  dc_routedModelId : option string;
  dc_stopReason : option string;
  dc_stopDetails : option fields;
  dc_emitted : bool;
  dc_next : nat
}.
Definition new_decoder : decoder :=
  {| dc_blocks := []; dc_usage := no_usage; dc_responseId := None; dc_routedModelId := None; dc_stopReason := None; dc_stopDetails := None;
     dc_emitted := false; dc_next := 0 |}.
Definition with_blocks (blocks : list (Z * Block)) (d : decoder) : decoder :=
  {| dc_blocks := blocks; dc_usage := dc_usage d; dc_responseId := dc_responseId d; dc_routedModelId := dc_routedModelId d;
     dc_stopReason := dc_stopReason d; dc_stopDetails := dc_stopDetails d; dc_emitted := dc_emitted d; dc_next := dc_next d |}.
Definition emitted (d : decoder) : decoder :=
  {| dc_blocks := dc_blocks d; dc_usage := dc_usage d; dc_responseId := dc_responseId d; dc_routedModelId := dc_routedModelId d;
     dc_stopReason := dc_stopReason d; dc_stopDetails := dc_stopDetails d; dc_emitted := true; dc_next := dc_next d |}.
(** [blocks.set(providerIndex, block)] with the next content index taken *)
Definition open_block (providerIndex : Z) (block : Block) (d : decoder) : decoder :=
  {| dc_blocks := map_set providerIndex block (dc_blocks d); dc_usage := dc_usage d; dc_responseId := dc_responseId d;
     dc_routedModelId := dc_routedModelId d; dc_stopReason := dc_stopReason d; dc_stopDetails := dc_stopDetails d; dc_emitted := dc_emitted d;
     dc_next := S (dc_next d) |}.
(** The content index is taken also for a kind of block that is not known. *)
Definition skip_block (d : decoder) : decoder :=
  {| dc_blocks := dc_blocks d; dc_usage := dc_usage d; dc_responseId := dc_responseId d; dc_routedModelId := dc_routedModelId d;
     dc_stopReason := dc_stopReason d; dc_stopDetails := dc_stopDetails d; dc_emitted := dc_emitted d; dc_next := S (dc_next d) |}.

(** What a frame comes to: the events it yields, and the decoder unless the stream is over. *)
Definition outcome : Type := list ModelStreamEvent * option decoder.
Definition quiet (d : decoder) : coded outcome := Ok ([], Some d).
Definition yields (e : ModelStreamEvent) (d : decoder) : coded outcome := Ok ([e], Some (emitted d)).
Definition yields_nonempty (text : string) (e : ModelStreamEvent) (d : decoder) : coded outcome :=
  if bool_decide (text = "") then quiet d else yields e d.
Definition ends (e : ModelStreamEvent) : coded outcome := Ok ([e], None).

Definition index_of (event : fields) (what : string) : coded Z :=
  match get "index" event with
  | JNum n => _ ← require (is_safe_integer n && negb (is_negative n)) what; Ok (int_of n)
  | _ => Err what
  end.

Section Decode.
(** The tools of the preparation by the name the provider knows, and what responses are measured with. *)
Context (model : ModelInfo) (modelId : string) (tools : list PreparedToolDeclaration) (secretValues : list string) (latencyMs : option number).

Definition reverseToolName (name : string) : string :=
  match list_find (λ t, ptd_name t = name) tools with Some (_, t) => ptd_canonicalName t | None => name end.

Definition responseMetadata (d : decoder) : ProviderResponseMetadata :=
  {| prm_providerId := mi_providerId model; prm_requestedModelId := modelId; prm_routedModelId := dc_routedModelId d;
     prm_responseId := dc_responseId d; prm_nativeStopReason := dc_stopReason d; prm_latencyMs := latencyMs |}.

Definition provider_failure (code message : string) (retryable : bool) (d : decoder) : ModelStreamEvent :=
  StreamError {| mse_code := code; mse_message := safeProviderMessage message secretValues; mse_retryable := retryable;
                 mse_partial := partial_of (dc_emitted d); mse_category := None; mse_requestPhase := None; mse_retryAfterMs := None;
                 mse_response := Some (responseMetadata d); mse_diagnostics := [] |}.

Definition on_error (event : fields) (d : decoder) : coded outcome :=
  let providerError := default event (object_of (get "error" event)) in
  let code := StreamChecks.js_string (or_value (get "type" providerError) (or_value (get "code" providerError) (JStr "provider_error"))) in
  let message := match get "message" providerError with JStr m => m | _ => "Anthropic reported a failure" end in
  ends (provider_failure code message (retryableProviderCode code) d).

Definition on_message_start (event : fields) (d : decoder) : coded outcome :=
  match object_of (get "message" event) with
  | None => Err "Anthropic message_start has no message object"
  | Some message =>
      u ← mergeUsage (dc_usage d) (get "usage" message);
      quiet {| dc_blocks := dc_blocks d; dc_usage := u;
               dc_responseId := or_else (nonempty_str (get "id" message)) (dc_responseId d);
               dc_routedModelId := or_else (nonempty_str (get "model" message)) (dc_routedModelId d);
               dc_stopReason := dc_stopReason d; dc_stopDetails := dc_stopDetails d; dc_emitted := dc_emitted d; dc_next := dc_next d |}
  end.

Definition start_tool (providerIndex : Z) (content : fields) (d : decoder) : coded outcome :=
  match nonempty_str (get "id" content), nonempty_str (get "name" content) with
  | Some id, Some name =>
      let input := object_of (get "input" content) in
      _ ← refuse (defined (get "input" content) && bool_decide (input = None)) "Anthropic tool use input must be an object";
      let argumentsText := match input with None | Some [] => "" | Some fs => json_text (JObj fs) end in
      yields (ToolCallStart (Z.of_nat (dc_next d)) id (reverseToolName name)) (open_block providerIndex (ToolBlock (dc_next d) id name argumentsText) d)
  | _, _ => Err "Anthropic tool use start is malformed"
  end.
Definition text_of (v : jsval) : string := match v with JStr s => s | _ => "" end.
Definition on_block_start (event : fields) (d : decoder) : coded outcome :=
  providerIndex ← index_of event "Anthropic content block has no valid index";
  _ ← refuse (map_has providerIndex (dc_blocks d)) ("Anthropic content block " +:+ pretty providerIndex +:+ " started twice");
  match object_of (get "content_block" event) with
  | None => Err "Anthropic content block start is malformed"
  | Some content =>
      let i := dc_next d in
      match get "type" content with
      | JStr kind =>
          if bool_decide (kind = "text") then
            let text := text_of (get "text" content) in
            yields_nonempty text (TextDelta text (Some (Z.of_nat i))) (open_block providerIndex (TextBlock i) d)
          else if bool_decide (kind = "thinking") then
            let text := text_of (get "thinking" content) in
            yields_nonempty text (ThinkingDelta text (Some (Z.of_nat i)))
              (open_block providerIndex (ThinkingBlock i false (text_of (get "signature" content))) d)
          else if bool_decide (kind = "redacted_thinking") then
            match nonempty_str (get "data" content) with
            | None => Err "Anthropic redacted thinking has no signature"
            | Some data => yields (ThinkingDelta "[Reasoning redacted]" (Some (Z.of_nat i))) (open_block providerIndex (ThinkingBlock i true data) d)
            end
          else if bool_decide (kind = "tool_use") then start_tool providerIndex content d
          else quiet (skip_block d)
      | _ => Err "Anthropic content block start is malformed"
      end
  end.

Definition block_at (event : fields) (what target : string) (d : decoder) : coded (Z * Block) :=
  i ← index_of event what;
  match map_get i (dc_blocks d) with
  | Some block => Ok (i, block)
  | None => Err (target +:+ pretty i)
  end.
(** A delta of a block. *)
Definition apply_delta (i : Z) (block : Block) (kind : string) (delta : fields) (d : decoder) : coded outcome :=
  if bool_decide (kind = "text_delta") then
    match block, get "text" delta with
    | TextBlock ci, JStr text => yields_nonempty text (TextDelta text (Some (Z.of_nat ci))) d
    | _, _ => Err "Anthropic text delta targets a non-text block"
    end
  else if bool_decide (kind = "thinking_delta") then
    match block, get "thinking" delta with
    | ThinkingBlock ci _ _, JStr text => yields_nonempty text (ThinkingDelta text (Some (Z.of_nat ci))) d
    | _, _ => Err "Anthropic thinking delta targets a non-thinking block"
    end
  else if bool_decide (kind = "signature_delta") then
    match block, get "signature" delta with
    | ThinkingBlock ci redacted signature, JStr more => quiet (with_blocks (map_set i (ThinkingBlock ci redacted (signature +:+ more)) (dc_blocks d)) d)
    | _, _ => Err "Anthropic signature delta targets a non-thinking block"
    end
  else if bool_decide (kind = "input_json_delta") then
    match block, get "partial_json" delta with
    | ToolBlock ci callId name argumentsText, JStr more =>
        Ok (if bool_decide (more = "") then [] else [ToolCallDelta (Z.of_nat ci) callId more],
            Some (with_blocks (map_set i (ToolBlock ci callId name (argumentsText +:+ more)) (dc_blocks d)) d))
    | _, _ => Err "Anthropic tool input delta targets a non-tool block"
    end
  else quiet d.
Definition on_block_delta (event : fields) (d : decoder) : coded outcome :=
  ' (i, block) ← block_at event "Anthropic content delta has no valid index" "Anthropic delta targets unknown block " d;
  match object_of (get "delta" event) with
  | None => Err "Anthropic content delta is malformed"
  | Some delta =>
      match get "type" delta with
      | JStr kind => apply_delta i block kind delta d
      | _ => Err "Anthropic content delta is malformed"
      end
  end.

Definition replay_of_block (contentIndex : nat) (redacted : bool) (signature : string) : ModelStreamEvent :=
  ReplayMetadata {| rpm_target := "thinking"; rpm_contentIndex := Z.of_nat contentIndex; rpm_providerId := mi_providerId model;
                    rpm_apiDialect := mi_apiDialect model; rpm_modelId := modelId; rpm_callId := None; rpm_signature := Some signature;
                    rpm_redacted := if redacted then Some true else None; rpm_responseId := None; rpm_itemId := None; rpm_namespace := None |}.
(** The arguments of a call: nothing is no arguments. *)
Definition parse_arguments (text : string) : option fields :=
  if bool_decide (text = "") then Some [] else json_parse text ≫= object_of.
Definition on_block_stop (event : fields) (d : decoder) : coded outcome :=
  ' (i, block) ← block_at event "Anthropic content stop has no valid index" "Anthropic stopped unknown block " d;
  let d := with_blocks (map_delete i (dc_blocks d)) d in
  match block with
  | ThinkingBlock ci redacted signature => Ok (if bool_decide (signature = "") then [] else [replay_of_block ci redacted signature], Some d)
  | ToolBlock ci callId name argumentsText =>
      match parse_arguments argumentsText with
      | None => Err ("Tool call " +:+ callId +:+ " has undecodable arguments")
      | Some input =>
          Ok ([ToolCallEvent {| tcr_callId := callId; tcr_name := reverseToolName name; tcr_input := input |} (Some (Z.of_nat ci))], Some d)
      end
  | TextBlock _ => quiet d
  end.

Definition on_message_delta (event : fields) (d : decoder) : coded outcome :=
  match object_of (get "delta" event) with
  | None => Err "Anthropic message_delta has no delta object"
  | Some delta =>
      stopReason ← match get "stop_reason" delta with
                   | JUndef | JNull => Ok (dc_stopReason d)
                   | v => match nonempty_str v with Some s => Ok (Some s) | None => Err "Anthropic stop reason is malformed" end
                   end;
      stopDetails ← match get "stop_details" delta with
                    | JUndef | JNull => Ok (dc_stopDetails d)
                    | v => match object_of v with Some fs => Ok (Some fs) | None => Err "Anthropic stop details are malformed" end
                    end;
      u ← mergeUsage (dc_usage d) (get "usage" event);
      quiet {| dc_blocks := dc_blocks d; dc_usage := u; dc_responseId := dc_responseId d; dc_routedModelId := dc_routedModelId d;
               dc_stopReason := stopReason; dc_stopDetails := stopDetails; dc_emitted := dc_emitted d; dc_next := dc_next d |}
  end.

Definition on_message_stop (d : decoder) : coded outcome :=
  _ ← require (bool_decide (dc_blocks d = [])) "Anthropic stopped with incomplete content blocks";
  match dc_stopReason d with
  | None => Err "Anthropic stream ended without a stop reason"
  | Some reason =>
      u ← (if bool_decide (reason ∈ ["refusal"; "sensitive"]) then Ok None else rmap Some (usage (dc_usage d)));
      let completes (stop : AssistantStopReason) (partial : option bool) : coded outcome :=
        match u with Some u => ends (Completed stop u partial (Some (responseMetadata d)) []) | None => Err "" end in
      if bool_decide (reason ∈ ["end_turn"; "stop_sequence"; "pause_turn"]) then completes SStop None
      else if bool_decide (reason = "max_tokens") then completes SLength (Some true)
      else if bool_decide (reason = "tool_use") then completes SToolUse None
      else if bool_decide (reason ∈ ["refusal"; "sensitive"]) then
        let explanation := match dc_stopDetails d with
                           | Some fs => match get "explanation" fs with JStr s => s | _ => "Provider stopped with: " +:+ reason end
                           | None => "Provider stopped with: " +:+ reason
                           end in
        ends (provider_failure reason explanation false d)
      else Err ("Unhandled Anthropic stop reason: " +:+ reason)
  end.

(** One frame, when the signal is not aborted. *)
Definition on_frame (frame : SseFrame) (d : decoder) : coded outcome :=
  if match sse_event frame with Some e => negb (bool_decide (e ∈ known_frames)) | None => false end then quiet d
  else
    parsed ← parseFrame frame;
    match parsed with
    | None => quiet d
    | Some event =>
        let type := match get "type" event with JStr t => Some t | _ => sse_event frame end in
        if bool_decide (type = Some "error") then on_error event d
        else if bool_decide (type = Some "message_start") then on_message_start event d
        else if bool_decide (type = Some "content_block_start") then on_block_start event d
        else if bool_decide (type = Some "content_block_delta") then on_block_delta event d
        else if bool_decide (type = Some "content_block_stop") then on_block_stop event d
        else if bool_decide (type = Some "message_delta") then on_message_delta event d
        else if bool_decide (type = Some "message_stop") then on_message_stop d
        else quiet d
    end.

(** The frames, each with the state of the signal when it is read, and the state at the end. *)
Fixpoint decode_frames (d : decoder) (frames : list (bool * SseFrame)) (aborted_at_end : bool) : list raw_item :=
  match frames with
  | [] => if aborted_at_end then [RawEvent (Aborted (partial_of (dc_emitted d)))] else []
  | (aborted, frame) :: rest =>
      if aborted then [RawEvent (Aborted (partial_of (dc_emitted d)))]
      else match on_frame frame d with
           | Err message => [RawThrow (Some message)]
           | Ok (events, Some d') => (RawEvent <$> events) ++ decode_frames d' rest aborted_at_end
           | Ok (events, None) => RawEvent <$> events
           end
  end.
Definition decodeAnthropicMessagesStream (frames : list (bool * SseFrame)) (aborted_at_end : bool) : list raw_item :=
  match compatibility model with
  | Err message => [RawThrow (Some message)]
  | Ok _ => decode_frames new_decoder frames aborted_at_end
  end.
End Decode.
