(* ===== verification/AnthropicFacts.v ===== *)
(** What the Anthropic Messages interface is sent, and what a turn of it becomes: every call is
    answered in the message after it, and a stream is the message it was cut from. *)
From stdpp Require Import base list sets strings pretty.
From Stdlib Require Import ZArith Lia Ascii.
From S2P Require Import Prelude Text JsValue Json JsonText JsMap Types ModelStream MigrationFacts ProviderTypes Thinking Dialect Preparation PreparationFacts Sse ProviderPort ProviderPortFacts Anthropic.

(** ** Requests *)

Lemma omap_none {A B} (f : A → option B) (l : list A) : Forall (λ x, f x = None) l → omap f l = [].
Proof. induction 1 as [|x l Hx _ IH]; [done|]. cbn. by rewrite Hx. Qed.
Lemma omap_all {A B} (f : A → option B) (l : list A) (ks : list B) : f <$> l = Some <$> ks → omap f l = ks.
Proof. induction l as [|x l IH] in ks |- *; intros H; (destruct ks as [|k ks]; [done|]); [done|]. cbn in *. injection H as Hx H. rewrite Hx. f_equal. by apply IH. Qed.

(** The identifiers under [key] of the blocks of a type. *)
Definition block_id (type key : string) (block : jsval) : option string :=
  match block with
  | JObj fs => if is_str type (get "type" fs) then match get key fs with JStr id => Some id | _ => None end else None
  | _ => None
  end.
Definition ids_of (type key : string) (blocks : list jsval) : list string := omap (block_id type key) blocks.
Abbreviation use_ids := (ids_of "tool_use" "id").
Abbreviation result_ids := (ids_of "tool_result" "tool_use_id").

(** What the interface asks of a conversation: the results of the calls of a turn, and no others,
    are the whole of the message after it. *)
Inductive wire_answered : list jsval → Prop :=
| wire_done : wire_answered []
| wire_user blocks rest : use_ids blocks = [] → result_ids blocks = [] → wire_answered rest → wire_answered (wire_message "user" blocks :: rest)
| wire_silent blocks rest : use_ids blocks = [] → wire_answered rest → wire_answered (wire_message "assistant" blocks :: rest)
| wire_turn blocks results rest : use_ids blocks ≠ [] → Some <$> result_ids results = block_id "tool_result" "tool_use_id" <$> results →
    result_ids results ≡ₚ use_ids blocks → wire_answered rest →
    wire_answered (wire_message "assistant" blocks :: wire_message "user" results :: rest).

Definition calls_sent (wire : list jsval) : list string :=
  wire ≫= λ m, match m with JObj fs => match get "content" fs with JArr blocks => use_ids blocks | _ => [] end | _ => [] end.

Lemma ids_app type key a b : ids_of type key (a ++ b) = ids_of type key a ++ ids_of type key b.
Proof. apply omap_app. Qed.

Lemma calls_sent_message role blocks rest : calls_sent (wire_message role blocks :: rest) = use_ids blocks ++ calls_sent rest.
Proof. reflexivity. Qed.
Lemma result_is_no_use block : is_Some (block_id "tool_result" "tool_use_id" block) → block_id "tool_use" "id" block = None.
Proof.
  intros [x Hx]. destruct block as [| | | | | |fs| |]; try done. cbn in *. destruct (get "type" fs) as [| | | |s| | | |]; try done. cbn in *. case_bool_decide; [by subst|done].
Qed.
Lemma close_results_calls results : Forall (λ b, is_Some (block_id "tool_result" "tool_use_id" b)) results → calls_sent (close_results results) = [].
Proof.
  intros H. destruct results as [|r results]; [done|]. unfold close_results. rewrite calls_sent_message. unfold ids_of. rewrite omap_none; [done|].
  eapply Forall_impl; [exact H|]. apply result_is_no_use.
Qed.

Section Encoding.
Context (request : PreparedModelRequest) (marker : option jsval).

Lemma basic_block_ids i j item block : basic_block request marker i j item = Ok block →
  block_id "tool_use" "id" block = None ∧ block_id "tool_result" "tool_use_id" block = None.
Proof.
  unfold basic_block. intros (fs & Hb & [= <-])%bind_Ok. destruct item as [text|text|b]; [by injection Hb as <-|done|].
  unfold imageBlock in Hb. destruct (map_get _ _); [|done]. by apply bind_Ok in Hb as (_ & _ & [= <-]).
Qed.
Lemma basicContent_ids i items blocks : basicContent request marker i items = Ok blocks → use_ids blocks = [] ∧ result_ids blocks = [].
Proof.
  intros [Hl H]%map_indexed_Ok. split; apply omap_none, Forall_lookup; intros j block Hj;
    (destruct (lookup_lt_is_Some_2 items j) as [item Hi]; [rewrite Hl; by eapply lookup_lt_Some|]); specialize (H j item block Hi Hj); by apply basic_block_ids in H as [? ?].
Qed.

Lemma assistant_block_ids i item blocks : assistant_block i item = Ok blocks → use_ids blocks = [].
Proof.
  assert (Ht : ∀ text, use_ids (text_block text) = []) by (intros text; unfold text_block; by case_bool_decide).
  destruct item as [text s c|text [s|] redacted|b]; cbn -[text_block];
    [intros [= <-]; apply Ht|case_bool_decide; by intros [= <-]|case_bool_decide; [done|intros [= <-]; apply Ht]|done].
Qed.
Lemma call_block_ids calls : use_ids (call_block <$> calls) = ptc_callId <$> calls.
Proof. induction calls as [|c calls IH]; [done|]. cbn. unfold use_ids. cbn. by f_equal. Qed.
Lemma assistantContent_ids i items calls k blocks : assistantContent i items calls k = Ok blocks → use_ids blocks = ptc_callId <$> default [] calls.
Proof.
  unfold assistantContent. intros ([] & _ & H)%bind_Ok. apply bind_Ok in H as (parts & Hp & H). apply bind_Ok in H as ([] & _ & [= <-]).
  rewrite ids_app, call_block_ids. apply map_indexed_Ok in Hp as [Hl Hp]. assert (use_ids (mjoin parts) = []) as ->; [|done].
  assert (Hf : Forall (λ part, use_ids part = []) parts).
  { apply Forall_lookup. intros j part Hj. destruct (lookup_lt_is_Some_2 items j) as [item Hi]; [rewrite Hl; by eapply lookup_lt_Some|].
    by apply (assistant_block_ids i item), (Hp j). }
  clear -Hf. induction Hf as [|part parts Hx _ IH]; [done|]. change (mjoin (part :: parts)) with (part ++ mjoin parts). by rewrite ids_app, Hx, IH.
Qed.

Lemma result_block_id i callId items e block : result_block request marker i callId items e = Ok block → block_id "tool_result" "tool_use_id" block = Some callId.
Proof. unfold result_block. by intros (c & _ & [= <-])%bind_Ok. Qed.

(** A run of results is collected. *)
Lemma encode_results results keys rest : ∀ i acc wire, result_key <$> results = Some <$> keys →
  encode_from request marker i acc (results ++ rest) = Ok wire →
  ∃ blocks, block_id "tool_result" "tool_use_id" <$> blocks = (λ k, Some k.1.1.1) <$> keys ∧
    encode_from request marker (i + length results) (acc ++ blocks) rest = Ok wire.
Proof.
  induction results as [|r results IH] in keys |- *; intros i acc wire Hk H.
  - symmetry in Hk. apply fmap_nil_inv in Hk as ->. exists []. cbn. by rewrite app_nil_r, Nat.add_0_r.
  - destruct keys as [|k keys]; [done|]. cbn in Hk. destruct r as [|? |callId canonical name canonicalName items e]; [done..|].
    injection Hk as <- Hk. cbn in H. apply bind_Ok in H as (block & Hb & H). apply IH with (keys := keys) in H as (blocks & Hids & H); [|done].
    exists (block :: blocks). cbn. rewrite Hids, (result_block_id _ _ _ _ _ Hb). split; [done|].
    by rewrite Nat.add_succ_r, <- Nat.add_succ_l, cons_middle, app_assoc.
Qed.

(** What is not a result closes the run. *)
Lemma encode_closes i acc rest wire : answered_calls rest → encode_from request marker i acc rest = Ok wire →
  ∃ wire', encode_from request marker i [] rest = Ok wire' ∧ wire = close_results acc ++ wire'.
Proof.
  intros Ha H. inversion Ha as [|items rest' Hr|m results keys rest' (items & calls & o & k & ->) Hk Hp Hr]; subst.
  - injection H as <-. exists []. by rewrite app_nil_r.
  - cbn in H |- *. apply bind_Ok in H as (blocks & Hb & H). apply bind_Ok in H as (encoded & He & [= <-]). rewrite Hb. cbn. rewrite He. by eexists.
  - cbn in H |- *. apply bind_Ok in H as (blocks & Hb & H). apply bind_Ok in H as (encoded & He & [= <-]). rewrite Hb. cbn. rewrite He. by eexists.
Qed.

Lemma encode_answered messages : answered_calls messages → ∀ i wire, encode_from request marker i [] messages = Ok wire →
  wire_answered wire ∧ calls_sent wire = ptc_callId <$> (messages ≫= calls_of).
Proof.
  induction 1 as [|items rest Hr IH|m results keys rest (items & calls & o & k & ->) Hk Hp Hr IH]; intros i wire H.
  - injection H as <-. split; [constructor|done].
  - cbn in H. apply bind_Ok in H as (blocks & Hb & H). apply bind_Ok in H as (encoded & He & [= <-]). apply basicContent_ids in Hb as [Hu Hres].
    destruct (IH _ _ He) as [Hw Hc]. split; [by constructor|]. by rewrite calls_sent_message, Hu, Hc.
  - cbn in H. apply bind_Ok in H as (blocks & Hb & H). apply bind_Ok in H as (encoded & He & [= <-]). apply assistantContent_ids in Hb.
    assert (Hcalls : default [] calls = calls_of (PAssistant items calls o k)) by (by destruct calls). rewrite Hcalls in Hb.
    apply (encode_results results keys rest) in He as (res & Hids & He); [|done]. apply encode_closes in He as (wire' & He & ->); [|done].
    destruct (IH _ _ He) as [Hw Hc]. assert (Hresults : result_ids res = (λ k, k.1.1.1) <$> keys) by (apply omap_all; by rewrite Hids, <- list_fmap_compose).
    assert (Hperm : result_ids res ≡ₚ use_ids blocks) by (rewrite Hresults, Hp, Hb, <- list_fmap_compose; done).
    split.
    + destruct res as [|r res].
      * cbn. constructor; [|done]. apply Permutation_nil_l in Hperm. by symmetry.
      * cbn. apply wire_turn; [|by rewrite Hresults, Hids, <- list_fmap_compose|done|done]. intros Hnil. rewrite Hnil in Hperm. apply Permutation_nil_r in Hperm.
        by rewrite Hresults in Hperm; destruct keys.
    + rewrite calls_sent_message, Hb. cbn [mbind list_bind]. rewrite bind_app, !fmap_app. f_equal. unfold calls_sent at 1. rewrite bind_app.
      assert (Hres : Forall (λ b, is_Some (block_id "tool_result" "tool_use_id" b)) res).
      { apply Forall_lookup. intros j b Hj. apply (f_equal (lookup j)) in Hids. rewrite !list_lookup_fmap, Hj in Hids. destruct (keys !! j); naive_solver. }
      change (calls_sent (close_results res) ++ calls_sent wire' = (ptc_callId <$> (results ≫= calls_of)) ++ (ptc_callId <$> (rest ≫= calls_of))).
      rewrite close_results_calls, Hc by done. assert (results ≫= calls_of = []) as ->; [|done].
      clear -Hk. induction results as [|r results IH] in keys, Hk |- *; [done|]. destruct keys as [|k keys]; [done|]. cbn in Hk.
      destruct r; [done..|]. injection Hk as _ Hk. cbn. by eapply IH.
Qed.
End Encoding.

(** What the body of a request holds. *)
Lemma has_own_app k a b : has_own k (a ++ b) = has_own k a || has_own k b.
Proof. unfold has_own, keys. rewrite fmap_app, <- bool_decide_or. apply bool_decide_ext. set_solver. Qed.
Lemma get_kept k a b : has_own k a = true → get k (a ++ b) = get k a ∧ has_own k (a ++ b) = true.
Proof. intros H. split; [by apply get_app_l|]. by rewrite has_own_app, H. Qed.

Lemma applySampling_keeps request body body' k : applySampling request body = Ok body' → has_own k body = true →
  get k body' = get k body ∧ has_own k body' = true.
Proof.
  unfold applySampling. destruct (pmr_sampling request) as [s|]; [|by intros [= <-]]. cbv zeta. intros H Hk.
  eapply (fold_res_inv (λ _ b, get k b = get k body ∧ has_own k b = true)) in H; [done|..].
  - by apply get_kept.
  - intros done_ b kv b1 [Hg Ho] H1. apply bind_Ok in H1 as ([] & _ & [= <-]). rewrite <- Hg. by apply get_kept.
Qed.

Lemma encoded_body model p limit r : encodeAnthropicMessagesRequest model p limit = Ok r →
  mi_apiDialect model = "anthropic-messages" ∧
  (∃ marker wire, encodeMessages p marker (pmr_messages p) = Ok wire ∧ get "messages" (ear_body r) = JArr wire) ∧
  get "max_tokens" (ear_body r) = (match limit with Some n => JInt n | None => JNum (mi_maxOutputTokens model) end) ∧
  ∃ added enabled, applyThinking model p = Ok (added, enabled) ∧ (has_own "thinking" added = true → get "thinking" (ear_body r) = get "thinking" added).
Proof.
  unfold encodeAnthropicMessagesRequest. intros (compat & Hc & H)%bind_Ok.
  apply bind_Ok in H as (_ & _ & H). apply bind_Ok in H as (_ & _ & H). apply bind_Ok in H as (_ & _ & H).
  apply bind_Ok in H as (marker & _ & H). apply bind_Ok in H as (wire & Hw & H). apply bind_Ok in H as (tools & _ & H).
  apply bind_Ok in H as (choice & Hchoice & H). apply bind_Ok in H as ([added enabled] & Ht & H). apply bind_Ok in H as (body & Hb & [= <-]).
  split. { unfold compatibility in Hc. apply bind_Ok in Hc as ([] & Hc & _). by apply require_Ok, bool_decide_eq_true_1 in Hc. }
  assert (Hchoice' : has_own "thinking" choice = false).
  { destruct (mrq_toolChoice _); [|by injection Hchoice as <-]. by apply bind_Ok in Hchoice as (_ & _ & [= <-]). }
  cbn [ear_body]. set (base := [_; _; _; _]) in Hb. match type of Hb with applySampling _ (_ ++ ?x ++ _) = _ => set (system := x) in Hb end.
  assert (Hsystem : has_own "thinking" system = false) by (subst system; destruct (mrq_system _); [case_bool_decide|]; done).
  assert (Htools : has_own "thinking" (opt_field "tools" (JArr <$> tools)) = false) by (by destruct tools).
  assert (Hget : ∀ k before after, base ++ system ++ opt_field "tools" (JArr <$> tools) ++ choice ++ added = before ++ after →
      has_own k before = false → has_own k after = true → get k (body ++ match get "user_id" (default [] (mrq_metadata (pmr_request p))) with
        JStr id => [("metadata", JObj [("user_id", JStr id)])] | _ => [] end) = get k after).
  { intros k before after Heq Hbefore Hafter. rewrite Heq in Hb. apply applySampling_keeps with (k := k) in Hb as [Hg Ho]; [|by rewrite has_own_app, Hafter, orb_true_r].
    rewrite (proj1 (get_kept k _ _ Ho)), Hg. by apply get_app_r. }
  split; [|split].
  - exists marker, wire. split; [done|]. by apply (Hget "messages" [] _ eq_refl).
  - by apply (Hget "max_tokens" [] _ eq_refl).
  - exists added, enabled. split; [done|]. intros Hown.
    apply (Hget "thinking" (base ++ system ++ opt_field "tools" (JArr <$> tools) ++ choice)); [by rewrite !app_assoc| |done].
    rewrite !has_own_app, Hsystem, Htools, Hchoice'. done.
Qed.

(** C13: the conversation the provider is sent answers every call: in the body of a request for a
    prepared conversation each message with calls is followed by a message that holds the result of
    each of them once and nothing else, no other message holds results, and the calls have
    distinct identifiers of the form the interface takes. *)
Theorem anthropic_calls_are_answered digest readBlob model request dialect p limit r :
  (∀ s, length (digest s) = 32 ∧ Forall byte (digest s)) →
  prepareModelRequest digest readBlob model request dialect = Ok p → encodeAnthropicMessagesRequest model p limit = Ok r →
  ∃ wire, get "messages" (ear_body r) = JArr wire ∧ wire_answered wire ∧ NoDup (calls_sent wire) ∧
    Forall (λ id, toolCallIdRule "anthropic-messages" id = true) (calls_sent wire).
Proof.
  intros Hdigest Hp Hr. apply encoded_body in Hr as (Hdialect & (marker & wire & Hw & Hget) & _). exists wire. split; [done|].
  assert (Hh : ∃ tools dialect' sans, prepareHistory digest model tools dialect' (mrq_messages request) = Ok (pmr_messages p, sans)).
  { unfold prepareModelRequest in Hp. repeat (apply bind_Ok in Hp as (? & ? & Hp); try match type of Hp with (let '(_, _) := ?x in _) = _ => destruct x end).
    injection Hp as <-. by do 3 eexists. }
  destruct Hh as (tools & dialect' & sans & Hh). apply (prepared_history digest Hdigest) in Hh as (Ha & Hd & Hrule & _).
  apply (encode_answered p marker _ Ha) in Hw as [Hans Hsent]. rewrite Hsent. split; [done|]. split; [done|].
  rewrite Hdialect in Hrule. by apply Forall_fmap.
Qed.

(** what is thought and what is answered fit into the limit that is sent: a budget is none at all
    or leaves the answer its room. *)
Theorem anthropic_budget_fits digest readBlob model request dialect p r budget reasoning :
  prepareModelRequest digest readBlob model request dialect = Ok p → encodeAnthropicMessagesRequest model p (pmr_maxOutputTokens p) = Ok r →
  pmr_reasoning p = Some reasoning → prs_tokenBudget reasoning = Some budget → tc_effective (prs_clamp reasoning) ≠ TOff →
  (∃ c, mi_compatibility model = Some c ∧ cm_forceAdaptiveThinking c = false) →
  ∃ limit, get "max_tokens" (ear_body r) = JInt limit ∧ (budget = 0 ∨ budget + MIN_ANSWER_TOKENS <= limit)%Z ∧
    get "thinking" (ear_body r) = JObj [("type", JStr "enabled"); ("budget_tokens", JInt budget); ("display", JStr "summarized")].
Proof.
  intros Hp Hr Hre Hb Hoff (c & Hc & Hforce). destruct (prepared_budget_fits _ _ _ _ _ _ _ _ Hp Hre Hb) as (limit & Hl & _ & Hroom).
  rewrite Hl in Hr. apply encoded_body in Hr as (_ & _ & Hmax & added & enabled & Ht & Hget). exists limit. split; [done|]. split; [done|].
  unfold applyThinking in Ht. rewrite Hre, bool_decide_false in Ht by done. unfold compatibility in Ht. rewrite Hc in Ht.
  apply bind_Ok in Ht as (c' & Hc' & Ht). apply bind_Ok in Hc' as ([] & _ & Hc'). apply bind_Ok in Hc' as ([] & _ & [= <-]).
  rewrite Hforce, Hb in Ht. injection Ht as <- <-. by apply Hget.
Qed.

(** A request of two calls answered out of order, with a signed thought, to a model with a budget. *)
Definition sample_request (thinking : option ThinkingLevel) (limit : Z) : ModelRequest :=
  {| mrq_modelId := "m"; mrq_system := Some "Be brief."; mrq_messages := sample_history ++ [RUser [CText "more"]]; mrq_tools := None; mrq_thinkingLevel := thinking;
     mrq_thinkingBudgets := None; mrq_maxOutputTokens := Some (NInt limit); mrq_httpIdleTimeoutMs := None; mrq_estimatedInputTokens := None;
     mrq_toolChoice := None; mrq_sampling := None; mrq_cache := None; mrq_safetySettings := None; mrq_metadata := None; mrq_timeoutMs := None;
     mrq_maxRetries := None; mrq_maxRetryDelayMs := None |}.
Definition sample_prepared_request (thinking : option ThinkingLevel) (limit : Z) : prepared PreparedModelRequest :=
  prepareModelRequest sample_digest None budget_model (sample_request thinking limit) None.
Definition sample_encoded (thinking : option ThinkingLevel) (limit : Z) : coded EncodedAnthropicMessagesRequest :=
  match sample_prepared_request thinking limit with Ok p => encodeAnthropicMessagesRequest budget_model p (pmr_maxOutputTokens p) | Err _ => Err "" end.
Definition sample_wire (r : EncodedAnthropicMessagesRequest) : list string :=
  match get "messages" (ear_body r) with JArr wire => calls_sent wire | _ => [] end.

Lemma anthropic_calls_are_answered_witness : ∃ p r, sample_prepared_request (Some TMedium) 16000 = Ok p ∧
  encodeAnthropicMessagesRequest budget_model p (pmr_maxOutputTokens p) = Ok r ∧ length (sample_wire r) = 2 ∧
  ∃ wire, get "messages" (ear_body r) = JArr wire ∧ wire_answered wire ∧ NoDup (calls_sent wire) ∧
    Forall (λ id, toolCallIdRule "anthropic-messages" id = true) (calls_sent wire).
Proof.
  destruct (sample_prepared_request (Some TMedium) 16000) as [p|] eqn:E; [|vm_compute in E; discriminate].
  destruct (encodeAnthropicMessagesRequest budget_model p (pmr_maxOutputTokens p)) as [r|] eqn:Er; [|vm_compute in E; injection E as <-; vm_compute in Er; discriminate].
  exists p, r. split; [done|]. split; [done|].
  split; [|exact (anthropic_calls_are_answered sample_digest None budget_model (sample_request (Some TMedium) 16000) None p (pmr_maxOutputTokens p) r sample_digest_bytes E Er)].
  vm_compute in E. injection E as <-. vm_compute in Er. injection Er as <-. reflexivity.
Defined.

(** A limit too small for the model's thinking: the answer keeps its 1024 tokens. *)
Lemma anthropic_budget_fits_witness : ∃ p r reasoning, sample_prepared_request (Some TMedium) 1000 = Ok p ∧
  encodeAnthropicMessagesRequest budget_model p (pmr_maxOutputTokens p) = Ok r ∧ pmr_reasoning p = Some reasoning ∧ prs_tokenBudget reasoning = Some 8168%Z ∧
  ∃ limit, get "max_tokens" (ear_body r) = JInt limit ∧ (8168 = 0 ∨ 8168 + MIN_ANSWER_TOKENS <= limit)%Z ∧
    get "thinking" (ear_body r) = JObj [("type", JStr "enabled"); ("budget_tokens", JInt 8168); ("display", JStr "summarized")].
Proof.
  destruct (sample_prepared_request (Some TMedium) 1000) as [p|] eqn:E; [|vm_compute in E; discriminate].
  destruct (encodeAnthropicMessagesRequest budget_model p (pmr_maxOutputTokens p)) as [r|] eqn:Er; [|vm_compute in E; injection E as <-; vm_compute in Er; discriminate].
  destruct (pmr_reasoning p) as [reasoning|] eqn:Hr; [|vm_compute in E; injection E as <-; discriminate].
  assert (prs_tokenBudget reasoning = Some 8168%Z ∧ tc_effective (prs_clamp reasoning) = TMedium) as [Hb He].
  { vm_compute in E. injection E as <-. vm_compute in Hr. by injection Hr as <-. }
  exists p, r, reasoning. split; [done|]. split; [done|]. split; [exact Hr|]. split; [done|].
  apply (anthropic_budget_fits sample_digest None budget_model (sample_request (Some TMedium) 1000) None p r 8168 reasoning E Er Hr Hb); [by rewrite He|].
  eexists. split; reflexivity.
Defined.
