(* ===== verification/AnthropicStream.v ===== *)
(** A stream of the Anthropic Messages interface: however a message is cut into frames, its events
    are those of its blocks in their order, and one end. *)
From stdpp Require Import base list sets strings pretty.
From Stdlib Require Import ZArith Lia Ascii.
From S2P Require Import Prelude Text JsValue Json JsonText JsMap Types ModelStream ProviderTypes Thinking Preparation PreparationFacts Sse ProviderPort Anthropic.

(** ** What a provider sends *)

(** The blocks of a message, each as the pieces it was cut into: the one in the frame that starts
    it, and those of its deltas. *)
Inductive thinking_piece := ThoughtPiece (text : string) | SignaturePiece (signature : string).
Inductive sent_block :=
| SentText (pieces : list string)
| SentThinking (pieces : list thinking_piece)
| SentRedacted (data : string)
| SentTool (callId name : string) (pieces : list string) (input : fields).

Definition thought_of (p : thinking_piece) : option string := match p with ThoughtPiece t => Some t | SignaturePiece _ => None end.
Definition signature_of (p : thinking_piece) : option string := match p with SignaturePiece s => Some s | ThoughtPiece _ => None end.
Definition concatenated (l : list string) : string := String.concat "" l.

(** A frame of this event: it is named as the interface names frames, or not at all. *)
Definition carries (type : string) (event : fields) (f : SseFrame) : Prop :=
  (∀ e, sse_event f = Some e → e ∈ known_frames) ∧ json_parse (sse_data f) = Some (JObj event) ∧ get "type" event = JStr type.
Definition at_index (type : string) (i : Z) (field : string) (value : fields) (f : SseFrame) : Prop :=
  ∃ event, carries type event f ∧ get "index" event = JInt i ∧ get field event = JObj value.
Definition starts (i : Z) (kind : string) (block : fields) (f : SseFrame) : Prop :=
  at_index "content_block_start" i "content_block" block f ∧ get "type" block = JStr kind.
Definition adds (i : Z) (kind field text : string) (f : SseFrame) : Prop :=
  ∃ delta, at_index "content_block_delta" i "delta" delta f ∧ get "type" delta = JStr kind ∧ get field delta = JStr text.
Definition stops (i : Z) (f : SseFrame) : Prop := ∃ event, carries "content_block_stop" event f ∧ get "index" event = JInt i.
Definition adds_thinking (i : Z) (p : thinking_piece) (f : SseFrame) : Prop :=
  match p with ThoughtPiece t => adds i "thinking_delta" "thinking" t f | SignaturePiece s => adds i "signature_delta" "signature" s f end.

(** The arguments a call is started with, which are usually none. *)
Definition initial_arguments (block : fields) (text : string) : Prop :=
  (get "input" block = JUndef ∧ text = "") ∨ ∃ fs, get "input" block = JObj fs ∧ text = match fs with [] => "" | _ => json_text (JObj fs) end.

Inductive sends (i : Z) : sent_block → list SseFrame → Prop :=
| sends_text block f fs g pieces : starts i "text" block f → Forall2 (adds i "text_delta" "text") pieces fs → stops i g →
    sends i (SentText (text_of (get "text" block) :: pieces)) (f :: fs ++ [g])
| sends_thinking block f fs g pieces : starts i "thinking" block f → Forall2 (adds_thinking i) pieces fs → stops i g →
    sends i (SentThinking (ThoughtPiece (text_of (get "thinking" block)) :: SignaturePiece (text_of (get "signature" block)) :: pieces)) (f :: fs ++ [g])
| sends_redacted block f g data : starts i "redacted_thinking" block f → get "data" block = JStr data → data ≠ "" → stops i g →
    sends i (SentRedacted data) [f; g]
| sends_tool block f fs g callId name first pieces input : starts i "tool_use" block f → get "id" block = JStr callId → callId ≠ "" →
    get "name" block = JStr name → name ≠ "" → initial_arguments block first → Forall2 (adds i "input_json_delta" "partial_json") pieces fs → stops i g →
    parse_arguments (first +:+ concatenated pieces) = Some input →
    sends i (SentTool callId name pieces input) (f :: fs ++ [g]).

(** How a message ends. *)
Definition completes (reason : string) : option (AssistantStopReason * option bool) :=
  if bool_decide (reason ∈ ["end_turn"; "stop_sequence"; "pause_turn"]) then Some (SStop, None)
  else if bool_decide (reason = "max_tokens") then Some (SLength, Some true)
  else if bool_decide (reason = "tool_use") then Some (SToolUse, None) else None.

(** A message: its blocks one after the other between its start and its end. *)
Inductive sends_message (blocks : list sent_block) (id routed : option string) (reason : string) (u : Usage) : list SseFrame → Prop :=
| sends_whole start message u1 f frames stop delta u2 g last_ h :
    carries "message_start" start f → get "message" start = JObj message → nonempty_str (get "id" message) = id → nonempty_str (get "model" message) = routed →
    mergeUsage no_usage (get "usage" message) = Ok u1 →
    Forall2 (λ b fs, ∃ i, (0 <= i <= MAX_SAFE_INTEGER)%Z ∧ sends i b fs) blocks frames →
    carries "message_delta" stop g → get "delta" stop = JObj delta → get "stop_reason" delta = JStr reason → (get "stop_details" delta = JUndef ∨ get "stop_details" delta = JNull) →
    mergeUsage u1 (get "usage" stop) = Ok u2 → usage u2 = Ok u → carries "message_stop" last_ h →
    sends_message blocks id routed reason u (f :: mjoin frames ++ [g; h]).

(** ** The events of a block *)

Section Events.
Context (model : ModelInfo) (modelId : string) (tools : list PreparedToolDeclaration).

Definition pieces_events (event : string → ModelStreamEvent) (pieces : list string) : list ModelStreamEvent :=
  event <$> filter (λ p, p ≠ "") pieces.
Definition replay_of (ci : nat) (redacted : bool) (signature : string) : list ModelStreamEvent :=
  if bool_decide (signature = "") then [] else [replay_of_block model modelId ci redacted signature].
Definition block_events (ci : nat) (b : sent_block) : list ModelStreamEvent :=
  match b with
  | SentText pieces => pieces_events (λ p, TextDelta p (Some (Z.of_nat ci))) pieces
  | SentThinking pieces =>
      pieces_events (λ p, ThinkingDelta p (Some (Z.of_nat ci))) (omap thought_of pieces) ++ replay_of ci false (concatenated (omap signature_of pieces))
  | SentRedacted data => ThinkingDelta "[Reasoning redacted]" (Some (Z.of_nat ci)) :: replay_of ci true data
  | SentTool callId name pieces input =>
      ToolCallStart (Z.of_nat ci) callId (reverseToolName tools name) :: pieces_events (ToolCallDelta (Z.of_nat ci) callId) pieces
      ++ [ToolCallEvent {| tcr_callId := callId; tcr_name := reverseToolName tools name; tcr_input := input |} (Some (Z.of_nat ci))]
  end.
Fixpoint blocks_events (ci : nat) (blocks : list sent_block) : list ModelStreamEvent :=
  match blocks with [] => [] | b :: rest => block_events ci b ++ blocks_events (S ci) rest end.
End Events.

(** ** Decoding *)

Lemma carried_frame type event f : carries type event f →
  (match sse_event f with Some e => negb (bool_decide (e ∈ known_frames)) | None => false end) = false ∧ parseFrame f = Ok (Some event).
Proof.
  intros (Hk & Hj & _). split.
  - destruct (sse_event f) as [e|]; [|done]. by rewrite bool_decide_true by auto.
  - unfold parseFrame. rewrite bool_decide_false; [by rewrite Hj|]. intros He. apply Hk in He. revert He. by apply (bool_decide_eq_false_1 ("ping" ∈ known_frames)).
Qed.
Lemma some_decided (a b : string) : bool_decide (Some a = Some b) = bool_decide (a = b).
Proof. apply bool_decide_ext. split; congruence. Qed.
Lemma index_ok event i what : get "index" event = JInt i → (0 <= i <= MAX_SAFE_INTEGER)%Z → index_of event what = Ok i.
Proof.
  intros Hi Hr. unfold index_of. rewrite Hi. unfold JInt. assert (is_safe_integer (NInt i) && negb (is_negative (NInt i)) = true) as ->; [|done].
  unfold is_safe_integer, is_negative. destruct (Z.leb_spec (Z.abs i) MAX_SAFE_INTEGER), (Z.ltb_spec i 0); done || lia.
Qed.

Section Decoding.
Context (model : ModelInfo) (modelId : string) (tools : list PreparedToolDeclaration) (secretValues : list string) (latencyMs : option number).
Abbreviation on_frame := (on_frame model modelId tools secretValues latencyMs).
Abbreviation decode := (decode_frames model modelId tools secretValues latencyMs).
Abbreviation unaborted := (fmap (λ f, (false, f))).

Lemma on_event type event f d : carries type event f → on_frame f d =
  (if bool_decide (type = "error") then on_error model modelId secretValues latencyMs event d
   else if bool_decide (type = "message_start") then on_message_start event d
   else if bool_decide (type = "content_block_start") then on_block_start tools event d
   else if bool_decide (type = "content_block_delta") then on_block_delta event d
   else if bool_decide (type = "content_block_stop") then on_block_stop model modelId tools event d
   else if bool_decide (type = "message_delta") then on_message_delta event d
   else if bool_decide (type = "message_stop") then on_message_stop model modelId secretValues latencyMs d
   else quiet d).
Proof.
  intros H. destruct (carried_frame _ _ _ H) as [Hk Hp]. destruct H as (_ & _ & Ht). unfold Anthropic.on_frame. rewrite Hk, Hp. cbn [rbind].
  rewrite Ht. by rewrite !some_decided.
Qed.

(** A frame of a kind the interface does not define is passed over. *)
Definition relevant (f : SseFrame) : Prop := match sse_event f with Some e => e ∈ known_frames | None => True end.
#[export] Instance relevant_dec f : Decision (relevant f).
Proof. unfold relevant. destruct (sse_event f); apply _. Defined.
Lemma decode_relevant frames ae : ∀ d, decode d (unaborted frames) ae = decode d (unaborted (filter relevant frames)) ae.
Proof.
  induction frames as [|f frames IH]; intros d; [done|]. rewrite filter_cons. case_decide as Hf.
  - cbn. destruct (on_frame f d) as [[events [d'|]]|]; [by rewrite IH|done|done].
  - cbn. unfold Anthropic.on_frame. unfold relevant in Hf. destruct (sse_event f) as [e|]; [|done]. rewrite bool_decide_false by done. cbn. apply IH.
Qed.

(** All of a decoder but its blocks, and whether anything came yet. *)
Definition agrees (d d' : decoder) : Prop :=
  dc_usage d' = dc_usage d ∧ dc_responseId d' = dc_responseId d ∧ dc_routedModelId d' = dc_routedModelId d ∧
  dc_stopReason d' = dc_stopReason d ∧ dc_stopDetails d' = dc_stopDetails d ∧ dc_next d' = dc_next d.
#[local] Instance agrees_preorder : PreOrder agrees.
Proof. split; [by intros d; split_and!|]. unfold agrees. intros d1 d2 d3 ?? . destruct_and!. split_and!; congruence. Qed.

Lemma decode_step f d events d' rest ae : on_frame f d = Ok (events, Some d') →
  decode d (unaborted (f :: rest)) ae = (RawEvent <$> events) ++ decode d' (unaborted rest) ae.
Proof. intros H. cbn. by rewrite H. Qed.

(** One frame, or a run of them: the events, and what becomes of the decoder. *)
Definition runs (d : decoder) (frames : list SseFrame) (events : list ModelStreamEvent) (d' : decoder) : Prop :=
  ∀ rest ae, decode d (unaborted (frames ++ rest)) ae = (RawEvent <$> events) ++ decode d' (unaborted rest) ae.
Lemma runs_nil d : runs d [] [] d.
Proof. done. Qed.
Lemma runs_app d1 fs1 es1 d2 fs2 es2 d3 : runs d1 fs1 es1 d2 → runs d2 fs2 es2 d3 → runs d1 (fs1 ++ fs2) (es1 ++ es2) d3.
Proof. intros H1 H2 rest ae. by rewrite <- app_assoc, H1, H2, fmap_app, <- app_assoc. Qed.
Lemma runs_one d f events d' : on_frame f d = Ok (events, Some d') → runs d [f] events d'.
Proof. intros H rest ae. by apply decode_step. Qed.

Lemma block_started i kind block f d : starts i kind block f → (0 <= i <= MAX_SAFE_INTEGER)%Z → dc_blocks d = [] →
  on_frame f d =
    (let ci := dc_next d in
     if bool_decide (kind = "text") then
       yields_nonempty (text_of (get "text" block)) (TextDelta (text_of (get "text" block)) (Some (Z.of_nat ci))) (open_block i (TextBlock ci) d)
     else if bool_decide (kind = "thinking") then
       yields_nonempty (text_of (get "thinking" block)) (ThinkingDelta (text_of (get "thinking" block)) (Some (Z.of_nat ci)))
         (open_block i (ThinkingBlock ci false (text_of (get "signature" block))) d)
     else if bool_decide (kind = "redacted_thinking") then
       match nonempty_str (get "data" block) with
       | None => Err "Anthropic redacted thinking has no signature"
       | Some data => yields (ThinkingDelta "[Reasoning redacted]" (Some (Z.of_nat ci))) (open_block i (ThinkingBlock ci true data) d)
       end
     else if bool_decide (kind = "tool_use") then start_tool tools i block d
     else quiet (skip_block d)).
Proof.
  intros [(event & Hc & Hi & Hb) Hk] Hr Hd. rewrite (on_event _ _ _ _ Hc). cbn [bool_decide decide]. unfold on_block_start.
  rewrite (index_ok _ _ _ Hi Hr). cbn [rbind]. rewrite Hd. cbn [map_has refuse rbind]. rewrite Hb. cbn [object_of schema_fields]. by rewrite Hk.
Qed.

(** A delta of the block that is open. *)
Lemma delta_frame i kind field text f d b : adds i kind field text f → (0 <= i <= MAX_SAFE_INTEGER)%Z → dc_blocks d = [(i, b)] →
  ∃ delta, get field delta = JStr text ∧ on_frame f d = apply_delta i b kind delta d.
Proof.
  intros (delta & (event & Hc & Hi & Hdelta) & Hk & Ht) Hr Hd. exists delta. split; [done|]. rewrite (on_event _ _ _ _ Hc).
  match goal with |- _ = ?r => change (on_block_delta event d = r) end. unfold on_block_delta, block_at. rewrite (index_ok _ _ _ Hi Hr). cbn [rbind].
  rewrite Hd. cbn [map_get]. rewrite (bool_decide_true (i = i)) by done. cbn [rbind]. rewrite Hdelta. cbn [object_of schema_fields]. by rewrite Hk.
Qed.
Lemma set_open (i : Z) (b b' : Block) : map_set i b' [(i, b)] = [(i, b')].
Proof. cbn. by rewrite bool_decide_true. Qed.

Ltac delta_of_open_block :=
  let H := fresh in intros H Hr Hd; destruct (delta_frame _ _ _ _ _ _ _ H Hr Hd) as (? & Hf & ->); unfold apply_delta; cbn; rewrite Hf, ?Hd, ?set_open.
Lemma text_delta i ci t f d : adds i "text_delta" "text" t f → (0 <= i <= MAX_SAFE_INTEGER)%Z → dc_blocks d = [(i, TextBlock ci)] →
  on_frame f d = yields_nonempty t (TextDelta t (Some (Z.of_nat ci))) d.
Proof. by delta_of_open_block. Qed.
Lemma thought_delta i ci r sg t f d : adds i "thinking_delta" "thinking" t f → (0 <= i <= MAX_SAFE_INTEGER)%Z → dc_blocks d = [(i, ThinkingBlock ci r sg)] →
  on_frame f d = yields_nonempty t (ThinkingDelta t (Some (Z.of_nat ci))) d.
Proof. by delta_of_open_block. Qed.
Lemma signature_delta i ci r sg t f d : adds i "signature_delta" "signature" t f → (0 <= i <= MAX_SAFE_INTEGER)%Z → dc_blocks d = [(i, ThinkingBlock ci r sg)] →
  on_frame f d = quiet (with_blocks [(i, ThinkingBlock ci r (sg +:+ t))] d).
Proof. by delta_of_open_block. Qed.
Lemma input_delta i ci callId name args t f d : adds i "input_json_delta" "partial_json" t f → (0 <= i <= MAX_SAFE_INTEGER)%Z →
  dc_blocks d = [(i, ToolBlock ci callId name args)] →
  on_frame f d = Ok (if bool_decide (t = "") then [] else [ToolCallDelta (Z.of_nat ci) callId t], Some (with_blocks [(i, ToolBlock ci callId name (args +:+ t))] d)).
Proof. by delta_of_open_block. Qed.

Lemma stop_frame i f d b : stops i f → (0 <= i <= MAX_SAFE_INTEGER)%Z → dc_blocks d = [(i, b)] →
  on_frame f d = (let d := with_blocks [] d in
    match b with
    | ThinkingBlock ci redacted signature => Ok (if bool_decide (signature = "") then [] else [replay_of_block model modelId ci redacted signature], Some d)
    | ToolBlock ci callId name argumentsText =>
        match parse_arguments argumentsText with
        | None => Err ("Tool call " +:+ callId +:+ " has undecodable arguments")
        | Some input => Ok ([ToolCallEvent {| tcr_callId := callId; tcr_name := reverseToolName tools name; tcr_input := input |} (Some (Z.of_nat ci))], Some d)
        end
    | TextBlock _ => quiet d
    end).
Proof.
  intros (event & Hc & Hi) Hr Hd. rewrite (on_event _ _ _ _ Hc).
  match goal with |- _ = ?r => change (on_block_stop model modelId tools event d = r) end. unfold on_block_stop, block_at. rewrite (index_ok _ _ _ Hi Hr). cbn [rbind].
  rewrite Hd. cbn [map_get]. rewrite (bool_decide_true (i = i)) by done. cbn [rbind].
  assert (map_delete i [(i, b)] = []) as ->; [|done]. unfold map_delete. rewrite filter_cons_False; [done|]. cbn. tauto.
Qed.

Lemma pieces_cons event p l : pieces_events event (p :: l) = (if bool_decide (p = "") then [] else [event p]) ++ pieces_events event l.
Proof.
  unfold pieces_events. rewrite filter_cons. case_bool_decide as Hp; [by rewrite decide_False by auto|]. by rewrite decide_True by done.
Qed.
Lemma yields_runs f t e d d1 : on_frame f d = yields_nonempty t e d1 →
  ∃ d', agrees d1 d' ∧ dc_blocks d' = dc_blocks d1 ∧ runs d [f] (if bool_decide (t = "") then [] else [e]) d'.
Proof.
  unfold yields_nonempty. case_bool_decide as Ht; intros H; [exists d1|exists (emitted d1)]; (split; [done|]); (split; [done|]); by apply runs_one.
Qed.
Lemma opened i b d : dc_blocks d = [] → agrees (skip_block d) (open_block i b d) ∧ dc_blocks (open_block i b d) = [(i, b)].
Proof. intros Hd. unfold open_block. by rewrite Hd. Qed.
Lemma concatenated_cons (p : string) l : concatenated (p :: l) = p +:+ concatenated l.
Proof. unfold concatenated. destruct l; cbn; [by rewrite string_app_nil_r|done]. Qed.

Lemma text_run i ci pieces fs d : Forall2 (adds i "text_delta" "text") pieces fs → (0 <= i <= MAX_SAFE_INTEGER)%Z → dc_blocks d = [(i, TextBlock ci)] →
  ∃ d', agrees d d' ∧ dc_blocks d' = [(i, TextBlock ci)] ∧ runs d fs (pieces_events (λ p, TextDelta p (Some (Z.of_nat ci))) pieces) d'.
Proof.
  intros H Hr. revert d. induction H as [|p f pieces fs Ha _ IH]; intros d Hd; [exists d; by split_and!|].
  destruct (yields_runs _ _ _ _ _ (text_delta _ _ _ _ _ Ha Hr Hd)) as (d1 & Ha1 & Hb1 & H1). destruct (IH d1) as (d2 & Ha2 & Hb2 & H2); [congruence|].
  exists d2. split; [by etrans|]. split; [done|]. rewrite pieces_cons. by apply (runs_app _ [f] _ _ fs _ _ H1).
Qed.
Lemma thinking_run i ci r pieces fs : Forall2 (adds_thinking i) pieces fs → (0 <= i <= MAX_SAFE_INTEGER)%Z → ∀ d sg, dc_blocks d = [(i, ThinkingBlock ci r sg)] →
  ∃ d', agrees d d' ∧ dc_blocks d' = [(i, ThinkingBlock ci r (sg +:+ concatenated (omap signature_of pieces)))] ∧
    runs d fs (pieces_events (λ p, ThinkingDelta p (Some (Z.of_nat ci))) (omap thought_of pieces)) d'.
Proof.
  intros H Hr. induction H as [|p f pieces fs Ha _ IH]; intros d sg Hd; [exists d; cbn; rewrite string_app_nil_r; by split_and!|].
  destruct p as [t|t]; cbn [adds_thinking] in Ha.
  - destruct (yields_runs _ _ _ _ _ (thought_delta _ _ _ _ _ _ _ Ha Hr Hd)) as (d1 & Ha1 & Hb1 & H1). destruct (IH d1 sg) as (d2 & Ha2 & Hb2 & H2); [congruence|].
    exists d2. split; [by etrans|]. split; [done|]. cbn [omap list_omap thought_of]. rewrite pieces_cons. by apply (runs_app _ [f] _ _ fs _ _ H1).
  - pose proof (signature_delta _ _ _ _ _ _ _ Ha Hr Hd) as H1. apply runs_one in H1. destruct (IH (with_blocks [(i, ThinkingBlock ci r (sg +:+ t))] d) (sg +:+ t)) as (d2 & Ha2 & Hb2 & H2); [done|].
    exists d2. split; [by etrans; [|exact Ha2]|]. split; [|by apply (runs_app _ [f] [] _ fs _ _ H1)].
    rewrite Hb2. cbn [omap list_omap signature_of]. by rewrite concatenated_cons, string_app_assoc.
Qed.
Lemma input_run i ci callId name pieces fs : Forall2 (adds i "input_json_delta" "partial_json") pieces fs → (0 <= i <= MAX_SAFE_INTEGER)%Z →
  ∀ d args, dc_blocks d = [(i, ToolBlock ci callId name args)] →
  ∃ d', agrees d d' ∧ dc_blocks d' = [(i, ToolBlock ci callId name (args +:+ concatenated pieces))] ∧ runs d fs (pieces_events (ToolCallDelta (Z.of_nat ci) callId) pieces) d'.
Proof.
  intros H Hr. induction H as [|p f pieces fs Ha _ IH]; intros d args Hd; [exists d; cbn; rewrite string_app_nil_r; by split_and!|].
  pose proof (input_delta _ _ _ _ _ _ _ _ Ha Hr Hd) as H1. apply runs_one in H1.
  destruct (IH (with_blocks [(i, ToolBlock ci callId name (args +:+ p))] d) (args +:+ p)) as (d2 & Ha2 & Hb2 & H2); [done|].
  exists d2. split; [by etrans; [|exact Ha2]|]. split; [rewrite Hb2; by rewrite concatenated_cons, string_app_assoc|].
  rewrite pieces_cons. by apply (runs_app _ [f] _ _ fs _ _ H1).
Qed.

(** The frames of a block give its events, and leave no block open. *)
Lemma block_runs i b fs d : sends i b fs → (0 <= i <= MAX_SAFE_INTEGER)%Z → dc_blocks d = [] →
  ∃ d', agrees (skip_block d) d' ∧ dc_blocks d' = [] ∧ runs d fs (block_events model modelId tools (dc_next d) b) d'.
Proof.
  intros H Hr Hd. destruct H as [block f fs g pieces Hs Hf Hg|block f fs g pieces Hs Hf Hg|block f g data Hs Hdata Hne Hg|block f fs g callId name first pieces input Hs Hid Hid0 Hn Hn0 Ha Hf Hg Hp];
    pose proof (block_started _ _ _ _ _ Hs Hr Hd) as Hstart.
  - apply (yields_runs _ _ _ _ (open_block i (TextBlock (dc_next d)) d)) in Hstart as (d1 & Ha1 & Hb1 & H1). destruct (opened i (TextBlock (dc_next d)) d Hd) as [Ho Hob].
    destruct (text_run i (dc_next d) _ _ d1 Hf Hr) as (d2 & Ha2 & Hb2 & H2); [by rewrite Hb1|]. pose proof (stop_frame _ _ _ _ Hg Hr Hb2) as H3. apply runs_one in H3.
    exists (with_blocks [] d2). split; [by etrans; [exact Ho|etrans; [exact Ha1|exact Ha2]]|]. split; [done|].
    cbn [block_events]. rewrite pieces_cons. rewrite <- (app_nil_r (_ ++ pieces_events _ _)). rewrite <- app_assoc.
    apply (runs_app _ [f] _ d1); [exact H1|]. by apply (runs_app _ fs _ d2).
  - apply (yields_runs _ _ _ _ (open_block i (ThinkingBlock (dc_next d) false (text_of (get "signature" block))) d)) in Hstart as (d1 & Ha1 & Hb1 & H1).
    destruct (opened i (ThinkingBlock (dc_next d) false (text_of (get "signature" block))) d Hd) as [Ho Hob].
    destruct (thinking_run i (dc_next d) false _ _ Hf Hr d1 (text_of (get "signature" block))) as (d2 & Ha2 & Hb2 & H2); [by rewrite Hb1|].
    pose proof (stop_frame _ _ _ _ Hg Hr Hb2) as H3. apply runs_one in H3.
    exists (with_blocks [] d2). split; [by etrans; [exact Ho|etrans; [exact Ha1|exact Ha2]]|]. split; [done|].
    cbn [block_events omap list_omap thought_of signature_of]. rewrite pieces_cons, concatenated_cons, <- app_assoc.
    apply (runs_app _ [f] _ d1); [exact H1|]. by apply (runs_app _ fs _ d2).
  - assert (Hy : on_frame f d = yields_nonempty "[" (ThinkingDelta "[Reasoning redacted]" (Some (Z.of_nat (dc_next d)))) (open_block i (ThinkingBlock (dc_next d) true data) d)).
    { assert (Hn : nonempty_str (get "data" block) = Some data) by (rewrite Hdata; unfold nonempty_str; by rewrite bool_decide_false). by rewrite Hstart, Hn. }
    apply yields_runs in Hy as (d1 & Ha1 & Hb1 & H1). destruct (opened i (ThinkingBlock (dc_next d) true data) d Hd) as [Ho Hob].
    rewrite Hob in Hb1. pose proof (stop_frame _ _ _ _ Hg Hr Hb1) as H3. apply runs_one in H3.
    exists (with_blocks [] d1). split; [by etrans; [exact Ho|exact Ha1]|]. split; [done|]. by apply (runs_app _ [f] [_] d1).
  - assert (Hy : on_frame f d = yields_nonempty "[" (ToolCallStart (Z.of_nat (dc_next d)) callId (reverseToolName tools name)) (open_block i (ToolBlock (dc_next d) callId name first) d)).
    { rewrite Hstart. match goal with |- _ = ?r => change (start_tool tools i block d = r) end. unfold start_tool. rewrite Hid, Hn. unfold nonempty_str.
      rewrite !bool_decide_false by done. destruct Ha as [[Hi ->]|(input0 & Hi & ->)]; rewrite Hi; [done|]. by destruct input0. }
    apply yields_runs in Hy as (d1 & Ha1 & Hb1 & H1). destruct (opened i (ToolBlock (dc_next d) callId name first) d Hd) as [Ho Hob]. rewrite Hob in Hb1.
    destruct (input_run i (dc_next d) callId name _ _ Hf Hr d1 first Hb1) as (d2 & Ha2 & Hb2 & H2).
    pose proof (stop_frame _ _ _ _ Hg Hr Hb2) as H3. lazy beta iota zeta in H3. rewrite Hp in H3. apply runs_one in H3.
    exists (with_blocks [] d2). split; [by etrans; [exact Ho|etrans; [exact Ha1|exact Ha2]]|]. split; [done|].
    apply (runs_app _ [f] [_] d1); [exact H1|]. by apply (runs_app _ fs _ d2).
Qed.

Lemma blocks_run blocks frames : Forall2 (λ b fs, ∃ i, (0 <= i <= MAX_SAFE_INTEGER)%Z ∧ sends i b fs) blocks frames → ∀ d, dc_blocks d = [] →
  ∃ d', dc_blocks d' = [] ∧ dc_usage d' = dc_usage d ∧ dc_responseId d' = dc_responseId d ∧ dc_routedModelId d' = dc_routedModelId d ∧
    dc_stopReason d' = dc_stopReason d ∧ runs d (mjoin frames) (blocks_events model modelId tools (dc_next d) blocks) d'.
Proof.
  induction 1 as [|b fs blocks frames (i & Hi & Hs) _ IH]; intros d Hd; [exists d; by split_and!|].
  destruct (block_runs _ _ _ _ Hs Hi Hd) as (d1 & (Hu & Hid & Hm & Hst & _ & Hn) & Hb1 & H1). destruct (IH d1 Hb1) as (d2 & Hb2 & Hu2 & Hid2 & Hm2 & Hst2 & H2).
  exists d2. split; [done|]. cbn in *. split_and!; [congruence..|]. rewrite Hn in H2. by apply (runs_app _ fs _ d1).
Qed.

(** However a message is cut, and whatever other frames there are, its events are its blocks'
    and its end. *)
Lemma message_decoded blocks id routed reason u frames received stop partial ae : is_ok (compatibility model) = true →
  sends_message blocks id routed reason u frames → filter relevant received = frames → completes reason = Some (stop, partial) →
  decodeAnthropicMessagesStream model modelId tools secretValues latencyMs (unaborted received) ae =
    RawEvent <$> (blocks_events model modelId tools 0 blocks ++
      [Completed stop u partial
         (Some {| prm_providerId := mi_providerId model; prm_requestedModelId := modelId; prm_routedModelId := routed; prm_responseId := id;
                  prm_nativeStopReason := Some reason; prm_latencyMs := latencyMs |}) []]).
Proof.
  intros Hcompat H <- Hstop. unfold decodeAnthropicMessagesStream. destruct (compatibility model) as [c|]; [|done]. rewrite decode_relevant.
  remember (filter relevant received) as frames eqn:E. clear E received. destruct H as [start message u1 f frames sr delta u2 g last_ h Hf Hm Hid Hmodel Hu1 Hblocks Hg Hdelta Hr Hd Hu2 Hu Hh].
  assert (H1 : ∃ d1, on_frame f new_decoder = quiet d1 ∧ dc_blocks d1 = [] ∧ dc_usage d1 = u1 ∧ dc_responseId d1 = id ∧ dc_routedModelId d1 = routed ∧ dc_next d1 = 0).
  { eexists. split; [rewrite (on_event _ _ _ _ Hf); match goal with |- _ = ?r => change (on_message_start start new_decoder = r) end;
      unfold on_message_start; rewrite Hm; cbn [object_of schema_fields]; change (dc_usage new_decoder) with no_usage; rewrite Hu1; cbn [rbind]; reflexivity|].
    cbn. rewrite Hid, Hmodel. by destruct id, routed. }
  destruct H1 as (d1 & H1 & Hb1 & Husage & Hid1 & Hrouted & Hn). apply runs_one in H1.
  destruct (blocks_run _ _ Hblocks d1 Hb1) as (d2 & Hb2 & Hu2' & Hid2 & Hm2 & _ & H2). rewrite Hn in H2.
  assert (H3 : ∃ d3, on_frame g d2 = quiet d3 ∧ dc_blocks d3 = [] ∧ dc_usage d3 = u2 ∧ dc_responseId d3 = id ∧ dc_routedModelId d3 = routed ∧ dc_stopReason d3 = Some reason).
  { assert (Hreason : nonempty_str (JStr reason) = Some reason) by (unfold nonempty_str; rewrite bool_decide_false; [done|]; by intros ->).
    destruct Hd as [Hd|Hd]; (eexists; split; [rewrite (on_event _ _ _ _ Hg); match goal with |- _ = ?r => change (on_message_delta sr d2 = r) end;
      unfold on_message_delta; rewrite Hdelta; cbn [object_of schema_fields]; rewrite Hr, Hreason; cbn [rbind];
      rewrite Hd; cbn [rbind]; rewrite Hu2', Husage, Hu2; cbn [rbind]; reflexivity|]);
    cbn; split_and!; congruence. }
  destruct H3 as (d3 & H3 & Hb3 & Hu3 & Hid3 & Hm3 & Hr3). apply runs_one in H3.
  assert (Hall := runs_app _ [f] [] _ _ _ _ H1 (runs_app _ _ _ _ _ _ _ H2 H3)). cbn [app] in Hall.
  change (f :: mjoin frames ++ [g; h]) with ((f :: mjoin frames) ++ [g] ++ [h]). rewrite app_assoc, (Hall [h]).
  rewrite app_nil_r, fmap_app. f_equal. cbn [fmap list_fmap decode_frames].
  assert (Hend : on_frame h d3 = on_message_stop model modelId secretValues latencyMs d3) by (by rewrite (on_event _ _ _ _ Hh)). rewrite Hend.
  unfold on_message_stop. rewrite Hb3, Hr3. rewrite (bool_decide_true (@nil (Z * Block) = [])) by done. cbn [require rbind]. rewrite Hu3, Hu.
  assert (Hresponse : responseMetadata model modelId latencyMs d3 =
    {| prm_providerId := mi_providerId model; prm_requestedModelId := modelId; prm_routedModelId := routed; prm_responseId := id;
       prm_nativeStopReason := Some reason; prm_latencyMs := latencyMs |}) by (unfold responseMetadata; by rewrite Hid3, Hm3, Hr3).
  rewrite Hresponse. unfold completes in Hstop.
  case_bool_decide as E1; [injection Hstop as <- <-|case_bool_decide as E2; [injection Hstop as <- <-|case_bool_decide as E3; [injection Hstop as <- <-|done]]];
    (rewrite (bool_decide_false (reason ∈ ["refusal"; "sensitive"])); [cbn [rmap rbind]|]).
  all: try (intros Hin; set_solver).
  all: rewrite ?(bool_decide_true _ E1), ?(bool_decide_false _ E1), ?(bool_decide_true _ E2), ?(bool_decide_false _ E2), ?(bool_decide_true _ E3); done.
Qed.
End Decoding.
