(* ===== verification/AgentSession.v ===== *)
(** kernel/src/agent-session.ts: a live session over one event log.

    A method runs in the monad [M]: it changes the session and may throw, and a
    throw keeps the changes made before it.  What the outside does is given by an
    environment: fresh ids and times, what the model port does for each request,
    how each tool ends, how each retry sleep ends, and what clients do meanwhile. *)
From stdpp Require Import base list sets strings pretty.
From Stdlib Require Import ZArith Lia.
From S2P Require Import Prelude Text JsValue Json Envelope Types ModelRequest Events Arith JsMap SessionTree Replay Tools ModelStream Compaction.

(** ** The interface to the event log *)

(** What the session uses of [JsonlEventLog]: [append] and [read]. *)
Class EventStore (L E : Type) := {
  store_append : event → L → result E event * L;
  store_read : L → result E (list event) * L;
  (** The events the log holds. *)
  store_events : L → list event;
  store_message : E → string
}.

(** What a stored event keeps of the event it was made from: redaction rewrites
    only the payload, within its type. *)
Record stored_as (e stored : event) : Prop := {
  st_id : ev_id stored = ev_id e;
  st_session : ev_sessionId stored = ev_sessionId e;
  st_operation : ev_operationId stored = ev_operationId e;
  st_parent : ev_parentId stored = ev_parentId e;
  st_type : payload_type (ev_payload stored) = payload_type (ev_payload e)
}.

(** What a log promises: an append adds exactly the stored event or nothing, and
    reading returns what was added. *)
Class EventStoreLaws (L E : Type) `{EventStore L E} := {
  store_append_Ok e l stored l' :
    store_append e l = (Ok stored, l') → store_events l' = store_events l ++ [stored] ∧ stored_as e stored;
  store_append_Err e l err l' : store_append e l = (Err err, l') → store_events l' = store_events l;
  store_read_same l r l' : store_read l = (r, l') → store_events l' = store_events l;
  store_read_Ok l evs l' : store_read l = (Ok evs, l') → evs = store_events l
}.

(** ** Retry policy *)

Record ModelRetryPolicy := {
  rp_maxAttempts : number;
  rp_initialDelayMs : number;
  rp_maximumDelayMs : number;
  rp_multiplier : number;
  rp_jitterRatio : number
}.

(** [ModelRetryOptions]: the policy fields that are present. *)
Record ModelRetryOptions := {
  ro_maxAttempts : option number;
  ro_initialDelayMs : option number;
  ro_maximumDelayMs : option number;
  ro_multiplier : option number;
  ro_jitterRatio : option number
}.

(** 0.2 *)
Definition one_fifth : number := NFrac 3602879701896397 54.

Definition DEFAULT_MODEL_RETRY_POLICY : ModelRetryPolicy :=
  {| rp_maxAttempts := NInt 3; rp_initialDelayMs := NInt 500; rp_maximumDelayMs := NInt 60000;
     rp_multiplier := NInt 2; rp_jitterRatio := one_fifth |}.

Inductive TypeError := type_error (message : string).

Definition merge_policy (o : ModelRetryOptions) : ModelRetryPolicy :=
  let d := DEFAULT_MODEL_RETRY_POLICY in
  {| rp_maxAttempts := default (rp_maxAttempts d) (ro_maxAttempts o);
     rp_initialDelayMs := default (rp_initialDelayMs d) (ro_initialDelayMs o);
     rp_maximumDelayMs := default (rp_maximumDelayMs d) (ro_maximumDelayMs o);
     rp_multiplier := default (rp_multiplier d) (ro_multiplier o);
     rp_jitterRatio := default (rp_jitterRatio d) (ro_jitterRatio o) |}.

Definition modelRetryPolicy (options : option ModelRetryOptions) : result TypeError ModelRetryPolicy :=
  let policy := match options with None => DEFAULT_MODEL_RETRY_POLICY | Some o => merge_policy o end in
  _ ← each (λ nv, require (is_safe_integer nv.2 && (1 <=? int_of nv.2)%Z)
                    (type_error ("retry." +:+ nv.1 +:+ " must be a positive safe integer")))
        [("maxAttempts", rp_maxAttempts policy); ("initialDelayMs", rp_initialDelayMs policy);
         ("maximumDelayMs", rp_maximumDelayMs policy)];
  _ ← refuse (negb (is_finite (rp_multiplier policy)) || num_lt (rp_multiplier policy) (NInt 1))
        (type_error "retry.multiplier must be at least 1");
  _ ← refuse (negb (is_finite (rp_jitterRatio policy)) || num_lt (rp_jitterRatio policy) (NInt 0)
              || num_lt (NInt 1) (rp_jitterRatio policy))
        (type_error "retry.jitterRatio must be between 0 and 1");
  Ok policy.

Definition modelRetryDelay (error : ModelStreamError) (failedAttempt : nat) (policy : ModelRetryPolicy)
    (random : number) : number :=
  let backoff :=
    let base := num_min (rp_maximumDelayMs policy)
                  (num_mul (rp_initialDelayMs policy) (num_pow (rp_multiplier policy) (failedAttempt - 1))) in
    let sample := num_min (NInt 1) (num_max (NInt 0) random) in
    let jitter := num_add (NInt 1)
                    (num_mul (num_sub (num_mul sample (NInt 2)) (NInt 1)) (rp_jitterRatio policy)) in
    num_min (rp_maximumDelayMs policy) (num_max (NInt 0) (num_round (num_mul base jitter))) in
  match mse_retryAfterMs error with
  | Some ms =>
      if is_finite ms && negb (is_negative ms) then num_min (rp_maximumDelayMs policy) (num_round ms)
      else backoff
  | None => backoff
  end.

(** ** What is left open on a lineage *)

Definition unansweredToolCalls (events : list event) : list event :=
  map_values (fold_left (λ pending e,
    match ev_payload e with
    | ToolCall callId _ _ => map_set callId e pending
    | ToolResult callId _ _ _ _ => map_delete callId pending
    | _ => pending
    end) events []).

Definition unansweredInteractions (events : list event) : list event :=
  map_values (fold_left (λ pending e,
    match ev_payload e with
    | InteractionRequested id _ _ _ _ => map_set id e pending
    | InteractionResolved id _ _ => map_delete id pending
    | _ => pending
    end) events []).

Definition is_blob (c : content) : bool := match c with CBlob _ => true | _ => false end.
Definition blob_items (items : list content) : list content := filter (λ c, Is_true (is_blob c)) items.

Definition shellModelContent (command : string) (items : list content) : list content :=
  CText ("[shell]" +:+ newline +:+ "$ " +:+ command +:+ newline +:+ join "" (text_items items))
  :: blob_items items.

Definition messagesFromLineage (events : list event) : result ReplayError (list ModelMessage) :=
  messagesFromCompactedLineage events.

(** ** The session *)

Inductive frame :=
| FrameText (sequence : nat) (text : string)
| FrameThinking (sequence : nat) (text : string)
| FrameToolCall (sequence : nat) (callId name : string)
| FrameClear (sequence : nat).

(** How an execution of a tool ends. *)
Inductive tool_outcome :=
| ToolReturned (r : ToolExecutionResult)
| ToolThrew (message : option string)
| ToolViolated (capability reason : string).

(** How a retry sleep ends: [SleptThrew] holds the message of a thrown [Error]. *)
Inductive sleep_outcome := Slept | SleptThrew (message : option string).

(** The outside world: the n-th [randomUUID()] and [Date.now()], what the model
    port does for the n-th request, how the n-th tool execution and the n-th
    sleep go, the n-th random sample. *)
Record environment := {
  env_fresh : nat → string;
  env_now : nat → Z;
  env_stream : nat → list stream_item;
  env_tool : nat → list client_action * tool_outcome;
  env_sleep : nat → list client_action * sleep_outcome;
  env_random : nat → number
}.

(** The constructor's constants. *)
Record settings := {
  cfg_system : option string;
  cfg_tools : ToolRegistry;
  cfg_retry : option ModelRetryPolicy;
  cfg_keepRecentTokens : number
}.

(** How often each source of the environment was asked. *)
Record draws := { d_ids : nat; d_streams : nat; d_tools : nat; d_sleeps : nat; d_randoms : nat }.

(** The branch: the log, the tip, and the events [onEvent] saw. *)
Record branch (L : Type) := {
  b_log : L;
  b_sessionId : string;
  b_tip : option string;
  b_emitted : list event
}.
Arguments b_log {L}. Arguments b_sessionId {L}. Arguments b_tip {L}. Arguments b_emitted {L}.

Record message_queues := {
  q_accepting : bool;
  q_steering : list (list content);
  q_followUp : list (list content)
}.

Record model_request := { mr_estimatedInputTokens : Z; mr_messages : list ModelMessage }.

Record session (L : Type) := {
  ss_branch : branch L;
  ss_messages : list ModelMessage;
  ss_contextUsage : option (Z * nat);
  ss_active : option string;
  ss_queues : message_queues;
  (** [signal.aborted], of the signal of the running operation. *)
  ss_aborted : bool;
  ss_draws : draws;
  ss_frames : list frame;
  ss_requests : list model_request
}.
Arguments ss_branch {L}. Arguments ss_messages {L}. Arguments ss_contextUsage {L}. Arguments ss_active {L}.
Arguments ss_queues {L}. Arguments ss_aborted {L}. Arguments ss_draws {L}. Arguments ss_frames {L}.
Arguments ss_requests {L}.

Inductive agent_error (E : Type) :=
| OperationConflict (message : string)
| CompactionUnavailable (alreadyCompacted : bool)
| AgentInvalid (e : ProtocolValidationError)
| AgentLog (e : E)
| AgentTree (e : tree_error)
| AgentIntegrity (e : integrity_error)
| AgentReplay (e : ReplayError)
| AgentType (message : string)
| AgentSummary (e : summary_error)
| AgentFailed (message : string)
| AgentThrew (message : option string).
Arguments OperationConflict {E}. Arguments CompactionUnavailable {E}. Arguments AgentInvalid {E}.
Arguments AgentLog {E}. Arguments AgentTree {E}. Arguments AgentIntegrity {E}. Arguments AgentReplay {E}.
Arguments AgentType {E}. Arguments AgentSummary {E}. Arguments AgentFailed {E}. Arguments AgentThrew {E}.

Section Setters.
Context {L : Type}.
Implicit Types s : session L.

Definition set_branch b s : session L :=
  {| ss_branch := b; ss_messages := ss_messages s; ss_contextUsage := ss_contextUsage s;
     ss_active := ss_active s; ss_queues := ss_queues s; ss_aborted := ss_aborted s;
     ss_draws := ss_draws s; ss_frames := ss_frames s; ss_requests := ss_requests s |}.
Definition set_messages m s : session L :=
  {| ss_branch := ss_branch s; ss_messages := m; ss_contextUsage := ss_contextUsage s;
     ss_active := ss_active s; ss_queues := ss_queues s; ss_aborted := ss_aborted s;
     ss_draws := ss_draws s; ss_frames := ss_frames s; ss_requests := ss_requests s |}.
Definition set_contextUsage u s : session L :=
  {| ss_branch := ss_branch s; ss_messages := ss_messages s; ss_contextUsage := u;
     ss_active := ss_active s; ss_queues := ss_queues s; ss_aborted := ss_aborted s;
     ss_draws := ss_draws s; ss_frames := ss_frames s; ss_requests := ss_requests s |}.
Definition set_active a s : session L :=
  {| ss_branch := ss_branch s; ss_messages := ss_messages s; ss_contextUsage := ss_contextUsage s;
     ss_active := a; ss_queues := ss_queues s; ss_aborted := ss_aborted s;
     ss_draws := ss_draws s; ss_frames := ss_frames s; ss_requests := ss_requests s |}.
Definition set_queues q s : session L :=
  {| ss_branch := ss_branch s; ss_messages := ss_messages s; ss_contextUsage := ss_contextUsage s;
     ss_active := ss_active s; ss_queues := q; ss_aborted := ss_aborted s;
     ss_draws := ss_draws s; ss_frames := ss_frames s; ss_requests := ss_requests s |}.
Definition set_aborted a s : session L :=
  {| ss_branch := ss_branch s; ss_messages := ss_messages s; ss_contextUsage := ss_contextUsage s;
     ss_active := ss_active s; ss_queues := ss_queues s; ss_aborted := a;
     ss_draws := ss_draws s; ss_frames := ss_frames s; ss_requests := ss_requests s |}.
Definition set_draws d s : session L :=
  {| ss_branch := ss_branch s; ss_messages := ss_messages s; ss_contextUsage := ss_contextUsage s;
     ss_active := ss_active s; ss_queues := ss_queues s; ss_aborted := ss_aborted s;
     ss_draws := d; ss_frames := ss_frames s; ss_requests := ss_requests s |}.
Definition add_frame f s : session L :=
  {| ss_branch := ss_branch s; ss_messages := ss_messages s; ss_contextUsage := ss_contextUsage s;
     ss_active := ss_active s; ss_queues := ss_queues s; ss_aborted := ss_aborted s;
     ss_draws := ss_draws s; ss_frames := ss_frames s ++ [f]; ss_requests := ss_requests s |}.
Definition add_request r s : session L :=
  {| ss_branch := ss_branch s; ss_messages := ss_messages s; ss_contextUsage := ss_contextUsage s;
     ss_active := ss_active s; ss_queues := ss_queues s; ss_aborted := ss_aborted s;
     ss_draws := ss_draws s; ss_frames := ss_frames s; ss_requests := ss_requests s ++ [r] |}.
End Setters.

Definition next_id (d : draws) : draws :=
  {| d_ids := S (d_ids d); d_streams := d_streams d; d_tools := d_tools d; d_sleeps := d_sleeps d;
     d_randoms := d_randoms d |}.
Definition next_stream (d : draws) : draws :=
  {| d_ids := d_ids d; d_streams := S (d_streams d); d_tools := d_tools d; d_sleeps := d_sleeps d;
     d_randoms := d_randoms d |}.
Definition next_tool (d : draws) : draws :=
  {| d_ids := d_ids d; d_streams := d_streams d; d_tools := S (d_tools d); d_sleeps := d_sleeps d;
     d_randoms := d_randoms d |}.
Definition next_sleep (d : draws) : draws :=
  {| d_ids := d_ids d; d_streams := d_streams d; d_tools := d_tools d; d_sleeps := S (d_sleeps d);
     d_randoms := d_randoms d |}.
Definition next_random (d : draws) : draws :=
  {| d_ids := d_ids d; d_streams := d_streams d; d_tools := d_tools d; d_sleeps := d_sleeps d;
     d_randoms := S (d_randoms d) |}.

Definition stored_content (e : event) : list content :=
  match ev_payload e with
  | UserMessage c | AssistantMessage c _ _ _ | ToolResult _ _ c _ _ | UserShell _ c _ _ => c
  | _ => []
  end.

Record TurnOutcome := {
  to_content : list content;
  to_toolCalls : list ToolCallRequest;
  to_stopReason : AssistantStopReason;
  to_usage : option Usage;
  to_error : option ModelStreamError;
  to_exposedOutput : bool
}.

Record TurnResult := { tr_events : list event; tr_stopReason : AssistantStopReason }.

(** What a model attempt has gathered: [at_sequence] is [activity.sequence],
    [at_appended] the caller's [appended]. *)
Record attempt := {
  at_thinking : string;
  at_text : string;
  at_calls : list ToolCallRequest;
  at_exposed : bool;
  at_sequence : nat;
  at_appended : list event
}.

Inductive terminal :=
| TCompleted (stopReason : AssistantStopReason) (usage : Usage)
| TError (error : ModelStreamError)
| TAborted.

Definition terminal_of (e : ModelStreamEvent) : option terminal :=
  match e with
  | Completed r u _ _ _ => Some (TCompleted r u)
  | StreamError err => Some (TError err)
  | Aborted _ => Some TAborted
  | _ => None
  end.

Definition aborted_outcome : TurnOutcome :=
  {| to_content := []; to_toolCalls := []; to_stopReason := SAborted; to_usage := None; to_error := None;
     to_exposedOutput := false |}.

Definition outcome_of (a : attempt) (t : terminal) : TurnOutcome :=
  let items :=
    (if bool_decide (at_thinking a = "") then [] else [CThinking (at_thinking a)])
    ++ (if bool_decide (at_text a = "") then [] else [CText (at_text a)]) in
  match t with
  | TCompleted reason usage =>
      {| to_content := items; to_toolCalls := at_calls a; to_stopReason := reason; to_usage := Some usage;
         to_error := None; to_exposedOutput := at_exposed a |}
  | TAborted =>
      {| to_content := items; to_toolCalls := []; to_stopReason := SAborted; to_usage := None;
         to_error := None; to_exposedOutput := at_exposed a |}
  | TError err =>
      {| to_content := items; to_toolCalls := []; to_stopReason := SError; to_usage := None;
         to_error := Some err; to_exposedOutput := at_exposed a |}
  end.

Inductive append_error (E : Type) :=
| AppendInvalid (e : ProtocolValidationError)
| AppendLog (e : E).
Arguments AppendInvalid {E}. Arguments AppendLog {E}.

Definition initial_attempt (sequence : nat) (appended : list event) : attempt :=
  {| at_thinking := ""; at_text := ""; at_calls := []; at_exposed := false; at_sequence := sequence;
     at_appended := appended |}.

(** *** The queues *)

Inductive which_queue := Steering | FollowUps.
Definition queue_of (w : which_queue) (q : message_queues) : list (list content) :=
  match w with Steering => q_steering q | FollowUps => q_followUp q end.
Definition set_queue (w : which_queue) (l : list (list content)) (q : message_queues) : message_queues :=
  match w with
  | Steering => {| q_accepting := q_accepting q; q_steering := l; q_followUp := q_followUp q |}
  | FollowUps => {| q_accepting := q_accepting q; q_steering := q_steering q; q_followUp := l |}
  end.
Definition shift_queue (w : which_queue) (q : message_queues) : message_queues :=
  set_queue w (tail (queue_of w q)) q.
Definition push_queue {L} (w : which_queue) (items : list content) (s : session L) : session L :=
  set_queues (set_queue w (queue_of w (ss_queues s) ++ [items]) (ss_queues s)) s.

Definition hasQueuedMessages {L} (s : session L) : bool :=
  negb (bool_decide (q_steering (ss_queues s) = [])) || negb (bool_decide (q_followUp (ss_queues s) = [])).

(** What a client does while an operation waits: a queue method that throws
    answers the client and changes nothing. *)
Definition apply_client {L} (a : client_action) (s : session L) : session L :=
  match a with
  | ClientSteer items => if q_accepting (ss_queues s) then push_queue Steering items s else s
  | ClientFollowUp items => if q_accepting (ss_queues s) then push_queue FollowUps items s else s
  | ClientAbort => set_aborted true s
  end.
Definition apply_clients {L} (l : list client_action) (s : session L) : session L :=
  fold_left (λ s a, apply_client a s) l s.

Section Operations.
Context {L E : Type} `{EventStore L E} (env : environment) (cfg : settings).
Implicit Types s : session L.

(** *** The monad *)

Definition M (A : Type) : Type := session L → result (agent_error E) A * session L.
Definition ret {A} (a : A) : M A := λ s, (Ok a, s).
Definition throw {A} (e : agent_error E) : M A := λ s, (Err e, s).
Definition bindM {A B} (m : M A) (k : A → M B) : M B := λ s,
  match m s with (Ok a, s') => k a s' | (Err e, s') => (Err e, s') end.
Definition get_session : M (session L) := λ s, (Ok s, s).
Definition modify (f : session L → session L) : M unit := λ s, (Ok tt, f s).
(** [try { m } finally { f }] *)
Definition finally {A} (m : M A) (f : session L → session L) : M A := λ s,
  let (r, s') := m s in (r, f s').
Definition lift {A} (r : result (agent_error E) A) : M A := λ s, (r, s).

(** A loop that may not end: [None] when the fuel ran out. *)
Definition P (A : Type) : Type := session L → option (result (agent_error E) A * session L).
Definition bindP {A B} (m : M A) (k : A → P B) : P B := λ s,
  match m s with (Ok a, s') => k a s' | (Err e, s') => Some (Err e, s') end.
Definition bindPP {A B} (m : P A) (k : A → P B) : P B := λ s,
  match m s with
  | None => None
  | Some (Ok a, s') => k a s'
  | Some (Err e, s') => Some (Err e, s')
  end.
Definition done {A} (m : M A) : P A := λ s, Some (m s).
Definition finallyP {A} (m : P A) (f : session L → session L) : P A := λ s,
  match m s with None => None | Some (r, s') => Some (r, f s') end.
End Operations.

Declare Scope session_scope.
Delimit Scope session_scope with session.
Notation "x ← m ; k" := (bindM m (λ x, k))
  (at level 20, m at level 100, k at level 200, only parsing) : session_scope.
Notation "' x ← m ; k" := (bindM m (λ x, k))
  (at level 20, x pattern, m at level 100, k at level 200, only parsing) : session_scope.
Notation "x ⇐ m ; k" := (bindP m (λ x, k))
  (at level 20, m at level 100, k at level 200, only parsing) : session_scope.
Notation "' x ⇐ m ; k" := (bindP m (λ x, k))
  (at level 20, x pattern, m at level 100, k at level 200, only parsing) : session_scope.
#[local] Open Scope session_scope.

Section Methods.
Context {L E : Type} `{EventStore L E} (env : environment) (cfg : settings).
Implicit Types s : session L.

Definition steer (items : list content) : M (L := L) (E := E) unit := λ s,
  if negb (q_accepting (ss_queues s))
  then (Err (OperationConflict "No active model turn can receive steering"), s)
  else (Ok tt, push_queue Steering items s).
Definition followUp (items : list content) : M (L := L) (E := E) unit := λ s,
  if negb (q_accepting (ss_queues s))
  then (Err (OperationConflict "No active model turn can receive a follow-up"), s)
  else (Ok tt, push_queue FollowUps items s).

(** *** Appending *)

Definition append_raw (operationId : option string) (p : payload) s :
    result (append_error E) event * session L :=
  let b := ss_branch s in
  let n := d_ids (ss_draws s) in
  let s := set_draws (next_id (ss_draws s)) s in
  let e := {| ev_id := env_fresh env n; ev_sessionId := b_sessionId b; ev_operationId := operationId;
              ev_parentId := b_tip b; ev_timestamp := env_now env n; ev_payload := p |} in
  match parseEvent (event_value e) with
  | Err err => (Err (AppendInvalid err), s)
  | Ok _ =>
      match store_append e (b_log b) with
      | (Err err, l) =>
          (Err (AppendLog err),
           set_branch {| b_log := l; b_sessionId := b_sessionId b; b_tip := b_tip b;
                         b_emitted := b_emitted b |} s)
      | (Ok stored, l) =>
          (Ok stored,
           set_branch {| b_log := l; b_sessionId := b_sessionId b; b_tip := Some (ev_id stored);
                         b_emitted := b_emitted b ++ [stored] |} s)
      end
  end.

Definition append (operationId : option string) (p : payload) : M (L := L) (E := E) event := λ s,
  match append_raw operationId p s with
  | (Ok e, s') => (Ok e, s')
  | (Err (AppendInvalid e), s') => (Err (AgentInvalid e), s')
  | (Err (AppendLog e), s') => (Err (AgentLog e), s')
  end.

(** [error.message] *)
Definition append_message (e : append_error E) : string :=
  match e with
  | AppendInvalid e => pve_path e +:+ ": " +:+ pve_message e
  | AppendLog e => store_message (L := L) e
  end.

Definition push_message (m : ModelMessage) : M (L := L) (E := E) unit :=
  modify (λ s, set_messages (ss_messages s ++ [m]) s).

Definition appendUserMessage (operationId : string) (items : list content) (appended : list event) :
    M (L := L) (E := E) (list event) :=
  e ← append (Some operationId) (UserMessage items);
  _ ← push_message (MUser (stored_content e));
  ret (appended ++ [e]).

(** The two calls, for the steering and the follow-up queue; the queue is
    shifted only after the append. *)
Definition appendNextQueuedMessage (w : which_queue) (operationId : string) (appended : list event) :
    M (L := L) (E := E) (bool * list event) :=
  s ← get_session;
  match queue_of w (ss_queues s) with
  | [] => ret (false, appended)
  | items :: _ =>
      appended' ← appendUserMessage operationId items appended;
      _ ← modify (λ s, set_queues (shift_queue w (ss_queues s)) s);
      ret (true, appended')
  end.

(** *** One model attempt *)

Definition port_failure s (failure message : string) : terminal :=
  if ss_aborted s then TAborted
  else TError (plain_error failure message false None None).

Fixpoint attempt_loop (operationId : string) (items : list stream_item) (a : attempt) s :
    attempt * option terminal * session L :=
  match items with
  | [] => (a, None, s)
  | Client c :: rest => attempt_loop operationId rest a (apply_client c s)
  | Throws m :: _ =>
      (a, Some (port_failure s "model_port_failure" (default "model port threw a non-Error value" m)), s)
  | Configured c :: rest =>
      match append_raw (Some operationId) (RequestConfigured c) s with
      | (Ok e, s') =>
          attempt_loop operationId rest
            {| at_thinking := at_thinking a; at_text := at_text a; at_calls := at_calls a;
               at_exposed := at_exposed a; at_sequence := at_sequence a;
               at_appended := at_appended a ++ [e] |} s'
      | (Err err, s') => (a, Some (port_failure s' "model_port_failure" (append_message err)), s')
      end
  | Yield e :: rest =>
      let n := S (at_sequence a) in
      match e with
      | TextDelta text _ =>
          attempt_loop operationId rest
            {| at_thinking := at_thinking a; at_text := at_text a +:+ text; at_calls := at_calls a;
               at_exposed := true; at_sequence := n; at_appended := at_appended a |}
            (add_frame (FrameText n text) s)
      | ThinkingDelta text _ =>
          attempt_loop operationId rest
            {| at_thinking := at_thinking a +:+ text; at_text := at_text a; at_calls := at_calls a;
               at_exposed := true; at_sequence := n; at_appended := at_appended a |}
            (add_frame (FrameThinking n text) s)
      | ToolCallEvent call _ =>
          attempt_loop operationId rest
            {| at_thinking := at_thinking a; at_text := at_text a; at_calls := at_calls a ++ [call];
               at_exposed := true; at_sequence := n; at_appended := at_appended a |}
            (add_frame (FrameToolCall n (tcr_callId call) (tcr_name call)) s)
      | _ =>
          match terminal_of e with
          | Some t => (a, Some t, s)
          | None => attempt_loop operationId rest a s
          end
      end
  end.

Definition estimated_tokens s : Z :=
  match ss_contextUsage s with
  | None =>
      estimateModelInputTokens (cfg_system cfg) (ss_messages s) (Registry.declarations (cfg_tools cfg))
  | Some (tokens, messageCount) =>
      (tokens + sumZ estimateModelMessageTokens (drop messageCount (ss_messages s)))%Z
  end.

Definition modelAttempt (operationId : string) (sequence : nat) (appended : list event) s :
    TurnOutcome * nat * list event * session L :=
  let items := env_stream env (d_streams (ss_draws s)) in
  let s := add_request {| mr_estimatedInputTokens := estimated_tokens s; mr_messages := ss_messages s |}
             (set_draws (next_stream (ss_draws s)) s) in
  let '(a, t, s) := attempt_loop operationId items (initial_attempt sequence appended) s in
  let t := match t with
           | Some t => t
           | None => port_failure s "model_stream_truncated" "model stream ended without a terminal event"
           end in
  (outcome_of a t, at_sequence a, at_appended a, s).
End Methods.

Section Turns.
Context {L E : Type} `{EventStore L E} (env : environment) (cfg : settings).
Implicit Types s : session L.

(** *** Retries *)

Definition retry_after (error : ModelStreamError) : bool :=
  match mse_retryAfterMs error with
  | Some ms => is_finite ms && negb (is_negative ms)
  | None => false
  end.

(** The condition under which the outcome of an attempt is final. *)
Definition attempt_final (attempt : nat) (o : TurnOutcome) : bool :=
  match cfg_retry cfg, to_error o with
  | Some retry, Some error =>
      negb (mse_retryable error)
      || match mse_requestPhase error with None | Some PhaseUnknown => true | _ => false end
      || to_exposedOutput o
      || (int_of (rp_maxAttempts retry) <=? Z.of_nat attempt)%Z
  | _, _ => true
  end.

(** The event that announces a retry; a delay that is no integer is refused by
    the check of the payload. *)
Definition announce_retry (operationId : string) (attempt : nat) (delayMs : number) (error : ModelStreamError)
    (retry : ModelRetryPolicy) : M (L := L) (E := E) event :=
  match delayMs with
  | NInt _ | NNegZero =>
      append env (Some operationId)
        (RetryScheduled (Z.of_nat (S attempt)) (int_of (rp_maxAttempts retry)) (int_of delayMs) (mse_code error))
  | _ =>
      throw (AgentInvalid (invalid "event.payload.delayMs" "must be a non-negative safe integer"))
  end.

Definition scheduler_failed (message : option string) : TurnOutcome :=
  {| to_content := []; to_toolCalls := []; to_stopReason := SError; to_usage := None;
     to_error := Some (plain_error "retry_scheduler_failed" (default "model retry scheduler failed" message)
                         false (Some "unknown") (Some BeforeDispatch));
     to_exposedOutput := false |}.

(** [for (let attempt = 1; ; attempt += 1)] *)
Fixpoint retry_loop (fuel attempt : nat) (operationId : string) (sequence : nat) (appended : list event) :
    P (L := L) (E := E) (TurnOutcome * nat * list event) :=
  match fuel with
  | 0 => λ _, None
  | S fuel' => λ s,
      let '(o, sequence, appended, s) := modelAttempt env cfg operationId sequence appended s in
      match attempt_final attempt o, cfg_retry cfg, to_error o with
      | false, Some retry, Some error =>
          let sample := env_random env (d_randoms (ss_draws s)) in
          let s := if retry_after error then s else set_draws (next_random (ss_draws s)) s in
          let delayMs := modelRetryDelay error attempt retry sample in
          (event ⇐ announce_retry operationId attempt delayMs error retry;
           λ s,
             let '(clients, outcome) := env_sleep env (d_sleeps (ss_draws s)) in
             let s := apply_clients clients (set_draws (next_sleep (ss_draws s)) s) in
             if ss_aborted s then Some (Ok (aborted_outcome, sequence, appended ++ [event]), s)
             else match outcome with
                  | SleptThrew m => Some (Ok (scheduler_failed m, sequence, appended ++ [event]), s)
                  | Slept => retry_loop fuel' (S attempt) operationId sequence (appended ++ [event]) s
                  end) s
      | _, _, _ => Some (Ok (o, sequence, appended), s)
      end
  end.

Definition max_attempts : nat :=
  match cfg_retry cfg with Some retry => Z.to_nat (int_of (rp_maxAttempts retry)) | None => 1 end.

Definition modelTurn (operationId : string) (sequence : nat) (appended : list event) :
    P (L := L) (E := E) (TurnOutcome * nat * list event) := λ s,
  if ss_aborted s then Some (Ok (aborted_outcome, sequence, appended), s)
  else retry_loop (S max_attempts) 1 operationId sequence appended s.

(** *** Tools *)

Definition failed_result (message : string) : ToolExecutionResult :=
  {| ter_content := [CText message]; ter_isError := true; ter_details := None |}.

(** [await tool.execute(input, signal)] *)
Definition execute_tool : M (L := L) (E := E) tool_outcome := λ s,
  let '(clients, outcome) := env_tool env (d_tools (ss_draws s)) in
  (Ok outcome, apply_clients clients (set_draws (next_tool (ss_draws s)) s)).

Definition executeTool (call : ToolCallRequest) :
    M (L := L) (E := E) (ToolExecutionResult * option (string * string)) :=
  match Registry.get (tcr_name call) (cfg_tools cfg) with
  | None => ret (failed_result ("Tool " +:+ tcr_name call +:+ " is not registered"), None)
  | Some _ =>
      outcome ← execute_tool;
      ret (match outcome with
           | ToolReturned r => (r, None)
           | ToolThrew m => (failed_result (default "tool execution failed" m), None)
           | ToolViolated capability reason =>
               (failed_result (capability +:+ ": " +:+ reason), Some (capability, reason))
           end)
  end.

(** One iteration of the loop over the calls, up to the abort test. *)
Definition execute_call (operationId : string) (call : ToolCallRequest) (appended : list event) :
    M (L := L) (E := E) (list event) :=
  callEvent ← append env (Some operationId) (ToolCall (tcr_callId call) (tcr_name call) (tcr_input call));
  ' (r, violation) ← executeTool call;
  violationEvents ← match violation with
                    | None => ret []
                    | Some (capability, reason) =>
                        e ← append env (Some operationId) (SandboxViolation capability reason);
                        ret [e]
                    end;
  resultEvent ← append env (Some operationId)
                  (ToolResult (tcr_callId call) (tcr_name call) (ter_content r) (ter_isError r) (ter_details r));
  _ ← push_message (MTool (tcr_callId call) (tcr_name call) (stored_content resultEvent) (ter_isError r));
  ret (appended ++ [callEvent] ++ violationEvents ++ [resultEvent]).

Fixpoint executeToolCalls (operationId : string) (calls : list ToolCallRequest) (appended : list event) :
    M (L := L) (E := E) (bool * list event) :=
  match calls with
  | [] => ret (false, appended)
  | call :: rest =>
      appended ← execute_call operationId call appended;
      s ← get_session;
      if ss_aborted s then ret (true, appended) else executeToolCalls operationId rest appended
  end.

(** *** The turn *)

Definition error_text (e : ModelStreamError) : string := mse_code e +:+ ": " +:+ mse_message e.

Definition used_tokens (u : Usage) : Z :=
  (usage_inputTokens u + usage_outputTokens u + usage_cacheReadTokens u + usage_cacheWriteTokens u)%Z.

(** The part of an iteration after the model turn, up to the return on a
    terminal stop: appends the assistant message and shows it. *)
Definition record_assistant (operationId : string) (sequence : nat) (o : TurnOutcome) (appended : list event) :
    M (L := L) (E := E) (list event) :=
  e ← append env (Some operationId)
        (AssistantMessage (to_content o) (to_stopReason o) (to_usage o) (error_text <$> to_error o));
  _ ← push_message (MAssistant (stored_content e) (to_toolCalls o));
  _ ← modify (add_frame (FrameClear (S sequence)));
  ret (appended ++ [e]).

Definition note_usage (o : TurnOutcome) : M (L := L) (E := E) unit :=
  modify (λ s, match to_usage o with
               | Some u => if (0 <? used_tokens u)%Z
                           then set_contextUsage (Some (used_tokens u, length (ss_messages s))) s else s
               | None => s
               end).

(** What an iteration decides. *)
Inductive decision := Return (r : TurnResult) | Continue (appended : list event).

(** The queues, after a stop that needs no further tool results. *)
Definition drain_queues (operationId : string) (stop : AssistantStopReason) (appended : list event) :
    M (L := L) (E := E) decision :=
  ' (steered, appended) ← appendNextQueuedMessage env Steering operationId appended;
  if steered then ret (Continue appended)
  else if bool_decide (stop = SToolUse) then ret (Continue appended)
  else
    ' (followed, appended) ← appendNextQueuedMessage env FollowUps operationId appended;
    if followed then ret (Continue appended)
    else ret (Return {| tr_events := appended; tr_stopReason := stop |}).

Definition missing_tool_call : payload :=
  SessionErrorP "missing_tool_call" "Model ended with tool_use but supplied no tool call" false None.

(** The rest of an iteration, once the model turn has an outcome. *)
Definition after_model (operationId : string) (sequence : nat) (o : TurnOutcome) (appended : list event) :
    M (L := L) (E := E) decision :=
  appended ← record_assistant operationId sequence o appended;
  match to_stopReason o with
  | SError | SAborted => ret (Return {| tr_events := appended; tr_stopReason := to_stopReason o |})
  | stop =>
      _ ← note_usage o;
      match stop, to_toolCalls o with
      | SToolUse, [] =>
          e ← append env (Some operationId) missing_tool_call;
          ret (Return {| tr_events := appended ++ [e]; tr_stopReason := SError |})
      | SToolUse, calls =>
          ' (aborted, appended) ← executeToolCalls operationId calls appended;
          if aborted then ret (Continue appended) else drain_queues operationId stop appended
      | _, _ => drain_queues operationId stop appended
      end
  end.

(** [while (true)]: one unit of fuel per iteration. *)
Fixpoint turn_loop (fuel : nat) (operationId : string) (sequence : nat) (appended : list event) :
    P (L := L) (E := E) TurnResult :=
  match fuel with
  | 0 => λ _, None
  | S fuel' =>
      bindPP (modelTurn operationId sequence appended) (λ outcome,
        let '(o, sequence, appended) := outcome in
        d ⇐ after_model operationId sequence o appended;
        match d with
        | Return r => done (ret r)
        | Continue appended => turn_loop fuel' operationId (S sequence) appended
        end)
  end.

(** [requestedOperationId ?? parseOperationId(randomUUID(), "operationId")] *)
Definition operation_id (requested : option string) : M (L := L) (E := E) string := λ s,
  match requested with
  | Some id => (Ok id, s)
  | None =>
      let n := d_ids (ss_draws s) in
      let s := set_draws (next_id (ss_draws s)) s in
      match parseOperationId (JStr (env_fresh env n)) "operationId" with
      | Ok id => (Ok id, s)
      | Err e => (Err (AgentInvalid e), s)
      end
  end.

(** The guard of the operations that own the branch. *)
Definition unless_active {A} (m : M (L := L) (E := E) A) : M (L := L) (E := E) A := λ s,
  match ss_active s with
  | Some id => (Err (OperationConflict ("Operation " +:+ id +:+ " already owns this branch")), s)
  | None => m s
  end.

Definition accept_messages (b : bool) s : session L :=
  let q := ss_queues s in
  set_queues {| q_accepting := b; q_steering := q_steering q; q_followUp := q_followUp q |} s.

Definition turn_body (fuel : nat) (operationId : string) (items : list content) :
    P (L := L) (E := E) TurnResult :=
  appended ⇐ appendUserMessage env operationId items [];
  turn_loop fuel operationId 0 appended.

(** Takes the branch for an operation under the given abort signal. *)
Definition begin_operation (operationId : string) (signal : bool) s : session L :=
  set_aborted signal (set_active (Some operationId) s).

Definition runTurn (fuel : nat) (items : list content) (signal : bool) (requested : option string) :
    P (L := L) (E := E) TurnResult :=
  operationId ⇐ unless_active (operation_id requested);
  _ ⇐ modify (λ s, accept_messages true (begin_operation operationId signal s));
  finallyP (turn_body fuel operationId items)
    (λ s, set_active None (accept_messages false s)).

(** Shifts the queue before the turn starts. *)
Definition continueQueued (fuel : nat) (signal : bool) : P (L := L) (E := E) (option TurnResult) := λ s,
  let w := if bool_decide (q_steering (ss_queues s) = []) then FollowUps else Steering in
  match queue_of w (ss_queues s) with
  | [] => Some (Ok None, s)
  | items :: _ =>
      bindPP (runTurn fuel items signal None) (λ r, done (ret (Some r)))
        (set_queues (shift_queue w (ss_queues s)) s)
  end.
End Turns.

(** What [open] takes of [AgentSessionOptions], besides the constants of the
    session; [opt_activate] is whether the extension host's [activate] returns. *)
Record session_options := {
  opt_cwd : string;
  opt_sections : list (string * string * string);
  opt_sandbox : option (string * bool * list string * option fields);
  opt_configProvider : option string;
  opt_configRequest : option ModelRequestSettings;
  opt_configModel : option string;
  opt_configThinking : option (ThinkingLevel * ThinkingLevel * bool);
  opt_configProfile : option SessionProfile;
  opt_configTools : option (bool * bool);
  opt_configDialect : option (string * string * DialectBoundaryReason);
  opt_creationOperationId : option string;
  opt_boundaryOperationId : option string;
  opt_retry : option (option ModelRetryOptions);
  opt_keepRecentTokens : option number;
  opt_maxOutputTokens : option number;
  opt_activate : option string
}.

Section Others.
Context {L E : Type} `{EventStore L E} (env : environment) (cfg : settings).
Implicit Types s : session L.

(** *** Operations between turns *)

Definition requestInteraction (p : payload) : M (L := L) (E := E) event := λ s,
  match ss_active s with
  | None => (Err (OperationConflict "Interactions require an active session operation"), s)
  | Some op => append env (Some op) p s
  end.

Definition resolveInteraction (p : payload) (operationId : option string) : M (L := L) (E := E) event := λ s,
  match ss_active s with
  | None => (Err (OperationConflict "No active operation can receive this interaction response"), s)
  | Some op => append env (Some (default op operationId)) p s
  end.

Definition injectContext (source body : string) : M (L := L) (E := E) event := λ s,
  match ss_active s with
  | Some op =>
      (Err (OperationConflict ("Operation " +:+ op +:+ " owns this branch; steering lands after it")), s)
  | None =>
      (e ← append env None (ContextInjected source body);
       _ ← push_message (MUser [CText ("[" +:+ source +:+ "]" +:+ newline +:+ body)]);
       ret e) s
  end.

Definition release : session L → session L := set_active None.

Definition run_shell_body (operationId command : string) (excluded : bool) : M (L := L) (E := E) event :=
  outcome ← execute_tool env;
  match outcome with
  | ToolThrew m => throw (AgentThrew m)
  | ToolViolated capability reason => throw (AgentThrew (Some (capability +:+ ": " +:+ reason)))
  | ToolReturned r =>
      e ← append env (Some operationId) (UserShell command (ter_content r) (ter_isError r) excluded);
      _ ← (if excluded then ret tt
           else push_message (MUser (shellModelContent command (stored_content e))));
      ret e
  end.

Definition runShell (command : string) (excluded signal : bool) (requested : option string) :
    M (L := L) (E := E) event :=
  operationId ← unless_active (
    match Registry.get "bash" (cfg_tools cfg) with
    | None => throw (AgentFailed "The bash tool is unavailable in this session")
    | Some _ => operation_id env requested
    end);
  _ ← modify (begin_operation operationId signal);
  finally (run_shell_body operationId command excluded) release.

(** [await this.log.read()] *)
Definition read_log : M (L := L) (E := E) (list event) := λ s,
  let b := ss_branch s in
  let (r, l) := store_read (b_log b) in
  (match r with Ok evs => Ok evs | Err e => Err (AgentLog e) end,
   set_branch {| b_log := l; b_sessionId := b_sessionId b; b_tip := b_tip b; b_emitted := b_emitted b |} s).

Definition tree_result {A} (r : result tree_error A) : result (agent_error E) A :=
  match r with Ok a => Ok a | Err e => Err (AgentTree e) end.

Definition current_lineage : M (L := L) (E := E) (list event) :=
  stored ← read_log;
  s ← get_session;
  tree ← lift (tree_result (fromEvents (JStr (b_sessionId (ss_branch s))) stored));
  match b_tip (ss_branch s) with
  | None => ret []
  | Some tip => lift (tree_result (lineage tree tip))
  end.

Definition append_configuration (operationId : string) (c : ModelRequestConfiguration) s :
    result summary_error unit * session L :=
  match append_raw env (Some operationId) (RequestConfigured c) s with
  | (Ok _, s') => (Ok tt, s')
  | (Err e, s') => (Err (SummaryPortThrew (Some (append_message (L := L) e))), s')
  end.

(** The request the summary is asked with. *)
Definition summary_request (plan : CompactionPlan) (instructions : option string) : model_request :=
  let messages := [MUser [CText (summaryPrompt plan instructions)]] in
  {| mr_estimatedInputTokens := estimateModelInputTokens (Some SUMMARIZATION_SYSTEM_PROMPT) messages [];
     mr_messages := messages |}.

Definition run_summary (operationId : string) (plan : CompactionPlan) (instructions : option string) :
    M (L := L) (E := E) (string * Usage) := λ s,
  if ss_aborted s then (Err (AgentSummary SummaryAborted), s)
  else
    let items := env_stream env (d_streams (ss_draws s)) in
    let s := add_request (summary_request plan instructions) (set_draws (next_stream (ss_draws s)) s) in
    let '(r, aborted, s) := summarizeCompaction (append_configuration operationId) items (ss_aborted s) s in
    (match r with Ok x => Ok x | Err e => Err (AgentSummary e) end, set_aborted aborted s).

Definition plan_or_unavailable (lineage : list event) : result (agent_error E) CompactionPlan :=
  match prepareCompaction lineage (cfg_keepRecentTokens cfg) with
  | Err (PlanReplay e) => Err (AgentReplay e)
  | Err (PlanType m) => Err (AgentType m)
  | Ok None => Err (CompactionUnavailable (ends_compacted lineage))
  | Ok (Some plan) => Ok plan
  end.

Definition compact_body (operationId : string) (instructions : option string) : M (L := L) (E := E) event :=
  lineage ← current_lineage;
  plan ← lift (plan_or_unavailable lineage);
  ' (summary, usage) ← run_summary operationId plan instructions;
  s ← get_session;
  _ ← (if ss_aborted s then throw (AgentSummary SummaryAborted) else ret tt);
  e ← append env (Some operationId) (ContextCompacted summary (plan_replacedEventIds plan) (Some usage));
  messages ← lift (match messagesFromLineage (lineage ++ [e]) with
                   | Ok m => Ok m | Err err => Err (AgentReplay err) end);
  _ ← modify (λ s, set_contextUsage None (set_messages messages s));
  ret e.

Definition compact (customInstructions : option string) (signal : bool) (requested : option string) :
    M (L := L) (E := E) event :=
  let instructions := js_trim <$> customInstructions in
  operationId ← unless_active (
    if bool_decide (instructions = Some "")
    then throw (AgentType "Compaction instructions must not be empty")
    else operation_id env requested);
  _ ← modify (begin_operation operationId signal);
  finally (compact_body operationId instructions) release.

Definition recovered_message : string :=
  "Operation was aborted because the daemon restarted before recording completion.".

Definition abortRecoveredTurn (operationId : string) : M (L := L) (E := E) event :=
  unless_active (append env (Some operationId) (AssistantMessage [] SAborted None (Some recovered_message))).

Definition abortRecoveredDelivery (operationId : string) (items : list content) :
    M (L := L) (E := E) (event * event) :=
  unless_active (
    appended ← appendUserMessage env operationId items [];
    match appended with
    | message :: _ =>
        if bool_decide (payload_type (ev_payload message) = "user.message") then
          terminal ← abortRecoveredTurn operationId;
          ret (message, terminal)
        else throw (AgentFailed "Recovered delivery did not append its user message")
    | [] => throw (AgentFailed "Recovered delivery did not append its user message")
    end).

Definition close (operationId : string) : M (L := L) (E := E) event :=
  unless_active (append env (Some operationId) (SessionClosed CloseDisposed)).

Definition rename (operationId title : string) : M (L := L) (E := E) event := λ s,
  match ss_active s with
  | Some op => (Err (OperationConflict ("Operation " +:+ op +:+ " owns this branch")), s)
  | None => append env (Some operationId) (SessionRenamed title) s
  end.

(** Not guarded: they may run while an operation owns the branch. *)
Definition recordQueueEvent (operationId : string) (p : payload) : M (L := L) (E := E) event :=
  append env (Some operationId) p.
Definition recordInterruptEvent (operationId : string) (p : payload) : M (L := L) (E := E) event :=
  append env (Some operationId) p.
Definition recordSessionError (operationId : string) (p : payload) : M (L := L) (E := E) event :=
  append env (Some operationId) p.

(** *** Opening *)

Definition new_session (log : L) (sessionId : string) (events : list event) (messages : list ModelMessage) :
    session L :=
  {| ss_branch := {| b_log := log; b_sessionId := sessionId; b_tip := ev_id <$> last events; b_emitted := [] |};
     ss_messages := messages; ss_contextUsage := None; ss_active := None;
     ss_queues := {| q_accepting := false; q_steering := []; q_followUp := [] |}; ss_aborted := false;
     ss_draws := {| d_ids := 0; d_streams := 0; d_tools := 0; d_sleeps := 0; d_randoms := 0 |};
     ss_frames := []; ss_requests := [] |}.

Definition positive_setting (name : string) (n : number) : result (agent_error E) unit :=
  require (is_safe_integer n && (1 <=? int_of n)%Z)
    (AgentType ("compaction." +:+ name +:+ " must be a positive safe integer")).

(** The constructor: its checks, and the projection of the lineage. *)
Definition construct (log : L) (sessionId : string) (events : list event) (o : session_options) :
    result (agent_error E) (session L) :=
  (_ ← match opt_retry o with
       | None => Ok tt
       | Some r => match modelRetryPolicy r with Ok _ => Ok tt | Err (type_error m) => Err (AgentType m) end
       end;
   _ ← positive_setting "keepRecentTokens"
         (default (NInt DEFAULT_COMPACTION_KEEP_RECENT_TOKENS) (opt_keepRecentTokens o));
   _ ← positive_setting "maxOutputTokens"
         (default (NInt DEFAULT_COMPACTION_MAX_OUTPUT_TOKENS) (opt_maxOutputTokens o));
   match messagesFromLineage events with
   | Ok messages => Ok (new_session log sessionId events messages)
   | Err e => Err (AgentReplay e)
   end)%result.

Fixpoint each_append (l : list (option string * payload)) : M (L := L) (E := E) unit :=
  match l with
  | [] => ret tt
  | (op, p) :: rest => _ ← append env op p; each_append rest
  end.

Definition cancel_interaction (e : event) : option string * payload :=
  (ev_operationId e,
   InteractionResolved (match ev_payload e with InteractionRequested id _ _ _ _ => id | _ => "" end)
     Cancel None).

Definition restart_details : jsval := JObj [("endedBy", JStr "abort"); ("reason", JStr "daemon_restart")].
Definition restart_text : string :=
  "Tool execution was aborted because the daemon stopped before recording a result.".

(** Answers one open call. *)
Definition answer_open_call (e : event) : M (L := L) (E := E) unit :=
  match ev_payload e with
  | ToolCall callId name _ =>
      stored ← append env (ev_operationId e)
                 (ToolResult callId name [CText restart_text] true (Some restart_details));
      push_message (MTool callId name (stored_content stored) true)
  | _ => ret tt
  end.

Fixpoint answer_open_calls (l : list event) : M (L := L) (E := E) unit :=
  match l with
  | [] => ret tt
  | e :: rest => _ ← answer_open_call e; answer_open_calls rest
  end.

(** The configuration announced at every open. *)
Definition announcements (o : session_options) : list (option string * payload) :=
  let at_boundary (p : payload) := (opt_boundaryOperationId o, p) in
  map (λ t, at_boundary (ToolSchema (td_name t) (td_description t) (td_inputSchema t)))
    (Registry.declarations (cfg_tools cfg))
  ++ option_list (option_map (λ x, let '(p, e, c, d) := x in at_boundary (SandboxConfigured p e c d))
                    (opt_sandbox o))
  ++ option_list (option_map (λ x, at_boundary (ConfigProvider x)) (opt_configProvider o))
  ++ option_list (option_map (λ x, at_boundary (ConfigRequest x)) (opt_configRequest o))
  ++ option_list (option_map (λ x, at_boundary (ConfigModel x)) (opt_configModel o))
  ++ option_list (option_map (λ x, let '(r, e, c) := x in at_boundary (ConfigThinking r e c))
                    (opt_configThinking o))
  ++ option_list (option_map (λ x, at_boundary (ConfigProfile x)) (opt_configProfile o))
  ++ option_list (option_map (λ x, let '(f, w) := x in at_boundary (ConfigTools f w)) (opt_configTools o))
  ++ option_list (option_map (λ x, let '(d, f, r) := x in at_boundary (ConfigDialect d f r))
                    (opt_configDialect o)).

Definition creation (o : session_options) : list (option string * payload) :=
  (opt_creationOperationId o, SessionCreated (opt_cwd o) None None None)
  :: map (λ x, let '(n, src, c) := x in (None, PromptSection n src c)) (opt_sections o).

Definition open_body (o : session_options) (events lineage : list event) : M (L := L) (E := E) unit :=
  _ ← each_append (map cancel_interaction (unansweredInteractions lineage));
  _ ← answer_open_calls (unansweredToolCalls lineage);
  _ ← (match events with [] => each_append (creation o) | _ => ret tt end);
  _ ← each_append (announcements o);
  match opt_activate o with None => ret tt | Some m => throw (AgentThrew (Some m)) end.

(** [open], once the log is open and read.  An error leaves the log as it is
    then, without a session. *)
Definition open_session (o : session_options) (log : L) (sessionId : string) (events : list event) :
    result (agent_error E) (session L) * L :=
  match (tree ← tree_result (fromEvents (JStr sessionId) events);
         _ ← match verifyToolCallIntegrity tree with Ok _ => Ok tt | Err e => Err (AgentIntegrity e) end;
         lineage ← match last events with
                   | None => Ok []
                   | Some e => tree_result (lineage tree (ev_id e))
                   end;
         s ← construct log sessionId lineage o;
         Ok (lineage, s))%result with
  | Err e => (Err e, log)
  | Ok (lineage, s) =>
      match open_body o events lineage s with
      | (Ok _, s') => (Ok s', b_log (ss_branch s'))
      | (Err e, s') => (Err e, b_log (ss_branch s'))
      end
  end.
End Others.

(** ** The public operations *)

Inductive operation :=
| RunTurn (items : list content) (signal : bool) (requested : option string)
| ContinueQueued (signal : bool)
| RunShell (command : string) (excluded signal : bool) (requested : option string)
| Compact (instructions : option string) (signal : bool) (requested : option string)
| InjectContext (source body : string)
| RequestInteraction (p : payload)
| ResolveInteraction (p : payload) (operationId : option string)
| Steer (items : list content)
| FollowUp (items : list content)
| AbortRecoveredTurn (operationId : string)
| AbortRecoveredDelivery (operationId : string) (items : list content)
| Close (operationId : string)
| Rename (operationId title : string)
| RecordEvent (operationId : string) (p : payload).

Definition discard {L E A} (m : M (L := L) (E := E) A) : P (L := L) (E := E) unit :=
  done (bindM m (λ _, ret tt)).

Definition perform {L E} `{EventStore L E} (env : environment) (cfg : settings) (fuel : nat) (o : operation) :
    P (L := L) (E := E) unit :=
  match o with
  | RunTurn items signal requested =>
      bindPP (runTurn env cfg fuel items signal requested) (λ _, done (ret tt))
  | ContinueQueued signal => bindPP (continueQueued env cfg fuel signal) (λ _, done (ret tt))
  | RunShell command excluded signal requested => discard (runShell env cfg command excluded signal requested)
  | Compact instructions signal requested => discard (compact env cfg instructions signal requested)
  | InjectContext source body => discard (injectContext env source body)
  | RequestInteraction p => discard (requestInteraction env p)
  | ResolveInteraction p operationId => discard (resolveInteraction env p operationId)
  | Steer items => discard (steer items)
  | FollowUp items => discard (followUp items)
  | AbortRecoveredTurn operationId => discard (abortRecoveredTurn env operationId)
  | AbortRecoveredDelivery operationId items => discard (abortRecoveredDelivery env operationId items)
  | Close operationId => discard (close env operationId)
  | Rename operationId title => discard (rename env operationId title)
  | RecordEvent operationId p => discard (recordSessionError env operationId p)
  end.
