(* ===== verification/SessionFacts.v ===== *)
(** How the operations of a session change its log.

    [evolves] is the invariant of every step of an operation: the log only grows,
    by a chain of events hanging off the tip.  [reachable] closes the public
    operations over an opened log. *)
From stdpp Require Import base list sets strings pretty.
From Stdlib Require Import ZArith Lia.
From S2P Require Import Prelude Text JsValue Json Envelope Types ModelRequest Events Arith JsMap SessionTree Replay Tools ModelStream Compaction AgentSession.

(** ** Chains *)

(** [l] continues the branch at [parent], one event after the other. *)
Fixpoint chained (sid : string) (parent : option string) (l : list event) : Prop :=
  match l with
  | [] => True
  | e :: l => ev_sessionId e = sid ∧ ev_parentId e = parent ∧ chained sid (Some (ev_id e)) l
  end.

Definition end_of (parent : option string) (l : list event) : option string :=
  match last l with Some e => Some (ev_id e) | None => parent end.

Section Chains.
Context (sid : string).

Lemma end_of_cons p e l : end_of p (e :: l) = end_of (Some (ev_id e)) l.
Proof. unfold end_of. destruct l; simpl; [done|]. by destruct (last (e0 :: l)) eqn:E; [|apply last_None in E]. Qed.

Lemma end_of_app p l1 l2 : end_of p (l1 ++ l2) = end_of (end_of p l1) l2.
Proof.
  revert p; induction l1 as [|e l1 IH]; intros p; [done|].
  rewrite <- app_comm_cons, !end_of_cons. apply IH.
Qed.

Lemma chained_app p l1 l2 : chained sid p (l1 ++ l2) ↔ chained sid p l1 ∧ chained sid (end_of p l1) l2.
Proof.
  revert p; induction l1 as [|e l1 IH]; intros p; simpl; [naive_solver|].
  rewrite end_of_cons, IH. tauto.
Qed.

(** A log grows into a log by a chain of fresh events at its last event. *)
Lemma log_ok_chain log new :
  log_ok sid log → chained sid (ev_id <$> last log) new → NoDup (ev_id <$> log ++ new) →
  log_ok sid (log ++ new).
Proof.
  induction new as [|e new IH] using rev_ind; intros Hlog Hc Hnd; [by rewrite app_nil_r|].
  rewrite app_assoc in Hnd |- *. apply chained_app in Hc as [Hc (Hs & Hp & _)].
  rewrite fmap_app in Hnd. apply NoDup_app in Hnd as (Hnd & Hfresh & _).
  constructor; [by apply IH|]. split; [done| |].
  - intros Hin. apply (Hfresh _ Hin). by left.
  - rewrite Hp. unfold end_of. destruct (last new) as [x|] eqn:El.
    + apply list_elem_of_fmap. exists x. split; [done|]. apply elem_of_app. right.
      apply last_Some in El as [l' ->]. apply elem_of_app. right. by left.
    + apply last_None in El as ->. rewrite app_nil_r. destruct (last log) as [x|] eqn:El; simpl.
      * apply list_elem_of_fmap. exists x. split; [done|].
        apply last_Some in El as [l' ->]. apply elem_of_app. right. by left.
      * by apply last_None in El.
Qed.

Lemma path_to_app log new id path : path_to log id path → path_to (log ++ new) id path.
Proof.
  induction 1 as [e He Hp|e p l He Hp _ IH].
  - apply path_root; [apply elem_of_app; by left | done].
  - eapply path_step; [apply elem_of_app; by left | done | done].
Qed.

(** The lineage of the new tip is the old one and the chain. *)
Lemma path_to_chain log new id path :
  path_to log id path → chained sid (Some id) new → 
  match end_of (Some id) new with Some id' => path_to (log ++ new) id' (path ++ new) | None => False end.
Proof.
  induction new as [|e new IH] using rev_ind; intros Hpath Hc.
  - rewrite !app_nil_r. done.
  - apply chained_app in Hc as [Hc (Hs & Hp & _)]. rewrite end_of_app.
    specialize (IH Hpath Hc). destruct (end_of (Some id) new) as [q|]; [|done]. simpl.
    rewrite !app_assoc. eapply path_step; [apply elem_of_app; right; by left | done | by apply path_to_app].
Qed.

Lemma path_to_chain_root new :
  chained sid None new → ∀ id, end_of None new = Some id → path_to new id new.
Proof.
  destruct new as [|e new]; [done|]. simpl. intros (Hs & Hp & Hc) id. rewrite end_of_cons. intros Hid.
  pose proof (path_to_chain [e] new (ev_id e) [e]) as H. rewrite Hid in H. apply H; [|done].
  apply path_root; [by left | done].
Qed.
End Chains.

(** ** Computations that change a session along a relation *)

Definition preserving {L E A} (R : relation (session L)) (m : M (L := L) (E := E) A) : Prop :=
  ∀ s r s', m s = (r, s') → R s s'.
Definition preservingP {L E A} (R : relation (session L)) (m : P (L := L) (E := E) A) : Prop :=
  ∀ s r s', m s = Some (r, s') → R s s'.

Section Preserving.
Context {L E : Type} (R : relation (session L)) `{!PreOrder R}.
#[local] Abbreviation M := (M (L := L) (E := E)).
#[local] Abbreviation P := (P (L := L) (E := E)).
#[local] Abbreviation keeps := (preserving (E := E) R).
#[local] Abbreviation keepsP := (preservingP (E := E) R).

Lemma preserving_ret {A} (a : A) : keeps (ret a).
Proof. intros s r s' [= _ <-]. reflexivity. Qed.
Lemma preserving_throw {A} e : keeps (throw (A := A) e).
Proof. intros s r s' [= _ <-]. reflexivity. Qed.
Lemma preserving_lift {A} (r : result _ A) : keeps (lift r).
Proof. intros s r' s' [= _ <-]. reflexivity. Qed.
Lemma preserving_get : keeps get_session.
Proof. intros s r' s' [= _ <-]. reflexivity. Qed.
Lemma preserving_bind {A B} (m : M A) (k : A → M B) :
  keeps m → (∀ a, keeps (k a)) → keeps (bindM m k).
Proof.
  intros Hm Hk s r s'. unfold bindM. destruct (m s) as [[a|e] s1] eqn:E1.
  - intros E2. transitivity s1; [by eapply Hm | by eapply Hk].
  - intros [= _ <-]. by eapply Hm.
Qed.
Lemma preserving_modify f : (∀ s, R s (f s)) → keeps (modify f).
Proof. intros Hf s r s' [= _ <-]. apply Hf. Qed.
Lemma preserving_finally {A} (m : M A) f :
  keeps m → (∀ s, R s (f s)) → keeps (finally m f).
Proof.
  intros Hm Hf s r s'. unfold finally. destruct (m s) as [r1 s1] eqn:E1. intros [= _ <-].
  transitivity s1; [by eapply Hm | apply Hf].
Qed.
Lemma preserving_unless {A} (m : M A) : keeps m → keeps (unless_active m).
Proof.
  intros Hm s r s'. unfold unless_active. destruct (ss_active s); [|apply Hm].
  intros [= _ <-]. reflexivity.
Qed.

Lemma preservingP_bind {A B} (m : M A) (k : A → P B) :
  keeps m → (∀ a, keepsP (k a)) → keepsP (bindP m k).
Proof.
  intros Hm Hk s r s'. unfold bindP. destruct (m s) as [[a|e] s1] eqn:E1.
  - intros E2. transitivity s1; [by eapply Hm | by eapply Hk].
  - intros [= _ <-]. by eapply Hm.
Qed.
Lemma preservingP_bindP {A B} (m : P A) (k : A → P B) :
  keepsP m → (∀ a, keepsP (k a)) → keepsP (bindPP m k).
Proof.
  intros Hm Hk s r s'. unfold bindPP. destruct (m s) as [[[a|e] s1]|] eqn:E1; [| |done].
  - intros E2. transitivity s1; [by eapply Hm | by eapply Hk].
  - intros [= _ <-]. by eapply Hm.
Qed.
Lemma preservingP_done {A} (m : M A) : keeps m → keepsP (done m).
Proof. intros Hm s r s' [= E1]. by eapply Hm. Qed.
Lemma preservingP_finally {A} (m : P A) f :
  keepsP m → (∀ s, R s (f s)) → keepsP (finallyP m f).
Proof.
  intros Hm Hf s r s'. unfold finallyP. destruct (m s) as [[r1 s1]|] eqn:E1; [|done]. intros [= _ <-].
  transitivity s1; [by eapply Hm | apply Hf].
Qed.

Lemma preserving_by_active {A} (m1 : string → M A) (m2 : M A) :
  (∀ op, keeps (m1 op)) → keeps m2 →
  keeps (λ s, match ss_active s with Some op => m1 op s | None => m2 s end).
Proof. intros H1 H2 s r s'. destruct (ss_active s); [apply H1 | apply H2]. Qed.
Lemma preservingP_discard {A} (m : M A) : keeps m → keepsP (discard m).
Proof.
  intros Hm. unfold discard. apply preservingP_done, preserving_bind; [done|]. intros ?. apply preserving_ret.
Qed.
End Preserving.

Create HintDb evolving.
#[export] Hint Resolve preserving_ret preserving_throw preserving_lift preserving_get preserving_bind
  preserving_modify preserving_finally preserving_unless preservingP_bind preservingP_bindP preservingP_done
  preservingP_finally : evolving.

(** ** Evolution of a session *)

Definition log_events {L E} `{EventStore L E} (s : session L) : list event :=
  store_events (b_log (ss_branch s)).

(** What one step, or any sequence of steps, does to the branch. *)
Record evolves {L E} `{EventStore L E} (env : environment) (s s' : session L) : Prop := {
  evo_session : b_sessionId (ss_branch s') = b_sessionId (ss_branch s);
  evo_ids : d_ids (ss_draws s) ≤ d_ids (ss_draws s');
  evo_new : ∃ new ns,
    log_events s' = log_events s ++ new ∧
    b_emitted (ss_branch s') = b_emitted (ss_branch s) ++ new ∧
    chained (b_sessionId (ss_branch s)) (b_tip (ss_branch s)) new ∧
    b_tip (ss_branch s') = end_of (b_tip (ss_branch s)) new ∧
    ev_id <$> new = env_fresh env <$> ns ∧ NoDup ns ∧
    Forall (λ n, d_ids (ss_draws s) ≤ n < d_ids (ss_draws s')) ns
}.

Section Evolution.
Context {L E : Type} `{EventStoreLaws L E} (env : environment) (cfg : settings).
Implicit Types s : session L.

Lemma evolves_same s s' :
  log_events s' = log_events s → b_emitted (ss_branch s') = b_emitted (ss_branch s) →
  b_sessionId (ss_branch s') = b_sessionId (ss_branch s) → b_tip (ss_branch s') = b_tip (ss_branch s) →
  d_ids (ss_draws s) ≤ d_ids (ss_draws s') → evolves env s s'.
Proof.
  intros He Hm Hs Ht Hd. split; [done..|]. exists [], [].
  rewrite !app_nil_r. split_and!; try done. constructor.
Qed.

#[local] Instance evolves_refl : Reflexive (evolves env).
Proof. intros s. by apply evolves_same. Qed.

#[local] Instance evolves_trans : Transitive (evolves env).
Proof.
  intros s1 s2 s3 [Hs1 Hd1 (n1 & ns1 & Hl1 & Hm1 & Hc1 & Ht1 & Hi1 & Hn1 & Hf1)]
    [Hs2 Hd2 (n2 & ns2 & Hl2 & Hm2 & Hc2 & Ht2 & Hi2 & Hn2 & Hf2)].
  split; [congruence | lia |]. exists (n1 ++ n2), (ns1 ++ ns2). split_and!.
  - by rewrite Hl2, Hl1, app_assoc.
  - by rewrite Hm2, Hm1, app_assoc.
  - apply chained_app. split; [done|]. by rewrite <- Ht1, <- Hs1.
  - by rewrite Ht2, Ht1, end_of_app.
  - by rewrite !fmap_app, Hi1, Hi2.
  - apply NoDup_app. split_and!; [done| |done]. rewrite Forall_forall in Hf1, Hf2.
    intros n H1n H2n. specialize (Hf1 n H1n). specialize (Hf2 n H2n). lia.
  - apply Forall_app. split; (eapply Forall_impl; [done|]); simpl; lia.
Qed.

#[export] Instance evolves_preorder : PreOrder (evolves env).
Proof. split; apply _. Qed.

Lemma evolves_clients l s : evolves env s (apply_clients l s).
Proof.
  revert s; induction l as [|a l IH]; intros s; simpl; [reflexivity|].
  transitivity (apply_client a s); [|apply IH].
  destruct a; simpl; try (case_match); by apply evolves_same.
Qed.

(** The one step that touches the log. *)
Lemma append_raw_evolves operationId p s r s' :
  append_raw env operationId p s = (r, s') → evolves env s s'.
Proof.
  unfold append_raw. destruct (parseEvent _) as [x|err]; [|intros [= _ <-]; apply evolves_same; simpl; auto].
  destruct (store_append _ _) as [[stored|err] l] eqn:Es; intros [= _ <-].
  - apply store_append_Ok in Es as [Hl [Hid Hsid _ Hpar _]]. split; simpl; [done | lia |].
    exists [stored], [d_ids (ss_draws s)]. unfold log_events. simpl. split_and!; try done.
    + by rewrite Hid.
    + apply NoDup_singleton.
    + apply Forall_singleton. lia.
  - apply store_append_Err in Es. apply evolves_same; simpl; auto.
Qed.

Lemma evolving_append operationId p : preserving (evolves env) (append env operationId p).
Proof.
  intros s r s'. unfold append. destruct (append_raw _ _ _ _) as [[e|[]] s1] eqn:E1; intros [= _ <-];
    by eapply append_raw_evolves.
Qed.
End Evolution.

Ltac evolves_same := solve [apply evolves_same; simpl; auto with arith].
#[export] Hint Extern 1 (evolves _ _ _) => evolves_same : evolving.
#[export] Hint Resolve evolving_append evolves_clients : evolving.

(** Follows the structure of a computation. *)
Ltac evolve :=
  repeat (intros; match goal with
    | |- preserving _ (match ?x with _ => _ end) => destruct x
    | |- preservingP _ (match ?x with _ => _ end) => destruct x
    | |- preserving _ (bindM _ _) => apply preserving_bind
    | |- preservingP _ (bindP _ _) => apply preservingP_bind
    | |- preservingP _ (bindPP _ _) => apply preservingP_bindP
    | |- preserving _ (finally _ _) => apply preserving_finally
    | |- preserving _ (unless_active _) => apply preserving_unless
    | |- _ => solve [eauto with evolving typeclass_instances nocore]
    end).

Section MethodsEvolve.
Context {L E : Type} `{EventStoreLaws L E} (env : environment) (cfg : settings).
Implicit Types s : session L.

#[local] Abbreviation evolving := (preserving (E := E) (evolves env)).
#[local] Abbreviation evolvingP := (preservingP (E := E) (evolves env)).

Lemma evolving_push_message m : evolving (push_message m).
Proof. unfold push_message. evolve. Qed.

Lemma evolving_appendUserMessage op items l : evolving (appendUserMessage env op items l).
Proof. unfold appendUserMessage, push_message. evolve. Qed.
Hint Resolve evolving_push_message evolving_appendUserMessage : evolving.

Lemma evolving_appendNextQueuedMessage w op l : evolving (appendNextQueuedMessage env w op l).
Proof. unfold appendNextQueuedMessage. evolve. Qed.

Lemma attempt_loop_evolves op items a s a' t s' :
  attempt_loop env op items a s = (a', t, s') → evolves env s s'.
Proof.
  revert a s; induction items as [|i items IH]; intros a s; cbn [attempt_loop].
  - intros [= _ _ <-]. reflexivity.
  - destruct i as [e|c|m|c].
    + destruct e; cbn [terminal_of]; first [by intros [= _ _ <-] | intros H'; apply IH in H'];
        try done; (etransitivity; [|exact H']); evolves_same.
    + destruct (append_raw _ _ _ _) as [[e|err] s1] eqn:E1; apply append_raw_evolves in E1.
      * intros H'; apply IH in H'. by etransitivity.
      * by intros [= _ _ <-].
    + by intros [= _ _ <-].
    + intros H'; apply IH in H'. etransitivity; [|exact H'].
      apply (evolves_clients env [c]).
Qed.

Lemma modelAttempt_evolves op n l s o n' l' s' :
  modelAttempt env cfg op n l s = (o, n', l', s') → evolves env s s'.
Proof.
  unfold modelAttempt. destruct (attempt_loop _ _ _ _ _) as [[a t] s1] eqn:E1. intros [= _ _ _ <-].
  apply attempt_loop_evolves in E1. etransitivity; [|exact E1]. evolves_same.
Qed.

Lemma evolving_announce_retry op n d err retry : evolving (announce_retry env op n d err retry).
Proof. unfold announce_retry. evolve. Qed.
Hint Resolve evolving_announce_retry evolving_appendNextQueuedMessage : evolving.

Lemma evolvingP_retry_loop fuel attempt op n l : evolvingP (retry_loop env cfg fuel attempt op n l).
Proof.
  revert attempt n l; induction fuel as [|fuel IH]; intros attempt n l s r s'; [done|].
  cbn [retry_loop]. destruct (modelAttempt env cfg op n l s) as [[[o n1] l1] s1] eqn:E1.
  apply modelAttempt_evolves in E1.
  assert (∀ x, Some (Ok (o, n1, l1), s1) = Some (r, x) → evolves env s x) as Hend.
  { intros x [= _ <-]. done. }
  destruct (attempt_final cfg attempt o); [by intros ?%Hend|].
  destruct (cfg_retry cfg) as [retry|]; [|by intros ?%Hend].
  destruct (to_error o) as [error|]; [|by intros ?%Hend]. clear Hend.
  intros H2. etransitivity; [exact E1|].
  transitivity (if retry_after error then s1 else set_draws (next_random (ss_draws s1)) s1);
    [destruct (retry_after error); [reflexivity | evolves_same]|].
  revert H2. apply (preservingP_bind (evolves env)); [eauto with evolving|].
  clear -IH. intros e s r s'. destruct (env_sleep _ _) as [clients outcome].
  assert (evolves env s (apply_clients clients (set_draws (next_sleep (ss_draws s)) s))) as E2.
  { etransitivity; [|apply evolves_clients]. evolves_same. }
  destruct (ss_aborted _); [by intros [= _ <-]|].
  destruct outcome; [|by intros [= _ <-]]. intros H'%IH. by etransitivity.
Qed.

Lemma evolvingP_modelTurn op n l : evolvingP (modelTurn env cfg op n l).
Proof.
  intros s r s'. unfold modelTurn. destruct (ss_aborted s); [|apply evolvingP_retry_loop].
  intros [= _ <-]. reflexivity.
Qed.

Lemma evolving_execute_tool : evolving (execute_tool env).
Proof.
  intros s r s'. unfold execute_tool. destruct (env_tool _ _) as [clients outcome]. intros [= _ <-].
  etransitivity; [|apply evolves_clients]. evolves_same.
Qed.
Hint Resolve evolvingP_modelTurn evolving_execute_tool : evolving.

Lemma evolving_executeTool call : evolving (executeTool env cfg call).
Proof. unfold executeTool. evolve. Qed.
Hint Resolve evolving_executeTool : evolving.

Lemma evolving_execute_call op call l : evolving (execute_call env cfg op call l).
Proof. unfold execute_call. evolve. Qed.
Hint Resolve evolving_execute_call : evolving.

Lemma evolving_executeToolCalls op calls l : evolving (executeToolCalls env cfg op calls l).
Proof. revert l; induction calls; intros l; cbn [executeToolCalls]; evolve. Qed.
Hint Resolve evolving_executeToolCalls : evolving.

Lemma evolving_record_assistant op n o l : evolving (record_assistant env op n o l).
Proof. unfold record_assistant. evolve. Qed.
Lemma evolving_note_usage o : evolving (note_usage (E := E) o).
Proof.
  unfold note_usage. apply preserving_modify. intros s. destruct (to_usage o); [case_match|]; evolves_same.
Qed.
Lemma evolving_drain_queues op stop l : evolving (drain_queues env op stop l).
Proof. unfold drain_queues. evolve. Qed.
Hint Resolve evolving_record_assistant evolving_note_usage evolving_drain_queues : evolving.

Lemma evolving_after_model op n o l : evolving (after_model env cfg op n o l).
Proof. unfold after_model. evolve. Qed.
Hint Resolve evolving_after_model : evolving.

Lemma evolvingP_turn_loop fuel op n l : evolvingP (turn_loop env cfg fuel op n l).
Proof. revert n l; induction fuel; intros n l; cbn [turn_loop]; [done|]. evolve. Qed.

Lemma evolving_operation_id requested : evolving (operation_id env requested).
Proof.
  intros s r s'. unfold operation_id. destruct requested; [intros [= _ <-]; reflexivity|].
  destruct (parseOperationId _ _); intros [= _ <-]; evolves_same.
Qed.
Hint Resolve evolving_operation_id evolvingP_turn_loop : evolving.

Lemma evolvingP_runTurn fuel items signal requested : evolvingP (runTurn env cfg fuel items signal requested).
Proof. unfold runTurn, turn_body. evolve. Qed.

Lemma evolvingP_continueQueued fuel signal : evolvingP (continueQueued env cfg fuel signal).
Proof.
  intros s r s'. unfold continueQueued. destruct (queue_of _ _); [intros [= _ <-]; reflexivity|].
  intros H'. eapply (preservingP_bindP (evolves env)) in H'; [|apply evolvingP_runTurn | evolve].
  etransitivity; [|exact H']. evolves_same.
Qed.

Lemma evolving_read_log : evolving read_log.
Proof.
  intros s r s'. unfold read_log. destruct (store_read _) as [r1 l] eqn:E1. intros [= _ <-].
  apply store_read_same in E1. by apply evolves_same.
Qed.

Lemma summary_loop_evolves op items aborted s text r aborted' s' :
  summary_loop (append_configuration env op) items aborted s text = (r, aborted', s') → evolves env s s'.
Proof.
  revert aborted s text; induction items as [|i items IH]; intros aborted s text; cbn [summary_loop].
  - intros [= _ _ <-]. reflexivity.
  - destruct i as [e|c|m|c].
    + destruct e; try apply IH; try case_match; intros [= _ _ <-]; reflexivity.
    + unfold append_configuration at 1. destruct (append_raw _ _ _ _) as [[e|err] s1] eqn:E1;
        apply append_raw_evolves in E1.
      * intros H'%IH. by etransitivity.
      * by intros [= _ _ <-].
    + by intros [= _ _ <-].
    + destruct c; apply IH.
Qed.

Lemma evolving_run_summary op plan instructions : evolving (run_summary env op plan instructions).
Proof.
  intros s r s'. unfold run_summary. destruct (ss_aborted s); [intros [= _ <-]; reflexivity|].
  destruct (summarizeCompaction _ _ _ _) as [[r1 aborted] s1] eqn:E1. intros [= _ <-].
  assert (evolves env s s1) as E2; [|etransitivity; [exact E2 | evolves_same]].
  unfold summarizeCompaction in E1. cbn in E1. destruct (ss_aborted s); [injection E1 as _ _ <-; evolves_same|].
  destruct (summary_loop _ _ _ _ _) as [[r2 a2] s2] eqn:E2. apply summary_loop_evolves in E2.
  assert (s1 = s2) as ->. { repeat case_match; by simplify_eq. }
  etransitivity; [|exact E2]. evolves_same.
Qed.
Hint Resolve evolving_read_log evolving_run_summary : evolving.

Lemma evolving_compact c signal requested : evolving (compact env cfg c signal requested).
Proof. unfold compact, compact_body, current_lineage, release. evolve. Qed.

Lemma evolving_runShell command excluded signal requested :
  evolving (runShell env cfg command excluded signal requested).
Proof. unfold runShell, run_shell_body, release. evolve. Qed.

End MethodsEvolve.

Section OperationsEvolve.
Context {L E : Type} `{EventStoreLaws L E} (env : environment) (cfg : settings).
Implicit Types s : session L.

#[local] Abbreviation evolving := (preserving (E := E) (evolves env)).
#[local] Abbreviation evolvingP := (preservingP (E := E) (evolves env)).
#[local] Hint Resolve evolving_push_message evolving_appendUserMessage evolvingP_runTurn
  evolvingP_continueQueued evolving_runShell evolving_compact : evolving.

Lemma evolving_injectContext source body : evolving (injectContext env source body).
Proof.
  apply (preserving_by_active (evolves env) (λ op, throw _)); evolve.
Qed.

Lemma evolving_abortRecoveredTurn op : evolving (abortRecoveredTurn env op).
Proof. unfold abortRecoveredTurn. evolve. Qed.
Hint Resolve evolving_abortRecoveredTurn evolving_injectContext : evolving.

Lemma evolving_abortRecoveredDelivery op items : evolving (abortRecoveredDelivery env op items).
Proof. unfold abortRecoveredDelivery. evolve. Qed.

Lemma evolving_push_queue w items : evolving (λ s, (Ok tt, push_queue w items s)).
Proof. intros s r s' [= _ <-]. destruct w; evolves_same. Qed.
Hint Resolve evolving_abortRecoveredDelivery : evolving.

Lemma evolvingP_perform fuel o : evolvingP (perform env cfg fuel o).
Proof.
  destruct o; cbn [perform]; try solve [evolve]; apply preservingP_discard; try solve [evolve].
  - apply (preserving_by_active (evolves env) (λ op, append env _ _) (throw _)); evolve.
  - apply (preserving_by_active (evolves env) (λ op, append env _ _) (throw _)); evolve.
  - intros s r s'. unfold steer. case_match; [intros [= _ <-]; reflexivity | apply evolving_push_queue].
  - intros s r s'. unfold followUp. case_match; [intros [= _ <-]; reflexivity | apply evolving_push_queue].
  - apply (preserving_by_active (evolves env) (λ op, throw _)); evolve.
Qed.

Lemma evolving_each_append l : evolving (each_append env l).
Proof. induction l as [|[op p] l IH]; cbn [each_append]; evolve. Qed.
Hint Resolve evolving_each_append : evolving.

Lemma evolving_answer_open_calls l : evolving (answer_open_calls env l).
Proof. induction l as [|e l IH]; cbn [answer_open_calls]; unfold answer_open_call; evolve. Qed.
Hint Resolve evolving_answer_open_calls : evolving.

Lemma evolving_open_body o events lineage : evolving (open_body env cfg o events lineage).
Proof. unfold open_body. evolve. Qed.
End OperationsEvolve.

(** ** Reachable sessions *)

Section Reachable.
Context {L E : Type} `{EventStoreLaws L E} (env : environment) (cfg : settings).
Implicit Types s : session L.

(** A session obtained by opening a log and running operations one after the
    other, whether they return or throw. *)
Inductive reachable : session L → Prop :=
| reachable_open o log sid s log' :
    (∀ n, env_fresh env n ∉ ev_id <$> store_events log) →
    open_session env cfg o log sid (store_events log) = (Ok s, log') → reachable s
| reachable_step s fuel o r s' :
    reachable s → perform env cfg fuel o s = Some (r, s') → reachable s'.

Record live s : Prop := {
  live_log : log_ok (b_sessionId (ss_branch s)) (log_events s);
  live_uuid : is_uuid (b_sessionId (ss_branch s)) = true;
  live_tip : b_tip (ss_branch s) = ev_id <$> last (log_events s);
  live_fresh : ∀ n, d_ids (ss_draws s) ≤ n → env_fresh env n ∉ ev_id <$> log_events s
}.

Lemma live_evolves s s' : Inj (=) (=) (env_fresh env) → live s → evolves env s s' → live s'.
Proof.
  intros Hinj [Hlog Hu Htip Hfresh] [Hs Hd (new & ns & Hl & _ & Hc & Ht & Hi & Hn & Hf)].
  rewrite Forall_forall in Hf.
  assert (∀ n, env_fresh env n ∈ ev_id <$> new → n ∈ ns) as Hnew.
  { intros n. rewrite Hi. intros (m & Hm & Hin)%list_elem_of_fmap. apply Hinj in Hm. by subst. }
  split.
  - rewrite Hs, Hl. apply log_ok_chain; [done | by rewrite <- Htip |].
    rewrite fmap_app. apply NoDup_app. split_and!.
    + by apply log_ids in Hlog.
    + intros x Hx. rewrite Hi. intros (m & -> & Hin)%list_elem_of_fmap.
      apply (Hfresh m); [apply Hf in Hin; lia | done].
    + rewrite Hi. by apply NoDup_fmap_2.
  - by rewrite Hs.
  - rewrite Ht, Hl. unfold end_of. destruct (last new) as [e|] eqn:El.
    + apply last_Some in El as [l' ->]. by rewrite app_assoc, last_snoc.
    + apply last_None in El as ->. by rewrite app_nil_r.
  - intros n Hle. rewrite Hl, fmap_app, not_elem_of_app. split; [apply Hfresh; lia|].
    intros Hin%Hnew%Hf. lia.
Qed.

Lemma construct_Ok log sid lineage o s :
  construct (E := E) log sid lineage o = Ok s → s = new_session log sid lineage (ss_messages s) ∧
    messagesFromLineage lineage = Ok (ss_messages s).
Proof.
  unfold construct. intros H'. do 3 apply bind_Ok in H' as (? & _ & H').
  destruct (messagesFromLineage lineage); [|done]. injection H' as <-. done.
Qed.

(** What [open_session] does before it appends. *)
Lemma open_session_Ok o log sid events s log' :
  open_session env cfg o log sid events = (Ok s, log') →
  is_uuid sid = true ∧ log_ok sid events ∧ verifyToolCallIntegrity (tree_of sid events) = Ok tt ∧
  ∃ lineage s0, (match last events with None => lineage = [] | Some e => path_to events (ev_id e) lineage end) ∧
    construct (E := E) log sid lineage o = Ok s0 ∧ open_body env cfg o events lineage s0 = (Ok tt, s).
Proof.
  unfold open_session. destruct (rbind _ _) as [[lineage s0]|] eqn:E1; [|done]. intros H'.
  apply bind_Ok in E1 as (t & E1 & E2). unfold tree_result in E1.
  destruct (fromEvents (JStr sid) events) as [t'|] eqn:Et; [|done]. injection E1 as <-.
  apply fromEvents_Ok in Et as (? & [= <-] & Hu & Hlog & ->).
  apply bind_Ok in E2 as (u & E2 & E3). apply bind_Ok in E3 as (lineage' & E3 & E4).
  apply bind_Ok in E4 as (s0' & E4 & [= <- <-]).
  destruct (open_body _ _ _ _ _ _) as [[[]|] s1] eqn:E5; [|done]. injection H' as <- _.
  split_and!; [done|done| |].
  - destruct (verifyToolCallIntegrity _) as [[]|]; [done|]. by destruct u.
  - exists lineage', s0'. split_and!; [|done|done]. destruct (last events) as [e|]; [|by injection E3].
    unfold tree_result in E3. destruct (lineage _ _) eqn:El; [|done]. injection E3 as <-.
    by apply lineage_iff in El.
Qed.

(** The session before the appends of [open_session] has its tip at the end of the log. *)
Lemma new_session_live log sid lineage messages :
  is_uuid sid = true → log_ok sid (store_events log) →
  (match last (store_events log) with None => lineage = [] | Some e => path_to (store_events log) (ev_id e) lineage end) →
  (∀ n, env_fresh env n ∉ ev_id <$> store_events log) →
  live (new_session log sid lineage messages).
Proof.
  intros Hu Hlog Hl Hf. split; unfold log_events; simpl; [done..| |auto].
  destruct (last (store_events log)); simpl; [|by subst].
  apply path_to_last in Hl as (l & e' & -> & <- & _). by rewrite last_snoc.
Qed.

Lemma reachable_live s : Inj (=) (=) (env_fresh env) → reachable s → live s.
Proof.
  intros Hinj. induction 1 as [o log sid s log' Hf Ho|s fuel o r s' _ IH Hp].
  - apply open_session_Ok in Ho as (Hu & Hlog & _ & lineage & s0 & Hl & Hc & Hb).
    apply construct_Ok in Hc as [Hs0 _].
    apply (live_evolves s0); [done | rewrite Hs0; by eapply new_session_live | by eapply evolving_open_body].
  - eapply live_evolves; [done..|]. by eapply evolvingP_perform.
Qed.
End Reachable.

(** The lineage of the tip. *)
Definition tip_lineage {L E} `{EventStore L E} (s : session L) (path : list event) : Prop :=
  match b_tip (ss_branch s) with
  | None => log_events s = [] ∧ path = []
  | Some tip => path_to (log_events s) tip path
  end.

Lemma evolves_lineage {L E} `{EventStore L E} env (s s' : session L) new path :
  evolves env s s' → log_events s' = log_events s ++ new → tip_lineage s path → tip_lineage s' (path ++ new).
Proof.
  intros [_ _ (new' & ns & Hl & Hm & Hc & Ht & _)] Hl'. rewrite Hl in Hl'. apply app_inv_head in Hl' as ->.
  unfold tip_lineage. rewrite Hl, Ht. destruct (b_tip (ss_branch s)) as [id|].
  - intros Hpath. pose proof (path_to_chain _ _ _ _ _ Hpath Hc). by destruct (end_of _ _).
  - intros [-> ->]. simpl. destruct (end_of None new) as [id|] eqn:Ee.
    + by eapply path_to_chain_root.
    + unfold end_of in Ee. destruct (last new) eqn:El; [done|]. by apply last_None in El.
Qed.

(** A log in memory that keeps events as they are. *)
#[export] Instance memory_log : EventStore (list event) unit := {|
  store_append e l := (Ok e, l ++ [e]);
  store_read l := (Ok l, l);
  store_events l := l;
  store_message _ := ""
|}.
#[export] Instance memory_log_laws : EventStoreLaws (list event) unit.
Proof. split; simpl; intros; by simplify_eq. Qed.

Definition sample_sid : string := "01234567-89ab-4def-8123-456789abcdef".
Definition sample_fresh (n : nat) : string :=
  if n <? 10 then "01234567-89ab-4def-8123-45678900000" +:+ pretty n else "x" +:+ pretty n.
#[export] Instance sample_fresh_inj : Inj (=) (=) sample_fresh.
Proof.
  intros n m. unfold sample_fresh. destruct (n <? 10), (m <? 10); intros Heq; try done;
    by repeat (simplify_eq/=).
Qed.

Definition sample_usage : Usage :=
  {| usage_inputTokens := 7; usage_outputTokens := 5; usage_cacheReadTokens := 0; usage_cacheWriteTokens := 0;
     usage_reasoningTokens := None; usage_costUsd := None |}.

(** A model that answers the first request, and fails the others. *)
Definition sample_environment (streams : list (list stream_item)) : environment := {|
  env_fresh := sample_fresh;
  env_now := Z.of_nat;
  env_stream n := default [Throws None] (streams !! n);
  env_tool n := ([], ToolReturned {| ter_content := [CText "done"]; ter_isError := false; ter_details := None |});
  env_sleep n := ([], Slept);
  env_random n := NInt 0
|}.

Definition sample_options : session_options :=
  {| opt_cwd := "/work"; opt_sections := []; opt_sandbox := None; opt_configProvider := None;
     opt_configRequest := None; opt_configModel := None; opt_configThinking := None;
     opt_configProfile := None; opt_configTools := None; opt_configDialect := None;
     opt_creationOperationId := None; opt_boundaryOperationId := None; opt_retry := None;
     opt_keepRecentTokens := None; opt_maxOutputTokens := None; opt_activate := None |}.

Definition sample_settings (tools : ToolRegistry) : settings :=
  {| cfg_system := None; cfg_tools := tools; cfg_retry := Some DEFAULT_MODEL_RETRY_POLICY;
     cfg_keepRecentTokens := NInt 20000 |}.

Definition sample_stream : list stream_item := [Yield (TextDelta "hello" None); Yield (Completed SStop sample_usage None None [])].

Definition sample_session (streams : list (list stream_item)) (tools : ToolRegistry) :
    result (agent_error unit) (session (list event)) :=
  (open_session (sample_environment streams) (sample_settings tools) sample_options [] sample_sid []).1.

Lemma sample_session_reachable streams tools s :
  sample_session streams tools = Ok s → reachable (sample_environment streams) (sample_settings tools) s.
Proof.
  unfold sample_session. destruct (open_session _ _ _ _ _ _) as [r log'] eqn:E1. simpl. intros ->.
  eapply (reachable_open _ _ sample_options []); [|exact E1]. intros n. apply not_elem_of_nil.
Qed.

(** C1: every session that opening a log and running operations can reach, with
    returns, throws and aborts in any place, has a log that the session tree
    accepts, and its tip is the last event of that log. *)
Theorem session_log_well_formed {L E} `{EventStoreLaws L E} env cfg (s : session L) :
  Inj (=) (=) (env_fresh env) → reachable env cfg s →
  is_ok (fromEvents (JStr (b_sessionId (ss_branch s))) (log_events s)) = true ∧
  b_tip (ss_branch s) = ev_id <$> last (log_events s).
Proof.
  intros Hinj [Hlog Hu Htip _]%reachable_live; [|done]. split; [|done].
  apply is_ok_true. eexists. apply fromEvents_Ok. eauto.
Qed.

Lemma session_log_well_formed_witness :
  ∃ s, sample_session [] [] = Ok s ∧
    is_ok (fromEvents (JStr (b_sessionId (ss_branch s))) (log_events s)) = true ∧
    b_tip (ss_branch s) = ev_id <$> last (log_events s).
Proof.
  eexists. split; [vm_compute; reflexivity|].
  apply (session_log_well_formed (sample_environment []) (sample_settings [])); [apply _|].
  apply sample_session_reachable. vm_compute. reflexivity.
Defined.

(** an operation only adds to the branch, whether it returns or throws: the
    events before it stay, what it appends is what clients are shown, in order,
    and the lineage of the new tip is the old lineage followed by it. *)
Theorem operation_extends_lineage {L E} `{EventStoreLaws L E} env cfg (s s' : session L) fuel o r :
  perform env cfg fuel o s = Some (r, s') →
  ∃ new, log_events s' = log_events s ++ new ∧
    b_emitted (ss_branch s') = b_emitted (ss_branch s) ++ new ∧
    ∀ path, tip_lineage s path → tip_lineage s' (path ++ new).
Proof.
  intros H1%evolvingP_perform. pose proof H1 as [_ _ (new & ns & Hl & Hm & _)]. exists new.
  split_and!; [done..|]. intros path. by apply (evolves_lineage env).
Qed.

Lemma operation_extends_lineage_witness :
  ∃ s r s', sample_session [sample_stream] [] = Ok s ∧
    perform (sample_environment [sample_stream]) (sample_settings []) 5 (RunTurn [CText "hi"] false None) s
      = Some (r, s') ∧ length (log_events s') = 3 ∧
    ∃ new, log_events s' = log_events s ++ new ∧
      b_emitted (ss_branch s') = b_emitted (ss_branch s) ++ new ∧
      ∀ path, tip_lineage s path → tip_lineage s' (path ++ new).
Proof.
  do 3 eexists. split; [vm_compute; reflexivity|]. split; [vm_compute; reflexivity|].
  split; [vm_compute; reflexivity|].
  apply (operation_extends_lineage (sample_environment [sample_stream]) (sample_settings []) _ _ 5
    (RunTurn [CText "hi"] false None) (Ok tt)).
  vm_compute. reflexivity.
Defined.
