(* ===== verification/SessionRetry.v ===== *)
(** The retry loop of the model turn: its bound, its delays, and what may be
    retried. *)
From stdpp Require Import base list sets strings pretty.
From Stdlib Require Import ZArith Lia.
From S2P Require Import Prelude Text JsValue Json Envelope Types ModelRequest Events Arith JsMap SessionTree Replay Tools ModelStream Compaction AgentSession SessionFacts.

(** ** The delay *)

Lemma safe_positive n :
  is_safe_integer n && (1 <=? int_of n)%Z = true → ∃ z, n = NInt z ∧ (1 <= z <= MAX_SAFE_INTEGER)%Z.
Proof.
  destruct n as [z| |m k| |]; simpl; try done. rewrite andb_true_iff, !Z.leb_le. intros [? ?].
  exists z. split; [done|lia].
Qed.

(** A policy the constructor accepted. *)
Record policy_ok (p : ModelRetryPolicy) : Prop := {
  pok_attempts : ∃ z, rp_maxAttempts p = NInt z ∧ (1 <= z <= MAX_SAFE_INTEGER)%Z;
  pok_initial : ∃ z, rp_initialDelayMs p = NInt z ∧ (1 <= z <= MAX_SAFE_INTEGER)%Z;
  pok_maximum : ∃ z, rp_maximumDelayMs p = NInt z ∧ (1 <= z <= MAX_SAFE_INTEGER)%Z;
  pok_multiplier : is_finite (rp_multiplier p) = true ∧ at_least_one (rp_multiplier p);
  pok_jitter : is_finite (rp_jitterRatio p) = true
}.

Lemma not_lt_one n : is_finite n = true → num_lt n (NInt 1) = false → at_least_one n.
Proof.
  intros Hf. destruct n as [z| |m k| |]; try done; unfold num_lt, to_dyadic; rewrite Z.ltb_ge; simpl.
  - lia.
  - rewrite positive_nat_Z, Z.mul_1_r. intros Hm. destruct (2 ^ Z.pos k)%Z; lia.
Qed.

Lemma modelRetryPolicy_ok options p : modelRetryPolicy options = Ok p → policy_ok p.
Proof.
  unfold modelRetryPolicy. intros H. apply bind_Ok in H as (? & Hn & H).
  do 2 (apply bind_Ok in H as (? & ?%refuse_Ok & H)). injection H as <-.
  apply each_require_Ok in Hn. do 3 (apply Forall_cons in Hn as [?%safe_positive Hn]). inv_ok.
  repeat match goal with H : negb _ = false |- _ => apply negb_false_iff in H
         | H : _ || _ = false |- _ => apply orb_false_iff in H as [? ?] end.
  split; [done..| |done]. split; [done|]. by apply not_lt_one.
Qed.

(** under every policy the constructor accepts and whatever the provider asks
    for, the delay before a retry is a whole number of milliseconds between zero
    and the policy's maximum (or the zero [-0]); no overflow or rounding of the
    back-off escapes the range. *)
Theorem retry_delay_bounded options policy error attempt random :
  modelRetryPolicy options = Ok policy → is_finite random = true →
  ∃ z, (modelRetryDelay error attempt policy random = NInt z ∧ (0 <= z <= int_of (rp_maximumDelayMs policy))%Z)
       ∨ modelRetryDelay error attempt policy random = NNegZero.
Proof.
  intros [_ (i & Hi & ? & ?) (m & Hm & ? & ?) [Ff Fo] Fj]%modelRetryPolicy_ok Hr.
  unfold modelRetryDelay. cbv zeta. rewrite Hi, Hm. simpl int_of.
  set (base := num_min _ (num_mul _ _)). set (jitter := num_add _ _).
  assert (∃ z, num_min (NInt m) (num_max (NInt 0) (num_round (num_mul base jitter))) = NInt z
    ∧ (0 <= z <= m)%Z) as (z & Hz & Hzm).
  { apply clamp_round; [lia|].
    destruct (num_min_one m (num_mul (NInt i) (num_pow (rp_multiplier policy) (attempt - 1)))) as [Hb1 Hb2];
      [lia | apply num_mul_one; [simpl; lia | by apply num_pow_one] |].
    apply num_mul_not_nan; [done| |].
    - fold base in Hb2. destruct base as [[]| | | |]; simpl in Hb2 |- *; done || lia.
    - apply num_add_not_nan; [done|]. apply num_mul_finite_not_nan; [|done].
      apply num_sub_one_finite, (num_mul_bounded _ _ 1 2); [by apply clamp_unit|done|done|done|done]. }
  destruct (mse_retryAfterMs error) as [ms|]; [|exists z; by left].
  destruct (is_finite ms && negb (is_negative ms)) eqn:E; [|exists z; by left].
  apply andb_true_iff in E as [? ?%negb_true_iff]. apply min_round; [lia|done|done].
Qed.

Definition sample_error : ModelStreamError :=
  plain_error "overloaded" "try again" true (Some "overloaded") (Some BeforeDispatch).

Lemma retry_delay_bounded_witness :
  modelRetryDelay sample_error 3 DEFAULT_MODEL_RETRY_POLICY (NFrac 3 2) = NInt 2200 ∧
  ∃ z, (modelRetryDelay sample_error 3 DEFAULT_MODEL_RETRY_POLICY (NFrac 3 2) = NInt z
        ∧ (0 <= z <= int_of (rp_maximumDelayMs DEFAULT_MODEL_RETRY_POLICY))%Z)
       ∨ modelRetryDelay sample_error 3 DEFAULT_MODEL_RETRY_POLICY (NFrac 3 2) = NNegZero.
Proof.
  split; [vm_compute; reflexivity|].
  apply (retry_delay_bounded None); vm_compute; reflexivity.
Defined.

(** ** What may be retried *)

(** The items of a stream a reader sees: up to the first terminal event or throw. *)
Fixpoint seen (items : list stream_item) : list ModelStreamEvent :=
  match items with
  | [] | Throws _ :: _ => []
  | Yield e :: rest => e :: (if isTerminalModelStreamEvent e then [] else seen rest)
  | _ :: rest => seen rest
  end.

Definition is_output (e : ModelStreamEvent) : bool :=
  match e with TextDelta _ _ | ThinkingDelta _ _ | ToolCallEvent _ _ => true | _ => false end.

(** A stream that showed nothing and ended with a retryable error whose request
    phase is known. *)
Definition retryable (items : list stream_item) : Prop :=
  Forall (λ e, is_output e = false) (seen items) ∧
  ∃ err, last (seen items) = Some (StreamError err) ∧ mse_retryable err = true ∧
    (∃ phase, mse_requestPhase err = Some phase ∧ phase ≠ PhaseUnknown).

Section Requests.
Context {L E : Type} `{EventStore L E} (env : environment) (cfg : settings).
Implicit Types s : session L.

(** The parts of a session only the model turn touches. *)
Definition same_requests s s' : Prop :=
  ss_requests s' = ss_requests s ∧ d_streams (ss_draws s') = d_streams (ss_draws s).

Lemma same_requests_trans s1 s2 s3 : same_requests s1 s2 → same_requests s2 s3 → same_requests s1 s3.
Proof. unfold same_requests. naive_solver congruence. Qed.

Lemma append_raw_requests op p s r s' :
  append_raw env op p s = (r, s') → same_requests s s' ∧ ss_frames s' = ss_frames s.
Proof.
  unfold append_raw, same_requests. destruct (parseEvent _); [|by intros [= _ <-]].
  destruct (store_append _ _) as [[]]; by intros [= _ <-].
Qed.

Lemma append_requests op p s r s' :
  append env op p s = (r, s') → same_requests s s' ∧ ss_frames s' = ss_frames s.
Proof.
  unfold append. destruct (append_raw _ _ _ _) as [[e|[]] s1] eqn:E1; intros [= _ <-];
    by eapply append_raw_requests.
Qed.

Lemma clients_requests l s : same_requests s (apply_clients l s) ∧ ss_frames (apply_clients l s) = ss_frames s.
Proof.
  revert s; induction l as [|a l IH]; intros s; [done|]. simpl.
  destruct (IH (apply_client a s)) as [IH1 ->].
  assert (same_requests s (apply_client a s) ∧ ss_frames (apply_client a s) = ss_frames s) as [H1 ->]
    by (destruct a; simpl; try case_match; done).
  split; [by eapply same_requests_trans | done].
Qed.

(** One attempt: it makes no request of its own, and an attempt that exposed
    nothing showed nothing. *)
Lemma attempt_loop_requests op items a s a' t s' :
  attempt_loop env op items a s = (a', t, s') →
  same_requests s s' ∧ (at_exposed a' = false → at_exposed a = false ∧ ss_frames s' = ss_frames s) ∧
  (∀ err, t = Some (TError err) → mse_retryable err = true → at_exposed a' = false →
    last (seen items) = Some (StreamError err) ∧ Forall (λ e, is_output e = false) (seen items)).
Proof.
  revert a s; induction items as [|i items IH]; intros a s; cbn [attempt_loop seen].
  - intros [= <- <- <-]. by split_and!.
  - destruct i as [e|c|m|c].
    + destruct e; cbn [terminal_of isTerminalModelStreamEvent];
        try (intros [= <- <- <-]; split_and!; [done|done|];
             intros err0 Ht _ _; try discriminate Ht; injection Ht as ->; by repeat constructor);
        intros (Hs & Hq & Hr)%IH; split_and!; try exact Hs; try exact Hq;
        try (intros Hx; by destruct (Hq Hx));
        intros err0 Ht Hret Hx; try (by destruct (Hq Hx)); destruct (Hr err0 Ht Hret Hx) as [Hl Hf];
        rewrite last_cons, Hl; (split; [done | by constructor]).
    + destruct (append_raw _ _ _ _) as [[e|err] s1] eqn:E1; apply append_raw_requests in E1 as [E1 F1].
      * intros (Hs & Hq & Hr)%IH. rewrite F1 in Hq. split_and!; [by eapply same_requests_trans|exact Hq|exact Hr].
      * intros [= <- <- <-]. split_and!; [done|done|]. intros err0. unfold port_failure.
        case_match; [done|]. intros [= <-]. done.
    + intros [= <- <- <-]. split_and!; [done|done|]. intros err0. unfold port_failure.
      case_match; [done|]. intros [= <-]. done.
    + destruct (clients_requests [c] s) as [Hc Fc]. simpl in Hc, Fc.
      intros (Hs & Hq & Hr)%IH. rewrite Fc in Hq. split_and!; [by eapply same_requests_trans|exact Hq|exact Hr].
Qed.

Lemma outcome_exposed a t : to_exposedOutput (outcome_of a t) = at_exposed a.
Proof. by destruct t. Qed.

(** One request per attempt; when its outcome allows a retry, its stream was
    retryable and nothing was shown. *)
Lemma modelAttempt_requests op n l s o n' l' s' :
  modelAttempt env cfg op n l s = (o, n', l', s') →
  length (ss_requests s') = S (length (ss_requests s)) ∧
  d_streams (ss_draws s') = S (d_streams (ss_draws s)) ∧
  (∀ attempt, attempt_final cfg attempt o = false →
    ss_frames s' = ss_frames s ∧ retryable (env_stream env (d_streams (ss_draws s)))).
Proof.
  unfold modelAttempt. destruct (attempt_loop _ _ _ _ _) as [[a t] s1] eqn:E1.
  intros [= <- <- <- <-]. apply attempt_loop_requests in E1 as ([Hr Hd] & Hq & Hret). simpl in Hr, Hd.
  rewrite Hr, Hd, length_app. simpl. split_and!; [lia|done|]. intros attempt.
  unfold attempt_final. destruct (cfg_retry cfg); [|done]. destruct (to_error _) as [err|] eqn:Et; [|done].
  intros [[[?%negb_false_iff Hphase]%orb_false_iff Hexp]%orb_false_iff _]%orb_false_iff.
  rewrite outcome_exposed in Hexp. rename Hexp into Hx.
  destruct t as [[| |]|]; try done.
  - simpl in Et. injection Et as ->. destruct (Hq Hx) as [_ Hf]. split; [done|].
    destruct (Hret err eq_refl ltac:(done) Hx) as [Hl Hf']. split; [done|]. exists err. split_and!; [done..|].
    destruct (mse_requestPhase err) as [[]|]; try done; eexists; (split; [done|done]).
  - exfalso. unfold port_failure in Et. destruct (ss_aborted s1); simpl in Et; [done|]. by injection Et as <-.
Qed.

(** The loop from attempt [attempt] on. *)
Lemma retry_loop_requests fuel attempt op n l s :
  1 ≤ attempt → S (max_attempts cfg) ≤ fuel + attempt → 1 ≤ fuel →
  ∃ r s' k, retry_loop env cfg fuel attempt op n l s = Some (r, s') ∧
    length (ss_requests s') = length (ss_requests s) + k ∧ 1 ≤ k ∧
    (k = 1 ∨ attempt + k ≤ S (max_attempts cfg)) ∧
    (∀ j, S j < k → retryable (env_stream env (d_streams (ss_draws s) + j))).
Proof.
  revert attempt n l s; induction fuel as [|fuel IH]; intros attempt n l s Ha Hf Hfuel; [lia|].
  cbn [retry_loop]. destruct (modelAttempt env cfg op n l s) as [[[o n1] l1] s1] eqn:E1.
  apply modelAttempt_requests in E1 as (Hr & Hd & Hret).
  assert (∀ (r : result (agent_error E) (TurnOutcome * nat * list event)) s2,
    same_requests s1 s2 → ∃ r' s' k, Some (r, s2) = Some (r', s') ∧
    length (ss_requests s') = length (ss_requests s) + k ∧ 1 ≤ k ∧
    (k = 1 ∨ attempt + k ≤ S (max_attempts cfg)) ∧
    (∀ j, S j < k → retryable (env_stream env (d_streams (ss_draws s) + j)))) as Hend.
  { intros r s2 [Hs2 _]. exists r, s2, 1. rewrite Hs2, Hr. split_and!; [done|lia|lia|by left|lia]. }
  destruct (attempt_final cfg attempt o) eqn:Efin; [by apply Hend|].
  destruct (cfg_retry cfg) as [retry|] eqn:Ec; [|by apply Hend].
  destruct (to_error o) as [error|] eqn:Et; [|by apply Hend].
  destruct (Hret attempt Efin) as [_ Hstream].
  unfold bindP. set (s1' := if retry_after error then _ else _).
  assert (same_requests s1 s1') as Hs1 by (by unfold s1'; destruct (retry_after error)).
  destruct (announce_retry _ _ _ _ _ _ s1') as [ra s2] eqn:E2.
  assert (same_requests s1 s2) as Hs2.
  { eapply same_requests_trans; [exact Hs1|]. unfold announce_retry in E2. 
    repeat case_match; (eapply append_requests, E2) || (by injection E2 as _ <-). }
  destruct ra as [event|err]; [|by apply Hend].
  destruct (env_sleep _ _) as [clients outcome]. set (s3 := apply_clients _ _).
  assert (same_requests s1 s3) as Hs3.
  { eapply same_requests_trans; [exact Hs2|]. eapply same_requests_trans; [|apply clients_requests]. done. }
  destruct (ss_aborted s3); [by apply Hend|]. destruct outcome; [|by apply Hend].
  assert (attempt < max_attempts cfg) as Hlt.
  { unfold attempt_final in Efin. rewrite Ec, Et in Efin. unfold max_attempts. rewrite Ec.
    apply orb_false_iff in Efin as [_ ?%Z.leb_gt]. lia. }
  edestruct (IH (S attempt) n1 (l1 ++ [event]) s3) as (r & s' & k & -> & Hk & Hk1 & Hb & Hall); [lia..|].
  destruct Hs3 as [Hs3 Hd3]. exists r, s', (S k). rewrite Hk, Hs3, Hr. split_and!; [done|lia|lia| |].
  - right. destruct Hb; lia.
  - intros [|j] Hj; [by rewrite Nat.add_0_r|].
    specialize (Hall j ltac:(lia)). rewrite Hd3, Hd in Hall. by rewrite Nat.add_succ_r.
Qed.
End Requests.

(** C39: a model turn ends: it makes at most [max_attempts] requests (none when
    the signal is aborted before), and a request is repeated only after a stream
    that showed no output and ended with a retryable error whose request phase is
    known. *)
Theorem model_turn_bounded {L E} `{EventStore L E} env cfg op n l (s : session L) :
  ∃ r s' k, modelTurn (E := E) env cfg op n l s = Some (r, s') ∧
    length (ss_requests s') = length (ss_requests s) + k ∧ k ≤ Nat.max 1 (max_attempts cfg) ∧
    (ss_aborted s = true → k = 0) ∧
    (∀ j, S j < k → retryable (env_stream env (d_streams (ss_draws s) + j))).
Proof.
  unfold modelTurn. destruct (ss_aborted s).
  - exists (Ok (aborted_outcome, n, l)), s, 0. split_and!; [done|lia|lia|done|lia].
  - destruct (retry_loop_requests env cfg (S (max_attempts cfg)) 1 op n l s)
      as (r & s' & k & Hr & Hk & Hk1 & Hb & Hall); [lia..|].
    exists r, s', k. split_and!; [done..| |done|done]. lia.
Qed.
