(* ===== verification/PortSession.v ===== *)
(** A session on its provider port: what becomes of a session once a turn ended without any
    output. *)
From stdpp Require Import base list sets strings.
From Stdlib Require Import ZArith Lia.
From S2P Require Import Prelude Text JsValue Json Envelope Types ModelRequest Events Tools ModelStream Compaction MigrationFacts ProviderTypes Thinking Dialect Preparation PreparationFacts ProviderPort ProviderPortFacts AgentSession SessionFacts SessionRetry.
#[local] Open Scope session_scope.

(** The request of the port that a request of the session is. *)
Definition turn_request (cfg : settings) (r : model_request) : PortTurnRequest :=
  {| ptr_system := cfg_system cfg; ptr_messages := mr_messages r; ptr_tools := Registry.declarations (cfg_tools cfg);
     ptr_maxOutputTokens := None; ptr_toolChoice := None; ptr_estimatedInputTokens := Some (NInt (mr_estimatedInputTokens r)) |}.

Definition silent : ModelMessage := MAssistant [] [].
Definition fruitless (o : TurnOutcome) : Prop :=
  to_content o = [] ∧ to_toolCalls o = [] ∧ (to_stopReason o = SError ∨ to_stopReason o = SAborted).

Section Silent.
Context {L E : Type} `{EventStoreLaws L E} (env : environment) (cfg : settings).
Implicit Types s : session L.

Definition keeps_messages s s' : Prop := ss_messages s' = ss_messages s ∧ same_requests s s'.

Lemma append_keeps op p s e s' : append env op p s = (Ok e, s') → keeps_messages s s' ∧ payload_type (ev_payload e) = payload_type p ∧ ss_aborted s' = ss_aborted s.
Proof.
  unfold append, append_raw, keeps_messages, same_requests. destruct (parseEvent _); [|done].
  destruct (store_append _ _) as [[stored|err] l] eqn:Hst; [|done]. intros [= <- <-]. cbn. split; [done|].
  apply store_append_Ok in Hst as [_ [_ _ _ _ Hty]]. by split_and!.
Qed.

(** A request that the port refuses is one attempt without output. *)
Lemma refused_attempt op n l s t : env_stream env (d_streams (ss_draws s)) = [Yield t] →
  (t = Aborted None ∨ ∃ err, t = StreamError err ∧ mse_code err = "provider_stream_failure" ∧ mse_retryable err = false ∧ mse_partial err = None) →
  ∃ o s', modelTurn env cfg op n l s = Some (Ok (o, n, l), s') ∧ fruitless o ∧ ss_messages s' = ss_messages s.
Proof.
  intros Hs Ht. unfold modelTurn. destruct (ss_aborted s).
  - exists aborted_outcome, s. split; [done|]. split; [|done]. by split_and!; [..|right].
  - cbn [retry_loop]. unfold modelAttempt. rewrite Hs. destruct Ht as [->|(err & -> & _ & Hr & _)]; cbn.
    + unfold attempt_final. cbn. destruct (cfg_retry cfg); (eexists _, _; split; [done|]); (split; [|done]); by split_and!; [..|right].
    + unfold attempt_final. cbn. rewrite Hr. destruct (cfg_retry cfg); (eexists _, _; split; [done|]); (split; [|done]); by split_and!; [..|left].
Qed.
Lemma fruitless_after op n o l s d s' : fruitless o → after_model env cfg op n o l s = (Ok d, s') →
  ∃ e r, d = Return r ∧ tr_events r = l ++ [e] ∧ payload_type (ev_payload e) = "assistant.message" ∧
    tr_stopReason r = to_stopReason o ∧ (tr_stopReason r = SError ∨ tr_stopReason r = SAborted) ∧ ∃ m, ss_messages s' = ss_messages s ++ [m].
Proof.
  intros (Hc & Hcalls & Hstop) Ha. unfold after_model, record_assistant, bindM in Ha.
  destruct (append env _ _ s) as [[e|err] s1] eqn:He; [|done]. cbn in Ha. apply append_keeps in He as ((Hm & _) & Hty & _).
  destruct Hstop as [E'|E']; rewrite E' in Ha |- *; cbn in Ha; injection Ha as <- <-; (exists e; eexists);
    (split; [done|]); (split; [done|]); (split; [exact Hty|]); (split; [done|]); (split; [by auto|]); cbn; rewrite Hm; by eexists.
Qed.

(** What opening the turn does, up to its first request. *)
Lemma runTurn_Ok fuel items signal requested s r s' : runTurn env cfg fuel items signal requested s = Some (Ok r, s') →
  ∃ op e s1 s2, payload_type (ev_payload e) = "user.message" ∧ ss_messages s1 = ss_messages s ++ [MUser (stored_content e)] ∧ same_requests s s1 ∧
    turn_loop env cfg fuel op 0 [e] s1 = Some (Ok r, s2) ∧ ss_messages s' = ss_messages s2 ∧ ss_requests s' = ss_requests s2.
Proof.
  unfold runTurn, bindP. destruct (unless_active _ s) as [[op|err] s0] eqn:Hop; [|done].
  assert (Hs0 : keeps_messages s s0).
  { unfold unless_active in Hop. destruct (ss_active s); [done|]. unfold operation_id in Hop. destruct requested; [by injection Hop as <- <-|].
    destruct (parseOperationId _ _); [|done]. by injection Hop as <- <-. }
  cbn [modify]. unfold finallyP. destruct (turn_body _ _ _ _ _ _) as [[r' s2]|] eqn:Hb; [|done]. intros [= -> <-].
  unfold turn_body, bindP in Hb. destruct (appendUserMessage _ _ _ _ _) as [[l|err] s1] eqn:Hu; [|done].
  unfold appendUserMessage, bindM in Hu. destruct (append _ _ _ _) as [[e|err] s1'] eqn:He; [|done]. cbn in Hu. injection Hu as <- <-.
  apply append_keeps in He as ([Hm Hr] & Hty & _). destruct Hs0 as [Hm0 Hr0]. cbn in Hm, Hr.
  eexists op, e, _, s2. split; [done|]. split; [|split; [|split; [exact Hb|done]]]; cbn; [by rewrite Hm, <- Hm0|].
  eapply same_requests_trans; [exact Hr0|exact Hr].
Qed.
End Silent.

(** C16: once a turn ended without any output, and was kept in the session's messages as it is, the
    session gets no further: when its next request, which carries the conversation, is answered
    by the port, the turn ends in an error or an abort with nothing but the user's message and an
    assistant message on the log, and the conversation has the silent turn as before. *)
Theorem silent_turn_is_final {L E} `{EventStoreLaws L E} digest providerId options getModel turns request w env cfg fuel items signal requested
    (s s' : session L) r :
  silent ∈ ss_messages s → silent ∈ ptr_messages request →
  env_stream env (d_streams (ss_draws s)) = (modelPortForRegistry digest providerId options getModel turns request w).1 →
  runTurn env cfg fuel items signal requested s = Some (Ok r, s') →
  (tr_stopReason r = SError ∨ tr_stopReason r = SAborted) ∧
  (payload_type ∘ ev_payload <$> tr_events r) = ["user.message"; "assistant.message"] ∧ silent ∈ ss_messages s'.
Proof.
  intros Hs Hreq Hport Hrun. destruct (port_refuses digest providerId options getModel turns request w Hreq) as (t & Hp & Ht).
  rewrite Hp in Hport. apply runTurn_Ok in Hrun as (op & e & s1 & s2 & Hty & Hm1 & [_ Hd] & Hloop & Hm' & _).
  destruct fuel as [|fuel]; [done|]. cbn [turn_loop] in Hloop. unfold bindPP in Hloop.
  destruct (refused_attempt env cfg op 0 [e] s1 t) as (o & s3 & Ho & Hf & Hm3); [by rewrite Hd|done|]. rewrite Ho in Hloop.
  unfold bindP in Hloop. destruct (after_model env cfg op 0 o [e] s3) as [[d|err] s4] eqn:Ha; [|done].
  apply fruitless_after in Ha as (e' & r' & -> & Hr & Hty' & _ & Hstop & m & Hm4); [|done]. cbn in Hloop. injection Hloop as <- <-.
  split; [done|]. split; [by rewrite Hr; cbn; rewrite Hty, Hty'|]. rewrite Hm', Hm4, Hm3, Hm1. set_solver.
Qed.

(** A session whose first turn is aborted before the model says anything, and its second prompt. *)
Definition port_options : SessionPortOptions :=
  {| spo_modelId := "m"; spo_thinkingLevel := None; spo_maxOutputTokens := None; spo_requestSettings := None; spo_readBlob := None |}.
Definition willing_world : port_world :=
  {| pw_aborted_first := false; pw_aborted_before_dispatch := false; pw_aborted_at_end := false; pw_onRequestConfigured := Some (Ok tt);
     pw_stream _ := [RawEvent (TextDelta "hello" None); RawEvent (Completed SStop sample_usage None None [])] |}.
Definition port_answer (turns : list (list ReplayEvent)) (r : PortTurnRequest) : list stream_item :=
  (modelPortForRegistry sample_digest "acme" port_options (λ _ _, Ok (sample_model "anthropic-messages")) turns r willing_world).1.
Definition second_request : PortTurnRequest :=
  turn_request (sample_settings []) {| mr_estimatedInputTokens := 2; mr_messages := [MUser [CText "hi"]; silent; MUser [CText "more"]] |}.
Definition stopped_environment : environment := sample_environment [[Yield (Aborted None)]; port_answer [[]] second_request].
Definition prompt (text : string) (s : session (list event)) : option (result (agent_error unit) TurnResult * session (list event)) :=
  runTurn stopped_environment (sample_settings []) 5 [CText text] false None s.
Definition stopped_session : result (agent_error unit) (session (list event)) :=
  sample_session [[Yield (Aborted None)]; port_answer [[]] second_request] [].

(** The provider would have answered the second prompt. *)
Lemma silent_turn_is_final_witness : ∃ s r1 s1 r s',
  stopped_session = Ok s ∧ prompt "hi" s = Some (r1, s1) ∧ ss_messages s1 = [MUser [CText "hi"]; silent] ∧
  prompt "more" s1 = Some (Ok r, s') ∧ turn_request (sample_settings []) <$> last (ss_requests s') = Some second_request ∧
  last (port_answer [] (turn_request (sample_settings []) {| mr_estimatedInputTokens := 1; mr_messages := [MUser [CText "more"]] |})) =
    Some (Yield (Completed SStop sample_usage None None [])) ∧
  tr_stopReason r = SError ∧
  ((tr_stopReason r = SError ∨ tr_stopReason r = SAborted) ∧
   (payload_type ∘ ev_payload <$> tr_events r) = ["user.message"; "assistant.message"] ∧ silent ∈ ss_messages s').
Proof.
  destruct stopped_session as [s|e] eqn:E0; [|vm_compute in E0; discriminate].
  destruct (prompt "hi" s) as [[r1 s1]|] eqn:E1; [|vm_compute in E0; injection E0 as <-; vm_compute in E1; discriminate].
  destruct (prompt "more" s1) as [[[r|e] s']|] eqn:E2;
    [|vm_compute in E0; injection E0 as <-; vm_compute in E1; injection E1 as <- <-; vm_compute in E2; discriminate..].
  exists s, r1, s1, r, s'. split; [reflexivity|]. split; [exact E1|].
  assert (Hm : ss_messages s1 = [MUser [CText "hi"]; silent] ∧ d_streams (ss_draws s1) = 1).
  { clear E2. vm_compute in E0. injection E0 as <-. vm_compute in E1. injection E1 as <- <-. split; vm_compute; reflexivity. }
  destruct Hm as [Hm Hd]. split; [exact Hm|]. split; [exact E2|].
  assert (Hr : turn_request (sample_settings []) <$> last (ss_requests s') = Some second_request ∧ tr_stopReason r = SError).
  { vm_compute in E0. injection E0 as <-. vm_compute in E1. injection E1 as <- <-. vm_compute in E2. injection E2 as <- <-. split; vm_compute; reflexivity. }
  destruct Hr as [Hr Hstop]. split; [exact Hr|]. split; [vm_compute; reflexivity|]. split; [exact Hstop|].
  eapply (silent_turn_is_final sample_digest "acme" port_options (λ _ _, Ok (sample_model "anthropic-messages")) [[]] second_request willing_world
            stopped_environment (sample_settings []) 5 [CText "more"] false None s1); [rewrite Hm; right; left|right; left| |exact E2].
  rewrite Hd. vm_compute. reflexivity.
Defined.
