(* ===== verification/AnthropicTurn.v ===== *)
(** A turn of the Anthropic Messages interface on its way: what the session makes of a message,
    and what it sends back of it. *)
From stdpp Require Import base list sets strings pretty.
From Stdlib Require Import ZArith Lia.
From S2P Require Import Prelude Text JsValue Json JsonText JsMap Envelope Types ModelRequest Events Tools ModelStream Compaction MigrationFacts ProviderTypes Thinking Dialect Preparation PreparationFacts Sse ProviderPort ProviderPortFacts Anthropic AnthropicFacts AnthropicStream AgentSession SessionFacts.

(** ** The checks of the port *)

Definition passes (e : ModelStreamEvent) : Prop := is_ok (parseModelStreamEvent (stream_event_value e) "modelStreamEvent") = true.
Definition in_range (n : nat) : Prop := (Z.of_nat n <= MAX_SAFE_INTEGER)%Z.

Lemma normalize_passes aborted events t : Forall (λ e, passes e ∧ isTerminalModelStreamEvent e = false) events → passes t → isTerminalModelStreamEvent t = true →
  ∀ emitted, normalizeModelStream aborted emitted (RawEvent <$> events ++ [t]) = events ++ [t].
Proof.
  intros H Ht Hend. unfold passes in *. induction H as [|e events [He Hn] _ IH]; intros emitted; cbn [fmap list_fmap app normalizeModelStream].
  - destruct (parseModelStreamEvent _ _); [|done]. by rewrite Hend.
  - destruct (parseModelStreamEvent _ _); [|done]. rewrite Hn. f_equal. apply IH.
Qed.

Lemma position_ok ci path : in_range ci → StreamChecks.nonNegativeNumber (JInt (Z.of_nat ci)) path true = Ok (NInt (Z.of_nat ci)).
Proof.
  intros H. unfold StreamChecks.nonNegativeNumber, JInt. unfold in_range in H.
  assert (is_finite (NInt (Z.of_nat ci)) && negb (is_negative (NInt (Z.of_nat ci))) && (negb true || is_safe_integer (NInt (Z.of_nat ci))) = true) as ->; [|done].
  unfold is_negative, is_safe_integer, is_finite. destruct (Z.leb_spec (Z.abs (Z.of_nat ci)) MAX_SAFE_INTEGER), (Z.ltb_spec (Z.of_nat ci) 0); done || lia.
Qed.
Lemma optional_position_ok fs ci path : in_range ci → get "contentIndex" fs = JInt (Z.of_nat ci) → StreamChecks.optionalPosition fs path = Ok tt.
Proof. intros H Hg. unfold StreamChecks.optionalPosition. rewrite Hg. unfold StreamChecks.if_present. cbn [is_undef JInt]. by rewrite position_ok. Qed.
Lemma string_ok s path : s ≠ "" → StreamChecks.string_ (JStr s) path false = Ok s.
Proof. intros H. unfold StreamChecks.string_. by rewrite bool_decide_false. Qed.
Lemma passes_by parse t e : get "type" (stream_event_fields e) = JStr t → t ≠ "" → stream_parser t stream_parsers = Some parse →
  parse (stream_event_fields e) "modelStreamEvent" = Ok tt → passes e.
Proof.
  intros Ht Hne Hp H. unfold passes, parseModelStreamEvent, stream_event_value. cbn [StreamChecks.object rbind]. rewrite Ht, string_ok by done. cbn [rbind].
  by rewrite Hp, H.
Qed.
Ltac first_checks := match goal with |- rbind (StreamChecks.exact ?v ?p ?r ?o) _ = _ => change (StreamChecks.exact v p r o) with (@Ok ModelStreamValidationError unit tt); cbn [rbind] end.

Lemma text_passes text ci : in_range ci → passes (TextDelta text (Some (Z.of_nat ci))).
Proof. intros H. apply (passes_by parse_delta "text_delta"); [done..|]. unfold parse_delta. first_checks. by apply (optional_position_ok _ ci). Qed.
Lemma thought_passes text ci : in_range ci → passes (ThinkingDelta text (Some (Z.of_nat ci))).
Proof. intros H. apply (passes_by parse_delta "thinking_delta"); [done..|]. unfold parse_delta. first_checks. by apply (optional_position_ok _ ci). Qed.
Lemma call_start_passes ci callId name : in_range ci → callId ≠ "" → name ≠ "" → passes (ToolCallStart (Z.of_nat ci) callId name).
Proof.
  intros H Hid Hn. apply (passes_by parse_tool_call_start "tool_call_start"); [done..|]. unfold parse_tool_call_start. first_checks.
  change (get "contentIndex" _) with (JInt (Z.of_nat ci)). rewrite position_ok by done. cbn [rbind]. change (get "callId" _) with (JStr callId). rewrite string_ok by done. cbn [rbind].
  change (get "name" _) with (JStr name). by rewrite string_ok.
Qed.
Lemma call_delta_passes ci callId text : in_range ci → callId ≠ "" → passes (ToolCallDelta (Z.of_nat ci) callId text).
Proof.
  intros H Hid. apply (passes_by parse_tool_call_delta "tool_call_delta"); [done..|]. unfold parse_tool_call_delta. first_checks.
  change (get "contentIndex" _) with (JInt (Z.of_nat ci)). rewrite position_ok by done. cbn [rbind]. change (get "callId" _) with (JStr callId). by rewrite string_ok.
Qed.
Lemma call_passes ci call : in_range ci → tcr_callId call ≠ "" → tcr_name call ≠ "" →
  StreamChecks.validateJson (JObj (tcr_input call)) "modelStreamEvent.input" = Ok tt → passes (ToolCallEvent call (Some (Z.of_nat ci))).
Proof.
  intros H Hid Hn Hj. apply (passes_by parse_stream_tool_call "tool_call"); [done..|]. unfold parse_stream_tool_call. first_checks.
  change (get "callId" _) with (JStr (tcr_callId call)). rewrite string_ok by done. cbn [rbind]. change (get "name" _) with (JStr (tcr_name call)). rewrite string_ok by done. cbn [rbind].
  change (get "input" _) with (JObj (tcr_input call)). cbn [StreamChecks.object rbind]. change (member "modelStreamEvent" "input") with "modelStreamEvent.input". rewrite Hj. cbn [rbind].
  by apply (optional_position_ok _ ci).
Qed.
Lemma bind_value {E A B} (m : result E A) (k : A → result E B) v r : m = Ok v → k v = r → rbind m k = r.
Proof. by intros ->. Qed.
Lemma replay_passes model modelId ci redacted signature : in_range ci → mi_providerId model ≠ "" → mi_apiDialect model ≠ "" → modelId ≠ "" → signature ≠ "" →
  passes (replay_of_block model modelId ci redacted signature).
Proof.
  intros H Hp Hd Hm Hs. apply (passes_by parse_replay_metadata "replay_metadata"); [done..|]. unfold replay_of_block.
  destruct (mi_providerId model), (mi_apiDialect model), modelId, signature; try done. unfold parse_replay_metadata.
  destruct redacted; (eapply bind_value; [reflexivity|]); (eapply bind_value; [reflexivity|]);
    (eapply bind_value; [exact (position_ok ci _ H)|]); reflexivity.
Qed.
Definition count_ok (n : Z) : Prop := (0 <= n <= MAX_SAFE_INTEGER)%Z.
Definition usage_ok (u : Usage) : Prop :=
  count_ok (usage_inputTokens u) ∧ count_ok (usage_outputTokens u) ∧ count_ok (usage_cacheReadTokens u) ∧ count_ok (usage_cacheWriteTokens u) ∧
  (∃ r, usage_reasoningTokens u = Some r ∧ count_ok r) ∧ usage_costUsd u = None.
Lemma count_passes n path : count_ok n → StreamChecks.nonNegativeNumber (JInt n) path true = Ok (NInt n).
Proof. intros H. rewrite <- (Z2Nat.id n) by apply H. apply position_ok. unfold in_range, count_ok in *. lia. Qed.
Lemma usage_passes u path : usage_ok u → StreamChecks.validateUsage (encode_usage u) path = Ok tt.
Proof.
  intros (Hi & Ho & Hr & Hw & (r & Hre & Hrr) & Hc). unfold StreamChecks.validateUsage, encode_usage. rewrite Hre, Hc.
  eapply bind_value; [reflexivity|]. eapply bind_value; [reflexivity|]. eapply bind_value.
  - unfold each, StreamChecks.usage_counts. cbn [each_from]. eapply bind_value; [eapply bind_value; [exact (count_passes _ _ Hi)|reflexivity]|].
    eapply bind_value; [eapply bind_value; [exact (count_passes _ _ Ho)|reflexivity]|]. eapply bind_value; [eapply bind_value; [exact (count_passes _ _ Hr)|reflexivity]|].
    eapply bind_value; [eapply bind_value; [exact (count_passes _ _ Hw)|reflexivity]|]. reflexivity.
  - eapply bind_value; [eapply bind_value; [exact (count_passes _ _ Hrr)|reflexivity]|]. reflexivity.
Qed.
Lemma checked_count_ok name n v : checked_count name n = Ok v → count_ok v.
Proof.
  unfold checked_count, count_ok. destruct (is_safe_integer n && negb (is_negative n)) eqn:E; [|done]. intros [= <-]. apply andb_true_iff in E as [Hs Hn].
  destruct n; cbn in *; try done. apply Z.leb_le in Hs. apply negb_true_iff, Z.ltb_ge in Hn. lia.
Qed.
Lemma usage_is_ok state u : Anthropic.usage state = Ok u → usage_ok u.
Proof.
  unfold Anthropic.usage. intros (i & Hi & H)%bind_Ok. apply bind_Ok in H as (o & Ho & H). apply bind_Ok in H as (r & Hr & H). apply bind_Ok in H as (w & Hw & H).
  apply bind_Ok in H as (t & Ht & [= <-]). unfold usage_ok. cbn. split_and!; eauto using checked_count_ok.
Qed.

(** What is known of a response. *)
Definition response_ok (r : ProviderResponseMetadata) : Prop :=
  prm_providerId r ≠ "" ∧ prm_requestedModelId r ≠ "" ∧ prm_routedModelId r ≠ Some "" ∧ prm_responseId r ≠ Some "" ∧ prm_nativeStopReason r ≠ Some "" ∧
  (∀ n, prm_latencyMs r = Some n → is_finite n = true ∧ is_negative n = false).
Lemma latency_ok n path : is_finite n = true → is_negative n = false → StreamChecks.nonNegativeNumber (JNum n) path false = Ok n.
Proof. intros Hf Hn. unfold StreamChecks.nonNegativeNumber. by rewrite Hf, Hn. Qed.
Lemma response_passes r path : response_ok r → StreamChecks.validateResponse (response_value r) path = Ok tt.
Proof.
  destruct r as [p m routed id native latency]. intros (Hp & Hm & Hro & Hid & Hna & Hl). cbn in *.
  destruct p, m; try done. unfold StreamChecks.validateResponse, response_value. cbn [prm_providerId prm_requestedModelId prm_routedModelId prm_responseId prm_nativeStopReason prm_latencyMs].
  assert (Hopt : ∀ o, o ≠ Some "" → o = None ∨ ∃ c s, o = Some (String c s)) by (intros [[|c s]|] ?; eauto; done).
  destruct (Hopt _ Hro) as [->|(? & ? & ->)], (Hopt _ Hid) as [->|(? & ? & ->)], (Hopt _ Hna) as [->|(? & ? & ->)]; clear Hopt Hro Hid Hna;
    (destruct latency as [n|]; [destruct (Hl n eq_refl) as [Hf Hn]|]; (eapply bind_value; [reflexivity|]); [|reflexivity]);
    (eapply bind_value; [reflexivity|]); (eapply bind_value; [reflexivity|]); (eapply bind_value; [reflexivity|]);
    (eapply bind_value; [exact (latency_ok n _ Hf Hn)|reflexivity]).
Qed.
Lemma completed_passes stop u partial r : usage_ok u → response_ok r → passes (Completed stop u partial (Some r) []).
Proof.
  intros Hu Hr. apply (passes_by parse_completed "completed"); [done..|]. unfold parse_completed.
  eapply bind_value; [by destruct partial|]. eapply bind_value; [by destruct partial, stop|].
  eapply bind_value; [by apply (usage_passes u)|]. unfold StreamChecks.validateTerminalMetadata. eapply bind_value; [by destruct partial|].
  eapply bind_value; [|by destruct partial]. unfold StreamChecks.if_present. replace (get "response" _) with (response_value r) by (by destruct partial).
  eapply bind_value; [by apply response_passes|reflexivity].
Qed.

(** ** What the session assembles *)

Definition text_of_event (e : ModelStreamEvent) : option string := match e with TextDelta t _ => Some t | _ => None end.
Definition thought_of_event (e : ModelStreamEvent) : option string := match e with ThinkingDelta t _ => Some t | _ => None end.
Definition call_of_event (e : ModelStreamEvent) : option ToolCallRequest := match e with ToolCallEvent c _ => Some c | _ => None end.

Section Assembly.
Context {L E : Type} `{EventStore L E} (env : environment).

Lemma attempt_reads op events t term : Forall (λ e, isTerminalModelStreamEvent e = false) events → terminal_of t = Some term → ∀ a (s : session L),
  ∃ a' s', attempt_loop env op (Yield <$> (events ++ [t])) a s = (a', Some term, s') ∧
    at_text a' = at_text a +:+ concatenated (omap text_of_event events) ∧ at_thinking a' = at_thinking a +:+ concatenated (omap thought_of_event events) ∧
    at_calls a' = at_calls a ++ omap call_of_event events.
Proof.
  intros Hn Ht. induction Hn as [|e events He _ IH]; intros a s.
  - exists a, s. cbn. rewrite !string_app_nil_r, app_nil_r. destruct t; try done; by rewrite Ht.
  - destruct e as [x i|x i|i c n|i c d|c i|m| | |]; try done; cbn [app fmap list_fmap attempt_loop terminal_of];
      match goal with |- ∃ a' s', attempt_loop _ _ _ ?a ?s = _ ∧ _ => destruct (IH a s) as (a' & s' & -> & Hx & Hy & Hz) end;
      exists a', s'; (split; [done|]); rewrite Hx, Hy, Hz; cbn [omap list_omap text_of_event thought_of_event call_of_event at_text at_thinking at_calls];
      rewrite ?concatenated_cons, ?string_app_assoc, <- ?app_assoc; done.
Qed.
End Assembly.

(** ** What a message says *)

Definition REDACTED : string := "[Reasoning redacted]".
Definition block_text (b : sent_block) : string := match b with SentText pieces => concatenated pieces | _ => "" end.
Definition block_thought (b : sent_block) : string :=
  match b with SentThinking pieces => concatenated (omap thought_of pieces) | SentRedacted _ => REDACTED | _ => "" end.
(** The signature of a thinking block, with whether it is of a redacted one. *)
Definition block_signature (b : sent_block) : option (bool * string) :=
  match b with
  | SentThinking pieces => let s := concatenated (omap signature_of pieces) in if bool_decide (s = "") then None else Some (false, s)
  | SentRedacted data => if bool_decide (data = "") then None else Some (true, data)
  | _ => None
  end.
Definition sent_text (blocks : list sent_block) : string := concatenated (block_text <$> blocks).
Definition sent_thought (blocks : list sent_block) : string := concatenated (block_thought <$> blocks).
Definition sent_signatures (blocks : list sent_block) : list (bool * string) := omap block_signature blocks.

Lemma concatenated_app a b : concatenated (a ++ b) = concatenated a +:+ concatenated b.
Proof. induction a as [|x a IH]; [done|]. cbn [app]. by rewrite !concatenated_cons, IH, string_app_assoc. Qed.
Lemma concatenated_filter l : concatenated (filter (λ p, p ≠ "") l) = concatenated l.
Proof.
  induction l as [|x l IH]; [done|]. rewrite filter_cons, concatenated_cons. case_decide as Hx; [by rewrite concatenated_cons, IH|].
  destruct (decide (x = "")) as [->|]; [by rewrite IH|done].
Qed.

Section Message.
Context (model : ModelInfo) (modelId : string) (tools : list PreparedToolDeclaration).
Abbreviation events_of := (blocks_events model modelId tools).

Definition block_call (b : sent_block) : option ToolCallRequest :=
  match b with SentTool callId name _ input => Some {| tcr_callId := callId; tcr_name := reverseToolName tools name; tcr_input := input |} | _ => None end.
Definition sent_calls (blocks : list sent_block) : list ToolCallRequest := omap block_call blocks.

Lemma omap_pieces {A} (f : ModelStreamEvent → option A) (g : string → option A) event l : (∀ p, f (event p) = g p) →
  omap f (pieces_events event l) = omap g (filter (λ p, p ≠ "") l).
Proof. intros Hf. unfold pieces_events. induction (filter _ l) as [|p l' IH]; [done|]. cbn. by rewrite Hf, IH. Qed.
Lemma omap_Some {A} (l : list A) : omap Some l = l.
Proof. induction l as [|x l IH]; [done|]. cbn. by f_equal. Qed.
Lemma omap_no {A B} (l : list A) : omap (λ _, @None B) l = [].
Proof. by induction l. Qed.

Lemma block_reads ci b : concatenated (omap text_of_event (block_events model modelId tools ci b)) = block_text b ∧
  concatenated (omap thought_of_event (block_events model modelId tools ci b)) = block_thought b ∧
  omap call_of_event (block_events model modelId tools ci b) = option_list (block_call b).
Proof.
  destruct b as [l|l|data|callId name l input]; cbn [block_events block_text block_thought block_call option_list]; rewrite ?omap_app.
  - rewrite (omap_pieces _ Some), (omap_pieces _ (λ _, None)), (omap_pieces _ (λ _, None)), omap_Some, !omap_no by done. by rewrite concatenated_filter.
  - rewrite (omap_pieces _ (λ _, None)), (omap_pieces _ Some), (omap_pieces _ (λ _, None)), omap_Some, !omap_no by done.
    unfold replay_of. destruct (bool_decide _); cbn; rewrite app_nil_r; by rewrite concatenated_filter.
  - unfold replay_of. destruct (bool_decide _); done.
  - cbn. rewrite !omap_app, !(omap_pieces _ (λ _, None)), !omap_no by done. done.
Qed.
Lemma blocks_read blocks : ∀ ci, concatenated (omap text_of_event (events_of ci blocks)) = sent_text blocks ∧
  concatenated (omap thought_of_event (events_of ci blocks)) = sent_thought blocks ∧ omap call_of_event (events_of ci blocks) = sent_calls blocks.
Proof.
  unfold sent_text, sent_thought, sent_calls. induction blocks as [|b blocks IH]; intros ci; [done|]. cbn [blocks_events fmap list_fmap].
  destruct (IH (S ci)) as (Ht & Hth & Hc), (block_reads ci b) as (Ht1 & Hth1 & Hc1).
  rewrite !omap_app, !concatenated_app, !concatenated_cons, Ht, Hth, Hc, Ht1, Hth1, Hc1. split_and!; [done..|]. cbn. by destruct (block_call b).
Qed.

(** The replay events, whose order is that of the blocks. *)
Definition replay_meta (ci : nat) (sg : bool * string) : ReplayEvent :=
  {| rpm_target := "thinking"; rpm_contentIndex := Z.of_nat ci; rpm_providerId := mi_providerId model; rpm_apiDialect := mi_apiDialect model;
     rpm_modelId := modelId; rpm_callId := None; rpm_signature := Some sg.2; rpm_redacted := if sg.1 then Some true else None; rpm_responseId := None;
     rpm_itemId := None; rpm_namespace := None |}.
Fixpoint sent_replays (ci : nat) (blocks : list sent_block) : list ReplayEvent :=
  match blocks with [] => [] | b :: rest => option_list (replay_meta ci <$> block_signature b) ++ sent_replays (S ci) rest end.
Lemma replay_events_app a b : replay_events (a ++ b) = replay_events a ++ replay_events b.
Proof. apply omap_app. Qed.
Lemma block_replays ci b : replay_events (block_events model modelId tools ci b) = option_list (replay_meta ci <$> block_signature b).
Proof.
  assert (Hno : ∀ event l, (∀ p, match event p with ReplayMetadata m => Some m | _ => None end = None) → replay_events (pieces_events event l) = []).
  { intros event l Hn. unfold replay_events. by rewrite (omap_pieces _ (λ _, None)), omap_no. }
  destruct b as [l|l|data|callId name l input]; cbn [block_events block_signature]; rewrite ?replay_events_app, ?Hno by done.
  - done.
  - unfold replay_of. by case_bool_decide.
  - unfold replay_of. by case_bool_decide.
  - change (replay_events (?e :: ?l)) with (replay_events ([e] ++ l)). cbn. rewrite omap_app. fold (replay_events (pieces_events (ToolCallDelta (Z.of_nat ci) callId) l)).
    by rewrite Hno.
Qed.
Lemma blocks_replays blocks : ∀ ci, replay_events (events_of ci blocks) = sent_replays ci blocks.
Proof. induction blocks as [|b blocks IH]; intros ci; [done|]. cbn. by rewrite replay_events_app, block_replays, IH. Qed.

(** ** What is retained of it *)

Lemma sent_replays_spec blocks : ∀ ci, Forall (λ e, (Z.of_nat ci <= rpm_contentIndex e)%Z ∧ ∃ sg cj, e = replay_meta cj sg) (sent_replays ci blocks).
Proof.
  induction blocks as [|b blocks IH]; intros ci; [constructor|]. cbn. apply Forall_app. split.
  - destruct (block_signature b) as [sg|]; cbn; [|constructor]. constructor; [|constructor]. split; [done|by eauto].
  - eapply Forall_impl; [apply IH|]. intros e [? ?]. split; [lia|done].
Qed.
Lemma insert_first e l : Forall (λ x, (rpm_contentIndex e <= rpm_contentIndex x)%Z) l → insert_replay e l = e :: l.
Proof. intros H. destruct H as [|x l Hx _]; [done|]. cbn. by rewrite (proj2 (Z.leb_le _ _) Hx). Qed.
Lemma sent_replays_sorted blocks ci : of_target "thinking" (sent_replays ci blocks) = sent_replays ci blocks.
Proof.
  unfold of_target. assert (Hf : ∀ l, Forall (λ e, ∃ sg cj, e = replay_meta cj sg) l → List.filter (λ e, bool_decide (rpm_target e = "thinking")) l = l).
  { induction 1 as [|e l (sg & cj & ->) _ IH]; [done|]. cbn. by rewrite IH. }
  rewrite Hf by (eapply Forall_impl; [apply sent_replays_spec|naive_solver]). clear Hf. revert ci. induction blocks as [|b blocks IH]; intros ci; [done|]. cbn.
  destruct (block_signature b) as [sg|]; cbn; [|apply IH]. rewrite IH. apply insert_first. eapply Forall_impl; [apply (sent_replays_spec blocks (S ci))|].
  intros e [? _]. cbn. lia.
Qed.
Lemma head_replays blocks : ∀ ci, ∃ cj, head (sent_replays ci blocks) = replay_meta cj <$> head (sent_signatures blocks).
Proof.
  induction blocks as [|b blocks IH]; intros ci; [by exists 0|]. unfold sent_signatures in *. cbn. destruct (block_signature b) as [sg|]; cbn; [by exists ci|apply IH].
Qed.

Definition model_identity : ProviderModelIdentity := {| pmi_providerId := mi_providerId model; pmi_apiDialect := mi_apiDialect model; pmi_modelId := modelId |}.
Definition kept_thought (thought : string) (sg : option (bool * string)) : RequestAssistantContent :=
  match sg with
  | Some (redacted, s) => RThinking thought (Some {| psg_identity := model_identity; psg_value := s |}) (if redacted : bool then Some true else None)
  | None => RThinking thought None None
  end.
Definition message_content (thought text : string) : list content :=
  (if bool_decide (thought = "") then [] else [CThinking thought]) ++ (if bool_decide (text = "") then [] else [CText text]).
Definition kept_content (thought text : string) (sg : option (bool * string)) : list RequestAssistantContent :=
  (if bool_decide (thought = "") then [] else [kept_thought thought sg]) ++ (if bool_decide (text = "") then [] else [RText text None None]).

(** The message is kept with the first signature that came with it. *)
Lemma retained_message thought text calls blocks ci :
  ∃ origin, retain_message (MAssistant (message_content thought text) calls) (sent_replays ci blocks) =
    Ok (RAssistant (kept_content thought text (head (sent_signatures blocks))) (Some (plain_call <$> calls)) origin None) ∧
    (origin = None ∨ origin = Some model_identity).
Proof.
  pose proof (sent_replays_spec blocks ci) as Hs. pose proof (sent_replays_sorted blocks ci) as Hsort. destruct (head_replays blocks ci) as [cj Hh].
  destruct (sent_replays ci blocks) as [|first rest] eqn:E.
  - cbn in Hh. destruct (head (sent_signatures blocks)); [done|]. exists None. split; [|by left]. cbn. unfold message_content, kept_content. do 2 case_bool_decide; done.
  - exists (Some model_identity). split; [|by right]. cbn [retain_message].
    assert (Hall : ∀ e, e ∈ first :: rest → ∃ sg ck, e = replay_meta ck sg) by (intros e He; rewrite Forall_forall in Hs; by destruct (Hs e He)).
    rewrite (proj2 (forallb_forall _ _)).
    2:{ intros e He. apply bool_decide_eq_true. destruct (Hall e) as (sg & ck & ->); [by apply list_elem_of_In|]. destruct (Hall first) as (sg' & ck' & ->); [left|]. done. }
    cbn [require rbind].
    assert (Hid : replay_identity first = model_identity) by (destruct (Hall first) as (sg' & ck' & ->); [left|done]). rewrite Hid.
    assert (Hcont : list_find (λ e, is_Some (rpm_responseId e)) (first :: rest) = None).
    { apply list_find_None, Forall_forall. intros e He. destruct (Hall e He) as (sg & ck & ->). cbn. by intros [? ?]. }
    rewrite Hcont. cbn [fmap option_fmap option_map].
    assert (Hcalls : retain_call (first :: rest) <$> calls = plain_call <$> calls).
    { apply list_fmap_ext. intros _ c _. unfold retain_call. assert (Hn : list_find (λ e, rpm_target e = "tool_call" ∧ rpm_callId e = Some (tcr_callId c)) (first :: rest) = None); [|by rewrite Hn].
      apply list_find_None, Forall_forall. intros e He. destruct (Hall e He) as (sg & ck & ->). cbn. by intros [? ?]. }
    rewrite Hcalls, Hsort. f_equal. f_equal.
    assert (Htext : of_target "text" (first :: rest) = []).
    { unfold of_target. assert (List.filter (λ e, bool_decide (rpm_target e = "text")) (first :: rest) = []) as ->; [|done].
      clear -Hall. induction (first :: rest) as [|e l IH]; [done|]. cbn. destruct (Hall e) as (sg & ck & ->); [left|]. cbn. apply IH. intros e' He'. apply Hall. by right. }
    rewrite Htext. unfold message_content, kept_content.
    assert (Hk : retain_thinking thought (Some first) = kept_thought thought (head (sent_signatures blocks))).
    { cbn in Hh. destruct (head (sent_signatures blocks)) as [[redacted sg]|]; [|done]. injection Hh as ->. cbn. by destruct redacted. }
    do 2 case_bool_decide; cbn [retain_content app head tail]; by rewrite ?Hk.
Qed.
End Message.

(** ** What is sent back *)

Definition wire_thought (thought : string) (sg : option (bool * string)) : list jsval :=
  if bool_decide (thought = "") then []
  else match sg with
       | None => [JObj [("type", JStr "text"); ("text", JStr thought)]]
       | Some (true, data) => [JObj [("type", JStr "redacted_thinking"); ("data", JStr data)]]
       | Some (false, s) => [JObj [("type", JStr "thinking"); ("thinking", JStr thought); ("signature", JStr s)]]
       end.
Definition wire_call (b : sent_block) : option jsval :=
  match b with
  | SentTool callId name _ input => Some (JObj [("type", JStr "tool_use"); ("id", JStr callId); ("name", JStr name); ("input", JObj input)])
  | _ => None
  end.
(** The blocks of the message in a later request. *)
Definition returned (blocks : list sent_block) : list jsval :=
  wire_thought (sent_thought blocks) (head (sent_signatures blocks)) ++ text_block (sent_text blocks) ++ omap wire_call blocks.

Definition sent_id (b : sent_block) : option string := match b with SentTool callId _ _ _ => Some callId | _ => None end.
Definition sent_ids (blocks : list sent_block) : list string := omap sent_id blocks.

Section Return.
Context (digest : string → list Z) (model : ModelInfo) (tools : list PreparedToolDeclaration) (dialect : ToolDialectData).
Let target := targetIdentity model.

(** The tools of a request have names of their own, as the roster sees to. *)
Definition tools_named : Prop := NoDup (ptd_name <$> tools) ∧ NoDup (ptd_canonicalName <$> tools) ∧ Forall (λ t, ptd_canonicalName t ≠ "") tools.
(** A call of a declared tool, under an identifier the interface takes. *)
Definition call_known (b : sent_block) : Prop :=
  match b with SentTool callId name _ _ => name ∈ ptd_name <$> tools ∧ toolCallIdRule (mi_apiDialect model) callId = true | _ => True end.

Lemma name_returns name : tools_named → name ∈ ptd_name <$> tools → visible_name tools dialect (reverseToolName tools name) = Ok name ∧ reverseToolName tools name ≠ "".
Proof.
  intros (Hn & Hc & He) (t & -> & Ht)%list_elem_of_fmap.
  assert (Hr : reverseToolName tools (ptd_name t) = ptd_canonicalName t).
  { unfold reverseToolName. pose proof (find_unique ptd_name tools t Hn Ht) as Hf. destruct (list_find _ tools) as [[i t']|]; cbn in Hf; [by injection Hf as ->|done]. }
  rewrite Hr. split; [|rewrite Forall_forall in He; by apply He].
  unfold visible_name. pose proof (find_unique ptd_canonicalName tools t Hc Ht) as Hf. destruct (list_find _ tools) as [[i t']|]; cbn in Hf; [by injection Hf as ->|done].
Qed.

Lemma sanitized_content path thought text sg sans items sans' :
  map_sans (λ i, sanitizeContent target (path i)) 0 (kept_content model (mi_modelId model) thought text sg) sans = Ok (items, sans') →
  items = kept_content model (mi_modelId model) thought text sg.
Proof.
  assert (Hthought : ∀ p sans i sans', sanitizeContent target p (kept_thought model (mi_modelId model) thought sg) sans = Ok (i, sans') → i = kept_thought model (mi_modelId model) thought sg).
  { intros p sans0 i sans1. unfold kept_thought. destruct sg as [[redacted s]|]; cbn [sanitizeContent]; intros H; apply bind_Ok in H as ([s1 sans2] & Hs & H);
      apply bind_Ok in H as (_ & _ & H); apply bind_Ok in H as (_ & _ & H); injection H as <- _; apply keepSignature_spec in Hs; rewrite Hs; [|done].
    unfold kept. rewrite bool_decide_true by done. by destruct redacted. }
  assert (Htext : ∀ p sans i sans', sanitizeContent target p (RText text None None) sans = Ok (i, sans') → i = RText text None None).
  { intros p sans0 i sans1 H. cbn in H. by injection H as <- _. }
  unfold kept_content. do 2 case_bool_decide; cbn [app map_sans]; intros Hs.
  - by injection Hs as <- _.
  - apply bind_Ok in Hs as ([y s1] & Hy & Hs). injection Hs as <- _. f_equal. by eapply Htext.
  - apply bind_Ok in Hs as ([y s1] & Hy & Hs). injection Hs as <- _. f_equal. by eapply Hthought.
  - apply bind_Ok in Hs as ([y s1] & Hy & Hs). apply bind_Ok in Hs as ([ys s2] & Hys & Hs). injection Hs as <- _.
    apply bind_Ok in Hys as ([z s3] & Hz & Hys). injection Hys as <- _. f_equal; [by eapply Hthought|]. f_equal. by eapply Htext.
Qed.

Lemma calls_return blocks : tools_named → Forall call_known blocks → NoDup (sent_ids blocks) → ∀ path i h calls h',
  (∀ id, id ∈ sent_ids blocks → id ∉ hs_occupied h) →
  prepare_calls digest model tools dialect path i (plain_call <$> sent_calls tools blocks) h = Ok (calls, h') →
  call_block <$> calls = omap wire_call blocks ∧ Forall (λ c, ptc_signature c = None ∧ ptc_continuation c = None) calls.
Proof.
  intros Ht Hk Hd. unfold sent_ids, sent_calls in *. induction Hk as [|b blocks Hb _ IH]; intros path i h calls h' Hocc H; [by injection H as <- _|].
  destruct b as [l|l|data|callId name l input]; cbn [omap list_omap sent_id block_call wire_call] in *; [by eapply IH..|].
  apply NoDup_cons in Hd as [Hnew Hd]. destruct Hb as [Hname Hrule]. cbn [fmap list_fmap prepare_calls] in H. apply bind_Ok in H as ([c h1] & Hc & H).
  apply bind_Ok in H as ([cs h2] & Hcs & [= <- <-]). unfold prepare_call in Hc. cbn [plain_call rtc_callId rtc_name rtc_input rtc_signature rtc_continuation tcr_callId tcr_name tcr_input] in Hc.
  apply bind_Ok in Hc as (_ & _ & Hc). apply bind_Ok in Hc as (_ & _ & Hc). apply bind_Ok in Hc as (_ & _ & Hc). apply bind_Ok in Hc as (_ & _ & Hc).
  assert (Hid : normalizedToolCallId digest callId (mi_apiDialect model) (hs_occupied h) = Ok callId).
  { unfold normalizedToolCallId. rewrite Hrule, bool_decide_false; [done|]. apply Hocc. left. }
  rewrite Hid in Hc. cbn [rbind] in Hc. rewrite (proj1 (name_returns name Ht Hname)) in Hc. cbn [rbind keepSignature keepContinuation] in Hc. injection Hc as <- <-.
  apply (IH Hd) in Hcs as [IH1 IH2]; [split; [cbn; by rewrite IH1|by constructor]|].
  intros id Hin. cbn. rewrite elem_of_app, list_elem_of_singleton. intros [Ho| ->]; [|done]. revert Ho. apply Hocc. by right.
Qed.
End Return.

(** A block as it was sent. *)
Definition wire_block (b : sent_block) : jsval :=
  match b with
  | SentText pieces => JObj [("type", JStr "text"); ("text", JStr (concatenated pieces))]
  | SentThinking pieces =>
      JObj [("type", JStr "thinking"); ("thinking", JStr (concatenated (omap thought_of pieces))); ("signature", JStr (concatenated (omap signature_of pieces)))]
  | SentRedacted data => JObj [("type", JStr "redacted_thinking"); ("data", JStr data)]
  | SentTool callId name _ input => JObj [("type", JStr "tool_use"); ("id", JStr callId); ("name", JStr name); ("input", JObj input)]
  end.
(** At most one thought, then at most one text, then calls. *)
Inductive in_order : list sent_block → Prop :=
| order_calls calls : Forall (λ b, is_Some (sent_id b)) calls → in_order calls
| order_text pieces calls : concatenated pieces ≠ "" → Forall (λ b, is_Some (sent_id b)) calls → in_order (SentText pieces :: calls)
| order_thought b text calls : block_thought b ≠ "" → is_Some (block_signature b) →
    Forall (λ p, concatenated p ≠ "") (option_list text) → Forall (λ b, is_Some (sent_id b)) calls →
    in_order (b :: (SentText <$> option_list text) ++ calls).

Lemma calls_only blocks : Forall (λ b, is_Some (sent_id b)) blocks →
  sent_thought blocks = "" ∧ sent_text blocks = "" ∧ sent_signatures blocks = [] ∧ omap wire_call blocks = wire_block <$> blocks.
Proof.
  unfold sent_thought, sent_text, sent_signatures. induction 1 as [|b blocks [x Hb] _ (H1 & H2 & H3 & H4)]; [done|]. destruct b; try done.
  cbn [fmap list_fmap omap list_omap block_thought block_text block_signature wire_call wire_block]. rewrite !concatenated_cons, H1, H2, H3, H4. done.
Qed.
Lemma text_block_nonempty text : text ≠ "" → text_block text = [JObj [("type", JStr "text"); ("text", JStr text)]].
Proof. intros H. unfold text_block. by rewrite bool_decide_false. Qed.
Lemma returned_in_order blocks : in_order blocks → returned blocks = wire_block <$> blocks.
Proof.
  intros [calls Hc|pieces calls Hp Hc|b text calls Hb [sg Hsg] Ht Hc]; destruct (calls_only calls Hc) as (H1 & H2 & H3 & H4); unfold returned.
  - rewrite H1, H2, H4. done.
  - unfold sent_thought, sent_text, sent_signatures in *. cbn [fmap list_fmap omap list_omap block_thought block_text block_signature wire_call wire_block].
    rewrite !concatenated_cons, H1, H2, H3, H4, !string_app_nil_r, text_block_nonempty by done. done.
  - assert (Hrest : sent_thought ((SentText <$> option_list text) ++ calls) = "" ∧ text_block (sent_text ((SentText <$> option_list text) ++ calls)) ++ omap wire_call ((SentText <$> option_list text) ++ calls)
        = wire_block <$> ((SentText <$> option_list text) ++ calls)).
    { unfold sent_thought, sent_text in *. destruct text as [pieces|]; cbn [option_list fmap list_fmap app omap list_omap block_thought block_text wire_call wire_block] in *.
      - apply Forall_inv in Ht. rewrite !concatenated_cons, H1, H2, H4, !string_app_nil_r, text_block_nonempty by done. done.
      - rewrite H1, H2, H4. done. }
    destruct Hrest as [Hth Hrest]. remember ((SentText <$> option_list text) ++ calls) as rest eqn:Er. clear Er.
    assert (Hthought : sent_thought (b :: rest) = block_thought b) by (unfold sent_thought in *; cbn [fmap list_fmap]; rewrite concatenated_cons, Hth; apply string_app_nil_r).
    assert (Hsig : head (sent_signatures (b :: rest)) = Some sg) by (unfold sent_signatures; cbn [omap list_omap]; by rewrite Hsg). rewrite Hthought, Hsig.
    cbn [fmap list_fmap]. rewrite <- Hrest. unfold wire_thought. rewrite bool_decide_false by done.
    destruct b as [l|l|data|]; try done; cbn [block_signature] in Hsg; case_bool_decide; try done; injection Hsg as <-; cbn [block_thought wire_block];
      unfold sent_text; cbn [fmap list_fmap block_text omap list_omap wire_call app]; by rewrite concatenated_cons.
Qed.

(** The input of a call is JSON the port accepts. *)
Definition input_ok (b : sent_block) : Prop :=
  match b with SentTool _ _ _ input => StreamChecks.validateJson (JObj input) "modelStreamEvent.input" = Ok tt | _ => True end.

Section Events.
Context (model : ModelInfo) (tools : list PreparedToolDeclaration).
Context (provider_named : mi_providerId model ≠ "") (dialect_named : mi_apiDialect model ≠ "") (model_named : mi_modelId model ≠ "").
Context (tools_ok : tools_named tools).

Definition fine (e : ModelStreamEvent) : Prop := passes e ∧ isTerminalModelStreamEvent e = false.
Lemma pieces_fine event l : (∀ p, fine (event p)) → Forall fine (pieces_events event l).
Proof. intros H. apply Forall_fmap, Forall_forall. intros p _. apply H. Qed.
Lemma replay_fine ci redacted signature : in_range ci → Forall fine (replay_of model (mi_modelId model) ci redacted signature).
Proof. intros H. unfold replay_of. case_bool_decide as Hs; constructor; [|constructor]. split; [by apply replay_passes|done]. Qed.
Lemma block_fine ci b i fs : in_range ci → sends i b fs → call_known model tools b → input_ok b → Forall fine (block_events model (mi_modelId model) tools ci b).
Proof.
  intros Hci Hs Hk Hi. destruct b as [l|l|data|callId name l input]; cbn [block_events].
  - apply pieces_fine. intros p. split; [by apply text_passes|done].
  - apply Forall_app. split; [|by apply replay_fine]. apply pieces_fine. intros p. split; [by apply thought_passes|done].
  - constructor; [split; [by apply thought_passes|done]|]. by apply replay_fine.
  - destruct Hk as [Hn _]. pose proof (name_returns tools OPENAI_CHAT_TOOL_DIALECT name tools_ok Hn) as [_ Hname]. assert (Hid : callId ≠ "") by (by inversion Hs).
    constructor; [split; [by apply call_start_passes|done]|]. apply Forall_app. split.
    + apply pieces_fine. intros p. split; [by apply call_delta_passes|done].
    + constructor; [|constructor]. split; [by apply call_passes|done].
Qed.
Lemma blocks_fine blocks frames : Forall2 (λ b fs, ∃ i, (0 <= i <= MAX_SAFE_INTEGER)%Z ∧ sends i b fs) blocks frames → Forall (call_known model tools) blocks → Forall input_ok blocks →
  ∀ ci, in_range (ci + length blocks) → Forall fine (blocks_events model (mi_modelId model) tools ci blocks).
Proof.
  induction 1 as [|b fs blocks frames (i & _ & Hs) _ IH]; intros Hk Hi ci Hci; [constructor|]. apply Forall_cons in Hk as [Hk Hks], Hi as [Hi His]. cbn in *.
  apply Forall_app. split; [eapply block_fine; [|done..]; unfold in_range in *; lia|]. apply IH; [done..|]. by rewrite Nat.add_succ_comm.
Qed.
End Events.

Lemma nonempty_str_named v : nonempty_str v ≠ Some "".
Proof. unfold nonempty_str. destruct v; try done. case_bool_decide; [done|]. by intros [= ->]. Qed.

(** What the session reads of a message. *)
Lemma message_read model tools secretValues latencyMs blocks id routed reason u frames received stop partial aborted ae :
  is_ok (compatibility model) = true → mi_providerId model ≠ "" → mi_modelId model ≠ "" → tools_named tools →
  (∀ n, latencyMs = Some n → is_finite n = true ∧ is_negative n = false) → in_range (length blocks) →
  Forall (call_known model tools) blocks → Forall input_ok blocks →
  sends_message blocks id routed reason u frames → filter relevant received = frames → completes reason = Some (stop, partial) →
  ∃ response, normalizeModelStream aborted false (decodeAnthropicMessagesStream model (mi_modelId model) tools secretValues latencyMs ((λ f, (false, f)) <$> received) ae) =
    blocks_events model (mi_modelId model) tools 0 blocks ++ [Completed stop u partial response []].
Proof.
  intros Hc Hp Hm Ht Hl Hn Hk Hi Hs Hr Hstop. rewrite (message_decoded _ _ _ _ _ _ _ _ _ _ _ _ _ _ _ Hc Hs Hr Hstop). eexists.
  assert (Hd : mi_apiDialect model ≠ "").
  { unfold compatibility in Hc. destruct (bool_decide (mi_apiDialect model = "anthropic-messages")) eqn:E; [|done]. apply bool_decide_eq_true in E. by rewrite E. }
  destruct Hs as [start message u1 f bframes sr delta u2 g last_ h Hf Hmsg Hid Hmodel Hu1 Hblocks Hg Hdelta Hreason Hdet Hu2 Hu Hh].
  apply normalize_passes; [by eapply blocks_fine| |done]. apply completed_passes; [by eapply usage_is_ok|].
  split_and!; cbn; [done|done|rewrite <- Hmodel; apply nonempty_str_named|rewrite <- Hid; apply nonempty_str_named| |exact Hl]. intros [= ->]. by vm_compute in Hstop.
Qed.

Lemma replay_of_read model modelId tools blocks t : (∀ m, t ≠ ReplayMetadata m) → replay_events (blocks_events model modelId tools 0 blocks ++ [t]) = sent_replays model modelId 0 blocks.
Proof. intros Ht. rewrite replay_events_app, blocks_replays. destruct t; cbn; rewrite ?app_nil_r; try done. by destruct (Ht metadata). Qed.

Lemma modelAttempt_reads {L E} `{EventStore L E} (env : environment) cfg op n l (s : session L) configured events stop u partial response o n' l' s' :
  Forall (λ e, isTerminalModelStreamEvent e = false) events →
  env_stream env (d_streams (ss_draws s)) = (Configured <$> option_list configured) ++ (Yield <$> (events ++ [Completed stop u partial response []])) →
  modelAttempt env cfg op n l s = (o, n', l', s') → to_stopReason o = stop → stop ≠ SError → stop ≠ SAborted →
  to_content o = message_content (concatenated (omap thought_of_event events)) (concatenated (omap text_of_event events)) ∧ to_toolCalls o = omap call_of_event events.
Proof.
  intros Hn Hs Hattempt Hstop He Ha. unfold modelAttempt in Hattempt. rewrite Hs in Hattempt.
  assert (Hreads : ∀ a s0 a' t s1, at_text a = "" → at_thinking a = "" → at_calls a = [] → attempt_loop env op (Yield <$> (events ++ [Completed stop u partial response []])) a s0 = (a', t, s1) →
    t = Some (TCompleted stop u) ∧ at_text a' = concatenated (omap text_of_event events) ∧ at_thinking a' = concatenated (omap thought_of_event events) ∧ at_calls a' = omap call_of_event events).
  { intros a s0 a' t s1 Ht Hth Hc Hrun. destruct (attempt_reads env op events (Completed stop u partial response []) _ Hn eq_refl a s0) as (a2 & s2 & Hrun2 & H1 & H2 & H3).
    rewrite Hrun in Hrun2. injection Hrun2 as <- -> _. rewrite H1, H2, H3, Ht, Hth, Hc. done. }
  destruct configured as [c|]; cbn [option_list fmap list_fmap app] in Hattempt.
  - cbn [attempt_loop] in Hattempt. destruct (append_raw _ _ _ _) as [[e|err] s1] eqn:Ea.
    + destruct (attempt_loop _ _ _ _ _) as [[a t] s2] eqn:El. apply Hreads in El as (-> & H1 & H2 & H3); [|done..]. injection Hattempt as <- _ _ _. cbn.
      unfold message_content. by rewrite H1, H2, H3.
    + injection Hattempt as <- _ _ _. exfalso. unfold port_failure in Hstop. destruct (ss_aborted _); cbn in Hstop; by subst.
  - destruct (attempt_loop _ _ _ _ _) as [[a t] s2] eqn:El. apply Hreads in El as (-> & H1 & H2 & H3); [|done..]. injection Hattempt as <- _ _ _. cbn.
    unfold message_content. by rewrite H1, H2, H3.
Qed.

Lemma kept_blocks model j thought text sg : ∃ parts, map_indexed (λ _, assistant_block j) (kept_content model (mi_modelId model) thought text sg) = Ok parts ∧
  mjoin parts = wire_thought thought sg ++ text_block text.
Proof.
  unfold kept_content, wire_thought, text_block, kept_thought.
  destruct (bool_decide_reflect (thought = "")) as [->|Hth], (bool_decide_reflect (text = "")) as [->|Htx]; destruct sg as [[[] s]|]; eexists;
    (split; [cbn; unfold text_block; rewrite ?(bool_decide_false _ Hth), ?(bool_decide_false _ Htx); reflexivity|done]).
Qed.
Lemma wire_calls_nil tools blocks : omap wire_call blocks = [] → sent_calls tools blocks = [].
Proof. unfold sent_calls. induction blocks as [|b blocks IH]; [done|]. by destruct b. Qed.

(** What a retained message becomes in the body of a request to the same model. *)
Lemma retained_returns digest model tools dialect blocks i j h origin p h' : tools_named tools → Forall (call_known model tools) blocks → NoDup (sent_ids blocks) →
  (∀ id, id ∈ sent_ids blocks → id ∉ hs_occupied h) →
  prepare_message digest model tools dialect i
    (RAssistant (kept_content model (mi_modelId model) (sent_thought blocks) (sent_text blocks) (head (sent_signatures blocks))) (Some (plain_call <$> sent_calls tools blocks)) origin None) h
    = Ok (p, h') →
  ∃ items calls, p = PAssistant items (Some calls) origin None ∧ assistantContent j items (Some calls) None = Ok (returned blocks).
Proof.
  intros Ht Hk Hd Hocc H. unfold prepare_message in H. apply bind_Ok in H as (u0 & Hempty & H). apply fail_if_Ok in Hempty. apply bind_Ok in H as (_ & _ & H). apply bind_Ok in H as (_ & _ & H).
  cbn [keepContinuation rbind] in H. apply bind_Ok in H as ([items sans] & Hitems & H). apply sanitized_content in Hitems. subst items.
  apply bind_Ok in H as ([calls h2] & Hcalls & [= <- <-]). eexists _, calls. split; [done|].
  apply calls_return in Hcalls as [Hcalls Hplain]; [|done..|by intros id Hin; cbn; apply Hocc].
  assert (Hreject : rejectContinuation j (kept_content model (mi_modelId model) (sent_thought blocks) (sent_text blocks) (head (sent_signatures blocks))) (Some calls) None = Ok tt).
  { unfold rejectContinuation. cbn [refuse is_Some]. rewrite bool_decide_false by (by intros [? ?]). cbn [refuse rbind].
    eapply bind_value with (v := tt); apply each_indexed_Ok; intros k x Hx.
    - unfold kept_content in Hx. apply list_elem_of_lookup_2 in Hx. unfold kept_thought in Hx. do 2 case_bool_decide; destruct (head _) as [[]|]; set_solver.
    - rewrite Forall_lookup in Hplain. destruct (Hplain k x Hx) as [-> ->]. by rewrite !bool_decide_false by (by intros [? ?]). }
  unfold assistantContent. rewrite Hreject. cbn [rbind]. destruct (kept_blocks model j (sent_thought blocks) (sent_text blocks) (head (sent_signatures blocks))) as (parts & -> & Hparts).
  cbn [rbind default from_option id]. rewrite Hparts, Hcalls, <- app_assoc. fold (returned blocks). rewrite bool_decide_false; [done|]. intros Hnil.
  apply app_nil in Hnil as [Hth Hnil]. apply app_nil in Hnil as [Htx Hwc]. unfold wire_thought in Hth. unfold text_block in Htx. unfold kept_content in Hempty.
  destruct (bool_decide (sent_thought blocks = "")); [|by destruct (head (sent_signatures blocks)) as [[[] ?]|]]. destruct (bool_decide (sent_text blocks = "")); [|done].
  apply wire_calls_nil with (tools := tools) in Hwc. by rewrite Hwc in Hempty.
Qed.

(** C12: a turn survives the round trip. When a model's message arrives, however it was cut into
    frames and whatever else was sent between them, the session's turn has its thoughts, its text
    and its calls by the names the session knows; and in a later request to that model, the turn is
    its text and its calls as they were sent, under their identifiers, after all of its thoughts
    under the first of their signatures: which is the message itself when it was at most one
    thought, one text, and calls. *)
Theorem anthropic_turn_returns {L E} `{EventStore L E} (env : environment) cfg op n l (s : session L) configured
    model tools secretValues latencyMs blocks id routed reason u frames received stop partial aborted ae o n' l' s' :
  is_ok (compatibility model) = true → mi_providerId model ≠ "" → mi_modelId model ≠ "" → tools_named tools →
  (∀ t, latencyMs = Some t → is_finite t = true ∧ is_negative t = false) → in_range (length blocks) →
  Forall (call_known model tools) blocks → Forall input_ok blocks → NoDup (sent_ids blocks) →
  sends_message blocks id routed reason u frames → filter relevant received = frames → completes reason = Some (stop, partial) →
  let events := normalizeModelStream aborted false (decodeAnthropicMessagesStream model (mi_modelId model) tools secretValues latencyMs ((λ f, (false, f)) <$> received) ae) in
  env_stream env (d_streams (ss_draws s)) = (Configured <$> option_list configured) ++ (Yield <$> events) →
  modelAttempt env cfg op n l s = (o, n', l', s') → to_stopReason o = stop →
  to_content o = message_content (sent_thought blocks) (sent_text blocks) ∧ to_toolCalls o = sent_calls tools blocks ∧
  (∃ kept, retain_message (MAssistant (to_content o) (to_toolCalls o)) (replay_events events) = Ok kept ∧
    ∀ digest dialect i j h p h', (∀ id, id ∈ sent_ids blocks → id ∉ hs_occupied h) → prepare_message digest model tools dialect i kept h = Ok (p, h') →
      ∃ items calls origin, p = PAssistant items (Some calls) origin None ∧ assistantContent j items (Some calls) None = Ok (returned blocks)) ∧
  (in_order blocks → returned blocks = wire_block <$> blocks).
Proof.
  intros Hc Hp Hm Ht Hl Hn Hk Hi Hd Hs Hr Hstop events Hstream Hattempt Hreason.
  destruct (message_read model tools secretValues latencyMs _ _ _ _ _ _ _ _ _ aborted ae Hc Hp Hm Ht Hl Hn Hk Hi Hs Hr Hstop) as [response Hread].
  assert (Hnon : Forall (λ e, isTerminalModelStreamEvent e = false) (blocks_events model (mi_modelId model) tools 0 blocks)).
  { destruct Hs as [start message u1 f bframes sr delta u2 g last_ h Hf Hmsg Hid Hmodel Hu1 Hblocks Hg Hdelta Hsr Hdet Hu2 Hu Hh].
    eapply Forall_impl; [eapply blocks_fine|by intros e [_ He]]; try done. clear -Hc. unfold compatibility in Hc.
    destruct (bool_decide (mi_apiDialect model = "anthropic-messages")) eqn:E0; [|done]. apply bool_decide_eq_true in E0. by rewrite E0. }
  destruct (blocks_read model (mi_modelId model) tools blocks 0) as (Htext & Hthought & Hcalls).
  subst events. rewrite Hread in *. destruct (modelAttempt_reads _ _ _ _ _ _ _ _ _ _ _ _ _ _ _ _ Hnon Hstream Hattempt Hreason) as [Hcontent Htools].
  { unfold completes in Hstop. repeat case_bool_decide; try done; by injection Hstop as <- _. }
  { unfold completes in Hstop. repeat case_bool_decide; try done; by injection Hstop as <- _. }
  rewrite Htext, Hthought in Hcontent. rewrite Hcalls in Htools. rewrite Hcontent, Htools. split; [done|]. split; [done|].
  split; [|apply returned_in_order]. rewrite replay_of_read by done.
  destruct (retained_message model (mi_modelId model) (sent_thought blocks) (sent_text blocks) (sent_calls tools blocks) blocks 0) as (origin & Hkept & _).
  eexists. split; [exact Hkept|]. intros digest dialect i j h p h' Hocc Hprep.
  destruct (retained_returns digest model tools dialect blocks i j h origin p h' Ht Hk Hd Hocc Hprep) as (items & calls & -> & Ha). by exists items, calls, origin.
Qed.

(** ** A message *)

Definition sample_frame (type : string) (fs : fields) : SseFrame := {| sse_event := Some type; sse_data := json_text (JObj (("type", JStr type) :: fs)) |}.
Definition frame_start (i : Z) (block : fields) : SseFrame := sample_frame "content_block_start" [("index", JInt i); ("content_block", JObj block)].
Definition frame_delta (i : Z) (delta : fields) : SseFrame := sample_frame "content_block_delta" [("index", JInt i); ("delta", JObj delta)].
Definition frame_stop (i : Z) : SseFrame := sample_frame "content_block_stop" [("index", JInt i)].
Definition frame_thought (i : Z) (text : string) : SseFrame := frame_delta i [("type", JStr "thinking_delta"); ("thinking", JStr text)].
Definition frame_signature (i : Z) (s : string) : SseFrame := frame_delta i [("type", JStr "signature_delta"); ("signature", JStr s)].
Definition frame_text (i : Z) (text : string) : SseFrame := frame_delta i [("type", JStr "text_delta"); ("text", JStr text)].
Definition frame_input (i : Z) (text : string) : SseFrame := frame_delta i [("type", JStr "input_json_delta"); ("partial_json", JStr text)].
Definition thinking_start (i : Z) : SseFrame := frame_start i [("type", JStr "thinking"); ("thinking", JStr ""); ("signature", JStr "")].
Definition text_start (i : Z) : SseFrame := frame_start i [("type", JStr "text"); ("text", JStr "")].
Definition tool_start (i : Z) (id name : string) : SseFrame := frame_start i [("type", JStr "tool_use"); ("id", JStr id); ("name", JStr name); ("input", JObj [])].
Definition sample_counts : jsval := JObj [("input_tokens", JInt 25); ("output_tokens", JInt 3)].
Definition message_start : SseFrame := sample_frame "message_start" [("message", JObj [("id", JStr "msg_1"); ("model", JStr "m-1"); ("usage", sample_counts)])].
Definition message_delta (reason : string) : SseFrame :=
  sample_frame "message_delta" [("delta", JObj [("stop_reason", JStr reason); ("stop_details", JNull)]); ("usage", JObj [("output_tokens", JInt 90)])].
Definition message_stop : SseFrame := sample_frame "message_stop" [].

Definition sample_input : fields := [("path", JStr "a.txt")].
Definition sample_args : string := json_text (JObj sample_input).
Definition sample_args_pieces : list string := [String.substring 0 5 sample_args; ""; String.substring 5 (String.length sample_args - 5) sample_args].
Definition sample_block_frames : list (list SseFrame) :=
  [[thinking_start 0; frame_thought 0 "Look "; frame_thought 0 "first."; frame_signature 0 "c2ln"; frame_stop 0];
   [text_start 1; frame_text 1 "I will "; frame_text 1 "read it."; frame_stop 1];
   (tool_start 2 "toolu_1" "mcp_read" :: (frame_input 2 <$> sample_args_pieces)) ++ [frame_stop 2]].
Definition sample_blocks : list sent_block :=
  [SentThinking [ThoughtPiece ""; SignaturePiece ""; ThoughtPiece "Look "; ThoughtPiece "first."; SignaturePiece "c2ln"];
   SentText [""; "I will "; "read it."];
   SentTool "toolu_1" "mcp_read" sample_args_pieces sample_input].
Definition sample_received : list SseFrame :=
  message_start :: {| sse_event := Some "ping"; sse_data := "{}" |} :: mjoin sample_block_frames ++ [message_delta "tool_use"; message_stop].
Definition sample_message_usage : Usage :=
  {| usage_inputTokens := 25; usage_outputTokens := 90; usage_cacheReadTokens := 0; usage_cacheWriteTokens := 0; usage_reasoningTokens := Some 0%Z; usage_costUsd := None |}.

Definition sample_frames : list SseFrame := message_start :: mjoin sample_block_frames ++ [message_delta "tool_use"; message_stop].

Ltac carried := split_and!; [intros ? [= <-]; unfold known_frames; set_solver|vm_compute; reflexivity|reflexivity].
Ltac frame_sent := eexists; split; [carried|split; reflexivity].
Ltac delta_sent := eexists; split; [frame_sent|split; reflexivity].
Ltac block_bounds := split; [unfold MAX_SAFE_INTEGER; lia|].
Lemma sample_message_sent : sends_message sample_blocks (Some "msg_1") (Some "m-1") "tool_use" sample_message_usage sample_frames.
Proof.
  eapply (sends_whole _ _ _ _ _ _ _ _ message_start sample_block_frames); [carried|reflexivity..|vm_compute; reflexivity| |carried|reflexivity|reflexivity|by right|vm_compute; reflexivity|reflexivity|carried].
  constructor; [exists 0%Z; block_bounds|constructor; [exists 1%Z; block_bounds|constructor; [exists 2%Z; block_bounds|constructor]]].
  - apply (sends_thinking 0 [("type", JStr "thinking"); ("thinking", JStr ""); ("signature", JStr "")] (thinking_start 0) [frame_thought 0 "Look "; frame_thought 0 "first."; frame_signature 0 "c2ln"]);
      [split; [frame_sent|reflexivity]|repeat constructor; delta_sent|eexists; split; [carried|reflexivity]].
  - apply (sends_text 1 [("type", JStr "text"); ("text", JStr "")] (text_start 1) [frame_text 1 "I will "; frame_text 1 "read it."]);
      [split; [frame_sent|reflexivity]|repeat constructor; delta_sent|eexists; split; [carried|reflexivity]].
  - apply (sends_tool 2 [("type", JStr "tool_use"); ("id", JStr "toolu_1"); ("name", JStr "mcp_read"); ("input", JObj [])] _ _ _ "toolu_1" "mcp_read" "");
      [split; [frame_sent|reflexivity]|done|done|done|done|right; by exists []|repeat constructor; delta_sent|eexists; split; [carried|reflexivity]|vm_compute; reflexivity].
Qed.

Definition sample_tools : list PreparedToolDeclaration :=
  [{| ptd_name := "mcp_read"; ptd_canonicalName := "mcp.read"; ptd_description := "d"; ptd_inputSchema := []; ptd_constraint := None; ptd_preparedConstraint := None |}].
Definition sample_events : list ModelStreamEvent :=
  normalizeModelStream false false (decodeAnthropicMessagesStream budget_model "m" sample_tools [] None ((λ f, (false, f)) <$> sample_received) false).
Definition sample_configuration : ModelRequestConfiguration :=
  {| mrc_maxOutputTokens := 16000; mrc_httpIdleTimeoutMs := 300000; mrc_estimatedInputTokens := 10; mrc_contextWindow := 200000;
     mrc_contextReserveTokens := 16000; mrc_modelMaxOutputTokens := 64000 |}.
Definition sample_stream_items : list stream_item := Configured sample_configuration :: (Yield <$> sample_events).
Definition sample_attempt (s : session (list event)) : TurnOutcome * nat * list event * session (list event) :=
  modelAttempt (sample_environment [sample_stream_items]) (sample_settings []) (sample_fresh 9) 0 [] s.
Lemma sample_attempt_runs : ∃ s, sample_session [sample_stream_items] [] = Ok s ∧ to_stopReason (sample_attempt s).1.1.1 = SToolUse ∧
  env_stream (sample_environment [sample_stream_items]) (d_streams (ss_draws s)) =
    (Configured <$> option_list (Some sample_configuration)) ++
    (Yield <$> normalizeModelStream false false (decodeAnthropicMessagesStream budget_model "m" sample_tools [] None ((λ f, (false, f)) <$> sample_received) false)).
Proof.
  assert (Hstop : rmap (λ s, to_stopReason (sample_attempt s).1.1.1) (sample_session [sample_stream_items] []) = Ok SToolUse) by (vm_compute; reflexivity).
  assert (Hdraws : rmap (λ s, d_streams (ss_draws s)) (sample_session [sample_stream_items] []) = Ok 0) by (vm_compute; reflexivity).
  destruct (sample_session [sample_stream_items] []) as [s|]; [|discriminate]. injection Hstop as Hstop. injection Hdraws as Hdraws.
  exists s. split; [reflexivity|]. split; [exact Hstop|]. rewrite Hdraws. cbn [option_list fmap list_fmap app]. reflexivity.
Qed.

Lemma anthropic_turn_returns_witness : ∃ s o n' l' s', sample_session [sample_stream_items] [] = Ok s ∧ sample_attempt s = (o, n', l', s') ∧ to_stopReason o = SToolUse ∧
  to_content o = [CThinking "Look first."; CText "I will read it."] ∧
  to_toolCalls o = [{| tcr_callId := "toolu_1"; tcr_name := "mcp.read"; tcr_input := sample_input |}] ∧
  (∃ kept, retain_message (MAssistant (to_content o) (to_toolCalls o))
      (replay_events (normalizeModelStream false false (decodeAnthropicMessagesStream budget_model "m" sample_tools [] None ((λ f, (false, f)) <$> sample_received) false))) = Ok kept ∧
    ∀ digest dialect i j h p h', (∀ id, id ∈ sent_ids sample_blocks → id ∉ hs_occupied h) → prepare_message digest budget_model sample_tools dialect i kept h = Ok (p, h') →
      ∃ items calls origin, p = PAssistant items (Some calls) origin None ∧ assistantContent j items (Some calls) None = Ok (returned sample_blocks)) ∧
  returned sample_blocks = wire_block <$> sample_blocks.
Proof.
  destruct sample_attempt_runs as (s & Hs & Hstop & Hstream). destruct (sample_attempt s) as [[[o n'] l'] s'] eqn:Ea.
  exists s, o, n', l', s'. split; [exact Hs|]. split; [exact Ea|]. split; [exact Hstop|].
  destruct (anthropic_turn_returns (sample_environment [sample_stream_items]) (sample_settings []) (sample_fresh 9) 0 [] s (Some sample_configuration)
      budget_model sample_tools [] None sample_blocks (Some "msg_1") (Some "m-1") "tool_use" sample_message_usage sample_frames sample_received SToolUse None false false o n' l' s')
    as (H1 & H2 & H3 & H4); [reflexivity|done|done|..|exact sample_message_sent|vm_compute; reflexivity|reflexivity|exact Hstream|exact Ea|exact Hstop|].
  - split; [apply (NoDup_singleton "mcp_read")|split; [apply (NoDup_singleton "mcp.read")|constructor; [done|constructor]]].
  - done.
  - unfold in_range, MAX_SAFE_INTEGER. cbn. lia.
  - constructor; [done|]. constructor; [done|]. constructor; [|constructor]. split; [left|reflexivity].
  - constructor; [done|]. constructor; [done|]. constructor; [|constructor]. reflexivity.
  - apply (NoDup_singleton "toolu_1").
  - split; [rewrite H1; reflexivity|]. split; [rewrite H2; reflexivity|]. split; [exact H3|]. apply H4.
    apply (order_thought _ (Some [""; "I will "; "read it."]) _); [done|by eexists|by repeat constructor|by repeat (constructor; [by eexists|])].
Defined.

(** What interleaved thinking, which the request asks for, becomes: the thoughts of a turn are sent
    back as one, under the signature of the first, and what stands for a redacted thought is sent
    back as if the model had thought it. *)
Example interleaved_thoughts_are_merged :
  returned [SentThinking [ThoughtPiece "a"; SignaturePiece "s1"]; SentText ["x"]; SentThinking [ThoughtPiece "b"; SignaturePiece "s2"]; SentTool "t" "read" [] []] =
    [JObj [("type", JStr "thinking"); ("thinking", JStr "ab"); ("signature", JStr "s1")]; JObj [("type", JStr "text"); ("text", JStr "x")];
     JObj [("type", JStr "tool_use"); ("id", JStr "t"); ("name", JStr "read"); ("input", JObj [])]] ∧
  returned [SentThinking [ThoughtPiece "a"; SignaturePiece "s1"]; SentRedacted "d"] =
    [JObj [("type", JStr "thinking"); ("thinking", JStr ("a" +:+ REDACTED)); ("signature", JStr "s1")]].
Proof. split; reflexivity. Qed.

(** A failure the provider gives no words for: the event says it can be retried, but the port
    refuses an event without a message and says it cannot. *)
Definition overloaded : SseFrame := sample_frame "error" [("error", JObj [("type", JStr "overloaded_error"); ("message", JStr "")])].
Definition retry_of (e : ModelStreamEvent) : option (string * bool) := match e with StreamError err => Some (mse_code err, mse_retryable err) | _ => None end.
Example unexplained_overload_is_not_retried :
  let items := decodeAnthropicMessagesStream budget_model "m" [] [] None [(false, overloaded)] false in
  omap (λ i, match i with RawEvent e => retry_of e | _ => None end) items = [("overloaded_error", true)] ∧
  omap retry_of (normalizeModelStream false false items) = [("provider_stream_failure", false)].
Proof. split; vm_compute; reflexivity. Qed.
