(* ===== verification/SessionGuard.v ===== *)
(** Who owns the branch: an operation takes it, refuses the others, and gives it
    back however it ends. *)
From stdpp Require Import base list sets strings pretty.
From Stdlib Require Import ZArith Lia.
From S2P Require Import Prelude Text JsValue Json Envelope Types ModelRequest Events Arith JsMap SessionTree Replay Tools ModelStream Compaction AgentSession SessionFacts.

(** No operation owns the branch and no queue accepts messages. *)
Definition idle {L} (s : session L) : Prop := ss_active s = None ∧ q_accepting (ss_queues s) = false.
Definition stays_idle {L} (s s' : session L) : Prop := idle s → idle s'.

#[export] Instance stays_idle_preorder {L} : PreOrder (stays_idle (L := L)).
Proof. split; unfold stays_idle; repeat intro; auto. Qed.

Ltac stays_idle := solve [unfold stays_idle, idle; simpl; tauto].
#[export] Hint Extern 1 (stays_idle _ _) => stays_idle : evolving.

Section Idle.
Context {L E : Type} `{EventStore L E} (env : environment) (cfg : settings).
Implicit Types s : session L.

#[local] Abbreviation idles := (preserving (E := E) (stays_idle (L := L))).
#[local] Abbreviation idlesP := (preservingP (E := E) (stays_idle (L := L))).

Lemma append_idle op p : idles (append env op p).
Proof.
  intros s r s'. unfold append, append_raw.
  destruct (parseEvent _); [destruct (store_append _ _) as [[]]|]; intros [= _ <-]; stays_idle.
Qed.

Lemma push_message_idle m : idles (push_message m).
Proof. unfold push_message. evolve. Qed.
#[local] Hint Resolve append_idle push_message_idle : evolving.

Lemma appendUserMessage_idle op items l : idles (appendUserMessage env op items l).
Proof. unfold appendUserMessage. evolve. Qed.
#[local] Hint Resolve appendUserMessage_idle : evolving.

Lemma operation_id_idle requested : idles (operation_id env requested).
Proof.
  intros s r s'. unfold operation_id. destruct requested; [intros [= _ <-]; reflexivity|].
  destruct (parseOperationId _ _); intros [= _ <-]; stays_idle.
Qed.
#[local] Hint Resolve operation_id_idle : evolving.

Lemma clients_not_accepting l s :
  q_accepting (ss_queues s) = false → q_accepting (ss_queues (apply_clients l s)) = false.
Proof.
  revert s; induction l as [|c l IH]; intros s Hq; [done|]. simpl. apply IH. destruct c; simpl; by rewrite ?Hq.
Qed.

(** [release] touches the owner only; a shell run and a compaction never accept
    messages. *)
Definition not_accepting s s' : Prop :=
  q_accepting (ss_queues s) = false → q_accepting (ss_queues s') = false.
Instance not_accepting_preorder : PreOrder not_accepting.
Proof. split; unfold not_accepting; repeat intro; auto. Qed.
#[local] Hint Extern 1 (not_accepting _ _) => solve [unfold not_accepting; simpl; tauto] : evolving.
#[local] Abbreviation closed := (preserving (E := E) not_accepting).

Lemma append_raw_closed op p s r s' : append_raw env op p s = (r, s') → not_accepting s s'.
Proof.
  unfold append_raw.
  destruct (parseEvent _); [destruct (store_append _ _) as [[]]|]; intros [= _ <-]; by unfold not_accepting.
Qed.

Lemma append_closed op p : closed (append env op p).
Proof.
  intros s r s'. unfold append. destruct (append_raw _ _ _ _) as [[e|[]] s1] eqn:E1; intros [= _ <-];
    by eapply append_raw_closed.
Qed.
#[local] Hint Resolve append_closed : evolving.

Lemma execute_tool_closed : closed (execute_tool env).
Proof.
  intros s r s'. unfold execute_tool. destruct (env_tool _ _) as [clients outcome]. intros [= _ <-] Hq.
  by apply clients_not_accepting.
Qed.

Lemma summary_loop_closed op items aborted s text r aborted' s' :
  summary_loop (append_configuration env op) items aborted s text = (r, aborted', s') → not_accepting s s'.
Proof.
  revert aborted s text; induction items as [|i items IH]; intros aborted s text; cbn [summary_loop].
  - intros [= _ _ <-]. by unfold not_accepting.
  - destruct i as [e|c|m|c].
    + destruct e; try apply IH; try case_match; intros [= _ _ <-]; by unfold not_accepting.
    + unfold append_configuration at 1. destruct (append_raw _ _ _ _) as [[e|err] s1] eqn:E1;
        apply append_raw_closed in E1.
      * intros H'%IH. by etransitivity.
      * by intros [= _ _ <-].
    + intros [= _ _ <-]. by unfold not_accepting.
    + destruct c; apply IH.
Qed.

Lemma run_summary_closed op plan instructions : closed (run_summary env op plan instructions).
Proof.
  intros s r s'. unfold run_summary. destruct (ss_aborted s); [intros [= _ <-]; reflexivity|].
  destruct (summarizeCompaction _ _ _ _) as [[r1 aborted] s1] eqn:E1. intros [= _ <-].
  unfold summarizeCompaction in E1. cbn in E1.
  destruct (ss_aborted s); [injection E1 as _ _ <-; by unfold not_accepting|].
  destruct (summary_loop _ _ _ _ _) as [[r2 a2] s2] eqn:E2. apply summary_loop_closed in E2.
  assert (s1 = s2) as -> by (repeat case_match; by simplify_eq).
  unfold not_accepting in *. simpl in *. auto.
Qed.

Lemma read_log_closed : closed read_log.
Proof.
  intros s r s'. unfold read_log. destruct (store_read _). intros [= _ <-]. by unfold not_accepting.
Qed.
#[local] Hint Resolve execute_tool_closed run_summary_closed read_log_closed : evolving.

Lemma compact_body_closed op instructions : closed (compact_body env cfg op instructions).
Proof. unfold compact_body, current_lineage. evolve. Qed.
Lemma run_shell_body_closed op command excluded : closed (run_shell_body env op command excluded).
Proof. unfold run_shell_body, push_message. evolve. Qed.

Lemma released_idle {A} (m : M (L := L) (E := E) A) op signal :
  closed m → idles (bindM (modify (begin_operation op signal)) (λ _, finally m release)).
Proof.
  intros Hm s r s'. unfold bindM, modify, finally. destruct (m _) as [r1 s1] eqn:E1. intros [= _ <-] [_ Hq].
  split; [done|]. simpl. apply Hm in E1. by apply E1.
Qed.

Lemma compact_idle c signal requested : idles (compact env cfg c signal requested).
Proof.
  unfold compact. apply preserving_bind; [apply _|evolve|]. intros op. apply released_idle, compact_body_closed.
Qed.
Lemma runShell_idle command excluded signal requested : idles (runShell env cfg command excluded signal requested).
Proof.
  unfold runShell. apply preserving_bind; [apply _|evolve|]. intros op. apply released_idle, run_shell_body_closed.
Qed.

Lemma runTurn_idle fuel items signal requested : idlesP (runTurn env cfg fuel items signal requested).
Proof.
  unfold runTurn. apply preservingP_bind; [apply _|evolve|]. intros op s r s'.
  unfold bindP, modify, finallyP. destruct (turn_body _ _ _ _ _ _) as [[r1 s1]|]; [|done].
  intros [= _ <-] _. done.
Qed.

Lemma continueQueued_idle fuel signal : idlesP (continueQueued env cfg fuel signal).
Proof.
  intros s r s'. unfold continueQueued. destruct (queue_of _ _); [intros [= _ <-]; reflexivity|].
  intros H'. eapply (preservingP_bindP stays_idle) in H'; [|apply runTurn_idle | evolve].
  intros Hs. apply H'. destruct Hs as [Ha Hq]. split; [done|]. by case_bool_decide.
Qed.
#[local] Hint Resolve compact_idle runShell_idle runTurn_idle continueQueued_idle : evolving.

Lemma perform_idle fuel o : idlesP (perform env cfg fuel o).
Proof.
  destruct o; cbn [perform]; try solve [evolve]; apply preservingP_discard; try solve [evolve];
    try apply preserving_by_active; try solve [evolve].
  - intros s r s'. unfold steer. intros H' Hs. rewrite (proj2 Hs) in H'. by injection H' as _ <-.
  - intros s r s'. unfold followUp. intros H' Hs. rewrite (proj2 Hs) in H'. by injection H' as _ <-.
Qed.
End Idle.

(** The operations that take the branch, or need it to be free. *)
Definition needs_free_branch (o : operation) : bool :=
  match o with
  | RunTurn _ _ _ | RunShell _ _ _ _ | Compact _ _ _ | InjectContext _ _ | AbortRecoveredTurn _
  | AbortRecoveredDelivery _ _ | Close _ | Rename _ _ => true
  | _ => false
  end.

Section OpenIdle.
Context {L E : Type} `{EventStore L E} (env : environment) (cfg : settings).
#[local] Hint Resolve append_idle push_message_idle : evolving.

Lemma each_append_idle l : preserving stays_idle (each_append env l).
Proof. induction l as [|[op p] l IH]; cbn [each_append]; evolve. Qed.
Lemma answer_open_calls_idle l : preserving stays_idle (answer_open_calls env l).
Proof. induction l as [|e l IH]; cbn [answer_open_calls]; unfold answer_open_call; evolve. Qed.
#[local] Hint Resolve each_append_idle answer_open_calls_idle : evolving.

Lemma open_body_idle o events lineage : preserving stays_idle (open_body env cfg o events lineage).
Proof. unfold open_body. evolve. Qed.
End OpenIdle.

(** no failure wedges a session: after any history of operations, returned or
    thrown, no operation owns the branch and no queue takes messages for a turn
    that has ended. *)
Theorem branch_is_released {L E} `{EventStoreLaws L E} env cfg (s : session L) :
  reachable env cfg s → ss_active s = None ∧ q_accepting (ss_queues s) = false.
Proof.
  change (reachable env cfg s → idle s).
  induction 1 as [o log sid s log' _ Ho|s fuel o r s' _ IH Hp].
  - apply open_session_Ok in Ho as (_ & _ & _ & lineage & s0 & _ & Hc & Hb).
    apply construct_Ok in Hc as [Hs0 _]. eapply open_body_idle; [exact Hb|]. by rewrite Hs0.
  - by eapply perform_idle.
Qed.

Lemma branch_is_released_witness :
  ∃ s r s', sample_session [[Throws None]] [] = Ok s ∧
    perform (sample_environment [[Throws None]]) (sample_settings []) 5 (RunTurn [CText "hi"] false None) s
      = Some (r, s') ∧ ss_active s' = None ∧ q_accepting (ss_queues s') = false.
Proof.
  destruct (sample_session [[Throws None]] []) as [s|] eqn:Es; [|vm_compute in Es; discriminate].
  destruct (perform (E := unit) (sample_environment [[Throws None]]) (sample_settings []) 5
    (RunTurn [CText "hi"] false None) s) as [[r s']|] eqn:Ep.
  - exists s, r, s'. split_and!; [done..| |];
      apply (branch_is_released (sample_environment [[Throws None]]) (sample_settings []));
      (eapply reachable_step; [by apply sample_session_reachable | exact Ep]).
  - exfalso. vm_compute in Es. injection Es as <-. vm_compute in Ep. discriminate.
Defined.

(** exactly one operation mutates the branch: while one owns it, every other
    operation that needs it throws [OperationConflictError] and leaves the
    session, log included, as it was. *)
Theorem owned_branch_refuses {L E} `{EventStore L E} env cfg fuel (s : session L) owner o :
  ss_active s = Some owner → needs_free_branch o = true →
  ∃ m, perform (E := E) env cfg fuel o s = Some (Err (OperationConflict m), s).
Proof.
  intros Ha Ho. destruct o; try discriminate Ho; cbn [perform];
    unfold discard, done, bindPP, runTurn, bindP, runShell, compact, injectContext, abortRecoveredTurn,
      abortRecoveredDelivery, close, rename, bindM, unless_active; rewrite Ha; eauto.
Qed.

Definition owned_session : session (list event) :=
  set_active (Some "op") (new_session [] sample_sid [] []).

Lemma owned_branch_refuses_witness :
  ∃ m, perform (E := unit) (sample_environment []) (sample_settings []) 5 (RunTurn [CText "hi"] false None)
         owned_session = Some (Err (OperationConflict m), owned_session).
Proof. apply (owned_branch_refuses _ _ _ _ "op"); reflexivity. Defined.

(** [continueQueued] is not such an operation: while an operation owns the
    branch it throws too, but the queued message it took is gone. *)
Theorem continueQueued_drops_message {L E} `{EventStore L E} env cfg fuel signal (s : session L) owner items rest :
  ss_active s = Some owner → q_steering (ss_queues s) = items :: rest →
  ∃ m, perform (E := E) env cfg fuel (ContinueQueued signal) s
       = Some (Err (OperationConflict m), set_queues (shift_queue Steering (ss_queues s)) s) ∧
       q_steering (shift_queue Steering (ss_queues s)) = rest.
Proof.
  intros Ha Hq. cbn [perform]. unfold bindPP, continueQueued, bindPP, runTurn, bindP, unless_active.
  rewrite bool_decide_eq_false_2 by (by rewrite Hq). cbn [queue_of]. rewrite Hq. simpl. rewrite Ha, Hq.
  eauto.
Qed.

Lemma continueQueued_drops_message_witness :
  ∃ m, perform (E := unit) (sample_environment []) (sample_settings []) 5 (ContinueQueued false)
         (push_queue Steering [CText "later"] owned_session)
       = Some (Err (OperationConflict m),
               set_queues (shift_queue Steering (ss_queues (push_queue Steering [CText "later"] owned_session)))
                 (push_queue Steering [CText "later"] owned_session)) ∧
       q_steering (shift_queue Steering (ss_queues (push_queue Steering [CText "later"] owned_session))) = [].
Proof. apply (continueQueued_drops_message _ _ _ _ _ "op" [CText "later"]); reflexivity. Defined.
