(* ===== verification/SessionCalls.v ===== *)
(** What operations append, for logs that keep events as they are: tool calls
    with their results, and the answers an open gives to what a crash left open. *)
From stdpp Require Import base list sets strings pretty.
From Stdlib Require Import ZArith Lia.
From S2P Require Import Prelude Text JsValue Json Envelope Types ModelRequest Events Arith JsMap SessionTree Replay Tools ModelStream Compaction AgentSession SessionFacts.

(** A log whose redaction finds nothing to change. *)
Class ExactStore (L E : Type) `{EventStore L E} :=
  store_exact e l stored l' : store_append e l = (Ok stored, l') → stored = e.
#[export] Instance memory_log_exact : ExactStore (list event) unit.
Proof. intros e l stored l' H. by injection H. Qed.

Lemma bindM_Ok {L E A B} (m : M (L := L) (E := E) A) (k : A → M (L := L) (E := E) B) s b s' :
  bindM m k s = (Ok b, s') ↔ ∃ a s1, m s = (Ok a, s1) ∧ k a s1 = (Ok b, s').
Proof.
  unfold bindM. destruct (m s) as [[a|e] s1]; split.
  - eauto.
  - by intros (? & ? & [= <- <-] & ?).
  - done.
  - by intros (? & ? & [= ] & ?).
Qed.

(** [s'] is [s] after appending events with the given payloads. *)
Definition appended {L E} `{EventStore L E} (ps : list payload) (s s' : session L) : Prop :=
  ∃ new, log_events s' = log_events s ++ new ∧ ev_payload <$> new = ps.

Section Appends.
Context {L E : Type} `{EventStoreLaws L E, !ExactStore L E} (env : environment) (cfg : settings).
Implicit Types s : session L.

Lemma appended_same s s' : log_events s' = log_events s → appended [] s s'.
Proof. intros Hs. exists []. by rewrite app_nil_r. Qed.

Lemma appended_app ps qs s1 s2 s3 : appended ps s1 s2 → appended qs s2 s3 → appended (ps ++ qs) s1 s3.
Proof.
  intros (n1 & Hl1 & <-) (n2 & Hl2 & <-). exists (n1 ++ n2). by rewrite Hl2, Hl1, app_assoc, fmap_app.
Qed.

Lemma append_log op p s e s' :
  append env op p s = (Ok e, s') → log_events s' = log_events s ++ [e] ∧ ev_payload e = p.
Proof.
  unfold append, append_raw. destruct (parseEvent _); [|done].
  destruct (store_append _ _) as [[stored|err] l] eqn:Es; intros [= <- <-].
  pose proof (store_exact _ _ _ _ Es) as ->. by apply store_append_Ok in Es as [Hl _].
Qed.

Lemma append_appended op p s e s' :
  append env op p s = (Ok e, s') →
  appended [p] s s' ∧ ev_payload e = p ∧ ss_messages s' = ss_messages s.
Proof.
  intros Ha. pose proof (append_log _ _ _ _ _ Ha) as [Hl Hp]. split_and!; [|done|].
  - exists [e]. split; [done|]. simpl. by rewrite Hp.
  - unfold append, append_raw in Ha. destruct (parseEvent _); [|done].
    destruct (store_append _ _) as [[]]; by injection Ha as _ <-.
Qed.

Lemma each_append_appended l s s' :
  each_append env l s = (Ok tt, s') → appended (map snd l) s s'.
Proof.
  revert s; induction l as [|[op p] l IH]; intros s; cbn [each_append map].
  - intros [= <-]. by apply appended_same.
  - intros (e & s1 & (H1 & _)%append_appended & H2)%bindM_Ok. by apply (appended_app [p] _ s s1); [|apply IH].
Qed.

(** *** Tool calls *)

(** The events of one call. *)
Definition call_block (call : ToolCallRequest) (o : ToolExecutionResult * option (string * string)) :
    list payload :=
  [ToolCall (tcr_callId call) (tcr_name call) (tcr_input call)]
  ++ option_list ((λ v, SandboxViolation v.1 v.2) <$> o.2)
  ++ [ToolResult (tcr_callId call) (tcr_name call) (ter_content o.1) (ter_isError o.1) (ter_details o.1)].

Definition call_message (call : ToolCallRequest) (o : ToolExecutionResult * option (string * string)) :
    ModelMessage :=
  MTool (tcr_callId call) (tcr_name call) (ter_content o.1) (ter_isError o.1).

(** A call that names no registered tool is answered without executing anything. *)
Definition authorised (call : ToolCallRequest) (o : ToolExecutionResult * option (string * string)) : Prop :=
  Registry.get (tcr_name call) (cfg_tools cfg) = None →
  o = (failed_result ("Tool " +:+ tcr_name call +:+ " is not registered"), None).

Lemma clients_appended l s :
  log_events (apply_clients l s) = log_events s ∧ ss_messages (apply_clients l s) = ss_messages s.
Proof.
  revert s; induction l as [|c l IH]; intros s; [done|]. simpl. destruct (IH (apply_client c s)) as [-> ->].
  destruct c; simpl; try case_match; done.
Qed.

Lemma executeTool_spec call s o s' :
  executeTool (E := E) env cfg call s = (Ok o, s') →
  appended [] s s' ∧ ss_messages s' = ss_messages s ∧ authorised call o.
Proof.
  unfold executeTool, authorised. destruct (Registry.get _ _).
  - intros (out & s1 & H1 & [= _ <-])%bindM_Ok. unfold execute_tool in H1.
    destruct (env_tool _ _) as [clients outcome]. injection H1 as _ <-.
    set (s2 := set_draws _ s). destruct (clients_appended clients s2) as [Hl Hm].
    split_and!; [by apply appended_same | done | done].
  - intros [= <- <-]. split_and!; [by apply appended_same | done | done].
Qed.

Lemma push_message_appended m s s' :
  push_message (E := E) m s = (Ok tt, s') → appended [] s s' ∧ ss_messages s' = ss_messages s ++ [m].
Proof. intros [= <-]. split; [by apply appended_same | done]. Qed.

Lemma execute_call_spec op call l s l' s' :
  execute_call env cfg op call l s = (Ok l', s') →
  ∃ o, appended (call_block call o) s s' ∧ ss_messages s' = ss_messages s ++ [call_message call o] ∧
    authorised call o.
Proof.
  unfold execute_call. intros (e1 & s1 & H1 & H2)%bindM_Ok. apply append_appended in H1 as (A1 & _ & M1).
  apply bindM_Ok in H2 as ([r v] & s2 & (A2 & M2 & Hauth)%executeTool_spec & H2).
  apply bindM_Ok in H2 as (evs & s3 & H3 & H2).
  assert (appended (option_list ((λ v, SandboxViolation v.1 v.2) <$> v)) s2 s3 ∧ ss_messages s3 = ss_messages s2)
    as [A3 M3].
  { destruct v as [[capability reason]|]; simpl.
    - apply bindM_Ok in H3 as (e & sv & (A & _ & M)%append_appended & [= <- <-]). done.
    - injection H3 as <- <-. split; [by apply appended_same | done]. }
  apply bindM_Ok in H2 as (e2 & s4 & (A4 & P4 & M4)%append_appended & H2).
  apply bindM_Ok in H2 as ([] & s5 & (A5 & M5)%push_message_appended & [= <- <-]).
  exists (r, v). split_and!; [| |done].
  - unfold call_block. rewrite <- (app_nil_r [ToolCall _ _ _]), <- app_assoc.
    apply (appended_app [_] _ s s1); [done|]. apply (appended_app [] _ s1 s2); [done|].
    apply (appended_app _ _ s2 s3); [done|]. rewrite <- (app_nil_r [ToolResult _ _ _ _ _]).
    apply (appended_app _ _ s3 s4); done.
  - rewrite M5, M4, M3, M2, M1. unfold call_message, stored_content. by rewrite P4.
Qed.

Lemma executeToolCalls_spec op calls l s aborted l' s' :
  executeToolCalls env cfg op calls l s = (Ok (aborted, l'), s') →
  ∃ ran rest outcomes, calls = ran ++ rest ∧ (aborted = false → rest = []) ∧ (calls ≠ [] → ran ≠ []) ∧
    Forall2 authorised ran outcomes ∧
    appended (concat (zip_with call_block ran outcomes)) s s' ∧
    ss_messages s' = ss_messages s ++ zip_with call_message ran outcomes.
Proof.
  revert l s; induction calls as [|call calls IH]; intros l s; cbn [executeToolCalls].
  - intros [= <- <- <-]. exists [], [], []. split_and!; [done..| |by rewrite app_nil_r].
    by apply appended_same.
  - intros (l1 & s1 & (o & A1 & M1 & Hauth)%execute_call_spec & H2)%bindM_Ok.
    apply bindM_Ok in H2 as (s2 & s3 & [= <- <-] & H2). destruct (ss_aborted s1).
    + injection H2 as <- <- <-. exists [call], calls, [o]. simpl. rewrite app_nil_r.
      split_and!; try done. by repeat constructor.
    + apply IH in H2 as (ran & rest & outcomes & -> & Hr & _ & Hf & A2 & M2).
      exists (call :: ran), rest, (o :: outcomes). split_and!; try done; [by constructor| |].
      * by apply (appended_app (call_block call o) (concat (zip_with call_block ran outcomes)) s s1).
      * by rewrite M2, M1, <- app_assoc.
Qed.

(** *** Opening *)

Lemma answer_open_calls_appended l s s' :
  answer_open_calls env l s = (Ok tt, s') →
  ∃ ps, appended ps s s' ∧
    ps = omap (λ e, match ev_payload e with
                    | ToolCall id name _ => Some (ToolResult id name [CText restart_text] true (Some restart_details))
                    | _ => None
                    end) l.
Proof.
  revert s; induction l as [|e l IH]; intros s; cbn [answer_open_calls].
  - intros [= <-]. exists []. split; [by apply appended_same | done].
  - intros ([] & s1 & H1 & (ps & A2 & ->)%IH)%bindM_Ok. unfold answer_open_call in H1. simpl.
    destruct (ev_payload e) eqn:Ep; try (injection H1 as <-; eexists; split; [exact A2 | done]).
    apply bindM_Ok in H1 as (stored & s2 & (A1 & _)%append_appended & (A3 & _)%push_message_appended).
    eexists. split; [|done]. apply (appended_app [_] _ s s1); [|done].
    apply (appended_app [_] [] s s2); done.
Qed.
End Appends.

(** ** Pairing of what a turn appends *)

Lemma block_paired path new call o :
  ev_payload <$> new = call_block call o → paired path → tcr_callId call ∉ (calls_of path).*1 →
  paired (path ++ new) ∧ calls_of (path ++ new) = calls_of path ++ [(tcr_callId call, tcr_name call)].
Proof.
  intros Hnew Hp Hid.
  assert (∃ e1 mid e2, new = e1 :: mid ++ [e2] ∧
    ev_payload e1 = ToolCall (tcr_callId call) (tcr_name call) (tcr_input call) ∧
    (ev_payload <$> mid = option_list ((λ v, SandboxViolation v.1 v.2) <$> o.2)) ∧
    ev_payload e2 = ToolResult (tcr_callId call) (tcr_name call) (ter_content o.1) (ter_isError o.1) (ter_details o.1))
    as (e1 & mid & e2 & -> & H1 & Hmid & H2).
  { unfold call_block in Hnew. destruct new as [|e1 new]; [done|]. injection Hnew as H1 Hnew.
    apply fmap_app_inv in Hnew as (mid & l2 & Hmid & Hl2 & ->).
    destruct l2 as [|e2 [|e3 l2]]; try done. injection Hl2 as H2. by exists e1, mid, e2. }
  assert (Hp1 : paired (path ++ [e1])).
  { apply paired_snoc. split; [done|]. unfold may_follow. by rewrite H1. }
  assert (Hc1 : calls_of (path ++ [e1]) = calls_of path ++ [(tcr_callId call, tcr_name call)]).
  { rewrite calls_of_snoc. unfold call_of. by rewrite H1. }
  assert (Hr1 : results_of (path ++ [e1]) = results_of path).
  { rewrite results_of_snoc. unfold result_of. by rewrite H1, app_nil_r. }
  assert (paired (path ++ [e1] ++ mid) ∧ calls_of (path ++ [e1] ++ mid) = calls_of (path ++ [e1])
    ∧ results_of (path ++ [e1] ++ mid) = results_of path) as (Hp2 & Hc2 & Hr2).
  { rewrite app_assoc. destruct (o.2) as [v|]; simpl in Hmid.
    - destruct mid as [|m [|m2 mid]]; try done. injection Hmid as Hm.
      rewrite paired_snoc, calls_of_snoc, results_of_snoc. unfold may_follow, call_of, result_of.
      rewrite Hm, !app_nil_r. done.
    - destruct mid; [|done]. by rewrite app_nil_r. }
  replace (path ++ e1 :: mid ++ [e2]) with ((path ++ [e1] ++ mid) ++ [e2]) by (by rewrite <- !app_assoc).
  rewrite paired_snoc, calls_of_snoc, Hc2, Hc1. unfold may_follow, call_of. rewrite H2, Hc2, Hc1, Hr2, app_nil_r.
  split_and!; [done| | |done].
  - apply elem_of_app. right. by left.
  - intros Hin. by apply Hid, paired_results_called.
Qed.

Lemma blocks_paired ran outcomes path new :
  length ran = length outcomes →
  ev_payload <$> new = concat (zip_with call_block ran outcomes) → paired path →
  NoDup ((calls_of path).*1 ++ (tcr_callId <$> ran)) → paired (path ++ new).
Proof.
  revert outcomes path new; induction ran as [|call ran IH]; intros [|o outcomes] path new Hlen Hnew Hp Hnd; try done.
  - apply fmap_nil_inv in Hnew as ->. by rewrite app_nil_r.
  - cbn [zip_with concat] in Hnew. apply fmap_app_inv in Hnew as (n1 & n2 & H1 & H2 & ->).
    change (tcr_callId <$> call :: ran) with ([tcr_callId call] ++ (tcr_callId <$> ran)) in Hnd. 
    assert (tcr_callId call ∉ (calls_of path).*1) as Hid.
    { apply NoDup_app in Hnd as (_ & Hd & _). intros Hin. apply (Hd _ Hin). by left. }
    destruct (block_paired path n1 call o) as [Hp1 Hc1]; [done..|].
    rewrite app_assoc. apply (IH outcomes); [by injection Hlen|done|done|].
    rewrite Hc1, fmap_app, <- app_assoc. done.
Qed.


Definition sample_call_request (id : string) : ToolCallRequest :=
  {| tcr_callId := id; tcr_name := "bash"; tcr_input := [] |}.

Definition blank_session : session (list event) := new_session [] sample_sid [] [].


(** ** What an open answers *)

(** A map of what was opened and not closed since, by id. *)
Section Pending.
Context (opens closes : payload → option string).

Definition pending_step (pending : list (string * event)) (e : event) : list (string * event) :=
  match opens (ev_payload e) with
  | Some i => map_set i e pending
  | None => match closes (ev_payload e) with Some i => map_delete i pending | None => pending end
  end.

Lemma pending_opened events i e :
  (i, e) ∈ fold_left pending_step events [] → opens (ev_payload e) = Some i.
Proof.
  assert (∀ T, (∀ i e, (i, e) ∈ T → opens (ev_payload e) = Some i) →
    (i, e) ∈ fold_left pending_step events T → opens (ev_payload e) = Some i) as Hall;
    [|apply Hall; by intros ? ? ?%elem_of_nil].
  induction events as [|x events IH]; intros T HT; [by apply HT|]. simpl. apply IH. clear IH.
  intros j y. unfold pending_step. destruct (opens (ev_payload x)) as [k|] eqn:Eo.
  - destruct (decide (k ∈ T.*1)) as [Hk|Hk].
    + clear -HT Eo. induction T as [|[k' z] T IHT]; simpl.
      * intros Hin%list_elem_of_singleton. by simplify_eq.
      * case_bool_decide; (intros [[= -> ->]|Hin]%elem_of_cons;
          [ | ]); simplify_eq; try done; try (apply HT; by left); try (apply HT; by right).
        apply IHT; [|done]. intros; apply HT; by right.
    + rewrite map_set_new by done. intros [?|Hin%list_elem_of_singleton]%elem_of_app; [by apply HT|].
      by simplify_eq.
  - destruct (closes _); [|apply HT]. unfold map_delete. intros [_ Hin]%list_elem_of_filter. by apply HT.
Qed.

Lemma pending_get new T k :
  Forall (λ e, opens (ev_payload e) = None) new →
  map_get k (fold_left pending_step new T) =
    if bool_decide (k ∈ omap closes (ev_payload <$> new)) then None else map_get k T.
Proof.
  revert T; induction new as [|e new IH]; intros T; [done|]. intros [He Hn]%Forall_cons. simpl.
  rewrite IH by done. unfold pending_step. rewrite He. destruct (closes (ev_payload e)) as [i|]; [|done].
  rewrite map_get_delete. repeat case_bool_decide; try done; set_solver.
Qed.

Lemma pending_cleared events new :
  Forall (λ e, opens (ev_payload e) = None) new →
  (∀ e i, e ∈ map_values (fold_left pending_step events []) → opens (ev_payload e) = Some i →
    i ∈ omap closes (ev_payload <$> new)) →
  fold_left pending_step (events ++ new) [] = [].
Proof.
  intros Hn Hc. rewrite fold_left_app. set (T := fold_left pending_step events []) in *.
  destruct (fold_left pending_step new T) as [|[k e] l] eqn:El; [done|exfalso].
  pose proof (pending_get new T k Hn) as Hg. rewrite El in Hg. simpl in Hg. rewrite bool_decide_true in Hg by done.
  case_bool_decide as Hk; [done|]. symmetry in Hg. apply map_get_Some_elem in Hg.
  apply Hk, (Hc e); [|by eapply pending_opened]. by apply (list_elem_of_fmap_2 snd) in Hg.
Qed.
End Pending.

Definition opens_call (p : payload) : option string := match p with ToolCall i _ _ => Some i | _ => None end.
Definition closes_call (p : payload) : option string := match p with ToolResult i _ _ _ _ => Some i | _ => None end.
Definition opens_interaction (p : payload) : option string :=
  match p with InteractionRequested i _ _ _ _ => Some i | _ => None end.
Definition closes_interaction (p : payload) : option string :=
  match p with InteractionResolved i _ _ => Some i | _ => None end.

Lemma fold_left_ext {A B} (f g : A → B → A) l a : (∀ a b, f a b = g a b) → fold_left f l a = fold_left g l a.
Proof. intros Hfg. revert a; induction l as [|b l IH]; intros a; simpl; [done|]. by rewrite Hfg. Qed.

Lemma unansweredToolCalls_pending events :
  unansweredToolCalls events = map_values (fold_left (pending_step opens_call closes_call) events []).
Proof.
  unfold unansweredToolCalls. f_equal. apply fold_left_ext. intros a e. unfold pending_step.
  by destruct (ev_payload e).
Qed.
Lemma unansweredInteractions_pending events :
  unansweredInteractions events = map_values (fold_left (pending_step opens_interaction closes_interaction) events []).
Proof.
  unfold unansweredInteractions. f_equal. apply fold_left_ext. intros a e. unfold pending_step.
  by destruct (ev_payload e).
Qed.

(** A payload that opens no call and no interaction. *)
Definition opens_nothing (p : payload) : Prop := opens_call p = None ∧ opens_interaction p = None.

Section Opening.
Context {L E : Type} `{EventStoreLaws L E, !ExactStore L E} (env : environment) (cfg : settings).
Implicit Types s : session L.

Lemma creation_opens_nothing o : Forall opens_nothing (map snd (creation o)).
Proof.
  unfold creation. apply Forall_cons. split; [done|]. apply Forall_forall. intros p. rewrite list_elem_of_In.
  intros (y & <- & ([[n src] c] & <- & _)%in_map_iff)%in_map_iff. done.
Qed.

Lemma announcements_opens_nothing o : Forall opens_nothing (map snd (announcements cfg o)).
Proof.
  unfold announcements. rewrite !map_app. repeat (apply Forall_app; split).
  1: rewrite map_map; apply Forall_forall; intros p; rewrite list_elem_of_In;
    by intros (t & <- & _)%in_map_iff.
  all: match goal with |- context [option_map _ ?x] => destruct x as [x'|] end; simpl; [|done].
  all: repeat match goal with |- context [let '(_, _) := ?y in _] => destruct y end; by repeat constructor.
Qed.

Lemma resolutions_spec l :
  Forall opens_nothing (map snd (map cancel_interaction l)) ∧
  (∀ e i, e ∈ l → opens_interaction (ev_payload e) = Some i →
    i ∈ omap closes_interaction (map snd (map cancel_interaction l))).
Proof.
  induction l as [|e l [IH1 IH2]]; simpl; [split; [done | by intros ? ? ?%elem_of_nil]|].
  split; [by constructor|]. intros e' i [->|He']%elem_of_cons Hi.
  - destruct (ev_payload e); try done. injection Hi as ->. by left.
  - right. by eapply IH2.
Qed.

Definition answers (l : list event) : list payload :=
  omap (λ e, match ev_payload e with
             | ToolCall id name _ => Some (ToolResult id name [CText restart_text] true (Some restart_details))
             | _ => None
             end) l.

Lemma answers_spec l :
  Forall opens_nothing (answers l) ∧
  (∀ e i, e ∈ l → opens_call (ev_payload e) = Some i → i ∈ omap closes_call (answers l)).
Proof.
  induction l as [|e l [IH1 IH2]]; [split; [constructor | by intros ? ? ?%elem_of_nil]|].
  unfold answers in *. simpl. split.
  - destruct (ev_payload e); try done. by constructor.
  - intros e' i [->|He']%elem_of_cons Hi.
    + destruct (ev_payload e); try done. injection Hi as ->. simpl. by left.
    + specialize (IH2 e' i He' Hi). destruct (ev_payload e); try done. simpl. by right.
Qed.

Lemma open_body_appended o events lineage s s' :
  open_body env cfg o events lineage s = (Ok tt, s') →
  ∃ others, Forall opens_nothing others ∧
    appended (map snd (map cancel_interaction (unansweredInteractions lineage))
              ++ answers (unansweredToolCalls lineage) ++ others) s s'.
Proof.
  unfold open_body. intros ([] & s1 & A1%each_append_appended & H1)%bindM_Ok.
  apply bindM_Ok in H1 as ([] & s2 & (ps & A2 & ->)%answer_open_calls_appended & H1).
  apply bindM_Ok in H1 as ([] & s3 & H3 & H1).
  apply bindM_Ok in H1 as ([] & s4 & A4%each_append_appended & H5).
  assert (s4 = s') as -> by (by destruct (opt_activate o); [|injection H5 as ->]).
  assert (∃ ps, Forall opens_nothing ps ∧ appended ps s2 s3) as (ps & Hps & A3).
  { destruct events.
    - eexists. split; [apply creation_opens_nothing|]. by eapply each_append_appended.
    - injection H3 as <-. exists []. split; [done | by apply appended_same]. }
  exists (ps ++ map snd (announcements cfg o)). split.
  - apply Forall_app. split; [done | apply announcements_opens_nothing].
  - eapply appended_app; [exact A1|]. eapply appended_app; [exact A2|]. by eapply appended_app.
Qed.

Lemma new_session_lineage log sid lineage messages :
  (match last (store_events log) with
   | None => lineage = [] | Some e => path_to (store_events log) (ev_id e) lineage end) →
  tip_lineage (new_session log sid lineage messages) lineage.
Proof.
  unfold tip_lineage, log_events. simpl. destruct (last (store_events log)) as [e|] eqn:El.
  - intros Hp. destruct (path_to_last _ _ _ Hp) as (l & e' & -> & Hid & _). rewrite last_snoc. simpl.
    by rewrite Hid.
  - intros ->. simpl. apply last_None in El. by rewrite El.
Qed.
End Opening.


(** A log that ends in a call without a result. *)
Definition crashed_log : list event :=
  [sample_call (sample_fresh 8) None (AssistantMessage [] SToolUse None None);
   sample_call (sample_fresh 9) (Some (sample_fresh 8)) (ToolCall "1" "bash" [])].


(** the ids the model gives to its calls are trusted: a call under an id the
    branch has used before runs like any other, and from then on the integrity
    check refuses the log, so the session cannot be opened again. *)
Theorem reused_call_id_locks_session {L E} `{EventStoreLaws L E, !ExactStore L E} env cfg op call rest l
    (s s' : session L) x path :
  Inj (=) (=) (env_fresh env) → live env s → tip_lineage s path → tcr_callId call ∈ (calls_of path).*1 →
  executeToolCalls env cfg op (call :: rest) l s = (Ok x, s') →
  ∀ o log', ∃ e, open_session env cfg o log' (b_sessionId (ss_branch s')) (log_events s') = (Err e, log').
Proof.
  intros Hinj Hlive Hpath Hid Hrun o log'.
  pose proof (evolving_executeToolCalls env cfg op (call :: rest) l s _ _ Hrun) as Hevo.
  destruct (live_evolves env s s' Hinj Hlive Hevo) as [Hlog Hu _ _]. destruct x as [aborted l'].
  apply executeToolCalls_spec in Hrun as (ran & rest' & outs & Hcalls & _ & Hran & Hauth & (new & Hl & Hp) & _).
  specialize (Hran ltac:(done)). destruct ran as [|call' ran]; [done|]. injection Hcalls as <- _.
  apply Forall2_cons_inv_l in Hauth as (out & outs' & _ & _ & ->).
  cbn [zip_with concat] in Hp. destruct new as [|e1 new]; [done|]. injection Hp as Hp1 _.
  pose proof (evolves_lineage env s s' _ path Hevo Hl Hpath) as Hpath'.
  assert (¬ ∀ id p, path_to (log_events s') id p → paired p) as Hbad.
  { intros Hall. unfold tip_lineage in Hpath'. destruct (b_tip (ss_branch s')) as [t|].
    - apply Hall in Hpath'. rewrite cons_middle, app_assoc in Hpath'. apply paired_app_l, paired_snoc in Hpath' as [_ Hm].
      unfold may_follow in Hm. by rewrite Hp1 in Hm.
    - destruct Hpath' as [_ Hnil]. by destruct path. }
  destruct (open_session env cfg o log' (b_sessionId (ss_branch s')) (log_events s')) as [[s2|e] l2] eqn:Eo.
  - exfalso. apply open_session_Ok in Eo as (_ & _ & Hv & _). apply Hbad. by apply (verify_paired _ _ Hlog).
  - exists e. f_equal. unfold open_session in Eo. destruct (rbind _ _) as [[lineage s0]|] eqn:E1; [|by injection Eo].
    exfalso. apply bind_Ok in E1 as (t & E1 & E2). unfold tree_result in E1.
    destruct (fromEvents (JStr _) _) as [t'|] eqn:Et; [|done]. injection E1 as <-.
    apply fromEvents_Ok in Et as (? & [= <-] & _ & _ & ->).
    apply bind_Ok in E2 as (u & E2 & _). destruct (verifyToolCallIntegrity _) as [[]|] eqn:Ev; [|done].
    apply Hbad. by apply (verify_paired _ _ Hlog).
Qed.

(** A session whose branch has a call under the id "1". *)
Definition answered_log : list event :=
  crashed_log ++ [sample_call (sample_fresh 7) (Some (sample_fresh 9)) (ToolResult "1" "bash" [] false None)].
Definition answered_session : session (list event) :=
  {| ss_branch := {| b_log := answered_log; b_sessionId := sample_sid; b_tip := Some (sample_fresh 7); b_emitted := [] |};
     ss_messages := []; ss_contextUsage := None; ss_active := Some "op";
     ss_queues := {| q_accepting := true; q_steering := []; q_followUp := [] |}; ss_aborted := false;
     ss_draws := {| d_ids := 0; d_streams := 0; d_tools := 0; d_sleeps := 0; d_randoms := 0 |};
     ss_frames := []; ss_requests := [] |}.
Definition shifted_environment : environment :=
  {| env_fresh n := if n <? 3 then sample_fresh n else "y" +:+ pretty n; env_now := Z.of_nat;
     env_stream := env_stream (sample_environment []); env_tool := env_tool (sample_environment []);
     env_sleep := env_sleep (sample_environment []); env_random := env_random (sample_environment []) |}.

Lemma answered_session_live :
  Inj (=) (=) (env_fresh shifted_environment) ∧ live shifted_environment answered_session ∧
  tip_lineage answered_session answered_log.
Proof.
  split_and!.
  - intros n m. simpl. destruct (Nat.ltb_spec n 3), (Nat.ltb_spec m 3); intros Heq.
    + by apply (inj sample_fresh).
    + exfalso. unfold sample_fresh in Heq. rewrite (proj2 (Nat.ltb_lt n 10)) in Heq by lia. done.
    + exfalso. unfold sample_fresh in Heq. rewrite (proj2 (Nat.ltb_lt m 10)) in Heq by lia. done.
    + by repeat (simplify_eq/=).
  - assert (∃ t, fromEvents (JStr sample_sid) answered_log = Ok t) as [t Ht] by (eexists; vm_compute; reflexivity).
    apply fromEvents_Ok in Ht as (? & [= <-] & Hu & Hlog & _). split; [done|done|reflexivity|].
    intros n _. unfold log_events. simpl. destruct (Nat.ltb_spec n 3) as [Hn|Hn].
    + destruct n as [|[|[|]]]; [..|lia]; apply (bool_decide_unpack _); vm_compute; exact I.
    + intros Hin. repeat (apply elem_of_cons in Hin as [Hin|Hin]; [discriminate Hin|]).
      by apply elem_of_nil in Hin.
  - assert (lineage (tree_of sample_sid answered_log) (sample_fresh 7) = Ok answered_log) as Hl
      by (vm_compute; reflexivity).
    assert (∃ t, fromEvents (JStr sample_sid) answered_log = Ok t) as [t Ht] by (eexists; vm_compute; reflexivity).
    apply fromEvents_Ok in Ht as (? & [= <-] & Hu & Hlog & _). by apply (lineage_iff _ _ _ _ Hlog) in Hl.
Qed.

Lemma reused_call_id_locks_session_witness :
  ∃ x s', executeToolCalls (E := unit) shifted_environment (sample_settings []) sample_sid [sample_call_request "1"] []
            answered_session = (Ok x, s') ∧
  ∀ o (log' : list event), ∃ e, open_session (E := unit) shifted_environment (sample_settings []) o log'
    (b_sessionId (ss_branch s')) (log_events s') = (Err e, log').
Proof.
  destruct answered_session_live as (Hinj & Hlive & Hlin). eexists _, _. split; [vm_compute; reflexivity|].
  eapply (reused_call_id_locks_session shifted_environment (sample_settings []) sample_sid (sample_call_request "1") [] []
    answered_session _ _ answered_log Hinj Hlive Hlin).
  - apply (bool_decide_unpack _). vm_compute. exact I.
  - vm_compute. reflexivity.
Defined.
