(* ===== verification/Overlap.v ===== *)
(** Appends of one session that overlap: [AgentSession.append] reads the tip when
    it is called and moves it when the log has written, and [JsonlEventLog] writes
    in the order of the calls.  [AgentSession.v] models the appends of one
    operation, which wait for each other; here several callers append, as the
    daemon does when it records a queue event during a turn. *)
From stdpp Require Import base list sets strings pretty relations.
From Stdlib Require Import ZArith Lia.
From S2P Require Import Prelude Text JsValue Json Envelope Types Events JsMap SessionTree Replay AgentSession SessionFacts.

Record overlap := {
  ov_log : list event;
  ov_tip : option string;
  (** [parseEvent] returned, the write is queued. *)
  ov_queued : list event;
  (** Written, the caller has not resumed. *)
  ov_written : list event
}.

Section Overlap.
Context (sid : string).

Definition new_event (id : string) (operationId : option string) (timestamp : Z) (p : payload) (o : overlap) :
    event :=
  {| ev_id := id; ev_sessionId := sid; ev_operationId := operationId; ev_parentId := ov_tip o;
     ev_timestamp := timestamp; ev_payload := p |}.

Definition begin_append (e : event) (o : overlap) : overlap :=
  {| ov_log := ov_log o; ov_tip := ov_tip o; ov_queued := ov_queued o ++ [e]; ov_written := ov_written o |}.

Definition in_flight (o : overlap) : list event := ov_written o ++ ov_queued o.

Inductive overlap_step : overlap → overlap → Prop :=
| step_begin o id operationId timestamp p :
    id ∉ ev_id <$> ov_log o ++ ov_queued o →
    overlap_step o (begin_append (new_event id operationId timestamp p o) o)
| step_write o e rest :
    ov_queued o = e :: rest →
    overlap_step o {| ov_log := ov_log o ++ [e]; ov_tip := ov_tip o; ov_queued := rest;
                      ov_written := ov_written o ++ [e] |}
| step_write_fails o e rest :
    ov_queued o = e :: rest →
    overlap_step o {| ov_log := ov_log o; ov_tip := ov_tip o; ov_queued := rest; ov_written := ov_written o |}
| step_resume o e rest :
    ov_written o = e :: rest →
    overlap_step o {| ov_log := ov_log o; ov_tip := Some (ev_id e); ov_queued := ov_queued o;
                      ov_written := rest |}.

Definition settled (o : overlap) : Prop := in_flight o = [].

(** What holds between any two steps: the log is a tree, and every queued event
    has a parent in it. *)
Record overlap_ok (o : overlap) : Prop := {
  ook_log : log_ok sid (ov_log o);
  ook_tip : ∃ t, ov_tip o = Some t ∧ t ∈ ev_id <$> ov_log o;
  ook_ids : NoDup (ev_id <$> ov_log o ++ ov_queued o);
  ook_written : Forall (λ e, e ∈ ov_log o) (ov_written o);
  ook_queued : Forall (λ e, ev_sessionId e = sid ∧
    ∃ p, ev_parentId e = Some p ∧ p ∈ ev_id <$> ov_log o) (ov_queued o)
}.

Lemma overlap_step_ok o o' : overlap_ok o → overlap_step o o' → overlap_ok o'.
Proof.
  intros [Hlog (t & Ht & Hin) Hids Hw Hq]. destruct 1 as [o id operationId timestamp p Hid|o e rest E|o e rest E|o e rest E];
    split; simpl; try done; eauto.
  - rewrite app_assoc, fmap_app. apply NoDup_snoc. done.
  - apply Forall_app. split; [done|]. apply Forall_singleton. split; [done|]. exists t. by rewrite <- Ht.
  - rewrite E in Hq, Hids. apply Forall_cons in Hq as [(Hs & q & Hp & Hqin) _]. constructor; [done|].
    split; [done| |by rewrite Hp].
    rewrite fmap_app in Hids. apply NoDup_app in Hids as (_ & Hd & _). intros Hin'. apply (Hd _ Hin'). by left.
  - exists t. split; [done|]. rewrite fmap_app. apply elem_of_app. by left.
  - rewrite E in Hids. by rewrite <- app_assoc.
  - apply Forall_app. split.
    + eapply Forall_impl; [exact Hw|]. intros x Hx. apply elem_of_app. by left.
    + apply Forall_singleton, elem_of_app. right. by left.
  - rewrite E in Hq. apply Forall_cons in Hq as [_ Hq]. eapply Forall_impl; [exact Hq|].
    intros x (Hs & q & Hp & Hqin). split; [done|]. exists q. split; [done|]. rewrite fmap_app. apply elem_of_app. by left.
  - rewrite E in Hids. rewrite fmap_app in Hids |- *. apply NoDup_app in Hids as (H1 & H2 & H3).
    apply NoDup_app. simpl in *. apply NoDup_cons in H3 as [_ H3]. split_and!; [done| |done].
    intros x Hx Hx'. apply (H2 x Hx). by right.
  - rewrite E in Hq. by apply Forall_cons in Hq as [_ Hq].
  - rewrite E in Hw. apply Forall_cons in Hw as [Hw _]. exists (ev_id e). split; [done|].
    by apply list_elem_of_fmap_2.
  - rewrite E in Hw. by apply Forall_cons in Hw as [_ Hw].
Qed.

Lemma overlap_run_ok o o' : overlap_ok o → rtc overlap_step o o' → overlap_ok o'.
Proof. intros Ho. induction 1 as [|o1 o2 o3 H1 _ IH]; [done|]. apply IH. by eapply overlap_step_ok. Qed.
End Overlap.


(** the log of a session whose appends overlap in any way, with writes that
    fail, is still a tree the session can open: every event it holds has its
    parent before it. *)
Theorem overlapping_appends_keep_tree sid o o' :
  is_uuid sid = true → overlap_ok sid o → rtc (overlap_step sid) o o' →
  is_ok (fromEvents (JStr sid) (ov_log o')) = true.
Proof.
  intros Hs Ho [Hlog _ _ _ _]%overlap_run_ok; [|done]. apply is_ok_true. eexists. apply fromEvents_Ok. eauto.
Qed.

Definition before_call : overlap :=
  {| ov_log := [sample_call (sample_fresh 0) None (AssistantMessage [] SToolUse None None)];
     ov_tip := Some (sample_fresh 0); ov_queued := []; ov_written := [] |}.

Lemma before_call_ok : overlap_ok sample_sid before_call.
Proof.
  split; simpl.
  - apply (log_snoc _ []); [constructor|]. split; [done|apply not_elem_of_nil|done].
  - eexists. split; [done|]. by left.
  - by apply NoDup_singleton.
  - constructor.
  - constructor.
Qed.

Lemma overlapping_appends_keep_tree_witness :
  is_ok (fromEvents (JStr sample_sid)
    (ov_log (begin_append (new_event sample_sid (sample_fresh 1) None 0 SessionResumed before_call) before_call))) = true.
Proof.
  apply (overlapping_appends_keep_tree sample_sid before_call);
    [vm_compute; reflexivity | apply before_call_ok | apply rtc_once; constructor; vm_compute].
  intros Hin. apply elem_of_cons in Hin as [Hin|Hin]; [discriminate | by apply elem_of_nil in Hin].
Defined.

(** Two appends that begin at the tip [t], and a third after both. *)
Definition event_at (sid id : string) (operationId : option string) (parent : string) (p : payload) : event :=
  {| ev_id := id; ev_sessionId := sid; ev_operationId := operationId; ev_parentId := Some parent;
     ev_timestamp := 0; ev_payload := p |}.

Lemma overlap_schedule sid log t op1 op2 op3 id1 id2 id3 p1 p2 p3 :
  NoDup [id1; id2; id3] → Forall (λ i, i ∉ ev_id <$> log) [id1; id2; id3] →
  rtc (overlap_step sid) {| ov_log := log; ov_tip := Some t; ov_queued := []; ov_written := [] |}
    {| ov_log := log ++ [event_at sid id1 op1 t p1; event_at sid id2 op2 t p2; event_at sid id3 op3 id2 p3];
       ov_tip := Some id3; ov_queued := []; ov_written := [] |}.
Proof.
  intros [H1 [H2 _]%NoDup_cons]%NoDup_cons [F1 [F2 [F3 _]%Forall_cons]%Forall_cons]%Forall_cons.
  eapply rtc_l; [apply (step_begin sid _ id1 op1 0 p1); by rewrite app_nil_r|].
  eapply rtc_l; [apply (step_begin sid _ id2 op2 0 p2)|].
  { simpl. rewrite fmap_app, elem_of_app. simpl. set_solver. }
  eapply rtc_l; [eapply step_write; reflexivity|]. eapply rtc_l; [eapply step_write; reflexivity|].
  eapply rtc_l; [eapply step_resume; reflexivity|]. eapply rtc_l; [eapply step_resume; reflexivity|].
  eapply rtc_l; [apply (step_begin sid _ id3 op3 0 p3)|].
  { simpl. rewrite !fmap_app, !elem_of_app. simpl. set_solver. }
  eapply rtc_l; [eapply step_write; reflexivity|]. eapply rtc_l; [eapply step_resume; reflexivity|].
  unfold begin_append, new_event. cbn [ov_log ov_tip ov_queued ov_written ev_id]. by rewrite <- !app_assoc.
Qed.

(** but an append that overlaps another is dropped from the lineage.  When a
    client's prompt is queued while the call of a tool is being written, both
    events get the same parent and the tip moves on to the prompt: the result of
    the tool follows the prompt, its call is on another branch, and the integrity
    check refuses the session from then on. *)
Theorem overlap_loses_tool_call sid o t operationId id1 id2 id3 callId name input items priority content isError details :
  is_uuid sid = true → overlap_ok sid o → in_flight o = [] → ov_tip o = Some t →
  NoDup [id1; id2; id3] → Forall (λ i, i ∉ ev_id <$> ov_log o) [id1; id2; id3] →
  (∀ path, path_to (ov_log o) t path → callId ∉ (calls_of path).*1) →
  ∃ o' e1 e2 e3, rtc (overlap_step sid) o o' ∧ in_flight o' = [] ∧ ov_log o' = ov_log o ++ [e1; e2; e3] ∧
    ev_payload <$> [e1; e2; e3] = [ToolCall callId name input; QueueEnqueued items priority;
                                   ToolResult callId name content isError details] ∧
    ev_operationId <$> [e1; e2; e3] = [operationId; Some id2; operationId] ∧
    is_ok (fromEvents (JStr sid) (ov_log o')) = true ∧
    ∀ tree, fromEvents (JStr sid) (ov_log o') = Ok tree → verifyToolCallIntegrity tree ≠ Ok tt.
Proof.
  intros Hs Ho Hsettled Ht Hnd Hfresh Hcalls.
  apply app_eq_nil in Hsettled as [Hw Hq]. destruct o as [log tip queued written]. simpl in *. subst.
  set (e1 := event_at sid id1 operationId t (ToolCall callId name input)).
  set (e2 := event_at sid id2 (Some id2) t (QueueEnqueued items priority)).
  set (e3 := event_at sid id3 operationId id2 (ToolResult callId name content isError details)).
  set (o' := {| ov_log := log ++ [e1; e2; e3]; ov_tip := Some id3; ov_queued := []; ov_written := [] |}).
  assert (Hrun : rtc (overlap_step sid) {| ov_log := log; ov_tip := Some t; ov_queued := []; ov_written := [] |} o')
    by (by apply overlap_schedule).
  pose proof (overlap_run_ok _ _ _ Ho Hrun) as [Hlog _ _ _ _].
  exists o', e1, e2, e3. split_and!; try done.
  - apply is_ok_true. eexists. apply fromEvents_Ok. eauto.
  - intros tree Htree Hv. destruct (path_exists sid log t) as (path & Hpath & _).
    { by destruct Ho. }
    { destruct Ho as [_ (t' & [= <-] & Hin) _ _ _]. done. }
    pose proof (fromEvents_Ok (JStr sid) (ov_log o') tree) as Hiff. 
    apply Hiff in Htree as (sid' & [= <-] & _ & _ & ->).
    pose proof (proj1 (verify_paired sid (ov_log o') Hlog) Hv) as Hpaired.
    assert (path_to (ov_log o') id3 ((path ++ [e2]) ++ [e3])) as Hp3.
    { change id3 with (ev_id e3). eapply path_step; [apply elem_of_app; right; set_solver|reflexivity|].
      change id2 with (ev_id e2). eapply path_step; [apply elem_of_app; right; set_solver|reflexivity|].
      by apply path_to_app. }
    apply Hpaired, paired_snoc in Hp3 as [_ [Hin _]]. rewrite calls_of_snoc in Hin. simpl in Hin.
    rewrite app_nil_r in Hin. apply (Hcalls path Hpath). by apply (list_elem_of_fmap_2 fst) in Hin.
Qed.

Lemma overlap_loses_tool_call_witness :
  ∃ o' e1 e2 e3, rtc (overlap_step sample_sid) before_call o' ∧ in_flight o' = [] ∧
    ov_log o' = ov_log before_call ++ [e1; e2; e3] ∧
    ev_payload <$> [e1; e2; e3] = [ToolCall "c1" "bash" []; QueueEnqueued [CText "next"] Back;
                                   ToolResult "c1" "bash" [CText "done"] false None] ∧
    ev_operationId <$> [e1; e2; e3] = [None; Some (sample_fresh 2); None] ∧
    is_ok (fromEvents (JStr sample_sid) (ov_log o')) = true ∧
    ∀ tree, fromEvents (JStr sample_sid) (ov_log o') = Ok tree → verifyToolCallIntegrity tree ≠ Ok tt.
Proof.
  apply (overlap_loses_tool_call sample_sid before_call (sample_fresh 0) None
    (sample_fresh 1) (sample_fresh 2) (sample_fresh 3)).
  - vm_compute. reflexivity.
  - apply before_call_ok.
  - reflexivity.
  - reflexivity.
  - apply (bool_decide_unpack _). vm_compute. exact I.
  - apply (bool_decide_unpack _). vm_compute. exact I.
  - intros path Hp Hin. assert (path = ov_log before_call) as ->.
    { pose proof (lineage_path sample_sid _ _ _ (ook_log _ _ before_call_ok) Hp) as Hl.
      vm_compute in Hl. injection Hl as <-. reflexivity. }
    apply elem_of_nil in Hin. exact Hin.
Defined.
