(* ===== verification/SessionCompact.v ===== *)
(** Compaction end to end: [compact] and the summary it asks for. *)
From stdpp Require Import base list sets strings pretty.
From Stdlib Require Import ZArith Lia.
From S2P Require Import Prelude Text JsValue Json Envelope Types ModelRequest Events Arith JsMap SessionTree Replay Tools ModelStream Compaction AgentSession SessionFacts SessionRetry SessionCalls.

(** ** The summary *)

Definition is_text (e : ModelStreamEvent) : option string :=
  match e with TextDelta t _ => Some t | _ => None end.
Definition is_call (e : ModelStreamEvent) : bool := match e with ToolCallEvent _ _ => true | _ => false end.

Section Summary.
Context {S : Type} (configured : ModelRequestConfiguration → S → result summary_error unit * S).

Lemma text_app a b c : (a +:+ b) +:+ c = a +:+ (b +:+ c).
Proof. induction a as [|x a IH]; [done|]. simpl. by f_equal. Qed.

Lemma summary_loop_Ok items aborted s text text' usage aborted' s' :
  summary_loop configured items aborted s text = (Ok (text', Some usage), aborted', s') →
  text' = text +:+ String.concat "" (omap is_text (seen items)) ∧
  Forall (λ e, is_call e = false) (seen items) ∧
  (∃ p r d, last (seen items) = Some (Completed SStop usage p r d)) ∧
  (aborted' = false → aborted = false).
Proof.
  assert (concat_cons : ∀ t l, String.concat "" (t :: l) = t +:+ String.concat "" l).
  { intros t [|t' l]; [|done]. simpl. induction t as [|x t IH]; [done|]. simpl. by f_equal. }
  assert (app_nil : ∀ t : string, t +:+ "" = t) by (intros t; induction t as [|x t IH]; simpl; [done|by f_equal]).
  revert aborted s text; induction items as [|i items IH]; intros aborted s text; cbn [summary_loop seen]; [done|].
  destruct i as [e|c|m|c].
  - assert (Hskip : ∀ aborted s text, is_call e = false → isTerminalModelStreamEvent e = false →
      summary_loop configured items aborted s (text +:+ default "" (is_text e)) = (Ok (text', Some usage), aborted', s') →
      text' = text +:+ String.concat "" (omap is_text (e :: seen items)) ∧
      Forall (λ e, is_call e = false) (e :: seen items) ∧
      (∃ p r d, last (e :: seen items) = Some (Completed SStop usage p r d)) ∧
      (aborted' = false → aborted = false)).
    { intros aborted0 s0 text0 Hc Ht (Ht' & Hf & (p & r & d & Hl) & Ha)%IH. split_and!; [|by constructor| |done].
      - rewrite Ht', text_app. f_equal.
        change (omap is_text (e :: seen items)) with
          (match is_text e with Some t => t :: omap is_text (seen items) | None => omap is_text (seen items) end).
        destruct (is_text e) as [t|]; [by rewrite concat_cons|done].
      - exists p, r, d. by rewrite last_cons, Hl. }
    destruct e; cbn [isTerminalModelStreamEvent] in *; try done; try (apply Hskip; done);
      try (intros Hrun; apply (Hskip aborted s text); [done|done|]; simpl; by rewrite app_nil).
    case_bool_decide as Hr; [|done]. subst. intros [= <- <- <- <-]. simpl. rewrite app_nil.
    split_and!; [done|by repeat constructor|eauto|done].
  - destruct (configured c s) as [[u|err] s1]; [apply IH|done].
  - done.
  - destruct c; try apply IH. intros (H1 & H2 & H3 & H4)%IH. split_and!; [done..|]. intros Ha. by apply H4 in Ha.
Qed.
End Summary.

(** a summary is taken only from a stream that completed with stop, without a
    tool call and without an abort at any time; it is the trimmed text of the
    stream and is not empty, and its usage is that of the completion. *)
Theorem summary_accepted {S} (configured : ModelRequestConfiguration → S → result summary_error unit * S)
    items aborted (s s' : S) summary usage aborted' :
  summarizeCompaction configured items aborted s = (Ok (summary, usage), aborted', s') →
  aborted = false ∧ aborted' = false ∧
  summary = js_trim (String.concat "" (omap is_text (seen items))) ∧ summary ≠ "" ∧
  Forall (λ e, is_call e = false) (seen items) ∧
  ∃ p r d, last (seen items) = Some (Completed SStop usage p r d).
Proof.
  unfold summarizeCompaction. destruct aborted; [done|].
  destruct (summary_loop _ _ _ _ _) as [[[[text [u|]]|e] a] s1] eqn:E1; try (destruct a; done).
  - destruct a; [done|]. cbv zeta. case_bool_decide as Hne; [done|]. intros [= <- <- <- <-].
    apply summary_loop_Ok in E1 as (-> & Hf & Hl & _). done.
Qed.

Lemma summary_accepted_witness :
  let items := [Yield (TextDelta " goal" None); Yield (TextDelta "s " None); Yield (Completed SStop SessionFacts.sample_usage None None [])] in
  false = false ∧ false = false ∧
  "goals" = js_trim (String.concat "" (omap is_text (seen items))) ∧ "goals" ≠ "" ∧
  Forall (λ e, is_call e = false) (seen items) ∧
  ∃ p r d, last (seen items) = Some (Completed SStop SessionFacts.sample_usage p r d).
Proof.
  apply (summary_accepted (λ _ u, (Ok tt, u)) _ false tt tt). vm_compute. reflexivity.
Defined.

(** ** The operation *)

(** The model-facing state. *)
Definition same_context {L} (s s' : session L) : Prop :=
  ss_messages s' = ss_messages s ∧ ss_contextUsage s' = ss_contextUsage s.
#[export] Instance same_context_preorder {L} : PreOrder (same_context (L := L)).
Proof. split; unfold same_context; repeat intro; [done | naive_solver congruence]. Qed.
#[export] Hint Extern 1 (same_context _ _) => solve [unfold same_context; done] : evolving.

Section Context.
Context {L E : Type} `{EventStoreLaws L E, !ExactStore L E} (env : environment) (cfg : settings).
Implicit Types s : session L.
#[local] Abbreviation keeps := (preserving (E := E) (same_context (L := L))).

Lemma append_raw_context op p s r s' : append_raw env op p s = (r, s') → same_context s s'.
Proof.
  unfold append_raw. destruct (parseEvent _); [destruct (store_append _ _) as [[]]|]; by intros [= _ <-].
Qed.

Lemma append_context op p : keeps (append env op p).
Proof.
  intros s r s'. unfold append. destruct (append_raw _ _ _ _) as [[e|[]] s1] eqn:E1; intros [= _ <-];
    by eapply append_raw_context.
Qed.

Lemma operation_id_context requested : keeps (operation_id env requested).
Proof.
  intros s r s'. unfold operation_id. destruct requested; [intros [= _ <-]; reflexivity|].
  by destruct (parseOperationId _ _); intros [= _ <-].
Qed.

Lemma summary_loop_context op items aborted s text r aborted' s' :
  summary_loop (append_configuration env op) items aborted s text = (r, aborted', s') → same_context s s'.
Proof.
  revert aborted s text; induction items as [|i items IH]; intros aborted s text; cbn [summary_loop].
  - by intros [= _ _ <-].
  - destruct i as [e|c|m|c].
    + destruct e; try apply IH; try case_match; by intros [= _ _ <-].
    + unfold append_configuration at 1. destruct (append_raw _ _ _ _) as [[e|err] s1] eqn:E1;
        apply append_raw_context in E1.
      * intros H'%IH. by etransitivity.
      * by intros [= _ _ <-].
    + by intros [= _ _ <-].
    + destruct c; apply IH.
Qed.

Lemma run_summary_context op plan instructions : keeps (run_summary env op plan instructions).
Proof.
  intros s r s'. unfold run_summary. destruct (ss_aborted s); [intros [= _ <-]; reflexivity|].
  destruct (summarizeCompaction _ _ _ _) as [[r1 aborted] s1] eqn:E1. intros [= _ <-].
  unfold summarizeCompaction in E1. cbn in E1. destruct (ss_aborted s); [by injection E1 as _ _ <-|].
  destruct (summary_loop _ _ _ _ _) as [[r2 a2] s2] eqn:E2. apply summary_loop_context in E2.
  assert (s1 = s2) as -> by (repeat case_match; by simplify_eq). exact E2.
Qed.

Lemma read_log_context : keeps read_log.
Proof. intros s r s'. unfold read_log. destruct (store_read _). by intros [= _ <-]. Qed.
#[local] Hint Resolve append_context operation_id_context run_summary_context read_log_context : evolving.

Lemma current_lineage_context : keeps current_lineage.
Proof. unfold current_lineage. evolve. Qed.

(** The lineage a compaction plans on is the one of the tip. *)
Lemma current_lineage_Ok s path s' :
  current_lineage s = (Ok path, s') → (b_tip (ss_branch s) = None ∧ path = []) ∨
    (∃ tip, b_tip (ss_branch s) = Some tip ∧ path_to (log_events s) tip path).
Proof.
  unfold current_lineage. intros (evs & s1 & H1 & H2)%bindM_Ok. unfold read_log in H1.
  destruct (store_read _) as [[evs'|err] l] eqn:Er; injection H1 as H1 <-; [|done]. subst evs'.
  apply store_read_Ok in Er. apply bindM_Ok in H2 as (s2 & s3 & [= <- <-] & H2).
  apply bindM_Ok in H2 as (tree & s4 & [= Ht <-] & H2). simpl in *.
  destruct (fromEvents _ _) as [t|] eqn:Et; [|done]. injection Ht as ->.
  destruct (b_tip (ss_branch s)) as [tip|]; [right | left; by injection H2 as <- _].
  exists tip. split; [done|]. injection H2 as H2 _.
  destruct (lineage tree tip) as [p|] eqn:El; [|done]. injection H2 as <-.
  apply fromEvents_Ok in Et as (? & [= <-] & _ & Hlog & ->). unfold log_events. rewrite <- Er.
  by apply (lineage_iff _ _ _ _ Hlog).
Qed.

Lemma compact_body_spec op instructions s r s' :
  compact_body env cfg op instructions s = (r, s') →
  match r with
  | Err _ => same_context s s'
  | Ok e => ∃ path plan summary usage,
      (∃ tip, b_tip (ss_branch s) = Some tip ∧ path_to (log_events s) tip path) ∧
      prepareCompaction path (cfg_keepRecentTokens cfg) = Ok (Some plan) ∧
      ev_payload e = ContextCompacted summary (plan_replacedEventIds plan) (Some usage) ∧
      last (log_events s') = Some e ∧
      messagesFromLineage (path ++ [e]) = Ok (ss_messages s') ∧ ss_contextUsage s' = None
  end.
Proof.
  unfold compact_body. unfold bindM at 1.
  destruct (current_lineage s) as [[path|err] s1] eqn:E1;
    pose proof (current_lineage_context _ _ _ E1) as C1; [|by intros [= <- <-]].
  unfold bindM at 1. simpl lift. unfold lift at 1.
  destruct (plan_or_unavailable cfg path) as [plan|err] eqn:Ep; [|by intros [= <- <-]].
  unfold bindM at 1. destruct (run_summary env op plan instructions s1) as [[[summary usage]|err] s2] eqn:E2;
    pose proof (run_summary_context _ _ _ _ _ _ E2) as C2;
    assert (same_context s s2) as C12 by (by etransitivity); [|by intros [= <- <-]].
  unfold bindM at 1, get_session. unfold bindM at 1. destruct (ss_aborted s2); [by intros [= <- <-]|].
  unfold ret at 1. unfold bindM at 1.
  destruct (append env (Some op) _ s2) as [[e|err] s3] eqn:E3;
    pose proof (append_context _ _ _ _ _ E3) as C3;
    assert (same_context s s3) as C13 by (by etransitivity); [|by intros [= <- <-]].
  unfold bindM at 1, lift. destruct (messagesFromLineage (path ++ [e])) as [messages|err] eqn:Em;
    [|by intros [= <- <-]].
  intros [= <- <-]. apply append_log in E3 as [Hl Hpay]. exists path, plan, summary, usage.
  assert (prepareCompaction path (cfg_keepRecentTokens cfg) = Ok (Some plan)) as Hplan.
  { unfold plan_or_unavailable in Ep. destruct (prepareCompaction _ _) as [[p|]|[]]; by simplify_eq. }
  split_and!; try done.
  - apply current_lineage_Ok in E1 as [[_ ->]|?]; [|done]. exfalso. unfold prepareCompaction in Hplan.
    by apply bind_Ok in Hplan as (? & _ & Hplan).
  - change (last (log_events s3) = Some e). by rewrite Hl, last_snoc.
Qed.
End Context.

(** a compaction that returns has appended one event, which names what the
    plan made from the lineage of the tip replaces, and the session goes on with
    exactly the messages a replay of that lineage and the event gives; the usage
    reported for the old context is forgotten.  One that throws, at any point,
    leaves the messages and the usage as they were. *)
Theorem compact_outcome {L E} `{EventStoreLaws L E, !ExactStore L E} env cfg c signal requested (s : session L) r s' :
  compact env cfg c signal requested s = (r, s') →
  match r with
  | Err _ => same_context s s'
  | Ok e => ∃ path plan summary usage,
      (∃ tip, b_tip (ss_branch s) = Some tip ∧ path_to (log_events s) tip path) ∧
      prepareCompaction path (cfg_keepRecentTokens cfg) = Ok (Some plan) ∧
      ev_payload e = ContextCompacted summary (plan_replacedEventIds plan) (Some usage) ∧
      last (log_events s') = Some e ∧
      messagesFromLineage (path ++ [e]) = Ok (ss_messages s') ∧ ss_contextUsage s' = None
  end.
Proof.
  unfold compact. unfold bindM at 1. destruct (unless_active _ s) as [[op|err] s1] eqn:E1.
  - assert (same_context s s1 ∧ log_events s1 = log_events s ∧ b_tip (ss_branch s1) = b_tip (ss_branch s)) as (C1 & Hl & Ht).
    { unfold unless_active in E1. destruct (ss_active s); [done|]. case_bool_decide; [done|].
      unfold operation_id in E1. destruct requested; [by injection E1 as _ <-|].
      by destruct (parseOperationId _ _); injection E1 as _ <-. }
    unfold bindM, modify, finally. destruct (compact_body _ _ _ _ _) as [r2 s2] eqn:E2. intros [= <- <-].
    apply compact_body_spec in E2. destruct r2 as [e|err].
    + destruct E2 as (path & plan & summary & usage & (tip & Htip & Hp) & Hrest).
      exists path, plan, summary, usage. split; [|exact Hrest]. exists tip. split; [by rewrite <- Ht|]. by rewrite <- Hl.
    + etransitivity; [exact C1|]. exact E2.
  - intros [= <- <-]. unfold unless_active in E1. destruct (ss_active s); [by injection E1 as _ <-|].
    case_bool_decide; [by injection E1 as _ <-|]. by eapply operation_id_context.
Qed.

Definition compact_environment : environment :=
  sample_environment [[Yield (TextDelta "the goals" None); Yield (Completed SStop SessionFacts.sample_usage None None [])]].
Definition compact_settings : settings :=
  {| cfg_system := None; cfg_tools := []; cfg_retry := None; cfg_keepRecentTokens := NInt 1 |}.
Definition long_session : session (list event) :=
  {| ss_branch :=
       {| b_log := [sample_call (sample_fresh 7) None (UserMessage [CText "hello"]);
                    sample_call (sample_fresh 8) (Some (sample_fresh 7)) (AssistantMessage [CText "hi"] SStop None None);
                    sample_call (sample_fresh 9) (Some (sample_fresh 8)) (UserMessage [CText "again"])];
          b_sessionId := sample_sid; b_tip := Some (sample_fresh 9); b_emitted := [] |};
     ss_messages := []; ss_contextUsage := None; ss_active := None;
     ss_queues := {| q_accepting := false; q_steering := []; q_followUp := [] |}; ss_aborted := false;
     ss_draws := {| d_ids := 0; d_streams := 0; d_tools := 0; d_sleeps := 0; d_randoms := 0 |};
     ss_frames := []; ss_requests := [] |}.

Lemma compact_outcome_witness :
  ∃ e s', compact (E := unit) compact_environment compact_settings None false None long_session = (Ok e, s') ∧
  ∃ path plan summary usage,
    (∃ tip, b_tip (ss_branch long_session) = Some tip ∧ path_to (log_events long_session) tip path) ∧
    prepareCompaction path (cfg_keepRecentTokens compact_settings) = Ok (Some plan) ∧
    ev_payload e = ContextCompacted summary (plan_replacedEventIds plan) (Some usage) ∧
    last (log_events s') = Some e ∧
    messagesFromLineage (path ++ [e]) = Ok (ss_messages s') ∧ ss_contextUsage s' = None.
Proof.
  destruct (compact (E := unit) compact_environment compact_settings None false None long_session) as [[e|err] s'] eqn:Ec.
  - exists e, s'. split; [reflexivity|].
    exact (compact_outcome compact_environment compact_settings None false None long_session (Ok e) s' Ec).
  - exfalso. vm_compute in Ec. discriminate Ec.
Defined.
